(* ===== verification/_CoqProject ===== *)
-Q . S2P
Prelude.v
Json.v
Time.v
Spec.v
Transitions.v
Gates.v
Graph.v
CriticalPath.v
Limits.v
Resolver.v
Tokens.v
Validate.v
WellFormed.v
Bpmn.v
Foreach.v
Store.v
Hoare.v
Evolution.v
Ops.v
ForeachReconciler.v
Reconciler.v
Access.v
Manifest.v
Drafts.v
Canonical.v
Persisted.v
Lifecycle.v
Sample.v
Templates.v
Settle.v
Engine.v
Approvals.v
Edits.v
Timeline.v
Finalize.v
Rollup.v
Walk.v
PausedEdit.v
Roundtrip.v
Documents.v
Isolation.v
Tools.v
Safety.v
Control.v
Progress.v
Extensions.v
Closure.v
InstallPlan.v
ExtensionLifecycle.v
RequiredInProd.v
Crash.v
InstallBatch.v
Dispatcher.v
Proposals.v
