(* ===== verification/Prelude.v ===== *)
(** * Verification of Cinatra's workflows and extensions: overview

    Cinatra is a TypeScript monorepo.  Two of its subsystems are modelled.
    [packages/workflows] holds workflows authored as JSON specs, checked and
    scheduled, stored in PostgreSQL and driven by a durable reconciler that
    survives crashes and overlapping ticks; its paths below are under
    [src/packages/workflows/src/].  The extension subsystem
    ([packages/extensions], and the planner, the install saga and the boot gate of
    the host, [src/lib/extension-*.ts]) decides what is installed, locked and
    removed; its paths below are under [src/packages/] or [src/src/lib/].

    ** How the parts interact

    An author (often a language model) writes a spec.  The three-tier validator
    accepts it (template, draft, start), the resolver turns its schedules into
    instants, the store saves it as rows.  While a workflow is a draft or paused
    its spec is edited: the store reads the spec back from the rows, checks the
    edited one and writes it, a draft by rebuilding its rows, a paused workflow
    in place.  A tick reconciles each active workflow: it settles agent runs that
    ended, advances fan-out parents, applies rejected approvals, re-opens stale
    ones, and claims, dispatches and records tasks until nothing is ready; it
    finalizes the workflow, solicits approvals and notifies.  Humans decide
    approvals, pause, resume, cancel and complete manual tasks.

    Workflows also arrive as packages: a BPMN document in a package directory is
    checked, compiled to a spec, and its manifest installed as a template, which
    users of the organizations that installed the package discover.  A chat
    assistant reaches all of this through tools: it reads what its user may read
    and proposes drafts, which only a human starts.

    An extension is a row of the manifest table [installed_extension], with the
    dependency edges its manifest declares.  Installing one plans its missing
    dependencies and installs them in order, each through the dispatcher, under a
    ledger from which a failure or a crash is undone.  The dispatcher gates each
    operation on locks, closures and pins, calls the handler of the kind and keeps
    the table in step through the lifecycle primitive.  At boot, required
    extensions and the closures of the live rows are verified and abandoned
    batches swept.

    ** Files

    Shared: [Prelude] (notations, results, folds that may throw, string and list
    lemmas, the tactics [bprop] and [split_matches]), [Json] (JavaScript values),
    [Time] (instants, ISO text, the calendar library's interface [DateEnv]).

    The spec and what is computed from it:
    - [Spec]: [spec/types.ts], [spec/schema.ts], records of an accepted spec;
    - [Limits]: [spec/limits.ts], the static bounds;
    - [Graph]: the cycle search [hasCycle]; [Tokens]: template tokens;
    - [Validate] and [WellFormed]: [spec/validate.ts], the three tiers and the
      declarative meaning of an accepted spec;
    - [Resolver]: [schedule/resolver.ts]; [CriticalPath]: [schedule/critical-path.ts];
    - [Foreach]: [engine/foreach.ts], the fan-out materializer.

    The state machines: [Transitions] ([state/transitions.ts]) and [Gates]
    ([state/gates.ts], [engine/gate-eval.ts]).

    The engine, as code over tables:
    - [Store]: the tables of [schema.ts] with their constraints, the statements
      the engine issues, the monad [M] (tables, draws of ids and clocks,
      exceptions), transactions that roll back;
    - [Hoare]: the rules and tactics of the triple [wp]; [Evolution]: the contract
      of every write ([evolves]) and the dispatch invariant ([inv]);
    - [Ops]: parameters, executors, notifications, the delegated actor and the
      review-packet hash; [ForeachReconciler], [Reconciler], [Lifecycle]: the
      files of the same names under [engine/];
    - [Sample]: a concrete runtime and small tables for the instances.

    The store ([store.ts]):
    - [Drafts]: creating a workflow from a spec, rebuilding a draft, the
      diff-apply of a paused edit, reading a spec back;
    - [Approvals]: decisions, the inbox, the listings; [Edits]: the narrow edits
      (add, remove, move, rename, re-parent, reschedule) through the one
      compare-and-set path;
    - [Access]: [scope/resource-ref.ts] and [lint/trigger-bundling.ts];
    - [Templates]: the catalogue of templates at the top of [store.ts], with
      [extension-ops.ts] (install, uninstall) and [extension-handler.ts]
      (archive, discovery).
    [Canonical] and [Persisted] hold the facts about the two comparisons of the
    store: canonical JSON text, and a spec against the spec read back from it.

    Packages: [Bpmn] ([bpmn/profile.ts], [bpmn/compile.ts]), [Manifest]
    ([manifest.ts], [bpmn/sidecar.ts]).  Tools: [Tools] ([mcp/handlers.ts], one
    definition per handler and [run_tool] over all of them).

    Theorems about the engine: [Settle] (leases, outcomes, retries), [Engine] (every
    pass keeps the contract), [Finalize] (the propagation loop and the final
    status), [Rollup] (fan-out parents), [Safety] (all interleavings), [Control]
    (pause, resume, cancel, inactive workflows), [Progress] (a ready task is
    dispatched).
    Theorems about the store: [Roundtrip] (create, then read back), [Documents]
    (a draft as a versioned document), [PausedEdit] (edits of a paused workflow),
    [Timeline] (dragging a task, the narrow edits), [Isolation] (an edit touches
    the rows of its own workflow only), over the generic walks of [Walk].
    Theorems about the tools: [Proposals].

    The extension subsystem, definitions and theorems of each part together:
    - [Extensions]: [canonical-types.ts], [manifest-dependencies.ts], the version
      and scope helpers of [packages/registries]; [Closure]:
      [dependency-closure.ts] and its gates;
    - [InstallPlan]: [extension-dependency-plan.ts]; [RequiredInProd]:
      [required-in-prod.ts] and [extension-closure-boot-gate.ts];
    - [ExtensionLifecycle]: [lifecycle-primitive.ts] over the table of
      [canonical-store.ts], with [canonical-gate.ts], [static-bundle-anchor.ts]
      and [non-finalized-row.ts];
    - [Crash]: operations that may throw and may be cut off after any durable step;
      [InstallBatch]: [extension-install-batch.ts] and its ledger
      [extension-install-batch-ops.ts]; [Dispatcher]: the operations of
      [packages/extensions/src/index.ts], the three hooks and
      [system-extension-inventory.ts].
    The records of [ExtensionLifecycle] are the rows [Closure] computes on; the
    saga drives an abstract host with laws ([BatchHost]), which [Dispatcher] shows
    its operations to keep, an install's as long as the store answers; the
    dispatcher calls handlers and hooks that leave
    the manifest rows in place ([DispatchLaws]).

    ** What the theorems show

    - Pure parts: the validator's verdict is equivalent to a declarative meaning
      and implies bounds, acyclicity and resolvable references; the resolver is
      deterministic, ordered and complete; the critical path is a longest path; the
      materializer's batches are bounded, distinct, stable under appended items.
    - One operation: functional specifications of settlement, lease take-over,
      retries, finalization, fan-out decisions, cancellation, pause and resume,
      approval decisions, errors included.
    - Progress: what is ready when a claim reads the tables is dispatched by that
      claim, unless it fails as a whole or its batch is full.
    - Packages: the spec compiled from an accepted document has one task per task
      element and a dependency exactly where flows connect two tasks through
      gateways; the sidecar parser accepts a package iff its checks pass; the
      catalogue refines a finite map from organization, key and version;
      installing is all or nothing, and needs agents and approvers the consuming
      organization can resolve; discovery shows an actor the packages of its
      organizations only.
    - Tools: whatever the call, at most one draft or template of the actor is
      added or one draft it manages gets a new spec, and what a tool shows or
      uses is readable by its actor.
    - The store: a created workflow reads back as its spec; replacing the spec of
      a draft refines a compare-and-set on a versioned document; an edit is
      all-or-nothing; a paused edit keeps every attempt, artifact and event and
      the identity of every task with evidence; what a user may see and manage.
    - All interleavings ([Safety]): each operation is one transaction of a step
      relation in which executors may answer late, twice or never, and lifecycle
      calls, approval decisions and heartbeats fall in between.  No task has two
      live attempts, every dispatch is justified by the tables it read, and
      history is never lost.  Spec edits replace tasks, so they are not steps of
      this relation: [PausedEdit] and [Documents] state what they keep.

    - Extensions: the manifest reader drops and weakens no edge; the closure walk
      ends and finds what is reachable; what the gates let through breaks no
      closure; an install plan is complete, ordered and authorized; whatever
      lifecycle calls are made a locked row survives; a production boot fails
      exactly when a pin or a closure is broken.  An install with dependencies is
      all or nothing, also across crashes and the boot sweep, with the exception
      [InstallBatch.rollback_crash_kept] shows, and batches in flight do not
      overlap; a dispatcher operation changes only the rows it is about, however it
      ends, and what the boot lock locked is not removed.

    ** Bounds and fuel

    The claim loop keeps the source's own bound of 200 iterations.  The
    propagation loop has one unit of fuel per task and one more, which
    [finalize_loop_ends] proves to be enough.  The searches of [Graph],
    [CriticalPath] and [Resolver] have fuel bounded by the number of nodes, with
    completeness proved in their files.  The walks of [Closure] and [InstallPlan]
    have one unit of fuel per package, and are proved to end within it.  In
    [Crash] the number an operation is given is no fuel: it is the number of
    durable steps before the process dies, and statements hold for every number.

    ** Parameters

    Code outside the repository is a parameter: ids, clocks, sha256,
    [localeCompare], the driver's conversions and the key order a [jsonb] column
    returns ([Runtime]), the calendar library ([DateEnv]), Zod's [safeParse],
    executors and the hooks of the host, the parser of BPMN XML, [JSON.parse] and
    [Number] of a text ([JsText]), the gates the tools are given.  Hypotheses state documented behaviour:
    hooks do not write the engine's tables, a [jsonb] column only reorders keys,
    [randomUUID] does not repeat itself.  For the extensions: semantic-version
    matching ([Semver]), the registry reader and manifest parser of the planner, the
    grants of a gatekept install, the journal of installs, the handlers of the
    kinds and the hooks of the host, and which database statements fail
    ([Faults]).  What other sessions commit between two
    transactions of one operation is an arbitrary change of the tables
    ([others]).

    ** Not modelled

    Of this package: the part of the extension install that reads the package
    from disk and provisions dashboards, the registration of the tools with the
    MCP server ([mcp/registry.ts]), the bootstrap of the runtime and of the
    database connection.  Of the extension subsystem: the pipeline behind the
    activation hook ([src/lib/extension-install-pipeline.ts]: downloads, signatures,
    files), the grant context that nested installs inherit, listing queries, the
    texts of errors and warnings, and the interleaving of two dispatcher
    operations on one package.  Of the repository: the other packages (agents,
    chat and UI, command line, skills, objects, A2A, MCP server, web application,
    build scripts), most of which is input and output around libraries.  The advisory lock is the atomicity of a
    transaction; the lock-free statements are single compare-and-set updates.
    Executors of one tick run left to right. *)

From stdpp Require Export base tactics list sorting strings sets gmap.
From Stdlib Require Export ZArith Lia Ascii.
From Stdlib Require Import DecimalString DecimalPos DecimalN DecimalZ.

(** ** Notations of the development *)

Declare Scope wf_scope.
Delimit Scope wf_scope with wf.

(** [x ≟ y] is the JavaScript [===] on values with decidable equality. *)
Notation "x ≟ y" := (bool_decide (x = y)) (at level 70, no associativity) : wf_scope.
Open Scope wf_scope.

(** [x ?? d] is the nullish-coalescing operator on an optional value. *)
Notation "x ?? d" := (default d x) (at level 45, right associativity) : wf_scope.

(** ** Results of code that may throw *)

Inductive result (E A : Type) : Type :=
  | Ok (a : A)
  | Err (e : E).
Arguments Ok {E A} a.
Arguments Err {E A} e.

#[export] Instance result_ret E : MRet (result E) := fun A a => Ok a.
#[export] Instance result_bind E : MBind (result E) :=
  fun A B f m => match m with Ok a => f a | Err e => Err e end.

Definition is_ok {E A} (r : result E A) : bool :=
  match r with Ok _ => true | Err _ => false end.

Section result_lemmas.
Context {E : Type}.

Lemma result_bind_Ok {A B} (f : A → result E B) (m : result E A) b :
  m ≫= f = Ok b ↔ ∃ a, m = Ok a ∧ f a = Ok b.
Proof.
  destruct m as [a|e]; cbn; split; intros H; eauto; try discriminate.
  - destruct H as (a' & [= ->] & H). exact H.
  - destruct H as (a' & H & _). discriminate.
Qed.

Lemma result_bind_Err {A B} (f : A → result E B) (m : result E A) e :
  m ≫= f = Err e ↔ m = Err e ∨ ∃ a, m = Ok a ∧ f a = Err e.
Proof.
  destruct m as [a|e']; cbn; split; intros H; eauto.
  - destruct H as [H|(a' & [= ->] & H)]; [discriminate|exact H].
  - left. congruence.
  - destruct H as [H|(a' & H & _)]; congruence.
Qed.

(** Mapping a throwing function over a list: the first throw wins. *)
Lemma result_mapM_Ok {A B} (f : A → result E B) l k :
  mapM f l = Ok k ↔ Forall2 (λ x y, f x = Ok y) l k.
Proof.
  revert k. induction l as [|x l IH]; intros k; cbn.
  - split; [intros [= <-]; constructor|inversion 1; reflexivity].
  - split.
    + intros H. apply result_bind_Ok in H as (y & Hy & H).
      apply result_bind_Ok in H as (k' & Hk & [= <-]).
      constructor; [exact Hy|by apply IH].
    + inversion 1 as [|? y ? k' Hy Hk]; subst. cbn. rewrite Hy. cbn.
      apply IH in Hk. rewrite Hk. reflexivity.
Qed.

Lemma result_mapM_Err {A B} (f : A → result E B) l e : mapM f l = Err e → ∃ x, x ∈ l ∧ f x = Err e.
Proof.
  induction l as [|x l IH]; [done|]. cbn. intros [H|(y & _ & H)]%result_bind_Err; [set_solver|].
  apply result_bind_Err in H as [H|(k & _ & H)]; [|done]. set_solver.
Qed.
End result_lemmas.

(** ** Tactics *)

(** Turns boolean tests in the context into the propositions they decide. *)
Ltac bprop :=
  repeat match goal with
  | H : _ && _ = true |- _ => apply andb_true_iff in H as [? ?]
  | H : _ || _ = false |- _ => apply orb_false_iff in H as [? ?]
  | H : negb _ = true |- _ => apply negb_true_iff in H
  | H : negb _ = false |- _ => apply negb_false_iff in H
  | H : bool_decide _ = true |- _ => apply bool_decide_eq_true in H
  | H : bool_decide _ = false |- _ => apply bool_decide_eq_false in H
  | H : (_ <=? _)%Z = true |- _ => apply Z.leb_le in H
  | H : (_ <=? _)%Z = false |- _ => apply Z.leb_gt in H
  | H : (_ <? _)%Z = true |- _ => apply Z.ltb_lt in H
  | H : (_ <? _)%Z = false |- _ => apply Z.ltb_ge in H
  | H : (_ =? _)%Z = true |- _ => apply Z.eqb_eq in H
  | H : (_ =? _)%Z = false |- _ => apply Z.eqb_neq in H
  end.

(** Splits every [match] and [if] of the goal, then simplifies equations. *)
Ltac split_matches := repeat (case_match; simplify_eq/=); bprop.

(** Opens a chain of binds that succeeded. *)
Ltac result_inv :=
  repeat match goal with
  | H : (_ ≫= _) = Ok _ |- _ =>
      let a := fresh "a" in let Ha := fresh "Ha" in
      apply result_bind_Ok in H as (a & Ha & H)
  | H : mret _ = Ok _ |- _ => injection H as H; subst
  | H : Ok _ = Ok _ |- _ => injection H as H; subst
  | H : Err _ = Ok _ |- _ => discriminate H
  | H : Ok _ = Err _ |- _ => discriminate H
  end.

(** ** Strings

    A JavaScript string is modelled as a Rocq string: every character is one
    UTF-16 code unit below 256 (Latin-1).  [length], comparison, slicing and
    case mapping agree with JavaScript on that range. *)

Definition str_len (s : string) : Z := Z.of_nat (String.length s).

Definition startsWith (p s : string) : bool := String.prefix p s.

(** [s.slice(n)] for [0 <= n]. *)
Definition str_drop (n : nat) (s : string) : string := String.substring n (String.length s - n) s.

(** [s.slice(0, n)] for [0 <= n]. *)
Definition str_take (n : nat) (s : string) : string := String.substring 0 n s.

Definition join (sep : string) (l : list string) : string := String.concat sep l.

Definition char_code (c : ascii) : Z := Z.of_N (N_of_ascii c).

Definition in_range (lo hi c : ascii) : bool :=
  (char_code lo <=? char_code c)%Z && (char_code c <=? char_code hi)%Z.

Definition is_digit (c : ascii) : bool := in_range "0" "9" c.
Definition is_lower (c : ascii) : bool := in_range "a" "z" c.
Definition is_upper (c : ascii) : bool := in_range "A" "Z" c.
Definition is_letter (c : ascii) : bool := is_lower c || is_upper c.

(** [toLowerCase] on one code unit: A-Z, and the Latin-1 capitals (U+00C0 to
    U+00DE except the multiplication sign U+00D7). *)
Definition char_lower (c : ascii) : ascii :=
  let n := char_code c in
  if is_upper c || ((192 <=? n) && (n <=? 222) && negb (n =? 215))%Z
  then ascii_of_N (Z.to_N (n + 32)) else c.

Fixpoint str_map (f : ascii → ascii) (s : string) : string :=
  match s with
  | EmptyString => EmptyString
  | String c r => String (f c) (str_map f r)
  end.

Fixpoint str_filter (f : ascii → bool) (s : string) : string :=
  match s with
  | EmptyString => EmptyString
  | String c r => if f c then String c (str_filter f r) else str_filter f r
  end.

Fixpoint str_forallb (f : ascii → bool) (s : string) : bool :=
  match s with
  | EmptyString => true
  | String c r => f c && str_forallb f r
  end.

Definition toLowerCase (s : string) : string := str_map char_lower s.

(** The double quote, and a text between two of them. *)
Definition quote : string := String (ascii_of_nat 34) EmptyString.
Definition quoted (s : string) : string := quote +:+ s +:+ quote.

(** [String(n)] of an integer. *)
Definition show_N (n : N) : string := NilZero.string_of_uint (N.to_uint n).
Definition show_nat (n : nat) : string := show_N (N.of_nat n).
Definition show_Z (n : Z) : string := NilZero.string_of_int (Z.to_int n).

Fixpoint str_repeat (c : ascii) (n : nat) : string :=
  match n with O => EmptyString | S m => String c (str_repeat c m) end.

(** [s.padStart(n, c)] for a one-character pad. *)
Definition padStart (s : string) (n : nat) (c : ascii) : string :=
  str_repeat c (n - String.length s) +:+ s.

(** [\s] below U+0100. *)
Definition is_space (c : ascii) : bool :=
  let n := N_of_ascii c in
  ((9 <=? n)%N && (n <=? 13)%N) || (n =? 32)%N || (n =? 160)%N.

(** [String.prototype.trim]. *)
Fixpoint trimStart (s : string) : string :=
  match s with
  | String c r => if is_space c then trimStart r else s
  | EmptyString => EmptyString
  end.

Fixpoint trimEnd (s : string) : string :=
  match s with
  | String c r =>
      match trimEnd r with
      | EmptyString => if is_space c then EmptyString else String c EmptyString
      | r' => String c r'
      end
  | EmptyString => EmptyString
  end.

Definition trim (s : string) : string := trimEnd (trimStart s).

Section string_lemmas.
Lemma str_app_cons x (a b : string) : String x a +:+ b = String x (a +:+ b).
Proof. reflexivity. Qed.

Lemma str_app_assoc (a b c : string) : (a +:+ b) +:+ c = a +:+ (b +:+ c).
Proof. induction a as [|x a IH]; [reflexivity|]. by rewrite !str_app_cons, IH. Qed.

Lemma str_app_nil_r (a : string) : a +:+ "" = a.
Proof. induction a as [|x a IH]; [reflexivity|]. by rewrite str_app_cons, IH. Qed.

Lemma str_app_length (a b : string) :
  String.length (a +:+ b) = (String.length a + String.length b)%nat.
Proof. induction a as [|x a IH]; [reflexivity|]. rewrite str_app_cons. cbn. by rewrite IH. Qed.

Lemma str_app_inj_l (a b c : string) : a +:+ b = a +:+ c → b = c.
Proof. induction a as [|x a IH]; [done|]. rewrite !str_app_cons. intros [= H]. by apply IH. Qed.

Lemma str_repeat_length c n : String.length (str_repeat c n) = n.
Proof. induction n as [|n IH]; [reflexivity|]. cbn. f_equal. exact IH. Qed.

Lemma prefix_app (p s : string) : String.prefix p (p +:+ s) = true.
Proof.
  induction p as [|x p IH]; [by destruct s|]. rewrite str_app_cons. cbn.
  destruct (ascii_dec x x) as [_|H]; [exact IH|done].
Qed.

Lemma prefix_split (p s : string) : String.prefix p s = true → ∃ r, s = p +:+ r.
Proof.
  revert s. induction p as [|x p IH]; intros s; [by exists s|].
  destruct s as [|y s]; [discriminate|]. cbn. destruct (ascii_dec x y) as [->|]; [|discriminate].
  intros H. destruct (IH s H) as [r ->]. by exists r.
Qed.

Lemma str_forallb_app f (a b : string) : str_forallb f (a +:+ b) = str_forallb f a && str_forallb f b.
Proof. induction a as [|x a IH]; [done|]. rewrite str_app_cons. cbn. by rewrite IH, andb_assoc. Qed.

Lemma str_forallb_impl (f g : ascii → bool) s :
  (∀ c, f c = true → g c = true) → str_forallb f s = true → str_forallb g s = true.
Proof. intros Hfg. induction s as [|c s IH]; [done|]. cbn. rewrite !andb_true_iff. intros []. auto. Qed.

Lemma str_forallb_take f n s : str_forallb f s = true → str_forallb f (str_take n s) = true.
Proof.
  unfold str_take. revert n. induction s as [|c s IH]; intros [|n]; try done. cbn.
  rewrite !andb_true_iff. intros []. auto.
Qed.

Lemma str_take_length n s : (String.length (str_take n s) <= n)%nat.
Proof.
  unfold str_take. revert n. induction s as [|c s IH]; intros [|n]; cbn; try lia. specialize (IH n). lia.
Qed.

Lemma str_filter_forallb f s : str_forallb f (str_filter f s) = true.
Proof. induction s as [|c s IH]; [done|]. cbn. destruct (f c) eqn:E; [|done]. cbn. by rewrite E. Qed.

Lemma str_repeat_forallb f c n : f c = true → str_forallb f (str_repeat c n) = true.
Proof. intros Hc. induction n as [|n IH]; [done|]. cbn. by rewrite Hc. Qed.

Lemma uint_digits d : str_forallb is_digit (NilEmpty.string_of_uint d) = true.
Proof. induction d; [done|..]; exact IHd. Qed.

Lemma show_nat_digits n : str_forallb is_digit (show_nat n) = true.
Proof.
  unfold show_nat, show_N, NilZero.string_of_uint. destruct (N.to_uint (N.of_nat n)) eqn:E; [done|..];
    rewrite <- E; apply uint_digits.
Qed.

Lemma N_to_uint_nonnil n : N.to_uint n ≠ Decimal.Nil.
Proof. destruct n as [|p]; [discriminate|]. apply DecimalPos.Unsigned.to_uint_nonnil. Qed.

Lemma show_N_inj m n : show_N m = show_N n → m = n.
Proof.
  unfold show_N. intros H. apply (f_equal NilZero.uint_of_string) in H.
  rewrite !NilZero.usu in H by apply N_to_uint_nonnil.
  injection H as H. by apply DecimalN.Unsigned.to_uint_inj.
Qed.

Lemma show_nat_inj m n : show_nat m = show_nat n → m = n.
Proof. intros H. apply show_N_inj in H. lia. Qed.
End string_lemmas.

(** ** Lists *)

(** [array.sort()] on strings: ascending by code units. *)
Fixpoint sort_insert (x : string) (l : list string) : list string :=
  match l with
  | [] => [x]
  | y :: r => if String.leb x y then x :: y :: r else y :: sort_insert x r
  end.

Definition js_sort (l : list string) : list string := foldr sort_insert [] l.

(** How often [x] occurs in [l]. *)
Fixpoint cnt `{EqDecision A} (l : list A) (x : A) : nat :=
  match l with
  | [] => 0
  | y :: r => if decide (y = x) then S (cnt r x) else cnt r x
  end.

Section list_lemmas.

Lemma sort_insert_perm x l : sort_insert x l ≡ₚ x :: l.
Proof.
  induction l as [|y l IH]; cbn; [done|]. destruct (String.leb x y); [done|].
  rewrite IH. apply Permutation_swap.
Qed.

Lemma js_sort_perm l : js_sort l ≡ₚ l.
Proof. induction l as [|x l IH]; cbn; [done|]. by rewrite sort_insert_perm, IH. Qed.

Lemma cnt_perm `{EqDecision A} (l k : list A) x : l ≡ₚ k → cnt l x = cnt k x.
Proof. induction 1; cbn; repeat case_decide; congruence. Qed.

Lemma cnt_app `{EqDecision A} (l k : list A) x : cnt (l ++ k) x = (cnt l x + cnt k x)%nat.
Proof. induction l; cbn; repeat case_decide; lia. Qed.

Lemma cnt_0 `{EqDecision A} (l : list A) x : cnt l x = 0%nat ↔ x ∉ l.
Proof.
  induction l as [|y l IH]; cbn; [set_solver|]. case_decide; [subst|]; set_solver.
Qed.

(** Removing one more element from the pending ones. *)
Lemma filter_not_in_snoc `{EqDecision A} (l done : list A) k :
  k ∉ done →
  length (filter (λ x, x ∉ done) l) =
    (length (filter (λ x, x ∉ done ++ [k]) l) + cnt l k)%nat.
Proof.
  intros Hk. induction l as [|x l IH]; [done|].
  rewrite !filter_cons. cbn [cnt].
  destruct (decide (x = k)) as [->|Hx].
  - rewrite decide_True by done. rewrite decide_False by set_solver. cbn. lia.
  - destruct (decide (x ∉ done)) as [Hd|Hd].
    + rewrite decide_True by set_solver. cbn. lia.
    + rewrite decide_False by set_solver. lia.
Qed.

Lemma filter_all_in_nil {A} (P : A → Prop) `{∀ x, Decision (P x)} l :
  (∀ x, x ∈ l → ¬ P x) → filter P l = [].
Proof.
  induction l as [|x l IH]; intros H'; [done|]. rewrite filter_cons, decide_False by (apply H'; left).
  apply IH. intros y Hy. apply H'. by right.
Qed.

Lemma filter_nil_not_in {A} (P : A → Prop) `{∀ x, Decision (P x)} l :
  filter P l = [] → ∀ x, x ∈ l → ¬ P x.
Proof.
  intros E x Hx HP. assert (x ∈ filter P l) by (by apply list_elem_of_filter). rewrite E in *.
  by apply (not_elem_of_nil x).
Qed.

Lemma NoDup_subset_length `{EqDecision A} (l k : list A) :
  NoDup l → l ⊆ k → (length l <= length k)%nat.
Proof.
  intros Hn Hs. apply NoDup_incl_length; [by apply NoDup_ListNoDup|].
  intros x Hx. apply list_elem_of_In, Hs, list_elem_of_In, Hx.
Qed.

(** A duplicate-free list covering at most as many elements as it has is onto. *)
Lemma NoDup_length_onto `{EqDecision A} (l k : list A) :
  NoDup l → l ⊆ k → (length k <= length l)%nat → k ⊆ l ∧ NoDup k.
Proof.
  intros Hn Hs Hlen. split.
  - intros x Hx. apply list_elem_of_In.
    apply (NoDup_length_incl (proj1 (NoDup_ListNoDup l) Hn) Hlen);
      [|by apply list_elem_of_In]. intros y Hy. by apply list_elem_of_In, Hs, list_elem_of_In.
  - apply NoDup_ListNoDup. apply (NoDup_incl_NoDup (proj1 (NoDup_ListNoDup l) Hn) Hlen).
    intros y Hy. by apply list_elem_of_In, Hs, list_elem_of_In.
Qed.

Lemma lookup_map {A B} (f : A → B) (l : list A) i : map f l !! i = f <$> l !! i.
Proof. revert i. induction l as [|x l IH]; intros [|i]; cbn; done. Qed.

Lemma NoDup_map {A B} (f : A → B) l : (∀ x y, f x = f y → x = y) → NoDup l → NoDup (map f l).
Proof.
  intros Hf. induction 1 as [|x l Hx _ IH]; [constructor|]. cbn. constructor; [|done].
  intros (y & E & Hy)%list_elem_of_In%in_map_iff. apply Hx. rewrite <- (Hf _ _ E). by apply list_elem_of_In.
Qed.

Lemma tc_reverse {A} (R : A → A → Prop) x y : tc (λ a b, R b a) x y → tc R y x.
Proof. induction 1 as [a b H|a b c H _ IH]; [by constructor|by eapply tc_r]. Qed.

(** A well-founded step never returns to where it started. *)
Lemma Acc_no_cycle {A} (R : A → A → Prop) x y : Acc (λ b a, R a b) x → R x y → ¬ rtc R y x.
Proof.
  intros Ha. revert y. induction Ha as [x _ IH]. intros y Hxy Hyx.
  inversion Hyx as [|? z ? Hyz Hzx]; subst; [by apply (IH x Hxy x)|].
  apply (IH y Hxy z Hyz). by eapply rtc_r.
Qed.

(** A conditional singleton is empty exactly when its test fails. *)
Lemma if_singleton_nil {A} (b : bool) (x : A) : (if b then [x] else []) = [] ↔ b = false.
Proof. by destruct b. Qed.

Lemma concat_imap_nil {A B} (f : nat → A → list B) (l : list A) :
  concat (imap f l) = [] ↔ ∀ i x, l !! i = Some x → f i x = [].
Proof.
  revert f. induction l as [|y l IH]; intros f; cbn; [split; [by intros _ i x|done]|].
  split.
  - intros [H1 H2]%app_eq_nil. intros [|i] x; cbn; [by intros [= <-]|].
    intros Hx. by apply (proj1 (IH (f ∘ S)) H2 i x).
  - intros H. rewrite (H 0%nat y eq_refl). cbn. apply (IH (f ∘ S)). intros i x Hx. by apply (H (S i)).
Qed.

Lemma elem_lookup_iff {A} (P : A → Prop) (l : list A) :
  (∀ (i : nat) x, l !! i = Some x → P x) ↔ ∀ x, x ∈ l → P x.
Proof.
  split; intros H.
  - intros x [i Hi]%list_elem_of_lookup. by apply (H i).
  - intros i x Hx. apply H. by eapply list_elem_of_lookup_2.
Qed.

Lemma app_nil_iff {A} (a b : list A) : a ++ b = [] ↔ a = [] ∧ b = [].
Proof. split; [apply app_eq_nil|by intros [-> ->]]. Qed.

Lemma app_nil_iff5 {A} (a b c d e : list A) :
  a ++ b ++ c ++ d ++ e = [] → a = [] ∧ b = [] ∧ c = [] ∧ d = [] ∧ e = [].
Proof. intros H. repeat (apply app_eq_nil in H as [? H]). done. Qed.

Lemma filter_nil_iff {A} (f : A → bool) l : List.filter f l = [] ↔ ∀ x, x ∈ l → f x = false.
Proof.
  induction l as [|x l IH]; cbn; [split; [by intros _ ? ?%elem_of_nil|done]|].
  destruct (f x) eqn:E; [split; [done|]; intros Hf; rewrite (Hf x) in E by left; done|].
  rewrite IH. split; [intros Hf y [->|Hy]%elem_of_cons; auto|intros Hf y Hy; apply Hf; by right].
Qed.

Lemma foldl_ext_in {A B} (f g : B → A → B) l b : (∀ b a, a ∈ l → f b a = g b a) → foldl f b l = foldl g b l.
Proof.
  revert b. induction l as [|a l IH]; intros b Hfg; [done|]. cbn. rewrite Hfg by left. apply IH.
  intros b' a' Ha'. apply Hfg. by right.
Qed.

End list_lemmas.

Lemma filter_in {R} (p : R → bool) l x : x ∈ List.filter p l ↔ x ∈ l ∧ p x = true.
Proof. rewrite !list_elem_of_In. apply filter_In. Qed.

(** Two rows with one id are one row. *)
Lemma row_unique {R} (id : R → string) l x y :
  NoDup (map id l) → x ∈ l → y ∈ l → id x = id y → x = y.
Proof.
  induction l as [|z l IH]; [by intros _ Hx%elem_of_nil|]. cbn. rewrite NoDup_cons, !elem_of_cons.
  intros [Hz Hn] [->|Hx] [->|Hy] E; [done| | |auto]; destruct Hz.
  - rewrite E. by apply list_elem_of_fmap_2.
  - rewrite <- E. by apply list_elem_of_fmap_2.
Qed.

(** [[...new Set(l)]]: first occurrences, in order. *)
Definition dedup (l : list string) : list string :=
  foldl (λ acc x, if bool_decide (x ∈ acc) then acc else acc ++ [x]) [] l.

Lemma dedup_snoc l x : dedup (l ++ [x]) = if bool_decide (x ∈ dedup l) then dedup l else dedup l ++ [x].
Proof. unfold dedup. by rewrite foldl_snoc. Qed.

Lemma dedup_NoDup l : NoDup (dedup l).
Proof.
  induction l as [|x l IH] using rev_ind; [constructor|]. rewrite dedup_snoc. case_bool_decide; [done|].
  apply NoDup_app. split_and!; [done| |apply NoDup_singleton]. by intros y Hy ->%list_elem_of_singleton.
Qed.

Lemma NoDup_map_filter {R K} (id : R → K) p l : NoDup (map id l) → NoDup (map id (List.filter p l)).
Proof.
  induction l as [|x l IH]; [done|]. cbn. rewrite NoDup_cons. intros [Hx Hn]. destruct (p x); [|auto].
  cbn. apply NoDup_cons. split; [|auto]. intros (y & E & Hy)%list_elem_of_fmap. apply Hx. rewrite E.
  apply list_elem_of_fmap_2. apply list_elem_of_In, List.filter_In in Hy as [Hy _]. by apply list_elem_of_In.
Qed.

(** ** The characters of a string *)

Definition chars : string → list ascii := String.list_ascii_of_string.

Lemma chars_app a b : chars (a +:+ b) = chars a ++ chars b.
Proof. unfold chars. induction a as [|c a IH]; [done|]. cbn. by rewrite <- IH. Qed.

Lemma chars_inj a b : chars a = chars b → a = b.
Proof. intros E. rewrite <- (String.string_of_list_ascii_of_string a), <- (String.string_of_list_ascii_of_string b). by f_equal. Qed.

(** Decimal numerals are free of separators. *)
Lemma show_Z_colon n : ":"%char ∉ chars (show_Z n).
Proof.
  assert (Hu : ∀ u, ":"%char ∉ chars (NilEmpty.string_of_uint u)).
  { induction u; cbn; rewrite ?not_elem_of_cons; first [split; [discriminate|done]|apply not_elem_of_nil]. }
  assert (Hz : ∀ u, ":"%char ∉ chars (NilZero.string_of_uint u))
    by (intros []; try apply Hu; cbn; rewrite not_elem_of_cons; split; [discriminate|apply not_elem_of_nil]).
  unfold show_Z, NilZero.string_of_int. destruct (Z.to_int n); [apply Hz|].
  cbn. rewrite not_elem_of_cons. split; [discriminate|apply Hz].
Qed.

Lemma split_last {A} (x : A) l1 l2 r1 r2 : x ∉ r1 → x ∉ r2 → l1 ++ x :: r1 = l2 ++ x :: r2 → l1 = l2.
Proof.
  intros H1 H2. revert l2. induction l1 as [|a l1 IH]; intros [|b l2]; cbn; [done|..].
  - intros [= -> E]. destruct H1. rewrite E. apply elem_of_app. right. left.
  - intros [= -> E]. destruct H2. rewrite <- E. apply elem_of_app. right. left.
  - intros [= -> E]. f_equal. by apply IH.
Qed.
