(* ===== verification/Json.v ===== *)
(** * JSON values of JavaScript

    The values that [JSON.parse], a [jsonb] column or an LLM-authored spec can
    hold, with the operations of the language the engine applies to them:
    property lookup, truthiness, [typeof], [String(v)], [JSON.stringify] and
    the UTF-8 size of a string.

    A number is kept as its canonical literal, the text [Number::toString]
    gives for it: two numbers of a JSON value are equal exactly when their
    literals are.  An object is the list of its own properties in insertion
    order, without duplicate keys. *)

From S2P Require Import Prelude.

#[local] Set Warnings "-register-all".

Inductive json : Type :=
  | JNull
  | JBool (b : bool)
  | JNum (lit : string)
  | JStr (s : string)
  | JArr (l : list json)
  | JObj (kvs : list (string * json)).

(** The induction principle with the hypotheses for nested values. *)
Section json_ind.
Variable P : json → Prop.
Hypothesis Hnull : P JNull.
Hypothesis Hbool : ∀ b, P (JBool b).
Hypothesis Hnum : ∀ n, P (JNum n).
Hypothesis Hstr : ∀ s, P (JStr s).
Hypothesis Harr : ∀ l, Forall P l → P (JArr l).
Hypothesis Hobj : ∀ kvs, Forall (λ kv, P kv.2) kvs → P (JObj kvs).

Fixpoint json_nested_ind (j : json) : P j :=
  match j with
  | JNull => Hnull
  | JBool b => Hbool b
  | JNum n => Hnum n
  | JStr s => Hstr s
  | JArr l => Harr l
      ((fix go l : Forall P l :=
          match l with
          | [] => @List.Forall_nil _ P
          | x :: r => @List.Forall_cons _ P x r (json_nested_ind x) (go r)
          end) l)
  | JObj kvs => Hobj kvs
      ((fix go l : Forall (λ kv, P kv.2) l :=
          match l with
          | [] => @List.Forall_nil _ (λ kv, P kv.2)
          | x :: r => @List.Forall_cons _ (λ kv, P kv.2) x r (json_nested_ind x.2) (go r)
          end) kvs)
  end.
End json_ind.

Fixpoint json_eqb (x y : json) : bool :=
  match x, y with
  | JNull, JNull => true
  | JBool a, JBool b => Bool.eqb a b
  | JNum a, JNum b => a ≟ b
  | JStr a, JStr b => a ≟ b
  | JArr l, JArr k =>
      (fix go l k := match l, k with
                     | [], [] => true
                     | a :: l', b :: k' => json_eqb a b && go l' k'
                     | _, _ => false
                     end) l k
  | JObj l, JObj k =>
      (fix go l k := match l, k with
                     | [], [] => true
                     | (p, a) :: l', (q, b) :: k' => (p ≟ q) && json_eqb a b && go l' k'
                     | _, _ => false
                     end) l k
  | _, _ => false
  end.

Lemma json_eqb_eq x y : json_eqb x y = true ↔ x = y.
Proof.
  revert y. induction x as [|b|n|s|l IH|kvs IH] using json_nested_ind; intros y;
    destruct y as [|b'|n'|s'|l'|kvs']; cbn; try (split; congruence).
  - rewrite eqb_true_iff. split; congruence.
  - rewrite bool_decide_eq_true. split; congruence.
  - rewrite bool_decide_eq_true. split; congruence.
  - trans (l = l'); [|split; congruence].
    revert l'. induction IH as [|x l Hx _ IHl]; intros [|y l']; try (split; congruence).
    rewrite andb_true_iff, Hx, IHl. split; [intros [-> ->]|intros [= -> ->]]; auto.
  - trans (kvs = kvs'); [|split; congruence].
    revert kvs'. induction IH as [|[k x] l Hx _ IHl]; intros [|[k' y] l']; try (split; congruence).
    cbn in Hx. rewrite !andb_true_iff, bool_decide_eq_true, Hx, IHl.
    split; [intros [[-> ->] ->]|intros [= -> -> ->]]; auto.
Qed.

#[export] Instance json_eq_dec : EqDecision json.
Proof.
  intros x y. destruct (json_eqb x y) eqn:E; [left|right]; [by apply json_eqb_eq|].
  intros H. apply json_eqb_eq in H. congruence.
Defined.

(** ** Property lookup and tests *)

Fixpoint jget (k : string) (kvs : list (string * json)) : option json :=
  match kvs with
  | [] => None
  | (k', v) :: r => if k ≟ k' then Some v else jget k r
  end.

(** [(v as Record)[k]] on an object; [undefined] on anything else. *)
Definition jprop (k : string) (v : json) : option json :=
  match v with JObj kvs => jget k kvs | _ => None end.

(** [out[k] = v]: replaces in place, appends a new property at the end. *)
Fixpoint jset (k : string) (v : json) (kvs : list (string * json)) : list (string * json) :=
  match kvs with
  | [] => [(k, v)]
  | (k', v') :: r => if k ≟ k' then (k, v) :: r else (k', v') :: jset k v r
  end.

Lemma jget_jset k k' v l : jget k (jset k' v l) = if k ≟ k' then Some v else jget k l.
Proof.
  induction l as [|[k0 v0] l IH]; cbn; [done|]. destruct (decide (k' = k0)) as [->|Hn].
  - rewrite (bool_decide_true (k0 = k0)) by done. cbn. by case_bool_decide.
  - rewrite (bool_decide_false (k' = k0)) by done. cbn. rewrite IH. repeat case_bool_decide; congruence.
Qed.

Definition json_truthy (v : json) : bool :=
  match v with
  | JNull => false
  | JBool b => b
  | JNum lit => negb (lit ≟ "0")
  | JStr s => negb (s ≟ "")
  | JArr _ | JObj _ => true
  end.

(** [Boolean(v)] of a possibly undefined value. *)
Definition truthy (v : option json) : bool :=
  match v with Some j => json_truthy j | None => false end.

(** The text of a value, if it is a string. *)
Definition str_of (v : option json) : option string := match v with Some (JStr s) => Some s | _ => None end.

Definition is_object (v : json) : bool :=
  match v with JArr _ | JObj _ => true | _ => false end.

(** ** Text of a value *)

Definition backslash : string := String (ascii_of_nat 92) EmptyString.

Definition hex_digit (n : N) : ascii :=
  if (n <? 10)%N then ascii_of_N (48 + n) else ascii_of_N (87 + n).

(** One code unit inside a JSON string literal. *)
Definition json_escape_char (c : ascii) : string :=
  let n := N_of_ascii c in
  if (n =? 34)%N then backslash +:+ quote
  else if (n =? 92)%N then backslash +:+ backslash
  else if (n =? 8)%N then backslash +:+ "b"
  else if (n =? 9)%N then backslash +:+ "t"
  else if (n =? 10)%N then backslash +:+ "n"
  else if (n =? 12)%N then backslash +:+ "f"
  else if (n =? 13)%N then backslash +:+ "r"
  else if (n <? 32)%N then
    backslash +:+ "u00" +:+ String (hex_digit (n / 16)) (String (hex_digit (n mod 16)) EmptyString)
  else String c EmptyString.

Fixpoint json_escape (s : string) : string :=
  match s with
  | EmptyString => EmptyString
  | String c r => json_escape_char c +:+ json_escape r
  end.

Definition json_quote (s : string) : string := quote +:+ json_escape s +:+ quote.

(** [JSON.stringify(v)]. *)
Fixpoint json_stringify (v : json) : string :=
  match v with
  | JNull => "null"
  | JBool b => if b then "true" else "false"
  | JNum lit => lit
  | JStr s => json_quote s
  | JArr l => "[" +:+ join "," (map json_stringify l) +:+ "]"
  | JObj kvs =>
      "{" +:+ join "," (map (λ kv : string * json,
                               let (k, w) := kv in json_quote k +:+ ":" +:+ json_stringify w) kvs)
          +:+ "}"
  end.

(** [String(v)]. *)
Fixpoint json_String (v : json) : string :=
  match v with
  | JNull => "null"
  | JBool b => if b then "true" else "false"
  | JNum lit => lit
  | JStr s => s
  | JArr l => join "," (map (λ x, match x with JNull => "" | _ => json_String x end) l)
  | JObj _ => "[object Object]"
  end.

(** [typeof v]. *)
Definition json_typeof (v : json) : string :=
  match v with
  | JBool _ => "boolean"
  | JNum _ => "number"
  | JStr _ => "string"
  | _ => "object"
  end.

(** [Buffer.byteLength(s, "utf8")]: one byte below U+0080, two up to U+07FF. *)
Fixpoint utf8_length (s : string) : Z :=
  match s with
  | EmptyString => 0
  | String c r => (if (char_code c <? 128)%Z then 1 else 2) + utf8_length r
  end.

Definition jint (n : Z) : json := JNum (show_Z n).
