(* ===== verification/Time.v ===== *)
(** * Instants, the ISO text of a date, and the calendar library

    [Date] as the engine uses it: an instant is a number of milliseconds since
    the epoch, or NaN ([None]) for an invalid date.  [toISOString] and the ISO
    branch of [Date.parse] are defined; they are inverse to each other
    ([Date_parse_toISO]).

    Zone-aware calendar arithmetic ([@date-fns/tz], [date-fns]) and the zone
    table behind [Intl] are not part of the repository: the class [DateEnv]
    collects what the engine calls of them, and [utc_env] is a concrete
    instance with the zone UTC, used to evaluate the development. *)

From S2P Require Import Prelude.
Open Scope Z_scope.

(** Milliseconds since the epoch, [None] for NaN. *)
Abbreviation Instant := (option Z).

(** The duration object of date-fns. *)
Record Duration := {
  years : Z; months : Z; weeks : Z; days : Z; hours : Z; minutes : Z; seconds : Z
}.

Definition empty_duration : Duration := Build_Duration 0 0 0 0 0 0 0.

(** What the engine calls of the calendar library and of [Intl]. *)
Class DateEnv := {
  (** [Date.parse] on a text outside the ISO grammar: implementation-defined. *)
  dateParseOther : string → Instant;
  (** [new TZDate(y, monthIndex, d, h, mi, s, tz).getTime()] *)
  tzDate : Z → Z → Z → Z → Z → Z → string → Instant;
  (** [add(new TZDate(ms, tz), duration).getTime()] and [sub] *)
  tzAdd : Instant → string → Duration → Instant;
  tzSub : Instant → string → Duration → Instant;
  (** [d = new TZDate(ms, tz); d.setHours(h, mi, 0, 0); d.getTime()] *)
  tzSetHours : Instant → string → Z → Z → Instant;
  (** [new TZDate(ms, tz).getHours()] and [getMinutes()] *)
  tzHours : Instant → string → option Z;
  tzMinutes : Instant → string → option Z;
  (** [add(date, duration)] and [sub] on a plain [Date] *)
  dateAdd : Instant → Duration → Instant;
  dateSub : Instant → Duration → Instant;
  (** [new Intl.DateTimeFormat("en-US", { timeZone })] does not throw *)
  knownTimeZone : string → bool;
}.

(** ** The proleptic Gregorian calendar *)

Definition ms_per_day : Z := 86400000.

(** Days from the epoch of a civil date; the month is 1 to 12. *)
Definition days_from_civil (y m d : Z) : Z :=
  let y' := if m <=? 2 then y - 1 else y in
  let era := y' / 400 in
  let yoe := y' - era * 400 in
  let mp := (m + 9) mod 12 in
  let doy := (153 * mp + 2) / 5 + d - 1 in
  let doe := yoe * 365 + yoe / 4 - yoe / 100 + doy in
  era * 146097 + doe - 719468.

Definition civil_from_days (z : Z) : Z * Z * Z :=
  let z' := z + 719468 in
  let era := z' / 146097 in
  let doe := z' - era * 146097 in
  let yoe := (doe - doe / 1460 + doe / 36524 - doe / 146096) / 365 in
  let doy := doe - (365 * yoe + yoe / 4 - yoe / 100) in
  let mp := (5 * doy + 2) / 153 in
  let d := doy - (153 * mp + 2) / 5 + 1 in
  let m := if mp <? 10 then mp + 3 else mp - 9 in
  let y := yoe + era * 400 in
  ((if m <=? 2 then y + 1 else y), m, d).

(** ** Text *)

Definition digit_char (n : Z) : ascii := ascii_of_N (Z.to_N (48 + n)).

(** The last [n] decimal digits of [v]. *)
Fixpoint digits (n : nat) (v : Z) : string :=
  match n with
  | O => EmptyString
  | S m => digits m (v / 10) +:+ String (digit_char (v mod 10)) EmptyString
  end.

Definition iso_year (y : Z) : string :=
  if (0 <=? y) && (y <=? 9999) then digits 4 y
  else if y <? 0 then "-" +:+ digits 6 (- y) else "+" +:+ digits 6 y.

(** [new Date(t).toISOString()] for a time value. *)
Definition iso_text (t : Z) : string :=
  let '(y, m, d) := civil_from_days (t / ms_per_day) in
  let r := t mod ms_per_day in
  iso_year y +:+ "-" +:+ digits 2 m +:+ "-" +:+ digits 2 d +:+ "T" +:+
  digits 2 (r / 3600000) +:+ ":" +:+ digits 2 (r / 60000 mod 60) +:+ ":" +:+
  digits 2 (r / 1000 mod 60) +:+ "." +:+ digits 3 (r mod 1000) +:+ "Z".

Definition max_time : Z := 8640000000000000.

(** [TimeClip]: a [Date] holds only the time values of its range. *)
Definition time_clip (t : Z) : Instant := if Z.abs t <=? max_time then Some t else None.

(** [toISOString] throws a RangeError on an invalid date. *)
Inductive RangeError := InvalidTimeValue.

Definition toISOString (t : Instant) : result RangeError string :=
  match t with Some z => Ok (iso_text z) | None => Err InvalidTimeValue end.

(** ** Parsing *)

Definition digit_val (c : ascii) : option Z :=
  if is_digit c then Some (char_code c - 48) else None.

(** Exactly [n] digits at the front of the text. *)
Fixpoint take_digits (n : nat) (acc : Z) (s : string) : option (Z * string) :=
  match n with
  | O => Some (acc, s)
  | S m => match s with
           | String c r => v ← digit_val c; take_digits m (10 * acc + v) r
           | EmptyString => None
           end
  end.

Definition take_char (c : ascii) (s : string) : option string :=
  match s with
  | String c' r => if c ≟ c' then Some r else None
  | EmptyString => None
  end.

Definition take_year (s : string) : option (Z * string) :=
  match s with
  | String "+" r => take_digits 6 0 r
  | String "-" r => '(y, r') ← take_digits 6 0 r; if y =? 0 then None else Some (- y, r')
  | _ => take_digits 4 0 s
  end.

(** The offset suffix, in minutes east of UTC. *)
Definition take_offset (s : string) : option Z :=
  match s with
  | "Z" => Some 0
  | String c r =>
      sign ← (if c ≟ "+"%char then Some 1 else if c ≟ "-"%char then Some (-1) else None);
      '(h, r1) ← take_digits 2 0 r;
      r2 ← take_char ":" r1;
      '(m, r3) ← take_digits 2 0 r2;
      if (r3 ≟ "") && (h <=? 23) && (m <=? 59) then Some (sign * (60 * h + m)) else None
  | EmptyString => None
  end.

Record civil := { cy : Z; cmo : Z; cd : Z; ch : Z; cmi : Z; cs : Z; cms : Z }.

(** [:ss] and [.sss], both optional. *)
Definition take_seconds (s : string) : option (Z * Z * string) :=
  match s with
  | String ":" r =>
      '(sec, r1) ← take_digits 2 0 r;
      match r1 with
      | String "." r2 => '(f, r3) ← take_digits 3 0 r2; Some (sec, f, r3)
      | _ => Some (sec, 0, r1)
      end
  | _ => Some (0, 0, s)
  end.

(** [YYYY-MM-DDTHH:mm[:ss[.sss]]] with an offset: its fields, and the offset. *)
Definition iso_fields (s : string) : option (civil * Z) :=
  '(y, r) ← take_year s;
  r ← take_char "-" r;
  '(mo, r) ← take_digits 2 0 r;
  r ← take_char "-" r;
  '(d, r) ← take_digits 2 0 r;
  r ← take_char "T" r;
  '(h, r) ← take_digits 2 0 r;
  r ← take_char ":" r;
  '(mi, r) ← take_digits 2 0 r;
  '(sec, f, r) ← take_seconds r;
  off ← take_offset r;
  Some ({| cy := y; cmo := mo; cd := d; ch := h; cmi := mi; cs := sec; cms := f |}, off).

(** Element values outside their range make the date invalid. *)
Definition civil_legal (c : civil) : bool :=
  (1 <=? cmo c) && (cmo c <=? 12) && (1 <=? cd c) && (cd c <=? 31) &&
  (cmi c <=? 59) && (cs c <=? 59) &&
  ((ch c <=? 23) || ((ch c =? 24) && (cmi c =? 0) && (cs c =? 0) && (cms c =? 0))).

Definition civil_ms (c : civil) : Z :=
  (days_from_civil (cy c) (cmo c) 1 + (cd c - 1)) * ms_per_day +
  ch c * 3600000 + cmi c * 60000 + cs c * 1000 + cms c.

(** [Date.parse]. *)
Definition Date_parse `{DateEnv} (s : string) : Instant :=
  match iso_fields s with
  | Some (c, off) => if civil_legal c then time_clip (civil_ms c - off * 60000) else None
  | None => dateParseOther s
  end.

(** ** A concrete calendar with the zone UTC *)

Definition is_leap (y : Z) : bool := ((y mod 4 =? 0) && negb (y mod 100 =? 0)) || (y mod 400 =? 0).

Definition days_in_month (y m : Z) : Z :=
  if m =? 2 then if is_leap y then 29 else 28
  else if (m =? 4) || (m =? 6) || (m =? 9) || (m =? 11) then 30 else 31.

(** Calendar months first, clamped to the end of the month, then the rest. *)
Definition utc_shift (sign t : Z) (d : Duration) : Z :=
  let '(y, m, dd) := civil_from_days (t / ms_per_day) in
  let k := y * 12 + (m - 1) + sign * (12 * years d + months d) in
  let y' := k / 12 in
  let m' := k mod 12 + 1 in
  let day := days_from_civil y' m' (Z.min dd (days_in_month y' m')) in
  (day + sign * (7 * weeks d + days d)) * ms_per_day + t mod ms_per_day +
  sign * (hours d * 3600000 + minutes d * 60000 + seconds d * 1000).

#[export] Instance utc_env : DateEnv := {|
  dateParseOther _ := None;
  tzDate y mo d h mi s _ :=
    time_clip (civil_ms {| cy := y; cmo := mo + 1; cd := d; ch := h; cmi := mi; cs := s; cms := 0 |});
  tzAdd t _ d := t ≫= λ z, time_clip (utc_shift 1 z d);
  tzSub t _ d := t ≫= λ z, time_clip (utc_shift (-1) z d);
  tzSetHours t _ h mi := t ≫= λ z, time_clip (z / ms_per_day * ms_per_day + h * 3600000 + mi * 60000);
  tzHours t _ := (λ z, z mod ms_per_day / 3600000) <$> t;
  tzMinutes t _ := (λ z, z / 60000 mod 60) <$> t;
  dateAdd t d := t ≫= λ z, time_clip (utc_shift 1 z d);
  dateSub t d := t ≫= λ z, time_clip (utc_shift (-1) z d);
  knownTimeZone tz := bool_decide (tz ∈ ["UTC"; "Europe/Berlin"; "America/New_York"]);
|}.

(** ** Correctness of the calendar and of the text *)

Section calendar_lemmas.
Local Ltac Zify.zify_post_hook ::= Z.div_mod_to_equations.

(** The day of a 400-year era determines a year and a day of the year. *)
Lemma era_split doe :
  0 <= doe < 146097 →
  let yoe := (doe - doe / 1460 + doe / 36524 - doe / 146096) / 365 in
  let doy := doe - (365 * yoe + yoe / 4 - yoe / 100) in
  0 <= yoe < 400 ∧ 0 <= doy < 366.
Proof. cbn zeta. intros H. lia. Qed.

Lemma month_split doy :
  0 <= doy < 366 →
  let mp := (5 * doy + 2) / 153 in
  0 <= mp < 12 ∧ 1 <= doy - (153 * mp + 2) / 5 + 1 <= 31.
Proof. cbn zeta. intros H. lia. Qed.

Lemma civil_from_days_spec z :
  ∃ y m d, civil_from_days z = (y, m, d) ∧ 1 <= m <= 12 ∧ 1 <= d <= 31 ∧
           days_from_civil y m d = z.
Proof.
  unfold civil_from_days. cbv zeta.
  set (era := (z + 719468) / 146097).
  assert (Hdoe : 0 <= z + 719468 - era * 146097 < 146097) by (unfold era; lia).
  set (doe := z + 719468 - era * 146097) in *.
  pose proof (era_split doe Hdoe) as He. cbv zeta in He.
  set (yoe := (doe - doe / 1460 + doe / 36524 - doe / 146096) / 365) in *.
  set (doy := doe - (365 * yoe + yoe / 4 - yoe / 100)) in *.
  destruct He as [Hyoe Hdoy].
  pose proof (month_split doy Hdoy) as Hm. cbv zeta in Hm.
  set (mp := (5 * doy + 2) / 153) in *.
  destruct Hm as [Hmp Hd].
  do 3 eexists. split; [reflexivity|].
  assert (Hdoe' : doe = yoe * 365 + yoe / 4 - yoe / 100 + doy) by (subst doy; lia).
  assert (Hz : z = era * 146097 + doe - 719468) by (subst doe; lia).
  clearbody doe doy yoe era mp.
  unfold days_from_civil. cbv zeta.
  destruct (mp <? 10) eqn:E; bprop.
  - assert ((mp + 3 <=? 2) = false) as -> by (apply Z.leb_gt; lia). repeat split; lia.
  - assert ((mp - 9 <=? 2) = true) as -> by (apply Z.leb_le; lia). repeat split; lia.
Qed.

(** A day count is linear in the day of the month. *)
Lemma days_from_civil_day y m d : days_from_civil y m d = days_from_civil y m 1 + (d - 1).
Proof. unfold days_from_civil. cbv zeta. lia. Qed.

Lemma days_from_civil_year y m d :
  1 <= m <= 12 → 1 <= d <= 31 →
  365 * y - 719900 <= days_from_civil y m d - (y - 1) / 4 + (y - 1) / 100 - (y - 1) / 400
    <= 365 * y - 719100.
Proof.
  intros Hm Hd. unfold days_from_civil. cbv zeta.
  destruct (m <=? 2) eqn:E; bprop; lia.
Qed.

Lemma digit_val_char x : 0 <= x < 10 → digit_val (digit_char x) = Some x.
Proof.
  intros Hx. assert (H : x = 0 ∨ x = 1 ∨ x = 2 ∨ x = 3 ∨ x = 4 ∨ x = 5 ∨ x = 6 ∨ x = 7 ∨ x = 8 ∨ x = 9) by lia.
  repeat destruct H as [->|H]; try reflexivity. by subst.
Qed.

Lemma take_digits_digits n v acc r :
  0 <= v < 10 ^ Z.of_nat n →
  take_digits n acc (digits n v +:+ r) = Some (acc * 10 ^ Z.of_nat n + v, r).
Proof.
  revert v acc r. induction n as [|n IH]; intros v acc r Hv.
  - cbn in *. do 2 f_equal. lia.
  - assert (Hsplit : ∀ acc' m w r', take_digits (m + 1) acc' (digits m w +:+ r') =
      ('(a, s) ← take_digits m acc' (digits m w +:+ r');
       match s with String c s' => x ← digit_val c; Some (10 * a + x, s') | _ => None end)).
    { clear. intros acc' m w r'. revert acc'. generalize (digits m w +:+ r') as s.
      induction m as [|m IHm]; intros s acc'; [cbn; by destruct s|].
      destruct s as [|c s]; [done|]. change (take_digits (S m + 1) acc' (String c s)) with
        (v ← digit_val c; take_digits (m + 1) (10 * acc' + v) s).
      cbn. destruct (digit_val c); cbn; [apply IHm|done]. }
    rewrite Nat2Z.inj_succ, Z.pow_succ_r in * by lia.
    replace (S n) with (n + 1)%nat at 1 by lia.
    change (digits (S n) v) with (digits n (v / 10) +:+ String (digit_char (v mod 10)) "").
    rewrite str_app_assoc, Hsplit, IH by lia. rewrite str_app_cons. cbn [mbind option_bind].
    rewrite digit_val_char by lia. cbn. do 2 f_equal. lia.
Qed.
End calendar_lemmas.

Section iso_lemmas.
Local Ltac Zify.zify_post_hook ::= Z.div_mod_to_equations.

Lemma take_year_digit c r :
  is_digit c = true → take_year (String c r) = take_digits 4 0 (String c r).
Proof. destruct c as [[] [] [] [] [] [] [] []]; try discriminate; reflexivity. Qed.

Lemma digits_head n v : 0 <= v → ∃ c s, digits (S n) v = String c s ∧ is_digit c = true.
Proof.
  revert v. induction n as [|n IH]; intros v Hv.
  - exists (digit_char (v mod 10)), "". split; [reflexivity|].
    assert (Hd : 0 <= v mod 10 < 10) by lia. pose proof (digit_val_char _ Hd) as H.
    unfold digit_val in H. by destruct (is_digit _).
  - destruct (IH (v / 10)) as (c & s & E & Hc); [lia|].
    exists c, (s +:+ String (digit_char (v mod 10)) ""). split; [|done].
    change (digits (S (S n)) v) with
      (digits (S n) (v / 10) +:+ String (digit_char (v mod 10)) "").
    by rewrite E, str_app_cons.
Qed.

Lemma take_year_iso y r : Z.abs y < 1000000 → take_year (iso_year y +:+ r) = Some (y, r).
Proof.
  intros Hy. unfold iso_year. destruct (_ && _) eqn:E; bprop.
  - destruct (digits_head 3 y) as (c & s & Es & Hc); [lia|].
    rewrite Es, str_app_cons, take_year_digit, <- str_app_cons, <- Es by done.
    rewrite take_digits_digits; [f_equal; f_equal; lia|cbn; lia].
  - assert (Hneg : ∀ w s, take_year ("-" +:+ (digits 6 w +:+ s)) =
                  ('(y, r') ← take_digits 6 0 (digits 6 w +:+ s); if y =? 0 then None else Some (- y, r')))
      by reflexivity.
    assert (Hpos : ∀ w s, take_year ("+" +:+ (digits 6 w +:+ s)) = take_digits 6 0 (digits 6 w +:+ s))
      by reflexivity.
    destruct (y <? 0) eqn:E'; bprop; rewrite str_app_assoc.
    + rewrite Hneg, take_digits_digits by (cbn; lia). cbn [mbind option_bind].
      destruct (_ =? 0) eqn:E0; bprop; [lia|]. do 2 f_equal. lia.
    + rewrite Hpos, take_digits_digits by (cbn; lia). reflexivity.
Qed.

Lemma take_char_hit c r : take_char c (String c EmptyString +:+ r) = Some r.
Proof. rewrite str_app_cons. cbn. by case_bool_decide. Qed.

Lemma take_seconds_iso s f r :
  0 <= s < 100 → 0 <= f < 1000 →
  take_seconds (":" +:+ digits 2 s +:+ "." +:+ digits 3 f +:+ r) = Some (s, f, r).
Proof.
  intros Hs Hf.
  change (take_seconds (":" +:+ digits 2 s +:+ "." +:+ digits 3 f +:+ r)) with
    ('(sec, r1) ← take_digits 2 0 (digits 2 s +:+ "." +:+ digits 3 f +:+ r);
     match r1 with
     | String "." r2 => '(f, r3) ← take_digits 3 0 r2; Some (sec, f, r3)
     | _ => Some (sec, 0, r1) end).
  rewrite take_digits_digits by (cbn; lia). cbn [mbind option_bind].
  change (('(f0, r3) ← take_digits 3 0 (digits 3 f +:+ r); Some (0 * 10 ^ Z.of_nat 2 + s, f0, r3))
          = Some (s, f, r)).
  rewrite take_digits_digits by (cbn; lia). cbn [mbind option_bind]. repeat f_equal; lia.
Qed.

Lemma iso_fields_text t y m d :
  civil_from_days (t / ms_per_day) = (y, m, d) → Z.abs y < 1000000 →
  1 <= m <= 12 → 1 <= d <= 31 →
  let r := t mod ms_per_day in
  iso_fields (iso_text t) =
    Some ({| cy := y; cmo := m; cd := d; ch := r / 3600000; cmi := r / 60000 mod 60;
             cs := r / 1000 mod 60; cms := r mod 1000 |}, 0).
Proof.
  intros E Hy Hm Hd r. unfold iso_text. rewrite E. fold r. clear E.
  assert (Hr : 0 <= r < ms_per_day) by (unfold r, ms_per_day; lia).
  unfold ms_per_day in Hr. clearbody r. unfold iso_fields.
  rewrite take_year_iso by done. cbn [mbind option_bind].
  rewrite take_char_hit. cbn [mbind option_bind].
  rewrite take_digits_digits by (cbn; lia). cbn [mbind option_bind].
  rewrite take_char_hit. cbn [mbind option_bind].
  rewrite take_digits_digits by (cbn; lia). cbn [mbind option_bind].
  rewrite take_char_hit. cbn [mbind option_bind].
  rewrite take_digits_digits by (cbn; lia). cbn [mbind option_bind].
  rewrite take_char_hit. cbn [mbind option_bind].
  rewrite take_digits_digits by (cbn; lia). cbn [mbind option_bind].
  rewrite take_seconds_iso by lia. cbn [mbind option_bind].
  reflexivity.
Qed.

Lemma civil_year_bound z y m d :
  civil_from_days z = (y, m, d) → Z.abs z <= 100000000 → Z.abs y < 1000000.
Proof.
  intros E Hz. destruct (civil_from_days_spec z) as (y' & m' & d' & E' & Hm & Hd & Hinv).
  rewrite E in E'. injection E' as <- <- <-.
  pose proof (days_from_civil_year y m d Hm Hd). lia.
Qed.

(** [Date.parse(d.toISOString()) = d.getTime()] for every valid date. *)
Lemma Date_parse_toISO `{DateEnv} t : Z.abs t <= max_time → Date_parse (iso_text t) = Some t.
Proof.
  intros Ht. destruct (civil_from_days_spec (t / ms_per_day)) as (y & m & d & E & Hm & Hd & Hinv).
  assert (Hy : Z.abs y < 1000000).
  { apply (civil_year_bound _ _ _ _ E). unfold max_time, ms_per_day in *. lia. }
  unfold Date_parse. rewrite (iso_fields_text t y m d E Hy Hm Hd). cbv zeta.
  set (r := t mod ms_per_day). assert (Hr : 0 <= r < 86400000) by (unfold r, ms_per_day; lia).
  assert (Htr : t = (t / ms_per_day) * ms_per_day + r) by (unfold r, ms_per_day; lia).
  clearbody r.
  assert (Hl : civil_legal {| cy := y; cmo := m; cd := d; ch := r / 3600000;
    cmi := r / 60000 mod 60; cs := r / 1000 mod 60; cms := r mod 1000 |} = true).
  { unfold civil_legal; cbn.
    repeat (apply andb_true_iff; split); try (apply Z.leb_le; lia).
    apply orb_true_iff; left. apply Z.leb_le; lia. }
  rewrite Hl. unfold civil_ms; cbn [cy cmo cd ch cmi cs cms].
  rewrite <- days_from_civil_day, Hinv.
  replace (_ - 0 * 60000) with t by (rewrite Htr at 1; lia).
  unfold time_clip. destruct (Z.leb_spec (Z.abs t) max_time); [done|lia].
Qed.
End iso_lemmas.
