(* ===== verification/Spec.v ===== *)
(** * The workflow spec ([spec/types.ts], [spec/schema.ts])

    The values the schema [workflowSpecSchema] accepts, as records, with the
    object each of them is at run time ([WorkflowSpec_json]: the schema's keys
    in the schema's order, absent optional keys left out) and the constraints
    the schema states on its strings and numbers ([schema_ok]).

    Parsing itself is Zod's; later files take [safeParse] as a parameter. *)

From Stdlib Require Import DecimalString DecimalN DecimalFacts.
From S2P Require Import Prelude Json Time.
Open Scope Z_scope.

(** ** Domain constants *)

Inductive TaskType := tt_agent_task | tt_approval | tt_manual | tt_notification | tt_wait | tt_checkpoint.
Inductive DependencyOutcome := do_success | do_skipped | do_failed.
Inductive ScheduleDirection := sd_before | sd_after.
Inductive ScheduleAnchorPoint := ap_start | ap_end | ap_due.
Inductive OwnershipLevel := ol_user | ol_team | ol_organization | ol_workspace.
Inductive FailurePolicy := fp_block | fp_skip.
Inductive MissedWindowPolicy := mw_require_manual_decision | mw_fire_asap.
Inductive RejectionPolicy := rp_needs_revision | rp_cancel | rp_skip.
Inductive PlaceholderType := pt_string | pt_number | pt_date | pt_boolean.
Inductive ForeachRollupPolicy := rup_any_fails | rup_best_effort | rup_all_or_nothing.
Inductive ValidationTier := tier_template | tier_draft | tier_start.

#[export] Instance TaskType_eq_dec : EqDecision TaskType.
Proof. solve_decision. Defined.
#[export] Instance DependencyOutcome_eq_dec : EqDecision DependencyOutcome.
Proof. solve_decision. Defined.
#[export] Instance OwnershipLevel_eq_dec : EqDecision OwnershipLevel.
Proof. solve_decision. Defined.
#[export] Instance FailurePolicy_eq_dec : EqDecision FailurePolicy.
Proof. solve_decision. Defined.
#[export] Instance MissedWindowPolicy_eq_dec : EqDecision MissedWindowPolicy.
Proof. solve_decision. Defined.
#[export] Instance RejectionPolicy_eq_dec : EqDecision RejectionPolicy.
Proof. solve_decision. Defined.
#[export] Instance ForeachRollupPolicy_eq_dec : EqDecision ForeachRollupPolicy.
Proof. solve_decision. Defined.

Definition TaskType_str (t : TaskType) : string :=
  match t with
  | tt_agent_task => "agent_task" | tt_approval => "approval" | tt_manual => "manual"
  | tt_notification => "notification" | tt_wait => "wait" | tt_checkpoint => "checkpoint"
  end.
Definition DependencyOutcome_str (o : DependencyOutcome) : string :=
  match o with do_success => "success" | do_skipped => "skipped" | do_failed => "failed" end.
Definition ScheduleDirection_str (d : ScheduleDirection) : string :=
  match d with sd_before => "before" | sd_after => "after" end.
Definition ScheduleAnchorPoint_str (a : ScheduleAnchorPoint) : string :=
  match a with ap_start => "start" | ap_end => "end" | ap_due => "due" end.
Definition OwnershipLevel_str (l : OwnershipLevel) : string :=
  match l with
  | ol_user => "user" | ol_team => "team" | ol_organization => "organization"
  | ol_workspace => "workspace"
  end.
Definition FailurePolicy_str (p : FailurePolicy) : string :=
  match p with fp_block => "block" | fp_skip => "skip" end.
Definition MissedWindowPolicy_str (p : MissedWindowPolicy) : string :=
  match p with
  | mw_require_manual_decision => "require_manual_decision" | mw_fire_asap => "fire_asap"
  end.
Definition RejectionPolicy_str (p : RejectionPolicy) : string :=
  match p with
  | rp_needs_revision => "needs_revision" | rp_cancel => "cancel" | rp_skip => "skip"
  end.
Definition PlaceholderType_str (p : PlaceholderType) : string :=
  match p with
  | pt_string => "string" | pt_number => "number" | pt_date => "date" | pt_boolean => "boolean"
  end.
Definition ForeachRollupPolicy_str (p : ForeachRollupPolicy) : string :=
  match p with
  | rup_any_fails => "any_fails" | rup_best_effort => "best_effort"
  | rup_all_or_nothing => "all_or_nothing"
  end.

Definition TARGET_ANCHOR : string := "target".
Definition FOREACH_MAX_FANOUT_HARD_CEILING : Z := 500.
Definition FOREACH_MAX_FANOUT_DEFAULT : Z := 50.

(** ** Parsed values *)

Record AgentRef := {
  ar_package : string; ar_name : option string; ar_version : option string;
  ar_templateId : option string
}.

Record ApprovalScope := { sc_level : OwnershipLevel; sc_id : option string }.
Record Assignment := { asg_level : OwnershipLevel; asg_id : string }.
Record TaskDependency := { dep_taskKey : string; dep_outcome : option DependencyOutcome }.

Record AbsoluteSchedule := {
  abs_at : string; abs_tz : option string;
  abs_anchorPoint : option ScheduleAnchorPoint; abs_durationIso8601 : option string
}.

Record RelativeSchedule := {
  rel_anchor : string; rel_offsetIso8601 : string; rel_direction : ScheduleDirection;
  rel_localTime : option string; rel_tz : option string;
  rel_anchorPoint : option ScheduleAnchorPoint; rel_durationIso8601 : option string
}.

Inductive ScheduleSpec := Absolute (s : AbsoluteSchedule) | Relative (s : RelativeSchedule).

Definition sch_tz (s : ScheduleSpec) : option string :=
  match s with Absolute a => abs_tz a | Relative r => rel_tz r end.
Definition sch_anchorPoint (s : ScheduleSpec) : option ScheduleAnchorPoint :=
  match s with Absolute a => abs_anchorPoint a | Relative r => rel_anchorPoint r end.
Definition sch_durationIso8601 (s : ScheduleSpec) : option string :=
  match s with Absolute a => abs_durationIso8601 a | Relative r => rel_durationIso8601 r end.

(** A foreach declaration; its template is [unknown] to the type checker and
    is read as a plain object by everything that walks it. *)
Record ForeachSpec := {
  fe_source : string; fe_as : string; fe_itemKey : option json; fe_template : json;
  fe_rollupPolicy : option ForeachRollupPolicy; fe_maxFanout : option Z
}.

Inductive TaskBody :=
  | AgentTask (agentRef : AgentRef) (input : option json)
  | ApprovalTask (requiredScope : ApprovalScope) (solicitation : option ScheduleSpec)
      (deadlineIso8601 : option string) (rejectionPolicy : option RejectionPolicy)
  | ManualTask (instructions : option string)
  | NotificationTask (message : option string) (recipients : option (list string))
  | WaitTask
  | CheckpointTask.

Record TaskSpec := {
  t_key : string; t_title : string; t_required : option bool; t_pinned : option bool;
  t_risk : option string; t_parent : option string; t_schedule : option ScheduleSpec;
  t_dependsOn : option (list TaskDependency); t_assignee : option Assignment;
  t_failurePolicy : option FailurePolicy; t_missedWindowPolicy : option MissedWindowPolicy;
  t_retryPolicy : option json; t_maxAttempts : option Z; t_cancelPolicy : option json;
  t_body : TaskBody; t_foreach : option ForeachSpec
}.

Definition t_type (t : TaskSpec) : TaskType :=
  match t_body t with
  | AgentTask _ _ => tt_agent_task | ApprovalTask _ _ _ _ => tt_approval
  | ManualTask _ => tt_manual | NotificationTask _ _ => tt_notification
  | WaitTask => tt_wait | CheckpointTask => tt_checkpoint
  end.

Record PlaceholderDecl := {
  pd_type : PlaceholderType; pd_required : option bool; pd_description : option string;
  pd_default : option json
}.

Record Target := { tg_at : option string; tg_tz : string }.

Record WorkflowSpec := {
  w_key : option string; w_name : string; w_product : option string; w_target : option Target;
  w_placeholders : option (list (string * PlaceholderDecl)); w_tasks : list TaskSpec;
  w_metadata : option json
}.

(** ** The object a parsed value is *)

(** A property that is left out when undefined. *)
Definition fld (k : string) (v : option json) : list (string * json) :=
  match v with Some j => [(k, j)] | None => [] end.

Definition AgentRef_json (a : AgentRef) : json := JObj
  (fld "package" (Some (JStr (ar_package a))) ++ fld "name" (JStr <$> ar_name a) ++
   fld "version" (JStr <$> ar_version a) ++ fld "templateId" (JStr <$> ar_templateId a)).

Definition ApprovalScope_json (s : ApprovalScope) : json := JObj
  (fld "level" (Some (JStr (OwnershipLevel_str (sc_level s)))) ++ fld "id" (JStr <$> sc_id s)).

Definition Assignment_json (a : Assignment) : json := JObj
  [("level", JStr (OwnershipLevel_str (asg_level a))); ("id", JStr (asg_id a))].

Definition TaskDependency_json (d : TaskDependency) : json := JObj
  (fld "taskKey" (Some (JStr (dep_taskKey d))) ++
   fld "outcome" ((λ o, JStr (DependencyOutcome_str o)) <$> dep_outcome d)).

Definition anchorPoint_json (a : ScheduleAnchorPoint) : json := JStr (ScheduleAnchorPoint_str a).

Definition ScheduleSpec_json (s : ScheduleSpec) : json :=
  match s with
  | Absolute a => JObj
      (fld "mode" (Some (JStr "absolute")) ++ fld "at" (Some (JStr (abs_at a))) ++
       fld "tz" (JStr <$> abs_tz a) ++ fld "anchorPoint" (anchorPoint_json <$> abs_anchorPoint a) ++
       fld "durationIso8601" (JStr <$> abs_durationIso8601 a))
  | Relative r => JObj
      (fld "mode" (Some (JStr "relative")) ++ fld "anchor" (Some (JStr (rel_anchor r))) ++
       fld "offsetIso8601" (Some (JStr (rel_offsetIso8601 r))) ++
       fld "direction" (Some (JStr (ScheduleDirection_str (rel_direction r)))) ++
       fld "localTime" (JStr <$> rel_localTime r) ++ fld "tz" (JStr <$> rel_tz r) ++
       fld "anchorPoint" (anchorPoint_json <$> rel_anchorPoint r) ++
       fld "durationIso8601" (JStr <$> rel_durationIso8601 r))
  end.

Definition ForeachSpec_json (f : ForeachSpec) : json := JObj
  (fld "source" (Some (JStr (fe_source f))) ++ fld "as" (Some (JStr (fe_as f))) ++
   fld "itemKey" (fe_itemKey f) ++ fld "template" (Some (fe_template f)) ++
   fld "rollupPolicy" ((λ p, JStr (ForeachRollupPolicy_str p)) <$> fe_rollupPolicy f) ++
   fld "maxFanout" (jint <$> fe_maxFanout f)).

(** The properties of the [type] variant, after the common ones. *)
Definition TaskBody_fields (b : TaskBody) : list (string * json) :=
  match b with
  | AgentTask a i => fld "agentRef" (Some (AgentRef_json a)) ++ fld "input" i
  | ApprovalTask s sol d r =>
      fld "requiredScope" (Some (ApprovalScope_json s)) ++
      fld "solicitation" (ScheduleSpec_json <$> sol) ++ fld "deadlineIso8601" (JStr <$> d) ++
      fld "rejectionPolicy" ((λ p, JStr (RejectionPolicy_str p)) <$> r)
  | ManualTask i => fld "instructions" (JStr <$> i)
  | NotificationTask m r =>
      fld "message" (JStr <$> m) ++ fld "recipients" ((λ l, JArr (map JStr l)) <$> r)
  | WaitTask | CheckpointTask => []
  end.

Definition TaskSpec_json (t : TaskSpec) : json := JObj
  (fld "key" (Some (JStr (t_key t))) ++ fld "title" (Some (JStr (t_title t))) ++
   fld "required" (JBool <$> t_required t) ++ fld "pinned" (JBool <$> t_pinned t) ++
   fld "risk" (JStr <$> t_risk t) ++ fld "parent" (JStr <$> t_parent t) ++
   fld "schedule" (ScheduleSpec_json <$> t_schedule t) ++
   fld "dependsOn" ((λ l, JArr (map TaskDependency_json l)) <$> t_dependsOn t) ++
   fld "assignee" (Assignment_json <$> t_assignee t) ++
   fld "failurePolicy" ((λ p, JStr (FailurePolicy_str p)) <$> t_failurePolicy t) ++
   fld "missedWindowPolicy" ((λ p, JStr (MissedWindowPolicy_str p)) <$> t_missedWindowPolicy t) ++
   fld "retryPolicy" (t_retryPolicy t) ++ fld "maxAttempts" (jint <$> t_maxAttempts t) ++
   fld "cancelPolicy" (t_cancelPolicy t) ++ fld "type" (Some (JStr (TaskType_str (t_type t)))) ++
   TaskBody_fields (t_body t) ++ fld "foreach" (ForeachSpec_json <$> t_foreach t)).

Definition PlaceholderDecl_json (p : PlaceholderDecl) : json := JObj
  (fld "type" (Some (JStr (PlaceholderType_str (pd_type p)))) ++
   fld "required" (JBool <$> pd_required p) ++ fld "description" (JStr <$> pd_description p) ++
   fld "default" (pd_default p)).

Definition Target_json (t : Target) : json := JObj
  (fld "at" (JStr <$> tg_at t) ++ fld "tz" (Some (JStr (tg_tz t)))).

Definition WorkflowSpec_json (w : WorkflowSpec) : json := JObj
  (fld "key" (JStr <$> w_key w) ++ fld "name" (Some (JStr (w_name w))) ++
   fld "product" (JStr <$> w_product w) ++ fld "target" (Target_json <$> w_target w) ++
   fld "placeholders"
     ((λ l, JObj (map (λ kp : string * PlaceholderDecl, (kp.1, PlaceholderDecl_json kp.2)) l))
        <$> w_placeholders w) ++
   fld "tasks" (Some (JArr (map TaskSpec_json (w_tasks w)))) ++ fld "metadata" (w_metadata w)).

(** ** Durations and patterns *)

(** The longest run of digits at the front of the text. *)
Fixpoint span_digits (s : string) : string * string :=
  match s with
  | String c r => if is_digit c then let '(d, r') := span_digits r in (String c d, r') else ("", s)
  | EmptyString => ("", "")
  end.

Fixpoint digits_value (acc : Z) (s : string) : Z :=
  match s with
  | String c r => digits_value (10 * acc + (char_code c - 48)) r
  | EmptyString => acc
  end.

(** [(\d+)X]? at the front of the text: the digits if the field is there. *)
Definition duration_field (x : ascii) (s : string) : option string * string :=
  match span_digits s with
  | (String _ _ as d, String c r) => if c ≟ x then (Some d, r) else (None, s)
  | _ => (None, s)
  end.

Record DurationParts := {
  dp_Y : option string; dp_Mo : option string; dp_W : option string; dp_D : option string;
  dp_H : option string; dp_Mi : option string; dp_S : option string
}.

(** The groups of [/^P(?:(\d+)Y)?(?:(\d+)M)?(?:(\d+)W)?(?:(\d+)D)?
    (?:T(?:(\d+)H)?(?:(\d+)M)?(?:(\d+)S)?)?$/]. *)
Definition duration_parts (s : string) : option DurationParts :=
  match s with
  | String "P" r =>
      let '(y, r) := duration_field "Y" r in
      let '(mo, r) := duration_field "M" r in
      let '(w, r) := duration_field "W" r in
      let '(d, r) := duration_field "D" r in
      match r with
      | EmptyString => Some (Build_DurationParts y mo w d None None None)
      | String "T" r =>
          let '(h, r) := duration_field "H" r in
          let '(mi, r) := duration_field "M" r in
          let '(sec, r) := duration_field "S" r in
          if r ≟ "" then Some (Build_DurationParts y mo w d h mi sec) else None
      | _ => None
      end
  | _ => None
  end.

Definition is_present {A} (o : option A) : bool := match o with Some _ => true | None => false end.

(** [ISO_DURATION_RE]: the same shape, not [P] alone, a digit after [T]. *)
Definition iso_duration_ok (s : string) : bool :=
  match duration_parts s with
  | None => false
  | Some p =>
      negb (s ≟ "P") &&
      (str_forallb (λ c, negb (c ≟ "T"%char)) s ||
       is_present (dp_H p) || is_present (dp_Mi p) || is_present (dp_S p))
  end.

Definition LOCAL_TIME_ok (s : string) : bool :=
  match s with
  | String a (String b (String ":" (String c (String d EmptyString)))) =>
      (in_range "0" "1" a && is_digit b || (a ≟ "2"%char) && in_range "0" "3" b) &&
      in_range "0" "5" c && is_digit d
  | _ => false
  end.

Definition is_word_char (c : ascii) : bool := is_letter c || is_digit c || (c ≟ "_"%char).

Definition TASK_KEY_ok (s : string) : bool :=
  match s with
  | String c r => is_letter c && str_forallb (λ x, is_word_char x || (x ≟ "-"%char)) r
  | EmptyString => false
  end.

Definition foreachAs_ok (s : string) : bool :=
  match s with
  | String c r => is_lower c && str_forallb is_word_char r
  | EmptyString => false
  end.

(** The text without a leading [n]-digit group, if it is there. *)
Definition drop_digits (n : nat) (s : string) : option string := snd <$> take_digits n 0 s.

(** [(Z|[+-]\d{2}:\d{2})$] at the front of the text. *)
Definition take_offset_shape (s : string) : option unit :=
  match s with
  | "Z" => Some ()
  | String c r =>
      if (c ≟ "+"%char) || (c ≟ "-"%char) then
        r ← drop_digits 2 r; r ← take_char ":" r; r ← drop_digits 2 r;
        if r ≟ "" then Some () else None
      else None
  | EmptyString => None
  end.

(** [(:\d{2})?(\.\d{1,3})?(Z|[+-]\d{2}:\d{2})?$]. *)
Definition iso_tail_ok (s : string) : bool :=
  let s := match s with String ":" r => drop_digits 2 r ?? s | _ => s end in
  let s := match s with
           | String "." r => drop_digits 3 r ?? (drop_digits 2 r ?? (drop_digits 1 r ?? s))
           | _ => s
           end in
  (s ≟ "") || is_present (take_offset_shape s).

(** [ISO_DATETIME_RE]. *)
Definition iso_datetime_ok (s : string) : bool :=
  match (r ← drop_digits 4 s; r ← take_char "-" r; r ← drop_digits 2 r; r ← take_char "-" r;
         r ← drop_digits 2 r; r ← take_char "T" r; r ← drop_digits 2 r; r ← take_char ":" r;
         drop_digits 2 r) with
  | Some r => iso_tail_ok r
  | None => false
  end.

(** ** What a parsed spec satisfies *)

Definition nonempty (s : string) : bool := negb (s ≟ "").
Definition opt_ok {A} (f : A → bool) (o : option A) : bool :=
  match o with Some x => f x | None => true end.

Definition schedule_ok (s : ScheduleSpec) : bool :=
  match s with
  | Absolute a =>
      iso_datetime_ok (abs_at a) && opt_ok nonempty (abs_tz a) &&
      opt_ok iso_duration_ok (abs_durationIso8601 a)
  | Relative r =>
      nonempty (rel_anchor r) && iso_duration_ok (rel_offsetIso8601 r) &&
      opt_ok LOCAL_TIME_ok (rel_localTime r) && opt_ok nonempty (rel_tz r) &&
      opt_ok iso_duration_ok (rel_durationIso8601 r)
  end.

Definition foreach_ok (f : ForeachSpec) : bool :=
  TASK_KEY_ok (fe_source f) && foreachAs_ok (fe_as f) &&
  opt_ok (λ n, (1 <=? n) && (n <=? FOREACH_MAX_FANOUT_HARD_CEILING)) (fe_maxFanout f) &&
  is_object (fe_template f).

Definition body_ok (b : TaskBody) : bool :=
  match b with
  | AgentTask a _ => nonempty (ar_package a)
  | ApprovalTask _ sol d _ => opt_ok schedule_ok sol && opt_ok iso_datetime_ok d
  | _ => true
  end.

Definition task_ok (t : TaskSpec) : bool :=
  TASK_KEY_ok (t_key t) && nonempty (t_title t) && opt_ok TASK_KEY_ok (t_parent t) &&
  opt_ok schedule_ok (t_schedule t) &&
  opt_ok (forallb (λ d, nonempty (dep_taskKey d))) (t_dependsOn t) &&
  opt_ok (λ a, nonempty (asg_id a)) (t_assignee t) &&
  opt_ok (λ n, 1 <=? n) (t_maxAttempts t) && body_ok (t_body t) && opt_ok foreach_ok (t_foreach t).

(** The string and number constraints of [workflowSpecSchema]. *)
Definition schema_ok (w : WorkflowSpec) : bool :=
  nonempty (w_name w) &&
  opt_ok (λ tg, opt_ok iso_datetime_ok (tg_at tg) && nonempty (tg_tz tg)) (w_target w) &&
  forallb task_ok (w_tasks w).

Example iso_duration_ok_examples :
  map iso_duration_ok ["P7D"; "PT4H"; "P1Y2M3W4DT5H6M7S"; "P"; "PT"; "P7DT"; "7D"; "P7X"; "PT4H3D"]
  = [true; true; true; false; false; false; false; false; false].
Proof. vm_compute. reflexivity. Qed.

Example iso_datetime_ok_examples :
  map iso_datetime_ok ["2026-03-01T09:00"; "2026-03-01T09:00:30.25Z"; "2026-03-01T09:00+02:00";
    "2024-13-01T00:00:00Z"; "2026-03-01"; "2026-03-01T09:00Zz"; "2026-03-01T09:00:"]
  = [true; true; true; true; false; false; false].
Proof. vm_compute. reflexivity. Qed.

(** A key is never the empty string. *)
Lemma TASK_KEY_ok_nonempty s : TASK_KEY_ok s = true → s ≠ "".
Proof. by destruct s. Qed.

Lemma schema_ok_task w t : schema_ok w = true → t ∈ w_tasks w → task_ok t = true.
Proof.
  unfold schema_ok. intros H Ht. bprop. rewrite forallb_forall in H0. by apply H0, list_elem_of_In.
Qed.

(** ** Printed numbers *)

Lemma digits_value_acc u acc :
  digits_value (Z.pos acc) (NilEmpty.string_of_uint u) = Z.pos (Pos.of_uint_acc u acc).
Proof.
  revert acc. induction u as [|u IH|u IH|u IH|u IH|u IH|u IH|u IH|u IH|u IH|u IH]; intros acc; [done|..];
    cbn [NilEmpty.string_of_uint digits_value Pos.of_uint_acc]; rewrite <- IH; f_equal; vm_compute (char_code _); lia.
Qed.

Lemma digits_value_uint u : digits_value 0 (NilEmpty.string_of_uint u) = Z.of_N (N.of_uint u).
Proof.
  unfold N.of_uint. induction u as [|u IH|u IH|u IH|u IH|u IH|u IH|u IH|u IH|u IH|u IH]; [done|exact IH|..];
    cbn [NilEmpty.string_of_uint digits_value Pos.of_uint Z.of_N]; rewrite <- digits_value_acc; reflexivity.
Qed.

Lemma show_Z_pos p : show_Z (Z.pos p) = NilEmpty.string_of_uint (Pos.to_uint p).
Proof.
  unfold show_Z, NilZero.string_of_int, NilZero.string_of_uint. cbn [Z.to_int].
  pose proof (N_to_uint_nonnil (N.pos p)) as Hn. cbn in Hn. by destruct (Pos.to_uint p).
Qed.

Lemma digits_value_show n : 0 <= n → digits_value 0 (show_Z n) = n.
Proof.
  destruct n as [|p|p]; [done| |lia]. intros _. rewrite show_Z_pos, digits_value_uint.
  change (Pos.to_uint p) with (N.to_uint (N.pos p)). by rewrite DecimalN.Unsigned.of_to.
Qed.

Lemma show_Z_digits n : 0 <= n → ∃ c r, show_Z n = String c r ∧ str_forallb is_digit (String c r) = true.
Proof.
  destruct n as [|p|p]; [by eexists _, _| |lia]. intros _. rewrite show_Z_pos.
  pose proof (N_to_uint_nonnil (N.pos p)) as Hn. cbn in Hn. pose proof (uint_digits (Pos.to_uint p)) as Hd.
  destruct (Pos.to_uint p); [done|..]; by eexists _, _.
Qed.

Lemma span_digits_app d c r : str_forallb is_digit d = true → is_digit c = false →
  span_digits (d +:+ String c r) = (d, String c r).
Proof.
  intros Hd Hc. induction d as [|x d IH]; [change ("" +:+ String c r) with (String c r); cbn [span_digits]; by rewrite Hc|]. cbn in Hd. apply andb_true_iff in Hd as [Hx Hd].
  rewrite str_app_cons. cbn [span_digits]. by rewrite Hx, IH.
Qed.
