(* ===== verification/Transitions.v ===== *)
(** * The four status machines ([state/transitions.ts])

    The status enumerations, the transition matrices with [canTransition] and
    [assertTransition], the three preconditions of a fan-out parent that is
    settled while [idle], and the roll-up of task states into a workflow
    status.

    As in the source the matrices are looked up by string: a status that is
    not a key of its matrix has no successor. *)

From S2P Require Import Prelude Spec.

Inductive TaskStatus :=
  | ts_idle | ts_scheduled | ts_pending_approval | ts_running
  | ts_succeeded | ts_failed | ts_skipped | ts_cancelled.

Inductive WorkflowStatus :=
  | ws_draft | ws_active | ws_paused | ws_completed | ws_cancelled | ws_failed.

Inductive AttemptStatus := as_pending | as_running | as_succeeded | as_failed.

Inductive ApprovalStatus := aps_pending | aps_granted | aps_rejected | aps_needs_revision.

Inductive TransitionKind := k_task | k_workflow | k_attempt | k_approval.

#[export] Instance TaskStatus_eq_dec : EqDecision TaskStatus.
Proof. solve_decision. Defined.
#[export] Instance WorkflowStatus_eq_dec : EqDecision WorkflowStatus.
Proof. solve_decision. Defined.
#[export] Instance AttemptStatus_eq_dec : EqDecision AttemptStatus.
Proof. solve_decision. Defined.
#[export] Instance ApprovalStatus_eq_dec : EqDecision ApprovalStatus.
Proof. solve_decision. Defined.
#[export] Instance TransitionKind_eq_dec : EqDecision TransitionKind.
Proof. solve_decision. Defined.

(** The text each status is stored as. *)
Definition TaskStatus_str (s : TaskStatus) : string :=
  match s with
  | ts_idle => "idle" | ts_scheduled => "scheduled" | ts_pending_approval => "pending_approval"
  | ts_running => "running" | ts_succeeded => "succeeded" | ts_failed => "failed"
  | ts_skipped => "skipped" | ts_cancelled => "cancelled"
  end.

Definition WorkflowStatus_str (s : WorkflowStatus) : string :=
  match s with
  | ws_draft => "draft" | ws_active => "active" | ws_paused => "paused"
  | ws_completed => "completed" | ws_cancelled => "cancelled" | ws_failed => "failed"
  end.

Definition AttemptStatus_str (s : AttemptStatus) : string :=
  match s with
  | as_pending => "pending" | as_running => "running"
  | as_succeeded => "succeeded" | as_failed => "failed"
  end.

Definition ApprovalStatus_str (s : ApprovalStatus) : string :=
  match s with
  | aps_pending => "pending" | aps_granted => "granted"
  | aps_rejected => "rejected" | aps_needs_revision => "needs_revision"
  end.

Definition TASK_STATUSES : list TaskStatus :=
  [ts_idle; ts_scheduled; ts_pending_approval; ts_running; ts_succeeded; ts_failed; ts_skipped;
   ts_cancelled].

Definition WORKFLOW_STATUSES : list WorkflowStatus :=
  [ws_draft; ws_active; ws_paused; ws_completed; ws_cancelled; ws_failed].

Definition ATTEMPT_STATUSES : list AttemptStatus :=
  [as_pending; as_running; as_succeeded; as_failed].

Definition APPROVAL_STATUSES : list ApprovalStatus :=
  [aps_pending; aps_granted; aps_rejected; aps_needs_revision].

(** A [Record<string, readonly string[]>] literal. *)
Definition matrix := list (string * list string).

Definition TASK_TRANSITIONS : matrix :=
  [("idle", ["scheduled"; "cancelled"]);
   ("scheduled", ["pending_approval"; "running"; "skipped"; "cancelled"; "failed"]);
   ("pending_approval", ["scheduled"; "running"; "skipped"; "cancelled"]);
   ("running", ["succeeded"; "failed"; "cancelled"]);
   ("failed", ["scheduled"; "skipped"; "cancelled"]);
   ("succeeded", []);
   ("skipped", []);
   ("cancelled", [])].

Definition WORKFLOW_TRANSITIONS : matrix :=
  [("draft", ["active"; "cancelled"]);
   ("active", ["paused"; "completed"; "failed"; "cancelled"]);
   ("paused", ["active"; "cancelled"]);
   ("completed", []);
   ("cancelled", []);
   ("failed", [])].

Definition ATTEMPT_TRANSITIONS : matrix :=
  [("pending", ["running"; "failed"]);
   ("running", ["succeeded"; "failed"]);
   ("succeeded", []);
   ("failed", [])].

Definition APPROVAL_TRANSITIONS : matrix :=
  [("pending", ["granted"; "rejected"]);
   ("granted", ["needs_revision"]);
   ("rejected", ["needs_revision"]);
   ("needs_revision", ["pending"])].

Definition MATRICES (k : TransitionKind) : matrix :=
  match k with
  | k_task => TASK_TRANSITIONS
  | k_workflow => WORKFLOW_TRANSITIONS
  | k_attempt => ATTEMPT_TRANSITIONS
  | k_approval => APPROVAL_TRANSITIONS
  end.

Fixpoint matrix_get (from : string) (m : matrix) : option (list string) :=
  match m with
  | [] => None
  | (k, v) :: r => if from ≟ k then Some v else matrix_get from r
  end.

Definition canTransition (kind : TransitionKind) (from to : string) : bool :=
  if from ≟ to then true
  else bool_decide (to ∈ matrix_get from (MATRICES kind) ?? []).

(** [TransitionError] carries what was attempted. *)
Record TransitionError := { te_kind : TransitionKind; te_from : string; te_to : string }.

Definition assertTransition (kind : TransitionKind) (from to : string) : result TransitionError unit :=
  if negb (canTransition kind from to)
  then Err {| te_kind := kind; te_from := from; te_to := to |} else Ok ().

(** ** Preconditions of a fan-out parent settled while [idle] *)

Inductive foreach_attempt := idle_to_skipped | idle_to_failed | idle_to_succeeded.

Record ForeachPreconditionError := {
  fpe_parentTaskKey : string; fpe_attempt : foreach_attempt; fpe_reason : string
}.

(** The [sourceTerminalStatus] argument. *)
Inductive source_terminal := src_skipped | src_failed.
#[export] Instance source_terminal_eq_dec : EqDecision source_terminal.
Proof. solve_decision. Defined.

Definition source_terminal_str (s : source_terminal) : string :=
  match s with src_skipped => "skipped" | src_failed => "failed" end.

Definition assertForeachIdleSkip (parentTaskKey : string) (sourceTerminalStatus : source_terminal)
    (failurePolicy : option FailurePolicy) : result ForeachPreconditionError unit :=
  if sourceTerminalStatus ≟ src_skipped then Ok ()
  else if (sourceTerminalStatus ≟ src_failed) && (failurePolicy ≟ Some fp_skip) then Ok ()
  else Err {|
    fpe_parentTaskKey := parentTaskKey;
    fpe_attempt := idle_to_skipped;
    fpe_reason := "source=" +:+ source_terminal_str sourceTerminalStatus +:+ ", failurePolicy=" +:+
      (FailurePolicy_str <$> failurePolicy) ?? "null" +:+
      " (need source=skipped OR source=failed+failurePolicy=skip)" |}.

Definition assertForeachIdleFail (parentTaskKey errorCode : string)
    : result ForeachPreconditionError unit :=
  if (0 <? str_len errorCode)%Z && startsWith "foreach_" errorCode then Ok ()
  else Err {|
    fpe_parentTaskKey := parentTaskKey;
    fpe_attempt := idle_to_failed;
    fpe_reason := "errorCode=" +:+ quoted errorCode +:+
      " (need non-empty foreach_* error code)" |}.

Definition assertForeachIdleSucceeded (parentTaskKey : string) (sourceItemsLength : Z)
    : result ForeachPreconditionError unit :=
  if (sourceItemsLength =? 0)%Z then Ok ()
  else Err {|
    fpe_parentTaskKey := parentTaskKey;
    fpe_attempt := idle_to_succeeded;
    fpe_reason := "sourceItemsLength=" +:+ show_Z sourceItemsLength +:+
      " (need 0 for direct idle→succeeded; otherwise children materialize and parent → running)" |}.

Definition isTerminalTaskStatus (s : TaskStatus) : bool :=
  (s ≟ ts_succeeded) || (s ≟ ts_skipped) || (s ≟ ts_cancelled) || (s ≟ ts_failed).

Definition isTerminalWorkflowStatus (s : WorkflowStatus) : bool :=
  (s ≟ ws_completed) || (s ≟ ws_cancelled) || (s ≟ ws_failed).

(** ** Roll-up of task states *)

Record TaskRollupInput := {
  ri_status : TaskStatus; ri_required : option bool; ri_failurePolicy : option FailurePolicy
}.

(** A failure that fails the workflow: required, with the [block] policy. *)
Definition blocking_failure (t : TaskRollupInput) : bool :=
  (ri_status t ≟ ts_failed) && (ri_required t ?? true) && (ri_failurePolicy t ?? fp_block ≟ fp_block).

Definition rollUpWorkflowStatus (tasks : list TaskRollupInput) : WorkflowStatus :=
  if (length tasks =? 0)%nat then ws_active
  else
    let hasBlockingFailure := existsb blocking_failure tasks in
    if hasBlockingFailure then ws_failed
    else
      let allTerminal := forallb (λ t, isTerminalTaskStatus (ri_status t)) tasks in
      if allTerminal then ws_completed else ws_active.

(** ** Properties *)

(** Deciding a statement about every status by evaluation. *)
Ltac all_statuses := repeat match goal with
  | s : TaskStatus |- _ => destruct s
  | s : WorkflowStatus |- _ => destruct s
  | s : AttemptStatus |- _ => destruct s
  | s : ApprovalStatus |- _ => destruct s
  end.

Lemma isTerminalTaskStatus_spec s :
  isTerminalTaskStatus s = true ↔ s = ts_succeeded ∨ s = ts_skipped ∨ s = ts_cancelled ∨ s = ts_failed.
Proof. destruct s; cbn; intuition discriminate. Qed.

(** The statuses a machine never leaves are its final ones: a task only
    leaves a terminal status from [failed] (a retry or an operator decision), a
    workflow never leaves one, a settled attempt never changes, and no approval
    status is final. *)
Theorem terminal_statuses_absorbing :
  (∀ s t, isTerminalTaskStatus s = true → s ≠ ts_failed →
     canTransition k_task (TaskStatus_str s) (TaskStatus_str t) = true → t = s) ∧
  (∀ t, canTransition k_task "failed" (TaskStatus_str t) = true ↔
     t ∈ [ts_failed; ts_scheduled; ts_skipped; ts_cancelled]) ∧
  (∀ s t, isTerminalWorkflowStatus s = true →
     canTransition k_workflow (WorkflowStatus_str s) (WorkflowStatus_str t) = true → t = s) ∧
  (∀ s t, s = as_succeeded ∨ s = as_failed →
     canTransition k_attempt (AttemptStatus_str s) (AttemptStatus_str t) = true → t = s) ∧
  (∀ s, ∃ t, t ≠ s ∧ canTransition k_approval (ApprovalStatus_str s) (ApprovalStatus_str t) = true).
Proof.
  repeat split.
  - intros s t Hs Hf H. all_statuses; try discriminate; try congruence; reflexivity.
  - all_statuses; intros H; try discriminate H; set_solver.
  - intros H. all_statuses; try reflexivity; exfalso; set_solver.
  - intros s t Hs H. all_statuses; try discriminate; reflexivity.
  - intros s t [->| ->] H; all_statuses; try discriminate; reflexivity.
  - intros []; [exists aps_granted|exists aps_needs_revision|exists aps_needs_revision|exists aps_pending];
      (split; [discriminate|reflexivity]).
Qed.

Lemma terminal_statuses_absorbing_witness : isTerminalWorkflowStatus ws_failed = true ∧ ws_failed = ws_failed.
Proof. split; [reflexivity|]. apply (proj1 (proj2 (proj2 terminal_statuses_absorbing))); reflexivity. Defined.

(** The three direct settlements of an idle fan-out parent are outside the
    generic matrix, so [assertTransition] throws on each of them, and each
    precondition helper returns exactly under the condition it documents. *)
Theorem foreach_preconditions_spec :
  (∀ s, s ∈ [ts_skipped; ts_failed; ts_succeeded] →
     is_ok (assertTransition k_task "idle" (TaskStatus_str s)) = false) ∧
  (∀ k src pol, is_ok (assertForeachIdleSkip k src pol) = true ↔
     src = src_skipped ∨ (src = src_failed ∧ pol = Some fp_skip)) ∧
  (∀ k code, is_ok (assertForeachIdleFail k code) = true ↔ ∃ rest, code = "foreach_" +:+ rest) ∧
  (∀ k n, is_ok (assertForeachIdleSucceeded k n) = true ↔ n = 0%Z).
Proof.
  repeat split.
  - intros s Hs. repeat (apply elem_of_cons in Hs as [->|Hs]; [reflexivity|]). by apply elem_of_nil in Hs.
  - unfold assertForeachIdleSkip. split_matches; cbn; intros; try discriminate; auto.
  - intros [->|[-> ->]]; reflexivity.
  - unfold assertForeachIdleFail. case_match eqn:E; cbn; [|discriminate]. intros _.
    apply andb_true_iff in E as [_ E]. by apply prefix_split in E.
  - intros [rest ->]. unfold assertForeachIdleFail.
    replace (startsWith _ _) with true by (symmetry; apply prefix_app).
    replace (0 <? _)%Z with true; [reflexivity|].
    symmetry. apply Z.ltb_lt. unfold str_len. rewrite str_app_length. cbn. lia.
  - unfold assertForeachIdleSucceeded. case_match eqn:E; cbn; [by bprop|discriminate].
  - intros ->. reflexivity.
Qed.

Lemma foreach_preconditions_spec_witness :
  is_ok (assertTransition k_task "idle" "failed") = false.
Proof. apply (proj1 foreach_preconditions_spec ts_failed). set_solver. Defined.

Lemma blocking_failure_spec t :
  blocking_failure t = true ↔
    ri_status t = ts_failed ∧ ri_required t ≠ Some false ∧ ri_failurePolicy t ≠ Some fp_skip.
Proof.
  destruct t as [s r p]. unfold blocking_failure; cbn. rewrite !andb_true_iff, !bool_decide_eq_true.
  destruct r as [[]|], p as [[]|]; cbn; intuition congruence.
Qed.

Lemma not_blocking_failure t :
  blocking_failure t = false ↔
    (ri_status t = ts_failed → ri_required t = Some false ∨ ri_failurePolicy t = Some fp_skip).
Proof.
  rewrite <- not_true_iff_false, blocking_failure_spec.
  destruct (decide (ri_required t = Some false)), (decide (ri_failurePolicy t = Some fp_skip));
    intuition.
Qed.

(** The roll-up returns [failed] exactly when a required task with the
    [block] policy failed, [completed] exactly when there is a task, none of
    them such a failure, and all of them terminal, and [active] otherwise; in
    particular a [skip]-policy or optional failure never fails the roll-up. *)
Theorem rollUpWorkflowStatus_spec tasks :
  (rollUpWorkflowStatus tasks = ws_failed ↔ ∃ t, t ∈ tasks ∧ ri_status t = ts_failed ∧
     ri_required t ≠ Some false ∧ ri_failurePolicy t ≠ Some fp_skip) ∧
  (rollUpWorkflowStatus tasks = ws_completed ↔ tasks ≠ [] ∧
     ∀ t, t ∈ tasks → isTerminalTaskStatus (ri_status t) = true ∧
       (ri_status t = ts_failed → ri_required t = Some false ∨ ri_failurePolicy t = Some fp_skip)) ∧
  rollUpWorkflowStatus tasks ∈ [ws_active; ws_completed; ws_failed].
Proof.
  setoid_rewrite <- blocking_failure_spec. setoid_rewrite <- not_blocking_failure.
  assert (Hf : existsb blocking_failure tasks = true ↔ ∃ t, t ∈ tasks ∧ blocking_failure t = true).
  { rewrite existsb_exists. by setoid_rewrite <- list_elem_of_In. }
  assert (Ht : forallb (λ t, isTerminalTaskStatus (ri_status t)) tasks = true ↔
               ∀ t, t ∈ tasks → isTerminalTaskStatus (ri_status t) = true).
  { rewrite forallb_forall. by setoid_rewrite <- list_elem_of_In. }
  unfold rollUpWorkflowStatus.
  destruct tasks as [|t0 ts].
  { cbn. split_and!; [split; [discriminate|]|split; [discriminate|]|set_solver].
    - intros (t & H & _). by apply elem_of_nil in H.
    - by intros []. }
  set (tasks := t0 :: ts) in *. change (length tasks =? 0)%nat with false. cbv iota zeta.
  destruct (existsb _ tasks).
  - split_and!; [tauto| |set_solver]. split; [discriminate|].
    intros [_ H]. destruct (proj1 Hf eq_refl) as (t & Hin & Hb).
    destruct (H t Hin) as [_ H']. congruence.
  - assert (Hn : ∀ t, t ∈ tasks → blocking_failure t = false).
    { intros t Hin. apply not_true_iff_false. intros Hb. by assert (false = true) by (apply Hf; eauto). }
    split_and!; [| |destruct (forallb _ _); set_solver].
    + rewrite <- Hf. destruct (forallb _ _); split; discriminate.
    + destruct (forallb _ tasks); split; try discriminate; [|auto|].
      * intros _. split; [discriminate|]. intros t Hin. split; [by apply Ht|auto].
      * intros [_ H]. assert (false = true); [|done]. apply Ht. intros t Hin. by apply H.
Qed.
