(* ===== verification/Gates.v ===== *)
(** * The gate ledger ([state/gates.ts] and [engine/gate-eval.ts])

    A task is dispatched when its timing, dependency and approval gates all
    pass.  [evaluateTaskGates] computes the three ledger entries from the task's
    context; [deriveEffectiveGateState] reads a ledger back into a readiness
    state with the reasons for every gate that did not pass. *)

From S2P Require Import Prelude Json Time Spec Transitions.

Inductive GateKind := g_timing | g_dependency | g_approval.
Inductive GateState := gs_pending | gs_passed | gs_blocked | gs_not_required.
Inductive EffectiveGateState := eg_dispatchable | eg_scheduled | eg_pending_approval | eg_blocked.

#[export] Instance GateKind_eq_dec : EqDecision GateKind.
Proof. solve_decision. Defined.
#[export] Instance GateState_eq_dec : EqDecision GateState.
Proof. solve_decision. Defined.
#[export] Instance EffectiveGateState_eq_dec : EqDecision EffectiveGateState.
Proof. solve_decision. Defined.

Definition GateKind_str (k : GateKind) : string :=
  match k with g_timing => "timing" | g_dependency => "dependency" | g_approval => "approval" end.

Definition GateState_str (s : GateState) : string :=
  match s with
  | gs_pending => "pending" | gs_passed => "passed" | gs_blocked => "blocked"
  | gs_not_required => "not_required"
  end.

Record GateEntry := {
  ge_kind : GateKind;
  ge_state : GateState;
  ge_reason : option string;
  ge_details : option json;
  ge_blockerRefs : option (list json);
}.

Record Blocker := {
  b_kind : GateKind; b_reason : string; b_blockerRefs : option (list json)
}.

Record GateEvaluation := { ev_state : EffectiveGateState; ev_blockers : list Blocker }.

(** The first entry of the ledger with the given kind. *)
Definition gate (ledger : list GateEntry) (kind : GateKind) : option GateEntry :=
  List.find (λ g, ge_kind g ≟ kind) ledger.

Definition passed (g : option GateEntry) : bool :=
  match g with
  | None => true
  | Some e => (ge_state e ≟ gs_passed) || (ge_state e ≟ gs_not_required)
  end.

Definition gate_state_is (g : option GateEntry) (s : GateState) : bool :=
  match g with Some e => ge_state e ≟ s | None => false end.

Definition blocker_of (g : GateEntry) : Blocker := {|
  b_kind := ge_kind g;
  b_reason := ge_reason g ?? (GateKind_str (ge_kind g) +:+ " gate is " +:+ GateState_str (ge_state g));
  b_blockerRefs := ge_blockerRefs g |}.

Definition deriveEffectiveGateState (ledger : list GateEntry) : GateEvaluation :=
  let timing := gate ledger g_timing in
  let dependency := gate ledger g_dependency in
  let approval := gate ledger g_approval in
  let blockers := map blocker_of
    (List.filter (λ g, (ge_state g ≟ gs_blocked) || (ge_state g ≟ gs_pending)) ledger) in
  if gate_state_is dependency gs_blocked || gate_state_is timing gs_blocked
  then {| ev_state := eg_blocked; ev_blockers := blockers |}
  else
    let timingAndDepsOk := passed timing && passed dependency in
    if timingAndDepsOk && gate_state_is approval gs_pending
    then {| ev_state := eg_pending_approval; ev_blockers := blockers |}
    else if negb timingAndDepsOk && passed approval && passed dependency
    then {| ev_state := eg_scheduled; ev_blockers := blockers |}
    else if passed timing && passed dependency && passed approval
    then {| ev_state := eg_dispatchable; ev_blockers := [] |}
    else {| ev_state := eg_blocked; ev_blockers := blockers |}.

Definition isDispatchable (ledger : list GateEntry) : bool :=
  ev_state (deriveEffectiveGateState ledger) ≟ eg_dispatchable.

(** ** Evaluation *)

Record DependencyEdge := {
  de_dependsOnTaskId : string;
  de_dependsOnKey : option string;
  de_outcome : DependencyOutcome;
}.

Record TaskGateContext := {
  gc_dueAtUtc : option Z;
  gc_now : Z;
  gc_dependencies : list DependencyEdge;
  gc_depStatusById : gmap string TaskStatus;
  gc_hasApproval : bool;
  gc_approvalStatus : option ApprovalStatus;
}.

Inductive DepResolution := dr_satisfied | dr_blocked | dr_pending.
#[export] Instance DepResolution_eq_dec : EqDecision DepResolution.
Proof. solve_decision. Defined.

Definition resolveDependency (upstreamStatus : TaskStatus) (outcome : DependencyOutcome) : DepResolution :=
  match outcome with
  | do_success =>
      if upstreamStatus ≟ ts_succeeded then dr_satisfied
      else if (upstreamStatus ≟ ts_failed) || (upstreamStatus ≟ ts_skipped)
              || (upstreamStatus ≟ ts_cancelled) then dr_blocked
      else dr_pending
  | do_skipped =>
      if (upstreamStatus ≟ ts_succeeded) || (upstreamStatus ≟ ts_skipped) then dr_satisfied
      else if (upstreamStatus ≟ ts_failed) || (upstreamStatus ≟ ts_cancelled) then dr_blocked
      else dr_pending
  | do_failed =>
      if upstreamStatus ≟ ts_failed then dr_satisfied
      else if (upstreamStatus ≟ ts_succeeded) || (upstreamStatus ≟ ts_skipped)
              || (upstreamStatus ≟ ts_cancelled) then dr_blocked
      else dr_pending
  end.

Definition gate_entry (k : GateKind) (s : GateState) (reason : option string)
    (refs : option (list json)) : GateEntry :=
  {| ge_kind := k; ge_state := s; ge_reason := reason; ge_details := None; ge_blockerRefs := refs |}.

Definition timing_gate (ctx : TaskGateContext) : GateEntry :=
  match gc_dueAtUtc ctx with
  | Some dueAt =>
      let due := (dueAt <=? gc_now ctx)%Z in
      gate_entry g_timing (if due then gs_passed else gs_pending)
        (if due then None else Some ("Not due until " +:+ iso_text dueAt)) None
  | None => gate_entry g_timing gs_passed None None
  end.

(** How each edge resolves against the current upstream status. *)
Definition edge_resolution (ctx : TaskGateContext) (dep : DependencyEdge) : DepResolution :=
  resolveDependency (gc_depStatusById ctx !! de_dependsOnTaskId dep ?? ts_idle) (de_outcome dep).

Definition edge_ref (dep : DependencyEdge) : string := de_dependsOnKey dep ?? de_dependsOnTaskId dep.

Definition edges_resolving (ctx : TaskGateContext) (r : DepResolution) : list string :=
  map edge_ref (List.filter (λ d, edge_resolution ctx d ≟ r) (gc_dependencies ctx)).

Definition dependency_gate (ctx : TaskGateContext) : GateEntry :=
  if (length (gc_dependencies ctx) =? 0)%nat then gate_entry g_dependency gs_passed None None
  else
    let blockers := edges_resolving ctx dr_blocked in
    let pending := edges_resolving ctx dr_pending in
    if (0 <? length blockers)%nat then
      gate_entry g_dependency gs_blocked
        (Some ("Blocked by upstream outcome: " +:+ join ", " blockers)) (Some (map JStr blockers))
    else if (0 <? length pending)%nat then
      gate_entry g_dependency gs_pending
        (Some ("Waiting on: " +:+ join ", " pending)) (Some (map JStr pending))
    else gate_entry g_dependency gs_passed None None.

Definition approval_gate (ctx : TaskGateContext) : GateEntry :=
  if gc_hasApproval ctx then
    let granted := gc_approvalStatus ctx ≟ Some aps_granted in
    gate_entry g_approval (if granted then gs_passed else gs_pending)
      (if granted then None
       else Some ("Awaiting approval (" +:+
                  (ApprovalStatus_str <$> gc_approvalStatus ctx) ?? "pending" +:+ ")")) None
  else gate_entry g_approval gs_not_required None None.

Definition evaluateTaskGates (ctx : TaskGateContext) : list GateEntry :=
  [timing_gate ctx; dependency_gate ctx; approval_gate ctx].

(** ** Properties *)

Lemma gate_entry_state k s r l : ge_state (gate_entry k s r l) = s.
Proof. reflexivity. Qed.

Lemma find_evaluated ctx k :
  gate (evaluateTaskGates ctx) k =
    Some (match k with
          | g_timing => timing_gate ctx
          | g_dependency => dependency_gate ctx
          | g_approval => approval_gate ctx
          end).
Proof.
  unfold gate, evaluateTaskGates. cbn [List.find].
  assert (ge_kind (timing_gate ctx) = g_timing) as -> by (unfold timing_gate; by repeat case_match).
  assert (ge_kind (dependency_gate ctx) = g_dependency) as ->
    by (unfold dependency_gate; by repeat case_match).
  assert (ge_kind (approval_gate ctx) = g_approval) as -> by (unfold approval_gate; by case_match).
  by destruct k.
Qed.

Definition timing_ok (ctx : TaskGateContext) : Prop :=
  match gc_dueAtUtc ctx with Some d => (d <= gc_now ctx)%Z | None => True end.

Definition edges_ok (ctx : TaskGateContext) : Prop :=
  ∀ d, d ∈ gc_dependencies ctx → edge_resolution ctx d = dr_satisfied.

Definition approval_ok (ctx : TaskGateContext) : Prop :=
  gc_hasApproval ctx = true → gc_approvalStatus ctx = Some aps_granted.

Lemma timing_gate_state ctx :
  (ge_state (timing_gate ctx) = gs_passed ∧ timing_ok ctx) ∨
  (ge_state (timing_gate ctx) = gs_pending ∧ ¬ timing_ok ctx).
Proof.
  unfold timing_gate, timing_ok. destruct (gc_dueAtUtc ctx) as [d|]; cbn; [|auto].
  destruct (d <=? gc_now ctx)%Z eqn:E; bprop; [auto|right; split; [done|lia]].
Qed.

Lemma approval_gate_state ctx :
  (passed (Some (approval_gate ctx)) = true ∧ ge_state (approval_gate ctx) ≠ gs_pending ∧ approval_ok ctx) ∨
  (ge_state (approval_gate ctx) = gs_pending ∧ ¬ approval_ok ctx).
Proof.
  unfold approval_gate, approval_ok. destruct (gc_hasApproval ctx); cbn.
  - destruct (gc_approvalStatus ctx ≟ Some aps_granted) eqn:E; bprop; cbn.
    + left. by split_and!.
    + right. split; [done|intros Hc; by apply E, Hc].
  - left. split_and!; [done|done|discriminate].
Qed.

Lemma edges_resolving_nil ctx r :
  (0 <? length (edges_resolving ctx r))%nat = false ↔
  ∀ d, d ∈ gc_dependencies ctx → edge_resolution ctx d ≠ r.
Proof.
  unfold edges_resolving. rewrite length_map, Nat.ltb_ge, Nat.le_0_r.
  setoid_rewrite list_elem_of_In. induction (gc_dependencies ctx) as [|d l IH]; cbn; [naive_solver|].
  case_bool_decide; cbn; [split; [lia|]; intros H'; by destruct (H' d); auto|].
  rewrite IH. naive_solver.
Qed.

(** The three states of the dependency gate, by how the edges resolve. *)
Lemma dependency_gate_state ctx :
  (ge_state (dependency_gate ctx) = gs_passed ∧ edges_ok ctx) ∨
  (ge_state (dependency_gate ctx) = gs_blocked ∧
     ∃ d, d ∈ gc_dependencies ctx ∧ edge_resolution ctx d = dr_blocked) ∨
  (ge_state (dependency_gate ctx) = gs_pending ∧
     (∀ d, d ∈ gc_dependencies ctx → edge_resolution ctx d ≠ dr_blocked) ∧
     ∃ d, d ∈ gc_dependencies ctx ∧ edge_resolution ctx d = dr_pending).
Proof.
  assert (Hex : ∀ r, (0 <? length (edges_resolving ctx r))%nat = true →
            ∃ d, d ∈ gc_dependencies ctx ∧ edge_resolution ctx d = r).
  { intros r H. destruct (edges_resolving ctx r) as [|x l] eqn:E; [discriminate|].
    assert (Hx : x ∈ edges_resolving ctx r) by (rewrite E; left).
    apply list_elem_of_In, in_map_iff in Hx as (d & _ & Hd). apply filter_In in Hd as [Hd Hr].
    exists d. bprop. split; [by apply list_elem_of_In|done]. }
  unfold dependency_gate, edges_ok. destruct (gc_dependencies ctx) as [|d0 ds] eqn:Ed.
  { left. cbn. split; [done|]. intros d Hd. by apply elem_of_nil in Hd. }
  cbn [length Nat.eqb]. rewrite <- Ed in *.
  destruct (0 <? length (edges_resolving ctx dr_blocked))%nat eqn:Eb; [right; left; auto|].
  rewrite edges_resolving_nil in Eb.
  destruct (0 <? length (edges_resolving ctx dr_pending))%nat eqn:Ep; [right; right; auto|].
  rewrite edges_resolving_nil in Ep. left. split; [done|]. intros d Hd.
  specialize (Eb d Hd). specialize (Ep d Hd). by destruct (edge_resolution ctx d).
Qed.

Lemma dispatchable_spec ctx :
  isDispatchable (evaluateTaskGates ctx) = true ↔
    (∀ d, gc_dueAtUtc ctx = Some d → (d <= gc_now ctx)%Z) ∧
    (∀ d, d ∈ gc_dependencies ctx →
       resolveDependency (gc_depStatusById ctx !! de_dependsOnTaskId d ?? ts_idle) (de_outcome d)
         = dr_satisfied) ∧
    (gc_hasApproval ctx = true → gc_approvalStatus ctx = Some aps_granted).
Proof.
  assert (Ht : (∀ d, gc_dueAtUtc ctx = Some d → (d <= gc_now ctx)%Z) ↔ timing_ok ctx).
  { unfold timing_ok. destruct (gc_dueAtUtc ctx); naive_solver. }
  rewrite Ht. change (isDispatchable (evaluateTaskGates ctx) = true ↔
    timing_ok ctx ∧ edges_ok ctx ∧ approval_ok ctx).
  unfold isDispatchable, deriveEffectiveGateState. rewrite !find_evaluated.
  destruct (timing_gate_state ctx) as [[Et ?]|[Et ?]],
    (dependency_gate_state ctx) as [[Ed Hd]|[[Ed (d & Hd & Hr)]|[Ed (_ & d & Hd & Hr)]]],
    (approval_gate_state ctx) as [(Ea & Ea' & ?)|[Ea ?]];
    cbn [passed gate_state_is] in *; rewrite ?Et, ?Ed, ?Ea; cbn;
    try (rewrite (bool_decide_eq_false_2 _ Ea')); cbn;
    (split; [intros; try discriminate; tauto|]);
    intros (? & He & ?); try reflexivity; try contradiction;
    specialize (He d Hd); congruence.
Qed.

(** A task is dispatchable exactly when it is due (or undated), every
    dependency edge is satisfied by the current upstream status, and its
    approval, if it has one, is granted. *)
Theorem dispatchable_iff ctx :
  isDispatchable (evaluateTaskGates ctx) = true ↔
    (∀ d, gc_dueAtUtc ctx = Some d → (d <= gc_now ctx)%Z) ∧
    (∀ d, d ∈ gc_dependencies ctx →
       resolveDependency (gc_depStatusById ctx !! de_dependsOnTaskId d ?? ts_idle) (de_outcome d)
         = dr_satisfied) ∧
    (gc_hasApproval ctx = true → gc_approvalStatus ctx = Some aps_granted).
Proof. exact (dispatchable_spec ctx). Qed.

(** A dependency edge is undecided exactly while its upstream task is not
    terminal, and is decided once and for all when it becomes terminal: each
    outcome has its own set of satisfying statuses, every other terminal status
    blocks it. *)
Theorem resolveDependency_spec u o :
  (resolveDependency u o = dr_pending ↔ isTerminalTaskStatus u = false) ∧
  (resolveDependency u o = dr_satisfied ↔
     match o with
     | do_success => u = ts_succeeded
     | do_skipped => u = ts_succeeded ∨ u = ts_skipped
     | do_failed => u = ts_failed
     end).
Proof. destruct u, o; vm_compute; intuition discriminate. Qed.

(** The readiness of an evaluated ledger by cases: [pending_approval] when
    due with satisfied edges and no grant, [scheduled] when only the due time is
    missing, and [blocked] in every other non-dispatchable case, which includes
    a merely pending dependency and a not-yet-due task without its grant. *)
Theorem effective_state_cases ctx :
  let ev := deriveEffectiveGateState (evaluateTaskGates ctx) in
  (ev_state ev = eg_pending_approval ↔ timing_ok ctx ∧ edges_ok ctx ∧ ¬ approval_ok ctx) ∧
  (ev_state ev = eg_scheduled ↔ ¬ timing_ok ctx ∧ edges_ok ctx ∧ approval_ok ctx) ∧
  (ev_state ev = eg_blocked ↔ ¬ edges_ok ctx ∨ (¬ timing_ok ctx ∧ ¬ approval_ok ctx)) ∧
  (ev_blockers ev = [] ↔ ev_state ev = eg_dispatchable).
Proof.
  cbv zeta. unfold deriveEffectiveGateState. rewrite !find_evaluated. unfold evaluateTaskGates.
  assert (Hno : ∀ d, d ∈ gc_dependencies ctx → edge_resolution ctx d ≠ dr_satisfied → ¬ edges_ok ctx).
  { intros d Hd Hr He. by apply Hr, He. }
  destruct (timing_gate_state ctx) as [[Et ?]|[Et ?]],
    (dependency_gate_state ctx) as [[Ed Hd]|[[Ed (d & Hd & Hr)]|[Ed (_ & d & Hd & Hr)]]],
    (approval_gate_state ctx) as [(Ea & Ea' & ?)|[Ea ?]];
    cbn [passed gate_state_is List.filter] in *; rewrite ?Et, ?Ed, ?Ea; cbn;
    try (rewrite (bool_decide_eq_false_2 _ Ea')); cbn;
    try (assert (¬ edges_ok ctx) by (apply (Hno d Hd); congruence));
    split_and!; split; intros; try discriminate; tauto.
Qed.
