(* ===== verification/Graph.v ===== *)
(** * Cycle detection on adjacency maps ([hasCycle] of [spec/validate.ts])

    The validator tests three graphs for cycles (dependencies, schedule
    anchors, hierarchy parents) with one depth-first search that colours
    nodes.  The search is modelled with its colour map and its early returns;
    [hasCycle_spec] shows that it decides whether the graph has a cycle.

    The second part holds what the other components share about finite
    directed graphs: a finite set in which every node has a successor contains
    a cycle. *)

From Stdlib Require Import ListDec.
From S2P Require Import Prelude.

Abbreviation adjacency := (gmap string (list string)).

Definition successors (adj : adjacency) (x : string) : list string := adj !! x ?? [].

Definition edge (adj : adjacency) (x y : string) : Prop := y ∈ successors adj x.

Definition cyclic (adj : adjacency) : Prop := ∃ k, tc (edge adj) k k.

(** [adj.get(k)!.push(v)] for a key that is present. *)
Definition push (k v : string) (adj : adjacency) : adjacency :=
  alter (λ l, l ++ [v]) k adj.

Inductive color := WHITE | GRAY | BLACK.
#[export] Instance color_eq_dec : EqDecision color.
Proof. solve_decision. Defined.

Abbreviation colors := (gmap string color).

(** [color.get(x) ?? WHITE] *)
Definition color_of (c : colors) (x : string) : color := c !! x ?? WHITE.

(** The loop over the successors of a node, with [visit] for the white ones. *)
Definition visit_succs (visit : string → colors → option (bool * colors)) (node : string)
    : list string → colors → option (bool * colors) :=
  fix loop nexts c :=
    match nexts with
    | [] => Some (false, <[node := BLACK]> c)
    | next :: rest =>
        match color_of c next with
        | GRAY => Some (true, c)
        | WHITE =>
            match visit next c with
            | Some (true, c') => Some (true, c')
            | Some (false, c') => loop rest c'
            | None => None
            end
        | BLACK => loop rest c
        end
    end.

(** [visit]; [None] means that the fuel ran out. *)
Fixpoint visit (fuel : nat) (adj : adjacency) (node : string) (c : colors) : option (bool * colors) :=
  match fuel with
  | O => None
  | S f => visit_succs (visit f adj) node (successors adj node) (<[node := GRAY]> c)
  end.

(** The loop over the keys of the map. *)
Fixpoint visit_keys (fuel : nat) (adj : adjacency) (keys : list string) (c : colors) : option bool :=
  match keys with
  | [] => Some false
  | k :: r =>
      if color_of c k ≟ WHITE then
        match visit fuel adj k c with
        | Some (true, _) => Some true
        | Some (false, c') => visit_keys fuel adj r c'
        | None => None
        end
      else visit_keys fuel adj r c
  end.

(** Every node of the graph: the keys and the targets of the edges. *)
Definition nodes (adj : adjacency) : gset string :=
  dom adj ∪ list_to_set (concat (map snd (map_to_list adj))).

(** All keys start white; the recursion is at most as deep as there are nodes. *)
Definition hasCycle (adj : adjacency) : bool :=
  match visit_keys (S (size (nodes adj))) adj (map fst (map_to_list adj)) (const WHITE <$> adj) with
  | Some b => b
  | None => false
  end.

(** ** Correctness of the search *)

Definition black (c : colors) (x : string) : Prop := color_of c x = BLACK.
Definition gray (c : colors) (x : string) : Prop := color_of c x = GRAY.

(** The black part is closed under edges and holds no cycle. *)
Record settled (adj : adjacency) (c : colors) : Prop := {
  settled_closed x y : black c x → edge adj x y → black c y;
  settled_acyclic x : black c x → ¬ tc (edge adj) x x;
}.

Definition whites (adj : adjacency) (c : colors) : gset string :=
  filter (λ x, color_of c x = WHITE) (nodes adj).

(** What a completed visit of [node] from colours [c] guarantees. *)
Definition visited (adj : adjacency) (node : string) (c : colors) (r : bool * colors) : Prop :=
  let (b, c') := r in
  if b then cyclic adj
  else settled adj c' ∧ black c' node ∧ (∀ x, black c x → black c' x) ∧
       (∀ x, gray c' x ↔ gray c x).

Section dfs.
Context (adj : adjacency).

Lemma color_insert c x v y :
  color_of (<[x := v]> c) y = if decide (x = y) then v else color_of c y.
Proof. unfold color_of. rewrite lookup_insert. by case_decide. Qed.

Lemma edge_target_node x y : edge adj x y → y ∈ nodes adj.
Proof.
  unfold edge, successors, nodes. intros H. destruct (adj !! x) as [l|] eqn:E; cbn in H; [|set_solver].
  apply elem_of_union_r, elem_of_list_to_set, list_elem_of_In, in_concat.
  exists l. split; [|by apply list_elem_of_In].
  apply in_map_iff. exists (x, l). split; [done|]. by apply list_elem_of_In, elem_of_map_to_list.
Qed.

Lemma whites_insert c x v :
  x ∈ nodes adj → color_of c x = WHITE → v ≠ WHITE →
  (size (whites adj (<[x := v]> c)) < size (whites adj c))%nat.
Proof.
  intros Hx Hw Hv. apply subset_size. split.
  - intros y. unfold whites. rewrite !elem_of_filter, color_insert. case_decide; naive_solver.
  - intros H. assert (Hin : x ∈ whites adj c) by (unfold whites; rewrite elem_of_filter; auto).
    apply H in Hin. unfold whites in Hin. rewrite elem_of_filter, color_insert in Hin.
    case_decide; naive_solver.
Qed.

Lemma whites_mono c c' :
  (∀ x, black c x → black c' x) → (∀ x, gray c x → gray c' x) →
  (size (whites adj c') <= size (whites adj c))%nat.
Proof.
  intros Hb Hg. apply subseteq_size. intros x. unfold whites. rewrite !elem_of_filter.
  intros [Hw Hx]. split; [|done].
  destruct (color_of c x) eqn:E; [done| |]; [pose proof (Hg x E)|pose proof (Hb x E)]; unfold gray, black in *;
    congruence.
Qed.

Lemma tc_black_closed c x y : settled adj c → black c x → tc (edge adj) x y → black c y.
Proof. intros Hs Hx H. induction H as [x y H|x y z H _ IH]; eauto using settled_closed. Qed.

(** Blackening a node whose successors are black keeps the black part settled. *)
Lemma settled_finish c node :
  settled adj c → gray c node → (∀ y, edge adj node y → black c y) →
  settled adj (<[node := BLACK]> c).
Proof.
  intros Hs Hg Hsucc.
  assert (Hb : ∀ x, black (<[node := BLACK]> c) x ↔ x = node ∨ black c x).
  { intros x. unfold black. rewrite color_insert. case_decide; naive_solver. }
  assert (Hn : ¬ black c node) by (unfold black, gray in *; congruence).
  split.
  - intros x y. rewrite !Hb. intros [->|Hx] He; [by right; apply Hsucc|].
    right. eauto using settled_closed.
  - intros x. rewrite Hb. intros Hx Hcyc.
    assert (Hcase : black c x ∨ x = node) by tauto. clear Hx.
    destruct Hcase as [Hx| ->]; [by apply (settled_acyclic _ _ Hs x)|].
    apply Hn. inversion Hcyc as [? ? He|? y ? He Hrest]; subst; [by apply Hsucc|].
    eapply tc_black_closed; [done| |exact Hrest]. by apply Hsucc.
Qed.

(** The specification of a visit for a given amount of white nodes. *)
Definition visit_spec (f : nat) : Prop :=
  ∀ node c, color_of c node = WHITE → node ∈ nodes adj →
    settled adj c → (∀ g, gray c g → tc (edge adj) g node) →
    (size (whites adj c) <= f)%nat →
    ∃ r, visit f adj node c = Some r ∧ visited adj node c r.

Lemma visit_succs_spec f node c0 :
  visit_spec f → gray c0 node → (∀ g, gray c0 g → rtc (edge adj) g node) →
  ∀ nexts c,
    (∀ y, y ∈ nexts → edge adj node y) →
    (∀ y, edge adj node y → y ∉ nexts → black c y) →
    settled adj c → (∀ x, black c0 x → black c x) → (∀ x, gray c x ↔ gray c0 x) →
    (size (whites adj c) <= f)%nat →
    ∃ b c', visit_succs (visit f adj) node nexts c = Some (b, c') ∧
      if b then cyclic adj
      else settled adj c' ∧ black c' node ∧ (∀ x, black c0 x → black c' x) ∧
           (∀ x, gray c' x ↔ x ≠ node ∧ gray c0 x).
Proof.
  intros IH Hnode Hpath nexts. induction nexts as [|y nexts IHn]; intros c Hin Hdone Hs Hb Hg Hf.
  - cbn. do 2 eexists. split; [reflexivity|]. cbv iota. split_and!.
    + apply settled_finish; [done|by apply Hg|]. intros y Hy. apply Hdone; [done|set_solver].
    + unfold black. rewrite color_insert. by rewrite decide_True.
    + intros x Hx. unfold black. rewrite color_insert. case_decide; [done|by apply Hb].
    + intros x. unfold gray. rewrite color_insert. case_decide as E; [subst; split; [done|tauto]|].
      specialize (Hg x). unfold gray in Hg. rewrite Hg. split; [intros; split; [congruence|done]|tauto].
  - assert (Hey : edge adj node y) by (apply Hin; left).
    cbn [visit_succs]. destruct (color_of c y) eqn:Ecol.
    + destruct (IH y c) as ([b c'] & Ev & Hv); [done|by eapply edge_target_node|done| |done|].
      { intros g Hgg. apply Hg, Hpath in Hgg. eapply tc_rtc_l; [exact Hgg|by constructor]. }
      rewrite Ev. destruct b; [by do 2 eexists|].
      destruct Hv as (Hs' & Hby & Hmono & Hgray).
      apply IHn; try done.
      * intros z Hz. apply Hin. by right.
      * intros z Hz Hz'. destruct (decide (z = y)) as [->|]; [done|].
        apply Hmono, Hdone; [done|]. rewrite elem_of_cons. tauto.
      * intros x Hx. by apply Hmono, Hb.
      * intros x. rewrite Hgray. apply Hg.
      * etrans; [|exact Hf]. apply whites_mono; [done|]. intros x. by rewrite Hgray.
    + do 2 eexists. split; [reflexivity|]. cbn. exists y.
      eapply tc_rtc_l; [|by constructor]. apply Hpath. by apply Hg.
    + apply IHn; try done.
      * intros z Hz. apply Hin. by right.
      * intros z Hz Hz'. destruct (decide (z = y)) as [->|]; [done|].
        apply Hdone; [done|]. rewrite elem_of_cons. tauto.
Qed.

Lemma visit_correct f : visit_spec f.
Proof.
  induction f as [|f IH]; intros node c Hw Hn Hs Hpath Hf.
  - assert (Hin : node ∈ whites adj c) by (unfold whites; rewrite elem_of_filter; auto).
    assert (whites adj c = ∅) by (apply leibniz_equiv, size_empty_inv; lia). set_solver.
  - cbn [visit]. set (c0 := <[node := GRAY]> c).
    assert (Hg0 : ∀ x, gray c0 x ↔ x = node ∨ gray c x).
    { intros x. unfold c0, gray. rewrite color_insert. case_decide; naive_solver. }
    assert (Hb0 : ∀ x, black c0 x ↔ black c x).
    { intros x. unfold c0, black. rewrite color_insert. case_decide as E; [subst|done].
      split; [done|]. congruence. }
    destruct (visit_succs_spec f node c0 IH) with (nexts := successors adj node) (c := c0)
      as (b & c' & Ev & Hv); try done.
    + by apply Hg0; left.
    + intros g. rewrite Hg0. intros [->|Hg]; [done|]. by apply tc_rtc, Hpath.
    + split; [intros x y; rewrite !Hb0; apply settled_closed, Hs|].
      intros x; rewrite Hb0; apply settled_acyclic, Hs.
    + assert (size (whites adj c0) < size (whites adj c))%nat by (by apply whites_insert). lia.
    + exists (b, c'). split; [exact Ev|]. cbn. destruct b; [done|].
      destruct Hv as (Hs' & Hbn & Hmono & Hgray). split_and!; try done.
      * intros x Hx. by apply Hmono, Hb0.
      * intros x. rewrite Hgray, Hg0. unfold gray in *. split; [naive_solver|].
        intros Hx. split; [intros ->; congruence|auto].
Qed.

Lemma visit_keys_correct f keys c :
  (∀ k, k ∈ keys → k ∈ nodes adj) → settled adj c → (∀ x, ¬ gray c x) →
  (size (nodes adj) <= f)%nat →
  ∃ b, visit_keys f adj keys c = Some b ∧
    if b then cyclic adj
    else ∃ c', settled adj c' ∧ (∀ x, black c x → black c' x) ∧ (∀ k, k ∈ keys → black c' k).
Proof.
  revert c. induction keys as [|k keys IH]; intros c Hin Hs Hg Hf; cbn [visit_keys].
  - exists false. split; [done|]. exists c. split_and!; auto. intros k Hk. by apply elem_of_nil in Hk.
  - assert (Hk : k ∈ nodes adj) by (apply Hin; left).
    assert (Hin' : ∀ k', k' ∈ keys → k' ∈ nodes adj) by (intros; apply Hin; by right).
    assert (Hfin : ∀ c1, settled adj c1 → (∀ x, ¬ gray c1 x) → (∀ x, black c x → black c1 x) →
      black c1 k → ∃ b, visit_keys f adj keys c1 = Some b ∧
        if b then cyclic adj
        else ∃ c', settled adj c' ∧ (∀ x, black c x → black c' x) ∧ (∀ j, j ∈ k :: keys → black c' j)).
    { intros c1 Hs1 Hg1 Hb1 Hk1. destruct (IH c1) as (b & Eb & Hb); try done.
      exists b. split; [done|]. destruct b; [done|]. destruct Hb as (c' & ? & Hm & Hall).
      exists c'. split_and!; [done|auto|]. intros j [->|Hj]%elem_of_cons; auto. }
    destruct (color_of c k) eqn:E; cbn.
    + destruct (visit_correct f k c) as ([b c1] & Ev & Hv); try done.
      { intros g Hgr. by destruct (Hg g). }
      { etrans; [|exact Hf]. apply subseteq_size. intros x. unfold whites. rewrite elem_of_filter. tauto. }
      rewrite Ev. destruct b; [by exists true|]. destruct Hv as (Hs1 & Hk1 & Hm & Hgr).
      apply Hfin; try done. intros x Hx. apply (Hg x). by apply Hgr.
    + by destruct (Hg k).
    + by apply Hfin.
Qed.

Lemma edge_source_key x y : edge adj x y → x ∈ dom adj.
Proof.
  unfold edge, successors. intros H. apply elem_of_dom.
  destruct (adj !! x); [by eexists|]. cbn in H. by apply elem_of_nil in H.
Qed.
End dfs.

(** The search returns, and what it returns is whether the graph is cyclic. *)
Lemma hasCycle_search adj :
  ∃ b, visit_keys (S (size (nodes adj))) adj (map fst (map_to_list adj)) (const WHITE <$> adj) = Some b ∧
       (b = true ↔ cyclic adj).
Proof.
  set (c0 := const WHITE <$> adj : colors).
  assert (Hw : ∀ x, color_of c0 x = WHITE).
  { intros x. unfold color_of, c0. rewrite lookup_fmap. by destruct (adj !! x). }
  assert (Hs : settled adj c0).
  { split; unfold black; intros x; rewrite Hw; discriminate. }
  destruct (visit_keys_correct adj (S (size (nodes adj))) (map fst (map_to_list adj)) c0)
    as (b & Eb & Hb); [|done| |lia|].
  - intros k Hk. apply elem_of_union_l. apply list_elem_of_In, in_map_iff in Hk as ([k' l] & <- & Hkl).
    apply list_elem_of_In, elem_of_map_to_list in Hkl. by apply elem_of_dom_2 in Hkl.
  - intros x. unfold gray. by rewrite Hw.
  - exists b. split; [done|]. destruct b; [tauto|]. split; [discriminate|].
    intros [k Hk]. destruct Hb as (c' & Hs' & _ & Hall). exfalso.
    apply (settled_acyclic _ _ Hs' k); [|done]. apply Hall, list_elem_of_In, in_map_iff.
    assert (Hd : k ∈ dom adj) by (inversion Hk; subst; by eapply edge_source_key).
    apply elem_of_dom in Hd as [l Hl]. exists (k, l). split; [done|].
    by apply list_elem_of_In, elem_of_map_to_list.
Qed.

Lemma hasCycle_cyclic adj : hasCycle adj = true ↔ cyclic adj.
Proof. destruct (hasCycle_search adj) as (b & Eb & Hb). unfold hasCycle. by rewrite Eb. Qed.

(** The depth-first search runs to its end within the number of nodes of
    the adjacency map, and it answers [true] exactly when the map has a
    directed cycle, whatever order the keys are visited in. *)
Theorem hasCycle_spec adj :
  is_Some (visit_keys (S (size (nodes adj))) adj (map fst (map_to_list adj)) (const WHITE <$> adj)) ∧
  (hasCycle adj = true ↔ cyclic adj).
Proof.
  split; [|apply hasCycle_cyclic]. destruct (hasCycle_search adj) as (b & -> & _). by eexists.
Qed.

(** ** Building adjacency maps *)

Lemma successors_push k v adj s :
  successors (push k v adj) s =
    if bool_decide (k = s ∧ is_Some (adj !! s)) then successors adj s ++ [v] else successors adj s.
Proof.
  unfold successors, push. rewrite lookup_alter. case_decide as E; case_bool_decide as E'.
  - subst. destruct E' as [_ [l ->]]. reflexivity.
  - subst. destruct (adj !! s); [|done]. exfalso; eauto.
  - tauto.
  - done.
Qed.

Lemma push_dom k v adj s : is_Some (push k v adj !! s) ↔ is_Some (adj !! s).
Proof. unfold push. apply lookup_alter_is_Some. Qed.

(** The map that lists every key with no successor yet. *)
Lemma empty_adj_spec {A} (f : A → string) (l : list A) s :
  let m : adjacency := foldl (λ m t, <[f t := []]> m) ∅ l in
  (is_Some (m !! s) ↔ s ∈ map f l) ∧ successors m s = [].
Proof.
  cbv zeta. unfold successors. induction l as [|t l IH] using rev_ind; cbn.
  - rewrite lookup_empty. split; [split; [by intros [? ?]|by intros ?%elem_of_nil]|done].
  - rewrite foldl_snoc, map_app, elem_of_app. cbn [map]. rewrite list_elem_of_singleton.
    destruct (decide (f t = s)) as [->|Hk].
    + rewrite lookup_insert_eq. split; [split; [by right|by eexists]|done].
    + rewrite lookup_insert_ne by done. destruct IH as [IH IH']. split; [|done].
      rewrite IH. naive_solver.
Qed.

(** ** Finite graphs in which every node has a successor *)

Section finite_walk.
Context {A : Type} `{EqDecision A} (R : A → A → Prop) `{!RelDecision R}.

(** The first element of [S] related to [x], or [x] itself. *)
Definition step_in (S : list A) (x : A) : A :=
  match list_find (λ y, R x y) S with Some (_, y) => y | None => x end.

Fixpoint walk (S : list A) (n : nat) (x : A) : A :=
  match n with O => x | Datatypes.S m => step_in S (walk S m x) end.

Lemma step_in_spec (S : list A) (x : A) : (∃ y, y ∈ S ∧ R x y) → step_in S x ∈ S ∧ R x (step_in S x).
Proof.
  intros (y & Hy & HR). unfold step_in. destruct (list_find _ S) as [[i z]|] eqn:E.
  - apply list_find_Some in E as (Hi & Hz & _). split; [by eapply list_elem_of_lookup_2|done].
  - exfalso. apply list_find_None in E. rewrite Forall_forall in E. by apply (E y Hy).
Qed.

Lemma finite_walk_cycle (S : list A) (x0 : A) :
  x0 ∈ S → (∀ x : A, x ∈ S → ∃ y, y ∈ S ∧ R x y) → ∃ x, x ∈ S ∧ tc R x x.
Proof.
  intros Hx0 Hnext.
  assert (Hin : ∀ n, walk S n x0 ∈ S).
  { induction n as [|n IH]; [done|]. cbn. by apply step_in_spec, Hnext. }
  assert (Hpath : ∀ d n, tc R (walk S n x0) (walk S (Datatypes.S d + n) x0)).
  { induction d as [|d IH]; intros n.
    - apply tc_once. change (R (walk S n x0) (step_in S (walk S n x0))).
      by apply step_in_spec, Hnext, Hin.
    - eapply tc_r; [apply IH|].
      change (R (walk S (Datatypes.S d + n) x0) (step_in S (walk S (Datatypes.S d + n) x0))).
      by apply step_in_spec, Hnext, Hin. }
  set (l := map (λ n, walk S n x0) (seq 0 (Datatypes.S (length S)))).
  destruct (decide (NoDup l)) as [Hnd|Hd].
  - exfalso. apply NoDup_ListNoDup in Hnd. apply NoDup_incl_length with (l' := S) in Hnd.
    + unfold l in Hnd. rewrite length_map, length_seq in Hnd. lia.
    + intros y Hy. apply in_map_iff in Hy as (n & <- & _). by apply list_elem_of_In.
  - rewrite NoDup_ListNoDup in Hd. apply not_NoDup in Hd as (a & l1 & l2 & l3 & El).
    { assert (E1 : l !! length l1 = Some a) by (rewrite El; by apply list_lookup_middle).
      assert (E2 : l !! (length l1 + Datatypes.S (length l2))%nat = Some a).
      { rewrite El, (app_comm_cons l2 _ a). rewrite app_assoc.
        apply list_lookup_middle. rewrite length_app. cbn. lia. }
      unfold l in E1, E2. rewrite list_lookup_fmap in E1, E2.
      apply fmap_Some in E1 as (i & Hi & ->). apply fmap_Some in E2 as (j & Hj & Ej).
      apply lookup_seq in Hi as [-> _]. apply lookup_seq in Hj as [-> _].
      exists (walk S (0 + length l1) x0). split; [apply Hin|].
      rewrite Ej at 2. replace (0 + (length l1 + Datatypes.S (length l2)))%nat
        with (Datatypes.S (length l2) + (0 + length l1))%nat by lia. apply Hpath. }
    intros x y. destruct (decide (x = y)); [by left|by right].
Qed.
End finite_walk.

(** On finitely many nodes, steps that never return are well-founded. *)
Lemma acyclic_Acc {A} `{EqDecision A} (R : A → A → Prop) (keys : list A) x :
  (∀ a b, R a b → b ∈ keys) → (¬ ∃ k, tc R k k) → Acc (λ b a, R a b) x.
Proof.
  intros Hk Hac.
  assert (H : ∀ n path x, (∀ y, y ∈ path → tc R y x) → NoDup path → path ⊆ keys →
            (length keys <= length path + n)%nat → x ∈ keys → Acc (λ b a, R a b) x).
  { induction n as [|n IH]; intros path z Hp Hn Hs Hl Hz.
    - exfalso. assert (Hzp : z ∉ path) by (intros Hzp; apply Hac; exists z; by apply Hp).
      assert (length (z :: path) <= length keys)%nat; [|cbn in *; lia].
      apply NoDup_subset_length; [by constructor|]. intros y [->|Hy]%elem_of_cons; [done|by apply Hs].
    - constructor. intros y Hzy. apply (IH (z :: path)); [| | | |by eapply Hk].
      + intros w [->|Hw]%elem_of_cons; [by constructor|]. eapply tc_r; [by apply Hp|done].
      + constructor; [|done]. intros Hzp. apply Hac. exists z. by apply Hp.
      + intros w [->|Hw]%elem_of_cons; [done|by apply Hs].
      + cbn. lia. }
  constructor. intros y Hxy. apply (H (length keys) [] y);
    [by intros ? ?%elem_of_nil|constructor|by intros ? ?%elem_of_nil|cbn; lia|by eapply Hk].
Qed.
