(* ===== verification/CriticalPath.v ===== *)
(** * Critical path of the Gantt rows ([schedule/critical-path.ts])

    A topological sort, a forward and a backward pass over the leaf tasks.  The
    definitions follow the source's maps and loops; the reference they are
    proved against is [chain]: a list of leaves each depending on the previous
    one.  A task is critical exactly when it lies on a chain whose total
    duration no chain exceeds by more than the slack tolerance. *)

From S2P Require Import Prelude Graph.
Open Scope Z_scope.

Record CpmTaskRow := {
  cr_key : string; cr_parentKey : option string; cr_startMs : Z; cr_endMs : Z
}.

Record CpmEdge := { ce_taskKey : string; ce_dependsOnKey : string }.

Record CriticalPathEntry := { isCriticalPath : bool; criticalPathRank : Z }.

Abbreviation CriticalPathResult := (gmap string CriticalPathEntry).

Definition SLACK_EPSILON_MS : Z := 1.

(** [isParent]: every key some row names as its parent (a truthy string). *)
Definition parent_keys (tasks : list CpmTaskRow) : gset string :=
  foldl (λ s t, match cr_parentKey t with
                | Some p => if p ≟ "" then s else {[p]} ∪ s
                | None => s
                end) ∅ tasks.

Definition leaves_of (tasks : list CpmTaskRow) : list CpmTaskRow :=
  List.filter (λ t, negb (bool_decide (cr_key t ∈ parent_keys tasks))) tasks.

(** [new Map(leaves.map(...))]: a later row with the same key wins. *)
Definition leaf_map (leaves : list CpmTaskRow) : gmap string CpmTaskRow :=
  foldl (λ m t, <[cr_key t := t]> m) ∅ leaves.

(** [predsByKey] and [succsByKey] while the edges are added. *)
Definition add_edge (leafByKey : gmap string CpmTaskRow) (ps : adjacency * adjacency) (e : CpmEdge)
    : adjacency * adjacency :=
  if negb (bool_decide (is_Some (leafByKey !! ce_taskKey e)))
     || negb (bool_decide (is_Some (leafByKey !! ce_dependsOnKey e))) then ps
  else if ce_taskKey e ≟ ce_dependsOnKey e then ps
  else (push (ce_taskKey e) (ce_dependsOnKey e) ps.1, push (ce_dependsOnKey e) (ce_taskKey e) ps.2).

Definition leaf_adjacency (leaves : list CpmTaskRow) (dependencies : list CpmEdge)
    : adjacency * adjacency :=
  let empty : adjacency := foldl (λ m t, <[cr_key t := []]> m) ∅ leaves in
  foldl (add_edge (leaf_map leaves)) (empty, empty) dependencies.

(** One successor of the task just removed: [indegree - 1], ready at zero. *)
Definition relax (st : gmap string Z * list string) (s : string) : gmap string Z * list string :=
  let n := st.1 !! s ?? 0 - 1 in
  (<[s := n]> st.1, if n =? 0 then st.2 ++ [s] else st.2).

(** The Kahn loop: the tasks still ready when the fuel ends, and the order. *)
Fixpoint topo_loop (fuel : nat) (succs : adjacency) (ready : list string) (indegree : gmap string Z)
    (topo : list string) : list string * list string :=
  match ready, fuel with
  | [], _ | _, O => (ready, topo)
  | k :: ready', S f =>
      let '(indegree', ready'') := foldl relax (indegree, ready') (js_sort (successors succs k)) in
      topo_loop f succs (js_sort ready'') indegree' (topo ++ [k])
  end.

Definition initial_indegree (preds : adjacency) : gmap string Z := (λ ps, Z.of_nat (length ps)) <$> preds.

Definition initial_ready (indegree : gmap string Z) : list string :=
  js_sort (map fst (List.filter (λ kn, kn.2 =? 0) (map_to_list indegree))).

Definition topo_sort (leaves : list CpmTaskRow) (preds succs : adjacency) : list string :=
  (topo_loop (length leaves) succs (initial_ready (initial_indegree preds))
     (initial_indegree preds) []).2.

Definition dur (leafByKey : gmap string CpmTaskRow) (k : string) : Z :=
  match leafByKey !! k with Some t => Z.max 0 (cr_endMs t - cr_startMs t) | None => 0 end.

(** Forward pass: earliest finish of each task, in topological order. *)
Definition forward_step (leafByKey : gmap string CpmTaskRow) (preds : adjacency) (ef : gmap string Z)
    (k : string) : gmap string Z :=
  let maxPredEf := foldl (λ m p, let v := ef !! p ?? 0 in if m <? v then v else m) 0 (successors preds k) in
  <[k := maxPredEf + dur leafByKey k]> ef.

Definition forward_pass leafByKey preds (topo : list string) : gmap string Z :=
  foldl (forward_step leafByKey preds) ∅ topo.

Definition makespan_of (ef : gmap string Z) : Z :=
  foldl (λ m v, if m <? v then v else m) 0 (map snd (map_to_list ef)).

(** The smallest latest start of the successors; [None] is [Infinity]. *)
Definition min_succ_step (makespan : Z) (ls : gmap string Z) (m : option Z) (s : string) : option Z :=
  let v := ls !! s ?? makespan in
  match m with
  | Some x => if v <? x then Some v else m
  | None => Some v
  end.

Definition min_succ_ls (makespan : Z) (ls : gmap string Z) (succs : list string) : option Z :=
  foldl (min_succ_step makespan ls) None succs.

(** Backward pass: latest finish and latest start, in reverse order. *)
Definition backward_step leafByKey (succs : adjacency) (makespan : Z)
    (st : gmap string Z * gmap string Z) (k : string) : gmap string Z * gmap string Z :=
  let '(lf, ls) := st in
  let minSuccLs := min_succ_ls makespan ls (successors succs k) ?? makespan in
  (<[k := minSuccLs]> lf, <[k := minSuccLs - dur leafByKey k]> ls).

Definition backward_pass leafByKey succs makespan (topo : list string)
    : gmap string Z * gmap string Z :=
  foldl (backward_step leafByKey succs makespan) (∅, ∅) (rev topo).

Definition critical_step (lf ef : gmap string Z) (out : CriticalPathResult) (k : string)
    : CriticalPathResult :=
  let slack := lf !! k ?? 0 - ef !! k ?? 0 in
  if Z.abs slack <=? SLACK_EPSILON_MS
  then <[k := {| isCriticalPath := true; criticalPathRank := ef !! k ?? 0 |}]> out
  else out.

Definition computeCriticalPath (tasks : list CpmTaskRow) (dependencies : list CpmEdge)
    : CriticalPathResult :=
  if (length tasks =? 0)%nat then ∅
  else
    let leaves := leaves_of tasks in
    if (length leaves =? 0)%nat then ∅
    else
      let leafByKey := leaf_map leaves in
      let '(predsByKey, succsByKey) := leaf_adjacency leaves dependencies in
      let topo := topo_sort leaves predsByKey succsByKey in
      if negb (length topo =? length leaves)%nat then ∅
      else
        let ef := forward_pass leafByKey predsByKey topo in
        let makespan := makespan_of ef in
        let '(lf, _) := backward_pass leafByKey succsByKey makespan topo in
        foldl (critical_step lf ef) ∅ topo.

(** A diamond a -> {b, c} -> d with c longer, and a summary parent p. *)
Example critical_path_diamond :
  let row k p s e := {| cr_key := k; cr_parentKey := p; cr_startMs := s; cr_endMs := e |} in
  let dep t d := {| ce_taskKey := t; ce_dependsOnKey := d |} in
  map_to_list (computeCriticalPath
    [row "a" None 0 10; row "b" None 10 15; row "c" None 10 30; row "d" None 30 30; row "p" None 0 99;
     row "x" (Some "p") 0 7]
    [dep "b" "a"; dep "c" "a"; dep "d" "b"; dep "d" "c"; dep "x" "p"])
  = map (λ kr, (kr.1, {| isCriticalPath := true; criticalPathRank := kr.2 |}))
      [("c", 30); ("a", 10); ("d", 30)].
Proof. vm_compute. reflexivity. Qed.

(** ** The leaf graph *)

Section leaf_graph.
Context (leaves : list CpmTaskRow) (dependencies : list CpmEdge).

Definition leaf_keys : list string := map cr_key leaves.

(** A dependency that counts: between two distinct leaves. *)
Definition valid_edge (e : CpmEdge) : bool :=
  bool_decide (ce_taskKey e ∈ leaf_keys) && bool_decide (ce_dependsOnKey e ∈ leaf_keys)
  && negb (ce_taskKey e ≟ ce_dependsOnKey e).

(** [leaf_edge p s]: the leaf [s] depends on the leaf [p]. *)
Definition leaf_edge (p s : string) : Prop :=
  ∃ e, e ∈ dependencies ∧ valid_edge e = true ∧ ce_dependsOnKey e = p ∧ ce_taskKey e = s.

Lemma leaf_map_dom k : is_Some (leaf_map leaves !! k) ↔ k ∈ leaf_keys.
Proof.
  unfold leaf_map, leaf_keys. induction leaves as [|t l IH] using rev_ind; cbn.
  - rewrite lookup_empty. split; [by intros [? ?]|by intros ?%elem_of_nil].
  - rewrite foldl_snoc, map_app, elem_of_app. cbn [map]. rewrite list_elem_of_singleton.
    destruct (decide (cr_key t = k)) as [->|Hk].
    + rewrite lookup_insert_eq. split; [by right|by eexists].
    + rewrite lookup_insert_ne by done. rewrite IH. naive_solver.
Qed.

Lemma empty_leaf_adj s :
  let m : adjacency := foldl (λ m t, <[cr_key t := []]> m) ∅ leaves in
  (is_Some (m !! s) ↔ s ∈ leaf_keys) ∧ successors m s = [].
Proof. apply empty_adj_spec. Qed.

Lemma valid_edge_spec e :
  valid_edge e = true ↔
    (is_Some (leaf_map leaves !! ce_taskKey e) ∧ is_Some (leaf_map leaves !! ce_dependsOnKey e)) ∧
    ce_taskKey e ≠ ce_dependsOnKey e.
Proof.
  unfold valid_edge. rewrite !leaf_map_dom, !andb_true_iff, negb_true_iff, !bool_decide_eq_true,
    bool_decide_eq_false. tauto.
Qed.

(** The two adjacency maps, read off the dependency list. *)
Lemma leaf_adjacency_spec s :
  let '(preds, succs) := leaf_adjacency leaves dependencies in
  (is_Some (preds !! s) ↔ s ∈ leaf_keys) ∧ (is_Some (succs !! s) ↔ s ∈ leaf_keys) ∧
  successors preds s =
    map ce_dependsOnKey (List.filter (λ e, valid_edge e && (ce_taskKey e ≟ s)) dependencies) ∧
  successors succs s =
    map ce_taskKey (List.filter (λ e, valid_edge e && (ce_dependsOnKey e ≟ s)) dependencies).
Proof.
  unfold leaf_adjacency. pose proof (empty_leaf_adj s) as [H0 H0']. revert H0 H0'.
  set (m0 := foldl _ ∅ leaves). intros H0 H0'.
  induction dependencies as [|e ds IH] using rev_ind; [cbn; by split_and!|].
  rewrite foldl_snoc. destruct (foldl _ _ ds) as [ps ss]. destruct IH as (Hp & Hs & Ep & Es).
  rewrite !List.filter_app. cbn [List.filter].
  assert (Hadd : add_edge (leaf_map leaves) (ps, ss) e =
    if valid_edge e then (push (ce_taskKey e) (ce_dependsOnKey e) ps,
                          push (ce_dependsOnKey e) (ce_taskKey e) ss) else (ps, ss)).
  { unfold add_edge. destruct (valid_edge e) eqn:Ev.
    - apply valid_edge_spec in Ev as [[? ?] ?]. by repeat (case_bool_decide; cbn; try done).
    - repeat case_bool_decide; cbn; try done.
      assert (valid_edge e = true) by (apply valid_edge_spec; auto). congruence. }
  rewrite Hadd. destruct (valid_edge e) eqn:Ev; cbn [andb]; [|by rewrite !app_nil_r].
  apply valid_edge_spec in Ev as [[Ht Hd] _]. rewrite leaf_map_dom in Ht, Hd.
  rewrite !push_dom, !successors_push, Ep, Es. split_and!; try done.
  - destruct (decide (ce_taskKey e = s)) as [<-|Hn].
    + rewrite (bool_decide_eq_true_2 (_ ∧ _)) by (split; [done|by apply Hp]).
      rewrite (bool_decide_eq_true_2 (_ = _)) by done. by rewrite map_app.
    + rewrite (bool_decide_eq_false_2 (_ ∧ _)), (bool_decide_eq_false_2 (_ = _)) by tauto.
      by rewrite app_nil_r.
  - destruct (decide (ce_dependsOnKey e = s)) as [<-|Hn].
    + rewrite (bool_decide_eq_true_2 (_ ∧ _)) by (split; [done|by apply Hs]).
      rewrite (bool_decide_eq_true_2 (_ = _)) by done. by rewrite map_app.
    + rewrite (bool_decide_eq_false_2 (_ ∧ _)), (bool_decide_eq_false_2 (_ = _)) by tauto.
      by rewrite app_nil_r.
Qed.
End leaf_graph.

(** ** The topological sort *)

Section kahn.
Context (preds succs : adjacency) (keys : list string).
Hypothesis Hdom : ∀ s, is_Some (preds !! s) ↔ s ∈ keys.
Hypothesis Hcnt : ∀ p s, cnt (successors preds s) p = cnt (successors succs p) s.
Hypothesis Hpred : ∀ p s, p ∈ successors preds s → p ∈ keys.

(** The predecessors of [s] that are not in the order yet. *)
Definition pending_preds (topo : list string) (s : string) : list string :=
  filter (λ p, p ∉ topo) (successors preds s).

Record kahn_inv (ready : list string) (indeg : gmap string Z) (topo : list string) : Prop := {
  ki_indeg s : s ∈ keys → indeg !! s = Some (Z.of_nat (length (pending_preds topo s)));
  ki_nodup : NoDup (topo ++ ready);
  ki_done s : s ∈ topo ++ ready ↔ s ∈ keys ∧ pending_preds topo s = [];
  ki_order i s p : topo !! i = Some s → p ∈ successors preds s → p ∈ take i topo;
}.

Lemma succ_key p s : s ∈ successors succs p → s ∈ keys.
Proof.
  intros H. apply Hdom.
  assert (Hc : cnt (successors preds s) p ≠ 0%nat) by (rewrite Hcnt, cnt_0; naive_solver).
  unfold successors in Hc. destruct (preds !! s); [by eexists|]. by destruct Hc.
Qed.

Lemma relax_spec L indeg ready (d : string → nat) :
  (∀ s, s ∈ L → indeg !! s = Some (Z.of_nat (d s)) ∧ (cnt L s <= d s)%nat) →
  ∃ indeg' new, foldl relax (indeg, ready) L = (indeg', ready ++ new) ∧
    (∀ s, indeg' !! s = if decide (s ∈ L) then Some (Z.of_nat (d s - cnt L s)) else indeg !! s) ∧
    NoDup new ∧ (∀ s, s ∈ new ↔ s ∈ L ∧ d s = cnt L s).
Proof.
  revert indeg ready d. induction L as [|x L IH]; intros indeg ready d Hd.
  { exists indeg, []. cbn. rewrite app_nil_r. split_and!; [done| |constructor|set_solver].
    intros s. by rewrite decide_False by apply not_elem_of_nil. }
  destruct (Hd x) as [Hx Hcx]; [left|]. cbn [cnt] in Hcx. rewrite decide_True in Hcx by done.
  set (d' := λ s, if decide (s = x) then (d x - 1)%nat else d s).
  set (ready1 := if Z.of_nat (d x) - 1 =? 0 then ready ++ [x] else ready).
  assert (Hr : relax (indeg, ready) x = (<[x := Z.of_nat (d x) - 1]> indeg, ready1)).
  { unfold relax. cbn [fst snd]. by rewrite Hx. }
  cbn [foldl]. rewrite Hr.
  destruct (IH (<[x := Z.of_nat (d x) - 1]> indeg) ready1 d') as (indeg' & new & E & Hi & Hn & Hnew).
  { intros s Hs. destruct (Hd s) as [Hs1 Hs2]; [by right|]. cbn [cnt] in Hs2. unfold d'.
    destruct (decide (s = x)) as [->|Es]; [rewrite lookup_insert_eq; split; [f_equal; lia|lia]|].
    rewrite lookup_insert_ne by done. rewrite decide_False in Hs2 by done. done. }
  assert (Hcnt' : ∀ s, cnt (x :: L) s = ((if decide (s = x) then 1 else 0) + cnt L s)%nat).
  { intros s. cbn. repeat case_decide; naive_solver. }
  assert (Hval : ∀ s, indeg' !! s = if decide (s ∈ x :: L)
            then Some (Z.of_nat (d s - cnt (x :: L) s)) else indeg !! s).
  { intros s. rewrite Hi, Hcnt'. unfold d'.
    destruct (decide (s ∈ x :: L)) as [Hin|Hin].
    - destruct (decide (s ∈ L)) as [HL|HL]; [do 2 f_equal; destruct (decide (s = x)); subst; lia|].
      apply elem_of_cons in Hin as [->|Hin]; [|done].
      rewrite lookup_insert_eq. apply cnt_0 in HL. rewrite HL, decide_True by done. f_equal. lia.
    - rewrite decide_False by set_solver. rewrite lookup_insert_ne; set_solver. }
  destruct (decide (d x = 1)%nat) as [H1|H1].
  - assert (HxL : x ∉ L) by (apply cnt_0; lia).
    exists indeg', (x :: new). split_and!; [|done| |].
    + rewrite E. unfold ready1. rewrite H1. change (Z.of_nat 1 - 1 =? 0) with true. cbv iota. by rewrite <- app_assoc.
    + constructor; [|done]. rewrite Hnew. tauto.
    + intros s. rewrite elem_of_cons, Hnew, Hcnt', elem_of_cons. unfold d'.
      destruct (decide (s = x)) as [->|Es]; [apply cnt_0 in HxL; rewrite HxL; intuition lia|].
      cbn. intuition congruence.
  - exists indeg', new. split_and!; [|done|done|].
    + rewrite E. unfold ready1. destruct (Z.eqb_spec (Z.of_nat (d x) - 1) 0); [lia|done].
    + intros s. rewrite Hnew, Hcnt', elem_of_cons. unfold d'.
      destruct (decide (s = x)) as [->|Es]; [|cbn; intuition congruence].
      destruct (decide (x ∈ L)) as [HL|HL]; [intuition lia|].
      pose proof (proj2 (cnt_0 L x) HL). intuition lia.
Qed.

(** One iteration of the loop keeps the invariant. *)
Lemma kahn_step k ready indeg topo :
  kahn_inv (k :: ready) indeg topo →
  ∃ indeg' ready', foldl relax (indeg, ready) (js_sort (successors succs k)) = (indeg', ready') ∧
    kahn_inv (js_sort ready') indeg' (topo ++ [k]).
Proof.
  intros [Hi Hn Hd Ho].
  assert (Hk : k ∉ topo) by (apply NoDup_app in Hn as (_ & H & _); intros Hk; apply (H k Hk); left).
  assert (Hperm := js_sort_perm (successors succs k)).
  assert (Hpend : ∀ s, length (pending_preds topo s) =
            (length (pending_preds (topo ++ [k]) s) + cnt (successors succs k) s)%nat).
  { intros s. rewrite <- Hcnt. by apply filter_not_in_snoc. }
  destruct (relax_spec (js_sort (successors succs k)) indeg ready
              (λ s, length (pending_preds topo s))) as (indeg' & new & E & Hi' & Hn' & Hnew).
  { intros s Hs. rewrite (cnt_perm _ _ s Hperm). rewrite Hperm in Hs.
    split; [apply Hi; by eapply succ_key|]. rewrite Hpend. lia. }
  exists indeg', (ready ++ new). split; [done|].
  assert (Hnew' : ∀ s, s ∈ new ↔ s ∈ successors succs k ∧ pending_preds (topo ++ [k]) s = []).
  { intros s. rewrite Hnew, (cnt_perm _ _ s Hperm), Hperm, Hpend, <- length_zero_iff_nil. intuition lia. }
  assert (Hsame : ∀ s, s ∉ successors succs k → (pending_preds (topo ++ [k]) s = [] ↔ pending_preds topo s = [])).
  { intros s Hs. rewrite <- !length_zero_iff_nil, Hpend. apply cnt_0 in Hs. rewrite Hs. intuition lia. }
  assert (Hready : js_sort (ready ++ new) ≡ₚ ready ++ new) by apply js_sort_perm.
  assert (Hsucc_pos : ∀ s, s ∈ successors succs k → pending_preds topo s ≠ []).
  { intros s Hs Hnil. apply (f_equal length) in Hnil. rewrite Hpend in Hnil.
    assert (cnt (successors succs k) s ≠ 0%nat) by (rewrite cnt_0; naive_solver). cbn in Hnil. lia. }
  split.
  - intros s Hs. rewrite Hi', (cnt_perm _ _ s Hperm), Hpend.
    destruct (decide (s ∈ js_sort (successors succs k))) as [H|H]; [f_equal; f_equal; lia|].
    rewrite Hi, Hpend by done. rewrite Hperm in H. apply cnt_0 in H. rewrite H. do 2 f_equal. lia.
  - rewrite Hready, <- app_assoc. cbn. rewrite app_comm_cons, app_assoc. apply NoDup_app.
    split_and!; [done| |done]. intros s Hs Hsn. apply Hd in Hs as [_ Hs]. apply Hnew' in Hsn as [Hsn _].
    by apply (Hsucc_pos s).
  - intros s. rewrite Hready, <- app_assoc. cbn. rewrite app_comm_cons, app_assoc, elem_of_app, Hd, Hnew'.
    destruct (decide (s ∈ successors succs k)) as [H|H].
    + pose proof (Hsucc_pos s H). pose proof (succ_key k s H). tauto.
    + rewrite (Hsame s H). tauto.
  - intros i s p Hs Hp. destruct (decide (i < length topo)%nat) as [Hlt|Hge].
    + rewrite lookup_app_l in Hs by done. rewrite take_app_le by lia. by eapply Ho.
    + assert (i = length topo ∧ s = k) as [-> ->].
      { rewrite lookup_app_r in Hs by lia. destruct (i - length topo)%nat as [|j] eqn:Ej; [|done].
        injection Hs as <-. split; [lia|done]. }
      rewrite take_app_length. destruct (decide (p ∈ topo)) as [|Hp']; [done|exfalso].
      assert (Hkd : k ∈ topo ++ k :: ready) by (apply elem_of_app; right; left).
      apply Hd in Hkd as [_ Hnil]. by apply (filter_nil_not_in _ _ Hnil p Hp).
Qed.

Lemma topo_loop_inv fuel ready indeg topo :
  kahn_inv ready indeg topo → (length keys <= length topo + fuel)%nat →
  ∃ indeg' t, topo_loop fuel succs ready indeg topo = ([], t) ∧ kahn_inv [] indeg' t.
Proof.
  revert ready indeg topo. induction fuel as [|fuel IH]; intros [|k ready] indeg topo Hinv Hf;
    try (by exists indeg, topo).
  - exfalso. destruct Hinv as [_ Hn Hd _].
    assert (length (topo ++ k :: ready) <= length keys)%nat.
    { apply NoDup_subset_length; [done|]. intros s Hs. by apply Hd. }
    rewrite length_app in *. cbn in *. lia.
  - destruct (kahn_step _ _ _ _ Hinv) as (indeg' & ready' & E & Hinv'). cbn [topo_loop]. rewrite E.
    apply IH; [done|]. rewrite length_app. cbn. lia.
Qed.
End kahn.

(** ** Chains: the reference the passes compute *)

Section chains.
Context (keys : list string) (E : string → string → Prop) (d : string → Z).

(** A nonempty list of tasks, each followed by one that depends on it. *)
Inductive chain_of : list string → Prop :=
  | chain_one k : k ∈ keys → chain_of [k]
  | chain_cons k s l : k ∈ keys → E k s → chain_of (s :: l) → chain_of (k :: s :: l).

Definition weight_of (l : list string) : Z := foldr (λ k w, d k + w) 0 l.

Lemma weight_app l k : weight_of (l ++ k) = weight_of l + weight_of k.
Proof. unfold weight_of. induction l as [|x l IH]; cbn in *; lia. Qed.

Lemma chain_app_inv l1 k l2 : chain_of (l1 ++ k :: l2) → chain_of (l1 ++ [k]) ∧ chain_of (k :: l2).
Proof.
  revert k l2. induction l1 as [|x l1 IH]; intros k l2 H; cbn in *.
  - split; [|done]. inversion H; subst; by constructor.
  - destruct l1 as [|y l1]; cbn in *.
    + inversion H; subst. split; [|done]. constructor; [done|done|].
      match goal with Hc : chain_of (k :: l2) |- _ => inversion Hc; subst; by constructor end.
    + inversion H; subst. destruct (IH k l2) as [H1 H2]; [done|]. split; [|done]. by constructor.
Qed.

Lemma chain_app_intro l1 k l2 : chain_of (l1 ++ [k]) → chain_of (k :: l2) → chain_of (l1 ++ k :: l2).
Proof.
  induction l1 as [|x l1 IH]; intros H1 H2; cbn in *; [done|].
  destruct l1 as [|y l1]; cbn in *; inversion H1; subst; constructor; auto.
Qed.

Lemma chain_snoc_inv l p k : chain_of ((l ++ [p]) ++ [k]) → chain_of (l ++ [p]) ∧ E p k.
Proof.
  rewrite <- app_assoc. intros H. apply chain_app_inv in H as [H1 H2]. split; [done|].
  by inversion H2.
Qed.

Lemma chain_head_key k l : chain_of (k :: l) → k ∈ keys.
Proof. by inversion 1. Qed.

Lemma chain_elem_key l k : chain_of l → k ∈ l → k ∈ keys.
Proof.
  intros H Hk. apply list_elem_of_split in Hk as (l1 & l2 & ->).
  apply chain_app_inv in H as [_ H]. by eapply chain_head_key.
Qed.
End chains.

(** The running maximum of the source's loops. *)
Lemma running_max_spec {A} (f : A → Z) (a : Z) (l : list A) :
  let r := foldl (λ m x, let v := f x in if m <? v then v else m) a l in
  a <= r ∧ (∀ x, x ∈ l → f x <= r) ∧ (r = a ∨ ∃ x, x ∈ l ∧ r = f x).
Proof.
  cbv zeta. revert a. induction l as [|y l IH]; intros a; cbn.
  - split_and!; [lia|by intros ? ?%elem_of_nil|by left].
  - destruct (IH (if a <? f y then f y else a)) as (H1 & H2 & H3).
    destruct (a <? f y) eqn:Ea; bprop; (split_and!; [lia| |]).
    1,3: intros x [->|Hx]%elem_of_cons; [lia|auto].
    + destruct H3 as [->|(x & Hx & ->)]; [right; exists y; split; [left|done]|].
      right. exists x. split; [by right|done].
    + destruct H3 as [->|(x & Hx & ->)]; [by left|]. right. exists x. split; [by right|done].
Qed.

(** The running minimum of the backward pass: none only without successors. *)
Lemma min_succ_ls_spec makespan (ls : gmap string Z) (l : list string) :
  match min_succ_ls makespan ls l with
  | None => l = []
  | Some m => (∀ x, x ∈ l → m <= ls !! x ?? makespan) ∧ ∃ x, x ∈ l ∧ m = ls !! x ?? makespan
  end.
Proof.
  unfold min_succ_ls. induction l as [|x l IH] using rev_ind; [done|]. rewrite foldl_snoc.
  set (v := ls !! x ?? makespan).
  destruct (foldl _ None l) as [m|]; cbn.
  - destruct IH as (H1 & y & Hy & Ey). fold v.
    destruct (v <? m) eqn:Ev; bprop; (split; [|first [by exists x; split; [set_solver|]|by exists y; split; [set_solver|]]]);
      intros z [Hz|Hz%list_elem_of_singleton]%elem_of_app; subst; fold v; try lia;
      specialize (H1 z Hz); lia.
  - subst. fold v. split; [|exists x; split; [left|done]].
    intros z Hz%list_elem_of_singleton. by subst.
Qed.

(** ** The two passes compute the longest chains *)

Section passes.
Context (leafByKey : gmap string CpmTaskRow) (preds succs : adjacency) (keys topo : list string).
Let pred_of (p s : string) : Prop := p ∈ successors preds s.
Let d : string → Z := dur leafByKey.
Hypothesis Hsym : ∀ p s, p ∈ successors preds s ↔ s ∈ successors succs p.
Hypothesis Hnodup : NoDup topo.
Hypothesis Hkeys : ∀ s, s ∈ topo ↔ s ∈ keys.
Hypothesis Hedge : ∀ p s, p ∈ successors preds s → s ∈ topo.
Hypothesis Horder : ∀ t1 k t2, topo = t1 ++ k :: t2 → ∀ p, p ∈ successors preds k → p ∈ t1.

(** [w] is the largest weight of a chain that ends at, or hangs after, [k]. *)
Definition longest_to (k : string) (w : Z) : Prop :=
  (∃ l, chain_of keys pred_of (l ++ [k]) ∧ weight_of d (l ++ [k]) = w) ∧
  ∀ l, chain_of keys pred_of (l ++ [k]) → weight_of d (l ++ [k]) <= w.

Definition longest_after (k : string) (w : Z) : Prop :=
  (∃ l, chain_of keys pred_of (k :: l) ∧ weight_of d l = w) ∧
  ∀ l, chain_of keys pred_of (k :: l) → weight_of d l <= w.

Definition longest (w : Z) : Prop :=
  (∃ l, chain_of keys pred_of l ∧ weight_of d l = w) ∧
  ∀ l, chain_of keys pred_of l → weight_of d l <= w.

Lemma dur_nonneg k : 0 <= d k.
Proof. subst d. unfold dur. destruct (leafByKey !! k); lia. Qed.

Lemma weight_nonneg l : 0 <= weight_of d l.
Proof. unfold weight_of. induction l as [|x l IH]; cbn; [lia|]. pose proof (dur_nonneg x). lia. Qed.

Lemma weight_snoc l k : weight_of d (l ++ [k]) = weight_of d l + d k.
Proof. rewrite weight_app. cbn. lia. Qed.

Lemma weight_cons k l : weight_of d (k :: l) = d k + weight_of d l.
Proof. reflexivity. Qed.

Lemma succ_after t1 k t2 s : topo = t1 ++ k :: t2 → s ∈ successors succs k → s ∈ keys → s ∈ t2.
Proof.
  intros Ht Hs Hk. apply Hsym in Hs. apply Hkeys in Hk.
  apply list_elem_of_split in Hk as (u1 & u2 & Hu).
  assert (Hku : k ∈ u1) by (by eapply Horder). apply list_elem_of_split in Hku as (v1 & v2 & ->).
  rewrite Hu, <- app_assoc in Ht. cbn in Ht. rewrite Hu in Hnodup.
  assert (t1 = v1 ∧ t2 = v2 ++ s :: u2) as [_ ->]; [|set_solver].
  revert Hnodup Ht. rewrite <- app_assoc. cbn. clear. revert v1.
  induction t1 as [|x t1 IH]; intros [|y v1] Hn Ht; cbn in *; apply NoDup_cons in Hn as [Hn1 Hn];
    simplify_eq; [done| | |].
  - exfalso. apply Hn1. set_solver.
  - exfalso. apply Hn1. rewrite H0. set_solver.
  - destruct (IH v1 Hn H0) as [-> ->]. done.
Qed.

Lemma longest_to_step ef k :
  k ∈ keys → (∀ p, p ∈ successors preds k → ∃ w, ef !! p = Some w ∧ longest_to p w) →
  ∃ w, forward_step leafByKey preds ef k !! k = Some w ∧ longest_to k w.
Proof.
  intros Hk Hp. unfold forward_step. rewrite lookup_insert_eq. eexists. split; [done|].
  destruct (running_max_spec (λ p, ef !! p ?? 0) 0 (successors preds k)) as (H1 & H2 & H3).
  cbv zeta in *. set (m := foldl _ 0 _) in *. fold (d k). split.
  - destruct H3 as [->|(p & Hpk & Em)].
    + exists []. split; [by constructor|]. cbn. lia.
    + destruct (Hp p Hpk) as (w & Ew & (l & Hl & El) & _). exists (l ++ [p]).
      rewrite Em, Ew, weight_snoc, El. split; [|done].
      rewrite <- app_assoc. apply chain_app_intro; [done|]. repeat constructor; try done.
      eapply chain_elem_key; [done|set_solver].
  - intros l Hl. destruct l as [|p l _] using rev_ind; [cbn; lia|].
    rewrite weight_snoc. apply chain_snoc_inv in Hl as [Hl Hpk].
    destruct (Hp p Hpk) as (w & Ew & _ & Hmax). specialize (Hmax l Hl).
    specialize (H2 p Hpk). rewrite Ew in H2. cbn in H2. lia.
Qed.

Lemma forward_pass_spec t1 t2 :
  topo = t1 ++ t2 → ∀ k, k ∈ t1 → ∃ w, forward_pass leafByKey preds t1 !! k = Some w ∧ longest_to k w.
Proof.
  revert t2. induction t1 as [|x t1 IH] using rev_ind; intros t2 Ht k Hk; [by apply elem_of_nil in Hk|].
  rewrite <- app_assoc in Ht. cbn in Ht. unfold forward_pass. rewrite foldl_snoc.
  fold (forward_pass leafByKey preds t1). destruct (decide (k = x)) as [->|Hne].
  - apply longest_to_step; [apply Hkeys; set_solver|]. intros p Hp. eapply IH; [done|]. by eapply Horder.
  - unfold forward_step. rewrite lookup_insert_ne by done. eapply IH; [done|]. set_solver.
Qed.

Lemma makespan_spec :
  topo ≠ [] → longest (makespan_of (forward_pass leafByKey preds topo)).
Proof.
  intros Hne. pose proof (forward_pass_spec topo [] (eq_sym (app_nil_r topo))) as Hf.
  set (ef := forward_pass _ _ _) in *. unfold makespan_of.
  destruct (running_max_spec (λ v : Z, v) 0 (map snd (map_to_list ef))) as (H1 & H2 & H3).
  cbv zeta in *. set (m := foldl _ 0 _) in *.
  assert (Hdom : ∀ k w, ef !! k = Some w → k ∈ topo).
  { subst ef. unfold forward_pass. clear. induction topo as [|x t IH] using rev_ind; intros k w.
    - cbn. by rewrite lookup_empty.
    - rewrite foldl_snoc. unfold forward_step at 1. destruct (decide (k = x)) as [->|Hn]; [set_solver|].
      rewrite lookup_insert_ne by done. intros H. apply IH in H. set_solver. }
  assert (Hup : ∀ l, chain_of keys pred_of l → weight_of d l <= m).
  { intros l Hl. destruct l as [|k l _] using rev_ind; [cbn; lia|].
    destruct (Hf k) as (w & Ew & _ & Hmax).
    { apply Hkeys. eapply chain_elem_key; [done|set_solver]. }
    etrans; [by apply Hmax|]. apply (H2 w). apply list_elem_of_In, in_map_iff.
    exists (k, w). split; [done|]. by apply list_elem_of_In, elem_of_map_to_list. }
  split; [|done]. destruct H3 as [H3|(w & Hw & ->)].
  - destruct topo as [|k t] eqn:Et; [done|]. exists [k].
    assert (Hk : chain_of keys pred_of [k]) by (constructor; apply Hkeys; left).
    split; [done|]. specialize (Hup _ Hk). pose proof (weight_nonneg [k]). lia.
  - apply list_elem_of_In, in_map_iff in Hw as ((k & w') & Ew & Hkw). cbn in Ew. subst w'.
    apply list_elem_of_In, elem_of_map_to_list in Hkw.
    destruct (Hf k) as (w' & Ew & (l & Hl & El) & _); [by eapply Hdom|].
    exists (l ++ [k]). split; [done|]. congruence.
Qed.

Lemma longest_after_step M ls k :
  k ∈ keys →
  (∀ s, s ∈ successors succs k → ∃ w, ls !! s = Some (M - (w + d s)) ∧ longest_after s w) →
  ∃ w, min_succ_ls M ls (successors succs k) ?? M = M - w ∧ longest_after k w.
Proof.
  intros Hk Hs.
  assert (Hsk : ∀ s, s ∈ successors succs k → s ∈ keys).
  { intros s Hin. destruct (Hs s Hin) as (w & _ & (l & Hl & _) & _). by eapply chain_head_key. }
  pose proof (min_succ_ls_spec M ls (successors succs k)) as Hm.
  destruct (min_succ_ls _ _ _) as [m|]; cbn.
  - destruct Hm as (Hle & x & Hx & Em). destruct (Hs x Hx) as (w & Ew & (l & Hl & El) & _).
    exists (w + d x). rewrite Ew in Em. cbn in Em. split; [done|]. split.
    + exists (x :: l). split; [constructor; [done| |done]; by apply Hsym|]. rewrite weight_cons. lia.
    + intros [|s l'] Hl'; [rewrite <- El; cbn; pose proof (dur_nonneg x); pose proof (weight_nonneg l); lia|].
      inversion Hl'; subst. destruct (Hs s) as (w' & Ew' & _ & Hmax'); [by apply Hsym|].
      specialize (Hle s). rewrite Ew' in Hle. cbn in Hle. rewrite weight_cons.
      specialize (Hmax' l'). specialize (Hle ltac:(by apply Hsym)).
      assert (weight_of d l' <= w') by auto. lia.
  - exists 0. split; [lia|]. split; [exists []; split; [by constructor|done]|].
    intros [|s l'] Hl'; [cbn; lia|]. inversion Hl'; subst. exfalso.
    assert (s ∈ successors succs k) by (by apply Hsym). rewrite Hm in *. by apply (not_elem_of_nil s).
Qed.

Lemma backward_pass_spec M t1 t2 :
  topo = t1 ++ t2 → ∀ k, k ∈ t2 → ∃ w,
    (backward_pass leafByKey succs M t2).1 !! k = Some (M - w) ∧
    (backward_pass leafByKey succs M t2).2 !! k = Some (M - (w + d k)) ∧ longest_after k w.
Proof.
  revert t1. induction t2 as [|x t2 IH]; intros t1 Ht k Hk; [by apply elem_of_nil in Hk|].
  unfold backward_pass. cbn [rev]. rewrite foldl_snoc. fold (backward_pass leafByKey succs M t2).
  assert (IH' := IH (t1 ++ [x]) ltac:(by rewrite <- app_assoc)).
  destruct (backward_pass leafByKey succs M t2) as [lf ls] eqn:Eb. cbn [fst snd] in IH'.
  unfold backward_step. cbn [fst snd]. destruct (decide (k = x)) as [->|Hne].
  - rewrite !lookup_insert_eq.
    destruct (longest_after_step M ls x) as (w & Ew & Hw).
    + apply Hkeys. rewrite Ht. set_solver.
    + intros s Hs. destruct (IH' s) as (w & _ & E2 & Hw); [|by exists w].
      eapply succ_after; [done|done|]. destruct (decide (s ∈ keys)) as [|Hn]; [done|exfalso].
      apply Hsym in Hs. apply Hn, Hkeys. by eapply Hedge.
    + exists w. fold (d x). rewrite Ew. split_and!; [done|f_equal; lia|done].
  - rewrite !lookup_insert_ne by done. apply IH'. set_solver.
Qed.

(** A task passes the slack test exactly when some chain through it is within
    the tolerance of every chain. *)
Lemma critical_iff k :
  k ∈ keys →
  let ef := forward_pass leafByKey preds topo in
  let lf := (backward_pass leafByKey succs (makespan_of ef) topo).1 in
  longest_to k (ef !! k ?? 0) ∧
  (Z.abs (lf !! k ?? 0 - ef !! k ?? 0) <= SLACK_EPSILON_MS ↔
   ∃ c, chain_of keys pred_of c ∧ k ∈ c ∧
     ∀ c', chain_of keys pred_of c' → weight_of d c' <= weight_of d c + SLACK_EPSILON_MS).
Proof.
  cbv zeta. intros Hk. assert (Ht : k ∈ topo) by (by apply Hkeys).
  assert (Hne : topo ≠ []) by (intros ->; by apply elem_of_nil in Ht).
  destruct (makespan_spec Hne) as [(cm & Hcm & Em) HM].
  destruct (forward_pass_spec topo [] (eq_sym (app_nil_r topo)) k Ht) as (w & Ew & Hw).
  set (ef := forward_pass _ _ _) in *. set (M := makespan_of ef) in *.
  destruct (backward_pass_spec M [] topo eq_refl k Ht) as (v & Ev & _ & Hv).
  rewrite Ew, Ev. cbn [default id]. split; [done|].
  destruct Hw as [(l1 & Hl1 & El1) Hmax1], Hv as [(l2 & Hl2 & El2) Hmax2].
  pose proof (chain_app_intro _ _ l1 k l2 Hl1 Hl2) as Hc.
  assert (Ec : weight_of d (l1 ++ k :: l2) = w + v).
  { rewrite weight_app. rewrite weight_snoc in El1. rewrite weight_cons. lia. }
  specialize (HM _ Hc) as HMc. unfold SLACK_EPSILON_MS. split.
  - intros Habs. exists (l1 ++ k :: l2). split_and!; [done|set_solver|].
    intros c' Hc'. specialize (HM c' Hc'). lia.
  - intros (c & Hcc & Hkc & Hall). apply list_elem_of_split in Hkc as (c1 & c2 & ->).
    apply chain_app_inv in Hcc as [Hcc1 Hcc2]. specialize (Hmax1 c1 Hcc1). specialize (Hmax2 c2 Hcc2).
    specialize (Hall cm Hcm). rewrite weight_app, weight_cons in Hall. rewrite weight_snoc in Hmax1. lia.
Qed.
End passes.

(** ** The sort of the leaf graph *)

Section leaf_sort.
Context (leaves : list CpmTaskRow) (dependencies : list CpmEdge).
Let preds := (leaf_adjacency leaves dependencies).1.
Let succs := (leaf_adjacency leaves dependencies).2.
Let keys := leaf_keys leaves.

Lemma leaf_preds_dom s : is_Some (preds !! s) ↔ s ∈ keys.
Proof.
  pose proof (leaf_adjacency_spec leaves dependencies s) as H. subst preds keys.
  destruct (leaf_adjacency _ _) as [p q]. cbn. tauto.
Qed.

Lemma leaf_succs_dom s : is_Some (succs !! s) ↔ s ∈ keys.
Proof.
  pose proof (leaf_adjacency_spec leaves dependencies s) as H. subst succs keys.
  destruct (leaf_adjacency _ _) as [p q]. cbn. tauto.
Qed.

Lemma leaf_cnt p s : cnt (successors preds s) p = cnt (successors succs p) s.
Proof.
  pose proof (leaf_adjacency_spec leaves dependencies s) as Hs.
  pose proof (leaf_adjacency_spec leaves dependencies p) as Hp. subst preds succs.
  destruct (leaf_adjacency _ _) as [P Q]. cbn.
  destruct Hs as (_ & _ & -> & _), Hp as (_ & _ & _ & ->).
  induction dependencies as [|e ds IH]; [done|]. cbn [List.filter].
  destruct (valid_edge leaves e); cbn [andb]; [|done].
  destruct (decide (ce_taskKey e = s)), (decide (ce_dependsOnKey e = p));
    rewrite ?(bool_decide_eq_true_2 _ e0), ?(bool_decide_eq_true_2 _ e1),
      ?(bool_decide_eq_false_2 _ n), ?(bool_decide_eq_false_2 _ n0); cbn [map cnt];
    rewrite ?decide_True, ?decide_False by done; congruence.
Qed.

Lemma leaf_edge_preds p s : p ∈ successors preds s ↔ leaf_edge leaves dependencies p s.
Proof.
  pose proof (leaf_adjacency_spec leaves dependencies s) as Hs. subst preds.
  destruct (leaf_adjacency _ _) as [P Q]. cbn. destruct Hs as (_ & _ & -> & _).
  unfold leaf_edge. rewrite list_elem_of_In, in_map_iff. setoid_rewrite filter_In.
  split.
  - intros (e & Ee & Hin & Hv). bprop. exists e. by rewrite list_elem_of_In.
  - intros (e & Hin & Hv & Ee & Es). exists e. rewrite <- list_elem_of_In, Hv, Es, bool_decide_eq_true_2 by done.
    done.
Qed.

Lemma leaf_edge_keys p s : leaf_edge leaves dependencies p s → p ∈ keys ∧ s ∈ keys.
Proof.
  intros (e & _ & Hv & <- & <-). apply valid_edge_spec in Hv as [[Ht Hd] _].
  by rewrite leaf_map_dom in Ht, Hd.
Qed.

Lemma leaf_pred_key p s : p ∈ successors preds s → p ∈ keys.
Proof. intros H. apply leaf_edge_preds in H. by apply leaf_edge_keys in H as [? _]. Qed.

Lemma initial_kahn_inv :
  kahn_inv preds keys (initial_ready (initial_indegree preds)) (initial_indegree preds) [].
Proof.
  assert (Hall : ∀ s, pending_preds preds [] s = successors preds s).
  { intros s. unfold pending_preds. induction (successors preds s) as [|x l IH]; [done|].
    rewrite filter_cons, decide_True by apply not_elem_of_nil. by rewrite IH. }
  assert (Hi : ∀ s, s ∈ keys → initial_indegree preds !! s = Some (Z.of_nat (length (successors preds s)))).
  { intros s [l Hl]%leaf_preds_dom. unfold initial_indegree, successors. by rewrite lookup_fmap, Hl. }
  assert (Hr : initial_ready (initial_indegree preds) ≡ₚ
    map fst (List.filter (λ kn, kn.2 =? 0) (map_to_list (initial_indegree preds)))) by apply js_sort_perm.
  split; cbn [app].
  - intros s Hs. rewrite Hall. by apply Hi.
  - rewrite Hr. pose proof (NoDup_fst_map_to_list (initial_indegree preds)) as Hn. revert Hn. clear.
    induction (map_to_list _) as [|[k n] l IH]; cbn; [done|]. intros [Hk Hn]%NoDup_cons.
    destruct (n =? 0); cbn; [|by apply IH]. apply NoDup_cons. split; [|by apply IH].
    intros (x & Hx & Hin)%list_elem_of_In%in_map_iff. apply Hk. apply filter_In in Hin as [Hin _].
    apply list_elem_of_fmap. exists x. split; [done|]. by apply list_elem_of_In.
  - intros s. rewrite Hr, Hall, list_elem_of_In, in_map_iff. setoid_rewrite filter_In. split.
    + intros ([s' n] & Es & Hin & Hz). cbn in *. subst s'. apply list_elem_of_In, elem_of_map_to_list in Hin.
      assert (Hs : s ∈ keys).
      { apply leaf_preds_dom. unfold initial_indegree in Hin. rewrite lookup_fmap in Hin.
        by destruct (preds !! s). }
      split; [done|]. rewrite (Hi s Hs) in Hin. apply length_zero_iff_nil. injection Hin as <-. lia.
    + intros [Hs Hnil]. exists (s, 0). split; [done|]. split; [|done].
      apply list_elem_of_In, elem_of_map_to_list. by rewrite (Hi s Hs), Hnil.
  - intros i s p Hs. by rewrite lookup_nil in Hs.
Qed.

Definition leaf_topo : list string := topo_sort leaves preds succs.

Lemma leaf_topo_inv : ∃ indeg, kahn_inv preds keys [] indeg leaf_topo.
Proof.
  unfold leaf_topo, topo_sort.
  destruct (topo_loop_inv preds succs keys leaf_preds_dom leaf_cnt leaf_pred_key (length leaves)
    _ _ _ initial_kahn_inv) as (indeg & t & -> & Hinv).
  - unfold keys, leaf_keys. rewrite length_map. cbn. lia.
  - by exists indeg.
Qed.

Lemma leaf_topo_order t1 k t2 p :
  leaf_topo = t1 ++ k :: t2 → leaf_edge leaves dependencies p k → p ∈ t1.
Proof.
  intros Ht Hp. destruct leaf_topo_inv as (indeg & [_ _ _ Ho]).
  specialize (Ho (length t1) k p). rewrite Ht, take_app_length, lookup_app_r, Nat.sub_diag in Ho by lia.
  apply Ho; [done|]. by apply leaf_edge_preds.
Qed.

(** The sort lists every leaf exactly when keys are distinct and no leaf
    depends on itself through others. *)
Lemma leaf_topo_complete :
  length leaf_topo = length leaves ↔
  NoDup keys ∧ ¬ ∃ k, tc (leaf_edge leaves dependencies) k k.
Proof.
  destruct leaf_topo_inv as (indeg & [_ Hn Hd _]). rewrite app_nil_r in Hn.
  setoid_rewrite app_nil_r in Hd.
  assert (Hsub : leaf_topo ⊆ keys) by (intros s Hs; by apply Hd).
  assert (Hlen : length keys = length leaves) by (unfold keys, leaf_keys; by rewrite length_map).
  rewrite <- Hlen. split.
  - intros E. destruct (NoDup_length_onto _ _ Hn Hsub) as [Honto Hnk]; [lia|]. split; [done|].
    intros (k & Hk).
    assert (Hpos : ∀ a b, tc (leaf_edge leaves dependencies) a b →
              ∀ t1 t2, leaf_topo = t1 ++ b :: t2 → a ∈ t1).
    { intros a b Hab. induction Hab as [a b Hab|a b c Hab Hbc IH]; intros t1 t2 Ht.
      - by eapply leaf_topo_order.
      - specialize (IH t1 t2 Ht). apply list_elem_of_split in IH as (u1 & u2 & ->).
        assert (a ∈ u1); [|set_solver]. eapply (leaf_topo_order u1 b (u2 ++ c :: t2)); [|done].
        by rewrite Ht, <- app_assoc. }
    assert (Hkin : k ∈ leaf_topo).
    { apply Honto. inversion Hk as [? ? Hab|? ? ? Hab _]; subst;
        apply leaf_edge_keys in Hab as [? ?]; done. }
    apply list_elem_of_split in Hkin as (t1 & t2 & Ht). specialize (Hpos k k Hk t1 t2 Ht).
    rewrite Ht in Hn. apply NoDup_app in Hn as (_ & Hdis & _). apply (Hdis k Hpos). left.
  - intros [Hnk Hac]. apply Nat.le_antisymm; [by apply NoDup_subset_length|].
    apply NoDup_subset_length; [done|]. intros s Hs. destruct (decide (s ∈ leaf_topo)) as [|Hns]; [done|].
    exfalso. apply Hac.
    set (R a b := b ∈ successors preds a). assert (RelDecision R) by (unfold R; solve_decision).
    destruct (finite_walk_cycle R (filter (λ x, x ∉ leaf_topo) keys) s) as (x & _ & Hx).
    + by apply list_elem_of_filter.
    + intros x [Hx Hxk]%list_elem_of_filter.
      destruct (pending_preds preds leaf_topo x) as [|p l] eqn:Ep; [exfalso; apply Hx, Hd; auto|].
      assert (Hp : p ∈ pending_preds preds leaf_topo x) by (rewrite Ep; left).
      apply list_elem_of_filter in Hp as [Hp Hpx]. exists p. split; [|done].
      apply list_elem_of_filter. split; [done|]. apply leaf_edge_preds in Hpx.
      by apply leaf_edge_keys in Hpx as [? _].
    + exists x. assert (Hrev : ∀ a b, tc R a b → tc (leaf_edge leaves dependencies) b a); [|by apply Hrev].
      intros a b Hab. induction Hab as [a b H|a b c H _ IH]; apply leaf_edge_preds in H;
        [by constructor|by eapply tc_r].
Qed.
End leaf_sort.

(** ** Properties *)

Lemma chain_of_ext keys (E1 E2 : string → string → Prop) l :
  (∀ p s, E1 p s ↔ E2 p s) → chain_of keys E1 l ↔ chain_of keys E2 l.
Proof.
  intros HE. split; induction 1; constructor; try done; by apply HE.
Qed.

(** The chains of a project: lists of leaf tasks, each one a prerequisite of
    the next, weighed by their total duration. *)
Definition task_chain (tasks : list CpmTaskRow) (dependencies : list CpmEdge) : list string → Prop :=
  chain_of (leaf_keys (leaves_of tasks)) (leaf_edge (leaves_of tasks) dependencies).

Definition chain_duration (tasks : list CpmTaskRow) : list string → Z :=
  weight_of (dur (leaf_map (leaves_of tasks))).

(** The rows that the scheduler can order: distinct leaf keys, no cycle. *)
Definition orderable (tasks : list CpmTaskRow) (dependencies : list CpmEdge) : Prop :=
  NoDup (leaf_keys (leaves_of tasks)) ∧
  ¬ ∃ k, tc (leaf_edge (leaves_of tasks) dependencies) k k.

Lemma critical_fold_lookup lf ef topo k :
  foldl (critical_step lf ef) ∅ topo !! k =
    if bool_decide (k ∈ topo) && (Z.abs (lf !! k ?? 0 - ef !! k ?? 0) <=? SLACK_EPSILON_MS)
    then Some {| isCriticalPath := true; criticalPathRank := ef !! k ?? 0 |} else None.
Proof.
  induction topo as [|x t IH] using rev_ind; [done|]. rewrite foldl_snoc.
  set (m := foldl _ _ t) in *. unfold critical_step. cbv zeta.
  destruct (decide (k = x)) as [->|Hn].
  - rewrite bool_decide_eq_true_2 by set_solver. cbn [andb].
    destruct (_ <=? _) eqn:E; [by rewrite lookup_insert_eq|]. rewrite IH. by rewrite andb_false_r.
  - assert (bool_decide (k ∈ t ++ [x]) = bool_decide (k ∈ t)) as -> by (apply bool_decide_ext; set_solver).
    destruct (Z.abs (lf !! x ?? 0 - ef !! x ?? 0) <=? SLACK_EPSILON_MS); [rewrite lookup_insert_ne by done|]; done.
Qed.

Lemma computeCriticalPath_sorted tasks dependencies k :
  orderable tasks dependencies → leaves_of tasks ≠ [] →
  let leaves := leaves_of tasks in
  let preds := (leaf_adjacency leaves dependencies).1 in
  let succs := (leaf_adjacency leaves dependencies).2 in
  let topo := leaf_topo leaves dependencies in
  let ef := forward_pass (leaf_map leaves) preds topo in
  let lf := (backward_pass (leaf_map leaves) succs (makespan_of ef) topo).1 in
  computeCriticalPath tasks dependencies !! k =
    if bool_decide (k ∈ topo) && (Z.abs (lf !! k ?? 0 - ef !! k ?? 0) <=? SLACK_EPSILON_MS)
    then Some {| isCriticalPath := true; criticalPathRank := ef !! k ?? 0 |} else None.
Proof.
  intros Ho Hl. apply leaf_topo_complete in Ho. cbv zeta. unfold computeCriticalPath.
  destruct tasks as [|t0 ts] eqn:Et; [done|]. rewrite <- Et in *. clear Et.
  destruct (length tasks =? 0)%nat eqn:E0.
  { apply Nat.eqb_eq, length_zero_iff_nil in E0. by subst. }
  destruct (length (leaves_of tasks) =? 0)%nat eqn:E1.
  { apply Nat.eqb_eq, length_zero_iff_nil in E1. done. }
  unfold leaf_topo in *. destruct (leaf_adjacency _ _) as [preds succs]. cbn [fst snd] in *.
  rewrite Ho, Nat.eqb_refl. cbn [negb]. destruct (backward_pass _ _ _ _) as [lf ls].
  apply critical_fold_lookup.
Qed.

Lemma computeCriticalPath_unsorted tasks dependencies :
  ¬ orderable tasks dependencies ∨ leaves_of tasks = [] → computeCriticalPath tasks dependencies = ∅.
Proof.
  intros H. unfold computeCriticalPath. destruct (length tasks =? 0)%nat; [done|].
  destruct (length (leaves_of tasks) =? 0)%nat eqn:E1; [done|]. destruct H as [H|H]; [|by rewrite H in E1].
  unfold orderable in H. rewrite <- leaf_topo_complete in H. unfold leaf_topo in H.
  destruct (leaf_adjacency _ _) as [preds succs]. cbn [fst snd] in H.
  destruct (Nat.eqb_spec (length (topo_sort (leaves_of tasks) preds succs)) (length (leaves_of tasks))); done.
Qed.

Lemma leaf_topo_facts tasks dependencies :
  orderable tasks dependencies →
  let leaves := leaves_of tasks in
  let topo := leaf_topo leaves dependencies in
  NoDup topo ∧ ∀ s, s ∈ topo ↔ s ∈ leaf_keys leaves.
Proof.
  cbv zeta. intros Ho. pose proof (proj2 (leaf_topo_complete _ _) Ho) as Hlen.
  destruct (leaf_topo_inv (leaves_of tasks) dependencies) as (indeg & [_ Hn Hd _]).
  rewrite app_nil_r in Hn. setoid_rewrite app_nil_r in Hd. split; [done|]. intros s.
  split; [by intros [? _]%Hd|].
  apply NoDup_length_onto; [done|intros x Hx; by apply Hd|].
  rewrite Hlen. unfold leaf_keys. by rewrite length_map.
Qed.

(** What the passes computed for the leaf [k], in terms of task chains. *)
Definition ef_of tasks dependencies : gmap string Z :=
  forward_pass (leaf_map (leaves_of tasks)) (leaf_adjacency (leaves_of tasks) dependencies).1
    (leaf_topo (leaves_of tasks) dependencies).

Definition lf_of tasks dependencies : gmap string Z :=
  (backward_pass (leaf_map (leaves_of tasks)) (leaf_adjacency (leaves_of tasks) dependencies).2
     (makespan_of (ef_of tasks dependencies)) (leaf_topo (leaves_of tasks) dependencies)).1.

Lemma successors_sym leaves dependencies p s :
  p ∈ successors (leaf_adjacency leaves dependencies).1 s ↔
  s ∈ successors (leaf_adjacency leaves dependencies).2 p.
Proof.
  split; intros H; apply dec_stable; intros Hc; revert H; apply cnt_0 in Hc; apply cnt_0.
  - by rewrite leaf_cnt.
  - by rewrite <- leaf_cnt.
Qed.

Lemma task_chain_preds tasks dependencies l :
  chain_of (leaf_keys (leaves_of tasks))
    (λ p s, p ∈ successors (leaf_adjacency (leaves_of tasks) dependencies).1 s) l ↔
  task_chain tasks dependencies l.
Proof. apply chain_of_ext. intros p s. apply leaf_edge_preds. Qed.

Section orderable_rows.
Context (tasks : list CpmTaskRow) (dependencies : list CpmEdge).
Hypothesis Ho : orderable tasks dependencies.
Let leaves := leaves_of tasks.
Let preds := (leaf_adjacency leaves dependencies).1.
Let topo := leaf_topo leaves dependencies.

Lemma topo_preds_in p s : p ∈ successors preds s → s ∈ topo.
Proof.
  intros H. apply (leaf_topo_facts tasks dependencies Ho). apply leaf_edge_preds in H.
  by apply leaf_edge_keys in H as [_ ?].
Qed.

Lemma topo_preds_before t1 x t2 : topo = t1 ++ x :: t2 → ∀ p, p ∈ successors preds x → p ∈ t1.
Proof. intros E p Hp. eapply leaf_topo_order; [done|]. by apply leaf_edge_preds. Qed.

Lemma leaf_critical k :
  k ∈ leaf_keys leaves →
  let ef := ef_of tasks dependencies !! k ?? 0 in
  let lf := lf_of tasks dependencies !! k ?? 0 in
  (∃ l, task_chain tasks dependencies (l ++ [k]) ∧ chain_duration tasks (l ++ [k]) = ef) ∧
  (∀ l, task_chain tasks dependencies (l ++ [k]) → chain_duration tasks (l ++ [k]) <= ef) ∧
  (Z.abs (lf - ef) <= SLACK_EPSILON_MS ↔
    ∃ c, task_chain tasks dependencies c ∧ k ∈ c ∧
       ∀ c', task_chain tasks dependencies c' →
         chain_duration tasks c' <= chain_duration tasks c + SLACK_EPSILON_MS).
Proof.
  cbv zeta. intros Hk. destruct (leaf_topo_facts _ _ Ho) as [Hn Ht].
  pose proof (critical_iff (leaf_map leaves) preds (leaf_adjacency leaves dependencies).2
    (leaf_keys leaves) topo (successors_sym _ _) Hn Ht topo_preds_in topo_preds_before k Hk) as H.
  cbv beta zeta delta [longest_to preds leaves topo] in H. destruct H as [[Hlong Hmax] Hcrit].
  setoid_rewrite task_chain_preds in Hlong. setoid_rewrite task_chain_preds in Hmax.
  setoid_rewrite task_chain_preds in Hcrit. done.
Qed.

Lemma longest_task_chain :
  leaves ≠ [] → ∃ c, task_chain tasks dependencies c ∧
    ∀ c', task_chain tasks dependencies c' → chain_duration tasks c' <= chain_duration tasks c.
Proof.
  intros Hl. destruct (leaf_topo_facts _ _ Ho) as [Hn Ht].
  assert (Hne : topo ≠ []).
  { subst topo leaves. destruct (leaves_of tasks) as [|t ts]; [done|]. intros E.
    assert (H : cr_key t ∈ leaf_keys (t :: ts)) by left. apply Ht in H. rewrite E in H.
    by apply elem_of_nil in H. }
  pose proof (makespan_spec (leaf_map leaves) preds (leaf_adjacency leaves dependencies).2
    (leaf_keys leaves) topo (successors_sym _ _) Hn Ht topo_preds_in topo_preds_before Hne) as H.
  cbv beta zeta delta [longest preds leaves topo] in H. destruct H as [(c & Hc & Ec) Hmax].
  setoid_rewrite task_chain_preds in Hmax. apply task_chain_preds in Hc. exists c. split; [done|].
  intros c' Hc'. etrans; [by apply Hmax|]. by rewrite <- Ec.
Qed.
End orderable_rows.

(** C19: On orderable rows, a task is reported critical exactly when it lies on
    a dependency chain whose total duration no chain exceeds by more than the
    1 ms tolerance, and its rank is the duration of the longest chain ending
    at it. *)
Theorem computeCriticalPath_spec tasks dependencies k e (Ho : orderable tasks dependencies) :
  computeCriticalPath tasks dependencies !! k = Some e ↔
    isCriticalPath e = true ∧
    (∃ c, task_chain tasks dependencies c ∧ k ∈ c ∧
       ∀ c', task_chain tasks dependencies c' →
         chain_duration tasks c' <= chain_duration tasks c + SLACK_EPSILON_MS) ∧
    (∃ l, task_chain tasks dependencies (l ++ [k]) ∧
       chain_duration tasks (l ++ [k]) = criticalPathRank e) ∧
    (∀ l, task_chain tasks dependencies (l ++ [k]) →
       chain_duration tasks (l ++ [k]) <= criticalPathRank e).
Proof.
  destruct (leaf_topo_facts _ _ Ho) as [Hn Ht].
  destruct (decide (k ∈ leaf_keys (leaves_of tasks))) as [Hk|Hk].
  2: { split.
    - intros H. exfalso. destruct (decide (length (leaves_of tasks) = 0%nat)) as [Hl|Hl].
      + apply length_zero_iff_nil in Hl. rewrite computeCriticalPath_unsorted in H by auto.
        by rewrite lookup_empty in H.
      + assert (leaves_of tasks ≠ []) by (intros E; by rewrite E in Hl). rewrite computeCriticalPath_sorted in H by done.
        rewrite bool_decide_eq_false_2 in H by (by rewrite Ht). done.
    - intros (_ & (c & Hc & Hkc & _) & _). exfalso. apply Hk. by eapply chain_elem_key. }
  assert (Hl : leaves_of tasks ≠ []) by (intros Hl; rewrite Hl in Hk; by apply elem_of_nil in Hk).
  rewrite computeCriticalPath_sorted by done. rewrite bool_decide_eq_true_2 by (by apply Ht). cbn [andb].
  fold (ef_of tasks dependencies). fold (lf_of tasks dependencies).
  destruct (leaf_critical tasks dependencies Ho k Hk) as ((l0 & Hl0 & El0) & Hmax & Hcrit).
  destruct (_ <=? _) eqn:Ele; bprop; (split; [try done|]).
  - intros [= <-]. cbn. split_and!; [done|by apply Hcrit|by exists l0|done].
  - intros (Hb & _ & (l & Hl1 & Hl2) & Hm). f_equal. destruct e as [b r]. cbn in *. subst b. f_equal.
    specialize (Hm l0 Hl0). specialize (Hmax l Hl1). lia.
  - intros (_ & Hc & _). apply Hcrit in Hc. lia.
Qed.

Lemma computeCriticalPath_spec_witness :
  let row k s e := {| cr_key := k; cr_parentKey := None; cr_startMs := s; cr_endMs := e |} in
  let tasks := [row "a" 0 10; row "b" 10 15] in
  let deps := [{| ce_taskKey := "b"; ce_dependsOnKey := "a" |}] in
  ∃ l, task_chain tasks deps (l ++ ["b"]) ∧ chain_duration tasks (l ++ ["b"]) = 15.
Proof.
  cbv zeta.
  assert (Ho : orderable
    [{| cr_key := "a"; cr_parentKey := None; cr_startMs := 0; cr_endMs := 10 |};
     {| cr_key := "b"; cr_parentKey := None; cr_startMs := 10; cr_endMs := 15 |}]
    [{| ce_taskKey := "b"; ce_dependsOnKey := "a" |}]).
  { apply leaf_topo_complete. vm_compute. reflexivity. }
  pose proof (proj1 (computeCriticalPath_spec _ _ "b" {| isCriticalPath := true; criticalPathRank := 15 |} Ho)
    ltac:(vm_compute; reflexivity)) as (_ & _ & H & _).
  exact H.
Defined.

(** The critical path is empty exactly when there is no leaf task or the
    rows cannot be ordered: two leaves with one key, or a dependency cycle. *)
Theorem computeCriticalPath_empty tasks dependencies :
  computeCriticalPath tasks dependencies = ∅ ↔
    leaves_of tasks = [] ∨ ¬ orderable tasks dependencies.
Proof.
  split; [|intros H; apply computeCriticalPath_unsorted; tauto].
  intros Hempty. destruct (leaves_of tasks) as [|t ts] eqn:El; [by left|right]. intros Ho.
  assert (Hl : leaves_of tasks ≠ []) by (by rewrite El).
  destruct (longest_task_chain _ _ Ho Hl) as (c & Hc & Hmax).
  destruct (leaf_topo_facts _ _ Ho) as [_ Ht].
  assert (Hk : ∃ k, k ∈ c) by (inversion Hc; subst; eexists; left). destruct Hk as (k & Hkc).
  assert (Hk : k ∈ leaf_keys (leaves_of tasks)) by (by eapply chain_elem_key).
  assert (H : computeCriticalPath tasks dependencies !! k = None) by (by rewrite Hempty).
  rewrite computeCriticalPath_sorted in H by done.
  rewrite bool_decide_eq_true_2 in H by (by apply Ht). cbn [andb] in H.
  fold (ef_of tasks dependencies) in H. fold (lf_of tasks dependencies) in H.
  destruct (leaf_critical tasks dependencies Ho k Hk) as (_ & _ & Hcrit).
  destruct (_ <=? _) eqn:Ele; [discriminate|]. bprop.
  assert (Habs : Z.abs (lf_of tasks dependencies !! k ?? 0 - ef_of tasks dependencies !! k ?? 0) <= SLACK_EPSILON_MS);
    [|lia]. apply Hcrit. exists c. split_and!; [done|done|].
  intros c' Hc'. specialize (Hmax c' Hc'). unfold SLACK_EPSILON_MS. lia.
Qed.
