(* ===== verification/Limits.v ===== *)
(** * Resource limits of a spec ([spec/limits.ts])

    The static bounds of an authored spec, and the structured errors that
    report an excess.  A number of days is kept exactly, as a number of
    seconds; the source adds the same fractions as doubles. *)

From S2P Require Import Prelude Json Time Spec.
Open Scope Z_scope.

(** ** The limits *)

Definition maxTasks : Z := 200.
Definition maxDependencies : Z := 1000.
Definition maxApprovals : Z := 100.
Definition maxArtifactsPerTask : Z := 50.
Definition maxTitleLength : Z := 200.
Definition maxInputBytes : Z := 32768.
Definition maxJsonDepth : Z := 10.
Definition maxTotalSpecBytes : Z := 262144.
Definition maxScheduleHorizonDays : Z := 730.
Definition maxOffsetDays : Z := 365.

Record StructuredSpecError := {
  se_code : string; se_message : string; se_path : option string;
  se_limit : option Z; se_actual : option Z
}.

Definition limit_error (code message : string) (path : option string) (limit actual : Z)
    : StructuredSpecError :=
  {| se_code := code; se_message := message; se_path := path;
     se_limit := Some limit; se_actual := Some actual |}.

(** [tasks[i].suffix]. *)
Definition task_path (i : nat) (suffix : string) : string :=
  "tasks[" +:+ show_nat i +:+ "]." +:+ suffix.

Definition day_seconds : Z := 86400.

(** The approximate length of a duration in days, as seconds. *)
Definition iso8601DurationToApproxDays (duration : string) : option Z :=
  p ← duration_parts duration;
  let n := λ o : option string, match o with Some d => digits_value 0 d | None => 0 end in
  Some ((n (dp_Y p) * 365 + n (dp_Mo p) * 30 + n (dp_W p) * 7 + n (dp_D p)) * day_seconds +
        n (dp_H p) * 3600 + n (dp_Mi p) * 60 + n (dp_S p)).

(** [Math.round] of a number of days: the half rounds up. *)
Definition round_days (secs : Z) : Z := (2 * secs + day_seconds) / (2 * day_seconds).

Fixpoint jsonDepth (value : json) (current : Z) : Z :=
  match value with
  | JArr l => foldl (λ m v, Z.max m (jsonDepth v (current + 1))) current l
  | JObj kvs =>
      foldl (λ m kv, Z.max m (jsonDepth kv.2
        (if (kv.1 ≟ "template") && is_object kv.2 then 1 else current + 1))) current kvs
  | _ => current
  end.

Definition byteLength (value : json) : Z := utf8_length (json_stringify value).

(** ** The checks, in the order of the source *)

Definition dep_count (tasks : list TaskSpec) : Z :=
  foldl (λ n t, n + match t_dependsOn t with Some l => Z.of_nat (length l) | None => 0 end) 0 tasks.

Definition approval_count (tasks : list TaskSpec) : Z :=
  Z.of_nat (length (List.filter (λ t, t_type t ≟ tt_approval) tasks)).

Definition count_errors (tasks : list TaskSpec) : list StructuredSpecError :=
  (if maxTasks <? Z.of_nat (length tasks) then
     [limit_error "TOO_MANY_TASKS" ("Workflow has " +:+ show_nat (length tasks) +:+
        " tasks; the maximum is " +:+ show_Z maxTasks +:+ ".") None maxTasks
        (Z.of_nat (length tasks))]
   else []) ++
  (if maxDependencies <? dep_count tasks then
     [limit_error "TOO_MANY_DEPENDENCIES" ("Workflow has " +:+ show_Z (dep_count tasks) +:+
        " dependencies; the maximum is " +:+ show_Z maxDependencies +:+ ".") None maxDependencies
        (dep_count tasks)]
   else []) ++
  (if maxApprovals <? approval_count tasks then
     [limit_error "TOO_MANY_APPROVALS" ("Workflow has " +:+ show_Z (approval_count tasks) +:+
        " approval tasks; the maximum is " +:+ show_Z maxApprovals +:+ ".") None maxApprovals
        (approval_count tasks)]
   else []).

Definition title_errors (i : nat) (t : TaskSpec) : list StructuredSpecError :=
  if maxTitleLength <? str_len (t_title t) then
    [limit_error "TITLE_TOO_LONG" ("Task " +:+ quoted (t_key t) +:+ " title is " +:+
       show_Z (str_len (t_title t)) +:+ " chars; the maximum is " +:+ show_Z maxTitleLength +:+ ".")
       (Some (task_path i "title")) maxTitleLength (str_len (t_title t))]
  else [].

Definition input_errors (i : nat) (t : TaskSpec) : list StructuredSpecError :=
  match t_body t with
  | AgentTask _ (Some input) =>
      let size := byteLength input in
      if maxInputBytes <? size then
        [limit_error "INPUT_TOO_LARGE" ("Task " +:+ quoted (t_key t) +:+ " input is " +:+ show_Z size +:+
           " bytes; the maximum is " +:+ show_Z maxInputBytes +:+
           ". Reference documents/artifacts instead of embedding them.")
           (Some (task_path i "input")) maxInputBytes size]
      else []
  | _ => []
  end.

(** The offset and the bar duration share their bound. *)
Definition days_errors (code what path : string) (i : nat) (t : TaskSpec) (duration : string)
    : list StructuredSpecError :=
  match iso8601DurationToApproxDays duration with
  | Some secs =>
      if maxOffsetDays * day_seconds <? secs then
        [limit_error code ("Task " +:+ quoted (t_key t) +:+ " " +:+ what +:+ " is ~" +:+
           show_Z (round_days secs) +:+ " days; the maximum is " +:+ show_Z maxOffsetDays +:+ ".")
           (Some (task_path i path)) maxOffsetDays (round_days secs)]
      else []
  | None => []
  end.

Definition offset_errors (i : nat) (t : TaskSpec) : list StructuredSpecError :=
  match t_schedule t with
  | Some (Relative r) =>
      days_errors "OFFSET_TOO_LARGE" "schedule offset" "schedule.offsetIso8601" i t (rel_offsetIso8601 r)
  | _ => []
  end.

Definition duration_errors (i : nat) (t : TaskSpec) : list StructuredSpecError :=
  match t_schedule t ≫= sch_durationIso8601 with
  | Some d =>
      if d ≟ "" then []
      else days_errors "DURATION_TOO_LARGE" "bar duration" "schedule.durationIso8601" i t d
  | None => []
  end.

Definition task_limit_errors (i : nat) (t : TaskSpec) : list StructuredSpecError :=
  title_errors i t ++ input_errors i t ++ offset_errors i t ++ duration_errors i t.

Definition size_errors (spec : WorkflowSpec) : list StructuredSpecError :=
  let depth := jsonDepth (WorkflowSpec_json spec) 1 in
  let totalBytes := byteLength (WorkflowSpec_json spec) in
  (if maxJsonDepth <? depth then
     [limit_error "JSON_TOO_DEEP" ("Spec JSON nests " +:+ show_Z depth +:+
        " levels deep; the maximum is " +:+ show_Z maxJsonDepth +:+ ".") None maxJsonDepth depth]
   else []) ++
  (if maxTotalSpecBytes <? totalBytes then
     [limit_error "SPEC_TOO_LARGE" ("Spec is " +:+ show_Z totalBytes +:+ " bytes; the maximum is " +:+
        show_Z maxTotalSpecBytes +:+ ".") None maxTotalSpecBytes totalBytes]
   else []).

Definition checkLimits (spec : WorkflowSpec) : list StructuredSpecError :=
  count_errors (w_tasks spec) ++ concat (imap task_limit_errors (w_tasks spec)) ++ size_errors spec.

(** ** Properties *)

(** A spec within every limit. *)
Record within_limits (spec : WorkflowSpec) : Prop := {
  wl_tasks : Z.of_nat (length (w_tasks spec)) <= maxTasks;
  wl_deps : dep_count (w_tasks spec) <= maxDependencies;
  wl_approvals : approval_count (w_tasks spec) <= maxApprovals;
  wl_titles t : t ∈ w_tasks spec → str_len (t_title t) <= maxTitleLength;
  wl_inputs t a input : t ∈ w_tasks spec → t_body t = AgentTask a (Some input) →
    byteLength input <= maxInputBytes;
  wl_offsets t r secs : t ∈ w_tasks spec → t_schedule t = Some (Relative r) →
    iso8601DurationToApproxDays (rel_offsetIso8601 r) = Some secs → secs <= maxOffsetDays * day_seconds;
  wl_durations t s d secs : t ∈ w_tasks spec → t_schedule t = Some s → sch_durationIso8601 s = Some d →
    iso8601DurationToApproxDays d = Some secs → secs <= maxOffsetDays * day_seconds;
  wl_depth : jsonDepth (WorkflowSpec_json spec) 1 <= maxJsonDepth;
  wl_bytes : byteLength (WorkflowSpec_json spec) <= maxTotalSpecBytes;
}.

Lemma days_errors_nil code what path i t d :
  days_errors code what path i t d = [] ↔
  ∀ secs, iso8601DurationToApproxDays d = Some secs → secs <= maxOffsetDays * day_seconds.
Proof.
  unfold days_errors. destruct (iso8601DurationToApproxDays d) as [s|]; [|by split].
  rewrite if_singleton_nil, Z.ltb_ge. split; [by intros H ? [= <-]|auto].
Qed.

Lemma task_limit_errors_nil i t :
  task_limit_errors i t = [] ↔
    str_len (t_title t) <= maxTitleLength ∧
    (∀ a input, t_body t = AgentTask a (Some input) → byteLength input <= maxInputBytes) ∧
    (∀ r secs, t_schedule t = Some (Relative r) →
       iso8601DurationToApproxDays (rel_offsetIso8601 r) = Some secs → secs <= maxOffsetDays * day_seconds) ∧
    (∀ s d secs, t_schedule t = Some s → sch_durationIso8601 s = Some d →
       iso8601DurationToApproxDays d = Some secs → secs <= maxOffsetDays * day_seconds).
Proof.
  unfold task_limit_errors. rewrite !app_nil_iff. unfold title_errors at 1. rewrite if_singleton_nil, Z.ltb_ge.
  do 2 f_equiv; [|f_equiv].
  - unfold input_errors. destruct (t_body t) as [a [inp|]| | | | |]; try (split; [intros _; discriminate|done]).
    rewrite if_singleton_nil, Z.ltb_ge. split; [by intros H ? ? [= <- <-]|eauto].
  - unfold offset_errors. destruct (t_schedule t) as [[s|r]|]; try (split; [intros _; discriminate|done]).
    rewrite days_errors_nil. split; [intros H r' secs [= <-]; apply H|eauto].
  - unfold duration_errors. destruct (t_schedule t) as [s|]; cbn; [|split; [intros _; discriminate|done]].
    destruct (sch_durationIso8601 s) as [d|] eqn:Ed; [|split; [intros _ ? ? ? [= <-]; congruence|done]].
    destruct (d ≟ "") eqn:E; bprop.
    + subst d. split; [|done]. intros _ s' d' secs [= <-] Hd Hs. rewrite Ed in Hd. injection Hd as <-.
      discriminate.
    + rewrite days_errors_nil. split; [|eauto]. intros H s' d' secs [= <-] Hd. rewrite Ed in Hd. injection Hd as <-. apply H.
Qed.

Lemma checkLimits_within spec : checkLimits spec = [] ↔ within_limits spec.
Proof.
  unfold checkLimits, count_errors, size_errors. rewrite !app_nil_iff, !if_singleton_nil, !Z.ltb_ge, concat_imap_nil.
  setoid_rewrite task_limit_errors_nil. rewrite elem_lookup_iff. split.
  - intros ((H1 & H2 & H3) & Ht & H4 & H5).
    constructor; try done; intros t; intros; destruct (Ht t) as (A & B & C & D); eauto.
  - intros [H1 H2 H3 H4 H5 H6 H7 H8 H9]. split_and!; try done. intros t Ht. split_and!; eauto.
Qed.

(** [checkLimits] reports nothing exactly when every count, length, size,
    offset, duration and the nesting depth of the spec is within its limit. *)
Theorem checkLimits_nil_iff spec : checkLimits spec = [] ↔ within_limits spec.
Proof. apply checkLimits_within. Qed.
