(* ===== verification/Resolver.v ===== *)
(** * The schedule resolver ([schedule/resolver.ts])

    Every task of a spec gets a planned start, end and due instant: absolute
    dates, offsets from the target date or from another task's due instant,
    windows of summary parents derived from their children.

    The calendar library is the class [DateEnv] of [Time]; the clock read for
    a spec without a target is the argument [now]. *)

From S2P Require Import Prelude Json Time Spec.
Open Scope Z_scope.

Record ResolvedTask := { rt_plannedStartUtc : string; rt_plannedEndUtc : string; rt_dueAtUtc : string }.
Record ResolveWarning := { rw_taskKey : string; rw_code : string; rw_message : string }.
Record ResolveResult := { rr_tasks : gmap string ResolvedTask; rr_warnings : list ResolveWarning }.

(** A frozen task: its due instant alone, or its whole bar. *)
Inductive FrozenDue :=
  | FrozenAt (dueAtUtc : string)
  | FrozenBar (dueAtUtc plannedStartUtc plannedEndUtc : string).

Record ResolveOptions := {
  ro_targetAtUtc : option string; ro_frozenDueAt : gmap string FrozenDue
}.

Definition no_options : ResolveOptions := {| ro_targetAtUtc := None; ro_frozenDueAt := ∅ |}.

Record CascadeChange := { cc_targetAtUtc : option string }.
Record CascadeDiffEntry := { cd_taskKey : string; cd_oldDueAtUtc : string; cd_newDueAtUtc : string }.

Definition duration_number (o : option string) : Z :=
  match o with Some d => digits_value 0 d | None => 0 end.

Definition parseIsoDuration (value : string) : option Duration :=
  p ← duration_parts value;
  Some {| years := duration_number (dp_Y p); months := duration_number (dp_Mo p);
          weeks := duration_number (dp_W p); days := duration_number (dp_D p);
          hours := duration_number (dp_H p); minutes := duration_number (dp_Mi p);
          seconds := duration_number (dp_S p) |}.

(** [OFFSET_RE]: the text ends with [Z] or with a numeric offset. *)
Definition has_offset (iso : string) : bool :=
  is_present (take_offset_shape (str_drop (String.length iso - 1) iso)) ||
  is_present (take_offset_shape (str_drop (String.length iso - 6) iso)).

(** [COMPONENTS_RE]: the fields at the front of the text, seconds optional. *)
Definition components (iso : string) : option (Z * Z * Z * Z * Z * Z) :=
  '(y, r) ← take_digits 4 0 iso; r ← take_char "-" r;
  '(mo, r) ← take_digits 2 0 r; r ← take_char "-" r;
  '(d, r) ← take_digits 2 0 r; r ← take_char "T" r;
  '(h, r) ← take_digits 2 0 r; r ← take_char ":" r;
  '(mi, r) ← take_digits 2 0 r;
  Some (y, mo, d, h, mi,
        match (r ← take_char ":" r; take_digits 2 0 r) with Some (s, _) => s | None => 0 end).

Record Bar := { startMs : Instant; endMs : Instant; dueMs : Instant }.
#[export] Instance Bar_eq_dec : EqDecision Bar.
Proof. solve_decision. Defined.

(** [(h, mi)] of [localTime.split(":").map(Number)]. *)
Definition local_time_parts (s : string) : option (Z * Z) :=
  '(h, r) ← take_digits 2 0 s; r ← take_char ":" r; '(mi, r) ← take_digits 2 0 r;
  if r ≟ "" then Some (h, mi) else None.

Section resolver.
Context `{DateEnv}.

(** A datetime without offset is wall-clock time in [tz]. *)
Definition parseInstantMs (iso tz : string) : Instant :=
  if has_offset iso then Date_parse iso
  else match components iso with
       | None => Date_parse iso
       | Some (y, mo, d, h, mi, s) => tzDate y (mo - 1) d h mi s tz
       end.

(** The new instant, and whether the wall-clock time fell in a gap. *)
Definition applyLocalTime (ms : Instant) (h mi : Z) (tz : string) : Instant * bool :=
  let d := tzSetHours ms tz h mi in
  (d, negb (tzHours d tz ≟ Some h) || negb (tzMinutes d tz ≟ Some mi)).

Definition tzOf (spec : WorkflowSpec) (schedule : option ScheduleSpec) : string :=
  (schedule ≫= sch_tz) ?? ((tg_tz <$> w_target spec) ?? "UTC").

Definition applyBar (anchorInstantMs : Instant) (schedule : option ScheduleSpec) (tz : string) : Bar :=
  let barDur := match schedule ≫= sch_durationIso8601 with
                | Some d => if d ≟ "" then None else parseIsoDuration d
                | None => None
                end in
  let before := λ ms, match barDur with Some d => tzSub ms tz d | None => ms end in
  match (schedule ≫= sch_anchorPoint) ?? ap_due with
  | ap_start =>
      let e := match barDur with Some d => tzAdd anchorInstantMs tz d | None => anchorInstantMs end in
      {| startMs := anchorInstantMs; endMs := e; dueMs := e |}
  | ap_end =>
      {| startMs := before anchorInstantMs; endMs := anchorInstantMs; dueMs := anchorInstantMs |}
  | ap_due =>
      {| startMs := before anchorInstantMs; endMs := anchorInstantMs; dueMs := anchorInstantMs |}
  end.

(** What [resolveSchedule] reads of its arguments. *)
Record ResolveEnv := {
  re_spec : WorkflowSpec; re_byKey : gmap string TaskSpec; re_targetMs : Instant;
  re_frozen : gmap string FrozenDue
}.

Definition tasks_by_key (tasks : list TaskSpec) : gmap string TaskSpec :=
  foldl (λ m t, <[t_key t := t]> m) ∅ tasks.

Definition target_ms (now : Z) (spec : WorkflowSpec) (opts : ResolveOptions) : Instant :=
  let targetTz := (tg_tz <$> w_target spec) ?? "UTC" in
  match ro_targetAtUtc opts with
  | Some iso => if iso ≟ "" then Some now else parseInstantMs iso targetTz
  | None => match w_target spec ≫= tg_at with
            | Some iso => if iso ≟ "" then Some now else parseInstantMs iso targetTz
            | None => Some now
            end
  end.

Definition resolve_env (now : Z) (spec : WorkflowSpec) (opts : ResolveOptions) : ResolveEnv :=
  {| re_spec := spec; re_byKey := tasks_by_key (w_tasks spec);
     re_targetMs := target_ms now spec opts; re_frozen := ro_frozenDueAt opts |}.

Definition frozen_bar (f : FrozenDue) : Bar :=
  match f with
  | FrozenAt d => {| startMs := Date_parse d; endMs := Date_parse d; dueMs := Date_parse d |}
  | FrozenBar d s e => {| startMs := Date_parse s; endMs := Date_parse e; dueMs := Date_parse d |}
  end.

Definition unscheduled_warning (key : string) : ResolveWarning := {|
  rw_taskKey := key; rw_code := "UNSCHEDULED_DEFAULTED_TO_RELEASE";
  rw_message := "Task " +:+ quoted key +:+ " has no schedule; planned at the release instant." |}.

Definition gap_warning (key localTime : string) : ResolveWarning := {|
  rw_taskKey := key; rw_code := "DST_GAP";
  rw_message := "Task " +:+ quoted key +:+ " local time " +:+ localTime +:+
    " falls in a DST spring-forward gap on its resolved date; rolled forward." |}.

(** The instant an offset from [anchorMs] leads to, and the gap warning. *)
Definition relative_instant (key : string) (r : RelativeSchedule) (tz : string) (anchorMs : Instant)
    : Instant * list ResolveWarning :=
  let dur := parseIsoDuration (rel_offsetIso8601 r) ?? empty_duration in
  let ms := match rel_direction r with
            | sd_before => tzSub anchorMs tz dur
            | sd_after => tzAdd anchorMs tz dur
            end in
  match rel_localTime r with
  | None => (ms, [])
  | Some lt =>
      if lt ≟ "" then (ms, [])
      else match local_time_parts lt with
           | None => (None, [gap_warning key lt])
           | Some (h, mi) =>
               let '(ms', gap) := applyLocalTime ms h mi tz in
               (ms', if gap then [gap_warning key lt] else [])
           end
  end.

Abbreviation resolve_state := (gmap string Bar * list ResolveWarning)%type.

(** One call of [resolveDueMs], with its recursive call on the anchor. *)
Definition resolve_step (anchorDue : string → resolve_state → Instant * resolve_state)
    (env : ResolveEnv) (key : string) (stack : list string) (st : resolve_state)
    : Instant * resolve_state :=
  let '(fullMemo, warnings) := st in
  match fullMemo !! key with
  | Some b => (dueMs b, st)
  | None =>
  match re_frozen env !! key with
  | Some f => (dueMs (frozen_bar f), (<[key := frozen_bar f]> fullMemo, warnings))
  | None =>
  if bool_decide (key ∈ stack) then (re_targetMs env, st)
  else
    let sch := re_byKey env !! key ≫= t_schedule in
    let tz := tzOf (re_spec env) sch in
    let finish := λ (instant : Instant) (st' : resolve_state),
      let bar := applyBar instant sch tz in
      (dueMs bar, (<[key := bar]> st'.1, st'.2)) in
    match sch with
    | None => finish (re_targetMs env) (fullMemo, warnings ++ [unscheduled_warning key])
    | Some (Absolute a) => finish (parseInstantMs (abs_at a) tz) st
    | Some (Relative r) =>
        let '(anchorMs, st') :=
          if rel_anchor r ≟ TARGET_ANCHOR then (re_targetMs env, st)
          else anchorDue (rel_anchor r) st in
        let '(ms, ws) := relative_instant key r tz anchorMs in
        finish ms (st'.1, st'.2 ++ ws)
    end
  end end.

(** [resolveDueMs]: the canonical due instant of a task, memoised.  The fuel
    bounds the anchor chain; [resolveDueMs_fuel] shows it never runs out. *)
Fixpoint resolveDueMs (fuel : nat) (env : ResolveEnv) (key : string) (stack : list string)
    (st : resolve_state) : Instant * resolve_state :=
  resolve_step (λ anchor st', match fuel with
                              | O => (re_targetMs env, st')
                              | S f => resolveDueMs f env anchor (key :: stack) st'
                              end) env key stack st.

(** [childrenByParent]. *)
Definition add_child (m : gmap string (list string)) (t : TaskSpec) : gmap string (list string) :=
  match t_parent t with
  | Some p => if p ≟ "" then m else <[p := (m !! p ?? []) ++ [t_key t]]> m
  | None => m
  end.

Definition childrenByParent (tasks : list TaskSpec) : gmap string (list string) :=
  foldl add_child ∅ tasks.

(** The window while the children are read: [None] is the infinity each bound
    starts from, which no NaN replaces. *)
Definition lower (cur child : Instant) : Instant :=
  match child, cur with
  | Some c, Some m => if c <? m then Some c else cur
  | Some c, None => Some c
  | None, _ => cur
  end.
Definition raise (cur child : Instant) : Instant :=
  match child, cur with
  | Some c, Some m => if m <? c then Some c else cur
  | Some c, None => Some c
  | None, _ => cur
  end.

Definition widen (w cb : Bar) : Bar :=
  {| startMs := lower (startMs w) (startMs cb); endMs := raise (endMs w) (endMs cb);
     dueMs := raise (dueMs w) (dueMs cb) |}.

Definition no_window : Bar := {| startMs := None; endMs := None; dueMs := None |}.

(** [recomputeParent], depth first over the children: the keys done and the
    memo.  [recomputeParent_fuel] shows the fuel never runs out. *)
Fixpoint recomputeParent (fuel : nat) (children : gmap string (list string)) (key : string)
    (st : list string * gmap string Bar) : list string * gmap string Bar :=
  let '(parentDone, memo) := st in
  if bool_decide (key ∈ parentDone) then st
  else
    let parentDone := key :: parentDone in
    match children !! key with
    | None | Some [] => (parentDone, memo)
    | Some cs =>
        let '(st', window) :=
          foldl (λ (acc : (list string * gmap string Bar) * Bar) c,
                   let st1 := match fuel with
                              | O => acc.1
                              | S f => recomputeParent f children c acc.1
                              end in
                   (st1, match st1.2 !! c with Some cb => widen acc.2 cb | None => acc.2 end))
            ((parentDone, memo), no_window) cs in
        (st'.1, match startMs window with Some _ => <[key := window]> st'.2 | None => st'.2 end)
    end.

(** The main loop and the parent-window pass over every task. *)
Definition resolve_all (env : ResolveEnv) (tasks : list TaskSpec) : resolve_state :=
  foldl (λ st t, (resolveDueMs (length tasks) env (t_key t) [] st).2) (∅, []) tasks.

Definition recompute_all (tasks : list TaskSpec) (memo : gmap string Bar) : gmap string Bar :=
  (foldl (λ st t, recomputeParent (length tasks) (childrenByParent tasks) (t_key t) st) ([], memo) tasks).2.

(** [new Date(ms).toISOString()]; it throws on an invalid date. *)
Definition date_iso (ms : Instant) : result RangeError string := toISOString (ms ≫= time_clip).

Definition resolved_task (b : Bar) : result RangeError ResolvedTask :=
  s ← date_iso (startMs b); e ← date_iso (endMs b); d ← date_iso (dueMs b);
  Ok {| rt_plannedStartUtc := s; rt_plannedEndUtc := e; rt_dueAtUtc := d |}.

Definition resolved_tasks (memo : gmap string Bar) (tasks : list TaskSpec)
    : result RangeError (gmap string ResolvedTask) :=
  foldl (λ acc t, m ← acc; r ← resolved_task (memo !! t_key t ?? no_window); Ok (<[t_key t := r]> m))
    (Ok ∅) tasks.

Definition resolveSchedule (now : Z) (spec : WorkflowSpec) (opts : ResolveOptions)
    : result RangeError ResolveResult :=
  let tasks := w_tasks spec in
  let '(memo, warnings) := resolve_all (resolve_env now spec opts) tasks in
  let fullMemo := recompute_all tasks memo in
  let filteredWarnings := List.filter
    (λ w, negb ((rw_code w ≟ "UNSCHEDULED_DEFAULTED_TO_RELEASE") &&
                bool_decide (is_Some (childrenByParent tasks !! rw_taskKey w)))) warnings in
  m ← resolved_tasks fullMemo tasks;
  Ok {| rr_tasks := m; rr_warnings := filteredWarnings |}.

(** Pinned tasks keep the due instant they had before the change. *)
Definition frozen_before (tasks : list TaskSpec) (before : gmap string ResolvedTask) : gmap string FrozenDue :=
  foldl (λ m t, match t_pinned t, before !! t_key t with
                | Some true, Some r => <[t_key t := FrozenAt (rt_dueAtUtc r)]> m
                | _, _ => m
                end) ∅ tasks.

Definition cascade_entry (tasks : list TaskSpec) (before after : gmap string ResolvedTask) (t : TaskSpec)
    : list CascadeDiffEntry :=
  if t_pinned t ?? false then []
  else if bool_decide (is_Some (childrenByParent tasks !! t_key t)) then []
  else match before !! t_key t, after !! t_key t with
       | Some b, Some a =>
           let oldDue := rt_dueAtUtc b in
           let newDue := rt_dueAtUtc a in
           if negb (oldDue ≟ "") && negb (newDue ≟ "") && negb (oldDue ≟ newDue)
           then [{| cd_taskKey := t_key t; cd_oldDueAtUtc := oldDue; cd_newDueAtUtc := newDue |}]
           else []
       | _, _ => []
       end.

(** [computeCascadeDiff]: the two resolutions read the clock at [now] and [now']. *)
Definition computeCascadeDiff (now now' : Z) (spec : WorkflowSpec) (change : CascadeChange)
    : result RangeError (list CascadeDiffEntry) :=
  before ← resolveSchedule now spec no_options;
  after ← resolveSchedule now' spec
    {| ro_targetAtUtc := cc_targetAtUtc change;
       ro_frozenDueAt := frozen_before (w_tasks spec) (rr_tasks before) |};
  Ok (concat (map (cascade_entry (w_tasks spec) (rr_tasks before) (rr_tasks after)) (w_tasks spec))).

(** ** The main loop against a reference *)

Definition schedule_of (env : ResolveEnv) (k : string) : option ScheduleSpec :=
  re_byKey env !! k ≫= t_schedule.

Definition zone_of (env : ResolveEnv) (k : string) : string := tzOf (re_spec env) (schedule_of env k).

(** [resolves env n k b]: the bar of [k], read off the spec through an anchor
    chain of [n] tasks that ends at the target, an absolute date, an
    unscheduled task or a frozen one. *)
Inductive resolves (env : ResolveEnv) : nat → string → Bar → Prop :=
  | res_frozen k f : re_frozen env !! k = Some f → resolves env 0 k (frozen_bar f)
  | res_unscheduled k :
      re_frozen env !! k = None → schedule_of env k = None →
      resolves env 0 k (applyBar (re_targetMs env) None (zone_of env k))
  | res_absolute k a :
      re_frozen env !! k = None → schedule_of env k = Some (Absolute a) →
      resolves env 0 k (applyBar (parseInstantMs (abs_at a) (zone_of env k)) (Some (Absolute a)) (zone_of env k))
  | res_target k r :
      re_frozen env !! k = None → schedule_of env k = Some (Relative r) → rel_anchor r = TARGET_ANCHOR →
      resolves env 0 k (applyBar (relative_instant k r (zone_of env k) (re_targetMs env)).1
                          (Some (Relative r)) (zone_of env k))
  | res_anchor n k r b :
      re_frozen env !! k = None → schedule_of env k = Some (Relative r) → rel_anchor r ≠ TARGET_ANCHOR →
      resolves env n (rel_anchor r) b →
      resolves env (S n) k (applyBar (relative_instant k r (zone_of env k) (dueMs b)).1
                              (Some (Relative r)) (zone_of env k)).

Lemma resolves_det env n m k b b' : resolves env n k b → resolves env m k b' → n = m ∧ b = b'.
Proof.
  intros Hr. revert m b'. induction Hr as [| | | |n k r b Hf Hs Ha Hb IH]; intros m b' Hr'.
  all: inversion Hr' as [| | | |? ? ? ? ? ? ? Hb']; simplify_eq; try done.
  by apply IH in Hb' as [-> ->].
Qed.

Definition memo_ok (env : ResolveEnv) (memo : gmap string Bar) : Prop :=
  ∀ k b, memo !! k = Some b → ∃ n, resolves env n k b.

Lemma memo_ok_insert env memo n k b :
  memo_ok env memo → resolves env n k b → memo_ok env (<[k := b]> memo).
Proof.
  intros Hm Hb k' b'. destruct (decide (k' = k)) as [->|Hne].
  - rewrite lookup_insert_eq. intros [= <-]. by exists n.
  - rewrite lookup_insert_ne by done. apply Hm.
Qed.

(** The keys on the stack have longer chains than [k], are distinct, and are
    tasks; with fuel for the tasks that are not on it. *)
Definition stack_ok env (n : nat) (stack : list string) (fuel : nat) : Prop :=
  (∀ s, s ∈ stack → ∃ m b, resolves env m s b ∧ (n < m)%nat) ∧
  NoDup stack ∧ (∀ s, s ∈ stack → is_Some (re_byKey env !! s)) ∧
  (size (re_byKey env) <= length stack + fuel)%nat.

Lemma stack_ok_size env n stack fuel : stack_ok env n stack fuel → (length stack <= size (re_byKey env))%nat.
Proof.
  intros (_ & Hn & Hk & _). rewrite <- size_dom, <- (size_list_to_set (C := gset string) stack) by done.
  apply subseteq_size. intros s Hs. apply elem_of_dom, Hk. by apply elem_of_list_to_set in Hs.
Qed.

Lemma stack_ok_push env n k r b stack fuel :
  stack_ok env (S n) stack (S fuel) → schedule_of env k = Some (Relative r) → k ∉ stack →
  resolves env (S n) k b → stack_ok env n (k :: stack) fuel.
Proof.
  intros (H1 & H2 & H3 & H4) Hs Hk Hb. split_and!.
  - intros s [->|Hin]%elem_of_cons; [exists (S n), b; split; [done|lia]|].
    destruct (H1 s Hin) as (m & b' & Hm & Hlt). exists m, b'. split; [done|lia].
  - by constructor.
  - intros s [->|Hin]%elem_of_cons; [|by apply H3]. unfold schedule_of in Hs.
    by destruct (re_byKey env !! k).
  - cbn. lia.
Qed.

Lemma stack_ok_fuel env n k r b stack fuel :
  stack_ok env (S n) stack fuel → schedule_of env k = Some (Relative r) → k ∉ stack →
  resolves env (S n) k b → fuel ≠ 0%nat.
Proof.
  intros Hok Hs Hk Hb ->. destruct Hok as (H1 & H2 & H3 & H4).
  assert (stack_ok env n (k :: stack) 0) as Hp.
  { eapply stack_ok_push; [|done|done|done]. split_and!; [done|done|done|lia]. }
  apply stack_ok_size in Hp. cbn in Hp. lia.
Qed.

Lemma stack_ok_not_in env n k b stack fuel : stack_ok env n stack fuel → resolves env n k b → k ∉ stack.
Proof.
  intros (Hst & _) Hb Hin. destruct (Hst k Hin) as (m & b' & Hr & Hlt).
  destruct (resolves_det _ _ _ _ _ _ Hb Hr). lia.
Qed.

Lemma resolveDueMs_eq fuel env key stack st :
  resolveDueMs fuel env key stack st =
    resolve_step (λ anchor st', match fuel with
                                | O => (re_targetMs env, st')
                                | S f => resolveDueMs f env anchor (key :: stack) st'
                                end) env key stack st.
Proof. by destruct fuel. Qed.

Lemma resolveDueMs_spec env n k b fuel stack st :
  resolves env n k b → memo_ok env st.1 → stack_ok env n stack fuel →
  let '(due, st') := resolveDueMs fuel env k stack st in
  due = dueMs b ∧ memo_ok env st'.1 ∧ st'.1 !! k = Some b ∧ st.1 ⊆ st'.1.
Proof.
  revert k b fuel stack st. induction n as [n IH] using lt_wf_ind.
  intros k b fuel stack [memo ws] Hb Hm Hst. cbn [fst] in Hm.
  pose proof (stack_ok_not_in _ _ _ _ _ _ Hst Hb) as Hin.
  rewrite resolveDueMs_eq. unfold resolve_step. destruct (memo !! k) as [b1|] eqn:Ek.
  { destruct (Hm k b1 Ek) as (m & Hb1). by destruct (resolves_det _ _ _ _ _ _ Hb Hb1) as [_ ->]. }
  rewrite (bool_decide_eq_false_2 _ Hin).
  assert (Hfin : ∀ memo', memo_ok env memo' → memo ⊆ memo' → memo' !! k = None →
            memo_ok env (<[k := b]> memo') ∧ <[k := b]> memo' !! k = Some b ∧ memo ⊆ <[k := b]> memo').
  { intros memo' Hm' Hsub Hk'. split_and!; [by eapply memo_ok_insert|by rewrite lookup_insert_eq|].
    etrans; [done|]. by apply insert_subseteq. }
  inversion Hb as [? f Hf|? Hf Hs|? a Hf Hs|? r Hf Hs Ha|n' ? r ba Hf Hs Ha Hba]; subst;
    rewrite Hf; unfold schedule_of, zone_of, schedule_of in *; rewrite ?Hs in *; cbn [fst snd].
  1-3: split; [done|]; by apply Hfin.
  - rewrite bool_decide_eq_true_2 by done. destruct (relative_instant _ _ _ _) as [ms w].
    cbn [fst snd]. split; [done|]. by apply Hfin.
  - rewrite bool_decide_eq_false_2 by done. destruct fuel as [|fuel].
    { by destruct (stack_ok_fuel _ _ _ _ _ _ _ Hst Hs Hin Hb). }
    pose proof (stack_ok_push _ _ _ _ _ _ _ Hst Hs Hin Hb) as Hst'.
    specialize (IH n' ltac:(lia) (rel_anchor r) ba fuel (k :: stack) (memo, ws) Hba Hm Hst').
    destruct (resolveDueMs _ _ _ _ _) as [due [memo' ws']] eqn:Er. cbn [fst snd] in *.
    destruct IH as (-> & Hm' & _ & Hsub).
    destruct (relative_instant _ _ _ _) as [ms w] eqn:Ei. cbn [fst snd] in *.
    split; [done|].
    destruct (memo' !! k) as [b2|] eqn:Ek'; [|by apply Hfin].
    destruct (Hm' k b2 Ek') as (m & Hb2). destruct (resolves_det _ _ _ _ _ _ Hb Hb2) as [_ <-].
    rewrite (insert_id memo') by done. split_and!; [done|done|done].
Qed.


(** The fuel of the chain: as many calls as there are tasks off the stack. *)
Lemma resolveDueMs_fuel env fuel key stack st :
  NoDup stack → (∀ s, s ∈ stack → is_Some (re_byKey env !! s)) →
  (size (re_byKey env) <= length stack + fuel)%nat →
  resolveDueMs fuel env key stack st = resolveDueMs (S fuel) env key stack st.
Proof.
  revert key stack st. induction fuel as [|fuel IH]; intros key stack st Hn Hk Hsz; rewrite !resolveDueMs_eq;
    unfold resolve_step; destruct st as [memo ws]; destruct (memo !! key); try done;
    destruct (re_frozen env !! key); try done; destruct (bool_decide (key ∈ stack)) eqn:Hin; bprop; try done.
  all: destruct (re_byKey env !! key) as [t|] eqn:Et; cbn; [|done].
  all: destruct (t_schedule t) as [[a|r]|]; try done.
  all: assert (Hk' : ∀ s, s ∈ key :: stack → is_Some (re_byKey env !! s))
         by (intros s [->|Hs]%elem_of_cons; [by eexists|by apply Hk]).
  - exfalso. assert (length (key :: stack) <= size (re_byKey env))%nat; [|cbn in *; lia].
    rewrite <- size_dom, <- (size_list_to_set (C := gset string) (key :: stack)) by (by constructor).
    apply subseteq_size. intros s Hs. apply elem_of_dom, Hk'. by apply elem_of_list_to_set in Hs.
  - rewrite IH; [done|by constructor|done|cbn; lia].
Qed.

Lemma tasks_by_key_dom tasks k : is_Some (tasks_by_key tasks !! k) ↔ k ∈ map t_key tasks.
Proof.
  unfold tasks_by_key. induction tasks as [|t l IH] using rev_ind; cbn.
  - rewrite lookup_empty. split; [by intros [? ?]|by intros ?%elem_of_nil].
  - rewrite foldl_snoc, map_app, elem_of_app. cbn [map]. rewrite list_elem_of_singleton.
    destruct (decide (k = t_key t)) as [->|Hk].
    + rewrite lookup_insert_eq. split; [by right|by eexists].
    + rewrite lookup_insert_ne by done. rewrite IH. naive_solver.
Qed.

Lemma tasks_by_key_size tasks : (size (tasks_by_key tasks) <= length tasks)%nat.
Proof.
  unfold tasks_by_key. induction tasks as [|t l IH] using rev_ind; [done|].
  rewrite foldl_snoc, length_app. cbn [length]. set (m := foldl _ _ l) in *. destruct (m !! t_key t) eqn:E.
  - rewrite map_size_insert_Some by (by eexists). lia.
  - rewrite map_size_insert_None by done. lia.
Qed.

Lemma stack_ok_nil env n tasks : re_byKey env = tasks_by_key tasks → stack_ok env n [] (length tasks).
Proof.
  intros E. split_and!; [by intros ? ?%elem_of_nil|constructor|by intros ? ?%elem_of_nil|].
  rewrite E. cbn. apply tasks_by_key_size.
Qed.

(** Every task's anchor chain ends. *)
Definition anchors_resolve (env : ResolveEnv) : Prop :=
  ∀ t, t ∈ w_tasks (re_spec env) → ∃ n b, resolves env n (t_key t) b.

Lemma resolve_all_spec now spec opts :
  let env := resolve_env now spec opts in
  anchors_resolve env →
  let memo := (resolve_all env (w_tasks spec)).1 in
  memo_ok env memo ∧ ∀ t, t ∈ w_tasks spec → is_Some (memo !! t_key t).
Proof.
  cbv zeta. intros Hres. unfold resolve_all.
  assert (Hl : ∀ l, l ⊆ w_tasks spec →
    let memo := (foldl (λ st t, (resolveDueMs (length (w_tasks spec)) (resolve_env now spec opts) (t_key t) [] st).2)
                   (∅, []) l).1 in
    memo_ok (resolve_env now spec opts) memo ∧ ∀ t, t ∈ l → is_Some (memo !! t_key t)).
  { intros l. induction l as [|t l IH] using rev_ind; intros Hsub; cbv zeta.
    - split; [|by intros ? ?%elem_of_nil]. intros k b. cbn. by rewrite lookup_empty.
    - rewrite foldl_snoc. destruct IH as [Hm Hd]; [set_solver|].
      set (st := foldl _ _ l) in *. destruct (Hres t) as (n & b & Hb); [cbn; set_solver|].
      pose proof (resolveDueMs_spec _ n (t_key t) b (length (w_tasks spec)) [] st Hb Hm) as Hs.
      destruct (resolveDueMs _ _ _ _ _) as [due st']. cbn [snd].
      destruct Hs as (_ & Hm' & Hk & Hsub'); [by apply stack_ok_nil|]. split; [done|].
      intros t' [Ht|Ht%list_elem_of_singleton]%elem_of_app; [|subst; by eexists].
      destruct (Hd t' Ht) as [b' Hb']. exists b'. by eapply lookup_weaken. }
  by apply Hl.
Qed.

(** ** Leaves keep the bar of the main loop *)

Lemma recomputeParent_eq fuel children key st :
  recomputeParent fuel children key st =
  let '(parentDone, memo) := st in
  if bool_decide (key ∈ parentDone) then st
  else
    match children !! key with
    | None | Some [] => (key :: parentDone, memo)
    | Some cs =>
        let '(st', window) :=
          foldl (λ (acc : (list string * gmap string Bar) * Bar) c,
                   let st1 := match fuel with
                              | O => acc.1
                              | S f => recomputeParent f children c acc.1
                              end in
                   (st1, match st1.2 !! c with Some cb => widen acc.2 cb | None => acc.2 end))
            ((key :: parentDone, memo), no_window) cs in
        (st'.1, match startMs window with Some _ => <[key := window]> st'.2 | None => st'.2 end)
    end.
Proof. by destruct fuel, st. Qed.

(** Only the keys that have children are rewritten. *)
Lemma recomputeParent_leaf fuel children key st k :
  children !! k = None → (recomputeParent fuel children key st).2 !! k = st.2 !! k.
Proof.
  intros Hk. revert key st. induction fuel as [|fuel IH]; intros key [visited memo]; rewrite recomputeParent_eq;
    cbn beta iota; destruct (bool_decide (key ∈ visited)); [done| |done|];
    destruct (children !! key) as [[|c cs]|] eqn:E; [done| |done|done| |done].
  all: set (F := foldl _ _ (c :: cs)).
  all: assert (HF : F.1.2 !! k = memo !! k).
  1, 3: unfold F; generalize (c :: cs); intros l; induction l as [|x l IHl] using rev_ind; [done|];
    rewrite foldl_snoc; cbn [fst snd]; rewrite ?IH; done.
  all: destruct F as [st' w]; cbn [fst snd] in *; destruct (startMs w); [|done];
    rewrite lookup_insert_ne by congruence; done.
Qed.

Lemma recompute_all_leaf tasks memo k :
  childrenByParent tasks !! k = None → recompute_all tasks memo !! k = memo !! k.
Proof.
  intros Hk. unfold recompute_all. set (f := λ st t, recomputeParent _ _ _ _).
  assert (Hl : ∀ l, (foldl f ([], memo) l).2 !! k = memo !! k); [|apply Hl].
  intros l. induction l as [|t l IH] using rev_ind; [done|].
  rewrite foldl_snoc. unfold f at 1. by rewrite recomputeParent_leaf.
Qed.

Lemma resolved_tasks_Ok memo tasks m :
  resolved_tasks memo tasks = Ok m →
  (∀ k, is_Some (m !! k) ↔ k ∈ map t_key tasks) ∧
  ∀ k r, m !! k = Some r → resolved_task (memo !! k ?? no_window) = Ok r.
Proof.
  unfold resolved_tasks. revert m. induction tasks as [|t l IH] using rev_ind; intros m.
  - cbn. intros [= <-]. setoid_rewrite lookup_empty. split; [|done].
    intros k. split; [by intros [? ?]|by intros ?%elem_of_nil].
  - rewrite foldl_snoc. intros Hm. apply result_bind_Ok in Hm as (m0 & Hm0 & Hm).
    apply result_bind_Ok in Hm as (r0 & Hr0 & [= <-]). destruct (IH m0 Hm0) as [Hd Hv]. split.
    + intros k. rewrite map_app, elem_of_app. cbn [map]. rewrite list_elem_of_singleton.
      destruct (decide (k = t_key t)) as [->|Hk].
      * rewrite lookup_insert_eq. split; [by right|by eexists].
      * rewrite lookup_insert_ne by done. rewrite Hd. naive_solver.
    + intros k r. destruct (decide (k = t_key t)) as [->|Hk].
      * rewrite lookup_insert_eq. by intros [= <-].
      * rewrite lookup_insert_ne by done. apply Hv.
Qed.

Lemma date_iso_Ok ms s : date_iso ms = Ok s ↔ ∃ z, ms = Some z ∧ Z.abs z <= max_time ∧ s = iso_text z.
Proof.
  unfold date_iso. destruct ms as [z|]; cbn; [|split; [done|by intros (? & ? & _)]].
  unfold time_clip. destruct (Z.abs z <=? max_time) eqn:E; bprop; cbn.
  - split; [intros [= <-]; by exists z|]. by intros (? & [= <-] & _ & ->).
  - split; [done|]. intros (? & [= <-] & ? & _). lia.
Qed.

Lemma resolved_task_Ok b r :
  resolved_task b = Ok r ↔
    date_iso (startMs b) = Ok (rt_plannedStartUtc r) ∧ date_iso (endMs b) = Ok (rt_plannedEndUtc r) ∧
    date_iso (dueMs b) = Ok (rt_dueAtUtc r).
Proof.
  unfold resolved_task. rewrite result_bind_Ok. split.
  - intros (s & Hs & Hm). apply result_bind_Ok in Hm as (e & He & Hm).
    apply result_bind_Ok in Hm as (d & Hd & [= <-]). done.
  - intros (Hs & He & Hd). exists (rt_plannedStartUtc r). rewrite Hs. split; [done|].
    rewrite He. cbn. rewrite Hd. cbn. by destruct r.
Qed.

Lemma resolveSchedule_Ok now spec opts res :
  resolveSchedule now spec opts = Ok res →
  resolved_tasks (recompute_all (w_tasks spec) (resolve_all (resolve_env now spec opts) (w_tasks spec)).1)
    (w_tasks spec) = Ok (rr_tasks res).
Proof.
  unfold resolveSchedule. destruct (resolve_all _ _) as [memo ws]. cbn [fst].
  intros Hm. apply result_bind_Ok in Hm as (m & Hm & [= <-]). done.
Qed.

Lemma resolveSchedule_dom now spec opts res k :
  resolveSchedule now spec opts = Ok res → is_Some (rr_tasks res !! k) ↔ k ∈ map t_key (w_tasks spec).
Proof. intros Hr%resolveSchedule_Ok%resolved_tasks_Ok. by destruct Hr as [Hd _]. Qed.

Lemma resolveSchedule_leaf now spec opts res k r :
  resolveSchedule now spec opts = Ok res → anchors_resolve (resolve_env now spec opts) →
  childrenByParent (w_tasks spec) !! k = None → rr_tasks res !! k = Some r →
  ∃ n b, resolves (resolve_env now spec opts) n k b ∧ resolved_task b = Ok r.
Proof.
  intros Hr Ha Hk Hkr. pose proof (proj1 (resolveSchedule_dom _ _ _ _ k Hr) ltac:(by eexists)) as Hin.
  apply resolveSchedule_Ok, resolved_tasks_Ok in Hr as [_ Hv]. specialize (Hv _ _ Hkr).
  rewrite recompute_all_leaf in Hv by done.
  destruct (resolve_all_spec now spec opts Ha) as [Hm Hd].
  apply list_elem_of_In, in_map_iff in Hin as (t & <- & Ht%list_elem_of_In).
  destruct (Hd t Ht) as [b Hb]. rewrite Hb in Hv. cbn in Hv.
  destruct (Hm _ _ Hb) as (n & Hn). by exists n, b.
Qed.

(** ** Cascades *)

Lemma tasks_by_key_lookup tasks t :
  NoDup (map t_key tasks) → t ∈ tasks → tasks_by_key tasks !! t_key t = Some t.
Proof.
  unfold tasks_by_key. induction tasks as [|x l IH] using rev_ind; intros Hn Ht; [by apply elem_of_nil in Ht|].
  rewrite foldl_snoc. rewrite map_app in Hn. cbn [map] in Hn. apply NoDup_app in Hn as (Hn & Hd & _).
  apply elem_of_app in Ht as [Ht| ->%list_elem_of_singleton]; [|by rewrite lookup_insert_eq].
  rewrite lookup_insert_ne; [by apply IH|]. intros E. apply (Hd (t_key t)).
  - apply list_elem_of_In, in_map, list_elem_of_In, Ht.
  - rewrite E. left.
Qed.

Lemma frozen_before_other tasks before k :
  k ∉ map t_key tasks → frozen_before tasks before !! k = None.
Proof.
  unfold frozen_before. induction tasks as [|x l IH] using rev_ind; [done|].
  rewrite foldl_snoc, map_app, elem_of_app. cbn [map]. rewrite list_elem_of_singleton. intros Hk.
  destruct (t_pinned x) as [[]|]; [destruct (before !! t_key x)| |]; try (apply IH; tauto).
  rewrite lookup_insert_ne by (intros E; apply Hk; right; done). apply IH. tauto.
Qed.

Lemma frozen_before_lookup tasks before t :
  NoDup (map t_key tasks) → t ∈ tasks →
  frozen_before tasks before !! t_key t =
    match t_pinned t, before !! t_key t with
    | Some true, Some r => Some (FrozenAt (rt_dueAtUtc r))
    | _, _ => None
    end.
Proof.
  unfold frozen_before. induction tasks as [|x l IH] using rev_ind; intros Hn Ht; [by apply elem_of_nil in Ht|].
  rewrite foldl_snoc. rewrite map_app in Hn. cbn [map] in Hn. apply NoDup_app in Hn as (Hn & Hd & _).
  assert (Hx : t_key x ∉ map t_key l) by (intros Hx; apply (Hd _ Hx); left).
  apply elem_of_app in Ht as [Ht| ->%list_elem_of_singleton].
  - rewrite <- (IH Hn Ht).
    assert (t_key x ≠ t_key t).
    { intros E. apply Hx. rewrite E. apply list_elem_of_In, in_map, list_elem_of_In, Ht. }
    destruct (t_pinned x) as [[]|]; [destruct (before !! t_key x)| |]; try done. by rewrite lookup_insert_ne.
  - pose proof (frozen_before_other l before _ Hx) as Hnone. unfold frozen_before in Hnone.
    destruct (t_pinned x) as [[]|]; [|done|done].
    destruct (before !! t_key x); [by rewrite lookup_insert_eq|done].
Qed.

(** The anchor chain of [k] passes a pinned task or ends at an absolute date. *)
Inductive fixed_chain (tasks : list TaskSpec) : string → Prop :=
  | fixed_pinned t : t ∈ tasks → t_pinned t = Some true → fixed_chain tasks (t_key t)
  | fixed_absolute t a : t ∈ tasks → t_schedule t = Some (Absolute a) → fixed_chain tasks (t_key t)
  | fixed_anchor t r : t ∈ tasks → t_schedule t = Some (Relative r) → rel_anchor r ≠ TARGET_ANCHOR →
      fixed_chain tasks (rel_anchor r) → fixed_chain tasks (t_key t).

Definition cascade_options spec (change : CascadeChange) (before : ResolveResult) : ResolveOptions :=
  {| ro_targetAtUtc := cc_targetAtUtc change;
     ro_frozenDueAt := frozen_before (w_tasks spec) (rr_tasks before) |}.

Section cascade.
Context (now now' : Z) (spec : WorkflowSpec) (change : CascadeChange) (before : ResolveResult).
Let tasks := w_tasks spec.
Let env := resolve_env now spec no_options.
Let env' := resolve_env now' spec (cascade_options spec change before).
Hypothesis Hbefore : resolveSchedule now spec no_options = Ok before.
Hypothesis Hanchors : anchors_resolve env.
Hypothesis Hkeys : NoDup (map t_key tasks).

(** The frozen set cuts chains, it never extends one. *)
Lemma resolves_after n k b : resolves env n k b → ∃ m b', resolves env' m k b'.
Proof.
  intros Hb. induction Hb as [k f Hf|k Hf Hs|k a Hf Hs|k r Hf Hs Ha|n k r b Hf Hs Ha Hb IH].
  1: by change (re_frozen env) with (∅ : gmap string FrozenDue) in Hf; rewrite lookup_empty in Hf.
  all: destruct (re_frozen env' !! k) as [f|] eqn:Ef; [by do 2 eexists; apply res_frozen|].
  - do 2 eexists. by apply res_unscheduled.
  - do 2 eexists. by apply res_absolute.
  - do 2 eexists. by apply res_target.
  - destruct IH as (m & b' & Hb'). do 2 eexists. by eapply res_anchor.
Qed.

Lemma anchors_resolve_after : anchors_resolve env'.
Proof. intros t Ht. destruct (Hanchors t Ht) as (n & b & Hb). by eapply resolves_after. Qed.

Hypothesis Hpinned : ∀ t, t ∈ tasks → t_pinned t = Some true → childrenByParent tasks !! t_key t = None.

Lemma frozen_pinned t :
  t ∈ tasks → t_pinned t = Some true →
  ∃ n b z, resolves env n (t_key t) b ∧ dueMs b = Some z ∧
    resolves env' 0 (t_key t) {| startMs := Some z; endMs := Some z; dueMs := Some z |}.
Proof.
  intros Ht Hp. destruct (proj2 (resolveSchedule_dom _ _ _ _ (t_key t) Hbefore)) as [r Hr].
  { apply list_elem_of_In, in_map, list_elem_of_In, Ht. }
  destruct (resolveSchedule_leaf _ _ _ _ _ _ Hbefore Hanchors (Hpinned t Ht Hp) Hr) as (n & b & Hb & Hres).
  apply resolved_task_Ok in Hres as (_ & _ & Hd). apply date_iso_Ok in Hd as (z & Ez & Hz & Ed).
  exists n, b, z. split; [done|]. split; [done|].
  assert (Hf : re_frozen env' !! t_key t = Some (FrozenAt (rt_dueAtUtc r))).
  { cbn. rewrite frozen_before_lookup by done. by rewrite Hp, Hr. }
  apply res_frozen in Hf. cbn in Hf. by rewrite Ed, Date_parse_toISO in Hf.
Qed.

Lemma not_frozen t : t ∈ tasks → t_pinned t ≠ Some true → re_frozen env' !! t_key t = None.
Proof.
  intros Ht Hp. cbn. rewrite frozen_before_lookup by done.
  by destruct (t_pinned t) as [[]|].
Qed.

Lemma schedule_before t : t ∈ tasks → schedule_of env (t_key t) = t_schedule t.
Proof. intros Ht. unfold schedule_of. cbn. by rewrite tasks_by_key_lookup. Qed.

Lemma schedule_after t : t ∈ tasks → schedule_of env' (t_key t) = t_schedule t.
Proof. intros Ht. unfold schedule_of. cbn. by rewrite tasks_by_key_lookup. Qed.

(** A fixed chain gives the same due instant before and after. *)
Lemma fixed_due k : fixed_chain tasks k →
  ∃ n b m b', resolves env n k b ∧ resolves env' m k b' ∧ dueMs b = dueMs b'.
Proof.
  intros Hk.
  assert (Hpin : ∀ t, t ∈ tasks → t_pinned t = Some true →
    ∃ n b m b', resolves env n (t_key t) b ∧ resolves env' m (t_key t) b' ∧ dueMs b = dueMs b').
  { intros t Ht Hp. destruct (frozen_pinned t Ht Hp) as (n & b & z & Hb & Ez & Hf). by do 4 eexists. }
  induction Hk as [t Ht Hp|t a Ht Hs|t r Ht Hs Ha Hc IH]; [by apply Hpin| |];
    (destruct (decide (t_pinned t = Some true)) as [Hp|Hp]; [by apply Hpin|]);
    pose proof (not_frozen t Ht Hp) as Hf.
  - exists 0%nat. eexists. exists 0%nat. eexists.
    split; [apply res_absolute; [apply lookup_empty|by rewrite schedule_before]|].
    split; [apply res_absolute; [done|by rewrite schedule_after]|].
    unfold zone_of. by rewrite schedule_before, schedule_after.
  - destruct IH as (n & b & m & b' & Hb & Hb' & Ed). exists (S n). eexists. exists (S m). eexists.
    split; [eapply res_anchor; [apply lookup_empty|by rewrite schedule_before|done|done]|].
    split; [eapply res_anchor; [done|by rewrite schedule_after|done|done]|].
    unfold zone_of. rewrite schedule_before, schedule_after by done. cbn [re_spec]. by rewrite Ed.
Qed.
End cascade.

Lemma cascade_diff_Ok now now' spec change diff :
  computeCascadeDiff now now' spec change = Ok diff ↔
  ∃ before after, resolveSchedule now spec no_options = Ok before ∧
    resolveSchedule now' spec (cascade_options spec change before) = Ok after ∧
    diff = concat (map (cascade_entry (w_tasks spec) (rr_tasks before) (rr_tasks after)) (w_tasks spec)).
Proof.
  unfold computeCascadeDiff. rewrite result_bind_Ok. split.
  - intros (before & Hb & Hd). apply result_bind_Ok in Hd as (after & Ha & [= <-]). by exists before, after.
  - intros (before & after & Hb & Ha & ->). exists before. split; [done|].
    fold (cascade_options spec change before). by rewrite Ha.
Qed.

Lemma iso_text_nonempty z : iso_text z ≠ "".
Proof.
  unfold iso_text. destruct (civil_from_days _) as [[y m] d]. unfold iso_year.
  destruct ((0 <=? y) && (y <=? 9999)); [|by destruct (y <? 0)].
  cbn [digits]. by rewrite !str_app_assoc.
Qed.

Lemma cascade_entry_elem tasks before after t e :
  e ∈ cascade_entry tasks before after t ↔
  t_pinned t ≠ Some true ∧ childrenByParent tasks !! t_key t = None ∧
  ∃ b a, before !! t_key t = Some b ∧ after !! t_key t = Some a ∧
    rt_dueAtUtc b ≠ "" ∧ rt_dueAtUtc a ≠ "" ∧ rt_dueAtUtc b ≠ rt_dueAtUtc a ∧
    e = {| cd_taskKey := t_key t; cd_oldDueAtUtc := rt_dueAtUtc b; cd_newDueAtUtc := rt_dueAtUtc a |}.
Proof.
  unfold cascade_entry. destruct (t_pinned t) as [[]|]; cbn.
  1: { split; [by intros ?%elem_of_nil|by intros [? _]]. }
  all: destruct (childrenByParent tasks !! t_key t) as [l|] eqn:El;
    [rewrite bool_decide_eq_true_2 by (by eexists); split; [by intros ?%elem_of_nil|by intros (_ & ? & _)]|].
  all: rewrite bool_decide_eq_false_2 by (by intros [? ?]).
  all: destruct (before !! t_key t) as [b|], (after !! t_key t) as [a|];
    try (split; [by intros ?%elem_of_nil|by intros (_ & _ & ? & ? & ? & ? & _)]).
  all: destruct (rt_dueAtUtc b ≟ "") eqn:E1, (rt_dueAtUtc a ≟ "") eqn:E2,
         (rt_dueAtUtc b ≟ rt_dueAtUtc a) eqn:E3; bprop; cbn.
  all: try (split; [by intros ?%elem_of_nil|intros (_ & _ & ? & ? & [= <-] & [= <-] & ? & ? & ? & _); congruence]).
  all: rewrite list_elem_of_singleton; split; [intros ->; split_and!; try done; by exists b, a|].
  all: by intros (_ & _ & ? & ? & [= <-] & [= <-] & _ & _ & _ & ->).
Qed.

(** ** Windows of summary parents *)

Definition kids (children : gmap string (list string)) (k : string) : list string := children !! k ?? [].

(** The window the children's bars span. *)
Definition span_window (memo : gmap string Bar) (cs : list string) : Bar :=
  foldl (λ w c, match memo !! c with Some cb => widen w cb | None => w end) no_window cs.

(** What the pass owes to [k]: a leaf keeps its bar, a parent has the window
    of its children, unless no child has a start. *)
Definition window_eq children (memo0 memo : gmap string Bar) (k : string) : Prop :=
  memo !! k =
    match kids children k with
    | [] => memo0 !! k
    | cs => match startMs (span_window memo cs) with
            | Some _ => Some (span_window memo cs)
            | None => memo0 !! k
            end
    end.

Section windows.
Context (children : gmap string (list string)) (keys : list string) (memo0 : gmap string Bar).
Hypothesis Hkids : ∀ k c, c ∈ kids children k → c ∈ keys.

Definition below (k c : string) : Prop := rtc (λ a b, b ∈ kids children a) k c.

(** [P] are the keys in progress: visited, their windows not written yet. *)
Record pass_inv (P : list string) (st : list string * gmap string Bar) : Prop := {
  pi_done k : k ∈ st.1 → k ∉ P → window_eq children memo0 st.2 k ∧
              ∀ c, c ∈ kids children k → c ∈ st.1 ∧ c ∉ P;
  pi_rest k : k ∉ st.1 ∨ k ∈ P → st.2 !! k = memo0 !! k;
}.

Definition pass_step (st st' : list string * gmap string Bar) : Prop :=
  st.1 ⊆ st'.1 ∧ ∀ k, k ∈ st.1 → st'.2 !! k = st.2 !! k.

Lemma span_window_ext m m' cs :
  (∀ c, c ∈ cs → m !! c = m' !! c) → span_window m cs = span_window m' cs.
Proof.
  unfold span_window. generalize no_window. induction cs as [|c cs IH]; intros w Hc; [done|]. cbn.
  rewrite (Hc c) by left. apply IH. intros c' Hc'. apply Hc. by right.
Qed.

Lemma window_eq_ext m m' k :
  m !! k = m' !! k → (∀ c, c ∈ kids children k → m !! c = m' !! c) →
  window_eq children memo0 m k → window_eq children memo0 m' k.
Proof.
  unfold window_eq. intros Hk Hc. rewrite Hk. destruct (kids children k) as [|c cs] eqn:E; [done|].
  by rewrite (span_window_ext m m' (c :: cs)).
Qed.

(** Keys whose equation is settled stay settled when others are written. *)
Lemma pass_inv_insert P st k w :
  pass_inv (k :: P) st → k ∈ st.1 → k ∉ P → window_eq children memo0 (<[k := w]> st.2) k →
  (∀ c, c ∈ kids children k → c ∈ st.1 ∧ c ∉ k :: P) →
  pass_inv P (st.1, <[k := w]> st.2).
Proof.
  intros [Hd Hr] Hk HkP Hw Hc. split; cbn [fst snd].
  - intros k' Hk' HP'. destruct (decide (k' = k)) as [->|Hne].
    + split; [done|]. intros c Hc'. destruct (Hc c Hc') as [? ?]. set_solver.
    + destruct (Hd k' Hk') as [He Hcs]; [set_solver|]. split.
      * apply (window_eq_ext st.2); [by rewrite lookup_insert_ne| |done].
        intros c Hc'. destruct (Hcs c Hc') as [_ Hn]. rewrite lookup_insert_ne by set_solver. done.
      * intros c Hc'. destruct (Hcs c Hc') as [? ?]. set_solver.
  - intros k' Hk'. destruct (decide (k' = k)) as [->|Hne]; [tauto|]. rewrite lookup_insert_ne by done.
    apply Hr. set_solver.
Qed.

Lemma pass_inv_leave P st k :
  pass_inv (k :: P) st → k ∈ st.1 → k ∉ P → window_eq children memo0 st.2 k →
  (∀ c, c ∈ kids children k → c ∈ st.1 ∧ c ∉ k :: P) → pass_inv P st.
Proof.
  intros Hi Hk HkP Hw Hc. destruct st as [dn m]. cbn [fst snd] in *.
  destruct (m !! k) as [w|] eqn:E.
  - rewrite <- (insert_id m k w) by done. apply (pass_inv_insert P (dn, m) k w); cbn; try done.
    by rewrite insert_id.
  - destruct Hi as [Hd Hr]. split; cbn [fst snd] in *.
    + intros k' Hk' HP'. destruct (decide (k' = k)) as [->|Hne].
      * split; [done|]. intros c Hc'. destruct (Hc c Hc'). set_solver.
      * destruct (Hd k' Hk') as [He Hcs]; [set_solver|]. split; [done|].
        intros c Hc'. destruct (Hcs c Hc'). set_solver.
    + intros k' Hk'. apply Hr. set_solver.
Qed.

Definition pass_spec (fuel : nat) : Prop := ∀ key P st,
  key ∈ keys → (length (filter (λ k, k ∉ st.1) keys) <= fuel)%nat → pass_inv P st → P ⊆ st.1 →
  (∀ p, p ∈ P → ¬ below key p) → Acc (λ c k, c ∈ kids children k) key →
  let st' := recomputeParent fuel children key st in
  pass_inv P st' ∧ pass_step st st' ∧ key ∈ st'.1.

(** The loop over the children of [key], which is in progress. *)
Lemma pass_children fuel key P cs st w :
  pass_spec fuel → (∀ c, c ∈ cs → c ∈ kids children key) →
  (length (filter (λ k, k ∉ st.1) keys) <= fuel)%nat →
  pass_inv (key :: P) st → key :: P ⊆ st.1 →
  (∀ c p, c ∈ cs → p ∈ key :: P → ¬ below c p) →
  (∀ c, c ∈ cs → Acc (λ c k, c ∈ kids children k) c) →
  let '(st', w') := foldl (λ (acc : (list string * gmap string Bar) * Bar) c,
      let st1 := recomputeParent fuel children c acc.1 in
      (st1, match st1.2 !! c with Some cb => widen acc.2 cb | None => acc.2 end)) (st, w) cs in
  pass_inv (key :: P) st' ∧ pass_step st st' ∧ (∀ c, c ∈ cs → c ∈ st'.1) ∧
  w' = foldl (λ w c, match st'.2 !! c with Some cb => widen w cb | None => w end) w cs.
Proof.
  intros HIH. revert st w. induction cs as [|c cs IH]; intros st w Hin Hf Hi Hsub Hnb Hacc.
  { cbn. split_and!; [done|split; [done|done]|by intros ? ?%elem_of_nil|done]. }
  cbn [foldl]. cbn [fst snd].
  destruct (HIH c (key :: P) st) as (Hi1 & [Hs1 Hs1'] & Hc1).
  { eapply Hkids, Hin. left. } { done. } { done. } { done. }
  { intros p Hp. apply Hnb; [left|done]. } { apply Hacc. left. }
  set (st1 := recomputeParent fuel children c st) in *.
  set (w1 := match st1.2 !! c with Some cb => widen w cb | None => w end).
  specialize (IH st1 w1). destruct (foldl _ (st1, w1) cs) as [st2 w2].
  destruct IH as (Hi2 & [Hs2 Hs2'] & Hc2 & Hw2).
  { intros c' Hc'. apply Hin. by right. }
  { etrans; [|exact Hf]. clear - Hs1. induction keys as [|x l IHl]; [done|]. rewrite !filter_cons.
    destruct (decide (x ∉ st1.1)) as [H1|H1].
    - rewrite decide_True by (intros Hx; by apply H1, Hs1). cbn. lia.
    - destruct (decide (x ∉ st.1)); cbn; lia. }
  { done. } { set_solver. } { intros c' p Hc'. apply Hnb. by right. } { intros c' Hc'. apply Hacc. by right. }
  split_and!; [done| | |].
  - split; [set_solver|]. intros k Hk. rewrite Hs2' by set_solver. by apply Hs1'.
  - intros c' [->|Hc']%elem_of_cons; [by apply Hs2|by apply Hc2].
  - rewrite Hw2. cbn [foldl]. f_equal. unfold w1. by rewrite (Hs2' c Hc1).
Qed.

Lemma recomputeParent_pass fuel : pass_spec fuel.
Proof.
  induction fuel as [|fuel IH]; intros key P [dn m] Hkey Hf Hi Hsub Hnb Hacc; cbn zeta;
    rewrite recomputeParent_eq; cbn beta iota; destruct (bool_decide (key ∈ dn)) eqn:Ein; bprop;
    try (split_and!; [done|split; [done|done]|done]).
  { exfalso. assert (Hx : key ∈ filter (λ k, k ∉ dn) keys) by (by apply list_elem_of_filter).
    cbn [fst] in Hf. destruct (filter (λ k, k ∉ dn) keys); [by apply elem_of_nil in Hx|cbn in Hf; lia]. }
  assert (HkP : key ∉ P) by (intros Hk; by apply Ein, Hsub).
  assert (Hi0 : pass_inv (key :: P) (key :: dn, m)).
  { destruct Hi as [Hd Hr]. split; cbn [fst snd] in *.
    - intros k Hk HP. destruct (Hd k) as [? Hcs]; [set_solver|set_solver|]. split; [done|].
      intros c Hc. destruct (Hcs c Hc). split; [by right|]. set_solver.
    - intros k Hk. apply Hr. set_solver. }
  assert (Hm0 : m !! key = memo0 !! key) by (apply Hi; cbn; tauto).
  assert (Hleaf : kids children key = [] →
            pass_inv P (key :: dn, m) ∧ pass_step (dn, m) (key :: dn, m) ∧ key ∈ (key :: dn, m).1).
  { intros E. split_and!; [|split; cbn; [set_solver|done]|left].
    apply (pass_inv_leave P (key :: dn, m) key); cbn; [done|left|done| |].
    - unfold window_eq. by rewrite E.
    - rewrite E. by intros ? ?%elem_of_nil. }
  destruct (children !! key) as [[|c cs]|] eqn:Ech; [by apply Hleaf; unfold kids; rewrite Ech| |by apply Hleaf; unfold kids; rewrite Ech].
  clear Hleaf. assert (Ek : kids children key = c :: cs) by (unfold kids; by rewrite Ech).
  rewrite <- Ek.
  assert (Hnkey : ∀ c', c' ∈ kids children key → ¬ below c' key) by (intros c' Hc'; by eapply Acc_no_cycle).
  pose proof (pass_children fuel key P (kids children key) (key :: dn, m) no_window IH (λ c H, H)) as Hpc.
  destruct (foldl _ _ (kids children key)) as [[dn' m'] w].
  destruct Hpc as (Hi1 & [Hs1 Hs1'] & Hc1 & Hw1); cbn [fst snd] in *.
  { assert (Hlt : (length (filter (λ k, k ∉ key :: dn) keys) < length (filter (λ k, k ∉ dn) keys))%nat); [|lia].
    clear - Hkey Ein. induction keys as [|x l IHl]; [by apply elem_of_nil in Hkey|]. rewrite !filter_cons.
    assert (Hle : (length (filter (λ k, k ∉ key :: dn) l) <= length (filter (λ k, k ∉ dn) l))%nat).
    { clear. induction l as [|y l IHl]; [done|]. rewrite !filter_cons.
      destruct (decide (y ∉ key :: dn)); [rewrite decide_True by set_solver; cbn; lia|].
      destruct (decide (y ∉ dn)); cbn; lia. }
    destruct (decide (x = key)) as [->|Hne].
    - rewrite decide_False by set_solver. rewrite decide_True by done. cbn. lia.
    - apply elem_of_cons in Hkey as [?|Hkey]; [congruence|]. specialize (IHl Hkey).
      destruct (decide (x ∉ dn)); [rewrite decide_True by set_solver; cbn; lia|].
      rewrite decide_False by set_solver. done. }
  { done. } { set_solver. }
  { intros c' p Hc' [->|Hp]%elem_of_cons; [by apply Hnkey|].
    intros Hb. apply (Hnb p Hp). by eapply rtc_l. }
  { intros c' Hc'. by apply Hacc. }
  assert (Hkin : key ∈ dn') by (apply Hs1; left).
  assert (Hkids' : ∀ c', c' ∈ kids children key → c' ∈ dn' ∧ c' ∉ key :: P).
  { intros c' Hc'. split; [by apply Hc1|]. intros [->|Hp]%elem_of_cons; [by apply (Hnkey key Hc'), rtc_refl|].
    apply (Hnb c' Hp). by apply rtc_once. }
  assert (Hkm : m' !! key = memo0 !! key) by (apply Hi1; right; left).
  fold (span_window m' (kids children key)) in Hw1.
  assert (Hstep : ∀ m'', (∀ k, k ≠ key → m'' !! k = m' !! k) → pass_step (dn, m) (dn', m'')).
  { intros m'' Hm''. split; cbn; [set_solver|]. intros k Hk. rewrite Hm'' by (intros ->; by apply Ein).
    apply Hs1'. by right. }
  assert (Hext : ∀ v, span_window (<[key := v]> m') (kids children key) = span_window m' (kids children key)).
  { intros v. apply span_window_ext. intros c' Hc'. rewrite lookup_insert_ne; [done|].
    intros <-. by apply (Hnkey _ Hc'), rtc_refl. }
  destruct (startMs w) as [z|] eqn:Ew; (split_and!; [|apply Hstep|done]).
  - apply (pass_inv_insert P (dn', m') key w); cbn; try done.
    unfold window_eq. rewrite lookup_insert_eq. rewrite Ek in *. by rewrite Hext, <- Hw1, Ew.
  - intros k Hk. by rewrite lookup_insert_ne.
  - apply (pass_inv_leave P (dn', m') key); cbn; try done.
    unfold window_eq. rewrite Ek in *. by rewrite <- Hw1, Ew.
  - done.
Qed.
End windows.

Lemma childrenByParent_elem tasks p c :
  c ∈ kids (childrenByParent tasks) p ↔ ∃ t, t ∈ tasks ∧ t_key t = c ∧ t_parent t = Some p ∧ p ≠ "".
Proof.
  unfold kids, childrenByParent. induction tasks as [|t l IH] using rev_ind; cbn.
  - rewrite lookup_empty. cbn. split; [by intros ?%elem_of_nil|by intros (? & ?%elem_of_nil & _)].
  - rewrite foldl_snoc. set (m := foldl _ _ l) in *.
    assert (Hsnoc : ∀ Q : TaskSpec → Prop, (∃ x, x ∈ l ++ [t] ∧ Q x) ↔ (∃ x, x ∈ l ∧ Q x) ∨ Q t).
    { intros Q. split; [intros (x & [Hx| ->%list_elem_of_singleton]%elem_of_app & HQ); eauto|].
      intros [(x & Hx & HQ)|HQ]; [exists x|exists t]; (split; [|done]); apply elem_of_app; [by left|right; left]. }
    rewrite Hsnoc, <- IH. unfold add_child. destruct (t_parent t) as [q|]; [|split; [tauto|]].
    2: { intros [?|(_ & ? & _)]; [done|congruence]. }
    destruct (q ≟ "") eqn:Eq; bprop.
    + split; [tauto|]. intros [?|(_ & [= <-] & ?)]; [done|congruence].
    + destruct (decide (p = q)) as [->|Hne].
      * rewrite lookup_insert_eq. cbn [default id]. rewrite elem_of_app, list_elem_of_singleton.
        destruct (m !! q); cbn; split; intros; intuition (subst; auto).
      * rewrite lookup_insert_ne by done. split; [tauto|]. intros [?|(_ & [= ->] & _)]; done.
Qed.

Lemma childrenByParent_nonempty tasks p cs : childrenByParent tasks !! p = Some cs → cs ≠ [].
Proof.
  unfold childrenByParent. revert cs. induction tasks as [|t l IH] using rev_ind; intros cs.
  - cbn. by rewrite lookup_empty.
  - rewrite foldl_snoc. unfold add_child at 1. destruct (t_parent t) as [q|]; [|apply IH].
    destruct (q ≟ ""); [apply IH|]. destruct (decide (p = q)) as [->|Hne].
    + rewrite lookup_insert_eq. intros [= <-] H0. by apply app_eq_nil in H0 as [_ ?].
    + rewrite lookup_insert_ne by done. apply IH.
Qed.

(** The hierarchy has no cycle. *)
Definition hierarchy_wf (tasks : list TaskSpec) : Prop :=
  ∀ t, t ∈ tasks → Acc (λ c k, c ∈ kids (childrenByParent tasks) k) (t_key t).

Lemma recompute_all_window tasks memo t :
  hierarchy_wf tasks → t ∈ tasks →
  window_eq (childrenByParent tasks) memo (recompute_all tasks memo) (t_key t).
Proof.
  intros Hwf. unfold recompute_all. set (ch := childrenByParent tasks). set (keys := map t_key tasks).
  assert (Hkids : ∀ k c, c ∈ kids ch k → c ∈ keys).
  { intros k c (x & Hx & <- & _)%childrenByParent_elem. apply list_elem_of_In, in_map, list_elem_of_In, Hx. }
  assert (Hl : ∀ l, l ⊆ tasks →
    let st := foldl (λ st t, recomputeParent (length tasks) ch (t_key t) st) ([], memo) l in
    pass_inv ch memo [] st ∧ ∀ x, x ∈ l → t_key x ∈ st.1).
  { intros l. induction l as [|x l IH] using rev_ind; intros Hsub; cbv zeta.
    - split; [|by intros ? ?%elem_of_nil]. split; cbn; [by intros ? ?%elem_of_nil|done].
    - rewrite foldl_snoc. destruct IH as [Hi Hd]; [set_solver|]. set (st := foldl _ _ l) in *.
      destruct (recomputeParent_pass ch keys memo Hkids (length tasks) (t_key x) [] st) as (Hi' & [Hs _] & Hx).
      + apply list_elem_of_In, in_map, list_elem_of_In. set_solver.
      + etrans; [apply length_filter|]. unfold keys. by rewrite length_map.
      + done.
      + by intros ? ?%elem_of_nil.
      + by intros ? ?%elem_of_nil.
      + apply Hwf. set_solver.
      + split; [done|]. intros x' [Hx'|Hx'%list_elem_of_singleton]%elem_of_app; [by apply Hs, Hd|by subst]. }
  intros Ht. destruct (Hl tasks (reflexivity _)) as [[Hi _] Hd]. apply Hi; [by apply Hd|apply not_elem_of_nil].
Qed.

(** The bar a key is planned with: a leaf as its schedule resolves, a parent
    the window of its children. *)
Inductive planned (env : ResolveEnv) (tasks : list TaskSpec) : string → Bar → Prop :=
  | planned_leaf n k b :
      childrenByParent tasks !! k = None → resolves env n k b → planned env tasks k b
  | planned_parent k cs (f : string → Bar) :
      childrenByParent tasks !! k = Some cs → (∀ c, c ∈ cs → planned env tasks c (f c)) →
      planned env tasks k (foldl widen no_window (map f cs)).

Lemma planned_det env tasks k b b' : planned env tasks k b → planned env tasks k b' → b = b'.
Proof.
  intros Hb. revert b'. induction Hb as [n k b Hk Hb|k cs f Hk Hc IH]; intros b' Hb'.
  - inversion Hb'; simplify_eq. by eapply resolves_det.
  - inversion Hb' as [|? cs' f' Hk' Hc']; simplify_eq. f_equal. apply map_ext_in.
    intros c Hin%list_elem_of_In. apply (IH c Hin), Hc', Hin.
Qed.

Lemma widen_start w bs :
  (is_Some (startMs w) ∨ ∃ b, b ∈ bs ∧ is_Some (startMs b)) → is_Some (startMs (foldl widen w bs)).
Proof.
  revert w. induction bs as [|b bs IH]; intros w Hw; cbn.
  - destruct Hw as [?|(? & ?%elem_of_nil & _)]; done.
  - apply IH. unfold widen; cbn. unfold lower. destruct Hw as [[z Hz]|(b' & [->|Hb']%elem_of_cons & [z Hz])].
    + left. rewrite Hz. destruct (startMs b); [by case_match|]; by eexists.
    + left. rewrite Hz. destruct (startMs w); [case_match|]; by eexists.
    + right. eauto.
Qed.

Lemma span_window_map memo cs (f : string → Bar) :
  (∀ c, c ∈ cs → memo !! c = Some (f c)) → span_window memo cs = foldl widen no_window (map f cs).
Proof.
  unfold span_window. generalize no_window. induction cs as [|c cs IH]; intros w Hc; [done|].
  cbn. rewrite (Hc c) by left. apply IH. intros c' Hc'. apply Hc. by right.
Qed.

(** A resolved schedule gives each key its planned bar. *)
Lemma resolveSchedule_planned now spec opts res k r :
  resolveSchedule now spec opts = Ok res → anchors_resolve (resolve_env now spec opts) →
  hierarchy_wf (w_tasks spec) → rr_tasks res !! k = Some r →
  ∃ b, planned (resolve_env now spec opts) (w_tasks spec) k b ∧ resolved_task b = Ok r.
Proof.
  intros Hr Ha Hwf Hk.
  assert (Hdom : ∀ k, is_Some (rr_tasks res !! k) ↔ k ∈ map t_key (w_tasks spec)).
  { intros k'. by eapply resolveSchedule_dom. }
  pose proof Hr as Hres. apply resolveSchedule_Ok, resolved_tasks_Ok in Hr as [_ Hv].
  destruct (resolve_all_spec now spec opts Ha) as [Hm Hd].
  set (memo := (resolve_all _ _).1) in *. set (final := recompute_all _ _) in *.
  assert (Hfin : ∀ k, k ∈ map t_key (w_tasks spec) →
            ∃ b r, final !! k = Some b ∧ rr_tasks res !! k = Some r ∧ resolved_task b = Ok r).
  { intros k' Hk'. apply Hdom in Hk' as [r' Hr']. specialize (Hv _ _ Hr'). exists (final !! k' ?? no_window), r'.
    destruct (final !! k') as [b|]; [done|]. by apply resolved_task_Ok in Hv as (Hv & _). }
  assert (Hplan : ∀ k b, k ∈ map t_key (w_tasks spec) → final !! k = Some b →
            planned (resolve_env now spec opts) (w_tasks spec) k b).
  { intros k' b Hk'. pose proof Hk' as Hin. apply list_elem_of_In, in_map_iff in Hin as (t & <- & Ht%list_elem_of_In).
    pose proof (Hwf t Ht) as Hacc. clear Hk'. revert Ht b. remember (t_key t) as kt eqn:Ekt. revert t Ekt.
    induction Hacc as [kt _ IH]. intros t -> Ht b Hb.
    pose proof (recompute_all_window _ memo t Hwf Ht) as Hw.
    unfold window_eq, kids in Hw. unfold kids in IH. change (recompute_all (w_tasks spec) memo) with final in Hw. destruct (childrenByParent (w_tasks spec) !! t_key t) as [cs|] eqn:Ec; cbn [default id] in Hw.
    - assert (Hcs : ∀ c, c ∈ cs → ∃ x, x ∈ w_tasks spec ∧ t_key x = c).
      { intros c Hc. destruct (proj1 (childrenByParent_elem (w_tasks spec) (t_key t) c)) as (x & Hx & Ex & _);
          [by unfold kids; rewrite Ec|by exists x]. }
      assert (Hf : ∀ c, c ∈ cs → final !! c = Some (final !! c ?? no_window)).
      { intros c Hc. destruct (Hcs c Hc) as (x & Hx & <-).
        destruct (Hfin (t_key x)) as (bx & ? & -> & _); [|done]. apply list_elem_of_In, in_map, list_elem_of_In, Hx. }
      pose proof (span_window_map final cs _ Hf) as Hspan.
      assert (Hstart : is_Some (startMs (span_window final cs))).
      { rewrite Hspan. apply widen_start. right. destruct cs as [|c cs]; [by apply childrenByParent_nonempty in Ec|].
        exists (final !! c ?? no_window). split; [left|]. destruct (Hcs c) as (x & Hx & <-); [left|].
        destruct (Hfin (t_key x)) as (bx & rx & -> & _ & Hrx).
        { apply list_elem_of_In, in_map, list_elem_of_In, Hx. }
        apply resolved_task_Ok in Hrx as (Hrx & _). apply date_iso_Ok in Hrx as (z & Ez & _). cbn [default id]. rewrite Ez. by eexists. }
      assert (b = span_window final cs) as ->.
      { destruct cs as [|c cs]; [by apply childrenByParent_nonempty in Ec|].
        rewrite Hb in Hw. destruct (startMs (span_window final (c :: cs))); [congruence|by destruct Hstart]. }
      rewrite Hspan. eapply planned_parent; [done|]. intros c Hc.
      destruct (Hcs c Hc) as (x & Hx & <-). eapply IH; [by cbn|done|done|by apply Hf].
    - rewrite Hw in Hb. destruct (Hm _ _ Hb) as (n & Hn). by eapply planned_leaf. }
  destruct (Hfin k) as (b & r' & Hb & Hr' & Hbr); [apply Hdom; by eexists|].
  exists b. split; [|congruence]. apply Hplan; [apply Hdom; by eexists|done].
Qed.

(** [anchored tasks k a]: [k] is scheduled relative to the task [a]. *)
Definition anchored (tasks : list TaskSpec) (k a : string) : Prop :=
  ∃ t r, t ∈ tasks ∧ t_key t = k ∧ t_schedule t = Some (Relative r) ∧ rel_anchor r = a ∧ a ≠ TARGET_ANCHOR.

Lemma tasks_by_key_elem tasks k t : tasks_by_key tasks !! k = Some t → t ∈ tasks ∧ t_key t = k.
Proof.
  unfold tasks_by_key. induction tasks as [|x l IH] using rev_ind; [by cbn; rewrite lookup_empty|].
  rewrite foldl_snoc. destruct (decide (k = t_key x)) as [->|Hne].
  - rewrite lookup_insert_eq. intros [= ->]. split; [apply elem_of_app; right; left|done].
  - rewrite lookup_insert_ne by done. intros [? ?]%IH. split; [apply elem_of_app; by left|done].
Qed.

Lemma resolves_exists now spec opts k :
  Acc (λ a k, anchored (w_tasks spec) k a) k → ∃ n b, resolves (resolve_env now spec opts) n k b.
Proof.
  intros Ha. induction Ha as [k _ IH]. set (env := resolve_env now spec opts).
  destruct (re_frozen env !! k) as [f|] eqn:Ef; [do 2 eexists; by apply res_frozen|].
  destruct (schedule_of env k) as [[a|r]|] eqn:Es.
  - do 2 eexists. by apply res_absolute.
  - destruct (decide (rel_anchor r = TARGET_ANCHOR)) as [Et|Et]; [do 2 eexists; by apply res_target|].
    destruct (IH (rel_anchor r)) as (n & b & Hb); [|do 2 eexists; by eapply res_anchor].
    unfold schedule_of in Es. cbn in Es. destruct (tasks_by_key _ !! k) as [t|] eqn:Ek; [|done].
    apply tasks_by_key_elem in Ek as [Ht <-]. by exists t, r.
  - do 2 eexists. by apply res_unscheduled.
Qed.

Lemma anchors_resolve_acc now spec opts :
  (∀ t, t ∈ w_tasks spec → Acc (λ a k, anchored (w_tasks spec) k a) (t_key t)) →
  anchors_resolve (resolve_env now spec opts).
Proof. intros Ha t Ht. by apply resolves_exists, Ha. Qed.

(** Every anchor chain and every parent chain ends. *)
Definition plannable (spec : WorkflowSpec) : Prop :=
  NoDup (map t_key (w_tasks spec)) ∧ hierarchy_wf (w_tasks spec) ∧
  ∀ t, t ∈ w_tasks spec → Acc (λ a k, anchored (w_tasks spec) k a) (t_key t).

(** A rank that decreases along anchors and grows towards parents. *)
Lemma plannable_rank spec (rank : string → nat) :
  NoDup (map t_key (w_tasks spec)) →
  (∀ t, t ∈ w_tasks spec →
     match t_parent t with Some p => (rank (t_key t) < rank p)%nat | None => True end ∧
     match t_schedule t with
     | Some (Relative r) => rel_anchor r = TARGET_ANCHOR ∨ (rank (rel_anchor r) < rank (t_key t))%nat
     | _ => True
     end) → plannable spec.
Proof.
  intros Hn Hr. split; [done|]. split.
  - intros t _. remember (rank (t_key t)) as n eqn:En. remember (t_key t) as k eqn:Ek. clear Ek t.
    revert k En. induction (lt_wf n) as [n _ IH]. intros k ->. constructor. intros c Hc.
    apply childrenByParent_elem in Hc as (t & Ht & <- & Hp & _). destruct (Hr t Ht) as [Hlt _].
    rewrite Hp in Hlt. by eapply IH.
  - intros t _. remember (rank (t_key t)) as n eqn:En. remember (t_key t) as k eqn:Ek. clear Ek t.
    revert k En. induction (lt_wf n) as [n _ IH]. intros k ->. constructor.
    intros a (t & r & Ht & <- & Hs & <- & Ha). destruct (Hr t Ht) as [_ Hlt]. rewrite Hs in Hlt.
    destruct Hlt as [?|Hlt]; [done|]. by eapply IH.
Qed.

(** C15: On a spec whose anchor and parent chains end, a successful resolution
    lists exactly the tasks of the spec, each with the ISO text of its planned
    bar: a leaf follows its own schedule (absolute date, or offset from the due
    instant its anchor resolves to), a parent spans its children. *)
Theorem resolveSchedule_spec now spec opts res (Hp : plannable spec)
    (Hr : resolveSchedule now spec opts = Ok res) k r :
  rr_tasks res !! k = Some r ↔
    k ∈ map t_key (w_tasks spec) ∧
    ∃ b, planned (resolve_env now spec opts) (w_tasks spec) k b ∧ resolved_task b = Ok r.
Proof.
  destruct Hp as (_ & Hwf & Ha). apply (anchors_resolve_acc now spec opts) in Ha. split.
  - intros Hk. split; [by eapply resolveSchedule_dom|]. by eapply resolveSchedule_planned.
  - intros [Hk (b & Hb & Hbr)]. apply (resolveSchedule_dom _ _ _ _ _ Hr) in Hk as [r' Hr'].
    destruct (resolveSchedule_planned _ _ _ _ _ _ Hr Ha Hwf Hr') as (b' & Hb' & Hbr').
    rewrite (planned_det _ _ _ _ _ Hb' Hb) in Hbr'. congruence.
Qed.

(** A cascade lists exactly the unpinned leaf tasks whose due text differs
    between the resolution of the spec and the one with the changed target and
    the pinned tasks frozen, with the two texts. *)
Theorem computeCascadeDiff_spec now now' spec change diff
    (Hd : computeCascadeDiff now now' spec change = Ok diff) :
  ∃ before after,
    resolveSchedule now spec no_options = Ok before ∧
    resolveSchedule now' spec {| ro_targetAtUtc := cc_targetAtUtc change;
      ro_frozenDueAt := frozen_before (w_tasks spec) (rr_tasks before) |} = Ok after ∧
    ∀ e, e ∈ diff ↔ ∃ t b a,
      t ∈ w_tasks spec ∧ t_pinned t ≠ Some true ∧ ¬ (∃ c, c ∈ w_tasks spec ∧ t_parent c = Some (t_key t) ∧ t_key t ≠ "") ∧
      rr_tasks before !! t_key t = Some b ∧ rr_tasks after !! t_key t = Some a ∧
      rt_dueAtUtc b ≠ rt_dueAtUtc a ∧
      e = {| cd_taskKey := t_key t; cd_oldDueAtUtc := rt_dueAtUtc b; cd_newDueAtUtc := rt_dueAtUtc a |}.
Proof.
  apply cascade_diff_Ok in Hd as (before & after & Hb & Ha & ->). exists before, after.
  split; [done|]. split; [done|]. intros e.
  assert (Hne : ∀ nw o res k r, resolveSchedule nw spec o = Ok res → rr_tasks res !! k = Some r → rt_dueAtUtc r ≠ "").
  { intros nw o res k r Hr%resolveSchedule_Ok%resolved_tasks_Ok Hk. destruct Hr as [_ Hv].
    specialize (Hv _ _ Hk). apply resolved_task_Ok in Hv as (_ & _ & Hv).
    apply date_iso_Ok in Hv as (z & _ & _ & ->). apply iso_text_nonempty. }
  assert (Hleaf : ∀ t, childrenByParent (w_tasks spec) !! t_key t = None ↔
            ¬ (∃ c, c ∈ w_tasks spec ∧ t_parent c = Some (t_key t) ∧ t_key t ≠ "")).
  { intros t. split.
    - intros Hn (c & Hc & Hp & Hk). assert (H0 : t_key c ∈ kids (childrenByParent (w_tasks spec)) (t_key t)).
      { apply childrenByParent_elem. by exists c. }
      unfold kids in H0. rewrite Hn in H0. by apply elem_of_nil in H0.
    - intros Hn. destruct (childrenByParent (w_tasks spec) !! t_key t) as [[|c cs]|] eqn:E; [|exfalso|done].
      + by apply childrenByParent_nonempty in E.
      + assert (H0 : c ∈ kids (childrenByParent (w_tasks spec)) (t_key t)) by (unfold kids; rewrite E; left).
        apply childrenByParent_elem in H0 as (x & Hx & _ & Hp & Hk). apply Hn. by exists x. }
  rewrite list_elem_of_In, in_concat. split.
  - intros (l & (t & <- & Ht%list_elem_of_In)%in_map_iff & He%list_elem_of_In).
    apply cascade_entry_elem in He as (Hp & Hl & b & a & Hbb & Haa & _ & _ & Hdiff & ->).
    exists t, b, a. split_and!; try done. by apply Hleaf.
  - intros (t & b & a & Ht & Hp & Hl & Hbb & Haa & Hdiff & ->).
    exists (cascade_entry (w_tasks spec) (rr_tasks before) (rr_tasks after) t). split.
    + by apply in_map, list_elem_of_In.
    + apply list_elem_of_In, cascade_entry_elem. split; [done|]. split; [by apply Hleaf|].
      exists b, a. split_and!; try done; [by eapply (Hne now)|by eapply (Hne now')].
Qed.

(** C35: A moved release never shifts a task whose anchor chain passes a pinned
    task or ends at an absolute date: the cascade has no entry for it. *)
Theorem cascade_fixed_chain now now' spec change diff k
    (Hp : plannable spec)
    (Hpin : ∀ t c, t ∈ w_tasks spec → c ∈ w_tasks spec → t_pinned t = Some true → t_parent c ≠ Some (t_key t))
    (Hd : computeCascadeDiff now now' spec change = Ok diff) (Hk : fixed_chain (w_tasks spec) k) :
  ∀ e, e ∈ diff → cd_taskKey e ≠ k.
Proof.
  destruct Hp as (Hn & Hwf & Ha). apply cascade_diff_Ok in Hd as (before & after & Hb & Haft & ->).
  intros e He Eke. apply list_elem_of_In, in_concat in He as (l & (t & <- & Ht%list_elem_of_In)%in_map_iff & He).
  apply list_elem_of_In, cascade_entry_elem in He as (Hpt & Hl & b & a & Hbb & Haa & _ & _ & Hdiff & ->).
  cbn in Eke. subst k. apply Hdiff.
  pose proof (anchors_resolve_acc now spec no_options Ha) as Hres.
  assert (Hpin' : ∀ t, t ∈ w_tasks spec → t_pinned t = Some true →
            childrenByParent (w_tasks spec) !! t_key t = None).
  { intros t' Ht' Hp'. destruct (childrenByParent (w_tasks spec) !! t_key t') as [[|c cs]|] eqn:E; [|exfalso|done].
    - by apply childrenByParent_nonempty in E.
    - assert (H0 : c ∈ kids (childrenByParent (w_tasks spec)) (t_key t')) by (unfold kids; rewrite E; left).
      apply childrenByParent_elem in H0 as (x & Hx & _ & Hpx & _). by apply (Hpin t' x). }
  destruct (fixed_due now now' spec change before Hb Hres Hn Hpin' _ Hk) as (n & b1 & m & b2 & Hb1 & Hb2 & Edue).
  destruct (resolveSchedule_leaf _ _ _ _ _ _ Hb Hres Hl Hbb) as (n' & b1' & Hb1' & Hr1).
  destruct (resolveSchedule_leaf _ _ _ _ _ _ Haft (anchors_resolve_after now now' spec change before Hres) Hl Haa)
    as (m' & b2' & Hb2' & Hr2).
  destruct (resolves_det _ _ _ _ _ _ Hb1 Hb1') as [_ <-]. destruct (resolves_det _ _ _ _ _ _ Hb2 Hb2') as [_ <-].
  apply resolved_task_Ok in Hr1 as (_ & _ & Hr1). apply resolved_task_Ok in Hr2 as (_ & _ & Hr2). congruence.
Qed.

End resolver.

(** ** A release plan: a pinned freeze, a task after it, and a summary parent *)

Definition plan_task key (schedule : option ScheduleSpec) pinned parent : TaskSpec := {|
  t_key := key; t_title := key; t_required := None; t_pinned := pinned; t_risk := None;
  t_parent := parent; t_schedule := schedule; t_dependsOn := None; t_assignee := None;
  t_failurePolicy := None; t_missedWindowPolicy := None; t_retryPolicy := None;
  t_maxAttempts := None; t_cancelPolicy := None; t_body := ManualTask None; t_foreach := None |}.

Definition plan_offset anchor offset direction : option ScheduleSpec :=
  Some (Relative {| rel_anchor := anchor; rel_offsetIso8601 := offset; rel_direction := direction;
    rel_localTime := None; rel_tz := None; rel_anchorPoint := None; rel_durationIso8601 := None |}).

Definition release_plan : WorkflowSpec := {|
  w_key := None; w_name := "release"; w_product := None;
  w_target := Some {| tg_at := Some "2026-03-10T09:00:00Z"; tg_tz := "UTC" |};
  w_placeholders := None; w_metadata := None;
  w_tasks := [plan_task "freeze" (plan_offset "target" "P7D" sd_before) (Some true) None;
              plan_task "announce" (plan_offset "freeze" "P1D" sd_after) None None;
              plan_task "build" (plan_offset "target" "P3D" sd_before) None (Some "launch");
              plan_task "launch" None None None] |}.

Definition release_rank (k : string) : nat :=
  if bool_decide (k = "announce") || bool_decide (k = "launch") then 1 else 0.

Lemma release_plannable : plannable release_plan.
Proof.
  apply (plannable_rank _ release_rank); [apply (bool_decide_unpack _); vm_compute; reflexivity|].
  intros t Ht. cbn in Ht. rewrite !elem_of_cons in Ht.
  destruct Ht as [->|[->|[->|[->|Ht%elem_of_nil]]]]; try done; cbn; unfold release_rank; cbn; auto with lia.
Qed.

Example release_resolution :
  (λ res, map (λ k, (k, rt_dueAtUtc <$> rr_tasks res !! k)) ["freeze"; "announce"; "build"; "launch"]) <$>
    (match resolveSchedule 0 release_plan no_options with Ok res => Some res | Err _ => None end)
  = Some [("freeze", Some "2026-03-03T09:00:00.000Z"); ("announce", Some "2026-03-04T09:00:00.000Z");
          ("build", Some "2026-03-07T09:00:00.000Z"); ("launch", Some "2026-03-07T09:00:00.000Z")].
Proof. vm_compute. reflexivity. Qed.

(** Moving the release by two days moves [build] alone. *)
Definition release_moved : CascadeChange := {| cc_targetAtUtc := Some "2026-03-12T09:00:00Z" |}.

Definition release_diff : list CascadeDiffEntry :=
  [{| cd_taskKey := "build"; cd_oldDueAtUtc := "2026-03-07T09:00:00.000Z";
      cd_newDueAtUtc := "2026-03-09T09:00:00.000Z" |}].

Lemma release_cascade : computeCascadeDiff 0 0 release_plan release_moved = Ok release_diff.
Proof. vm_compute. reflexivity. Qed.

Lemma resolveSchedule_spec_witness :
  ∃ res r b, resolveSchedule 0 release_plan no_options = Ok res ∧ rr_tasks res !! "launch" = Some r ∧
    planned (resolve_env 0 release_plan no_options) (w_tasks release_plan) "launch" b ∧
    resolved_task b = Ok r.
Proof.
  destruct (resolveSchedule 0 release_plan no_options) as [res|] eqn:E; [|vm_compute in E; discriminate E].
  assert (Hr : ∃ r, rr_tasks res !! "launch" = Some r).
  { vm_compute in E. injection E as <-. eexists. vm_compute. reflexivity. }
  destruct Hr as [r Hr].
  destruct (proj1 (resolveSchedule_spec 0 release_plan no_options res release_plannable E "launch" r) Hr)
    as (_ & b & Hb & Hbr).
  exists res, r, b. auto.
Defined.

Lemma computeCascadeDiff_spec_witness :
  ∃ before after, resolveSchedule 0 release_plan no_options = Ok before ∧
    rr_tasks before !! "build" ≠ rr_tasks after !! "build".
Proof.
  destruct (computeCascadeDiff_spec 0 0 release_plan release_moved release_diff release_cascade) as (before & after & Hb & _ & He).
  exists before, after. split; [exact Hb|]. intros Heq.
  destruct (proj1 (He {| cd_taskKey := "build"; cd_oldDueAtUtc := "2026-03-07T09:00:00.000Z";
      cd_newDueAtUtc := "2026-03-09T09:00:00.000Z" |})) as (t & b & a & Ht & _ & _ & Hbb & Haa & Hdiff & Ee).
  { left. }
  injection Ee as Ek Eb Ea. rewrite <- Ek, Heq in Hbb. rewrite <- Ek in Haa. congruence.
Defined.

Lemma cascade_fixed_chain_witness :
  computeCascadeDiff 0 0 release_plan release_moved = Ok release_diff ∧
  ∀ e, e ∈ release_diff → cd_taskKey e ≠ "announce".
Proof.
  pose proof release_cascade as Hd. split; [exact Hd|]. apply (cascade_fixed_chain 0 0 release_plan release_moved release_diff "announce"
    release_plannable); [|exact Hd|].
  - intros t c Ht Hc Hpin Hpar.
    assert (Hall : forallb (λ t, forallb (λ c, negb ((t_pinned t ≟ Some true) && (t_parent c ≟ Some (t_key t))))
      (w_tasks release_plan)) (w_tasks release_plan) = true) by (vm_compute; reflexivity).
    rewrite forallb_forall in Hall. specialize (Hall t (proj1 (list_elem_of_In _ _) Ht)).
    rewrite forallb_forall in Hall. specialize (Hall c (proj1 (list_elem_of_In _ _) Hc)).
    rewrite (bool_decide_eq_true_2 _ Hpin), (bool_decide_eq_true_2 _ Hpar) in Hall. discriminate Hall.
  - eapply (fixed_anchor _ (plan_task "announce" (plan_offset "freeze" "P1D" sd_after) None None));
      [right; left|reflexivity|discriminate|].
    apply (fixed_pinned _ (plan_task "freeze" (plan_offset "target" "P7D" sd_before) (Some true) None));
      [left|reflexivity].
Defined.
