(* ===== verification/Tokens.v ===== *)
(** * Placeholder tokens in strings

    The spec validator and the fan-out materializer look for tokens
    [{{ name }}] with global regular expressions.  Each expression is two
    braces, blanks, a name, an optional dotted path, blanks, two braces, and
    no two consecutive parts can match the same character, so a match needs no
    backtracking: [match_token] reads the parts from left to right and [scan]
    finds the leftmost, non-overlapping matches. *)

From S2P Require Import Prelude.

Fixpoint span (p : ascii → bool) (s : string) : string * string :=
  match s with
  | String c r => if p c then let '(a, b) := span p r in (String c a, b) else ("", s)
  | EmptyString => ("", "")
  end.

(** What a token regular expression allows in its parts; [tk_path = None] when
    it has no path. *)
Record TokenSyntax := {
  tk_first : ascii → bool; tk_rest : ascii → bool; tk_path : option (ascii → bool)
}.

Definition take_path (ts : TokenSyntax) (s : string) : string * string :=
  match tk_path ts, s with
  | Some p, String "." r => match span p r with
                            | (EmptyString, _) => ("", s)
                            | (a, b) => (String "." a, b)
                            end
  | _, _ => ("", s)
  end.

(** A token at the front of the text: name, path (with its dot), and length. *)
Definition match_token (ts : TokenSyntax) (s : string) : option (string * string * nat) :=
  match s with
  | String "{" (String "{" r) =>
      match (span is_space r).2 with
      | String c r1 =>
          if tk_first ts c then
            let '(name, r2) := span (tk_rest ts) r1 in
            let '(path, r3) := take_path ts r2 in
            match (span is_space r3).2 with
            | String "}" (String "}" r4) =>
                Some (String c name, path, (String.length s - String.length r4)%nat)
            | _ => None
            end
          else None
      | EmptyString => None
      end
  | _ => None
  end.

Inductive piece := Chr (c : ascii) | Tok (raw name path : string).

(** The text cut into tokens and other characters; [skip] characters belong
    to the token just found. *)
Fixpoint scan (ts : TokenSyntax) (skip : nat) (s : string) : list piece :=
  match s with
  | EmptyString => []
  | String c r =>
      match skip with
      | S k => scan ts k r
      | O => match match_token ts s with
             | Some (name, path, len) => Tok (str_take len s) name path :: scan ts (len - 1) r
             | None => Chr c :: scan ts 0 r
             end
      end
  end.

Definition tokens (ts : TokenSyntax) (s : string) : list (string * string) :=
  omap (λ p, match p with Tok _ n q => Some (n, q) | Chr _ => None end) (scan ts 0 s).

Definition piece_raw (p : piece) : string :=
  match p with Chr c => String c EmptyString | Tok raw _ _ => raw end.

(** [s.replace(re, f)]. *)
Definition replace_tokens (ts : TokenSyntax) (f : string → string → string → string) (s : string) : string :=
  foldr (λ p acc, match p with
                  | Chr c => String c acc
                  | Tok raw n q => f raw n q +:+ acc
                  end) "" (scan ts 0 s).

(** [s.match(/^...$/)]: the whole text is one token. *)
Definition whole_token (ts : TokenSyntax) (s : string) : option (string * string) :=
  match match_token ts s with
  | Some (n, q, len) => if (len =? String.length s)%nat then Some (n, q) else None
  | None => None
  end.

Definition name_char (c : ascii) : bool := is_letter c || is_digit c || (c ≟ "_"%char).
Definition var_first (c : ascii) : bool := is_letter c || (c ≟ "$"%char).
Definition var_char (c : ascii) : bool := name_char c || (c ≟ "$"%char).

Lemma substring_0_cons c r n : String.substring 0 (S n) (String c r) = String c (String.substring 0 n r).
Proof. reflexivity. Qed.

Lemma substring_full s : String.substring 0 (String.length s) s = s.
Proof. induction s as [|c s IH]; [done|]. cbn. by rewrite IH. Qed.

Lemma substring_skip n s :
  String.substring 0 n s +:+ String.substring n (String.length s - n) s = s.
Proof.
  revert n. induction s as [|c s IH]; intros [|n]; [done|done|..].
  - cbn. by rewrite substring_full.
  - rewrite substring_0_cons, str_app_cons. cbn [String.length String.substring].
    replace (S (String.length s) - S n)%nat with (String.length s - n)%nat by lia. by rewrite IH.
Qed.

Lemma span_length p s : (String.length (span p s).2 <= String.length s)%nat.
Proof.
  induction s as [|c r IH]; [done|]. cbn. destruct (p c); [|done].
  destruct (span p r) as [x y]. cbn in *. lia.
Qed.

Lemma take_path_length ts s : (String.length (take_path ts s).2 <= String.length s)%nat.
Proof.
  unfold take_path. destruct (tk_path ts) as [p|]; [|done]. destruct s as [|c r]; [done|].
  assert (H : (String.length (match span p r with (EmptyString, _) => ("", String c r)
    | (String _ _ as a, b) => (String "." a, b) end).2 <= String.length (String c r))%nat).
  { pose proof (span_length p r) as H. destruct (span p r) as [[|x y] z]; cbn in *; lia. }
  destruct c as [[] [] [] [] [] [] [] []]; cbn; try lia. exact H.
Qed.

(** A match is a nonempty prefix of the text. *)
Lemma match_token_length ts s n q len :
  match_token ts s = Some (n, q, len) → (0 < len <= String.length s)%nat.
Proof.
  unfold match_token. intros E. repeat (case_match; simplify_eq/=).
  match goal with H1 : (span is_space ?s0).2 = String ?c ?r1, H2 : span (tk_rest ts) ?r1 = (_, ?r2),
    H3 : take_path ts ?r2 = (_, ?r3), H4 : (span is_space ?r3).2 = _ |- _ =>
    pose proof (span_length is_space s0) as L1; pose proof (span_length (tk_rest ts) r1) as L2;
    pose proof (take_path_length ts r2) as L3; pose proof (span_length is_space r3) as L4;
    rewrite H1 in L1; rewrite H2 in L2; rewrite H3 in L3; rewrite H4 in L4 end.
  cbn in *. lia.
Qed.

(** Scanning loses nothing: the raw texts of the pieces make up the string. *)
Lemma scan_raw ts skip s :
  (skip <= String.length s)%nat →
  foldr (λ p acc, piece_raw p +:+ acc) "" (scan ts skip s) = str_drop skip s.
Proof.
  unfold str_drop. revert skip. induction s as [|c r IH]; intros skip Hs; [by destruct skip|].
  cbn [scan]. destruct skip as [|k]; [|cbn in Hs; rewrite IH by lia; done].
  destruct (match_token ts (String c r)) as [[[n q] len]|] eqn:E.
  - apply match_token_length in E. destruct len as [|len]; [lia|]. cbn [foldr piece_raw].
    replace (S len - 1)%nat with len by lia. cbn in E. rewrite IH by lia. unfold str_take.
    rewrite substring_0_cons, str_app_cons, substring_skip, Nat.sub_0_r. by rewrite substring_full.
  - cbn [foldr piece_raw]. rewrite IH by lia. rewrite str_app_cons, !Nat.sub_0_r, !substring_full. done.
Qed.

Lemma replace_tokens_raw ts s : replace_tokens ts (λ raw _ _, raw) s = s.
Proof.
  transitivity (str_drop 0 s); [|by unfold str_drop; rewrite Nat.sub_0_r, substring_full].
  rewrite <- (scan_raw ts 0 s) by lia. unfold replace_tokens.
  induction (scan ts 0 s) as [|[c|raw n q] l IH]; cbn [foldr piece_raw]; [done| |]; by rewrite IH.
Qed.

Example tokens_example :
  tokens {| tk_first := var_first; tk_rest := var_char; tk_path := Some (λ c, var_char c || (c ≟ "."%char)) |}
    "a {{ item.name }}{{$index}} {{1x}} {{ y z }} {{{{q}}"
  = [("item", ".name"); ("$index", ""); ("q", "")].
Proof. vm_compute. reflexivity. Qed.
