(* ===== verification/Validate.v ===== *)
(** * Spec validation ([spec/validate.ts])

    The three tiers, each stronger than the one before: a template is a
    well-formed set of graphs, a draft is concrete and resolvable within the
    horizon, a start is runnable now.

    [safeParse] is Zod's parser for [workflowSpecSchema]; the zone table and
    the calendar are the class [DateEnv]; the clock is the argument [now]. *)

From S2P Require Import Prelude Json Time Spec Tokens Graph Limits Resolver.
Open Scope Z_scope.

(** One issue of a Zod error. *)
Record ZodIssue := { zi_code : string; zi_message : string; zi_path : list string }.

Record ValidationResult := {
  vr_ok : bool; vr_tier : ValidationTier; vr_errors : list StructuredSpecError;
  vr_spec : option WorkflowSpec
}.

(** The injected resolvers of [validateStart]. *)
Record StartContext := {
  sx_agentExists : option (AgentRef → bool);
  sx_approverResolvable : option (ApprovalScope → bool)
}.

Definition char_upper (c : ascii) : ascii := if is_lower c then ascii_of_N (N_of_ascii c - 32) else c.

Definition zodErrorsToStructured (issues : list ZodIssue) : list StructuredSpecError :=
  map (λ i, {| se_code := str_map char_upper ("SCHEMA_" +:+ zi_code i); se_message := zi_message i;
               se_path := Some (join "." (zi_path i)); se_limit := None; se_actual := None |}) issues.

Definition spec_error (code message : string) (path : option string) : StructuredSpecError :=
  {| se_code := code; se_message := message; se_path := path; se_limit := None; se_actual := None |}.

(** [f] of the own property [k], if it is there. *)
Definition jfind {A} (f : json → A) (k : string) (d : A) : list (string * json) → A :=
  fix go kvs := match kvs with
                | [] => d
                | (k', v) :: r => if k ≟ k' then f v else go r
                end.

Lemma jfind_jget {A} (f : json → A) k d kvs :
  jfind f k d kvs = match jget k kvs with Some v => f v | None => d end.
Proof. induction kvs as [|[k' v] r IH]; [done|]. cbn. by destruct (k ≟ k'). Qed.

(** ** Placeholders *)

(** [PLACEHOLDER_TOKEN_RE]. *)
Definition placeholder_syntax : TokenSyntax :=
  {| tk_first := is_letter; tk_rest := name_char; tk_path := None |}.

Definition reserved_vars : list string := ["$index"; "$position"; "$total"].

Fixpoint collectStrings (value : json) : list string :=
  match value with
  | JStr s => [s]
  | JArr l => concat (map collectStrings l)
  | JObj kvs => concat (map (λ kv : string * json, let (_, v) := kv in collectStrings v) kvs)
  | _ => []
  end.

(** Every token with the variables in scope where it stands. *)
Fixpoint collectPlaceholderUsages (value : json) (activeScope : list string) : list (string * list string) :=
  match value with
  | JStr s => map (λ nq, (nq.1, activeScope)) (tokens placeholder_syntax s)
  | JArr l => concat (map (λ v, collectPlaceholderUsages v activeScope) l)
  | JObj kvs =>
      concat (map (λ kv : string * json, let (k, v) := kv in
        if k ≟ "foreach" then
          match v with
          | JObj fe =>
              concat (map (λ fkv : string * json, let (fk, fv) := fkv in
                if fk ≟ "template" then [] else collectPlaceholderUsages fv activeScope) fe) ++
              jfind (λ t, if json_truthy t then
                            collectPlaceholderUsages t
                              (activeScope ++
                               match jget "as" fe with
                               | Some (JStr a) => if a ≟ "" then [] else [a]
                               | _ => []
                               end ++ reserved_vars)
                          else []) "template" [] fe
          | _ => collectPlaceholderUsages v activeScope
          end
        else collectPlaceholderUsages v activeScope) kvs)
  | _ => []
  end.

Definition findUnresolvedPlaceholders (spec : WorkflowSpec) : list string :=
  dedup (map fst (List.filter (λ u : string * list string, negb (bool_decide (u.1 ∈ u.2)))
                    (collectPlaceholderUsages (WorkflowSpec_json spec) []))).

(** ** Checks of the template tier, in the order of the source *)

Definition task_keys (spec : WorkflowSpec) : list string := map t_key (w_tasks spec).

Definition dupes_of (keys : list string) : list string :=
  (foldl (λ st k, (st.1 ++ [k],
                   if bool_decide (k ∈ st.1) && negb (bool_decide (k ∈ st.2)) then st.2 ++ [k] else st.2))
     ([], []) keys).2.

Definition duplicate_key_errors (spec : WorkflowSpec) : list StructuredSpecError :=
  map (λ k, spec_error "DUPLICATE_TASK_KEY" ("Duplicate task key " +:+ quoted k +:+ ".") None)
    (dupes_of (task_keys spec)).

Definition deps_of (t : TaskSpec) : list TaskDependency := t_dependsOn t ?? [].

(** [for (const t of spec.tasks) adjacency.set(t.key, [])]. *)
Definition empty_adjacency (tasks : list TaskSpec) : adjacency :=
  foldl (λ m t, <[t_key t := []]> m) ∅ tasks.

Definition dep_path (i j : nat) : string :=
  task_path i ("dependsOn[" +:+ show_nat j +:+ "].taskKey").

Definition dependency_errors (spec : WorkflowSpec) : list StructuredSpecError :=
  concat (imap (λ i t, concat (imap (λ j dep,
    (if bool_decide (dep_taskKey dep ∈ task_keys spec) then []
     else [spec_error "UNKNOWN_DEPENDENCY" ("Task " +:+ quoted (t_key t) +:+ " depends on unknown task " +:+
             quoted (dep_taskKey dep) +:+ ".") (Some (dep_path i j))]) ++
    (if dep_taskKey dep ≟ t_key t
     then [spec_error "SELF_DEPENDENCY" ("Task " +:+ quoted (t_key t) +:+ " cannot depend on itself.")
             (Some (dep_path i j))]
     else [])) (deps_of t))) (w_tasks spec)).

Definition depAdjacency (spec : WorkflowSpec) : adjacency :=
  foldl (λ adj t, foldl (λ adj dep,
      if bool_decide (dep_taskKey dep ∈ task_keys spec) then push (t_key t) (dep_taskKey dep) adj else adj)
    adj (deps_of t)) (empty_adjacency (w_tasks spec)) (w_tasks spec).

Definition cycle_error (adj : adjacency) (code message : string) : list StructuredSpecError :=
  if hasCycle adj then [spec_error code message None] else [].

(** The task anchor of a relative schedule, [undefined] for the target. *)
Definition task_anchor (t : TaskSpec) : option string :=
  match t_schedule t with
  | Some (Relative r) => if rel_anchor r ≟ TARGET_ANCHOR then None else Some (rel_anchor r)
  | _ => None
  end.

Definition anchor_errors (spec : WorkflowSpec) : list StructuredSpecError :=
  concat (imap (λ i t,
    match task_anchor t with
    | None => []
    | Some anchor =>
        if negb (bool_decide (anchor ∈ task_keys spec)) then
          [spec_error "UNKNOWN_ANCHOR" ("Task " +:+ quoted (t_key t) +:+
             " schedule anchors to unknown task " +:+ quoted anchor +:+ ".")
             (Some (task_path i "schedule.anchor"))]
        else if anchor ≟ t_key t then
          [spec_error "SELF_ANCHOR" ("Task " +:+ quoted (t_key t) +:+
             " cannot anchor its schedule to itself.") (Some (task_path i "schedule.anchor"))]
        else []
    end) (w_tasks spec)).

(** An edge from [t] to a known task other than itself. *)
Definition push_ref (spec : WorkflowSpec) (target : TaskSpec → option string) (adj : adjacency) (t : TaskSpec)
    : adjacency :=
  match target t with
  | Some a => if bool_decide (a ∈ task_keys spec) && negb (a ≟ t_key t) then push (t_key t) a adj else adj
  | None => adj
  end.

Definition ref_adjacency (spec : WorkflowSpec) (target : TaskSpec → option string) : adjacency :=
  foldl (push_ref spec target) (empty_adjacency (w_tasks spec)) (w_tasks spec).

Definition anchorAdjacency (spec : WorkflowSpec) : adjacency := ref_adjacency spec task_anchor.
Definition parentAdjacency (spec : WorkflowSpec) : adjacency := ref_adjacency spec t_parent.

Definition parent_errors (spec : WorkflowSpec) : list StructuredSpecError :=
  concat (imap (λ i t,
    match t_parent t with
    | None => []
    | Some p =>
        if negb (bool_decide (p ∈ task_keys spec)) then
          [spec_error "UNKNOWN_PARENT" ("Task " +:+ quoted (t_key t) +:+ " has unknown parent " +:+
             quoted p +:+ ".") (Some (task_path i "parent"))]
        else if p ≟ t_key t then
          [spec_error "SELF_PARENT" ("Task " +:+ quoted (t_key t) +:+ " cannot be its own parent.")
             (Some (task_path i "parent"))]
        else []
    end) (w_tasks spec)).

(** [hasChildren]: the known keys some task names as its (truthy) parent. *)
Definition parents_with_children (spec : WorkflowSpec) : list string :=
  omap (λ t, p ← t_parent t; if negb (p ≟ "") && bool_decide (p ∈ task_keys spec) then Some p else None)
    (w_tasks spec).

Definition summary_errors (spec : WorkflowSpec) : list StructuredSpecError :=
  concat (imap (λ i t,
    if bool_decide (t_key t ∈ parents_with_children spec) then
      (if is_present (t_schedule t) then
         [spec_error "PARENT_HAS_SCHEDULE" ("Task " +:+ quoted (t_key t) +:+
            " is a parent (has children) and cannot carry its own schedule; its window derives from its children.")
            (Some (task_path i "schedule"))] else []) ++
      (if t_pinned t ?? false then
         [spec_error "PINNED_PARENT_INVALID" ("Task " +:+ quoted (t_key t) +:+
            " is a parent (has children) and cannot be pinned; its window derives from its children.")
            (Some (task_path i "pinned"))] else [])
    else []) (w_tasks spec)).

Definition parentByKey (spec : WorkflowSpec) : gmap string (option string) :=
  foldl (λ m t, <[t_key t := t_parent t]> m) ∅ (w_tasks spec).

(** The loop of [ancestorsOf]; the fuel is the source's bound on the hops. *)
Fixpoint ancestor_loop (hops : nat) (parents : gmap string (option string)) (cur : option string)
    (acc : list string) : list string :=
  match hops, cur with
  | S h, Some c =>
      if (c ≟ "") || bool_decide (c ∈ acc) then acc
      else ancestor_loop h parents (mjoin (parents !! c)) (c :: acc)
  | _, _ => acc
  end.

Definition ancestorsOf (spec : WorkflowSpec) (key : string) : list string :=
  ancestor_loop (Z.to_nat maxTasks) (parentByKey spec) (mjoin (parentByKey spec !! key)) [].

Definition cross_cycle_errors (spec : WorkflowSpec) : list StructuredSpecError :=
  concat (imap (λ i t,
    match task_anchor t with
    | None => []
    | Some anchor =>
        if bool_decide (anchor ∈ ancestorsOf spec (t_key t)) then
          [spec_error "HIERARCHY_SCHEDULE_CYCLE" ("Task " +:+ quoted (t_key t) +:+
             " anchors its schedule to ancestor " +:+ quoted anchor +:+
             "; the parent's window already derives from this child.")
             (Some (task_path i "schedule.anchor"))]
        else []
    end) (w_tasks spec)).

(** *** Fan-out declarations *)

(** [taskOrderByKey.get(k)]: the last index with the key. *)
Definition task_order (spec : WorkflowSpec) : gmap string nat :=
  foldl (λ m it, <[it.2 := it.1]> m) ∅ (imap (λ i t, (i, t_key t)) (w_tasks spec)).

Definition foreach_source_errors (spec : WorkflowSpec) (i : nat) (t : TaskSpec) (fe : ForeachSpec)
    : list StructuredSpecError :=
  let path := Some (task_path i "foreach.source") in
  if negb (bool_decide (fe_source fe ∈ task_keys spec)) then
    [spec_error "FOREACH_UNKNOWN_SOURCE" ("Task " +:+ quoted (t_key t) +:+
       " foreach.source references unknown task " +:+ quoted (fe_source fe) +:+ ".") path]
  else if fe_source fe ≟ t_key t then
    [spec_error "FOREACH_SOURCE_SELF" ("Task " +:+ quoted (t_key t) +:+
       " foreach.source cannot reference itself.") path]
  else
    let prior := match task_order spec !! fe_source fe with Some s => (s <? i)%nat | None => false end in
    if prior then []
    else [spec_error "FOREACH_SOURCE_NOT_PRIOR" ("Task " +:+ quoted (t_key t) +:+ " foreach.source " +:+
            quoted (fe_source fe) +:+ " must be declared BEFORE the foreach parent in spec.tasks[] " +:+
            "(foreach can only materialize after its source terminalizes).") path].

(** The [taskKey]s of a node's [dependsOn] list. *)
Definition node_deps (kvs : list (string * json)) : list json :=
  match jget "dependsOn" kvs with
  | Some (JArr deps) => omap (jprop "taskKey") deps
  | _ => []
  end.

Fixpoint visitTemplateDeps (i : nat) (key : string) (node : json) (p : string) : list StructuredSpecError :=
  match node with
  | JObj n =>
      map (λ _, spec_error "FOREACH_TEMPLATE_DEPENDS_ON_PARENT" ("Task " +:+ quoted key +:+
             " foreach.template (or nested template) declares dependsOn[" +:+ quoted key +:+
             "] — that would deadlock (parent waits for children; children wait for parent).")
             (Some (task_path i ("foreach." +:+ p +:+ ".dependsOn"))))
        (List.filter (λ k, k ≟ JStr key) (node_deps n)) ++
      jfind (λ f, match f with
                  | JObj fkvs => jfind (λ t, if json_truthy t
                      then visitTemplateDeps i key t (p +:+ ".foreach.template") else []) "template" [] fkvs
                  | _ => []
                  end) "foreach" [] n
  | _ => []
  end.

Fixpoint visitTemplate (i : nat) (key : string) (node : json) (pathPrefix : string) : list StructuredSpecError :=
  match node with
  | JObj n =>
      jfind (λ f,
        if is_object f then
          spec_error "FOREACH_NESTED_NOT_SUPPORTED" ("Task " +:+ quoted key +:+
            " foreach.template declares a nested foreach at " +:+ pathPrefix +:+
            ".foreach; nested foreach is not supported (single-level fan-out only).")
            (Some (task_path i ("foreach." +:+ pathPrefix +:+ ".foreach"))) ::
          match f with
          | JObj fkvs => jfind (λ t, if json_truthy t
              then visitTemplate i key t (pathPrefix +:+ ".foreach.template") else []) "template" [] fkvs
          | _ => []
          end
        else []) "foreach" [] n
  | _ => []
  end.

(** [tokenRe]: a variable, with an optional path of anything but [}] and blanks. *)
Definition binding_syntax : TokenSyntax :=
  {| tk_first := var_first; tk_rest := var_char;
     tk_path := Some (λ c, negb (c ≟ "}"%char) && negb (is_space c)) |}.

(** The properties every object inherits, which a lookup in the placeholder
    record also finds. *)
Definition object_prototype_keys : list string :=
  ["constructor"; "hasOwnProperty"; "isPrototypeOf"; "propertyIsEnumerable"; "toLocaleString";
   "toString"; "valueOf"].

Definition placeholder_declared (spec : WorkflowSpec) (v : string) : bool :=
  match w_placeholders spec with
  | Some l => bool_decide (v ∈ map fst l) || bool_decide (v ∈ object_prototype_keys)
  | None => false
  end.

Definition variable_ok (spec : WorkflowSpec) (fe : ForeachSpec) (v : string) : bool :=
  (v ≟ fe_as fe) || bool_decide (v ∈ reserved_vars) || placeholder_declared spec v.

Definition binding_error (i : nat) (key : string) (fe : ForeachSpec) (v p : string) : StructuredSpecError :=
  spec_error "FOREACH_INVALID_VARIABLE_BINDING" ("Task " +:+ quoted key +:+ " foreach.template uses {{" +:+ v +:+
    "}} but the declared variable is " +:+ quoted (fe_as fe) +:+ "; valid: " +:+ quoted (fe_as fe) +:+ ", " +:+
    quoted "$index" +:+ ", " +:+ quoted "$position" +:+ ", " +:+ quoted "$total" +:+
    ", or a declared placeholder.") (Some (task_path i ("foreach." +:+ p))).

Fixpoint scanForBadVars (spec : WorkflowSpec) (i : nat) (key : string) (fe : ForeachSpec) (node : json) (p : string)
    : list StructuredSpecError :=
  match node with
  | JStr s =>
      map (λ nq : string * string, binding_error i key fe nq.1 p)
        (List.filter (λ nq : string * string, negb (variable_ok spec fe nq.1)) (tokens binding_syntax s))
  | JArr l =>
      (fix go (idx : nat) (l : list json) := match l with
         | [] => []
         | v :: r => scanForBadVars spec i key fe v (p +:+ "[" +:+ show_nat idx +:+ "]") ++ go (S idx) r
         end) 0%nat l
  | JObj kvs =>
      concat (map (λ kv : string * json, let (k, v) := kv in
        scanForBadVars spec i key fe v (p +:+ "." +:+ k)) kvs)
  | _ => []
  end.

Definition foreach_errors (spec : WorkflowSpec) : list StructuredSpecError :=
  concat (imap (λ i t,
    match t_foreach t with
    | None => []
    | Some fe =>
        foreach_source_errors spec i t fe ++
        visitTemplateDeps i (t_key t) (fe_template fe) "template" ++
        visitTemplate i (t_key t) (fe_template fe) "template" ++
        scanForBadVars spec i (t_key t) fe (fe_template fe) "template"
    end) (w_tasks spec)).

(** *** Duplicate edges and time zones *)

(** The loop over [dependsOn] with [seenDeps]. *)
Fixpoint duplicate_deps (i : nat) (key : string) (seen : list string) (j : nat) (deps : list TaskDependency)
    : list StructuredSpecError :=
  match deps with
  | [] => []
  | dep :: r =>
      (if bool_decide (dep_taskKey dep ∈ seen) then
         [spec_error "DUPLICATE_DEPENDENCY" ("Task " +:+ quoted key +:+ " lists " +:+ quoted (dep_taskKey dep) +:+
            " as a dependency more than once.") (Some (task_path i ("dependsOn[" +:+ show_nat j +:+ "]")))]
       else []) ++ duplicate_deps i key (dep_taskKey dep :: seen) (S j) r
  end.

Definition duplicate_dep_errors (spec : WorkflowSpec) : list StructuredSpecError :=
  concat (imap (λ i t, duplicate_deps i (t_key t) [] 0 (deps_of t)) (w_tasks spec)).

Definition truthy_str (o : option string) : option string :=
  match o with Some s => if s ≟ "" then None else Some s | None => None end.

Lemma truthy_str_Some o s : truthy_str o = Some s ↔ o = Some s ∧ s ≠ "".
Proof.
  unfold truthy_str. destruct o as [x|]; [|naive_solver]. case_bool_decide; naive_solver.
Qed.

Definition tz_checks (spec : WorkflowSpec) : list (string * string) :=
  match truthy_str (tg_tz <$> w_target spec) with Some tz => [(tz, "target.tz")] | None => [] end ++
  concat (imap (λ i t, match truthy_str (t_schedule t ≫= sch_tz) with
                       | Some tz => [(tz, task_path i "schedule.tz")]
                       | None => []
                       end) (w_tasks spec)).

Section validate.
Context `{DateEnv} (safeParse : json → result (list ZodIssue) WorkflowSpec).

Definition isValidTimeZone (tz : string) : bool := negb (tz ≟ "") && knownTimeZone tz.

Definition timezone_errors (spec : WorkflowSpec) : list StructuredSpecError :=
  map (λ c : string * string, spec_error "INVALID_TIMEZONE" ("Unknown timezone " +:+ quoted c.1 +:+ ".") (Some c.2))
    (List.filter (λ c : string * string, negb (isValidTimeZone c.1)) (tz_checks spec)).

Definition template_errors (spec : WorkflowSpec) : list StructuredSpecError :=
  checkLimits spec ++
  (if (length (w_tasks spec) =? 0)%nat
   then [spec_error "EMPTY_SPEC" "A workflow must have at least one task." None] else []) ++
  duplicate_key_errors spec ++ dependency_errors spec ++
  cycle_error (depAdjacency spec) "DEPENDENCY_CYCLE" "The dependency graph contains a cycle." ++
  anchor_errors spec ++
  cycle_error (anchorAdjacency spec) "ANCHOR_CYCLE" "The schedule-anchor graph contains a cycle." ++
  parent_errors spec ++
  cycle_error (parentAdjacency spec) "PARENT_CYCLE" "The task hierarchy contains a cycle." ++
  summary_errors spec ++ cross_cycle_errors spec ++ foreach_errors spec ++ duplicate_dep_errors spec ++
  timezone_errors spec.

Definition validateTemplate (input : json) : ValidationResult :=
  match safeParse input with
  | Err issues => {| vr_ok := false; vr_tier := tier_template;
                     vr_errors := zodErrorsToStructured issues; vr_spec := None |}
  | Ok spec =>
      let errors := template_errors spec in
      {| vr_ok := (length errors =? 0)%nat; vr_tier := tier_template; vr_errors := errors; vr_spec := Some spec |}
  end.

(** ** Draft and start *)

Definition present_str (o : option string) : bool := is_present (truthy_str o).

(** [spec.target?.at] and [spec.target?.tz], when truthy. *)
Definition concrete_target (spec : WorkflowSpec) : option (string * string) :=
  tg ← w_target spec; a ← truthy_str (tg_at tg); z ← truthy_str (Some (tg_tz tg)); Some (a, z).

Definition target_errors (spec : WorkflowSpec) : list StructuredSpecError :=
  if is_present (concrete_target spec) then []
  else [spec_error "MISSING_TARGET_DATE"
          "A draft workflow must have a concrete target date and timezone (target.at + target.tz)."
          (Some "target")].

Definition placeholder_errors (spec : WorkflowSpec) : list StructuredSpecError :=
  map (λ name, spec_error "UNRESOLVED_PLACEHOLDER" ("Unresolved placeholder " +:+
         quoted ("{{" +:+ name +:+ "}}") +:+ " — a draft must have all placeholders filled.") None)
    (findUnresolvedPlaceholders spec).

(** The loop of [resolvable]; [None] when the fuel runs out. *)
Fixpoint resolvable_loop (fuel : nat) (spec : WorkflowSpec) (cursor : string) (seen : list string) : option bool :=
  if (cursor ≟ "") || bool_decide (cursor ∈ seen) then Some false
  else match tasks_by_key (w_tasks spec) !! cursor ≫= t_schedule with
       | None => Some false
       | Some (Absolute _) => Some true
       | Some (Relative r) =>
           if rel_anchor r ≟ TARGET_ANCHOR then Some (present_str (w_target spec ≫= tg_at))
           else match fuel with
                | O => None
                | S f => resolvable_loop f spec (rel_anchor r) (cursor :: seen)
                end
       end.

Definition resolvable (spec : WorkflowSpec) (startKey : string) : bool :=
  resolvable_loop (length (w_tasks spec)) spec startKey [] ?? false.

Definition resolvable_errors (spec : WorkflowSpec) : list StructuredSpecError :=
  concat (imap (λ i t,
    match t_schedule t with
    | Some (Relative _) =>
        if resolvable spec (t_key t) then []
        else [spec_error "UNRESOLVABLE_SCHEDULE" ("Task " +:+ quoted (t_key t) +:+
                " schedule cannot be resolved (its anchor chain never reaches the release or an absolute date).")
                (Some (task_path i "schedule"))]
    | _ => []
    end) (w_tasks spec)).

(** Distance of a task's due instant from the target in ms; none for NaN. *)
Definition days_off (resolved : gmap string ResolvedTask) (targetMs : Instant) (t : TaskSpec) : option Z :=
  r ← resolved !! t_key t; due ← Date_parse (rt_dueAtUtc r); target ← targetMs; Some (Z.abs (due - target)).

Definition horizon_errors (resolved : gmap string ResolvedTask) (targetMs : Instant) (spec : WorkflowSpec)
    : list StructuredSpecError :=
  concat (imap (λ i t,
    match days_off resolved targetMs t with
    | Some off =>
        if maxScheduleHorizonDays * ms_per_day <? off then
          let days := (2 * off + ms_per_day) / (2 * ms_per_day) in
          [limit_error "SCHEDULE_HORIZON_EXCEEDED" ("Task " +:+ quoted (t_key t) +:+ " resolves ~" +:+
             show_Z days +:+ " days from the release; the maximum horizon is " +:+
             show_Z maxScheduleHorizonDays +:+ ".") (Some (task_path i "schedule")) maxScheduleHorizonDays days]
        else []
    | None => []
    end) (w_tasks spec)).

Definition draft_errors (now : Z) (spec : WorkflowSpec) : result RangeError (list StructuredSpecError) :=
  let errors := target_errors spec ++ placeholder_errors spec ++ resolvable_errors spec in
  match concrete_target spec with
  | Some (a, tz) =>
      if (length errors =? 0)%nat then
        let targetMs := parseInstantMs a tz in
        res ← resolveSchedule now spec no_options;
        Ok (errors ++ horizon_errors (rr_tasks res) targetMs spec)
      else Ok errors
  | None => Ok errors
  end.

Definition validateDraft (now : Z) (input : json) : result RangeError ValidationResult :=
  let base := validateTemplate input in
  match vr_ok base, vr_spec base with
  | true, Some spec =>
      errors ← draft_errors now spec;
      Ok {| vr_ok := (length errors =? 0)%nat; vr_tier := tier_draft; vr_errors := vr_errors base ++ errors;
            vr_spec := Some spec |}
  | _, _ => Ok {| vr_ok := vr_ok base; vr_tier := tier_draft; vr_errors := vr_errors base; vr_spec := vr_spec base |}
  end.

Definition start_errors (ctx : option StartContext) (spec : WorkflowSpec) : list StructuredSpecError :=
  (if existsb (λ t, match truthy_str (t_parent t) with
                    | Some p => bool_decide (p ∈ task_keys spec)
                    | None => false
                    end) (w_tasks spec) then
     [spec_error "HIERARCHY_NOT_RUNNABLE"
        ("Hierarchical workflows (tasks with `parent`) are not yet runnable — executing summary-parent rows " +:+
         "is future scope. Edit the spec to flatten the tree before starting.") (Some "tasks")]
   else []) ++
  match (match ctx with Some c => sx_agentExists c | None => None end) with
  | None => []
  | Some agentExists =>
      concat (imap (λ i t,
        match t_body t with
        | AgentTask agentRef _ =>
            if agentExists agentRef then []
            else [spec_error "AGENT_NOT_FOUND" ("Task " +:+ quoted (t_key t) +:+
                    " references an agent that does not exist or is not authorized.")
                    (Some (task_path i "agentRef"))]
        | _ => []
        end) (w_tasks spec))
  end.

Definition validateStart (now : Z) (input : json) (ctx : option StartContext) : result RangeError ValidationResult :=
  base ← validateDraft now input;
  match vr_ok base, vr_spec base with
  | true, Some spec =>
      let errors := start_errors ctx spec in
      Ok {| vr_ok := (length errors =? 0)%nat; vr_tier := tier_start; vr_errors := vr_errors base ++ errors;
            vr_spec := Some spec |}
  | _, _ => Ok {| vr_ok := vr_ok base; vr_tier := tier_start; vr_errors := vr_errors base; vr_spec := vr_spec base |}
  end.
End validate.
