(* ===== verification/WellFormed.v ===== *)
(** * What a validated spec guarantees

    The declarative meaning of each check of [Validate], collected in
    [template_wf], [draft_wf] and [startable], and the theorems that the three
    tiers accept exactly the specs with these properties. *)

From S2P Require Import Prelude Json Time Spec Tokens Graph Limits Resolver Validate.
Open Scope Z_scope.

(** ** The graphs of a spec *)

(** [x] lists the known task [y] among its dependencies. *)
Definition depends_on (spec : WorkflowSpec) (x y : string) : Prop :=
  ∃ t dep, t ∈ w_tasks spec ∧ t_key t = x ∧ dep ∈ deps_of t ∧ dep_taskKey dep = y ∧ y ∈ task_keys spec.

(** [x] refers to the known other task [y] through [target] (its schedule
    anchor, or its parent). *)
Definition refers_to (spec : WorkflowSpec) (target : TaskSpec → option string) (x y : string) : Prop :=
  ∃ t, t ∈ w_tasks spec ∧ t_key t = x ∧ target t = Some y ∧ y ∈ task_keys spec ∧ y ≠ x.

Definition acyclic (R : string → string → Prop) : Prop := ¬ ∃ k, tc R k k.

Lemma tc_ext {A} (R1 R2 : A → A → Prop) x y : (∀ a b, R1 a b ↔ R2 a b) → tc R1 x y ↔ tc R2 x y.
Proof.
  intros HR. split; induction 1 as [a b H|a b c H _ IH].
  1, 3: by constructor; apply HR.
  all: eapply tc_l; [by apply HR|done].
Qed.

Lemma cyclic_ext adj (R : string → string → Prop) :
  (∀ x y, edge adj x y ↔ R x y) → hasCycle adj = false ↔ acyclic R.
Proof.
  intros HR. unfold acyclic. rewrite <- not_true_iff_false, hasCycle_cyclic. unfold cyclic.
  apply not_iff_compat. split; intros [k Hk]; exists k; by apply (tc_ext _ _ _ _ HR).
Qed.

(** Pushing, for each element of a list, the targets it stands for. *)
Lemma push_all_edges {A} (f : A → list (string * string)) (l : list A) adj x y :
  (∀ a k v, a ∈ l → (k, v) ∈ f a → is_Some (adj !! k)) →
  let adj' := foldl (λ adj a, foldl (λ adj kv, push kv.1 kv.2 adj) adj (f a)) adj l in
  (∀ k, is_Some (adj' !! k) ↔ is_Some (adj !! k)) ∧
  (edge adj' x y ↔ edge adj x y ∨ ∃ a, a ∈ l ∧ (x, y) ∈ f a).
Proof.
  cbv zeta. revert adj. induction l as [|a l IH]; intros adj Hk; cbn.
  { split; [done|]. split; [by left|]. intros [?|(? & ?%elem_of_nil & _)]; done. }
  assert (Hin : ∀ kvs adj, (∀ k v, (k, v) ∈ kvs → is_Some (adj !! k)) →
    let adj' := foldl (λ adj kv, push kv.1 kv.2 adj) adj kvs in
    (∀ k, is_Some (adj' !! k) ↔ is_Some (adj !! k)) ∧
    (edge adj' x y ↔ edge adj x y ∨ (x, y) ∈ kvs)).
  { cbv zeta. clear. induction kvs as [|[k v] kvs IH]; intros adj Hk; cbn.
    - split; [done|]. split; [by left|]. intros [?|?%elem_of_nil]; done.
    - destruct (IH (push k v adj)) as [Hd He].
      { intros k' v' Hin. rewrite push_dom. apply (Hk k' v'). by right. }
      split; [intros k'; by rewrite Hd, push_dom|]. rewrite He. unfold edge at 1. rewrite successors_push.
      rewrite elem_of_cons. case_bool_decide as Hc.
      + destruct Hc as [-> _]. rewrite elem_of_app, list_elem_of_singleton. unfold edge. split.
        * intros [[?| ->]|?]; auto.
        * intros [?|[[= ->]|?]]; auto.
      + unfold edge. split; [intros [?|?]; auto|]. intros [?|[[= -> ->]|?]]; auto.
        exfalso. apply Hc. split; [done|]. eapply Hk. left. }
  destruct (Hin (f a) adj) as [Hd1 He1]; [intros k v Hkv; eapply Hk; [left|done]|].
  destruct (IH (foldl (λ adj kv, push kv.1 kv.2 adj) adj (f a))) as [Hd2 He2].
  { intros a' k v Ha' Hkv. rewrite Hd1. eapply Hk; [by right|done]. }
  split; [intros k; by rewrite Hd2, Hd1|]. rewrite He2, He1. split.
  - intros [[?|?]|(a' & Ha' & Hxy)]; [by left|right; exists a; split; [left|done]|right; exists a'; split; [by right|done]].
  - intros [?|(a' & [->|Ha']%elem_of_cons & Hxy)]; [by left; left|by left; right|right; by exists a'].
Qed.

Lemma task_key_elem spec t : t ∈ w_tasks spec → t_key t ∈ task_keys spec.
Proof. intros Ht. apply list_elem_of_In, in_map, list_elem_of_In, Ht. Qed.

Lemma empty_adjacency_dom spec t :
  t ∈ w_tasks spec → is_Some (empty_adjacency (w_tasks spec) !! t_key t).
Proof. intros Ht. apply (empty_adj_spec t_key). by apply task_key_elem. Qed.

Lemma empty_adjacency_edge spec x y : ¬ edge (empty_adjacency (w_tasks spec)) x y.
Proof. unfold edge, empty_adjacency. destruct (empty_adj_spec t_key (w_tasks spec) x) as [_ ->]. apply not_elem_of_nil. Qed.

Lemma depAdjacency_edge spec x y : edge (depAdjacency spec) x y ↔ depends_on spec x y.
Proof.
  set (f := λ t, map (λ d, (t_key t, dep_taskKey d))
    (List.filter (λ d, bool_decide (dep_taskKey d ∈ task_keys spec)) (deps_of t))).
  assert (E : depAdjacency spec = foldl (λ adj t, foldl (λ adj kv, push kv.1 kv.2 adj) adj (f t))
    (empty_adjacency (w_tasks spec)) (w_tasks spec)).
  { unfold depAdjacency. apply foldl_ext_in. intros adj t _. unfold f. revert adj.
    induction (deps_of t) as [|d ds IH]; intros adj; [done|]. cbn. case_bool_decide; cbn; apply IH. }
  assert (Hf : ∀ t k v, (k, v) ∈ f t ↔ k = t_key t ∧ ∃ d, d ∈ deps_of t ∧ dep_taskKey d = v ∧ v ∈ task_keys spec).
  { intros t k v. unfold f. rewrite list_elem_of_In, in_map_iff. split.
    - intros (d & [= <- <-] & [Hd Hb]%filter_In). bprop. split; [done|]. exists d. by rewrite list_elem_of_In.
    - intros (-> & d & Hd & <- & Hv). exists d. split; [done|]. apply filter_In.
      split; [by apply list_elem_of_In|by apply bool_decide_eq_true]. }
  rewrite E. destruct (push_all_edges f (w_tasks spec) (empty_adjacency (w_tasks spec)) x y) as [_ ->].
  { intros t k v Ht [-> _]%Hf. by apply empty_adjacency_dom. }
  split.
  - intros [He|(t & Ht & [-> (d & Hd & Ed & Hy)]%Hf)]; [by apply empty_adjacency_edge in He|].
    exists t, d. auto.
  - intros (t & d & Ht & <- & Hd & Ed & Hy). right. exists t. split; [done|]. apply Hf. eauto.
Qed.

Lemma ref_adjacency_edge spec target x y : edge (ref_adjacency spec target) x y ↔ refers_to spec target x y.
Proof.
  set (f := λ t, match target t with
    | Some a => if bool_decide (a ∈ task_keys spec) && negb (a ≟ t_key t) then [(t_key t, a)] else []
    | None => []
    end).
  assert (E : ref_adjacency spec target = foldl (λ adj t, foldl (λ adj kv, push kv.1 kv.2 adj) adj (f t))
    (empty_adjacency (w_tasks spec)) (w_tasks spec)).
  { unfold ref_adjacency. apply foldl_ext_in. intros adj t _. unfold push_ref, f.
    destruct (target t); [|done]. by destruct (_ && _). }
  assert (Hf : ∀ t k v, (k, v) ∈ f t ↔ k = t_key t ∧ target t = Some v ∧ v ∈ task_keys spec ∧ v ≠ k).
  { intros t k v. unfold f. destruct (target t) as [a|].
    - destruct (bool_decide (a ∈ task_keys spec)) eqn:E1, (a ≟ t_key t) eqn:E2; bprop; cbn.
      all: rewrite ?list_elem_of_singleton, ?elem_of_nil; split; try tauto.
      all: try (intros [= -> ->]; auto). all: intros (-> & [= ->] & ? & ?); congruence.
    - rewrite elem_of_nil. split; [tauto|]. by intros (_ & ? & _). }
  rewrite E. destruct (push_all_edges f (w_tasks spec) (empty_adjacency (w_tasks spec)) x y) as [_ ->].
  { intros t k v Ht [-> _]%Hf. by apply empty_adjacency_dom. }
  split.
  - intros [He|(t & Ht & (-> & Ea & Hy & Hne)%Hf)]; [by apply empty_adjacency_edge in He|]. by exists t.
  - intros (t & Ht & <- & Ea & Hy & Hne). right. exists t. split; [done|]. by apply Hf.
Qed.

Lemma cycle_error_nil adj code msg : cycle_error adj code msg = [] ↔ hasCycle adj = false.
Proof. apply if_singleton_nil. Qed.

(** ** What each check requires *)

(** Checks over tasks that do not depend on the index. *)
Lemma task_checks_nil {B} (f : nat → TaskSpec → list B) (P : TaskSpec → Prop) (l : list TaskSpec) :
  (∀ i t, f i t = [] ↔ P t) → concat (imap f l) = [] ↔ ∀ t, t ∈ l → P t.
Proof.
  intros Hf. rewrite concat_imap_nil. setoid_rewrite Hf. apply elem_lookup_iff.
Qed.

Lemma dupes_of_nil keys : dupes_of keys = [] ↔ NoDup keys.
Proof.
  unfold dupes_of. set (step := λ (st : list string * list string) k, _).
  assert (H1 : ∀ l, (foldl step ([], []) l).1 = l).
  { intros l. induction l as [|k l IH] using rev_ind; [done|]. rewrite foldl_snoc. unfold step at 1. cbn.
    by rewrite IH. }
  induction keys as [|k keys IH] using rev_ind; [by split; [constructor|]|].
  rewrite foldl_snoc. specialize (H1 keys). destruct (foldl step ([], []) keys) as [l d]. cbn in H1, IH.
  subst l. unfold step. cbn [fst snd].
  rewrite NoDup_app. rewrite <- IH. destruct (bool_decide (k ∈ keys)) eqn:Ek; bprop; cbn [andb].
  - split; [|intros (_ & Hd & _); destruct (Hd k Ek); left].
    case_bool_decide as Hd; cbn; [intros ->; by apply elem_of_nil in Hd|by intros [_ ?]%app_eq_nil].
  - split; [intros ->; split_and!; [done| |apply NoDup_singleton]|tauto].
    intros x Hx ->%list_elem_of_singleton. done.
Qed.

Lemma duplicate_key_errors_nil spec : duplicate_key_errors spec = [] ↔ NoDup (task_keys spec).
Proof.
  unfold duplicate_key_errors. rewrite <- dupes_of_nil. destruct (dupes_of _); [done|]. split; discriminate.
Qed.

Lemma dependency_errors_nil spec :
  dependency_errors spec = [] ↔
  ∀ t, t ∈ w_tasks spec → ∀ d, d ∈ deps_of t → dep_taskKey d ∈ task_keys spec ∧ dep_taskKey d ≠ t_key t.
Proof.
  unfold dependency_errors. apply task_checks_nil. intros i t. rewrite concat_imap_nil, <- elem_lookup_iff.
  assert (Hd : ∀ j d, (if bool_decide (dep_taskKey d ∈ task_keys spec) then []
     else [spec_error "UNKNOWN_DEPENDENCY" ("Task " +:+ quoted (t_key t) +:+ " depends on unknown task " +:+
             quoted (dep_taskKey d) +:+ ".") (Some (dep_path i j))]) ++
    (if dep_taskKey d ≟ t_key t
     then [spec_error "SELF_DEPENDENCY" ("Task " +:+ quoted (t_key t) +:+ " cannot depend on itself.")
             (Some (dep_path i j))]
     else []) = [] ↔ dep_taskKey d ∈ task_keys spec ∧ dep_taskKey d ≠ t_key t).
  { intros j d. rewrite app_nil_iff, if_singleton_nil, bool_decide_eq_false.
    case_bool_decide; split; intros []; try done. }
  split; intros H i' d Hl; by apply (Hd i'), (H i' d).
Qed.

(** A reference check: a known key other than the task's own. *)
Lemma ref_error_nil {A} (o : option string) (keys : list string) own (e1 e2 : string → A) :
  match o with
  | None => []
  | Some p => if negb (bool_decide (p ∈ keys)) then [e1 p] else if p ≟ own then [e2 p] else []
  end = [] ↔ ∀ p : string, o = Some p → p ∈ keys ∧ p ≠ own.
Proof.
  destruct o as [p|]; [|split; [by intros _ ?|done]].
  case_bool_decide as E1; cbn; [|split; [done|by intros H; destruct (H p eq_refl)]].
  case_bool_decide as E2; [split; [done|by intros H; destruct (H p eq_refl)]|].
  split; [by intros _ ? [= <-]|done].
Qed.

Lemma anchor_errors_nil spec :
  anchor_errors spec = [] ↔
  ∀ t, t ∈ w_tasks spec → ∀ a, task_anchor t = Some a → a ∈ task_keys spec ∧ a ≠ t_key t.
Proof. apply task_checks_nil. intros i t. apply (ref_error_nil (task_anchor t)). Qed.

Lemma parent_errors_nil spec :
  parent_errors spec = [] ↔
  ∀ t, t ∈ w_tasks spec → ∀ p, t_parent t = Some p → p ∈ task_keys spec ∧ p ≠ t_key t.
Proof. apply task_checks_nil. intros i t. apply (ref_error_nil (t_parent t)). Qed.

Lemma parents_with_children_elem spec p :
  p ∈ parents_with_children spec ↔
  ∃ c, c ∈ w_tasks spec ∧ t_parent c = Some p ∧ p ≠ "" ∧ p ∈ task_keys spec.
Proof.
  unfold parents_with_children. rewrite list_elem_of_omap. split.
  - intros (c & Hc & Hp). destruct (t_parent c) as [q|] eqn:E; cbn in Hp; [|done].
    destruct (q ≟ "") eqn:E1, (bool_decide (q ∈ task_keys spec)) eqn:E2; bprop; cbn in Hp; simplify_eq.
    by exists c.
  - intros (c & Hc & Hp & Hne & Hk). exists c. split; [done|]. rewrite Hp. cbn.
    by rewrite bool_decide_eq_false_2, bool_decide_eq_true_2.
Qed.

Lemma summary_errors_nil spec :
  summary_errors spec = [] ↔
  ∀ t, t ∈ w_tasks spec → t_key t ∈ parents_with_children spec → t_schedule t = None ∧ t_pinned t ≠ Some true.
Proof.
  apply task_checks_nil. intros i t. case_bool_decide as Hc; [|by split].
  rewrite app_nil_iff, !if_singleton_nil. destruct (t_schedule t), (t_pinned t) as [[]|]; cbn;
    split; intros H; try (destruct H; discriminate); try (destruct (H Hc); congruence); try done.
Qed.

Lemma duplicate_deps_nil i key seen j deps :
  duplicate_deps i key seen j deps = [] ↔
  NoDup (map dep_taskKey deps) ∧ ∀ d, d ∈ deps → dep_taskKey d ∉ seen.
Proof.
  revert seen j. induction deps as [|d deps IH]; intros seen j; cbn.
  - split; [intros _; split; [constructor|by intros ? ?%elem_of_nil]|done].
  - rewrite app_nil_iff, if_singleton_nil, bool_decide_eq_false, IH, NoDup_cons. split.
    + intros (H1 & H2 & H3). split_and!; [|done|].
      * intros (x & Ex & Hx%list_elem_of_In)%list_elem_of_In%in_map_iff. apply (H3 x Hx). rewrite Ex. left.
      * intros x [->|Hx]%elem_of_cons; [done|]. specialize (H3 x Hx). set_solver.
    + intros ((H1 & H2) & H3). split_and!; [apply H3; left|done|].
      intros x Hx. apply not_elem_of_cons. split; [|apply H3; by right].
      intros Ex. apply H1. rewrite <- Ex. by apply list_elem_of_In, in_map, list_elem_of_In.
Qed.

Lemma duplicate_dep_errors_nil spec :
  duplicate_dep_errors spec = [] ↔ ∀ t, t ∈ w_tasks spec → NoDup (map dep_taskKey (deps_of t)).
Proof.
  apply task_checks_nil. intros i t. rewrite duplicate_deps_nil.
  split; [by intros []|]. intros H. split; [done|]. intros d _. apply not_elem_of_nil.
Qed.

(** A template without a nested fan-out. *)
Definition flat_template (template : json) : Prop :=
  ∀ f, jprop "foreach" template = Some f → is_object f = false.

Lemma visitTemplate_nil i key template p : visitTemplate i key template p = [] ↔ flat_template template.
Proof.
  unfold flat_template. destruct template as [| | | | |n]; try (split; [discriminate|done]).
  cbn [visitTemplate jprop]. rewrite jfind_jget. destruct (jget "foreach" n) as [f|]; [|split; [discriminate|done]].
  destruct (is_object f) eqn:E; [split; [done|]|split; [by intros _ ? [= <-]|done]].
  intros H. rewrite H in E by done. discriminate.
Qed.

Lemma visitTemplateDeps_nil i key template p :
  flat_template template →
  visitTemplateDeps i key template p = [] ↔
    ∀ n, template = JObj n → JStr key ∉ node_deps n.
Proof.
  intros Hflat. destruct template as [| | | | |n]; try (split; [discriminate|done]).
  cbn [visitTemplateDeps]. rewrite app_nil_iff, jfind_jget.
  assert (Hn : match jget "foreach" n with
    | Some v => match v with
                | JObj fkvs => jfind (λ t, if json_truthy t
                    then visitTemplateDeps i key t (p +:+ ".foreach.template") else []) "template" [] fkvs
                | _ => []
                end
    | None => []
    end = []).
  { specialize (Hflat (jget "foreach" n ?? JNull)). cbn in Hflat.
    destruct (jget "foreach" n) as [f|]; [|done]. specialize (Hflat eq_refl). by destruct f. }
  rewrite Hn. split.
  - intros [H _] n' [= <-] Hin. apply map_eq_nil in H.
    assert (Hf : In (JStr key) (List.filter (λ k, k ≟ JStr key) (node_deps n))).
    { apply filter_In. split; [by apply list_elem_of_In|by apply bool_decide_eq_true]. }
    by rewrite H in Hf.
  - intros H. split; [|done]. specialize (H n eq_refl). induction (node_deps n) as [|k l IH]; [done|]. cbn.
    case_bool_decide as E; [subst; by destruct H; left|]. apply IH. set_solver.
Qed.

(** Every variable a template mentions is bound. *)
Definition bound_template (spec : WorkflowSpec) (fe : ForeachSpec) : Prop :=
  ∀ s nq, s ∈ collectStrings (fe_template fe) → nq ∈ tokens binding_syntax s → variable_ok spec fe nq.1 = true.

Lemma scanForBadVars_nil spec i key fe node p :
  scanForBadVars spec i key fe node p = [] ↔
  ∀ s nq, s ∈ collectStrings node → nq ∈ tokens binding_syntax s → variable_ok spec fe nq.1 = true.
Proof.
  revert p. induction node as [| | |s|l IH|kvs IH] using json_nested_ind; intros p;
    try (split; [by intros _ ? ? ?%elem_of_nil|done]).
  - cbn [scanForBadVars collectStrings]. split.
    + intros H s' nq ->%list_elem_of_singleton Hnq. apply map_eq_nil in H.
      apply dec_stable. intros Hv. apply not_true_iff_false in Hv.
      assert (Hf : In nq (List.filter (λ nq : string * string, negb (variable_ok spec fe nq.1)) (tokens binding_syntax s))).
      { apply filter_In. rewrite Hv. split; [by apply list_elem_of_In|done]. }
      by rewrite H in Hf.
    + intros H. specialize (H s). induction (tokens binding_syntax s) as [|nq l IH]; [done|]. cbn.
      rewrite (H nq) by left. cbn. apply IH. intros nq' Hs Hin. apply H; [done|by right].
  - cbn [scanForBadVars collectStrings]. generalize 0%nat.
    induction IH as [|v l Hv _ IHl]; intros idx; [by split; [intros _ ? ? ?%elem_of_nil|]|].
    cbn [map concat]. rewrite app_nil_iff, Hv, IHl. setoid_rewrite elem_of_app. naive_solver.
  - cbn [scanForBadVars collectStrings].
    induction IH as [|[k v] l Hv _ IHl]; [by split; [intros _ ? ? ?%elem_of_nil|]|].
    cbn [map concat]. cbn in Hv. rewrite app_nil_iff, Hv, IHl. setoid_rewrite elem_of_app. naive_solver.
Qed.

(** The source is an earlier task than the fan-out parent. *)
Definition prior_source (spec : WorkflowSpec) (i : nat) (source : string) : Prop :=
  ∃ j s, (j < i)%nat ∧ w_tasks spec !! j = Some s ∧ t_key s = source.

Lemma task_order_lookup spec k j :
  NoDup (task_keys spec) → task_order spec !! k = Some j ↔ ∃ s, w_tasks spec !! j = Some s ∧ t_key s = k.
Proof.
  unfold task_order, task_keys. induction (w_tasks spec) as [|t l IH] using rev_ind; intros Hn.
  - cbn. rewrite lookup_empty. split; [done|by intros (? & ? & _)].
  - rewrite imap_app, foldl_app. cbn [imap foldl fst snd]. rewrite map_app in Hn. cbn [map] in Hn.
    apply NoDup_app in Hn as (Hn & Hd & _). specialize (IH Hn). unfold compose. rewrite Nat.add_0_r.
    destruct (decide (k = t_key t)) as [->|Hne].
    + rewrite lookup_insert_eq. split.
      * intros [= <-]. exists t. split; [|done]. by rewrite lookup_app_r, Nat.sub_diag by lia.
      * intros (s & Hs & Es). destruct (decide (j < length l)%nat) as [Hlt|Hge].
        { exfalso. rewrite lookup_app_l in Hs by done. apply (Hd (t_key t)); [|left]. rewrite <- Es.
          apply list_elem_of_In, in_map, list_elem_of_In. by eapply list_elem_of_lookup_2. }
        { apply lookup_lt_Some in Hs. rewrite length_app in Hs. cbn in Hs. f_equal. lia. }
    + rewrite lookup_insert_ne by done. rewrite IH. split; intros (s & Hs & Es); exists s; (split; [|done]).
      * by apply lookup_app_l_Some.
      * apply lookup_app_Some in Hs as [Hs|[Hge Hs]]; [done|exfalso].
        apply list_lookup_singleton_Some in Hs as [_ <-]. done.
Qed.

Lemma foreach_source_errors_nil spec i t fe :
  NoDup (task_keys spec) → w_tasks spec !! i = Some t →
  foreach_source_errors spec i t fe = [] ↔ prior_source spec i (fe_source fe).
Proof.
  intros Hn Ht. unfold foreach_source_errors, prior_source. cbv zeta.
  assert (Hself : ∀ j s, (j < i)%nat → w_tasks spec !! j = Some s → t_key s ≠ t_key t).
  { intros j s Hj Hs E. assert (task_order spec !! t_key t = Some j) as H1 by (apply task_order_lookup; eauto).
    assert (task_order spec !! t_key t = Some i) as H2 by (apply task_order_lookup; eauto).
    rewrite H1 in H2. injection H2. lia. }
  case_bool_decide as E1; cbn [negb].
  2: { split; [done|]. intros (j & s & _ & Hs & Es). exfalso. apply E1. rewrite <- Es.
       apply task_key_elem. by eapply list_elem_of_lookup_2. }
  case_bool_decide as E2.
  { split; [done|]. intros (j & s & Hj & Hs & Es). exfalso. apply (Hself j s Hj Hs). congruence. }
  destruct (task_order spec !! fe_source fe) as [j|] eqn:Eo.
  - apply task_order_lookup in Eo as (s & Hs & Es); [|done]. destruct (Nat.ltb_spec j i) as [Hj|Hj].
    + split; [intros _; by exists j, s|]. reflexivity.
    + split; [done|]. intros (j' & s' & Hj' & Hs' & Es'). exfalso.
      assert (task_order spec !! fe_source fe = Some j') as H1 by (apply task_order_lookup; eauto).
      assert (task_order spec !! fe_source fe = Some j) as H2 by (apply task_order_lookup; eauto).
      rewrite H1 in H2. injection H2. lia.
  - split; [done|]. intros (j & s & _ & Hs & Es). exfalso.
    assert (task_order spec !! fe_source fe = Some j) as H1 by (apply task_order_lookup; eauto). congruence.
Qed.

(** A fan-out declaration that can run. *)
Record foreach_wf (spec : WorkflowSpec) (i : nat) (t : TaskSpec) (fe : ForeachSpec) : Prop := {
  fw_source : prior_source spec i (fe_source fe);
  fw_flat : flat_template (fe_template fe);
  fw_deps n : fe_template fe = JObj n → JStr (t_key t) ∉ node_deps n;
  fw_bound : bound_template spec fe;
}.

Lemma foreach_errors_nil spec :
  NoDup (task_keys spec) →
  foreach_errors spec = [] ↔
  ∀ i t fe, w_tasks spec !! i = Some t → t_foreach t = Some fe → foreach_wf spec i t fe.
Proof.
  intros Hn. unfold foreach_errors. rewrite concat_imap_nil. split.
  - intros H i t fe Ht Hfe. specialize (H i t Ht). rewrite Hfe in H.
    rewrite !app_nil_iff, visitTemplate_nil, scanForBadVars_nil, foreach_source_errors_nil in H by done.
    destruct H as (H1 & H2 & H3 & H4). rewrite visitTemplateDeps_nil in H2 by done. by split.
  - intros H i t Ht. destruct (t_foreach t) as [fe|] eqn:Hfe; [|done].
    destruct (H i t fe Ht Hfe) as [H1 H2 H3 H4].
    rewrite !app_nil_iff, visitTemplate_nil, scanForBadVars_nil, foreach_source_errors_nil by done.
    by rewrite visitTemplateDeps_nil.
Qed.

(** ** Ancestors *)

(** [p] is the parent the task [c] names. *)
Definition child_of (spec : WorkflowSpec) (c p : string) : Prop :=
  ∃ t, t ∈ w_tasks spec ∧ t_key t = c ∧ t_parent t = Some p.

Lemma parentByKey_lookup spec k o :
  NoDup (task_keys spec) →
  parentByKey spec !! k = Some o ↔ ∃ t, t ∈ w_tasks spec ∧ t_key t = k ∧ t_parent t = o.
Proof.
  unfold parentByKey, task_keys. induction (w_tasks spec) as [|x l IH] using rev_ind; intros Hn; cbn.
  - rewrite lookup_empty. split; [done|by intros (? & ?%elem_of_nil & _)].
  - rewrite foldl_snoc. rewrite map_app in Hn. cbn [map] in Hn. apply NoDup_app in Hn as (Hn & Hd & _).
    specialize (IH Hn). destruct (decide (k = t_key x)) as [->|Hne].
    + rewrite lookup_insert_eq. split.
      * intros [= <-]. exists x. split_and!; [apply elem_of_app; right; left|done|done].
      * intros (t & [Ht| ->%list_elem_of_singleton]%elem_of_app & Ek & <-); [exfalso|done].
        apply (Hd (t_key t)); [apply list_elem_of_In, in_map, list_elem_of_In, Ht|]. rewrite Ek. left.
    + rewrite lookup_insert_ne by done. rewrite IH. split; intros (t & Ht & Ek & Ep).
      * exists t. split_and!; [apply elem_of_app; by left|done|done].
      * apply elem_of_app in Ht as [Ht| ->%list_elem_of_singleton]; [by exists t|congruence].
Qed.

Lemma parent_lookup spec c p :
  NoDup (task_keys spec) → mjoin (parentByKey spec !! c) = Some p ↔ child_of spec c p.
Proof.
  intros Hn. unfold child_of. split.
  - destruct (parentByKey spec !! c) as [o|] eqn:E; cbn; [|done]. intros ->. by apply parentByKey_lookup in E.
  - intros Ht. apply parentByKey_lookup in Ht as E; [|done]. by rewrite E.
Qed.

Lemma ancestor_loop_acc hops parents cur acc x : x ∈ acc → x ∈ ancestor_loop hops parents cur acc.
Proof.
  revert cur acc. induction hops as [|h IH]; intros [c|] acc Hx; cbn; try done.
  case_match; [done|]. apply IH. by right.
Qed.

Section ancestors.
Context (spec : WorkflowSpec).
Hypothesis Hkeys : NoDup (task_keys spec).
Hypothesis Hparents : ∀ c p, child_of spec c p → p ∈ task_keys spec ∧ p ≠ "".
Hypothesis Hacyclic : acyclic (child_of spec).

Lemma ancestor_loop_sound hops c acc x :
  x ∈ ancestor_loop hops (parentByKey spec) (Some c) acc → x ∈ acc ∨ rtc (child_of spec) c x.
Proof.
  revert c acc. induction hops as [|h IH]; intros c acc; cbn; [by left|].
  case_match; [by left|]. destruct (mjoin (parentByKey spec !! c)) as [p|] eqn:Ep.
  - intros Hx. apply IH in Hx as [[->|Hx]%elem_of_cons|Hx]; [right; apply rtc_refl|by left|right].
    eapply rtc_l; [|done]. by apply parent_lookup.
  - assert (ancestor_loop h (parentByKey spec) None (c :: acc) = c :: acc) as -> by by destruct h.
    intros [->|Hx]%elem_of_cons; [right; apply rtc_refl|by left].
Qed.

Lemma ancestor_loop_complete hops c acc x :
  c ∈ task_keys spec → c ≠ "" → NoDup acc → acc ⊆ task_keys spec → (∀ a, a ∈ acc → tc (child_of spec) a c) →
  (length (task_keys spec) <= length acc + hops)%nat →
  rtc (child_of spec) c x → x ∈ ancestor_loop hops (parentByKey spec) (Some c) acc.
Proof.
  revert c acc. induction hops as [|h IH]; intros c acc Hc Hne Hn Hs Hb Hl Hx;
    assert (Hca : c ∉ acc) by (intros Hca; apply Hacyclic; exists c; by apply Hb);
    assert (Hlen : (length (c :: acc) <= length (task_keys spec))%nat)
      by (apply NoDup_subset_length; [by constructor|by intros y [->|Hy]%elem_of_cons; [|apply Hs]]).
  { cbn in Hlen. lia. }
  cbn. rewrite !bool_decide_eq_false_2 by done. cbn.
  inversion Hx as [|? p ? Hcp Hpx]; subst; [apply ancestor_loop_acc; left|].
  rewrite (proj2 (parent_lookup spec c p Hkeys) Hcp). destruct (Hparents _ _ Hcp) as [Hpk Hpn].
  apply IH; [done|done|by constructor|by intros y [->|Hy]%elem_of_cons; [|apply Hs]| |cbn in *; lia|done].
  intros a [->|Ha]%elem_of_cons; [by constructor|]. eapply tc_r; [by apply Hb|done].
Qed.

Lemma ancestorsOf_spec k x :
  (Z.of_nat (length (w_tasks spec)) <= maxTasks)%Z → x ∈ ancestorsOf spec k ↔ tc (child_of spec) k x.
Proof.
  intros Hl. unfold ancestorsOf. destruct (mjoin (parentByKey spec !! k)) as [p|] eqn:Ep.
  - apply parent_lookup in Ep; [|done]. destruct (Hparents _ _ Ep) as [Hpk Hpn]. split.
    + intros [?%elem_of_nil|Hx]%ancestor_loop_sound; [done|]. by eapply tc_rtc_r; [apply tc_once|].
    + intros Hx. apply ancestor_loop_complete; [done|done|constructor|by intros ? ?%elem_of_nil|
        by intros ? ?%elem_of_nil| |].
      * unfold task_keys. rewrite length_map. cbn [length]. lia.
      * assert (Hp : ∀ q, child_of spec k q → q = p).
        { intros q Hq. apply parent_lookup in Hq, Ep; try done. congruence. }
        inversion Hx as [? ? Hq|? q ? Hq Hr]; subst; apply Hp in Hq as ->; [apply rtc_refl|by apply tc_rtc].
  - assert (ancestor_loop (Z.to_nat maxTasks) (parentByKey spec) None [] = []) as ->
      by by destruct (Z.to_nat maxTasks).
    split; [by intros ?%elem_of_nil|]. intros Hx.
    assert (∃ q, child_of spec k q) as [q Hq] by (inversion Hx; eauto).
    apply parent_lookup in Hq; [|done]. congruence.
Qed.

Lemma cross_cycle_errors_nil :
  (Z.of_nat (length (w_tasks spec)) <= maxTasks)%Z →
  cross_cycle_errors spec = [] ↔
  ∀ t a, t ∈ w_tasks spec → task_anchor t = Some a → ¬ tc (child_of spec) (t_key t) a.
Proof.
  intros Hl. unfold cross_cycle_errors.
  rewrite (task_checks_nil _ (λ t, ∀ a, task_anchor t = Some a → ¬ tc (child_of spec) (t_key t) a)).
  - split; [intros H t a Ht; by apply H|]. intros H t Ht a. by apply H.
  - intros i t. destruct (task_anchor t) as [a|]; [|by split].
    rewrite if_singleton_nil, bool_decide_eq_false, ancestorsOf_spec by done.
    split; [by intros H ? [= <-]|auto].
Qed.
End ancestors.

(** ** The template tier *)

Section tiers.
Context `{DateEnv} (safeParse : json → result (list ZodIssue) WorkflowSpec).

(** A zone name the runtime knows. *)
Definition zone_ok (tz : string) : Prop := tz = "" ∨ knownTimeZone tz = true.

(** The graph, fan-out and zone properties of a template. *)
Record template_wf (spec : WorkflowSpec) : Prop := {
  tw_limits : within_limits spec;
  tw_nonempty : w_tasks spec ≠ [];
  tw_keys : NoDup (task_keys spec);
  tw_deps t d : t ∈ w_tasks spec → d ∈ deps_of t → dep_taskKey d ∈ task_keys spec;
  tw_deps_distinct t : t ∈ w_tasks spec → NoDup (map dep_taskKey (deps_of t));
  tw_deps_acyclic : acyclic (depends_on spec);
  tw_anchors t a : t ∈ w_tasks spec → task_anchor t = Some a → a ∈ task_keys spec;
  tw_anchors_acyclic : acyclic (anchored (w_tasks spec));
  tw_parents t p : t ∈ w_tasks spec → t_parent t = Some p → p ∈ task_keys spec;
  tw_parents_acyclic : acyclic (child_of spec);
  tw_summary t c : t ∈ w_tasks spec → c ∈ w_tasks spec → t_parent c = Some (t_key t) →
    t_schedule t = None ∧ t_pinned t ≠ Some true;
  tw_cross t a : t ∈ w_tasks spec → task_anchor t = Some a → ¬ tc (child_of spec) (t_key t) a;
  tw_foreach i t fe : w_tasks spec !! i = Some t → t_foreach t = Some fe → foreach_wf spec i t fe;
  tw_target_zone tg : w_target spec = Some tg → zone_ok (tg_tz tg);
  tw_zones t s tz : t ∈ w_tasks spec → t_schedule t = Some s → sch_tz s = Some tz → zone_ok tz;
}.

Lemma isValidTimeZone_zone tz : tz ≠ "" → isValidTimeZone tz = true ↔ zone_ok tz.
Proof.
  intros Hne. unfold isValidTimeZone, zone_ok. rewrite bool_decide_eq_false_2 by done. cbn. tauto.
Qed.

Lemma timezone_errors_nil spec :
  timezone_errors spec = [] ↔
  (∀ tg, w_target spec = Some tg → zone_ok (tg_tz tg)) ∧
  (∀ t s tz, t ∈ w_tasks spec → t_schedule t = Some s → sch_tz s = Some tz → zone_ok tz).
Proof.
  unfold timezone_errors.
  assert (Hm : ∀ A B (f : A → B) l, map f l = [] ↔ l = []) by (intros A B f []; by split).
  rewrite Hm, filter_nil_iff. unfold tz_checks. setoid_rewrite elem_of_app.
  assert (Hz : ∀ tz, tz ≠ "" → negb (isValidTimeZone tz) = false ↔ zone_ok tz).
  { intros tz Hne. by rewrite negb_false_iff, isValidTimeZone_zone. }
  split.
  - intros Hc. split.
    + intros tg Htg. destruct (decide (tg_tz tg = "")) as [E|Hne]; [by left|]. apply Hz; [done|].
      apply (Hc (tg_tz tg, "target.tz")). left. rewrite Htg. cbn. rewrite bool_decide_eq_false_2 by done. left.
    + intros t s tz Ht Hs Htz. destruct (decide (tz = "")) as [E|Hne]; [by left|]. apply Hz; [done|].
      apply list_elem_of_lookup in Ht as [i Hi].
      apply (Hc (tz, task_path i "schedule.tz")). right. apply list_elem_of_In, in_concat.
      eexists. split; [apply list_elem_of_In, list_elem_of_lookup; exists i; by rewrite list_lookup_imap, Hi|].
      rewrite Hs. cbn. rewrite Htz. cbn. rewrite bool_decide_eq_false_2 by done. by left.
  - intros [Ht Hs] [tz p] [Hc|Hc].
    + destruct (truthy_str _) as [z|] eqn:E; [|by apply elem_of_nil in Hc].
      apply list_elem_of_singleton in Hc as [= -> ->]. apply truthy_str_Some in E as [E Hne].
      destruct (w_target spec) as [tg|]; [|done]. injection E as E. cbn. rewrite <- E in *. apply Hz; [done|by apply Ht].
    + apply list_elem_of_In, in_concat in Hc as (l & Hl%list_elem_of_In & Hc%list_elem_of_In).
      apply list_elem_of_lookup in Hl as [i Hi]. rewrite list_lookup_imap in Hi.
      destruct (w_tasks spec !! i) as [t|] eqn:Et; [|done]. injection Hi as <-.
      destruct (truthy_str _) as [z|] eqn:E; [|by apply elem_of_nil in Hc].
      apply list_elem_of_singleton in Hc as [= -> ->]. apply truthy_str_Some in E as [E Hne].
      destruct (t_schedule t) as [s|] eqn:Es; [|done]. cbn in E. cbn. apply Hz; [done|].
      eapply Hs; [by eapply list_elem_of_lookup_2|done|done].
Qed.

Lemma refers_child spec :
  (∀ t, t ∈ w_tasks spec → ∀ p, t_parent t = Some p → p ∈ task_keys spec ∧ p ≠ t_key t) →
  ∀ x y, refers_to spec t_parent x y ↔ child_of spec x y.
Proof.
  intros Hp x y. unfold refers_to, child_of. split.
  - intros (t & Ht & Ek & Ep & _). by exists t.
  - intros (t & Ht & Ek & Ep). exists t. destruct (Hp t Ht y Ep). split_and!; congruence.
Qed.

Lemma task_anchor_anchored spec x y :
  anchored (w_tasks spec) x y ↔ ∃ t, t ∈ w_tasks spec ∧ t_key t = x ∧ task_anchor t = Some y.
Proof.
  unfold anchored, task_anchor. split.
  - intros (t & r & Ht & Ek & Es & <- & Hne). exists t. split_and!; [done|done|].
    rewrite Es. by rewrite bool_decide_eq_false_2.
  - intros (t & Ht & Ek & Ea). destruct (t_schedule t) as [[|r]|] eqn:Es; try done.
    case_bool_decide as E; [done|]. injection Ea as <-. by exists t, r.
Qed.

Lemma refers_anchor spec :
  (∀ t, t ∈ w_tasks spec → ∀ a, task_anchor t = Some a → a ∈ task_keys spec ∧ a ≠ t_key t) →
  ∀ x y, refers_to spec task_anchor x y ↔ anchored (w_tasks spec) x y.
Proof.
  intros Ha x y. rewrite task_anchor_anchored. split.
  - intros (t & Ht & Ek & Ep & _). by exists t.
  - intros (t & Ht & Ek & Ep). exists t. destruct (Ha t Ht y Ep). split_and!; congruence.
Qed.

Lemma acyclic_irrefl (R : string → string → Prop) x : acyclic R → ¬ R x x.
Proof. intros Ha Hx. apply Ha. exists x. by constructor. Qed.

(** The template checks report nothing exactly on well-formed templates. *)
Lemma template_errors_nil spec :
  schema_ok spec = true → template_errors spec = [] ↔ template_wf spec.
Proof.
  intros Hok.
  assert (Hparent : ∀ t p, t ∈ w_tasks spec → t_parent t = Some p → p ≠ "").
  { intros t p Ht Hp. pose proof (schema_ok_task _ _ Hok Ht) as Htask. unfold task_ok in Htask.
    rewrite Hp in Htask. bprop. cbn in *. by apply TASK_KEY_ok_nonempty. }
  unfold template_errors. rewrite !app_nil_iff, if_singleton_nil, !cycle_error_nil, checkLimits_within.
  rewrite duplicate_key_errors_nil, dependency_errors_nil, anchor_errors_nil, parent_errors_nil,
    summary_errors_nil, duplicate_dep_errors_nil, timezone_errors_nil.
  unfold anchorAdjacency, parentAdjacency. rewrite (cyclic_ext _ _ (depAdjacency_edge spec)),
    (cyclic_ext _ _ (ref_adjacency_edge spec task_anchor)), (cyclic_ext _ _ (ref_adjacency_edge spec t_parent)).
  rewrite Nat.eqb_neq, length_zero_iff_nil.
  split.
  - intros (Hlim & Hne & Hk & Hd & Hdc & Ha & Hac & Hp & Hpc & Hs & Hx & Hf & Hdd & Ht & Hz).
    assert (Hpc' : acyclic (child_of spec)).
    { intros [k Hk']. apply Hpc. exists k. by apply (tc_ext _ _ _ _ (refers_child spec Hp)). }
    rewrite foreach_errors_nil in Hf by done. rewrite cross_cycle_errors_nil in Hx; [|done| |done|apply Hlim].
    2: { intros c p (t & Ht' & _ & Hpt). split; [by apply (Hp t)|by apply (Hparent t)]. }
    constructor; try done.
    + intros t d Ht' Hd'. by apply (Hd t).
    + intros t a Ht' Ha'. by apply (Ha t).
    + intros [k Hk']. apply Hac. exists k. by apply (proj2 (tc_ext _ _ k k (refers_anchor spec Ha))).
    + intros t p Ht' Hp'. by apply (Hp t).
    + intros t c Ht' Hc Hpc''. apply Hs; [done|]. apply parents_with_children_elem. exists c.
      split_and!; [done|done|by apply (Hparent c)|by apply task_key_elem].
  - intros [Hlim Hne Hk Hd Hdd Hdc Ha Hac Hp Hpc Hs Hx Hf Ht Hz].
    assert (Ha' : ∀ t, t ∈ w_tasks spec → ∀ a, task_anchor t = Some a → a ∈ task_keys spec ∧ a ≠ t_key t).
    { intros t Ht' a Ea. split; [by apply (Ha t)|]. intros ->. apply (acyclic_irrefl _ (t_key t) Hac).
      apply task_anchor_anchored. by exists t. }
    assert (Hp' : ∀ t, t ∈ w_tasks spec → ∀ p, t_parent t = Some p → p ∈ task_keys spec ∧ p ≠ t_key t).
    { intros t Ht' p Ep. split; [by apply (Hp t)|]. intros ->. apply (acyclic_irrefl _ (t_key t) Hpc).
      by exists t. }
    rewrite foreach_errors_nil by done. rewrite cross_cycle_errors_nil; [|done| |done|apply Hlim].
    2: { intros c p (t & Ht' & _ & Hpt). split; [by apply (Hp t)|by apply (Hparent t)]. }
    split_and!; try done.
    + intros t Ht' d Hd'. split; [by apply (Hd t)|]. intros E. apply (acyclic_irrefl _ (t_key t) Hdc).
      exists t, d. split_and!; try done. by apply task_key_elem.
    + intros [k Hk']. apply Hac. exists k. by apply (tc_ext _ _ _ _ (refers_anchor spec Ha')).
    + intros [k Hk']. apply Hpc. exists k. by apply (tc_ext _ _ _ _ (refers_child spec Hp')).
    + intros t Ht' (c & Hc & Ec & _ & _)%parents_with_children_elem. by apply (Hs t c).
Qed.
Lemma template_wf_plannable spec : template_wf spec → plannable spec.
Proof.
  intros Hwf. split; [apply Hwf|]. split.
  - intros t _. apply (acyclic_Acc (λ k c, c ∈ kids (childrenByParent (w_tasks spec)) k) (task_keys spec)).
    + intros k c (x & Hx & <- & _)%childrenByParent_elem. by apply task_key_elem.
    + intros [k Hk]. apply (tw_parents_acyclic _ Hwf). exists k. apply (tc_reverse (child_of spec)). revert Hk. generalize k at 1 3. intros k' Hk.
      induction Hk as [a b (x & Hx & E & Hp & _)%childrenByParent_elem|a b c (x & Hx & E & Hp & _)%childrenByParent_elem _ IH].
      * constructor. by exists x.
      * eapply tc_l; [|exact IH]. by exists x.
  - intros t _. apply (acyclic_Acc (anchored (w_tasks spec)) (task_keys spec)); [|apply Hwf].
    intros x y (t' & Ht' & <- & Ha)%task_anchor_anchored. by eapply tw_anchors.
Qed.

(** ** The draft tier *)

(** The anchor chain of [k] reaches the target or an absolute date. *)
Inductive grounded (spec : WorkflowSpec) : string → Prop :=
  | gr_absolute t a : t ∈ w_tasks spec → t_schedule t = Some (Absolute a) → grounded spec (t_key t)
  | gr_target t r : t ∈ w_tasks spec → t_schedule t = Some (Relative r) → rel_anchor r = TARGET_ANCHOR →
      grounded spec (t_key t)
  | gr_anchor t r : t ∈ w_tasks spec → t_schedule t = Some (Relative r) → rel_anchor r ≠ TARGET_ANCHOR →
      grounded spec (rel_anchor r) → grounded spec (t_key t).

Lemma resolvable_loop_sound fuel spec k seen : resolvable_loop fuel spec k seen = Some true → grounded spec k.
Proof.
  revert k seen. induction fuel as [|fuel IH]; intros k seen; cbn [resolvable_loop];
    destruct (_ || _); try done; destruct (tasks_by_key (w_tasks spec) !! k) as [t|] eqn:Ek; cbn; try done;
    apply tasks_by_key_elem in Ek as [Ht <-];
    destruct (t_schedule t) as [[a|r]|] eqn:Es; try done; try (intros _; by eapply gr_absolute).
  all: destruct (rel_anchor r ≟ TARGET_ANCHOR) eqn:Ea; bprop; [intros _; by eapply gr_target|]; try done.
  intros Hl. eapply gr_anchor; [done|done|done|by eapply IH].
Qed.

Lemma resolvable_loop_complete spec fuel k seen :
  schema_ok spec = true → template_wf spec → present_str (w_target spec ≫= tg_at) = true →
  grounded spec k → NoDup seen → seen ⊆ task_keys spec → (∀ s, s ∈ seen → tc (anchored (w_tasks spec)) s k) →
  (length (task_keys spec) <= length seen + fuel)%nat → resolvable_loop fuel spec k seen = Some true.
Proof.
  intros Hok Hwf Htgt Hg. revert fuel seen.
  assert (Hhead : ∀ t fuel seen, t ∈ w_tasks spec → NoDup seen → seen ⊆ task_keys spec →
    (∀ s, s ∈ seen → tc (anchored (w_tasks spec)) s (t_key t)) →
    (length (task_keys spec) <= length seen + fuel)%nat →
    (t_key t ≟ "") || bool_decide (t_key t ∈ seen) = false ∧ fuel ≠ 0%nat ∧
    tasks_by_key (w_tasks spec) !! t_key t = Some t).
  { intros t fuel seen Ht Hn Hs Hb Hl.
    assert (Hts : t_key t ∉ seen) by (intros Hin; apply (tw_anchors_acyclic _ Hwf); exists (t_key t); by apply Hb).
    assert (Hlen : (length (t_key t :: seen) <= length (task_keys spec))%nat).
    { apply NoDup_subset_length; [by constructor|]. intros y [->|Hy]%elem_of_cons; [by apply task_key_elem|by apply Hs]. }
    split_and!; [|cbn in Hlen; lia|apply tasks_by_key_lookup; [apply Hwf|done]].
    rewrite !bool_decide_eq_false_2; [done|done|].
    pose proof (schema_ok_task _ _ Hok Ht) as Htask. unfold task_ok in Htask. bprop.
    by apply TASK_KEY_ok_nonempty. }
  induction Hg as [t a Ht Hs|t r Ht Hs Ha|t r Ht Hs Ha Hg IH]; intros fuel seen Hn Hsub Hb Hl;
    destruct (Hhead t fuel seen Ht Hn Hsub Hb Hl) as (Hc & Hf & Hk);
    (destruct fuel as [|fuel]; [done|]); cbn [resolvable_loop]; rewrite Hc, Hk; cbn; rewrite Hs.
  - done.
  - by rewrite bool_decide_eq_true_2, Htgt.
  - rewrite bool_decide_eq_false_2 by done. apply IH.
    + constructor; [|done]. intros Hin. by rewrite (bool_decide_eq_true_2 _ Hin), orb_true_r in Hc.
    + intros y [->|Hy]%elem_of_cons; [by apply task_key_elem|by apply Hsub].
    + assert (Hedge : anchored (w_tasks spec) (t_key t) (rel_anchor r)) by (by exists t, r).
      intros s [->|Hs']%elem_of_cons; [by constructor|]. eapply tc_r; [by apply Hb|done].
    + cbn. lia.
Qed.

Lemma concrete_target_at spec a tz :
  concrete_target spec = Some (a, tz) → present_str (w_target spec ≫= tg_at) = true.
Proof.
  unfold concrete_target, present_str. destruct (w_target spec) as [tg|]; [|done]. cbn.
  by destruct (truthy_str (tg_at tg)).
Qed.

Lemma resolvable_errors_nil spec :
  schema_ok spec = true → template_wf spec → is_Some (concrete_target spec) →
  resolvable_errors spec = [] ↔
  ∀ t r, t ∈ w_tasks spec → t_schedule t = Some (Relative r) → grounded spec (t_key t).
Proof.
  intros Hok Hwf [[a tz] Ht]. apply concrete_target_at in Ht. unfold resolvable_errors.
  rewrite concat_imap_nil. split.
  - intros He t r Hin Hs. apply list_elem_of_lookup in Hin as [i Hi]. specialize (He i t Hi). rewrite Hs in He.
    destruct (resolvable spec (t_key t)) eqn:E; [|done]. unfold resolvable in E.
    apply (resolvable_loop_sound (length (w_tasks spec)) spec (t_key t) []).
    by destruct (resolvable_loop _ _ _ _) as [[]|].
  - intros Hg i t Hi. destruct (t_schedule t) as [[|r]|] eqn:Hs; try done.
    assert (Hin : t ∈ w_tasks spec) by (by eapply list_elem_of_lookup_2).
    unfold resolvable. rewrite resolvable_loop_complete; [done|done|done|done|by eapply Hg|constructor|
      by intros ? ?%elem_of_nil|by intros ? ?%elem_of_nil|]. unfold task_keys. by rewrite length_map.
Qed.

Lemma dedup_nil l : dedup l = [] ↔ l = [].
Proof.
  unfold dedup. destruct l as [|x l]; [done|]. split; [|done]. cbn.
  assert (Hne : ∀ acc, acc ≠ [] → foldl (λ acc x, if bool_decide (x ∈ acc) then acc else acc ++ [x]) acc l ≠ []).
  { induction l as [|y l IH]; intros acc Ha; [done|]. cbn. apply IH. case_bool_decide; [done|]. by destruct acc. }
  intros E. by apply Hne in E.
Qed.

Lemma placeholder_errors_nil spec :
  placeholder_errors spec = [] ↔
  ∀ u, u ∈ collectPlaceholderUsages (WorkflowSpec_json spec) [] → u.1 ∈ u.2.
Proof.
  assert (Hm : ∀ A B (f : A → B) l, map f l = [] ↔ l = []) by (intros A B f []; by split).
  unfold placeholder_errors, findUnresolvedPlaceholders. rewrite Hm, dedup_nil, Hm, filter_nil_iff.
  split; intros Hu u Hin; specialize (Hu u Hin); [by bprop|by rewrite bool_decide_eq_true_2].
Qed.

Lemma horizon_errors_nil resolved targetMs spec :
  horizon_errors resolved targetMs spec = [] ↔
  ∀ t off, t ∈ w_tasks spec → days_off resolved targetMs t = Some off → off <= maxScheduleHorizonDays * ms_per_day.
Proof.
  unfold horizon_errors.
  rewrite (task_checks_nil _ (λ t, ∀ off, days_off resolved targetMs t = Some off →
    off <= maxScheduleHorizonDays * ms_per_day)); [split; eauto|].
  intros i t. destruct (days_off resolved targetMs t) as [off|]; [|by split].
  cbv zeta. rewrite if_singleton_nil, Z.ltb_ge. split; [by intros Hl ? [= <-]|auto].
Qed.

(** A concrete, resolvable template whose plan stays within the horizon. *)
Record draft_wf (now : Z) (spec : WorkflowSpec) : Prop := {
  dw_template : template_wf spec;
  dw_target : is_Some (concrete_target spec);
  dw_placeholders u : u ∈ collectPlaceholderUsages (WorkflowSpec_json spec) [] → u.1 ∈ u.2;
  dw_grounded t r : t ∈ w_tasks spec → t_schedule t = Some (Relative r) → grounded spec (t_key t);
  dw_horizon : ∃ res, resolveSchedule now spec no_options = Ok res ∧
    ∀ t off a tz, t ∈ w_tasks spec → concrete_target spec = Some (a, tz) →
      days_off (rr_tasks res) (parseInstantMs a tz) t = Some off → off <= maxScheduleHorizonDays * ms_per_day;
}.

Lemma draft_errors_nil now spec :
  schema_ok spec = true → template_wf spec → draft_errors now spec = Ok [] ↔ draft_wf now spec.
Proof.
  intros Hok Hwf. unfold draft_errors. cbv zeta.
  assert (Ht : target_errors spec = [] ↔ is_Some (concrete_target spec)).
  { unfold target_errors. destruct (concrete_target spec); cbn; split; try done; by intros [? ?]. }
  destruct (concrete_target spec) as [[a tz]|] eqn:Ec.
  2: { split; [|by intros Hd; destruct (dw_target _ _ Hd) as [? Hx]; congruence]. intros [= E]. apply app_eq_nil in E as [E _].
       apply Ht in E. by destruct E. }
  assert (Hsome : is_Some (concrete_target spec)) by (rewrite Ec; by eexists).
  destruct (length _ =? 0)%nat eqn:El; [apply Nat.eqb_eq, length_zero_iff_nil in El|].
  - rewrite El. pose proof El as E. rewrite !app_nil_iff, placeholder_errors_nil, resolvable_errors_nil in E by done.
    destruct E as (_ & Hph & Hgr). rewrite result_bind_Ok. split.
    + intros (res & Hres & [= Hh]). constructor; try done. exists res. split; [done|].
      intros t off a' tz' Hin Hc'. rewrite Ec in Hc'. injection Hc' as <- <-.
      apply (proj1 (horizon_errors_nil _ _ spec) Hh t off Hin).
    + intros [_ _ _ _ (res & Hres & Hh)]. exists res. split; [done|]. cbn. f_equal.
      apply horizon_errors_nil. intros t off Hin Hoff. by eapply Hh.
  - split; [intros [= E]; rewrite E in El; done|]. intros [_ _ Hph Hgr _]. exfalso.
    rewrite (proj2 Ht), (proj2 (placeholder_errors_nil spec) Hph),
      (proj2 (resolvable_errors_nil spec Hok Hwf Hsome) Hgr) in El; [done|by eexists].
Qed.
(** ** The start tier *)

(** No task hangs below another, and the injected check knows every agent. *)
Record startable (ctx : option StartContext) (spec : WorkflowSpec) : Prop := {
  st_flat t p : t ∈ w_tasks spec → t_parent t = Some p → p = "" ∨ p ∉ task_keys spec;
  st_agents c f t a i : ctx = Some c → sx_agentExists c = Some f → t ∈ w_tasks spec →
    t_body t = AgentTask a i → f a = true;
}.

Lemma start_errors_nil ctx spec : start_errors ctx spec = [] ↔ startable ctx spec.
Proof.
  unfold start_errors. rewrite app_nil_iff, if_singleton_nil, <- not_true_iff_false, existsb_exists.
  assert (Hflat : ¬ (∃ t, In t (w_tasks spec) ∧ match truthy_str (t_parent t) with
      | Some p => bool_decide (p ∈ task_keys spec) | None => false end = true) ↔
    ∀ t p, t ∈ w_tasks spec → t_parent t = Some p → p = "" ∨ p ∉ task_keys spec).
  { split.
    - intros Hn t p Ht Hp. destruct (decide (p = "")) as [|Hne]; [by left|right]. intros Hk. apply Hn.
      exists t. split; [by apply list_elem_of_In|].
      assert (truthy_str (t_parent t) = Some p) as -> by (by apply truthy_str_Some).
      by rewrite bool_decide_eq_true_2.
    - intros Hf (t & Ht%list_elem_of_In & Hb). destruct (truthy_str (t_parent t)) as [p|] eqn:E; [|done].
      apply truthy_str_Some in E as [Ep Hne]. bprop. by destruct (Hf t p Ht Ep). }
  rewrite Hflat.
  assert (Hagents : ∀ f : AgentRef → bool, concat (imap (λ i t, match t_body t with
      | AgentTask agentRef _ =>
          if f agentRef then []
          else [spec_error "AGENT_NOT_FOUND" ("Task " +:+ quoted (t_key t) +:+
                  " references an agent that does not exist or is not authorized.")
                  (Some (task_path i "agentRef"))]
      | _ => [] end) (w_tasks spec)) = [] ↔ ∀ t a i, t ∈ w_tasks spec → t_body t = AgentTask a i → f a = true).
  { intros f. rewrite (task_checks_nil _ (λ t, ∀ a i, t_body t = AgentTask a i → f a = true)); [split; eauto|].
    intros i t. destruct (t_body t) as [a inp| | | | |]; try (by split).
    destruct (f a) eqn:E; split; try done; [by intros _ ? ? [= <- <-]|intros Hf; by rewrite (Hf a inp) in E]. }
  split.
  - intros [H1 H2]. split; [done|]. intros c f t a i -> Hf Ht Hb. rewrite Hf in H2. by eapply Hagents.
  - intros [H1 H2]. split; [done|]. destruct ctx as [c|]; [|done].
    destruct (sx_agentExists c) as [f|] eqn:Ef; [|done]. apply Hagents. intros t a i. by eapply H2.
Qed.

Lemma nil_length_eqb {A} (l : list A) : (length l =? 0)%nat = true ↔ l = [].
Proof. by rewrite Nat.eqb_eq, length_zero_iff_nil. Qed.

(** What the development assumes of Zod: a spec it returns satisfies the
    constraints of the schema. *)
Hypothesis safeParse_sound : ∀ input spec, safeParse input = Ok spec → schema_ok spec = true.

Lemma validateTemplate_cases input :
  vr_ok (validateTemplate safeParse input) = true ↔
  ∃ spec, safeParse input = Ok spec ∧ template_wf spec ∧
    validateTemplate safeParse input =
      {| vr_ok := true; vr_tier := tier_template; vr_errors := []; vr_spec := Some spec |}.
Proof.
  unfold validateTemplate. destruct (safeParse input) as [spec|issues] eqn:E; cbn [vr_ok].
  - pose proof (safeParse_sound _ _ E) as Hok. rewrite nil_length_eqb. split.
    + intros Hn. exists spec. rewrite Hn. split_and!; [done|by apply template_errors_nil|done].
    + intros (spec' & [= <-] & Hwf & _). by apply template_errors_nil.
  - split; [done|]. by intros (? & ? & _).
Qed.

Lemma validateDraft_cases now input r :
  validateDraft safeParse now input = Ok r →
  vr_ok r = true ↔ ∃ spec, safeParse input = Ok spec ∧ draft_wf now spec ∧
    r = {| vr_ok := true; vr_tier := tier_draft; vr_errors := []; vr_spec := Some spec |}.
Proof.
  unfold validateDraft. cbv zeta. destruct (vr_ok (validateTemplate safeParse input)) eqn:Eo.
  - apply validateTemplate_cases in Eo as (spec & Es & Hwf & ->). cbn. intros Hr.
    apply result_bind_Ok in Hr as (errs & Herr & [= <-]). cbn [vr_ok]. rewrite nil_length_eqb. split.
    + intros ->. exists spec. split; [done|]. split; [|done]. apply draft_errors_nil; [by eapply safeParse_sound|done..].
    + intros (spec' & Es' & Hd & _). rewrite Es in Es'. injection Es' as <-.
      apply draft_errors_nil in Hd; [|by eapply safeParse_sound|done]. congruence.
  - intros Hr. assert (vr_ok r = false) as ->.
    { destruct (vr_spec _); injection Hr as <-; done. }
    split; [done|]. intros (spec & Es & Hd & _). exfalso.
    assert (vr_ok (validateTemplate safeParse input) = true); [|congruence].
    unfold validateTemplate. rewrite Es. cbn. apply nil_length_eqb, template_errors_nil; [by eapply safeParse_sound|].
    apply Hd.
Qed.

(** C5: The template tier accepts exactly the inputs that parse to a spec with
    distinct task keys, references to known tasks only, acyclic dependency,
    anchor and hierarchy graphs with no anchor on an ancestor, bare summary
    parents, runnable fan-outs, known time zones, and everything in bounds;
    and every accepted spec can be planned by the resolver. *)
Theorem validateTemplate_accepts input :
  (vr_ok (validateTemplate safeParse input) = true ↔
   ∃ spec, safeParse input = Ok spec ∧ template_wf spec) ∧
  (∀ spec, vr_ok (validateTemplate safeParse input) = true →
     vr_spec (validateTemplate safeParse input) = Some spec → plannable spec).
Proof.
  split.
  - rewrite validateTemplate_cases. split; [intros (spec & ? & ? & _); eauto|].
    intros (spec & Es & Hwf). exists spec. split_and!; [done|done|]. unfold validateTemplate. rewrite Es.
    apply template_errors_nil in Hwf; [|by eapply safeParse_sound]. by rewrite Hwf.
  - intros spec (spec' & _ & Hwf & ->)%validateTemplate_cases [= <-]. by apply template_wf_plannable.
Qed.


(** The start tier accepts exactly the accepted drafts that are flat and
    whose agents all exist, when an agent check is injected. *)
Theorem validateStart_accepts now input ctx :
  (∃ r, validateStart safeParse now input ctx = Ok r ∧ vr_ok r = true) ↔
  ∃ spec, safeParse input = Ok spec ∧ draft_wf now spec ∧ startable ctx spec.
Proof.
  unfold validateStart. split.
  - intros (r & Hr & Ho). apply result_bind_Ok in Hr as (base & Hb & Hr).
    destruct (vr_ok base) eqn:Eb.
    + apply (validateDraft_cases _ _ _ Hb) in Eb as (spec & Es & Hd & ->). cbn in Hr. injection Hr as <-.
      cbn [vr_ok] in Ho. apply nil_length_eqb, start_errors_nil in Ho. by exists spec.
    + exfalso. assert (vr_ok r = false) by (destruct (vr_spec base); injection Hr as <-; done). congruence.
  - intros (spec & Es & Hd & Hst). pose proof (safeParse_sound _ _ Es) as Hok.
    pose proof (proj2 (template_errors_nil spec Hok) (dw_template _ _ Hd)) as Ht.
    apply (draft_errors_nil now spec Hok (dw_template _ _ Hd)) in Hd as He.
    apply start_errors_nil in Hst.
    exists {| vr_ok := true; vr_tier := tier_start; vr_errors := []; vr_spec := Some spec |}.
    split; [|done]. unfold validateDraft, validateTemplate. rewrite Es. cbn. rewrite Ht. cbn. rewrite He. cbn.
    by rewrite Hst.
Qed.
End tiers.

(** ** Concrete inputs *)

(** A parser that returns one spec, for the witnesses. *)
Definition parse_as (spec : WorkflowSpec) : json → result (list ZodIssue) WorkflowSpec := λ _, Ok spec.

Lemma parse_as_sound spec input spec' :
  schema_ok spec = true → parse_as spec input = Ok spec' → schema_ok spec' = true.
Proof. by intros Hok [= <-]. Qed.

Lemma release_plan_ok : schema_ok release_plan = true.
Proof. vm_compute. reflexivity. Qed.

(** The release plan without its hierarchy. *)
Definition flat_plan : WorkflowSpec := {|
  w_key := None; w_name := "release"; w_product := None; w_target := w_target release_plan;
  w_placeholders := None; w_metadata := None;
  w_tasks := [plan_task "freeze" (plan_offset "target" "P7D" sd_before) (Some true) None;
              plan_task "announce" (plan_offset "freeze" "P1D" sd_after) None None] |}.

Lemma flat_plan_ok : schema_ok flat_plan = true.
Proof. vm_compute. reflexivity. Qed.

Lemma validateTemplate_accepts_witness :
  (∃ spec, parse_as release_plan JNull = Ok spec ∧ template_wf spec) ∧ plannable release_plan.
Proof.
  destruct (validateTemplate_accepts (parse_as release_plan)
    (λ i s, parse_as_sound release_plan i s release_plan_ok) JNull) as [H1 H2].
  assert (Hok : vr_ok (validateTemplate (parse_as release_plan) JNull) = true) by (vm_compute; reflexivity).
  split; [exact (proj1 H1 Hok)|]. apply (H2 release_plan Hok). reflexivity.
Defined.


Lemma validateStart_accepts_witness :
  ∃ spec, parse_as flat_plan JNull = Ok spec ∧ draft_wf 0 spec ∧ startable None spec.
Proof.
  apply (validateStart_accepts (parse_as flat_plan)
    (λ i s, parse_as_sound flat_plan i s flat_plan_ok) 0 JNull None).
  eexists. split; [vm_compute; reflexivity|reflexivity].
Defined.

(** A target date that has the form of a date and is none. *)
Definition month_13_plan : WorkflowSpec := {|
  w_key := None; w_name := "release"; w_product := None;
  w_target := Some {| tg_at := Some "2024-13-01T00:00:00Z"; tg_tz := "UTC" |};
  w_placeholders := None; w_metadata := None;
  w_tasks := [plan_task "freeze" (plan_offset "target" "P7D" sd_before) None None] |}.

(** A spec whose target date matches the schema's pattern but is no calendar
    date passes the schema constraints and the template tier, and makes the
    draft tier throw a RangeError instead of reporting an error. *)
Theorem validateDraft_throws now input :
  schema_ok month_13_plan = true ∧
  vr_ok (validateTemplate (parse_as month_13_plan) input) = true ∧
  validateDraft (parse_as month_13_plan) now input = Err InvalidTimeValue.
Proof. split_and!; vm_compute; reflexivity. Qed.
