(* ===== verification/Bpmn.v ===== *)
(** * The BPMN import ([bpmn/profile.ts], [bpmn/compile.ts])

    A workflow extension ships its workflow as a BPMN document.  The XML parser
    (bpmn-moddle) turns it into an object graph; the profile validator rejects
    every construct the engine has no meaning for, and the compiler builds the
    object the spec schema parses: tasks from the task elements, dependencies
    from the sequence flows with parallel gateways transparent.

    The parsed document is a [json] value.  A reference of the graph
    ([sourceRef], [targetRef]) is the referenced element, of which the code
    reads the id only.  [JSON.parse] and [Number] of a text are the class
    [JsText]: their results are values and number literals of [json]. *)

From S2P Require Import Prelude Json Time Spec Validate.

(** [js_parse s] is [JSON.parse(s)], absent when it throws; [js_number s] is the
    literal of [Number(s)], absent when that is not finite. *)
Class JsText := { js_parse : string → option json; js_number : string → option string }.

(** ** Elements *)

Definition asArray (v : option json) : list json := match v with Some (JArr l) => l | _ => [] end.

(** [v?.k]. *)
Definition sub (k : string) (v : option json) : option json := v ≫= jprop k.

(** [`${e.$type}`] *)
Definition etype (e : json) : string := str_of (jprop "$type" e) ?? "undefined".

(** [typeof e.id === "string" ? e.id : null]. *)
Definition elementId (e : json) : option string := str_of (jprop "id" e).

Definition flowElements (process : json) : list json := asArray (jprop "flowElements" process).

(** A text that is not empty. *)
Definition str (v : option json) : option string := truthy_str (str_of v).

Definition extValues (el : option json) : list json :=
  asArray (sub "values" (sub "extensionElements" el)).

Definition findExt (el : option json) (type : string) : option json :=
  List.find (λ v, etype v ≟ type) (extValues el).

Definition TASK_TYPES : list string := ["bpmn:UserTask"; "bpmn:ServiceTask"; "bpmn:ManualTask"; "bpmn:SendTask"].

(** [(f.sourceRef as ModdleElement)?.id], when truthy. *)
Definition ref_id (k : string) (flow : json) : option string := str (sub "id" (jprop k flow)).

Definition is_flow (e : json) : bool := etype e ≟ "bpmn:SequenceFlow".

(** ** The profile validator *)

Record UnsupportedConstruct := { uc_elementId : option string; uc_elementType : string; uc_reason : string }.

Definition unsupported (el : json) (reason : string) : UnsupportedConstruct :=
  {| uc_elementId := elementId el; uc_elementType := etype el; uc_reason := reason |}.

Definition SUPPORTED_LOOP_TYPE : string := "bpmn:MultiInstanceLoopCharacteristics".

Definition isTaskType (t : option string) : bool :=
  match t with Some t => bool_decide (t ∈ TASK_TYPES) | None => false end.

(** [typeById]: a later element with the same id wins. *)
Definition typeById (els : list json) : gmap string string :=
  foldl (λ m e, match elementId e with Some i => <[i := etype e]> m | None => m end) ∅ els.

Definition event_errors (el : json) (which : string) : list UnsupportedConstruct :=
  match asArray (jprop "eventDefinitions" el) with
  | [] => []
  | _ => [unsupported el ("typed " +:+ which +:+ " events (eventDefinitions) are not supported in Profile 1.0")]
  end.

Definition has_outcome (el : json) : bool := is_present (findExt (Some el) "cinatra:TransitionOutcome").

Definition flow_errors (types : gmap string string) (el : json) : list UnsupportedConstruct :=
  (if truthy (jprop "conditionExpression" el)
   then [unsupported el "conditionExpression on sequenceFlow is not supported in Profile 1.0 (no condition semantics)"]
   else []) ++
  (if has_outcome el then
     let srcType := types !! (str_of (sub "id" (jprop "sourceRef" el)) ?? "") in
     if isTaskType srcType then []
     else [unsupported el ("cinatra:transitionOutcome may only appear on a task-outbound sequenceFlow (source is "
                           +:+ (srcType ?? "unknown") +:+ ")")]
   else []).

Definition loop_errors (el : json) : list UnsupportedConstruct :=
  match jprop "loopCharacteristics" el with
  | Some loop =>
      if json_truthy loop then
        if negb (etype loop ≟ SUPPORTED_LOOP_TYPE) then
          [unsupported loop ("loopCharacteristics " +:+ etype loop +:+ " is not supported (only "
                             +:+ SUPPORTED_LOOP_TYPE +:+ ")")]
        else if is_present (findExt (Some loop) "cinatra:ForeachSource") then []
        else [unsupported loop "multiInstanceLoopCharacteristics requires a cinatra:foreachSource (native loopCardinality / completionCondition is not supported in Profile 1.0)"]
      else []
  | None => []
  end.

Definition element_errors (types : gmap string string) (el : json) : list UnsupportedConstruct :=
  let t := etype el in
  if t ≟ "bpmn:StartEvent" then event_errors el "start"
  else if t ≟ "bpmn:EndEvent" then event_errors el "end"
  else if t ≟ "bpmn:SequenceFlow" then flow_errors types el
  else if isTaskType (Some t) then loop_errors el
  else if t ≟ "bpmn:ParallelGateway" then []
  else [unsupported el ("flow element " +:+ t +:+ " is not supported in Profile 1.0")].

Definition root_errors (roots : list json) : list UnsupportedConstruct :=
  map (λ re, unsupported re ("root element " +:+ etype re +:+
               " is not supported (Profile 1.0 allows a single bpmn:Process)"))
    (List.filter (λ e, negb (etype e ≟ "bpmn:Process")) roots).

Definition processes_of (definitions : json) : list json :=
  List.filter (λ e, etype e ≟ "bpmn:Process") (asArray (jprop "rootElements" definitions)).

Definition count_type (type : string) (els : list json) : nat :=
  length (List.filter (λ e, etype e ≟ type) els).

(** The two lists of errors; the document is accepted when both are empty. *)
Definition validateBpmnAgainstProfile (definitions : json) : list UnsupportedConstruct * list string :=
  let roots := root_errors (asArray (jprop "rootElements" definitions)) in
  match processes_of definitions with
  | [] => (roots, ["no bpmn:Process found (Profile 1.0 requires exactly one)"])
  | process :: others =>
      let els := flowElements process in
      let starts := count_type "bpmn:StartEvent" els in
      (roots ++ concat (map (element_errors (typeById els)) els),
       (match others with
        | [] => []
        | _ => ["expected exactly one bpmn:Process, found " +:+ show_nat (S (length others))]
        end) ++
       (if (starts =? 1)%nat then [] else ["expected exactly one startEvent, found " +:+ show_nat starts]) ++
       (if (count_type "bpmn:EndEvent" els <? 1)%nat then ["expected at least one endEvent, found 0"] else []))
  end.

Definition profile_ok (definitions : json) : bool :=
  match validateBpmnAgainstProfile definitions with ([], []) => true | _ => false end.

(** ** What the profile can express *)

Record LossyField := { lf_field : string; lf_taskKey : option string; lf_reason : string }.

(** [v != null]. *)
Definition nonnull (v : option json) : bool := match v with None | Some JNull => false | Some _ => true end.

Definition nonempty_text (v : option json) : bool := is_present (str v).

Definition lossy (bad : bool) (field : string) (key : option string) (reason : string) : list LossyField :=
  if bad then [{| lf_field := field; lf_taskKey := key; lf_reason := reason |}] else [].

(** The fields of the task itself. *)
Definition own_lossiness (task : json) : list LossyField :=
  let key := str_of (jprop "key" task) in
  let type := str_of (jprop "type" task) in
  let present k := nonnull (jprop k task) in
  lossy (bool_decide (jprop "required" task = Some (JBool false))) "required" key
    "task.required:false is not representable in Profile 1.0 (required defaults to true)" ++
  lossy (bool_decide (jprop "pinned" task = Some (JBool true))) "pinned" key "task.pinned is not in Profile 1.0" ++
  lossy (nonempty_text (jprop "risk" task)) "risk" key "task.risk is not in Profile 1.0" ++
  lossy (present "parent") "parent" key "task.parent (hierarchy) is not in Profile 1.0" ++
  lossy (present "assignee") "assignee" key "task.assignee is not in Profile 1.0" ++
  lossy (present "missedWindowPolicy") "missedWindowPolicy" key "task.missedWindowPolicy is not in Profile 1.0" ++
  lossy (present "retryPolicy") "retryPolicy" key "task.retryPolicy is not in Profile 1.0" ++
  lossy (present "cancelPolicy") "cancelPolicy" key "task.cancelPolicy is not in Profile 1.0" ++
  lossy (type ≟ Some "wait") "type" key ("task type " +:+ quoted "wait" +:+ " is not in Profile 1.0") ++
  lossy ((type ≟ Some "approval") && present "solicitation") "approval.solicitation" key
    "approval.solicitation is not in Profile 1.0" ++
  lossy ((type ≟ Some "approval") && present "deadlineIso8601") "approval.deadlineIso8601" key
    "approval.deadlineIso8601 is not in Profile 1.0" ++
  lossy ((type ≟ Some "manual") && nonempty_text (jprop "instructions" task)) "manual.instructions" key
    "manual.instructions is not in Profile 1.0" ++
  lossy ((type ≟ Some "notification") && negb (length (asArray (jprop "recipients" task)) =? 0)%nat)
    "notification.recipients" key "notification.recipients is not in Profile 1.0".

(** The task and the template of its fan-out. *)
Fixpoint checkTaskLossiness (task : json) : list LossyField :=
  own_lossiness task ++
  match task with
  | JObj kvs => jfind (λ fe, match fe with
                             | JObj fkvs => jfind (λ t, if json_truthy t then checkTaskLossiness t else [])
                                              "template" [] fkvs
                             | _ => []
                             end) "foreach" [] kvs
  | _ => []
  end.

(** Accepted when no error is reported. *)
Definition validateWorkflowSpecAgainstBpmnProfile (spec : WorkflowSpec) : list LossyField :=
  concat (map (λ t, checkTaskLossiness (TaskSpec_json t)) (w_tasks spec)).

(** ** The compiler *)

Inductive BpmnErrorCode := bpmn_taskinput_invalid_json | bpmn_placeholder_duplicate | bpmn_structure_invalid.

#[export] Instance BpmnErrorCode_eq_dec : EqDecision BpmnErrorCode.
Proof. solve_decision. Defined.

(** [BpmnCompileException.error]. *)
Record BpmnCompileError := { bc_code : BpmnErrorCode; bc_elementId : option string; bc_reason : string }.

Notation compiled := (result BpmnCompileError).

Definition fail {A} (code : BpmnErrorCode) (elementId : option string) (reason : string) : compiled A :=
  Err {| bc_code := code; bc_elementId := elementId; bc_reason := reason |}.

Definition structureInvalid {A} (elementId : option string) (reason : string) : compiled A :=
  fail bpmn_structure_invalid elementId reason.

(** [str(v)], or the failure. *)
Definition require {A} (v : option A) (elementId : option string) (reason : string) : compiled A :=
  match v with Some a => mret a | None => structureInvalid elementId reason end.

Definition toBool (v : option json) : option bool :=
  match v with
  | Some (JBool b) => Some b
  | Some (JStr "true") => Some true
  | Some (JStr "false") => Some false
  | _ => None
  end.

Definition processOf (definitions : json) : compiled json :=
  match processes_of definitions with
  | [p] => mret p
  | l => structureInvalid None ("expected exactly one bpmn:Process, found " +:+ show_nat (length l))
  end.

(** [if (str(s.k)) out.k = str(s.k)]. *)
Definition copy_str (k : string) (s : json) : list (string * json) := fld k (JStr <$> str (jprop k s)).

(** The names every plain object inherits. *)
Definition object_prototype : list string :=
  ["constructor"; "__defineGetter__"; "__defineSetter__"; "hasOwnProperty"; "__lookupGetter__";
   "__lookupSetter__"; "isPrototypeOf"; "propertyIsEnumerable"; "toString"; "valueOf"; "__proto__";
   "toLocaleString"].

(** [name in obj] on a plain object. *)
Definition js_in (name : string) (obj : list (string * json)) : bool :=
  is_present (jget name obj) || bool_decide (name ∈ object_prototype).

Section compiler.
Context `{JsText}.

(** A finite number, or the finite [Number(s)] of a text that is not blank. *)
Definition toInt (v : option json) : option string :=
  match v with
  | Some (JNum lit) => Some lit
  | Some (JStr s) => if trim s ≟ "" then None else js_number s
  | _ => None
  end.

(** ** Placeholders *)

Definition coerceDefault (raw : option string) (type name : string) : compiled (option json) :=
  match raw with
  | None => mret None
  | Some raw =>
      if type ≟ "number" then
        n ← require (js_number raw) None
              ("placeholder " +:+ quoted name +:+ " default " +:+ json_quote raw +:+ " is not a valid number");
        mret (Some (JNum n))
      else if type ≟ "boolean" then
        b ← require (toBool (Some (JStr raw))) None
              ("placeholder " +:+ quoted name +:+ " default " +:+ json_quote raw +:+ " is not a valid boolean");
        mret (Some (JBool b))
      else mret (Some (JStr raw))
  end.

(** The two objects: the declarations and the hints. *)
Definition placeholder_step (acc : list (string * json) * list (string * json)) (p : json)
    : compiled (list (string * json) * list (string * json)) :=
  name ← require (str (jprop "name" p)) (elementId p) "cinatra:placeholder is missing a name";
  if js_in name acc.1 then fail bpmn_placeholder_duplicate None ("duplicate placeholder name " +:+ quoted name)
  else
    let type := str (jprop "type" p) ?? "string" in
    def ← coerceDefault (str (jprop "default" p)) type name;
    let decl := JObj ([("type", JStr type)] ++ fld "required" (JBool <$> toBool (jprop "required" p)) ++
                      copy_str "description" p ++ fld "default" def) in
    let hints := match str (sub "kind" (jprop "hint" p)) with
                 | Some kind => jset name (JObj [("kind", JStr kind)]) acc.2
                 | None => acc.2
                 end in
    mret (jset name decl acc.1, hints).

Fixpoint foldR {E A B} (f : B → A → result E B) (b : B) (l : list A) : result E B :=
  match l with [] => mret b | x :: r => b' ← f b x; foldR f b' r end.

Definition compilePlaceholders (process : json)
    : compiled (option (list (string * json)) * list (string * json)) :=
  match findExt (Some process) "cinatra:Placeholders" with
  | None => mret (None, [])
  | Some block =>
      r ← foldR placeholder_step ([], []) (asArray (jprop "placeholders" block));
      mret (match r.1 with [] => None | l => Some l end, r.2)
  end.

(** ** Schedules *)

Definition compileSchedule (task : json) : compiled (option json) :=
  match findExt (Some task) "cinatra:TaskSchedule" with
  | None => mret None
  | Some s =>
      match str (jprop "mode" s) with
      | Some "absolute" =>
          a ← require (str (jprop "at" s)) (elementId task) "absolute schedule requires `at`";
          mret (Some (JObj ([("mode", JStr "absolute"); ("at", JStr a)] ++ copy_str "tz" s ++
                            copy_str "anchorPoint" s ++ copy_str "durationIso8601" s)))
      | Some "relative" =>
          let parts := anchor ← str (jprop "anchor" s); offset ← str (jprop "offsetIso8601" s);
                       direction ← str (jprop "direction" s); Some (anchor, offset, direction) in
          p ← require parts (elementId task) "relative schedule requires anchor + offsetIso8601 + direction";
          mret (Some (JObj ([("mode", JStr "relative"); ("anchor", JStr p.1.1); ("offsetIso8601", JStr p.1.2);
                             ("direction", JStr p.2)] ++ copy_str "localTime" s ++ copy_str "tz" s ++
                            copy_str "anchorPoint" s ++ copy_str "durationIso8601" s)))
      | Some mode => structureInvalid (elementId task) ("unknown schedule mode " +:+ quoted mode)
      | None => mret None
      end
  end.
End compiler.

(** ** Dependencies *)

(** A dependency before the schema has checked its outcome. *)
Record FlowDep := { fd_taskKey : string; fd_outcome : option string }.

Definition FlowDep_json (d : FlowDep) : json :=
  JObj ([("taskKey", JStr (fd_taskKey d))] ++ fld "outcome" (JStr <$> fd_outcome d)).

Definition byId (els : list json) : gmap string json :=
  foldl (λ m e, match str (jprop "id" e) with Some i => <[i := e]> m | None => m end) ∅ els.

(** The sequence flows by target. *)
Definition incoming (els : list json) : gmap string (list json) :=
  foldl (λ m e, if is_flow e then
                  match ref_id "targetRef" e with
                  | Some t => <[t := (m !! t ?? []) ++ [e]]> m
                  | None => m
                  end
                else m) ∅ els.

Definition outcome_of (flow : json) : option string :=
  str (sub "outcome" (findExt (Some flow) "cinatra:TransitionOutcome")).

(** One edge per upstream task; two outcomes on one edge cannot be stored. *)
Definition collapse_step (targetId : string) (acc : list FlowDep) (d : FlowDep) : compiled (list FlowDep) :=
  match List.find (λ x, fd_taskKey x ≟ fd_taskKey d) acc with
  | None => mret (acc ++ [d])
  | Some existing =>
      if fd_outcome existing ≟ fd_outcome d then mret acc
      else structureInvalid (Some targetId)
             ("conflicting dependency outcomes on " +:+ quoted (fd_taskKey d) +:+ " → " +:+ quoted targetId +:+
              " (" +:+ (fd_outcome existing ?? "any") +:+ " vs " +:+ (fd_outcome d ?? "any") +:+ ")")
  end.

Definition collapse (targetId : string) (l : list FlowDep) : compiled (list FlowDep) :=
  foldR (collapse_step targetId) [] l.

Section flows.
Variable els : list json.

(** What one flow into the target contributes, with [up] for the call on a gateway. *)
Definition flow_deps (up : string → compiled (list FlowDep)) (seenGateways : list string) (flow : json)
    : compiled (list FlowDep) :=
  match (srcId ← ref_id "sourceRef" flow; src ← byId els !! srcId; Some (srcId, src)) with
  | None => mret []
  | Some (srcId, src) =>
      if etype src ≟ "bpmn:StartEvent" then mret []
      else if bool_decide (etype src ∈ TASK_TYPES) then
        mret [{| fd_taskKey := srcId; fd_outcome := outcome_of flow |}]
      else if etype src ≟ "bpmn:ParallelGateway" then
        if bool_decide (srcId ∈ seenGateways) then mret []
        else if has_outcome flow then
          structureInvalid (Some srcId)
            "cinatra:transitionOutcome on a parallelGateway-outbound sequenceFlow is not supported; place it on the upstream task's outbound flow"
        else up srcId
      else mret []
  end.

(** [resolve(targetId, seenGateways)].  Every nested call adds a gateway of the
    process to [seenGateways], so the number of elements bounds the depth; the
    call at no fuel is never reached ([resolve_deps_spec]). *)
Fixpoint resolve_deps (fuel : nat) (targetId : string) (seenGateways : list string) : compiled (list FlowDep) :=
  let up srcId := match fuel with
                  | O => mret []
                  | S f => resolve_deps f srcId (seenGateways ++ [srcId])
                  end in
  parts ← mapM (flow_deps up seenGateways) (incoming els !! targetId ?? []);
  collapse targetId (concat parts).

Definition buildDependsOn (taskId : string) : compiled (list FlowDep) := resolve_deps (length els) taskId [].
End flows.

(** ** Tasks *)

(** [{ ...a, ...b }]. *)
Definition spread (a b : list (string * json)) : list (string * json) :=
  foldl (λ acc kv, jset kv.1 kv.2 acc) a b.

Section tasks.
Context `{JsText}.

(** [core] is the task without its schedule, edges and policy. *)
Definition compileForeach (task : json) (core : list (string * json)) : compiled (option json) :=
  match jprop "loopCharacteristics" task with
  | Some loop =>
      if json_truthy loop && (etype loop ≟ SUPPORTED_LOOP_TYPE) then
        match findExt (Some loop) "cinatra:ForeachSource" with
        | None => mret None
        | Some fs =>
            sa ← require (s ← str (jprop "source" fs); a ← str (jprop "as" fs); Some (s, a)) (elementId task)
                   "cinatra:foreachSource requires source + as";
            mret (Some (JObj ([("source", JStr sa.1); ("as", JStr sa.2); ("template", JObj core)] ++
                              copy_str "itemKey" fs ++ copy_str "rollupPolicy" fs ++
                              fld "maxFanout" (JNum <$> toInt (jprop "maxFanout" fs)))))
        end
      else mret None
  | None => mret None
  end.

Definition service_core (task : json) (key : string) : compiled (list (string * json)) :=
  let agent := findExt (Some task) "cinatra:AgentRef" in
  package ← require (str (sub "package" agent)) (Some key)
    ("serviceTask " +:+ quoted key +:+ " requires cinatra:agentRef with a package");
  let ref := JObj ([("package", JStr package)] ++ fld "name" (JStr <$> str (sub "name" agent)) ++
                   fld "version" (JStr <$> str (sub "version" agent)) ++
                   fld "templateId" (JStr <$> str (sub "templateId" agent))) in
  input ← match str (sub "value" (findExt (Some task) "cinatra:TaskInput")) with
          | None => mret None
          | Some body =>
              match js_parse body with
              | Some v => mret (Some v)
              | None => fail bpmn_taskinput_invalid_json (Some key)
                          ("cinatra:taskInput on " +:+ quoted key +:+ " is not valid JSON")
              end
          end;
  mret ([("type", JStr "agent_task"); ("agentRef", ref)] ++ fld "input" input).

Definition user_core (task : json) (key : string) : compiled (list (string * json)) :=
  let kind := str (sub "value" (findExt (Some task) "cinatra:TaskKind")) in
  let cfg := findExt (Some task) "cinatra:ApprovalConfig" in
  if kind ≟ Some "approval" then
    level ← require (str (sub "level" cfg)) (Some key)
      ("approval userTask " +:+ quoted key +:+ " requires cinatra:approvalConfig.level");
    mret ([("type", JStr "approval");
           ("requiredScope", JObj ([("level", JStr level)] ++ fld "id" (JStr <$> str (sub "id" cfg))))] ++
          fld "rejectionPolicy" (JStr <$> str (sub "rejectionPolicy" cfg)))
  else if kind ≟ Some "checkpoint" then mret [("type", JStr "checkpoint")]
  else structureInvalid (Some key)
         ("userTask " +:+ quoted key +:+ " requires cinatra:taskKind value " +:+ quoted "approval" +:+ " | " +:+
          quoted "checkpoint" +:+ " (got " +:+
          match kind with Some k => json_quote k | None => "undefined" end +:+ ")").

(** The properties of [core] after the key and the title. *)
Definition type_core (task : json) (key : string) : compiled (list (string * json)) :=
  let t := etype task in
  if t ≟ "bpmn:ServiceTask" then service_core task key
  else if t ≟ "bpmn:UserTask" then user_core task key
  else if t ≟ "bpmn:ManualTask" then mret [("type", JStr "manual")]
  else if t ≟ "bpmn:SendTask" then
    mret ([("type", JStr "notification")] ++
          fld "message" (JStr <$> str (sub "value" (findExt (Some task) "cinatra:MessageBody"))))
  else structureInvalid (Some key)
         ("unexpected task type " +:+ t +:+ " reached compiler (should be rejected by the profile validator)").

Definition policy_fields (task : json) : list (string * json) :=
  match findExt (Some task) "cinatra:TaskPolicy" with
  | Some policy => copy_str "failurePolicy" policy ++
                   fld "maxAttempts" (JNum <$> toInt (jprop "maxAttempts" policy))
  | None => []
  end.

Definition deps_field (deps : list FlowDep) : list (string * json) :=
  match deps with [] => [] | _ => [("dependsOn", JArr (map FlowDep_json deps))] end.

Definition compileTask (depsFor : string → compiled (list FlowDep)) (task : json) : compiled json :=
  key ← require (str (jprop "id" task)) None ("task " +:+ etype task +:+ " is missing an id");
  title ← require (str (jprop "name" task)) (Some key)
    ("task " +:+ quoted key +:+ " is missing a name (BPMN name → WorkflowSpec title)");
  let head := [("key", JStr key); ("title", JStr title)] in
  schedule ← compileSchedule task;
  deps ← depsFor key;
  let common := head ++ fld "schedule" schedule ++ deps_field deps ++ policy_fields task in
  typed ← type_core task key;
  let core := head ++ typed in
  foreach ← compileForeach task core;
  mret (JObj (spread (spread core common) (fld "foreach" foreach))).

(** The tasks of the compiled spec, in document order. *)
Definition compileTasks (process : json) : compiled (list json) :=
  let els := flowElements process in
  mapM (compileTask (buildDependsOn els)) (List.filter (λ e, bool_decide (etype e ∈ TASK_TYPES)) els).

Definition target_field (meta : option json) : list (string * json) :=
  let target := sub "target" meta in
  match str (sub "tz" target) with
  | Some tz => [("target", JObj ([("tz", JStr tz)] ++ fld "at" (JStr <$> str (sub "at" target))))]
  | None => []
  end.

(** [a ?? b] on possibly absent values. *)
Definition first_of {A} (a b : option A) : option A := match a with Some x => Some x | None => b end.

(** The object handed to the schema. *)
Definition compiled_spec (process : json) : compiled json :=
  let meta := findExt (Some process) "cinatra:WorkflowMeta" in
  let id := str (jprop "id" process) in
  ph ← compilePlaceholders process;
  tasks ← compileTasks process;
  mret (JObj (
    fld "key" (JStr <$> id) ++
    [("name", JStr (first_of (str (sub "name" meta)) (first_of (str (jprop "name" process)) id) ?? "Workflow"));
     ("tasks", JArr tasks)] ++
    fld "product" (JStr <$> str (sub "product" meta)) ++ target_field meta ++
    fld "placeholders" (JObj <$> ph.1) ++
    match ph.2 with [] => [] | hints => [("metadata", JObj [("placeholderHints", JObj hints)])] end)).

Context (safeParse : json → result (list ZodIssue) WorkflowSpec).

Definition issue_text (i : ZodIssue) : string := join "." (zi_path i) +:+ ": " +:+ zi_message i.

Definition compileBpmnToWorkflowSpec (definitions : json) : compiled WorkflowSpec :=
  process ← processOf definitions;
  spec ← compiled_spec process;
  match safeParse spec with
  | Ok w => mret w
  | Err issues => structureInvalid (str (jprop "id" process))
                    ("compiled WorkflowSpec failed schema validation: " +:+ join "; " (map issue_text issues))
  end.
End tasks.

(** ** Dependencies are the walks through gateways *)

(** A flow into [t] from the element [src] with id [u]. *)
Definition flow_into (els : list json) (t : string) (flow : json) (u : string) (src : json) : Prop :=
  flow ∈ els ∧ is_flow flow = true ∧ ref_id "targetRef" flow = Some t ∧
  ref_id "sourceRef" flow = Some u ∧ byId els !! u = Some src.

(** Task [u] runs before [t], directly or through parallel gateways; the outcome
    is that of the flow leaving [u]. *)
Inductive reaches (els : list json) : string → string → option string → Prop :=
  | reaches_task t flow u src :
      flow_into els t flow u src → etype src ∈ TASK_TYPES → reaches els t u (outcome_of flow)
  | reaches_gateway t flow g src u o :
      flow_into els t flow g src → etype src = "bpmn:ParallelGateway" →
      reaches els g u o → reaches els t u o.

(** No flow out of a gateway carries an outcome. *)
Definition outcomes_on_tasks (els : list json) : Prop :=
  ∀ t flow g src, flow_into els t flow g src → etype src = "bpmn:ParallelGateway" → has_outcome flow = false.

(** The same walk, with the gateways it passes from [t] upwards. *)
Inductive walk (els : list json) : string → list string → string → option string → Prop :=
  | walk_task t flow u src :
      flow_into els t flow u src → etype src ∈ TASK_TYPES → walk els t [] u (outcome_of flow)
  | walk_gateway t flow g src gs u o :
      flow_into els t flow g src → etype src = "bpmn:ParallelGateway" →
      walk els g gs u o → walk els t (g :: gs) u o.

Lemma reaches_walk els t u o : reaches els t u o ↔ ∃ gs, walk els t gs u o.
Proof.
  split.
  - induction 1 as [|t flow g src u o ? ? _ [gs IH]]; [by eexists; econstructor|]. by exists (g :: gs); econstructor.
  - intros [gs Hw]. induction Hw; econstructor; eauto.
Qed.

Lemma walk_suffix els a g c t u o : walk els t (a ++ g :: c) u o → walk els g c u o.
Proof.
  revert t. induction a as [|x a IH]; intros t Hw; inversion Hw; subst; [done|]. eauto.
Qed.

(** Loops can be cut out of a walk. *)
Lemma walk_simple els t gs u o : walk els t gs u o → ∃ gs', NoDup gs' ∧ walk els t gs' u o.
Proof.
  induction 1 as [|t flow g src gs u o Hf Hg Hw (gs' & Hn & Hw')].
  - exists []. split; [constructor|by econstructor].
  - destruct (decide (g ∈ gs')) as [Hin|Hin].
    + apply list_elem_of_split in Hin as (a & c & ->). exists (g :: c). split.
      * by apply NoDup_app in Hn as (_ & _ & Hn).
      * econstructor; [done..|]. by eapply walk_suffix.
    + exists (g :: gs'). split; [by constructor|by econstructor].
Qed.

Lemma incoming_lookup els t :
  incoming els !! t ?? [] = List.filter (λ e, is_flow e && (ref_id "targetRef" e ≟ Some t)) els.
Proof.
  unfold incoming. induction els as [|e els IH] using rev_ind; [done|].
  rewrite foldl_app, List.filter_app. cbn [foldl List.filter]. rewrite <-IH. clear IH.
  set (m := foldl _ _ els). destruct (is_flow e); cbn [andb]; [|by rewrite app_nil_r].
  destruct (ref_id "targetRef" e) as [t'|]; [|by rewrite bool_decide_false, app_nil_r by done].
  destruct (decide (t' = t)) as [->|Hn].
  - rewrite lookup_insert_eq, bool_decide_true by done. done.
  - rewrite lookup_insert_ne, bool_decide_false, app_nil_r by congruence. done.
Qed.

Lemma incoming_flow els t flow u src :
  flow_into els t flow u src ↔
  flow ∈ (incoming els !! t ?? []) ∧ ref_id "sourceRef" flow = Some u ∧ byId els !! u = Some src.
Proof.
  rewrite incoming_lookup, !list_elem_of_In, List.filter_In, andb_true_iff, bool_decide_eq_true.
  unfold flow_into. rewrite list_elem_of_In. tauto.
Qed.

Lemma byId_size els : (size (byId els) ≤ length els)%nat.
Proof.
  unfold byId. induction els as [|e els IH] using rev_ind; [done|].
  rewrite foldl_app, length_app. cbn. destruct (str _) as [i|]; [|lia].
  rewrite map_size_insert. destruct (_ !! i); cbn; lia.
Qed.

Lemma collapse_step_spec t acc d :
  match collapse_step t acc d with
  | Ok acc' => (acc' = acc ∧ d ∈ acc) ∨ (acc' = acc ++ [d] ∧ fd_taskKey d ∉ map fd_taskKey acc)
  | Err e => bc_code e = bpmn_structure_invalid ∧
             ∃ x, x ∈ acc ∧ fd_taskKey x = fd_taskKey d ∧ fd_outcome x ≠ fd_outcome d
  end.
Proof.
  unfold collapse_step. destruct (List.find _ acc) as [x|] eqn:Hf.
  - apply find_some in Hf as [Hx Hk]. apply list_elem_of_In in Hx. bprop. case_bool_decide as Ho.
    + left. split; [done|]. assert (x = d) as <- by (destruct x, d; cbn in *; congruence). done.
    + split; [done|]. by exists x.
  - right. split; [done|]. intros (x & Hk & Hx)%list_elem_of_fmap. apply list_elem_of_In in Hx.
    pose proof (find_none _ _ Hf x Hx) as Hne. cbn in Hne. bprop. congruence.
Qed.

(** [collapse] keeps one dependency per task, or finds two outcomes for a task. *)
Lemma collapse_spec t l :
  match collapse t l with
  | Ok r => NoDup (map fd_taskKey r) ∧ (∀ d, d ∈ r ↔ d ∈ l)
  | Err e => bc_code e = bpmn_structure_invalid ∧
             ∃ d d', d ∈ l ∧ d' ∈ l ∧ fd_taskKey d = fd_taskKey d' ∧ fd_outcome d ≠ fd_outcome d'
  end.
Proof.
  unfold collapse.
  cut (∀ acc, NoDup (map fd_taskKey acc) →
    match foldR (collapse_step t) acc l with
    | Ok r => NoDup (map fd_taskKey r) ∧ (∀ d, d ∈ r ↔ d ∈ acc ∨ d ∈ l)
    | Err e => bc_code e = bpmn_structure_invalid ∧
               ∃ d d', (d ∈ acc ∨ d ∈ l) ∧ d' ∈ l ∧ fd_taskKey d = fd_taskKey d' ∧ fd_outcome d ≠ fd_outcome d'
    end).
  { intros Hc. specialize (Hc [] NoDup_nil_2). destruct (foldR _ _ _).
    - destruct Hc as [? Hc]. split; [done|]. intros d. rewrite Hc. set_solver.
    - destruct Hc as (? & d & d' & ? & ? & ? & ?). split; [done|]. exists d, d'. set_solver. }
  induction l as [|d l IH]; intros acc Hacc; cbn [foldR]; [split; [done|]; set_solver|].
  pose proof (collapse_step_spec t acc d) as Hs. destruct (collapse_step t acc d) as [acc'|e]; cbn.
  - assert (NoDup (map fd_taskKey acc') ∧ ∀ x, x ∈ acc' ↔ x ∈ acc ∨ x = d) as [Hn Hin].
    { destruct Hs as [[-> Hd]|[-> Hd]]; [set_solver|]. rewrite map_app. split; [|set_solver].
      apply NoDup_app. split_and!; [done|set_solver|apply NoDup_singleton]. }
    specialize (IH acc' Hn). destruct (foldR _ _ _).
    + destruct IH as [? IH]. split; [done|]. intros x. rewrite IH, Hin. set_solver.
    + destruct IH as (? & a & b & Ha & ? & ? & ?). rewrite Hin in Ha. split; [done|]. exists a, b. set_solver.
  - destruct Hs as (? & x & ? & ? & ?). split; [done|]. exists x, d. set_solver.
Qed.

Lemma task_type_not (t : string) : t ∈ TASK_TYPES → t ≠ "bpmn:StartEvent" ∧ t ≠ "bpmn:ParallelGateway".
Proof. intros Ht. split; intros ->; apply (bool_decide_pack _) in Ht; by vm_compute in Ht. Qed.

Section resolution.
Context (els : list json) (Hout : outcomes_on_tasks els).

(** A walk to [t] that passes each gateway once and none of [seen]. *)
Definition avoids (seen : list string) (t u : string) (o : option string) : Prop :=
  ∃ gs, NoDup gs ∧ (∀ g, g ∈ gs → g ∉ seen) ∧ walk els t gs u o.

(** What a flow into the target leads to. *)
Definition leads (seen : list string) (flow : json) (u : string) (o : option string) : Prop :=
  ∃ i src, ref_id "sourceRef" flow = Some i ∧ byId els !! i = Some src ∧
    ((etype src ∈ TASK_TYPES ∧ u = i ∧ o = outcome_of flow) ∨
     (etype src = "bpmn:ParallelGateway" ∧ i ∉ seen ∧ avoids (seen ++ [i]) i u o)).

Lemma avoids_flow seen t u o :
  avoids seen t u o ↔ ∃ flow, flow ∈ (incoming els !! t ?? []) ∧ leads seen flow u o.
Proof.
  split.
  - intros (gs & Hn & Ha & Hw). inversion Hw as [? flow ? src Hf Hk|? flow g src gs' ? ? Hf Hk Hw']; subst;
      apply incoming_flow in Hf as (Hf & Hs & Hi); exists flow; (split; [done|]); eexists _, src; split_and!; try done.
    + by left.
    + right. apply NoDup_cons in Hn as [Hg Hn]. split_and!; [done|set_solver|]. exists gs'. set_solver.
  - intros (flow & Hf & i & src & Hs & Hi & [(Hk & -> & ->)|(Hk & Hseen & gs & Hn & Ha & Hw)]).
    + exists []. split_and!; [constructor|set_solver|]. eapply walk_task; [|done]. by apply incoming_flow.
    + exists (i :: gs). split_and!; [constructor; set_solver|set_solver|].
      eapply walk_gateway; [|done..]. by apply incoming_flow.
Qed.

(** Either exactly the upstream tasks with one outcome each, or a task with two. *)
Definition resolved (P : string → option string → Prop) (r : compiled (list FlowDep)) : Prop :=
  match r with
  | Ok deps => NoDup (map fd_taskKey deps) ∧ ∀ d, d ∈ deps ↔ P (fd_taskKey d) (fd_outcome d)
  | Err e => bc_code e = bpmn_structure_invalid ∧ ∃ u o o', o ≠ o' ∧ P u o ∧ P u o'
  end.

Lemma flow_deps_spec (up : string → compiled (list FlowDep)) seen t flow :
  flow ∈ (incoming els !! t ?? []) →
  (∀ g, is_Some (byId els !! g) → g ∉ seen → resolved (avoids (seen ++ [g]) g) (up g)) →
  match flow_deps els up seen flow with
  | Ok deps => ∀ d, d ∈ deps ↔ leads seen flow (fd_taskKey d) (fd_outcome d)
  | Err e => bc_code e = bpmn_structure_invalid ∧ ∃ u o o', o ≠ o' ∧ leads seen flow u o ∧ leads seen flow u o'
  end.
Proof.
  intros Hf Hup. unfold flow_deps, leads.
  destruct (ref_id "sourceRef" flow) as [i|] eqn:Hs; cbn; [|set_solver].
  destruct (byId els !! i) as [src|] eqn:Hi; cbn; [|set_solver].
  destruct (decide (etype src ∈ TASK_TYPES)) as [Ht|Ht].
  { destruct (task_type_not _ Ht) as [Hns Hng]. rewrite bool_decide_false, bool_decide_true by done.
    intros [k o]. rewrite list_elem_of_singleton. cbn. split.
    - intros [= -> ->]. eauto 10.
    - intros (? & ? & [= <-] & ? & [(_ & -> & ->)|(Hg & _)]); [done|]. by simplify_eq. }
  rewrite (bool_decide_false (_ ∈ TASK_TYPES)) by done.
  destruct (decide (etype src = "bpmn:ParallelGateway")) as [Hg|Hg].
  - rewrite Hg, (bool_decide_false (_ = "bpmn:StartEvent")), (bool_decide_true (_ = _)) by done.
    case_bool_decide as Hseen; [set_solver|].
    rewrite (Hout t flow i src) by (done || by apply incoming_flow).
    specialize (Hup i ltac:(eauto) Hseen). destruct (up i) as [deps|e]; cbn in Hup.
    + intros d. destruct Hup as [_ Hup]. rewrite Hup. split; [eauto 10|].
      intros (? & ? & ? & ? & [(? & _)|(_ & _ & ?)]); by simplify_eq.
    + destruct Hup as (? & u & o & o' & ? & ? & ?). split; [done|]. exists u, o, o'. split_and!; eauto 10.
  - rewrite (bool_decide_false (_ = "bpmn:ParallelGateway")) by done.
    destruct (bool_decide (etype src = "bpmn:StartEvent")); set_solver.
Qed.

Lemma collect_resolved (up : string → compiled (list FlowDep)) seen t :
  (∀ g, is_Some (byId els !! g) → g ∉ seen → resolved (avoids (seen ++ [g]) g) (up g)) →
  resolved (avoids seen t)
    (parts ← mapM (flow_deps els up seen) (incoming els !! t ?? []); collapse t (concat parts)).
Proof.
  intros Hup. destruct (mapM _ _) as [parts|e] eqn:Hm; cbn.
  - apply result_mapM_Ok in Hm.
    assert (∀ d, d ∈ concat parts ↔ avoids seen t (fd_taskKey d) (fd_outcome d)) as Hin.
    { intros d. rewrite avoids_flow, list_elem_of_In, in_concat. split.
      - intros (ds & Hds & Hd). apply list_elem_of_In in Hds, Hd.
        apply list_elem_of_lookup in Hds as [n Hds].
        destruct (Forall2_lookup_r _ _ _ _ _ Hm Hds) as (flow & Hf & He). apply list_elem_of_lookup_2 in Hf.
        pose proof (flow_deps_spec up seen t flow Hf Hup) as Hspec. rewrite He in Hspec.
        exists flow. by rewrite <-Hspec.
      - intros (flow & Hf & Hl). pose proof (flow_deps_spec up seen t flow Hf Hup) as Hspec.
        apply list_elem_of_lookup in Hf as [n Hf].
        destruct (Forall2_lookup_l _ _ _ _ _ Hm Hf) as (ds & Hds & He). rewrite He in Hspec.
        exists ds. rewrite <-!list_elem_of_In. apply list_elem_of_lookup_2 in Hds. by rewrite Hspec. }
    pose proof (collapse_spec t (concat parts)) as Hc. destruct (collapse _ _) as [r|e]; cbn.
    + destruct Hc as [? Hc]. split; [done|]. intros d. by rewrite Hc.
    + destruct Hc as (? & d & d' & Hd & Hd' & Hk & Ho). split; [done|]. rewrite Hin in Hd, Hd'.
      exists (fd_taskKey d), (fd_outcome d), (fd_outcome d'). by rewrite Hk in *.
  - apply result_mapM_Err in Hm as (flow & Hf & He).
    pose proof (flow_deps_spec up seen t flow Hf Hup) as Hspec. rewrite He in Hspec.
    destruct Hspec as (? & u & o & o' & ? & ? & ?). split; [done|].
    exists u, o, o'. rewrite !avoids_flow. eauto 10.
Qed.

(** A new gateway is one of the elements, so there is fuel for the call on it. *)
Lemma seen_room g seen : NoDup (seen ++ [g]) → (∀ x, x ∈ seen ++ [g] → is_Some (byId els !! x)) →
  (S (length seen) <= length els)%nat.
Proof.
  intros Hn Hs. assert (length (seen ++ [g]) <= length (map fst (map_to_list (byId els))))%nat as Hle.
  { apply NoDup_subset_length; [done|]. intros x Hx. destruct (Hs x Hx) as [e He].
    apply list_elem_of_fmap. exists (x, e). split; [done|]. by apply elem_of_map_to_list. }
  rewrite length_app, length_map, length_map_to_list in Hle. cbn in Hle. pose proof (byId_size els). lia.
Qed.

Lemma resolve_deps_resolved fuel t seen :
  NoDup seen → (∀ g, g ∈ seen → is_Some (byId els !! g)) → (length els <= fuel + length seen)%nat →
  resolved (avoids seen t) (resolve_deps els fuel t seen).
Proof.
  revert t seen. induction fuel as [|fuel IH]; intros t seen Hn Hs Hfuel; apply collect_resolved; intros g Hg Hseen.
  all: assert (NoDup (seen ++ [g])) as Hn' by (apply NoDup_app; split_and!; [done|set_solver|apply NoDup_singleton]).
  all: assert (∀ x, x ∈ seen ++ [g] → is_Some (byId els !! x)) as Hs' by set_solver.
  - pose proof (seen_room g seen Hn' Hs'). cbn in *. lia.
  - apply IH; [done..|]. rewrite length_app. cbn. lia.
Qed.

Lemma buildDependsOn_resolved t : resolved (reaches els t) (buildDependsOn els t).
Proof.
  assert (∀ u o, avoids [] t u o ↔ reaches els t u o) as Heq.
  { intros u o. rewrite reaches_walk. split; [by intros (gs & _ & _ & ?); exists gs|].
    intros [gs Hw]. destruct (walk_simple _ _ _ _ _ Hw) as (gs' & ? & ?). exists gs'. set_solver. }
  pose proof (resolve_deps_resolved (length els) t [] NoDup_nil_2 ltac:(set_solver) ltac:(cbn; lia)) as Hr.
  unfold buildDependsOn. destruct (resolve_deps _ _ _ _); cbn in *.
  - destruct Hr as [? Hr]. split; [done|]. intros d. by rewrite Hr, Heq.
  - destruct Hr as (? & u & o & o' & Hr). split; [done|]. exists u, o, o'. by rewrite <-!Heq.
Qed.
End resolution.

(** ** Accepted documents *)

Lemma typeById_byId els i : i ≠ "" → typeById els !! i = etype <$> byId els !! i.
Proof.
  intros Hi. unfold typeById, byId. induction els as [|e els IH] using rev_ind; [done|].
  rewrite !foldl_app. cbn [foldl]. unfold elementId, str.
  destruct (str_of (jprop "id" e)) as [j|]; cbn [truthy_str]; [|done].
  case_bool_decide as Hj.
  - subst j. rewrite lookup_insert_ne by done. exact IH.
  - destruct (decide (j = i)) as [->|Hn]; [by rewrite !lookup_insert_eq|].
    rewrite !lookup_insert_ne by done. exact IH.
Qed.

Lemma profile_ok_process definitions : profile_ok definitions = true →
  ∃ p, processOf definitions = Ok p ∧ processes_of definitions = [p] ∧
       root_errors (asArray (jprop "rootElements" definitions)) = [] ∧
       (∀ e, e ∈ flowElements p → element_errors (typeById (flowElements p)) e = []) ∧
       count_type "bpmn:StartEvent" (flowElements p) = 1%nat ∧
       (1 <= count_type "bpmn:EndEvent" (flowElements p))%nat.
Proof.
  unfold profile_ok, validateBpmnAgainstProfile, processOf.
  destruct (processes_of definitions) as [|p [|q l]]; [by destruct (root_errors _)| |].
  - destruct (_ ++ _) eqn:He; [|done]. destruct (_ ++ _) eqn:Hs at 1; [|done]. intros _.
    apply app_eq_nil in He as [Hr He]. cbn in Hs. apply app_eq_nil in Hs as [Hs Hend].
    exists p. split_and!; try done.
    + intros e Hin. apply concat_nil_Forall in He. rewrite Forall_forall in He. apply He, list_elem_of_fmap. eauto.
    + destruct (count_type "bpmn:StartEvent" (flowElements p) =? 1)%nat eqn:E; [by apply Nat.eqb_eq|done].
    + destruct (count_type "bpmn:EndEvent" (flowElements p)); [done|lia].
  - destruct (_ ++ concat _); [|done]. by cbn.
Qed.

Lemma profile_outcomes p :
  (∀ e, e ∈ flowElements p → element_errors (typeById (flowElements p)) e = []) →
  outcomes_on_tasks (flowElements p).
Proof.
  intros He t flow g src (Hin & Hflow & _ & Hs & Hi) Hg. destruct (has_outcome flow) eqn:Ho; [|done].
  specialize (He flow Hin). unfold element_errors in He. unfold is_flow in Hflow. bprop.
  rewrite Hflow in He. cbn in He. unfold flow_errors in He. apply app_eq_nil in He as [_ He]. rewrite Ho in He.
  unfold ref_id, str in Hs. apply truthy_str_Some in Hs as [Hs Hne]. rewrite Hs in He. cbn in He.
  rewrite typeById_byId, Hi in He by done. cbn in He. rewrite Hg in He. done.
Qed.

(** C28: For a document the profile accepts, the dependencies compiled for a task
    are exactly the tasks from which a walk of sequence flows leads to it through
    parallel gateways only, cycles of gateways included, one edge per task with
    the outcome of the flow that leaves it; compilation of the task's edges fails
    exactly when two such walks from one task carry different outcomes. *)
Theorem compiled_dependencies definitions process t :
  profile_ok definitions = true → processOf definitions = Ok process →
  let els := flowElements process in
  match buildDependsOn els t with
  | Ok deps => NoDup (map fd_taskKey deps) ∧
               ∀ d, d ∈ deps ↔ reaches els t (fd_taskKey d) (fd_outcome d)
  | Err e => bc_code e = bpmn_structure_invalid ∧
             ∃ u o o', o ≠ o' ∧ reaches els t u o ∧ reaches els t u o'
  end.
Proof.
  intros Hok Hp. destruct (profile_ok_process _ Hok) as (p & Hp' & _ & _ & He & _).
  rewrite Hp in Hp'. injection Hp' as <-. apply (buildDependsOn_resolved _ (profile_outcomes _ He)).
Qed.

(** ** A document: two tasks in parallel, then a third *)

Definition element (type id : string) (l : list (string * json)) : json :=
  JObj ([("$type", JStr type); ("id", JStr id)] ++ l).

Definition flow (id source target : string) (l : list (string * json)) : json :=
  element "bpmn:SequenceFlow" id
    ([("sourceRef", JObj [("id", JStr source)]); ("targetRef", JObj [("id", JStr target)])] ++ l).

Definition extension (l : list json) : string * json := ("extensionElements", JObj [("values", JArr l)]).

Definition on_success : string * json :=
  extension [JObj [("$type", JStr "cinatra:TransitionOutcome"); ("outcome", JStr "success")]].

Definition fork_join : list json := [
  element "bpmn:StartEvent" "start" [];
  element "bpmn:ManualTask" "a" [("name", JStr "A")];
  element "bpmn:ManualTask" "b" [("name", JStr "B")];
  element "bpmn:ParallelGateway" "join" []; element "bpmn:ParallelGateway" "again" [];
  element "bpmn:ManualTask" "c" [("name", JStr "C")];
  element "bpmn:EndEvent" "end" [];
  flow "f1" "start" "a" []; flow "f2" "start" "b" []; flow "f3" "a" "join" [on_success];
  flow "f4" "b" "join" []; flow "f5" "join" "again" []; flow "f6" "again" "join" [];
  flow "f7" "again" "c" []; flow "f8" "c" "end" []].

Definition fork_join_process : json :=
  JObj [("$type", JStr "bpmn:Process"); ("id", JStr "release"); ("flowElements", JArr fork_join)].

Definition fork_join_document : json := JObj [("rootElements", JArr [fork_join_process])].

Definition fork_join_deps : list FlowDep :=
  [{| fd_taskKey := "a"; fd_outcome := Some "success" |}; {| fd_taskKey := "b"; fd_outcome := None |}].

Example fork_join_compiles : buildDependsOn (flowElements fork_join_process) "c" = Ok fork_join_deps.
Proof. vm_compute. reflexivity. Qed.

Lemma compiled_dependencies_witness :
  profile_ok fork_join_document = true ∧
  ∀ d, d ∈ fork_join_deps ↔ reaches (flowElements fork_join_process) "c" (fd_taskKey d) (fd_outcome d).
Proof.
  split; [vm_compute; reflexivity|].
  pose proof (compiled_dependencies fork_join_document fork_join_process "c"
    ltac:(vm_compute; reflexivity) ltac:(vm_compute; reflexivity)) as Hd.
  cbv zeta in Hd. rewrite fork_join_compiles in Hd. exact (proj2 Hd).
Defined.

(** ** What compilation keeps *)

(** [t] is [v] with some properties of its objects left out: what a schema
    without defaults and transforms returns for a value it accepts. *)
Inductive pruned : json → json → Prop :=
  | pruned_refl v : pruned v v
  | pruned_arr l l' : Forall2 pruned l l' → pruned (JArr l) (JArr l')
  | pruned_obj kvs kvs' :
      (∀ k v', jget k kvs' = Some v' → ∃ v, jget k kvs = Some v ∧ pruned v v') →
      pruned (JObj kvs) (JObj kvs').

Lemma pruned_prop k x t v' : pruned x t → jprop k t = Some v' → ∃ v, jprop k x = Some v ∧ pruned v v'.
Proof. intros Hp Hk. destruct Hp; [eexists; by split; [|constructor]|done|by eauto]. Qed.

Lemma pruned_str x s : pruned x (JStr s) → x = JStr s.
Proof. by inversion 1. Qed.

Lemma pruned_bool x b : pruned x (JBool b) → x = JBool b.
Proof. by inversion 1. Qed.

Lemma pruned_arr_inv x l' : pruned x (JArr l') → ∃ l, x = JArr l ∧ Forall2 pruned l l'.
Proof.
  inversion 1; subst; [|eauto]. exists l'. split; [done|]. clear. induction l'; constructor; [apply pruned_refl|done].
Qed.

(** A test that only a present, non-null property can pass. *)
Lemma lossy_nil b f k r : lossy b f k r = [] ↔ b = false.
Proof. by destruct b. Qed.

(** The fields of a task object that the profile has no element for. *)
Definition lossy_fields (task : json) : list bool :=
  let type := str_of (jprop "type" task) in
  let present k := nonnull (jprop k task) in
  [bool_decide (jprop "required" task = Some (JBool false)); bool_decide (jprop "pinned" task = Some (JBool true));
   nonempty_text (jprop "risk" task); present "parent"; present "assignee"; present "missedWindowPolicy";
   present "retryPolicy"; present "cancelPolicy"; type ≟ Some "wait";
   (type ≟ Some "approval") && present "solicitation"; (type ≟ Some "approval") && present "deadlineIso8601";
   (type ≟ Some "manual") && nonempty_text (jprop "instructions" task);
   (type ≟ Some "notification") && negb (length (asArray (jprop "recipients" task)) =? 0)%nat].

Definition lossless (task : json) : bool := forallb negb (lossy_fields task).

Lemma checkTaskLossiness_obj kvs : checkTaskLossiness (JObj kvs) =
  own_lossiness (JObj kvs) ++
  match jget "foreach" kvs with
  | Some (JObj fkvs) => match jget "template" fkvs with
                        | Some t => if json_truthy t then checkTaskLossiness t else []
                        | None => []
                        end
  | _ => []
  end.
Proof.
  transitivity (own_lossiness (JObj kvs) ++
    jfind (λ fe, match fe with
                 | JObj fkvs => jfind (λ t, if json_truthy t then checkTaskLossiness t else []) "template" [] fkvs
                 | _ => []
                 end) "foreach" [] kvs); [reflexivity|].
  rewrite jfind_jget. destruct (jget "foreach" kvs) as [[| | | | |fkvs]|]; try done. by rewrite jfind_jget.
Qed.

Lemma own_lossiness_nil task : own_lossiness task = [] ↔ lossless task = true.
Proof.
  unfold own_lossiness, lossless, lossy_fields. split.
  - intros Hn. cbn [forallb].
    repeat (apply app_eq_nil in Hn as [Hb Hn]; apply lossy_nil in Hb; rewrite Hb; clear Hb; cbn [negb andb]).
    apply lossy_nil in Hn. by rewrite Hn.
  - cbn [forallb]. intros Hl.
    repeat (apply andb_true_iff in Hl as [Hb Hl]; apply negb_true_iff in Hb; apply app_nil_iff;
            split; [by apply lossy_nil|clear Hb]).
    apply andb_true_iff in Hl as [Hb _]. by apply lossy_nil, negb_true_iff.
Qed.

Lemma checkTaskLossiness_nil task :
  checkTaskLossiness task = [] ↔
  lossless task = true ∧
  (∀ t, sub "template" (jprop "foreach" task) = Some t → json_truthy t = true → checkTaskLossiness t = []).
Proof.
  destruct task as [| | | | |kvs]; [split; [intros _; by split|done]..|].
  rewrite checkTaskLossiness_obj, app_nil_iff, own_lossiness_nil. cbn [jprop]. apply and_iff_compat_l.
  destruct (jget "foreach" kvs) as [[| | | | |fkvs]|]; cbn; try by split.
  destruct (jget "template" fkvs) as [t|]; [|by split].
  split; [intros Ht ? [= <-] Htr; by rewrite Htr in Ht|].
  intros Ht. destruct (json_truthy t) eqn:E; [by apply Ht|done].
Qed.

Lemma pruned_field k x t (test : option json → bool) :
  pruned x t → test None = false →
  (∀ v v', pruned v v' → test (Some v) = false → test (Some v') = false) →
  test (jprop k x) = false → test (jprop k t) = false.
Proof.
  intros Hp Hnone Htest Hx. destruct (jprop k t) as [v'|] eqn:E; [|done].
  destruct (pruned_prop _ _ _ _ Hp E) as (v & Hv & Hp'). rewrite Hv in Hx. eauto.
Qed.

Lemma pruned_nonnull k x t : pruned x t → nonnull (jprop k x) = false → nonnull (jprop k t) = false.
Proof. intros Hp. apply (pruned_field k x t nonnull Hp); [done|]. by destruct 1. Qed.

Lemma pruned_text k x t : pruned x t → nonempty_text (jprop k x) = false → nonempty_text (jprop k t) = false.
Proof. intros Hp. apply (pruned_field k x t nonempty_text Hp); [done|]. by destruct 1. Qed.

Lemma pruned_is k b x t : pruned x t →
  bool_decide (jprop k x = Some (JBool b)) = false → bool_decide (jprop k t = Some (JBool b)) = false.
Proof.
  intros Hp Hx. apply bool_decide_eq_false. intros Ht.
  destruct (pruned_prop _ _ _ _ Hp Ht) as (v & Hv & ->%pruned_bool). by bprop.
Qed.

Lemma pruned_empty k x t : pruned x t →
  (length (asArray (jprop k x)) =? 0)%nat = true → (length (asArray (jprop k t)) =? 0)%nat = true.
Proof.
  intros Hp Hx. apply negb_false_iff. apply negb_false_iff in Hx. revert Hx.
  apply (pruned_field k x t (λ o, negb (length (asArray o) =? 0)%nat) Hp); [done|].
  destruct 1 as [|l l' Hl|]; cbn; [done| |done]. by rewrite (Forall2_length _ _ _ Hl).
Qed.

Lemma pruned_type x t s : pruned x t → jprop "type" t = Some (JStr s) → jprop "type" x = Some (JStr s).
Proof. intros Hp Ht. destruct (pruned_prop _ _ _ _ Hp Ht) as (v & Hv & ->%pruned_str). done. Qed.

(** Leaving properties out loses nothing the profile can express. *)
Lemma lossless_pruned x t : pruned x t → lossless x = true → lossless t = true.
Proof.
  intros Hp Hx. unfold lossless, lossy_fields in *.
  assert (str_of (jprop "type" t) = None ∨ str_of (jprop "type" t) = str_of (jprop "type" x)) as Htype.
  { destruct (jprop "type" t) as [[| | |s| |]|] eqn:Hs; [auto..| | |]; auto.
    right. by rewrite (pruned_type _ _ _ Hp Hs). }
  cbn [forallb] in *.
  repeat (apply andb_true_iff in Hx as [Hb Hx]; apply negb_true_iff in Hb; apply andb_true_iff;
          split; [apply negb_true_iff|clear Hb]); [..|done].
  all: try by eapply pruned_is. all: try by eapply pruned_nonnull. all: try by eapply pruned_text.
  all: destruct Htype as [Htype|Htype]; rewrite Htype; try done.
  all: destruct (str_of _ ≟ _); cbn in Hb |- *; try done.
  all: try by eapply pruned_nonnull. all: try by eapply pruned_text.
  apply negb_false_iff. apply negb_false_iff in Hb. by eapply pruned_empty.
Qed.

Lemma pruned_sub k l x t v' : pruned x t → sub l (jprop k t) = Some v' →
  ∃ v, sub l (jprop k x) = Some v ∧ pruned v v'.
Proof.
  intros Hp Ht. unfold sub in *. destruct (jprop k t) as [w'|] eqn:E; [|done].
  destruct (pruned_prop _ _ _ _ Hp E) as (w & Hw & Hp'). rewrite Hw. cbn in *. by eapply pruned_prop.
Qed.

Lemma pruned_truthy v v' : pruned v v' → json_truthy v' = true → json_truthy v = true.
Proof. by destruct 1. Qed.

(** Both an object and its properties have a property. *)
Lemma json_nested_ind2 (P : json → Prop) :
  (∀ x, (∀ k l y, sub l (jprop k x) = Some y → P y) → P x) → ∀ x, P x.
Proof.
  intros HP. cut (∀ x, P x ∧ ∀ k y, jprop k x = Some y → P y); [intros Hc x; apply Hc|].
  assert (∀ k (kvs : list (string * json)) y, jget k kvs = Some y → ∃ k', (k', y) ∈ kvs) as Hin.
  { intros k kvs y. induction kvs as [|[k' v] kvs IH]; [done|]. cbn.
    destruct (k ≟ k'); [intros [= ->]; eexists; left|]. intros [k0 H]%IH. exists k0. by right. }
  induction x as [| | | | |kvs IH] using json_nested_ind; (split; [apply HP|]); try done.
  - intros k l y Hy. unfold sub in Hy. cbn in Hy. destruct (jget k kvs) as [z|] eqn:E; [|done]. cbn in Hy.
    destruct (Hin _ _ _ E) as [k' Hz]. rewrite Forall_forall in IH. by apply (proj2 (IH _ Hz) l).
  - intros k y Hy. destruct (Hin _ _ _ Hy) as [k' Hz]. rewrite Forall_forall in IH. by apply (proj1 (IH _ Hz)).
Qed.

Lemma checkTaskLossiness_pruned x t : pruned x t → checkTaskLossiness x = [] → checkTaskLossiness t = [].
Proof.
  revert t. induction x as [x IH] using json_nested_ind2. intros t Hp Hx.
  apply checkTaskLossiness_nil in Hx as [Hx Htmpl]. apply checkTaskLossiness_nil.
  split; [by eapply lossless_pruned|]. intros t' Ht' Htr.
  destruct (pruned_sub _ _ _ _ _ Hp Ht') as (x' & Hx' & Hp'). eapply IH; [exact Hx'|done|].
  apply Htmpl; [done|]. by eapply pruned_truthy.
Qed.

(** ** The compiled task *)

Definition keys_in (K : list string) (l : list (string * json)) : Prop := Forall (λ kv, kv.1 ∈ K) l.

Lemma jget_absent K k l : keys_in K l → k ∉ K → jget k l = None.
Proof.
  induction 1 as [|[k' v] l Hk _ IH]; [done|]. intros Hn. cbn in *. rewrite bool_decide_false; [auto|congruence].
Qed.

Lemma jget_app k a b : jget k (a ++ b) = first_of (jget k a) (jget k b).
Proof. induction a as [|[k' v] a IH]; [done|]. cbn. by destruct (k ≟ k'). Qed.

Lemma jget_fld k k' o : jget k (fld k' o) = if k ≟ k' then o else None.
Proof. destruct o; cbn; by destruct (k ≟ k'). Qed.

Lemma keys_in_app K a b : keys_in K a → keys_in K b → keys_in K (a ++ b).
Proof. intros. by apply Forall_app. Qed.

Lemma keys_in_fld K k o : k ∈ K → keys_in K (fld k o).
Proof. intros. destruct o; by repeat constructor. Qed.

Lemma keys_in_jset K k v l : keys_in K l → k ∈ K → keys_in K (jset k v l).
Proof.
  intros Hl Hk. induction Hl as [|[k' v'] l Hk' Hl IH]; cbn; [by repeat constructor|].
  destruct (k ≟ k'); by constructor.
Qed.

Lemma keys_in_spread K a b : keys_in K a → keys_in K b → keys_in K (spread a b).
Proof.
  unfold spread. intros Ha Hb. revert a Ha. induction Hb as [|[k v] b Hk _ IH]; [done|]. cbn. intros a Ha.
  by apply IH, keys_in_jset.
Qed.

Lemma jget_spread k a b : NoDup (map fst b) → jget k (spread a b) = first_of (jget k b) (jget k a).
Proof.
  unfold spread. revert a. induction b as [|[k' v] b IH]; [done|]. cbn. intros a [Hk Hn]%NoDup_cons.
  rewrite IH, jget_jset by done. destruct (k ≟ k') eqn:E; [|done]. bprop. subst k'.
  rewrite (jget_absent (map fst b)); [done| |done].
  apply Forall_forall. intros x Hx. apply list_elem_of_fmap. eauto.
Qed.

Definition profile_keys : list string :=
  ["key"; "title"; "type"; "agentRef"; "input"; "requiredScope"; "rejectionPolicy"; "message"; "schedule";
   "dependsOn"; "failurePolicy"; "maxAttempts"; "foreach"].

(** Checks the keys of an object built from optional properties. *)
Ltac keys_tac :=
  repeat first [apply keys_in_app | apply keys_in_fld | apply Forall_nil_2 | apply Forall_cons_2];
  cbn; by (apply (bool_decide_unpack _); vm_compute).

Lemma lossless_obj kvs :
  keys_in profile_keys kvs → jget "type" kvs ≠ Some (JStr "wait") → lossless (JObj kvs) = true.
Proof.
  intros Hk Hw. assert (∀ k, bool_decide (k ∈ profile_keys) = false → jget k kvs = None) as Habs.
  { intros k Hn. bprop. by eapply jget_absent. }
  unfold lossless, lossy_fields. cbn [jprop].
  rewrite (Habs "required"), (Habs "pinned"), (Habs "risk"), (Habs "parent"), (Habs "assignee"),
    (Habs "missedWindowPolicy"), (Habs "retryPolicy"), (Habs "cancelPolicy"), (Habs "solicitation"),
    (Habs "deadlineIso8601"), (Habs "instructions"), (Habs "recipients") by reflexivity.
  destruct (jget "type" kvs) as [[| | |s| |]|]; try done. cbn [str_of].
  rewrite (bool_decide_false (Some s = Some "wait")) by congruence.
  by destruct (Some s ≟ Some "approval"), (Some s ≟ Some "manual"), (Some s ≟ Some "notification").
Qed.

Lemma require_Ok {A} (v : option A) i r a : require v i r = Ok a → v = Some a.
Proof. destruct v; [by intros [= ->]|done]. Qed.

Section compiled_tasks.
Context `{JsText}.

(** The common fields of a compiled task. *)
Definition is_core (key title : string) (core : list (string * json)) : Prop :=
  ∃ type rest, core = [("key", JStr key); ("title", JStr title)] ++ ("type", JStr type) :: rest ∧
    type ≠ "wait" ∧ keys_in ["agentRef"; "input"; "requiredScope"; "rejectionPolicy"; "message"] rest.

Lemma type_core_spec task key title typed :
  type_core task key = Ok typed → is_core key title ([("key", JStr key); ("title", JStr title)] ++ typed).
Proof.
  unfold type_core, service_core, user_core, is_core. intros Ht.
  repeat match type of Ht with (if ?b then _ else _) = _ => destruct b end; try discriminate Ht; result_inv; eexists _, _.
  all: (split_and!; [reflexivity|done|]).
  all: keys_tac.
Qed.

Lemma core_keys key title core : is_core key title core → keys_in profile_keys core.
Proof.
  intros (type & rest & -> & _ & Hr). apply keys_in_app; [keys_tac|apply Forall_cons_2].
  - by apply (bool_decide_unpack _).
  - eapply Forall_impl; [exact Hr|]. intros [k v]. unfold profile_keys. cbn. set_solver.
Qed.

Lemma core_lossless key title core : is_core key title core → checkTaskLossiness (JObj core) = [].
Proof.
  intros Hc. pose proof (core_keys _ _ _ Hc) as Hk. destruct Hc as (type & rest & -> & Hw & Hr).
  apply checkTaskLossiness_nil. split; [apply lossless_obj; [done|by intros [= ->]]|].
  intros t. unfold sub. cbn [jprop]. rewrite jget_app. cbn.
  by rewrite (jget_absent _ _ _ Hr) by (by apply (bool_decide_unpack _)).
Qed.

Lemma compileForeach_template task core fe :
  compileForeach task core = Ok (Some fe) → jprop "template" fe = Some (JObj core).
Proof.
  unfold compileForeach. intros Hf. repeat (case_match; try discriminate).
  apply result_bind_Ok in Hf as (sa & _ & Hf). result_inv. reflexivity.
Qed.

Definition common_fields (task : json) (key title : string) (schedule : option json) (deps : list FlowDep)
    : list (string * json) :=
  [("key", JStr key); ("title", JStr title)] ++ fld "schedule" schedule ++ deps_field deps ++ policy_fields task.

Lemma common_keys task key title schedule deps :
  keys_in profile_keys (common_fields task key title schedule deps) ∧
  NoDup (map fst (common_fields task key title schedule deps)).
Proof.
  unfold common_fields, policy_fields, copy_str.
  assert (∃ b : bool, deps_field deps = fld "dependsOn" (if b then Some (JArr (map FlowDep_json deps)) else None))
    as [b ->] by (destruct deps; [by exists false|by exists true]).
  split.
  - destruct (findExt _ _); keys_tac.
  - destruct (findExt _ _) as [p|]; [|by destruct schedule, b; apply (bool_decide_unpack _)].
    by destruct schedule, b, (str (jprop "failurePolicy" p)), (toInt (jprop "maxAttempts" p));
      apply (bool_decide_unpack _).
Qed.

Lemma common_get task key title schedule deps :
  let common := common_fields task key title schedule deps in
  jget "dependsOn" common = (match deps with [] => None | _ => Some (JArr (map FlowDep_json deps)) end) ∧
  jget "foreach" common = None ∧ jget "type" common = None.
Proof.
  unfold common_fields, policy_fields, copy_str, deps_field.
  destruct (findExt _ _) as [p|]; [|by destruct schedule, deps].
  by destruct schedule, deps, (str (jprop "failurePolicy" p)), (toInt (jprop "maxAttempts" p)).
Qed.

Lemma core_get key title core : is_core key title core →
  jget "dependsOn" core = None ∧ jget "foreach" core = None ∧ jget "type" core ≠ Some (JStr "wait").
Proof.
  intros (type & rest & -> & Hw & Hr). split_and!; [| |by intros [= ->]].
  all: rewrite jget_app; cbn; by apply (jget_absent _ _ _ Hr), (bool_decide_unpack _).
Qed.

Lemma compileTask_spec depsFor task x : compileTask depsFor task = Ok x →
  ∃ key title deps,
    str (jprop "id" task) = Some key ∧ str (jprop "name" task) = Some title ∧ depsFor key = Ok deps ∧
    jprop "key" x = Some (JStr key) ∧ jprop "title" x = Some (JStr title) ∧
    jprop "dependsOn" x = (match deps with [] => None | _ => Some (JArr (map FlowDep_json deps)) end) ∧
    checkTaskLossiness x = [].
Proof.
  unfold compileTask. intros Hx.
  apply result_bind_Ok in Hx as (key & Hkey & Hx). apply result_bind_Ok in Hx as (title & Htitle & Hx).
  apply result_bind_Ok in Hx as (schedule & _ & Hx). apply result_bind_Ok in Hx as (deps & Hdeps & Hx).
  apply result_bind_Ok in Hx as (typed & Htyped & Hx). apply result_bind_Ok in Hx as (fe & Hfe & Hx).
  apply (type_core_spec _ _ title) in Htyped.
  destruct (common_keys task key title schedule deps) as [Hck Hcn].
  pose proof (common_get task key title schedule deps) as Hcget. pose proof (core_get _ _ _ Htyped) as Hkget.
  set (core := [("key", JStr key); ("title", JStr title)] ++ typed) in *.
  set (common := common_fields task key title schedule deps) in *.
  assert (x = JObj (spread (spread core common) (fld "foreach" fe))) as -> by (by injection Hx). clear Hx.
  assert (∀ k, jget k (spread (spread core common) (fld "foreach" fe))
               = if k ≟ "foreach" then fe else first_of (jget k common) (jget k core)) as Hget.
  { intros k. rewrite !jget_spread by (done || destruct fe; repeat constructor; set_solver).
    rewrite jget_fld. destruct (k ≟ "foreach") eqn:E; [|done]. bprop. subst k. destruct fe; [done|]. cbn [first_of].
    by rewrite (proj1 (proj2 Hcget)), (proj1 (proj2 Hkget)). }
  exists key, title, deps. cbn [jprop]. rewrite !Hget. cbn [bool_decide].
  split_and!; [by eapply require_Ok..|done|done|done| |].
  - rewrite bool_decide_false, (proj1 Hcget), (proj1 Hkget) by done. by destruct deps.
  - apply checkTaskLossiness_nil. split.
    + apply lossless_obj.
      * repeat apply keys_in_spread; [by eapply core_keys|done|]. apply keys_in_fld. by apply (bool_decide_unpack _).
      * rewrite Hget, bool_decide_false, (proj2 (proj2 Hcget)) by done. apply Hkget.
    + intros t. cbn [jprop]. rewrite Hget, bool_decide_true by done. destruct fe as [f|]; [|done].
      unfold sub. cbn. rewrite (compileForeach_template _ _ _ Hfe). intros [= <-] _. by eapply core_lossless.
Qed.
End compiled_tasks.

(** ** The compiled workflow *)

(** What the code relies on in [workflowSpecSchema.safeParse]: the value it
    returns is the input without unknown properties, and the dependencies of a
    task are kept. *)
Record SchemaLaw (safeParse : json → result (list ZodIssue) WorkflowSpec) : Prop := {
  law_values v w : safeParse v = Ok w → pruned v (WorkflowSpec_json w);
  law_edges v w i x t :
    safeParse v = Ok w → asArray (jprop "tasks" v) !! i = Some x → w_tasks w !! i = Some t →
    is_Some (jprop "dependsOn" x) → is_Some (t_dependsOn t)
}.

Definition task_elements (process : json) : list json :=
  List.filter (λ e, bool_decide (etype e ∈ TASK_TYPES)) (flowElements process).

(** A parsed task and the object it was parsed from. *)
Definition parsed_task (x : json) (t : TaskSpec) : Prop :=
  pruned x (TaskSpec_json t) ∧ (is_Some (jprop "dependsOn" x) → is_Some (t_dependsOn t)).

Lemma TaskSpec_json_prop t :
  jprop "key" (TaskSpec_json t) = Some (JStr (t_key t)) ∧ jprop "title" (TaskSpec_json t) = Some (JStr (t_title t)) ∧
  jprop "dependsOn" (TaskSpec_json t) = (λ l, JArr (map TaskDependency_json l)) <$> t_dependsOn t.
Proof.
  split; [done|]. split; [done|]. unfold TaskSpec_json. cbn [jprop]. rewrite !jget_app, !jget_fld.
  cbn [bool_decide]. destruct (t_dependsOn t); [done|]. cbn.
  destruct (t_body t); cbn; by rewrite ?jget_app, ?jget_fld.
Qed.

Lemma parsed_edges x t deps : parsed_task x t →
  jprop "dependsOn" x = (match deps with [] => None | _ => Some (JArr (map FlowDep_json deps)) end) →
  map dep_taskKey (t_dependsOn t ?? []) = map fd_taskKey deps.
Proof.
  intros [Hp Hedges] Hx. destruct (TaskSpec_json_prop t) as (_ & _ & Ht).
  destruct (t_dependsOn t) as [l|]; cbn [default fmap option_fmap option_map map] in Ht |- *.
  - destruct (pruned_prop _ _ _ _ Hp Ht) as (v & Hv & Hpv). apply pruned_arr_inv in Hpv as (vs & -> & Hall).
    rewrite Hx in Hv. destruct deps as [|d deps]; [done|]. injection Hv as Hv.
    assert (vs = map FlowDep_json (d :: deps)) as -> by done. clear -Hall.
    revert Hall. generalize (d :: deps). clear. intros deps Hall. revert l Hall.
    induction deps as [|d deps IH]; intros [|e l] Hall; inversion Hall; subst; [done|].
    cbn. f_equal; [|by apply IH].
    destruct (pruned_prop "taskKey" _ _ (JStr (dep_taskKey e)) H2) as (v & Hv & ->%pruned_str); [done|].
    by injection Hv as ->.
  - destruct deps; [done|]. destruct Hedges; [by rewrite Hx|done].
Qed.

Section compiled_workflows.
Context `{JsText} (safeParse : json → result (list ZodIssue) WorkflowSpec).

Lemma compiled_spec_tasks process v : compiled_spec process = Ok v →
  ∃ tasks, jprop "tasks" v = Some (JArr tasks) ∧
    Forall2 (λ e x, compileTask (buildDependsOn (flowElements process)) e = Ok x) (task_elements process) tasks.
Proof.
  unfold compiled_spec, compileTasks. intros Hv. apply result_bind_Ok in Hv as (ph & _ & Hv).
  apply result_bind_Ok in Hv as (tasks & Ht & Hv). apply result_mapM_Ok in Ht.
  exists tasks. split; [|done]. assert (v = JObj _) as -> by (symmetry; by injection Hv).
  cbn [jprop]. by rewrite jget_app, jget_fld.
Qed.

Lemma parsed_tasks v w tasks : SchemaLaw safeParse → safeParse v = Ok w →
  jprop "tasks" v = Some (JArr tasks) → Forall2 parsed_task tasks (w_tasks w).
Proof.
  intros Hlaw Hp Ht. pose proof (law_values _ Hlaw _ _ Hp) as Hv.
  assert (jprop "tasks" (WorkflowSpec_json w) = Some (JArr (map TaskSpec_json (w_tasks w)))) as Hj.
  { cbn [WorkflowSpec_json jprop]. rewrite !jget_app, !jget_fld. done. }
  destruct (pruned_prop _ _ _ _ Hv Hj) as (u & Hu & Hpu). apply pruned_arr_inv in Hpu as (l & -> & Hall).
  rewrite Ht in Hu. injection Hu as <-. apply (Forall2_fmap_r TaskSpec_json) in Hall. apply Forall2_same_length_lookup_2;
    [exact (Forall2_length _ _ _ Hall)|].
  intros i x t Hx Hi. split; [by eapply (Forall2_lookup_lr _ _ _ _ _ _ Hall)|].
  intros He. eapply (law_edges _ Hlaw v w i x t); [done| |done..]. rewrite Ht. exact Hx.
Qed.

Lemma compile_Ok definitions w : compileBpmnToWorkflowSpec safeParse definitions = Ok w →
  ∃ process v, processOf definitions = Ok process ∧ compiled_spec process = Ok v ∧ safeParse v = Ok w.
Proof.
  unfold compileBpmnToWorkflowSpec. intros Hw. apply result_bind_Ok in Hw as (process & Hp & Hw).
  apply result_bind_Ok in Hw as (v & Hv & Hw). destruct (safeParse v) as [w'|] eqn:E; [|done].
  injection Hw as <-. eauto.
Qed.

(** C23: A workflow compiled from an accepted document has one task per task
    element, in document order and with its id and name; the tasks it lists as
    dependencies are exactly those from which a walk through parallel gateways
    leads to the task; and the workflow stays inside what the profile can
    express, fan-out templates included. *)
Theorem compiled_workflow definitions w :
  SchemaLaw safeParse → profile_ok definitions = true →
  compileBpmnToWorkflowSpec safeParse definitions = Ok w →
  ∃ process, processOf definitions = Ok process ∧
    map (λ t, (Some (t_key t), Some (t_title t))) (w_tasks w)
      = map (λ e, (str (jprop "id" e), str (jprop "name" e))) (task_elements process) ∧
    (∀ t u, t ∈ w_tasks w →
       u ∈ map dep_taskKey (t_dependsOn t ?? []) ↔ ∃ o, reaches (flowElements process) (t_key t) u o) ∧
    validateWorkflowSpecAgainstBpmnProfile w = [].
Proof.
  intros Hlaw Hok Hw. destruct (compile_Ok _ _ Hw) as (process & v & Hp & Hv & Hsp).
  destruct (compiled_spec_tasks _ _ Hv) as (tasks & Ht & Hel).
  pose proof (parsed_tasks _ _ _ Hlaw Hsp Ht) as Hpt.
  destruct (profile_ok_process _ Hok) as (p & Hp' & _ & _ & He & _). rewrite Hp in Hp'. injection Hp' as <-.
  exists process. split; [done|].
  assert (Forall2 (λ e t, str (jprop "id" e) = Some (t_key t) ∧ str (jprop "name" e) = Some (t_title t) ∧
            (∃ deps, buildDependsOn (flowElements process) (t_key t) = Ok deps ∧
                     map dep_taskKey (t_dependsOn t ?? []) = map fd_taskKey deps) ∧
            checkTaskLossiness (TaskSpec_json t) = []) (task_elements process) (w_tasks w)) as Hall.
  { apply Forall2_same_length_lookup_2; [by rewrite (Forall2_length _ _ _ Hel), (Forall2_length _ _ _ Hpt)|].
    intros i e t Hi Hti. destruct (Forall2_lookup_l _ _ _ _ _ Hel Hi) as (x & Hx & Hc).
    pose proof (Forall2_lookup_lr _ _ _ _ _ _ Hpt Hx Hti) as Hpx.
    destruct (compileTask_spec _ _ _ Hc) as (key & title & deps & Hid & Hname & Hdeps & Hkey & Htitle & Hd & Hl).
    destruct (TaskSpec_json_prop t) as (Hk & Htt & _). pose proof (proj1 Hpx) as Hpr.
    destruct (pruned_prop _ _ _ _ Hpr Hk) as (? & Hk' & ->%pruned_str).
    destruct (pruned_prop _ _ _ _ Hpr Htt) as (? & Ht' & ->%pruned_str). simplify_eq.
    split; [done|]. split; [done|]. split; [|by eapply checkTaskLossiness_pruned].
    exists deps. split; [done|]. by eapply parsed_edges. }
  split_and!.
  - clear -Hall. induction Hall as [|e t es ts (Hi & Hn & _) _ IH]; [done|]. cbn. by rewrite Hi, Hn, IH.
  - intros t u [i Hti]%list_elem_of_lookup.
    destruct (Forall2_lookup_r _ _ _ _ _ Hall Hti) as (e & _ & _ & _ & (deps & Hdeps & ->) & _).
    pose proof (buildDependsOn_resolved _ (profile_outcomes _ He) (t_key t)) as Hr. rewrite Hdeps in Hr.
    destruct Hr as [_ Hr]. rewrite list_elem_of_fmap. split.
    + intros (d & -> & Hd). exists (fd_outcome d). by apply Hr.
    + intros [o Ho]. exists {| fd_taskKey := u; fd_outcome := o |}. split; [done|]. by apply Hr.
  - unfold validateWorkflowSpecAgainstBpmnProfile. apply concat_nil_Forall, Forall_fmap, Forall_forall.
    intros t [i Hti]%list_elem_of_lookup.
    by destruct (Forall2_lookup_r _ _ _ _ _ Hall Hti) as (e & _ & _ & _ & _ & Hl).
Qed.
End compiled_workflows.

(** ** The example, compiled *)

(** Decides [pruned] on the values of the example. *)
Fixpoint prune_check (v t : json) : bool :=
  json_eqb v t ||
  match v, t with
  | JArr l, JArr l' =>
      (length l =? length l')%nat &&
      (fix go l l' := match l, l' with x :: r, y :: r' => prune_check x y && go r r' | _, _ => true end) l l'
  | JObj kvs, JObj kvs' =>
      forallb (λ kv' : string * json,
        (fix find l := match l with
                       | [] => false
                       | (k, x) :: r => if k ≟ kv'.1 then prune_check x kv'.2 else find r
                       end) kvs) kvs'
  | _, _ => false
  end.

Lemma prune_check_sound v t : prune_check v t = true → pruned v t.
Proof.
  revert t. induction v as [| | | |l IH|kvs IH] using json_nested_ind; intros t Hc; cbn [prune_check] in Hc;
    apply orb_true_iff in Hc as [Hc|Hc]; try (apply json_eqb_eq in Hc as <-; constructor); try done.
  - destruct t as [| | | |l'|]; try done. apply andb_true_iff in Hc as [Hlen Hc]. apply Nat.eqb_eq in Hlen.
    constructor. revert l' Hlen Hc. induction IH as [|x l Hx _ IHl]; intros [|y l'] Hlen Hc; try done.
    apply andb_true_iff in Hc as [Hxy Hc]. constructor; [by apply Hx|]. apply IHl; [by injection Hlen|done].
  - destruct t as [| | | | |kvs']; try done. constructor. intros k v' Hk.
    assert ((k, v') ∈ kvs') as Hin.
    { clear -Hk. induction kvs' as [|[k0 w] r IH]; [done|]. cbn in Hk.
      destruct (k ≟ k0) eqn:E; [bprop; simplify_eq; left|right; auto]. }
    rewrite forallb_forall in Hc. specialize (Hc (k, v') (proj1 (list_elem_of_In _ _) Hin)). cbn in Hc.
    clear Hk Hin. induction IH as [|[k0 x] r Hx _ IHr]; [done|]. cbn in *.
    destruct (decide (k0 = k)) as [->|Hn].
    + rewrite bool_decide_true in Hc by done. rewrite bool_decide_true by done. exists x. auto.
    + rewrite bool_decide_false in Hc by done. rewrite bool_decide_false by done. auto.
Qed.

Definition fork_join_task (key title : string) (deps : option (list TaskDependency)) : TaskSpec := {|
  t_key := key; t_title := title; t_required := None; t_pinned := None; t_risk := None; t_parent := None;
  t_schedule := None; t_dependsOn := deps; t_assignee := None; t_failurePolicy := None;
  t_missedWindowPolicy := None; t_retryPolicy := None; t_maxAttempts := None; t_cancelPolicy := None;
  t_body := ManualTask None; t_foreach := None |}.

Definition fork_join_spec : WorkflowSpec := {|
  w_key := Some "release"; w_name := "release"; w_product := None; w_target := None; w_placeholders := None;
  w_tasks := [fork_join_task "a" "A" None; fork_join_task "b" "B" None;
              fork_join_task "c" "C" (Some [{| dep_taskKey := "a"; dep_outcome := Some do_success |};
                                            {| dep_taskKey := "b"; dep_outcome := None |}])];
  w_metadata := None |}.

#[local] Instance no_text : JsText := {| js_parse := λ _, None; js_number := λ _, None |}.

(** The object compiled from the example. *)
Definition fork_join_object : json := match compiled_spec fork_join_process with Ok v => v | Err _ => JNull end.

(** A parser for that object alone. *)
Definition parse_fork_join (v : json) : result (list ZodIssue) WorkflowSpec :=
  if json_eqb v fork_join_object then Ok fork_join_spec else Err [].

Lemma parse_fork_join_law : SchemaLaw parse_fork_join.
Proof.
  split; unfold parse_fork_join.
  - intros v w. destruct (json_eqb v _) eqn:E; [|done]. intros [= <-]. apply json_eqb_eq in E as ->.
    apply prune_check_sound. vm_compute. reflexivity.
  - intros v w i x t. destruct (json_eqb v _) eqn:E; [|done]. intros [= <-]. apply json_eqb_eq in E as ->.
    intros Hx Ht He.
    assert (∃ l, asArray (jprop "tasks" fork_join_object) = l ∧
      Forall2 (λ x t, is_present (jprop "dependsOn" x) = is_present (t_dependsOn t)) l (w_tasks fork_join_spec))
      as (l & Hl & Hall) by (eexists; split; [vm_compute; reflexivity|repeat constructor]).
    rewrite Hl in Hx. pose proof (Forall2_lookup_lr _ _ _ _ _ _ Hall Hx Ht) as Hp. cbn in Hp.
    destruct He as [y Hy]. rewrite Hy in Hp. destruct (t_dependsOn t); [eauto|done].
Qed.

Lemma compiled_workflow_witness :
  ∃ process, processOf fork_join_document = Ok process ∧
    validateWorkflowSpecAgainstBpmnProfile fork_join_spec = [] ∧
    ∃ o, reaches (flowElements process) "c" "a" o.
Proof.
  destruct (compiled_workflow parse_fork_join fork_join_document fork_join_spec parse_fork_join_law)
    as (process & Hp & _ & Hdeps & Hl); [vm_compute; reflexivity..|].
  exists process. split; [exact Hp|]. split; [exact Hl|].
  apply (Hdeps (fork_join_task "c" "C" (Some [{| dep_taskKey := "a"; dep_outcome := Some do_success |};
                                            {| dep_taskKey := "b"; dep_outcome := None |}])));
    [right; right; left|left].
Defined.
