(* ===== verification/Foreach.v ===== *)
(** * The fan-out materializer ([engine/foreach.ts])

    A fan-out parent names a source task, a variable and a task template; when
    the source has succeeded, each item of its output becomes one child task.
    The materializer computes the rows of the whole batch, or one structured
    error, and touches nothing.

    [sha256] (the hex digest of node:crypto) is a parameter.  A value cast by
    the source to a narrower type without a check ([as string | null]) keeps
    its JSON value here. *)

From S2P Require Import Prelude Json Time Spec Tokens.
Open Scope Z_scope.

Inductive ForeachStructuredError :=
  | foreach_invalid_source_output (sourceTaskKey foreachParentKey receivedShape : string)
  | foreach_invalid_item_key (sourceTaskKey foreachParentKey : string) (itemIndex : nat) (rawValue : json)
  | foreach_duplicate_item_key (sourceTaskKey foreachParentKey duplicateStableId : string) (indices : nat * nat)
  | foreach_max_fanout_exceeded (sourceTaskKey foreachParentKey : string) (actual limit hardCeiling : Z)
  | foreach_unresolved_dependency (foreachParentKey childStableId : string) (attemptedDependencyKey : option json).

Record ChildTaskRowInsert := {
  cr_id : string; cr_workflowId : string; cr_key : string; cr_type : string; cr_title : string;
  cr_parentTaskId : string; cr_assigneeLevel : option json; cr_assigneeId : option json;
  cr_agentPackage : option json; cr_agentRef : option json; cr_input : option json;
  cr_schedule : option json; cr_required : bool; cr_failurePolicy : option json;
  cr_missedWindowPolicy : option json; cr_retryPolicy : option json; cr_maxAttempts : option json;
  cr_cancelPolicy : option json; cr_pinned : bool; cr_risk : option json
}.

Record ChildDependencyInsert := {
  cdi_id : string; cdi_workflowId : string; cdi_taskKey : string; cdi_dependsOnTaskKey : string;
  cdi_outcome : json
}.

Record ChildApprovalInsert := {
  cai_id : string; cai_workflowId : string; cai_taskKey : string; cai_requiredScope : json
}.

Record ChildPlan := {
  cp_taskRow : ChildTaskRowInsert; cp_dependencies : list ChildDependencyInsert;
  cp_approval : option ChildApprovalInsert
}.

Record MaterializationResult := {
  mr_plans : list ChildPlan; mr_parentTaskId : string; mr_parentKey : string
}.

(** ** Paths and tokens *)

(** [s.split(".")]. *)
Fixpoint split_dots (s : string) : list string :=
  match s with
  | EmptyString => [""]
  | String c r =>
      if c ≟ "."%char then "" :: split_dots r
      else match split_dots r with
           | p :: ps => String c p :: ps
           | [] => [String c ""]
           end
  end.

(** [v[part]] of an object or array: an own property; an array also has its
    indices and its length. *)
Definition jmember (v : json) (part : string) : option json :=
  match v with
  | JObj kvs => jget part kvs
  | JArr l =>
      if part ≟ "length" then Some (jint (Z.of_nat (length l)))
      else let n := Z.to_nat (digits_value 0 part) in
           if show_nat n ≟ part then l !! n else None
  | _ => None
  end.

Definition getByPath (obj : json) (path : string) : option json :=
  if path ≟ "" then Some obj
  else foldl (λ cur part, match cur with
                          | Some v => if is_object v then jmember v part else None
                          | None => None
                          end) (Some obj) (split_dots path).

(** The token expression of [substituteString]. *)
Definition var_syntax : TokenSyntax :=
  {| tk_first := var_first; tk_rest := var_char;
     tk_path := Some (λ c, var_char c || (c ≟ "."%char)) |}.

Record SubstCtx := { sc_index : nat; sc_position : nat; sc_total : nat }.

Definition jnat (n : nat) : json := jint (Z.of_nat n).

Definition resolveVar (asName : string) (item : json) (ctx : SubstCtx) (varExpr : string) : option json :=
  if varExpr ≟ "$index" then Some (jnat (sc_index ctx))
  else if varExpr ≟ "$position" then Some (jnat (sc_position ctx))
  else if varExpr ≟ "$total" then Some (jnat (sc_total ctx))
  else if varExpr ≟ asName then Some item
  else if startsWith (asName +:+ ".") varExpr
  then getByPath item (str_drop (String.length asName + 1) varExpr)
  else None.

Definition substituteString (s asName : string) (item : json) (ctx : SubstCtx) : json :=
  match whole_token var_syntax s with
  | Some (name, path) => resolveVar asName item ctx (name +:+ path) ?? JStr s
  | None =>
      JStr (replace_tokens var_syntax (λ raw name path,
        match resolveVar asName item ctx (name +:+ path) with
        | None => raw
        | Some (JStr v) => v
        | Some v => json_stringify v
        end) s)
  end.

Fixpoint substituteValue (value : json) (asName : string) (item : json) (ctx : SubstCtx) : json :=
  match value with
  | JStr s => substituteString s asName item ctx
  | JArr l => JArr (map (λ v, substituteValue v asName item ctx) l)
  | JObj kvs =>
      JObj (map (λ kv : string * json, let (k, v) := kv in (k, substituteValue v asName item ctx)) kvs)
  | _ => value
  end.

(** [a ?? null] of a possibly undefined value. *)
Definition nullish (v : option json) : option json :=
  match v with Some JNull => None | _ => v end.

Definition is_slug_char (c : ascii) : bool :=
  is_lower c || is_digit c || (c ≟ "_"%char) || (c ≟ "-"%char).

(** ** The batch *)

Record ParentTaskHandle := { ph_id : string; ph_key : string }.

Record MaterializeForeachInput := {
  mi_workflowId : string; mi_parent : ParentTaskHandle; mi_foreachConfig : ForeachSpec;
  mi_sourceOutput : option json; mi_workflowTaskIdByKey : gmap string string
}.

Section materializer.
Context (sha256 : string → string).

Definition slugifyItemKey (raw : option json) : string :=
  match raw with
  | None | Some JNull => ""
  | Some v =>
      let s := toLowerCase (json_String v) in
      let cleaned := str_filter is_slug_char s in
      if (String.length cleaned =? 0)%nat then ""
      else if (String.length cleaned <=? 32)%nat then cleaned
      else str_take 26 cleaned +:+ "__" +:+ str_take 4 (sha256 s)
  end.

Definition deterministicChildTaskId (workflowId parentKey stableId : string) : string :=
  "wtask_" +:+ str_take 24 (sha256 (workflowId +:+ "__" +:+ parentKey +:+ "__" +:+ stableId)).

Definition deterministicSidecarId (prefix childTaskId discriminator : string) : string :=
  prefix +:+ "_" +:+ str_take 24 (sha256 (childTaskId +:+ "__" +:+ prefix +:+ "__" +:+ discriminator)).

(** The [items] array of the source output, or the shape received instead. *)
Definition source_items (sourceOutput : option json) : option (list json) :=
  match sourceOutput with
  | Some v => match jprop "items" v with Some (JArr l) => Some l | _ => None end
  | None => None
  end.

Definition receivedShape (sourceOutput : option json) : string :=
  match sourceOutput with
  | None => "undefined"
  | Some JNull => "null"
  | Some (JArr _) => "array"
  | Some (JObj kvs) => "object(keys=" +:+ join "," (map fst kvs) +:+ ")"
  | Some v => json_typeof v
  end.

Definition index_id (i : nat) : string := padStart (show_nat i) 4 "0".

(** The stable id of one item: an error carries the raw key value. *)
Definition stable_id (fe : ForeachSpec) (i : nat) (item : json) : result json string :=
  match fe_itemKey fe with
  | Some (JStr path) =>
      if path ≟ "" then Ok (index_id i)
      else match getByPath item path with
           | None | Some JNull => Ok (index_id i)
           | Some raw => let stable := slugifyItemKey (Some raw) in
                         if stable ≟ "" then Err raw else Ok stable
           end
  | _ => Ok (index_id i)
  end.

(** The loop that resolves the ids: [seen] maps an id to its index. *)
Fixpoint stable_ids (fe : ForeachSpec) (parentKey : string) (i : nat) (seen : gmap string nat) (items : list json)
    : result ForeachStructuredError (list string) :=
  match items with
  | [] => Ok []
  | item :: rest =>
      match stable_id fe i item with
      | Err raw => Err (foreach_invalid_item_key (fe_source fe) parentKey i raw)
      | Ok stable =>
          match seen !! stable with
          | Some j => Err (foreach_duplicate_item_key (fe_source fe) parentKey stable (j, i))
          | None => ids ← stable_ids fe parentKey (S i) (<[stable := i]> seen) rest; Ok (stable :: ids)
          end
      end
  end.

Definition child_key (parentKey stable : string) : string := parentKey +:+ "__" +:+ stable.

Definition effective_limit (fe : ForeachSpec) : Z :=
  Z.min (fe_maxFanout fe ?? FOREACH_MAX_FANOUT_DEFAULT) FOREACH_MAX_FANOUT_HARD_CEILING.

Definition batch_key_to_id (workflowId parentKey : string) (ids : list string) : gmap string string :=
  foldl (λ m stable, <[child_key parentKey stable := deterministicChildTaskId workflowId parentKey stable]> m)
    ∅ ids.

Definition task_row (args : MaterializeForeachInput) (tmpl : json) (stable : string) : ChildTaskRowInsert :=
  let parentKey := ph_key (mi_parent args) in
  let field := λ k, nullish (jprop k tmpl) in
  let taskType := json_String (field "type" ?? JStr "agent_task") in
  let agent := λ v : option json, if taskType ≟ "agent_task" then v else None in
  {| cr_id := deterministicChildTaskId (mi_workflowId args) parentKey stable;
     cr_workflowId := mi_workflowId args;
     cr_key := child_key parentKey stable;
     cr_type := taskType;
     cr_title := json_String (field "title" ?? JStr (parentKey +:+ "/" +:+ stable));
     cr_parentTaskId := ph_id (mi_parent args);
     cr_assigneeLevel := nullish (field "assignee" ≫= jprop "level");
     cr_assigneeId := nullish (field "assignee" ≫= jprop "id");
     cr_agentPackage := agent (nullish (field "agentRef" ≫= jprop "package"));
     cr_agentRef := agent (field "agentRef");
     cr_input := agent (field "input");
     cr_schedule := field "schedule";
     cr_required := match jprop "required" tmpl with None => true | Some v => json_truthy v end;
     cr_failurePolicy := field "failurePolicy";
     cr_missedWindowPolicy := field "missedWindowPolicy";
     cr_retryPolicy := field "retryPolicy";
     cr_maxAttempts := field "maxAttempts";
     cr_cancelPolicy := field "cancelPolicy";
     cr_pinned := truthy (field "pinned");
     cr_risk := field "risk" |}.

(** [workflowTaskIdByKey.has(k) || batchKeyToId.has(k)]. *)
Definition known_key (args : MaterializeForeachInput) (batch : gmap string string) (k : option json)
    : option string :=
  match k with
  | Some (JStr s) =>
      if bool_decide (is_Some (mi_workflowTaskIdByKey args !! s)) || bool_decide (is_Some (batch !! s))
      then Some s else None
  | _ => None
  end.

Definition child_dependency (args : MaterializeForeachInput) (batch : gmap string string) (stable : string)
    (dep : json) : result ForeachStructuredError ChildDependencyInsert :=
  let parentKey := ph_key (mi_parent args) in
  match known_key args batch (jprop "taskKey" dep) with
  | Some depKey => Ok {|
      cdi_id := deterministicSidecarId "dep" (deterministicChildTaskId (mi_workflowId args) parentKey stable) depKey;
      cdi_workflowId := mi_workflowId args;
      cdi_taskKey := child_key parentKey stable;
      cdi_dependsOnTaskKey := depKey;
      cdi_outcome := nullish (jprop "outcome" dep) ?? JStr "success" |}
  | None => Err (foreach_unresolved_dependency parentKey stable (jprop "taskKey" dep))
  end.

Definition template_deps (tmpl : json) : list json :=
  match jprop "dependsOn" tmpl with Some (JArr l) => l | _ => [] end.

Definition child_approval (args : MaterializeForeachInput) (tmpl : json) (stable : string)
    : option ChildApprovalInsert :=
  let parentKey := ph_key (mi_parent args) in
  match jprop "requiredScope" tmpl with
  | Some scope =>
      if (cr_type (task_row args tmpl stable) ≟ "approval") && is_object scope then Some {|
        cai_id := deterministicSidecarId "wapp" (deterministicChildTaskId (mi_workflowId args) parentKey stable)
                    "approval";
        cai_workflowId := mi_workflowId args;
        cai_taskKey := child_key parentKey stable;
        cai_requiredScope := scope |}
      else None
  | None => None
  end.

(** The template with the variables of one item filled in. *)
Definition instantiate (fe : ForeachSpec) (item : json) (i total : nat) : json :=
  substituteValue (fe_template fe) (fe_as fe) item
    {| sc_index := i; sc_position := S i; sc_total := total |}.

Definition child_plan (args : MaterializeForeachInput) (batch : gmap string string) (total i : nat)
    (item : json) (stable : string) : result ForeachStructuredError ChildPlan :=
  let tmpl := instantiate (mi_foreachConfig args) item i total in
  deps ← mapM (child_dependency args batch stable) (template_deps tmpl);
  Ok {| cp_taskRow := task_row args tmpl stable; cp_dependencies := deps;
        cp_approval := child_approval args tmpl stable |}.

(** The last loop: one plan per item, the first error wins. *)
Fixpoint child_plans (args : MaterializeForeachInput) (batch : gmap string string) (total i : nat)
    (items : list (json * string)) : result ForeachStructuredError (list ChildPlan) :=
  match items with
  | [] => Ok []
  | (item, stable) :: rest =>
      plan ← child_plan args batch total i item stable;
      plans ← child_plans args batch total (S i) rest;
      Ok (plan :: plans)
  end.

Definition materializeForeachChildren (args : MaterializeForeachInput)
    : result ForeachStructuredError MaterializationResult :=
  let fe := mi_foreachConfig args in
  let parentKey := ph_key (mi_parent args) in
  match source_items (mi_sourceOutput args) with
  | None => Err (foreach_invalid_source_output (fe_source fe) parentKey (receivedShape (mi_sourceOutput args)))
  | Some items =>
      let total := length items in
      if effective_limit fe <? Z.of_nat total then
        Err (foreach_max_fanout_exceeded (fe_source fe) parentKey (Z.of_nat total) (effective_limit fe)
               FOREACH_MAX_FANOUT_HARD_CEILING)
      else
        ids ← stable_ids fe parentKey 0 ∅ items;
        let batch := batch_key_to_id (mi_workflowId args) parentKey ids in
        plans ← child_plans args batch total 0 (zip items ids);
        Ok {| mr_plans := plans; mr_parentTaskId := ph_id (mi_parent args); mr_parentKey := parentKey |}
  end.

(** ** The ids of a batch *)

Lemma imap_S {A B} (f : nat → A → B) i x l :
  imap (λ j, f (i + j)%nat) (x :: l) = f i x :: imap (λ j, f (S i + j)%nat) l.
Proof.
  cbn. rewrite Nat.add_0_r. f_equal. apply imap_ext. intros j y _. cbn. by rewrite Nat.add_succ_r.
Qed.

Lemma stable_ids_Ok fe pk i seen items ids :
  stable_ids fe pk i seen items = Ok ids ↔
  imap (λ j, stable_id fe (i + j)%nat) items = map Ok ids ∧ NoDup ids ∧ ∀ x, x ∈ ids → seen !! x = None.
Proof.
  revert i seen ids. induction items as [|item items IH]; intros i seen ids.
  - cbn. split.
    + intros [= <-]. split_and!; [done|constructor|by intros ? ?%elem_of_nil].
    + intros (E & _). by destruct ids.
  - rewrite imap_S. cbn [stable_ids]. destruct (stable_id fe i item) as [stable|raw] eqn:Es.
    2: { split; [done|]. intros (E & _). by destruct ids. }
    destruct (seen !! stable) as [j|] eqn:Ej.
    { split; [done|]. intros (E & _ & Hs). destruct ids as [|x ids]; [done|]. injection E as <- _.
      rewrite (Hs stable) in Ej by left. done. }
    rewrite result_bind_Ok. setoid_rewrite IH. split.
    + intros (ids' & (E & Hn & Hs) & [= <-]).
      assert (Hni : stable ∉ ids').
      { intros Hin. specialize (Hs _ Hin). by rewrite lookup_insert_eq in Hs. }
      split_and!; [by rewrite E|by constructor|].
      intros x [->|Hx]%elem_of_cons; [done|]. specialize (Hs x Hx).
      rewrite lookup_insert_ne in Hs by (intros ->; done). done.
    + intros (E & Hn & Hs). destruct ids as [|x ids]; [done|]. injection E as <- E.
      apply NoDup_cons in Hn as [Hni Hn]. exists ids. split; [|done]. split_and!; [done|done|].
      intros x Hx. rewrite lookup_insert_ne by (intros ->; done). apply Hs. by right.
Qed.

Lemma child_key_inj pk x y : child_key pk x = child_key pk y → x = y.
Proof. unfold child_key. intros H%str_app_inj_l. by apply (str_app_inj_l "__") in H. Qed.

Lemma batch_lookup wf pk ids k :
  is_Some (batch_key_to_id wf pk ids !! k) ↔ ∃ x, x ∈ ids ∧ k = child_key pk x.
Proof.
  unfold batch_key_to_id. induction ids as [|x ids IH] using rev_ind.
  - cbn. rewrite lookup_empty. split; [by intros [? ?]|by intros (? & ?%elem_of_nil & _)].
  - rewrite foldl_snoc. destruct (decide (k = child_key pk x)) as [->|Hne].
    + rewrite lookup_insert_eq. split; [|by eexists]. intros _. exists x. split; [apply elem_of_app; right; left|done].
    + rewrite lookup_insert_ne by done. rewrite IH. split; intros (y & Hy & ->).
      * exists y. split; [apply elem_of_app; by left|done].
      * apply elem_of_app in Hy as [Hy| ->%list_elem_of_singleton]; [by exists y|done].
Qed.

Lemma child_plans_Ok args batch total i items plans :
  child_plans args batch total i items = Ok plans ↔
  imap (λ j (it : json * string), child_plan args batch total (i + j)%nat it.1 it.2) items = map Ok plans.
Proof.
  revert i plans. induction items as [|[item stable] items IH]; intros i plans.
  - cbn. split; [by intros [= <-]|]. by destruct plans.
  - rewrite (imap_S (λ j (it : json * string), child_plan args batch total j it.1 it.2)).
    cbn [child_plans fst snd]. rewrite result_bind_Ok. split.
    + intros (plan & Hp & H). apply result_bind_Ok in H as (ps & Hps & [= <-]). cbn. rewrite Hp. f_equal.
      exact (proj1 (IH (S i) ps) Hps).
    + intros E. destruct plans as [|plan plans]; [done|]. injection E as Hp E.
      exists plan. split; [done|]. rewrite (proj2 (IH (S i) plans) E). done.
Qed.

(** ** The children of a batch *)

(** The plan of the item at [i]: its row, one dependency row per template
    dependency, each on a task of the workflow or of the batch. *)
Record planned_child (args : MaterializeForeachInput) (batch : gmap string string) (items : list json)
    (i : nat) (stable : string) (p : ChildPlan) : Prop := {
  pc_row item : items !! i = Some item →
    cp_taskRow p = task_row args (instantiate (mi_foreachConfig args) item i (length items)) stable;
  pc_deps item : items !! i = Some item →
    mapM (child_dependency args batch stable)
      (template_deps (instantiate (mi_foreachConfig args) item i (length items))) = Ok (cp_dependencies p);
  pc_approval item : items !! i = Some item →
    cp_approval p = child_approval args (instantiate (mi_foreachConfig args) item i (length items)) stable;
}.

(** What a successful run read, and the plans in order. *)
Record materialized (args : MaterializeForeachInput) (r : MaterializationResult) (items : list json)
    (ids : list string) : Prop := {
  mz_items : source_items (mi_sourceOutput args) = Some items;
  mz_limit : Z.of_nat (length items) <= effective_limit (mi_foreachConfig args);
  mz_ids : imap (stable_id (mi_foreachConfig args)) items = map Ok ids;
  mz_distinct : NoDup ids;
  mz_length : length (mr_plans r) = length items ∧ length ids = length items;
  mz_plan i stable p : ids !! i = Some stable → mr_plans r !! i = Some p →
    planned_child args (batch_key_to_id (mi_workflowId args) (ph_key (mi_parent args)) ids) items i stable p;
}.

Lemma zip_lookup {A B} (l : list A) (k : list B) i x y :
  zip l k !! i = Some (x, y) ↔ l !! i = Some x ∧ k !! i = Some y.
Proof. apply lookup_zip_Some. Qed.

Lemma materialize_Ok args r :
  materializeForeachChildren args = Ok r → ∃ items ids, materialized args r items ids.
Proof.
  unfold materializeForeachChildren. destruct (source_items _) as [items|] eqn:Ei; [|done].
  destruct (effective_limit _ <? _) eqn:El; [done|]. bprop. intros Hr.
  apply result_bind_Ok in Hr as (ids & Hids & Hr). apply result_bind_Ok in Hr as (plans & Hplans & [= <-]).
  apply stable_ids_Ok in Hids as (Hids & Hn & _). apply child_plans_Ok in Hplans. cbn in Hids, Hplans.
  assert (Hlen : length ids = length items).
  { apply (f_equal length) in Hids. rewrite length_imap, length_map in Hids. done. }
  assert (Hplen : length plans = length items).
  { apply (f_equal length) in Hplans. rewrite length_imap, length_map, length_zip in Hplans. lia. }
  exists items, ids. constructor; try done. cbn [mr_plans]. intros i stable p Hs Hp.
  constructor; intros item Hitem;
    (assert (Hi : child_plan args (batch_key_to_id (mi_workflowId args) (ph_key (mi_parent args)) ids)
               (length items) i item stable = Ok p);
     [pose proof (f_equal (λ l, l !! i) Hplans) as H; cbn in H;
      rewrite list_lookup_imap, lookup_map, Hp, (proj2 (zip_lookup items ids i item stable)) in H by done;
      by injection H|]);
    unfold child_plan in Hi; apply result_bind_Ok in Hi as (deps & Hdeps & [= <-]); done.
Qed.

Definition plan_key (p : ChildPlan) : string := cr_key (cp_taskRow p).

(** Row [i] of a batch. *)
Lemma materialized_row args r items ids i p :
  materialized args r items ids → mr_plans r !! i = Some p →
  ∃ item stable, items !! i = Some item ∧ ids !! i = Some stable ∧
    stable_id (mi_foreachConfig args) i item = Ok stable ∧
    cp_taskRow p = task_row args (instantiate (mi_foreachConfig args) item i (length items)) stable ∧
    mapM (child_dependency args (batch_key_to_id (mi_workflowId args) (ph_key (mi_parent args)) ids) stable)
      (template_deps (instantiate (mi_foreachConfig args) item i (length items))) = Ok (cp_dependencies p).
Proof.
  intros [_ _ Hids _ [Hl1 Hl2] Hplan] Hp.
  pose proof (lookup_lt_Some _ _ _ Hp) as Hlt.
  destruct (lookup_lt_is_Some_2 items i) as [item Hitem]; [lia|].
  destruct (lookup_lt_is_Some_2 ids i) as [stable Hst]; [lia|].
  exists item, stable. destruct (Hplan i stable p Hst Hp) as [Hrow Hdeps _]. split_and!; auto.
  pose proof (f_equal (λ l, l !! i) Hids) as H. cbn in H.
  rewrite list_lookup_imap, lookup_map, Hitem, Hst in H. by injection H.
Qed.

Lemma materialized_keys args r items ids :
  materialized args r items ids →
  map plan_key (mr_plans r) = map (child_key (ph_key (mi_parent args))) ids.
Proof.
  intros Hm. apply list_eq. intros i. rewrite !lookup_map.
  destruct (mr_plans r !! i) as [p|] eqn:Hp.
  - destruct (materialized_row _ _ _ _ _ _ Hm Hp) as (item & stable & _ & -> & _ & Hrow & _).
    cbn. unfold plan_key. by rewrite Hrow.
  - apply lookup_ge_None in Hp. destruct (mz_length _ _ _ _ Hm).
    rewrite lookup_ge_None_2; [done|lia].
Qed.


(** Every template dependency of an item names a known task. *)
Definition deps_known (args : MaterializeForeachInput) (ids : list string) (tmpl : json) : Prop :=
  ∀ dep, dep ∈ template_deps tmpl → ∃ k, jprop "taskKey" dep = Some (JStr k) ∧
    (is_Some (mi_workflowTaskIdByKey args !! k) ∨ ∃ x, x ∈ ids ∧ k = child_key (ph_key (mi_parent args)) x).

Lemma child_dependency_known args ids stable dep :
  is_ok (child_dependency args (batch_key_to_id (mi_workflowId args) (ph_key (mi_parent args)) ids) stable dep) = true ↔
  ∃ k, jprop "taskKey" dep = Some (JStr k) ∧
    (is_Some (mi_workflowTaskIdByKey args !! k) ∨ ∃ x, x ∈ ids ∧ k = child_key (ph_key (mi_parent args)) x).
Proof.
  unfold child_dependency, known_key. split.
  - destruct (jprop "taskKey" dep) as [[| | |k| |]|]; try done.
    destruct (_ || _) eqn:Ek; [|done]. intros _. exists k. split; [done|].
    apply orb_true_iff in Ek as [Ek|Ek]; bprop; [by left|right]. by apply batch_lookup in Ek.
  - intros (k & -> & Hk). assert ((bool_decide (is_Some (mi_workflowTaskIdByKey args !! k))
      || bool_decide (is_Some (batch_key_to_id (mi_workflowId args) (ph_key (mi_parent args)) ids !! k))) = true) as ->;
      [|done].
    apply orb_true_iff. rewrite !bool_decide_eq_true, batch_lookup. done.
Qed.

Lemma mapM_is_ok {E A B} (f : A → result E B) l :
  (∃ k, mapM f l = Ok k) ↔ ∀ x, x ∈ l → is_ok (f x) = true.
Proof.
  setoid_rewrite result_mapM_Ok. split.
  - intros [k Hk] x Hx. apply list_elem_of_lookup in Hx as [i Hi].
    destruct (Forall2_lookup_l _ _ _ _ _ Hk Hi) as (y & _ & ->). done.
  - induction l as [|x l IH]; intros Hl; [exists []; constructor|].
    destruct IH as [k Hk]; [intros y Hy; apply Hl; by right|].
    specialize (Hl x ltac:(left)). destruct (f x) as [y|] eqn:Ex; [|done]. exists (y :: k). by constructor.
Qed.

Lemma imap_Ok {E A B} (f : nat → A → result E B) l :
  (∃ k, imap f l = map Ok k) ↔ ∀ i x, l !! i = Some x → is_ok (f i x) = true.
Proof.
  revert f. induction l as [|x l IH]; intros f; [split; [by intros _ [|i] y|by exists []]|]. cbn. split.
  - intros [[|y k] Hk]; [done|]. injection Hk as Hx Hk. intros [|i] z; cbn; [intros [= <-]; by rewrite Hx|].
    apply (proj1 (IH (f ∘ S))). by exists k.
  - intros Hl. destruct (proj2 (IH (f ∘ S))) as [k Hk]; [intros i z; apply (Hl (S i))|].
    specialize (Hl 0%nat x eq_refl). destruct (f 0%nat x) as [y|] eqn:Ex; [|done]. exists (y :: k).
    cbn. by rewrite Hk.
Qed.

(** Materialization succeeds exactly when the source output has an [items]
    array within the limit, every item yields a stable id, the ids are
    distinct, and every instantiated dependency names a known task. *)
Theorem materialize_succeeds_iff args :
  is_ok (materializeForeachChildren args) = true ↔
  ∃ items ids,
    source_items (mi_sourceOutput args) = Some items ∧
    Z.of_nat (length items) <= effective_limit (mi_foreachConfig args) ∧
    imap (stable_id (mi_foreachConfig args)) items = map Ok ids ∧ NoDup ids ∧
    ∀ i item, items !! i = Some item →
      deps_known args ids (instantiate (mi_foreachConfig args) item i (length items)).
Proof.
  split.
  - destruct (materializeForeachChildren args) as [r|] eqn:Er; [|done]. intros _.
    apply materialize_Ok in Er as (items & ids & Hm). exists items, ids.
    split_and!; [apply Hm|apply Hm|apply Hm|apply Hm|]. intros i item Hi dep Hdep.
    destruct (mz_length _ _ _ _ Hm) as [Hl1 Hl2].
    destruct (lookup_lt_is_Some_2 (mr_plans r) i) as [p Hp]; [apply lookup_lt_Some in Hi; lia|].
    destruct (materialized_row _ _ _ _ _ _ Hm Hp) as (item' & stable & Hi' & _ & _ & _ & Hdeps).
    rewrite Hi in Hi'. injection Hi' as <-.
    apply (child_dependency_known args ids stable dep).
    by apply (proj1 (mapM_is_ok _ _) (ex_intro _ _ Hdeps)).
  - intros (items & ids & Ei & Hl & Hids & Hn & Hdeps). unfold materializeForeachChildren. rewrite Ei.
    assert (effective_limit (mi_foreachConfig args) <? Z.of_nat (length items) = false) as -> by lia.
    assert (stable_ids (mi_foreachConfig args) (ph_key (mi_parent args)) 0 ∅ items = Ok ids) as ->.
    { apply stable_ids_Ok. split_and!; [done|done|]. intros x _. apply lookup_empty. }
    cbn. set (batch := batch_key_to_id _ _ _).
    assert (Hp : ∃ plans, child_plans args batch (length items) 0 (zip items ids) = Ok plans).
    { setoid_rewrite child_plans_Ok. apply imap_Ok. intros i [item stable] Hz.
      apply zip_lookup in Hz as [Hi Hs]. cbn. unfold child_plan.
      destruct (proj2 (mapM_is_ok (child_dependency args batch stable)
        (template_deps (instantiate (mi_foreachConfig args) item i (length items))))) as [deps Hd].
      - intros dep Hdep. apply child_dependency_known. by apply (Hdeps i item Hi).
      - cbn. by rewrite Hd. }
    destruct Hp as [plans ->]. done.
Qed.

(** Re-running the materializer on a source output with more items appended
    keeps the key and the id of every child planned before, in place. *)
Theorem materialize_append args args' r r' items more
    (Hr : materializeForeachChildren args = Ok r) (Hr' : materializeForeachChildren args' = Ok r')
    (Hwf : mi_workflowId args' = mi_workflowId args) (Hp : mi_parent args' = mi_parent args)
    (Hc : mi_foreachConfig args' = mi_foreachConfig args)
    (Hi : source_items (mi_sourceOutput args) = Some items)
    (Hi' : source_items (mi_sourceOutput args') = Some (items ++ more)) :
  map (λ p, (plan_key p, cr_id (cp_taskRow p))) (mr_plans r) `prefix_of`
  map (λ p, (plan_key p, cr_id (cp_taskRow p))) (mr_plans r').
Proof.
  apply materialize_Ok in Hr as (its & ids & Hm). apply materialize_Ok in Hr' as (its' & ids' & Hm').
  pose proof (mz_items _ _ _ _ Hm) as E. rewrite Hi in E. injection E as <-.
  pose proof (mz_items _ _ _ _ Hm') as E. rewrite Hi' in E. injection E as <-.
  destruct (mz_length _ _ _ _ Hm) as [Hl1 Hl2], (mz_length _ _ _ _ Hm') as [Hl1' Hl2'].
  rewrite length_app in Hl1', Hl2'.
  exists (drop (length items) (map (λ p, (plan_key p, cr_id (cp_taskRow p))) (mr_plans r'))).
  apply list_eq. intros i. destruct (decide (i < length items)%nat) as [Hlt|Hge].
  - rewrite lookup_app_l by (rewrite length_map; lia). rewrite !lookup_map.
    destruct (lookup_lt_is_Some_2 (mr_plans r) i) as [p Hpl]; [lia|].
    destruct (lookup_lt_is_Some_2 (mr_plans r') i) as [p' Hpl']; [lia|]. rewrite Hpl, Hpl'. cbn.
    destruct (materialized_row _ _ _ _ _ _ Hm Hpl) as (it & st & Hit & _ & Hst & Hrow & _).
    destruct (materialized_row _ _ _ _ _ _ Hm' Hpl') as (it' & st' & Hit' & _ & Hst' & Hrow' & _).
    rewrite lookup_app_l in Hit' by lia. rewrite Hit in Hit'. injection Hit' as <-.
    rewrite Hc, Hst in Hst'. injection Hst' as <-.
    unfold plan_key. rewrite Hrow, Hrow'. unfold task_row; cbn. by rewrite Hwf, Hp.
  - rewrite lookup_app_r by (rewrite length_map; lia). rewrite length_map, lookup_drop. f_equal. lia.
Qed.

(** ** Keys of children are task keys *)

Definition is_hex (c : ascii) : bool := is_digit c || in_range "a" "f" c.
Definition key_char (c : ascii) : bool := is_word_char c || (c ≟ "-"%char).

Lemma char_check (f g : ascii → bool) :
  forallb (λ n, implb (f (ascii_of_nat n)) (g (ascii_of_nat n))) (seq 0 256) = true →
  ∀ c, f c = true → g c = true.
Proof.
  rewrite forallb_forall. intros Hall c Hc.
  assert (Hin : In (nat_of_ascii c) (seq 0 256)).
  { apply in_seq. pose proof (nat_ascii_bounded c). lia. }
  specialize (Hall _ Hin). by rewrite ascii_nat_embedding, Hc in Hall.
Qed.

Lemma slug_key_char c : is_slug_char c = true → key_char c = true.
Proof. revert c. apply char_check. vm_compute. reflexivity. Qed.
Lemma digit_key_char c : is_digit c = true → key_char c = true.
Proof. revert c. apply char_check. vm_compute. reflexivity. Qed.
Lemma hex_key_char c : is_hex c = true → key_char c = true.
Proof. revert c. apply char_check. vm_compute. reflexivity. Qed.

Lemma index_id_ok i :
  str_forallb key_char (index_id i) = true ∧ ((i < 500)%nat → (String.length (index_id i) <= 32)%nat).
Proof.
  split.
  - unfold index_id, padStart. rewrite str_forallb_app, str_repeat_forallb by done. cbn.
    eapply str_forallb_impl; [apply digit_key_char|apply show_nat_digits].
  - intros Hi. assert (Hall : forallb (λ i, String.length (index_id i) <=? 32)%nat (seq 0 500) = true)
      by (vm_compute; reflexivity).
    rewrite forallb_forall in Hall. apply Nat.leb_le, Hall, in_seq. lia.
Qed.

Lemma stable_id_ok fe i item stable :
  (∀ s, str_forallb is_hex (sha256 s) = true) → stable_id fe i item = Ok stable →
  str_forallb key_char stable = true ∧ ((i < 500)%nat → (String.length stable <= 32)%nat).
Proof.
  intros Hhex. unfold stable_id.
  assert (Hidx : ∀ s, Ok (E := json) (index_id i) = Ok s →
    str_forallb key_char s = true ∧ ((i < 500)%nat → (String.length s <= 32)%nat))
    by (intros s [= <-]; apply index_id_ok).
  destruct (fe_itemKey fe) as [[| | |path| |]|]; try apply Hidx.
  destruct (path ≟ ""); [apply Hidx|]. destruct (getByPath item path) as [raw|]; [|apply Hidx].
  assert (Hslug : ∀ s, slugifyItemKey (Some raw) = s → str_forallb key_char s = true ∧ (String.length s <= 32)%nat).
  { intros s <-. unfold slugifyItemKey. destruct raw; [split; [done|cbn; lia]|..].
    all: set (low := toLowerCase _); set (cl := str_filter is_slug_char low).
    all: assert (Hcl : str_forallb key_char cl = true)
      by (eapply str_forallb_impl; [apply slug_key_char|apply str_filter_forallb]).
    all: destruct (String.length cl =? 0)%nat; [split; [done|cbn; lia]|].
    all: destruct (Nat.leb_spec (String.length cl) 32) as [Hle|Hgt]; [by split|]; split.
    all: try (rewrite !str_forallb_app, str_forallb_take by done; cbn;
      apply str_forallb_take; eapply str_forallb_impl; [apply hex_key_char|apply Hhex]).
    all: rewrite !str_app_length; pose proof (str_take_length 26 cl); pose proof (str_take_length 4 (sha256 low));
      change (String.length "__") with 2%nat; lia. }
  destruct raw; try apply Hidx; cbv zeta; destruct (slugifyItemKey _ ≟ "") eqn:E; try done; intros [= <-];
    destruct (Hslug _ eq_refl); split; auto.
Qed.

(** C40: When the parent's key is a task key, so is every child key, and it is at
    most 34 characters longer, whatever the item key values are; the digest is
    only assumed to be hexadecimal text. *)
Theorem child_keys_valid args r
    (Hhex : ∀ s, str_forallb is_hex (sha256 s) = true)
    (Hr : materializeForeachChildren args = Ok r)
    (Hp : TASK_KEY_ok (ph_key (mi_parent args)) = true) p :
  p ∈ mr_plans r →
  TASK_KEY_ok (plan_key p) = true ∧
  (String.length (plan_key p) <= String.length (ph_key (mi_parent args)) + 34)%nat.
Proof.
  intros Hin. apply materialize_Ok in Hr as (items & ids & Hm). apply list_elem_of_lookup in Hin as [i Hi].
  destruct (materialized_row _ _ _ _ _ _ Hm Hi) as (item & stable & Hit & _ & Hst & Hrow & _).
  destruct (stable_id_ok _ _ _ _ Hhex Hst) as [Hc Hl].
  assert (Hlt : (i < 500)%nat).
  { apply lookup_lt_Some in Hit. pose proof (mz_limit _ _ _ _ Hm) as Hlim.
    unfold effective_limit, FOREACH_MAX_FANOUT_HARD_CEILING in Hlim. lia. }
  specialize (Hl Hlt). unfold plan_key. rewrite Hrow. cbn [task_row cr_key]. unfold child_key. split.
  - destruct (ph_key (mi_parent args)) as [|c k]; [done|]. rewrite str_app_cons. cbn in *. bprop.
    apply andb_true_iff. split; [done|]. fold key_char in *. rewrite str_forallb_app.
    apply andb_true_iff. split; [done|]. exact Hc.
  - rewrite !str_app_length. cbn. lia.
Qed.

End materializer.

(** ** Substitution *)

Lemma span_app p a b :
  str_forallb p a = true → match b with String c _ => p c = false | EmptyString => True end →
  span p (a +:+ b) = (a, b).
Proof.
  intros Ha Hb. induction a as [|c a IH].
  - change ("" +:+ b) with b. destruct b as [|c b]; [done|]. cbn. by rewrite Hb.
  - cbn in Ha. bprop. rewrite str_app_cons. cbn. rewrite H, IH by done. done.
Qed.

Lemma whole_token_name c a :
  var_first c = true → is_space c = false → str_forallb var_char a = true →
  whole_token var_syntax ("{{" +:+ String c a +:+ "}}") = Some (String c a, "").
Proof.
  intros Hc Hs Ha. set (s := "{{" +:+ String c a +:+ "}}").
  assert (Es : s = String "{" (String "{" (String c (a +:+ "}}")))) by reflexivity.
  assert (Hm : match_token var_syntax s = Some (String c a, "", String.length s)).
  { rewrite Es at 1. cbn [match_token span]. rewrite Hs. cbn [snd tk_first var_syntax]. rewrite Hc.
    cbn [tk_rest]. rewrite span_app by done. cbn [take_path tk_path span snd].
    change (span is_space "}}") with ("", "}}"). cbn [snd]. do 2 f_equal. }
  unfold whole_token. rewrite Hm. by rewrite Nat.eqb_refl.
Qed.

Lemma as_name_chars a : foreachAs_ok a = true →
  ∃ c r, a = String c r ∧ var_first c = true ∧ is_space c = false ∧ c ≠ "$"%char ∧ str_forallb var_char r = true.
Proof.
  destruct a as [|c r]; [done|]. cbn. intros H. bprop. exists c, r. split; [done|].
  assert (Hl : ∀ c, is_lower c = true → (var_first c && negb (is_space c) && negb (c ≟ "$"%char)) = true)
    by (apply char_check; vm_compute; reflexivity).
  specialize (Hl c H). bprop. split_and!; try done.
  eapply str_forallb_impl; [|done]. apply char_check. vm_compute. reflexivity.
Qed.

(** A template string that is exactly the fan-out variable in braces becomes
    the item itself, with its JSON type, and a string without tokens is left
    as it is. *)
Theorem substitute_variable asName item ctx s (Ha : foreachAs_ok asName = true)
    (Hs : tokens var_syntax s = []) :
  substituteValue (JStr ("{{" +:+ asName +:+ "}}")) asName item ctx = item ∧
  substituteValue (JStr s) asName item ctx = JStr s.
Proof.
  destruct (as_name_chars _ Ha) as (c & r & -> & Hc & Hsp & Hd & Hr). cbn [substituteValue].
  unfold substituteString. split.
  - rewrite whole_token_name by done. rewrite str_app_nil_r. unfold resolveVar.
    rewrite !(bool_decide_eq_false_2 (String c r = String "$" _)) by congruence.
    by rewrite bool_decide_eq_true_2.
  - assert (Hchr : ∀ p, p ∈ scan var_syntax 0 s → ∃ x, p = Chr x).
    { intros p Hp. destruct p as [x|raw n q]; [by exists x|exfalso].
      assert (Hin : (n, q) ∈ tokens var_syntax s).
      { unfold tokens. apply list_elem_of_omap. by exists (Tok raw n q). }
      rewrite Hs in Hin. by apply elem_of_nil in Hin. }
    assert (Hw : whole_token var_syntax s = None).
    { unfold whole_token. destruct (match_token var_syntax s) as [[[n q] len]|] eqn:Em; [|done].
      exfalso. destruct s as [|x s]; [done|]. cbn [scan] in Hchr. rewrite Em in Hchr.
      destruct (Hchr (Tok (str_take len (String x s)) n q)) as [y Hy]; [left|done]. }
    rewrite Hw. f_equal. rewrite <- (replace_tokens_raw var_syntax s) at 2. unfold replace_tokens.
    induction (scan var_syntax 0 s) as [|p l IH]; [done|]. destruct (Hchr p) as [x ->]; [left|].
    cbn [foldr]. f_equal. apply IH. intros p Hp. apply Hchr. by right.
Qed.

(** ** A batch over two documents *)

Definition hex_digest (s : string) : string := str_repeat "a" 64.

Definition docs_template : json := JObj
  [("key", JStr "review"); ("type", JStr "approval"); ("title", JStr "Review {{doc.name}} ({{$position}}/{{$total}})");
   ("dependsOn", JArr [JObj [("taskKey", JStr "collect")]]);
   ("requiredScope", JObj [("level", JStr "team")])].

Definition docs_foreach : ForeachSpec := {|
  fe_source := "collect"; fe_as := "doc"; fe_itemKey := Some (JStr "id"); fe_template := docs_template;
  fe_rollupPolicy := None; fe_maxFanout := None |}.

Definition docs_args (items : list json) : MaterializeForeachInput := {|
  mi_workflowId := "wf_1"; mi_parent := {| ph_id := "wtask_p"; ph_key := "reviews" |};
  mi_foreachConfig := docs_foreach; mi_sourceOutput := Some (JObj [("items", JArr items)]);
  mi_workflowTaskIdByKey := {["collect" := "wtask_c"]} |}.

Definition docs_items : list json :=
  [JObj [("id", JStr "A-1"); ("name", JStr "plan")]; JObj [("id", JStr "B 2"); ("name", JStr "notes")]].

Example docs_batch :
  match materializeForeachChildren hex_digest (docs_args docs_items) with
  | Ok r => map (λ p, (plan_key p, cr_title (cp_taskRow p), cr_type (cp_taskRow p),
                       map cdi_dependsOnTaskKey (cp_dependencies p), is_present (cp_approval p))) (mr_plans r)
  | Err _ => []
  end = [("reviews__a-1", "Review plan (1/2)", "approval", ["collect"], true);
         ("reviews__b2", "Review notes (2/2)", "approval", ["collect"], true)].
Proof. vm_compute. reflexivity. Qed.

(** The result of a run that succeeds, for the witnesses. *)
Definition docs_result (items : list json) : MaterializationResult :=
  match materializeForeachChildren hex_digest (docs_args items) with
  | Ok r => r
  | Err _ => {| mr_plans := []; mr_parentTaskId := ""; mr_parentKey := "" |}
  end.

Lemma docs_ok : materializeForeachChildren hex_digest (docs_args docs_items) = Ok (docs_result docs_items).
Proof. vm_compute. reflexivity. Qed.

Definition more_docs : list json := [JObj [("id", JStr "C3"); ("name", JStr "log")]].

Lemma more_docs_ok :
  materializeForeachChildren hex_digest (docs_args (docs_items ++ more_docs)) =
    Ok (docs_result (docs_items ++ more_docs)).
Proof. vm_compute. reflexivity. Qed.


Lemma materialize_append_witness :
  map (λ p, (plan_key p, cr_id (cp_taskRow p))) (mr_plans (docs_result docs_items)) `prefix_of`
  map (λ p, (plan_key p, cr_id (cp_taskRow p))) (mr_plans (docs_result (docs_items ++ more_docs))).
Proof.
  exact (materialize_append hex_digest _ _ _ _ docs_items more_docs docs_ok more_docs_ok
    eq_refl eq_refl eq_refl eq_refl eq_refl).
Defined.

Lemma hex_digest_hex s : str_forallb is_hex (hex_digest s) = true.
Proof. vm_compute. reflexivity. Qed.

Lemma child_keys_valid_witness :
  ∃ p, p ∈ mr_plans (docs_result docs_items) ∧ TASK_KEY_ok (plan_key p) = true.
Proof.
  destruct (mr_plans (docs_result docs_items)) as [|p l] eqn:E; [vm_compute in E; discriminate E|].
  exists p. split; [left|].
  refine (proj1 (child_keys_valid hex_digest _ _ hex_digest_hex docs_ok eq_refl p _)). rewrite E. left.
Defined.

Lemma substitute_variable_witness :
  substituteValue (JStr "{{doc}}") "doc" (JNum "7") {| sc_index := 0; sc_position := 1; sc_total := 1 |} = JNum "7".
Proof. exact (proj1 (substitute_variable "doc" (JNum "7") _ "plain" eq_refl eq_refl)). Defined.
