(* ===== verification/Store.v ===== *)
(** * The database of the engine ([schema.ts]) and its effects

    The state is the tables of [schema.ts]: those of the workflows, and the
    catalogue of templates, which the engine never touches.  A table is the list of its rows in physical order;
    a [SELECT] without [ORDER BY] returns them in that order.  The columns that
    only the spec writer sets are grouped in one record per table
    ([TaskDef], [WorkflowDef]), the columns the engine writes are fields of the
    row.  A [jsonb] column holds a [json] value, a [timestamp] an epoch
    millisecond count.

    Engine code is a state and exception monad [M].  A statement that violates a
    unique index or a foreign key throws; [transaction] keeps the writes of its
    body only if the body returns.  What is not determined by the code (the ids
    of [randomUUID], the wall clock, the digest, the collation of
    [localeCompare], the text the driver sends for a value of another type, the key
    order in which a [jsonb] column returns an object written by the store) is
    the class [Runtime]; each [randomUUID()] and each [new Date()] is a draw
    from its streams. *)

From S2P Require Import Prelude Json Time Spec Transitions Gates.
Open Scope Z_scope.

(** ** Rows *)

Record WorkflowDef := {
  wd_id : string; wd_sourceTemplateId : option string; wd_sourceTemplateVersion : option Z;
  wd_name : string; wd_product : option string; wd_targetAtUtc : option Z; wd_targetTz : option string;
  wd_ownerLevel : option string; wd_ownerId : option string; wd_orgId : string;
  wd_projectId : option string; wd_createdBy : option string; wd_specVersion : Z; wd_createdAt : Z
}.

Record WorkflowRow := {
  wr_def : WorkflowDef; wr_status : WorkflowStatus; wr_lockVersion : Z; wr_updatedAt : Z
}.

Record TaskDef := {
  td_id : string; td_workflowId : string; td_key : string; td_type : string; td_title : string;
  td_parentTaskId : option string; td_assigneeLevel : option string; td_assigneeId : option string;
  td_agentPackage : option string; td_agentRef : option json; td_input : option json;
  td_schedule : option json; td_anchor : option json; td_plannedStartUtc : option Z;
  td_plannedEndUtc : option Z; td_required : bool; td_failurePolicy : option FailurePolicy;
  td_missedWindowPolicy : option string; td_retryPolicy : option json; td_maxAttempts : option Z;
  td_cancelPolicy : option json; td_runId : option string; td_pinned : bool; td_risk : option string;
  td_foreachConfig : option ForeachSpec; td_createdAt : Z
}.

Record TaskRow := {
  tr_def : TaskDef; tr_status : TaskStatus; tr_dueAtUtc : option Z; tr_actualStartUtc : option Z;
  tr_actualEndUtc : option Z; tr_metadata : list (string * json); tr_lockVersion : Z; tr_updatedAt : Z
}.

Definition tr_id (t : TaskRow) : string := td_id (tr_def t).
Definition tr_workflowId (t : TaskRow) : string := td_workflowId (tr_def t).
Definition tr_key (t : TaskRow) : string := td_key (tr_def t).
Definition tr_type (t : TaskRow) : string := td_type (tr_def t).
Definition wr_id (w : WorkflowRow) : string := wd_id (wr_def w).

(** [t.foreachConfig != null]: a fan-out parent. *)
Definition is_foreach (t : TaskRow) : bool := is_present (td_foreachConfig (tr_def t)).

Record DependencyRow := {
  dp_id : string; dp_workflowId : string; dp_taskId : string; dp_dependsOnTaskId : string;
  dp_outcome : DependencyOutcome
}.

Record GateRow := {
  gr_id : string; gr_workflowId : string; gr_taskId : string; gr_entry : GateEntry; gr_evaluatedAt : Z
}.

Record EventRow := {
  er_id : string; er_workflowId : string; er_taskId : option string; er_taskKey : option string;
  er_kind : string; er_payload : option json; er_actorId : option string; er_source : option string;
  er_idempotencyKey : option string; er_createdAt : Z
}.

Record AttemptRow := {
  at_id : string; at_workflowId : string; at_taskId : string; at_attemptNo : Z;
  at_idempotencyKey : string; at_status : AttemptStatus; at_childRunId : option string;
  at_error : option json; at_output : option json; at_startedAt : option Z;
  at_completedAt : option Z; at_updatedAt : Z
}.

Record LeaseRow := {
  le_id : string; le_workflowId : string; le_taskId : string; le_attemptId : string;
  le_holderId : string; le_token : string; le_acquiredAt : Z; le_heartbeatAt : Z; le_expiresAt : Z
}.

Record ArtifactRow := {
  ar_id : string; ar_workflowId : string; ar_taskId : string; ar_kind : string; ar_ref : string;
  ar_version : Z; ar_pinned : bool; ar_authoringStepId : option string; ar_createdAt : Z
}.

Record ApprovalRow := {
  ap_id : string; ap_workflowId : string; ap_taskId : string; ap_requiredScope : json;
  ap_resolvedApproverIds : option json; ap_solicitationSchedule : option json;
  ap_deadlineUtc : option Z; ap_reviewPacketHash : option string; ap_status : ApprovalStatus;
  ap_rejectionPolicy : option RejectionPolicy; ap_invalidatedAt : option Z; ap_notificationState : option json;
  ap_decidedBy : option string; ap_decidedAt : option Z; ap_reason : option string; ap_createdAt : Z;
  ap_updatedAt : Z
}.

Record TemplateRow := {
  wt_id : string; wt_key : string; wt_version : Z; wt_name : string; wt_description : option string;
  wt_definition : json; wt_ownerLevel : option string; wt_ownerId : option string; wt_orgId : string;
  wt_projectId : option string; wt_origin : option json; wt_visibility : option string;
  wt_packageName : option string; wt_createdBy : option string; wt_createdAt : Z; wt_updatedAt : Z
}.

Record DB := {
  db_workflow : list WorkflowRow; db_task : list TaskRow; db_dependency : list DependencyRow;
  db_gate : list GateRow; db_event : list EventRow; db_attempt : list AttemptRow;
  db_lease : list LeaseRow; db_artifact : list ArtifactRow; db_approval : list ApprovalRow;
  db_template : list TemplateRow
}.

Definition with_workflow (d : DB) l : DB := Build_DB l (db_task d) (db_dependency d) (db_gate d) (db_event d)
  (db_attempt d) (db_lease d) (db_artifact d) (db_approval d) (db_template d).
Definition with_task (d : DB) l : DB := Build_DB (db_workflow d) l (db_dependency d) (db_gate d) (db_event d)
  (db_attempt d) (db_lease d) (db_artifact d) (db_approval d) (db_template d).
Definition with_dependency (d : DB) l : DB := Build_DB (db_workflow d) (db_task d) l (db_gate d) (db_event d)
  (db_attempt d) (db_lease d) (db_artifact d) (db_approval d) (db_template d).
Definition with_gate (d : DB) l : DB := Build_DB (db_workflow d) (db_task d) (db_dependency d) l (db_event d)
  (db_attempt d) (db_lease d) (db_artifact d) (db_approval d) (db_template d).
Definition with_event (d : DB) l : DB := Build_DB (db_workflow d) (db_task d) (db_dependency d) (db_gate d) l
  (db_attempt d) (db_lease d) (db_artifact d) (db_approval d) (db_template d).
Definition with_attempt (d : DB) l : DB := Build_DB (db_workflow d) (db_task d) (db_dependency d) (db_gate d)
  (db_event d) l (db_lease d) (db_artifact d) (db_approval d) (db_template d).
Definition with_lease (d : DB) l : DB := Build_DB (db_workflow d) (db_task d) (db_dependency d) (db_gate d)
  (db_event d) (db_attempt d) l (db_artifact d) (db_approval d) (db_template d).
Definition with_artifact (d : DB) l : DB := Build_DB (db_workflow d) (db_task d) (db_dependency d) (db_gate d)
  (db_event d) (db_attempt d) (db_lease d) l (db_approval d) (db_template d).
Definition with_approval (d : DB) l : DB := Build_DB (db_workflow d) (db_task d) (db_dependency d) (db_gate d)
  (db_event d) (db_attempt d) (db_lease d) (db_artifact d) l (db_template d).
Definition with_template (d : DB) l : DB := Build_DB (db_workflow d) (db_task d) (db_dependency d) (db_gate d)
  (db_event d) (db_attempt d) (db_lease d) (db_artifact d) (db_approval d) l.

(** ** The monad *)

Inductive exn :=
  | ex_range (e : RangeError)
  | ex_transition (e : TransitionError)
  | ex_foreach (e : ForeachPreconditionError)
  | ex_constraint (name : string)
  | ex_spec_apply (reason : string)
  | ex_host (message : string).

(** [st_draws] counts the draws taken from the streams of the runtime. *)
Record St := { st_db : DB; st_draws : nat }.

Definition M (A : Type) : Type := St → St * result exn A.

#[export] Instance M_ret : MRet M := λ A a s, (s, Ok a).
#[export] Instance M_bind : MBind M := λ A B f m s,
  match m s with (s', Ok a) => f a s' | (s', Err e) => (s', Err e) end.

Definition throw {A} (e : exn) : M A := λ s, (s, Err e).
Definition gets {A} (f : DB → A) : M A := λ s, (s, Ok (f (st_db s))).
Definition modify (f : DB → DB) : M unit :=
  λ s, ({| st_db := f (st_db s); st_draws := st_draws s |}, Ok ()).

(** A rejected transaction leaves the tables as they were. *)
Definition transaction {A} (m : M A) : M A := λ s,
  match m s with
  | (s', Ok a) => (s', Ok a)
  | (s', Err e) => ({| st_db := st_db s; st_draws := st_draws s' |}, Err e)
  end.

(** [try { m } catch (e) { h(e) }]. *)
Definition catch {A} (m : M A) (h : exn → M A) : M A := λ s,
  match m s with (s', Ok a) => (s', Ok a) | (s', Err e) => h e s' end.

Definition lift {E A} (inj : E → exn) (r : result E A) : M A :=
  match r with Ok a => mret a | Err e => throw (inj e) end.

Fixpoint foldM {A B} (f : B → A → M B) (b : B) (l : list A) : M B :=
  match l with [] => mret b | x :: r => b' ← f b x; foldM f b' r end.

Definition for_each {A} (l : list A) (f : A → M unit) : M unit := foldM (λ _, f) () l.

(** Runs the statement only under the test. *)
Definition when (b : bool) (m : M unit) : M unit := if b then m else mret ().

(** ** What the code relies on and does not define *)

Class Runtime := {
  rt_uuid : nat → string;
  rt_clock : nat → Z;
  rt_process : string;
  rt_sha256 : string → string;
  rt_localeCompare : string → string → Z;
  rt_pg_text : json → string;
  rt_pg_integer : json → option Z;
  rt_jsonb : json → json;
}.

Section effects.
Context `{Runtime}.

Definition draw {A} (f : nat → A) : M A :=
  λ s, ({| st_db := st_db s; st_draws := S (st_draws s) |}, Ok (f (st_draws s))).

Definition randomUUID : M string := draw rt_uuid.

(** [new Date()] and [Date.now()]. *)
Definition new_Date : M Z := draw rt_clock.

(** The helper [id(p)] of the engine's files. *)
Definition fresh_id (p : string) : M string := u ← randomUUID; mret (p +:+ "_" +:+ u).
End effects.

(** ** Statements *)

(** [UPDATE ... SET f WHERE p]. *)
Definition set_where {R} (p : R → bool) (f : R → R) (l : list R) : list R :=
  map (λ r, if p r then f r else r) l.

Definition update_workflow (p : WorkflowRow → bool) (f : WorkflowRow → WorkflowRow) : M (list WorkflowRow) :=
  hit ← gets (λ d, List.filter p (db_workflow d));
  modify (λ d, with_workflow d (set_where p f (db_workflow d)));;
  mret (map f hit).

Definition update_task (p : TaskRow → bool) (f : TaskRow → TaskRow) : M (list TaskRow) :=
  hit ← gets (λ d, List.filter p (db_task d));
  modify (λ d, with_task d (set_where p f (db_task d)));;
  mret (map f hit).

Definition update_attempt (p : AttemptRow → bool) (f : AttemptRow → AttemptRow) : M (list AttemptRow) :=
  hit ← gets (λ d, List.filter p (db_attempt d));
  modify (λ d, with_attempt d (set_where p f (db_attempt d)));;
  mret (map f hit).

Definition update_lease (p : LeaseRow → bool) (f : LeaseRow → LeaseRow) : M (list LeaseRow) :=
  hit ← gets (λ d, List.filter p (db_lease d));
  modify (λ d, with_lease d (set_where p f (db_lease d)));;
  mret (map f hit).

Definition update_approval (p : ApprovalRow → bool) (f : ApprovalRow → ApprovalRow) : M (list ApprovalRow) :=
  hit ← gets (λ d, List.filter p (db_approval d));
  modify (λ d, with_approval d (set_where p f (db_approval d)));;
  mret (map f hit).

Definition delete_lease (p : LeaseRow → bool) : M unit :=
  modify (λ d, with_lease d (List.filter (λ r, negb (p r)) (db_lease d))).

Definition delete_attempt (p : AttemptRow → bool) : M unit :=
  modify (λ d, with_attempt d (List.filter (λ r, negb (p r)) (db_attempt d))).

(** Foreign keys. *)
Definition has_workflow (d : DB) (i : string) : bool := existsb (λ w, wr_id w ≟ i) (db_workflow d).
Definition has_task (d : DB) (i : string) : bool := existsb (λ t, tr_id t ≟ i) (db_task d).
Definition has_attempt (d : DB) (i : string) : bool := existsb (λ a, at_id a ≟ i) (db_attempt d).

(** Runs the statement if its constraints hold in the current tables. *)
Definition guarded (ok : DB → bool) (name : string) (f : DB → DB) : M unit :=
  b ← gets ok; if (b : bool) then modify f else throw (ex_constraint name).

Definition task_insertable (r : TaskRow) (d : DB) : bool :=
  negb (has_task d (tr_id r)) && has_workflow d (tr_workflowId r) &&
  match td_parentTaskId (tr_def r) with Some p => has_task d p | None => true end.

(** [ON CONFLICT (workflow_id, key) DO NOTHING]. *)
Definition insert_task (r : TaskRow) : M unit :=
  dup ← gets (λ d, existsb (λ t, (tr_workflowId t ≟ tr_workflowId r) && (tr_key t ≟ tr_key r)) (db_task d));
  if (dup : bool) then mret ()
  else guarded (task_insertable r) "workflow_task" (λ d, with_task d (db_task d ++ [r])).

Definition insert_dependency (r : DependencyRow) : M unit :=
  guarded (λ d, negb (existsb (λ x, (dp_id x ≟ dp_id r)
                               || ((dp_taskId x ≟ dp_taskId r) && (dp_dependsOnTaskId x ≟ dp_dependsOnTaskId r)))
                        (db_dependency d))
                && has_workflow d (dp_workflowId r) && has_task d (dp_taskId r)
                && has_task d (dp_dependsOnTaskId r))
    "workflow_dependency" (λ d, with_dependency d (db_dependency d ++ [r])).

Definition insert_approval (r : ApprovalRow) : M unit :=
  guarded (λ d, negb (existsb (λ x, ap_id x ≟ ap_id r) (db_approval d))
                && has_workflow d (ap_workflowId r) && has_task d (ap_taskId r))
    "workflow_approval" (λ d, with_approval d (db_approval d ++ [r])).

Definition attempt_insertable (r : AttemptRow) (d : DB) : bool :=
  negb (existsb (λ x, (at_id x ≟ at_id r)
                      || ((at_workflowId x ≟ at_workflowId r) && (at_taskId x ≟ at_taskId r)
                          && (at_attemptNo x =? at_attemptNo r)))
          (db_attempt d))
  && has_workflow d (at_workflowId r) && has_task d (at_taskId r).

(** [ON CONFLICT (idempotency_key) DO NOTHING RETURNING id]. *)
Definition insert_attempt (r : AttemptRow) : M (list string) :=
  dup ← gets (λ d, existsb (λ x, at_idempotencyKey x ≟ at_idempotencyKey r) (db_attempt d));
  if (dup : bool) then mret []
  else guarded (attempt_insertable r) "workflow_task_attempt" (λ d, with_attempt d (db_attempt d ++ [r]));;
       mret [at_id r].

(** [ON CONFLICT (task_id) DO UPDATE SET] the columns of the new row. *)
Definition upsert_lease (r : LeaseRow) : M unit :=
  dup ← gets (λ d, existsb (λ x, le_taskId x ≟ le_taskId r) (db_lease d));
  if (dup : bool) then
    modify (λ d, with_lease d (set_where (λ x, le_taskId x ≟ le_taskId r) (λ x,
      {| le_id := le_id x; le_workflowId := le_workflowId x; le_taskId := le_taskId x;
         le_attemptId := le_attemptId r; le_holderId := le_holderId r; le_token := le_token r;
         le_acquiredAt := le_acquiredAt r; le_heartbeatAt := le_heartbeatAt r;
         le_expiresAt := le_expiresAt r |}) (db_lease d)))
  else guarded (λ d, negb (existsb (λ x, le_id x ≟ le_id r) (db_lease d)) && has_workflow d (le_workflowId r)
                     && has_task d (le_taskId r) && has_attempt d (le_attemptId r))
         "workflow_dispatch_lease" (λ d, with_lease d (db_lease d ++ [r])).

(** [ON CONFLICT (task_id, gate_kind) DO UPDATE SET] state and explanation,
    with the evaluation time of the [SET] clause. *)
Definition upsert_gate (r : GateRow) (set_evaluatedAt : Z) : M unit :=
  let same := λ x : GateRow, (gr_taskId x ≟ gr_taskId r) && (ge_kind (gr_entry x) ≟ ge_kind (gr_entry r)) in
  dup ← gets (λ d, existsb same (db_gate d));
  if (dup : bool) then
    modify (λ d, with_gate d (set_where same (λ x,
      {| gr_id := gr_id x; gr_workflowId := gr_workflowId x; gr_taskId := gr_taskId x;
         gr_entry := gr_entry r; gr_evaluatedAt := set_evaluatedAt |}) (db_gate d)))
  else guarded (λ d, negb (existsb (λ x, gr_id x ≟ gr_id r) (db_gate d)) && has_workflow d (gr_workflowId r)
                     && has_task d (gr_taskId r))
         "workflow_gate" (λ d, with_gate d (db_gate d ++ [r])).

Definition insert_event (r : EventRow) : M unit :=
  guarded (λ d, negb (existsb (λ x, er_id x ≟ er_id r) (db_event d)) && has_workflow d (er_workflowId r))
    "workflow_event" (λ d, with_event d (db_event d ++ [r])).

(** The partial index (created by the migration of [src/lib/drizzle-store.ts]) on
    [(workflow_id, task_id, ref)] of the rows with an
    authoring step; [on_conflict] is [ON CONFLICT DO NOTHING]. *)
Definition insert_artifact (on_conflict : bool) (r : ArtifactRow) : M unit :=
  dup ← gets (λ d, existsb (λ x, (ar_id x ≟ ar_id r) ||
                 (is_present (ar_authoringStepId x) && is_present (ar_authoringStepId r)
                  && (ar_workflowId x ≟ ar_workflowId r) && (ar_taskId x ≟ ar_taskId r)
                  && (ar_ref x ≟ ar_ref r))) (db_artifact d));
  if (dup : bool) && on_conflict then mret ()
  else guarded (λ d, negb dup && has_workflow d (ar_workflowId r) && has_task d (ar_taskId r))
         "workflow_artifact" (λ d, with_artifact d (db_artifact d ++ [r])).

(** [const [row] = await tx.select()...]: the first row that matches. *)
Definition first_where {R} (p : R → bool) (l : list R) : option R := List.find p l.

(** [ORDER BY attempt_no DESC LIMIT 1]. *)
Definition latest_attempt (l : list AttemptRow) : option AttemptRow :=
  foldl (λ best a, match best with
                   | Some b => if at_attemptNo b <? at_attemptNo a then Some a else best
                   | None => Some a
                   end) None l.

(** [new Map(rows.map(r => [k, v]))]: a later row overwrites an earlier one. *)
Definition map_of {R V} (f : R → string * V) (l : list R) : gmap string V :=
  foldl (λ m r, <[(f r).1 := (f r).2]> m) ∅ l.

(** The columns most updates of a task row write. *)
Definition task_set (status : TaskStatus) (lockVersion updatedAt : Z) (t : TaskRow) : TaskRow := {|
  tr_def := tr_def t; tr_status := status; tr_dueAtUtc := tr_dueAtUtc t;
  tr_actualStartUtc := tr_actualStartUtc t; tr_actualEndUtc := tr_actualEndUtc t;
  tr_metadata := tr_metadata t; tr_lockVersion := lockVersion; tr_updatedAt := updatedAt |}.

Definition task_started (at_ : Z) (t : TaskRow) : TaskRow := {|
  tr_def := tr_def t; tr_status := tr_status t; tr_dueAtUtc := tr_dueAtUtc t;
  tr_actualStartUtc := Some at_; tr_actualEndUtc := tr_actualEndUtc t;
  tr_metadata := tr_metadata t; tr_lockVersion := tr_lockVersion t; tr_updatedAt := tr_updatedAt t |}.

Definition task_ended (at_ : Z) (t : TaskRow) : TaskRow := {|
  tr_def := tr_def t; tr_status := tr_status t; tr_dueAtUtc := tr_dueAtUtc t;
  tr_actualStartUtc := tr_actualStartUtc t; tr_actualEndUtc := Some at_;
  tr_metadata := tr_metadata t; tr_lockVersion := tr_lockVersion t; tr_updatedAt := tr_updatedAt t |}.

Definition task_due (due : Z) (t : TaskRow) : TaskRow := {|
  tr_def := tr_def t; tr_status := tr_status t; tr_dueAtUtc := Some due;
  tr_actualStartUtc := tr_actualStartUtc t; tr_actualEndUtc := tr_actualEndUtc t;
  tr_metadata := tr_metadata t; tr_lockVersion := tr_lockVersion t; tr_updatedAt := tr_updatedAt t |}.

Definition task_meta (meta : list (string * json)) (t : TaskRow) : TaskRow := {|
  tr_def := tr_def t; tr_status := tr_status t; tr_dueAtUtc := tr_dueAtUtc t;
  tr_actualStartUtc := tr_actualStartUtc t; tr_actualEndUtc := tr_actualEndUtc t;
  tr_metadata := meta; tr_lockVersion := tr_lockVersion t; tr_updatedAt := tr_updatedAt t |}.

Definition workflow_set (status : WorkflowStatus) (lockVersion updatedAt : Z) (w : WorkflowRow) : WorkflowRow :=
  {| wr_def := wr_def w; wr_status := status; wr_lockVersion := lockVersion; wr_updatedAt := updatedAt |}.

(** [where(and(eq(id, x), eq(lockVersion, v)))]: the compare-and-set guard. *)
Definition task_cas (id : string) (v : Z) (t : TaskRow) : bool := (tr_id t ≟ id) && (tr_lockVersion t =? v).
Definition workflow_cas (id : string) (v : Z) (w : WorkflowRow) : bool :=
  (wr_id w ≟ id) && (wr_lockVersion w =? v).
