(* ===== verification/Hoare.v ===== *)
(** * Reasoning about engine code

    [wp m Q E d]: from tables [d], and whatever the runtime draws, [m] returns
    [a] in tables satisfying [Q a], or throws [e] in tables satisfying [E e].
    The draws of [randomUUID()] and [new Date()] are universally quantified, so
    a specification proved here holds for every clock and every id.  The rules
    are syntax-directed; the tactic [wps] applies them. *)

From S2P Require Import Prelude Store.

Definition wp {A} (m : M A) (Q : A → DB → Prop) (E : exn → DB → Prop) (d : DB) : Prop :=
  ∀ n, match m {| st_db := d; st_draws := n |} with
       | (s', Ok a) => Q a (st_db s')
       | (s', Err e) => E e (st_db s')
       end.

(** The postcondition for thrown errors inside a transaction. *)
Definition any_exn : exn → DB → Prop := λ _ _, True.

(** Host code that does not touch the engine's tables. *)
Definition quiet {A} (m : M A) : Prop := ∀ s, st_db (fst (m s)) = st_db s.

(** ** Updates that hit no row *)

Lemma set_where_ids {R K} (id : R → K) p f (l : list R) :
  (∀ x, id (f x) = id x) → map id (set_where p f l) = map id l.
Proof. intros Hf. unfold set_where. rewrite map_map. apply map_ext. intros x. by destruct (p x). Qed.

Lemma set_where_id {R} (p : R → bool) f l : (∀ x, x ∈ l → p x = false) → set_where p f l = l.
Proof.
  intros Hp. unfold set_where. induction l as [|x l IH]; [done|]. cbn. rewrite (Hp x) by left. f_equal.
  apply IH. intros y Hy. apply Hp. by right.
Qed.

Lemma filter_none {R} (p : R → bool) l : (∀ x, x ∈ l → p x = false) → List.filter p l = [].
Proof. intros Hp. by apply filter_nil_iff. Qed.

Section wp_rules.
Implicit Types (d : DB) (E : exn → DB → Prop).

Lemma wp_run {A} (m : M A) Q E s :
  wp m Q E (st_db s) →
  match m s with (s', Ok a) => Q a (st_db s') | (s', Err e) => E e (st_db s') end.
Proof. intros H. destruct s as [d n]. exact (H n). Qed.

Lemma wp_mono {A} (m : M A) (Q Q' : A → DB → Prop) E E' d :
  wp m Q E d → (∀ a d', Q a d' → Q' a d') → (∀ e d', E e d' → E' e d') → wp m Q' E' d.
Proof. intros H HQ HE n. specialize (H n). destruct (m _) as [s' [a|e]]; auto. Qed.

Lemma wp_conseq {A} (m : M A) (Q Q' : A → DB → Prop) E d :
  wp m Q E d → (∀ a d', Q a d' → Q' a d') → wp m Q' E d.
Proof. intros H HQ. eapply wp_mono; eauto. Qed.

Lemma wp_and {A} (m : M A) (Q1 Q2 : A → DB → Prop) (E1 E2 : exn → DB → Prop) d :
  wp m Q1 E1 d → wp m Q2 E2 d → wp m (λ a d', Q1 a d' ∧ Q2 a d') E1 d.
Proof. intros H1 H2 n. specialize (H1 n). specialize (H2 n). destruct (m _) as [s' [a|e]]; auto. Qed.

Lemma wp_ret {A} (a : A) Q E d : Q a d → wp (mret a) Q E d.
Proof. intros H n. exact H. Qed.

Lemma wp_bind {A B} (m : M A) (f : A → M B) Q E d :
  wp m (λ a d', wp (f a) Q E d') E d → wp (m ≫= f) Q E d.
Proof.
  intros H n. specialize (H n). unfold mbind, M_bind.
  destruct (m _) as [[d' n'] [a|e]]; [exact (H n')|exact H].
Qed.

Lemma wp_throw {A} e Q E d : E e d → wp (throw (A:=A) e) Q E d.
Proof. intros H n. exact H. Qed.

Lemma wp_gets {A} (f : DB → A) Q E d : Q (f d) d → wp (gets f) Q E d.
Proof. intros H n. exact H. Qed.

Lemma wp_modify f Q E d : Q () (f d) → wp (modify f) Q E d.
Proof. intros H n. exact H. Qed.

Lemma wp_draw {A} (f : nat → A) (Q : A → DB → Prop) E d : (∀ a, Q a d) → wp (draw f) Q E d.
Proof. intros H n. apply H. Qed.

Lemma wp_lift {X A} (inj : X → exn) (r : result X A) Q E d :
  match r with Ok a => Q a d | Err e => E (inj e) d end → wp (lift inj r) Q E d.
Proof. destruct r; [apply wp_ret|apply wp_throw]. Qed.

Lemma wp_when b m Q E d : (b = true → wp m Q E d) → (b = false → Q () d) → wp (when b m) Q E d.
Proof. destruct b; intros H1 H2; [by apply H1|apply wp_ret; by apply H2]. Qed.

Lemma wp_guarded ok name f Q E d :
  (ok d = true → Q () (f d)) → (ok d = false → E (ex_constraint name) d) → wp (guarded ok name f) Q E d.
Proof.
  intros H1 H2. apply wp_bind, wp_gets. destruct (ok d) eqn:Eok; [apply wp_modify|apply wp_throw]; auto.
Qed.

(** The tables of a rejected transaction are those it started from. *)
Lemma wp_transaction {A} (m : M A) Q E d :
  wp m Q (λ e _, E e d) d → wp (transaction m) Q E d.
Proof.
  intros H n. specialize (H n). unfold transaction. destruct (m _) as [s' [a|e]]; exact H.
Qed.

Lemma wp_catch {A} (m : M A) h Q E d :
  wp m Q (λ e d', wp (h e) Q E d') d → wp (catch m h) Q E d.
Proof.
  intros H n. specialize (H n). unfold catch. destruct (m _) as [[d' n'] [a|e]]; [exact H|exact (H n')].
Qed.

(** A loop, by an invariant on the items left, the accumulator and the tables. *)
Lemma wp_foldM {A B} (f : B → A → M B) (I : list A → B → DB → Prop) E l b d :
  I l b d →
  (∀ x r b d, I (x :: r) b d → wp (f b x) (λ b' d', I r b' d') E d) →
  wp (foldM f b l) (λ b' d', I [] b' d') E d.
Proof.
  intros H Hstep. revert b d H. induction l as [|x r IH]; intros b d H; [by apply wp_ret|].
  cbn. apply wp_bind. eapply wp_conseq; [by apply Hstep|]. cbn. intros b' d' H'. by apply IH.
Qed.

Lemma wp_mapM {A B} (f : A → M B) (I : list A → list B → DB → Prop) E l k d :
  I l k d →
  (∀ x r k d, I (x :: r) k d → wp (f x) (λ y d', I r (k ++ [y]) d') E d) →
  wp (mapM f l) (λ k' d', I [] (k ++ k') d') E d.
Proof.
  intros H Hstep. revert k d H. induction l as [|x r IH]; intros k d H.
  { apply wp_ret. by rewrite app_nil_r. }
  cbn. apply wp_bind. eapply wp_conseq; [by apply Hstep|]. cbn. intros y d' H'.
  apply wp_bind. eapply wp_conseq; [by apply (IH (k ++ [y]))|]. cbn. intros k' d'' Hk.
  apply wp_ret. by rewrite <- app_assoc in Hk.
Qed.

Lemma wp_for_each {A} (f : A → M unit) (I : list A → DB → Prop) E l d :
  I l d → (∀ x r d, I (x :: r) d → wp (f x) (λ _ d', I r d') E d) →
  wp (for_each l f) (λ _ d', I [] d') E d.
Proof.
  intros H Hstep. apply (wp_foldM _ (λ l _, I l)); [done|]. intros x r _ d' Hd. by apply Hstep.
Qed.

(** A loop that keeps an invariant, and one that only checks. *)
Lemma wp_for_each_inv {A} (f : A → M unit) (I : DB → Prop) E l d :
  I d → (∀ x d, x ∈ l → I d → wp (f x) (λ _, I) E d) → wp (for_each l f) (λ _, I) E d.
Proof.
  intros H Hstep. apply (wp_conseq _ (λ _ d', [] ⊆ l ∧ I d')); [|by intros _ d' []].
  apply (wp_for_each _ (λ r d', r ⊆ l ∧ I d')); [done|]. intros x r d' [Hr Hd].
  eapply wp_conseq; [apply Hstep; [apply Hr; left|done]|]. cbn. intros _ d'' Hd''. split; [|done].
  intros y Hy. apply Hr. by right.
Qed.

Lemma wp_for_each_check {A} (f : A → M unit) (P : A → Prop) E l d :
  (∀ x, x ∈ l → wp (f x) (λ _ d', d' = d ∧ P x) E d) →
  wp (for_each l f) (λ _ d', d' = d ∧ ∀ x, x ∈ l → P x) E d.
Proof.
  intros H. apply (wp_conseq _ (λ _ d', [] ⊆ l ∧ d' = d ∧ ∀ x, x ∈ l → x ∈ [] ∨ P x)).
  - apply (wp_for_each _ (λ r d', r ⊆ l ∧ d' = d ∧ ∀ x, x ∈ l → x ∈ r ∨ P x)); [by auto|].
    intros x r d' (Hr & -> & Hx). eapply wp_conseq; [apply H, Hr; left|]. cbn. intros _ d'' [-> HP].
    split_and!; [intros y Hy; apply Hr; by right|done|].
    intros y Hy. destruct (Hx y Hy) as [[->|?]%elem_of_cons|?]; auto.
  - cbn. intros _ d' (_ & -> & Hx). split; [done|]. intros x Hin. destruct (Hx x Hin) as [?%elem_of_nil|]; done.
Qed.

(** The updates, as the tables they write. *)
Lemma wp_raw_task p f (Q : list TaskRow → DB → Prop) E d :
  Q (map f (List.filter p (db_task d))) (with_task d (set_where p f (db_task d))) → wp (update_task p f) Q E d.
Proof. intros H n. exact H. Qed.

Lemma wp_raw_attempt p f (Q : list AttemptRow → DB → Prop) E d :
  Q (map f (List.filter p (db_attempt d))) (with_attempt d (set_where p f (db_attempt d))) →
  wp (update_attempt p f) Q E d.
Proof. intros H n. exact H. Qed.

Lemma wp_raw_workflow p f (Q : list WorkflowRow → DB → Prop) E d :
  Q (map f (List.filter p (db_workflow d))) (with_workflow d (set_where p f (db_workflow d))) →
  wp (update_workflow p f) Q E d.
Proof. intros H n. exact H. Qed.

Lemma wp_raw_lease p f (Q : list LeaseRow → DB → Prop) E d :
  Q (map f (List.filter p (db_lease d))) (with_lease d (set_where p f (db_lease d))) →
  wp (update_lease p f) Q E d.
Proof. intros H n. exact H. Qed.

Lemma wp_raw_approval p f (Q : list ApprovalRow → DB → Prop) E d :
  Q (map f (List.filter p (db_approval d))) (with_approval d (set_where p f (db_approval d))) →
  wp (update_approval p f) Q E d.
Proof. intros H n. exact H. Qed.

Lemma wp_quiet {A} (m : M A) (Q : A → DB → Prop) E d :
  quiet m → (∀ a, Q a d) → (∀ e, E e d) → wp m Q E d.
Proof.
  intros Hq HQ HE n. specialize (Hq {| st_db := d; st_draws := n |}).
  destruct (m _) as [s' [a|e]]; cbn in Hq; rewrite Hq; auto.
Qed.
End wp_rules.

(** Applies the rule of the head of the program. *)
Ltac wp1 :=
  match goal with
  | |- wp (_ ≫= _) _ _ _ => apply wp_bind
  | |- wp (mret _) _ _ _ => apply wp_ret
  | |- wp (gets _) _ _ _ => apply wp_gets
  | |- wp (modify _) _ _ _ => apply wp_modify
  | |- wp (throw _) _ _ _ => apply wp_throw
  | |- wp (draw _) _ _ _ => apply wp_draw; intros ?
  | |- wp randomUUID _ _ _ => apply wp_draw; intros ?
  | |- wp new_Date _ _ _ => apply wp_draw; intros ?
  | |- wp (fresh_id _) _ _ _ => unfold fresh_id
  | |- wp (guarded _ _ _) _ _ _ => apply wp_guarded; intros ?
  | |- wp (when _ _) _ _ _ => apply wp_when; intros ?
  | |- wp (lift _ _) _ _ _ => apply wp_lift
  | |- match ?r with Ok _ => _ | Err _ => _ end => destruct r eqn:?
  | |- any_exn _ _ => exact I
  end.

(** The same with branching on the tests of the program. *)
Ltac wps :=
  repeat (cbv beta; first
    [ wp1
    | match goal with |- wp (match ?x with _ => _ end) _ _ _ => destruct x eqn:? end ]).

(** [wps] that also steps over the writes, keeping the tables explicit. *)
Ltac wpr :=
  repeat (cbv beta; first
    [ match goal with
      | |- wp (update_task _ _) _ _ _ => apply wp_raw_task
      | |- wp (update_attempt _ _) _ _ _ => apply wp_raw_attempt
      | |- wp (update_workflow _ _) _ _ _ => apply wp_raw_workflow
      | |- wp (update_lease _ _) _ _ _ => apply wp_raw_lease
      | |- wp (update_approval _ _) _ _ _ => apply wp_raw_approval
      | |- wp (delete_lease _) _ _ _ => apply wp_modify
      | |- wp (insert_event _) _ _ _ => apply wp_guarded; intros ?
      end
    | wp1
    | match goal with |- wp (match ?x with _ => _ end) _ _ _ => destruct x eqn:? end ]).
