(* ===== verification/Evolution.v ===== *)
(** * How the tables may change

    [evolves d d'] is the abstract contract of every write of the engine: a row
    keeps its identity and its definition; each change of a task or workflow row
    raises its lock version; workflows move along [WORKFLOW_TRANSITIONS]; a
    terminal task keeps its status; a settled attempt is never written again;
    attempts, events and artifacts are never deleted.  [inv] is the dispatch
    invariant of the tables.  The files that follow show that every operation
    makes [step]s: it evolves the tables and keeps [inv].

    The lock versions are what makes the compare-and-set updates sound: a row
    that still has the lock version of an earlier read is the row that was read
    ([coherent]). *)

From S2P Require Import Prelude Json Spec Transitions Gates Store Hoare.
Open Scope Z_scope.

(** ** Rows *)

Definition workflow_evolves (w w' : WorkflowRow) : Prop :=
  w' = w ∨
  (wr_def w' = wr_def w ∧ wr_lockVersion w < wr_lockVersion w' ∧
   rtc (λ a b, canTransition k_workflow (WorkflowStatus_str a) (WorkflowStatus_str b) = true)
     (wr_status w) (wr_status w')).

Definition task_evolves (t t' : TaskRow) : Prop :=
  t' = t ∨
  (tr_def t' = tr_def t ∧ tr_lockVersion t < tr_lockVersion t' ∧
   (isTerminalTaskStatus (tr_status t) = true → tr_status t' = tr_status t)).

Definition attempt_evolves (a a' : AttemptRow) : Prop :=
  a' = a ∨
  (at_id a' = at_id a ∧ at_workflowId a' = at_workflowId a ∧ at_taskId a' = at_taskId a ∧
   at_attemptNo a' = at_attemptNo a ∧ at_idempotencyKey a' = at_idempotencyKey a ∧
   at_status a = as_running ∧ at_status a' ≠ as_pending).

(** Old rows related in place, then new rows with new ids. *)
Definition extends {R} (rel : R → R → Prop) (id : R → string) (l l' : list R) : Prop :=
  ∃ old new, l' = old ++ new ∧ Forall2 rel l old ∧ (∀ x, x ∈ new → id x ∉ map id l) ∧ NoDup (map id new).

Record evolves (d d' : DB) : Prop := {
  ev_workflow : Forall2 workflow_evolves (db_workflow d) (db_workflow d');
  ev_task : extends task_evolves tr_id (db_task d) (db_task d');
  ev_attempt : extends attempt_evolves at_id (db_attempt d) (db_attempt d');
  ev_event : ∃ new, db_event d' = db_event d ++ new;
  ev_artifact : ∃ new, db_artifact d' = db_artifact d ++ new;
  ev_dependency : ∃ new, db_dependency d' = db_dependency d ++ new
}.

(** ** The dispatch invariant *)

Definition live (a : AttemptRow) : Prop := at_status a = as_running.

(** A task the claim loop may dispatch. *)
Definition open_task (t : TaskRow) : Prop := tr_status t = ts_idle ∨ tr_status t = ts_scheduled.

Record inv (d : DB) : Prop := {
  inv_workflow_ids : NoDup (map wr_id (db_workflow d));
  inv_task_ids : NoDup (map tr_id (db_task d));
  inv_attempt_ids : NoDup (map at_id (db_attempt d));
  inv_attempt_task : ∀ a, a ∈ db_attempt d → at_taskId a ∈ map tr_id (db_task d);
  inv_open : ∀ t a, t ∈ db_task d → a ∈ db_attempt d → open_task t → live a → at_taskId a ≠ tr_id t;
  inv_one_live : ∀ a b, a ∈ db_attempt d → b ∈ db_attempt d → live a → live b →
                   at_taskId a = at_taskId b → at_id a = at_id b;
  inv_source : ∀ t fe, t ∈ db_task d → td_foreachConfig (tr_def t) = Some fe →
                 ∃ s, s ∈ db_task d ∧ tr_workflowId s = tr_workflowId t ∧ tr_key s = fe_source fe
}.

(** What one write does to tables satisfying the invariant. *)
Definition step (d d' : DB) : Prop := evolves d d' ∧ inv d'.

(** ** The order of histories *)

#[export] Instance workflow_evolves_refl : Reflexive workflow_evolves.
Proof. by left. Qed.
#[export] Instance task_evolves_refl : Reflexive task_evolves.
Proof. by left. Qed.
#[export] Instance attempt_evolves_refl : Reflexive attempt_evolves.
Proof. by left. Qed.

#[export] Instance workflow_evolves_trans : Transitive workflow_evolves.
Proof.
  intros x y z [->|(Hd & Hl & Hp)]; [done|]. intros [->|(Hd' & Hl' & Hp')]; right; [done|].
  split_and!; [congruence|lia|by etrans].
Qed.

#[export] Instance task_evolves_trans : Transitive task_evolves.
Proof.
  intros x y z [->|(Hd & Hl & Hp)]; [done|]. intros [->|(Hd' & Hl' & Hp')]; right; [done|].
  split_and!; [congruence|lia|]. intros Hx. specialize (Hp Hx). rewrite <- Hp in Hx. rewrite <- Hp. auto.
Qed.

#[export] Instance attempt_evolves_trans : Transitive attempt_evolves.
Proof.
  intros x y z [->|(H1 & H2 & H3 & H4 & H5 & H6 & H7)]; [done|].
  intros [->|(H1' & H2' & H3' & H4' & H5' & H6' & H7')]; right; split_and!; congruence.
Qed.

Lemma workflow_evolves_id w w' : workflow_evolves w w' → wr_id w' = wr_id w.
Proof. intros [->|(H & _)]; [done|]. unfold wr_id. congruence. Qed.
Lemma task_evolves_id t t' : task_evolves t t' → tr_id t' = tr_id t.
Proof. intros [->|(H & _)]; [done|]. unfold tr_id. congruence. Qed.
Lemma attempt_evolves_id a a' : attempt_evolves a a' → at_id a' = at_id a.
Proof. intros [->|(H & _)]; done. Qed.

Section extends.
Context {R : Type} (rel : R → R → Prop) (id : R → string).
Context `{!Reflexive rel, !Transitive rel} (rel_id : ∀ x y, rel x y → id y = id x).

Lemma Forall2_rel_ids l k : Forall2 rel l k → map id k = map id l.
Proof. induction 1; cbn; [done|]. f_equal; auto. Qed.

Lemma extends_refl l : extends rel id l l.
Proof.
  exists l, []. rewrite app_nil_r. split_and!; [done|by apply Forall_Forall2_diag, Forall_forall| |constructor].
  intros x Hx. by apply elem_of_nil in Hx.
Qed.

Lemma extends_trans l1 l2 l3 : extends rel id l1 l2 → extends rel id l2 l3 → extends rel id l1 l3.
Proof.
  intros (o & n & -> & Ho & Hn & Hd) (o' & n' & -> & Ho' & Hn' & Hd').
  apply Forall2_app_inv_l in Ho' as (o1 & o2 & H1 & H2 & ->).
  exists o1, (o2 ++ n'). split_and!; [by rewrite app_assoc|by etrans| |].
  - intros x [Hx|Hx]%elem_of_app.
    + assert (id x ∈ map id o2) as Hi by (apply list_elem_of_fmap_2; done).
      rewrite (Forall2_rel_ids _ _ H2) in Hi. apply list_elem_of_fmap in Hi as (y & -> & Hy). by apply Hn.
    + intros Hi. apply (Hn' x Hx). rewrite map_app, (Forall2_rel_ids _ _ Ho). apply elem_of_app. by left.
  - rewrite map_app. apply NoDup_app. split_and!; [by rewrite (Forall2_rel_ids _ _ H2)| |done].
    intros i Hi Hi'. apply list_elem_of_fmap in Hi' as (y & -> & Hy). apply (Hn' y Hy).
    rewrite map_app. apply elem_of_app. right. by rewrite <- (Forall2_rel_ids _ _ H2).
Qed.

Lemma extends_set_where p f l :
  (∀ r, r ∈ l → p r = true → rel r (f r)) → extends rel id l (set_where p f l).
Proof.
  intros H. exists (set_where p f l), []. rewrite app_nil_r. split_and!; [done| | |constructor].
  - unfold set_where. induction l as [|r l IH]; constructor.
    + destruct (p r) eqn:E; [apply H; [left|done]|reflexivity].
    + apply IH. intros x Hx. apply H. by right.
  - intros x Hx. by apply elem_of_nil in Hx.
Qed.

Lemma extends_snoc l x : id x ∉ map id l → extends rel id l (l ++ [x]).
Proof.
  intros Hx. exists l, [x]. split_and!; [done|by apply Forall_Forall2_diag, Forall_forall| |].
  - intros y ->%list_elem_of_singleton. done.
  - cbn. apply NoDup_singleton.
Qed.

Lemma extends_old l l' x' : extends rel id l l' → x' ∈ l' →
  (∃ x, x ∈ l ∧ rel x x') ∨ id x' ∉ map id l.
Proof.
  intros (o & n & -> & Ho & Hn & _) [Hx|Hx]%elem_of_app; [left|right; by apply Hn].
  apply list_elem_of_lookup in Hx as [i Hi]. destruct (Forall2_lookup_r _ _ _ _ _ Ho Hi) as (x & Hl & Hr).
  exists x. split; [by eapply list_elem_of_lookup_2|done].
Qed.

Lemma extends_new l l' x : extends rel id l l' → x ∈ l → ∃ x', x' ∈ l' ∧ rel x x'.
Proof.
  intros (o & n & -> & Ho & _) Hx. apply list_elem_of_lookup in Hx as [i Hi].
  destruct (Forall2_lookup_l _ _ _ _ _ Ho Hi) as (x' & Hl & Hr).
  exists x'. split; [|done]. apply elem_of_app. left. by eapply list_elem_of_lookup_2.
Qed.

Lemma extends_ids l l' : extends rel id l l' → NoDup (map id l) → NoDup (map id l').
Proof.
  intros (o & n & -> & Ho & Hn & Hd) Hl. rewrite map_app, (Forall2_rel_ids _ _ Ho).
  apply NoDup_app. split_and!; [done| |done].
  intros i Hi (y & -> & Hy)%list_elem_of_fmap. by apply (Hn y Hy).
Qed.

Lemma extends_id_in l l' i : extends rel id l l' → i ∈ map id l → i ∈ map id l'.
Proof.
  intros (o & n & -> & Ho & _) Hi. rewrite map_app, (Forall2_rel_ids _ _ Ho). apply elem_of_app. by left.
Qed.
End extends.

#[export] Instance evolves_refl : Reflexive evolves.
Proof.
  intros d. split.
  - induction (db_workflow d); by constructor.
  - apply extends_refl, _.
  - apply extends_refl, _.
  - exists []. by rewrite app_nil_r.
  - exists []. by rewrite app_nil_r.
  - exists []. by rewrite app_nil_r.
Qed.

Lemma suffix_trans {A} (l1 l2 l3 : list A) :
  (∃ n, l2 = l1 ++ n) → (∃ n, l3 = l2 ++ n) → ∃ n, l3 = l1 ++ n.
Proof. intros [n ->] [m ->]. exists (n ++ m). by rewrite app_assoc. Qed.

#[export] Instance evolves_trans : Transitive evolves.
Proof.
  intros a b c [] []. split; try (by eapply suffix_trans).
  - by etrans.
  - eapply extends_trans; eauto using task_evolves_id. apply _.
  - eapply extends_trans; eauto using attempt_evolves_id. apply _.
Qed.

Lemma step_refl d : inv d → step d d.
Proof. by split. Qed.

Lemma step_trans a b c : step a b → step b c → step a c.
Proof. intros [H _] [H' Hi]. split; [by etrans|done]. Qed.

(** ** Single writes *)

Lemma task_evolves_def t t' : task_evolves t t' → tr_def t' = tr_def t.
Proof. by intros [->|(H & _)]. Qed.

Lemma set_where_in {R} (p : R → bool) f l x :
  x ∈ set_where p f l ↔ ∃ y, y ∈ l ∧ x = if p y then f y else y.
Proof. unfold set_where. rewrite list_elem_of_fmap. naive_solver. Qed.

(** The tables the invariant speaks of. *)
Definition same_core (d d' : DB) : Prop :=
  db_workflow d' = db_workflow d ∧ db_task d' = db_task d ∧ db_attempt d' = db_attempt d.

Lemma inv_core d d' : same_core d d' → inv d → inv d'.
Proof. intros (Hw & Ht & Ha) []. split; rewrite ?Hw, ?Ht, ?Ha; assumption. Qed.

Lemma step_side d d' :
  same_core d d' → (∃ n, db_event d' = db_event d ++ n) → (∃ n, db_artifact d' = db_artifact d ++ n) →
  (∃ n, db_dependency d' = db_dependency d ++ n) → inv d → step d d'.
Proof.
  intros Hc ? ? ? Hi. split; [|by eapply inv_core]. destruct Hc as (Hw & Ht & Ha), (evolves_refl d).
  split; rewrite ?Hw, ?Ht, ?Ha; assumption.
Qed.

Lemma no_suffix {A} (l : list A) : ∃ n, l = l ++ n.
Proof. exists []. by rewrite app_nil_r. Qed.
#[local] Hint Resolve no_suffix : core.

Lemma step_task p f d :
  inv d →
  (∀ t, t ∈ db_task d → p t = true → task_evolves t (f t) ∧
     (open_task (f t) → ∀ a, a ∈ db_attempt d → live a → at_taskId a ≠ tr_id t)) →
  step d (with_task d (set_where p f (db_task d))).
Proof.
  intros Hi H.
  assert (Hx : extends task_evolves tr_id (db_task d) (set_where p f (db_task d))).
  { apply extends_set_where; [apply _|]. intros t Ht Hp. by apply H. }
  assert (Hrow : ∀ t, t ∈ set_where p f (db_task d) → ∃ u, u ∈ db_task d ∧ task_evolves u t ∧
     (open_task t → open_task u ∨ ∀ a, a ∈ db_attempt d → live a → at_taskId a ≠ tr_id u)).
  { intros t (u & Hu & ->)%set_where_in. exists u. destruct (p u) eqn:E; [|split_and!; [done|reflexivity|auto]].
    destruct (H u Hu E). split_and!; auto. }
  split; [destruct (evolves_refl d); by split|]. destruct Hi as [Hw Ht Ha Hat Ho H1 Hs]. split; cbn; auto.
  - by eapply extends_ids; eauto using task_evolves_id.
  - intros a Hin. eapply extends_id_in; eauto using task_evolves_id.
  - intros t a (u & Hu & He & Hop)%Hrow Hin Hopen Hl. rewrite (task_evolves_id _ _ He).
    destruct (Hop Hopen) as [Hou|Hno]; [by eapply Ho|by apply Hno].
  - intros t fe (u & Hu & He & _)%Hrow Hfe. apply task_evolves_def in He. rewrite He in Hfe.
    destruct (Hs u fe Hu Hfe) as (s & Hin & Hw' & Hk).
    destruct (extends_new _ _ _ _ _ Hx Hin) as (s' & Hs' & He').
    apply task_evolves_def in He'. exists s'. unfold tr_workflowId, tr_key in *. rewrite He, He'. auto.
Qed.

Lemma step_attempt p f d :
  inv d → (∀ a, a ∈ db_attempt d → p a = true → attempt_evolves a (f a)) →
  step d (with_attempt d (set_where p f (db_attempt d))).
Proof.
  intros Hi H.
  assert (Hx : extends attempt_evolves at_id (db_attempt d) (set_where p f (db_attempt d))).
  { apply extends_set_where; [apply _|done]. }
  assert (Hrow : ∀ a, a ∈ set_where p f (db_attempt d) → ∃ b, b ∈ db_attempt d ∧ at_id a = at_id b ∧
     at_taskId a = at_taskId b ∧ (live a → live b)).
  { intros a (b & Hb & ->)%set_where_in. exists b. destruct (p b) eqn:E; [|done].
    destruct (H b Hb E) as [->|(? & ? & ? & ? & ? & ? & ?)]; done. }
  split; [destruct (evolves_refl d); by split|]. destruct Hi as [Hw Ht Ha Hat Ho H1 Hs]. split; cbn; auto.
  - by eapply extends_ids; eauto using attempt_evolves_id.
  - intros a (b & Hb & _ & -> & _)%Hrow. auto.
  - intros t a Hin (b & Hb & _ & Ht' & Hl)%Hrow Hopen Hla. rewrite Ht'. eauto.
  - intros a a' (b & Hb & -> & Htb & Hl)%Hrow (b' & Hb' & -> & Htb' & Hl')%Hrow Hla Hla' E. apply H1; auto.
    congruence.
Qed.

Lemma step_workflow p f d :
  inv d → (∀ w, w ∈ db_workflow d → p w = true → workflow_evolves w (f w)) →
  step d (with_workflow d (set_where p f (db_workflow d))).
Proof.
  intros Hi H.
  assert (Hx : Forall2 workflow_evolves (db_workflow d) (set_where p f (db_workflow d))).
  { unfold set_where. induction (db_workflow d) as [|w l IH]; constructor.
    - destruct (p w) eqn:E; [apply H; [left|done]|reflexivity].
    - apply IH. intros w' Hw'. apply H. by right. }
  split; [destruct (evolves_refl d); by split|]. destruct Hi. split; cbn; auto.
  by rewrite (Forall2_rel_ids _ wr_id workflow_evolves_id _ _ Hx).
Qed.

(** A new task starts idle, without attempts and without a fan-out. *)
Lemma step_new_task t d :
  inv d → tr_id t ∉ map tr_id (db_task d) → td_foreachConfig (tr_def t) = None →
  step d (with_task d (db_task d ++ [t])).
Proof.
  intros Hi Hid Hfe.
  assert (Hx : extends task_evolves tr_id (db_task d) (db_task d ++ [t])) by (by apply extends_snoc; [apply _|]).
  split; [destruct (evolves_refl d); by split|]. destruct Hi as [Hw Ht Ha Hat Ho H1 Hs]. split; cbn; auto.
  - by eapply extends_ids; eauto using task_evolves_id.
  - intros a Hin. rewrite map_app. apply elem_of_app. auto.
  - intros u a [Hu| ->%list_elem_of_singleton]%elem_of_app Hin Hopen Hl; [eauto|].
    intros E. apply Hid. rewrite <- E. auto.
  - intros u fe [Hu| ->%list_elem_of_singleton]%elem_of_app Hf; [|congruence].
    destruct (Hs u fe Hu Hf) as (s & ? & ?). exists s. split; [apply elem_of_app; auto|done].
Qed.

(** The claim of a task: its first live attempt and its move to [running]. *)
Lemma step_dispatch a i v f d :
  inv d → at_id a ∉ map at_id (db_attempt d) → at_taskId a = i → i ∈ map tr_id (db_task d) →
  (∀ t, t ∈ db_task d → task_cas i v t = true → open_task t ∧ task_evolves t (f t) ∧ ¬ open_task (f t)) →
  (∃ t, t ∈ db_task d ∧ task_cas i v t = true) →
  step d (with_task (with_attempt d (db_attempt d ++ [a])) (set_where (task_cas i v) f (db_task d))).
Proof.
  intros Hi Hid Hti Hin H (t0 & Ht0 & Hc0).
  assert (Hfree : ∀ b, b ∈ db_attempt d → live b → at_taskId b ≠ i).
  { intros b Hb Hl. destruct (H t0 Ht0 Hc0) as [Hopen _]. unfold task_cas in Hc0. bprop.
    replace i with (tr_id t0) by done. by apply (inv_open d Hi t0 b). }
  pose proof (step_task (task_cas i v) f d Hi) as [Hev Hinv].
  { intros t Ht Hc. destruct (H t Ht Hc) as (_ & He & Hno). split; [done|by intros]. }
  assert (Hx : extends attempt_evolves at_id (db_attempt d) (db_attempt d ++ [a])) by (by apply extends_snoc; [apply _|]).
  split; [destruct Hev; by split|]. destruct Hinv as [Hw Ht Ha Hat Ho H1 Hs]. cbn in *. split; cbn; auto.
  - by eapply extends_ids; eauto using attempt_evolves_id.
  - intros b [Hb| ->%list_elem_of_singleton]%elem_of_app; [auto|]. rewrite Hti. clear -Hin H.
    apply list_elem_of_fmap in Hin as (t & -> & Ht). apply list_elem_of_fmap.
    exists (if task_cas (tr_id t) v t then f t else t). split; [|by apply set_where_in; eauto].
    destruct (task_cas (tr_id t) v t) eqn:E; [|done]. destruct (H t Ht E) as (_ & He & _).
    by rewrite (task_evolves_id _ _ He).
  - intros t b (u & Hu & ->)%set_where_in [Hb| ->%list_elem_of_singleton]%elem_of_app Hopen Hl.
    + apply (Ho (if task_cas i v u then f u else u)); try done. apply set_where_in. eauto.
    + destruct (task_cas i v u) eqn:E; [by destruct (H u Hu E) as (_ & _ & [])|]. intros E'.
      assert (u = t0) as ->; [|congruence]. apply (row_unique tr_id (db_task d)); try done; [apply Hi|].
      unfold task_cas in Hc0. bprop. congruence.
  - intros b c [Hb| ->%list_elem_of_singleton]%elem_of_app [Hc| ->%list_elem_of_singleton]%elem_of_app Hlb Hlc E; auto;
      [destruct (Hfree b)|destruct (Hfree c)]; congruence.
Qed.

Lemma set_where_none {R} (p : R → bool) f l : List.filter p l = [] → set_where p f l = l.
Proof.
  induction l as [|x l IH]; [done|]. cbn. destruct (p x); [done|]. intros H. f_equal. auto.
Qed.

Lemma with_task_same d : with_task d (db_task d) = d.
Proof. by destruct d. Qed.
Lemma with_attempt_same d : with_attempt d (db_attempt d) = d.
Proof. by destruct d. Qed.
Lemma with_workflow_same d : with_workflow d (db_workflow d) = d.
Proof. by destruct d. Qed.

Lemma length_map_0 {A B} (f : A → B) l : (length (map f l) =? 0)%nat = true → l = [].
Proof. by destruct l. Qed.

Lemma length_map_pos {A B} (f : A → B) p l : (length (map f (List.filter p l)) =? 0)%nat = false →
  ∃ x, x ∈ l ∧ p x = true.
Proof.
  destruct (List.filter p l) as [|x k] eqn:E; [done|]. intros _. exists x. apply filter_in. rewrite E. left.
Qed.

(** A compare-and-set on a status keeps the definition of the row. *)
Lemma task_set_evolves t s v u :
  isTerminalTaskStatus (tr_status t) = false → tr_lockVersion t < v → task_evolves t (task_set s v u t).
Proof. intros Ht Hl. right. split_and!; [done..|]. by rewrite Ht. Qed.

(** A reset of a task fails its live attempts in the same transaction. *)
Lemma step_reset i v f g d :
  inv d →
  (∀ t, t ∈ db_task d → task_cas i v t = true → task_evolves t (f t)) →
  (∀ a, a ∈ db_attempt d → at_taskId a = i → live a → attempt_evolves a (g a) ∧ ¬ live (g a)) →
  step d (with_attempt (with_task d (set_where (task_cas i v) f (db_task d)))
            (set_where (λ a, (at_taskId a ≟ i) && (at_status a ≟ as_running)) g (db_attempt d))).
Proof.
  intros Hi Hf Hg. set (p := λ a, _).
  pose proof (step_attempt p g d Hi) as H1. destruct H1 as [He1 Hi1].
  { intros a Ha Hp. unfold p in Hp. bprop. by apply Hg. }
  eapply step_trans; [by split|].
  change (step (with_attempt d (set_where p g (db_attempt d)))
    (with_task (with_attempt d (set_where p g (db_attempt d)))
       (set_where (task_cas i v) f (db_task (with_attempt d (set_where p g (db_attempt d))))))).
  apply step_task; [done|]. cbn. intros t Ht Hc. split; [by apply Hf|].
  intros _ a (b & Hb & ->)%set_where_in Hl E. unfold task_cas in Hc. bprop.
  destruct (p b) eqn:Ep.
  - unfold p in Ep. bprop. by destruct (Hg b Hb) as [_ []].
  - apply not_true_iff_false in Ep. apply Ep. unfold p. rewrite !bool_decide_true; [done| |congruence]. exact Hl.
Qed.

(** ** Snapshots *)

(** The row read earlier is not ahead of the table, and is the table's row as
    long as the lock versions agree. *)
Definition coherent (d : DB) (t : TaskRow) : Prop :=
  tr_id t ∈ map tr_id (db_task d) ∧
  ∀ r, r ∈ db_task d → tr_id r = tr_id t →
    tr_lockVersion t <= tr_lockVersion r ∧
    (tr_lockVersion r = tr_lockVersion t → tr_def r = tr_def t ∧ tr_status r = tr_status t).

Lemma coherent_loaded d t : inv d → t ∈ db_task d → coherent d t.
Proof.
  intros Hi Ht. split; [by apply list_elem_of_fmap_2|]. intros r Hr E.
  assert (r = t) as -> by (by apply (row_unique tr_id (db_task d)); [apply Hi|..]). done.
Qed.

Lemma coherent_evolves d d' t : evolves d d' → coherent d t → coherent d' t.
Proof.
  intros He [Hid H]. pose proof (ev_task _ _ He) as Hx. split; [eapply extends_id_in; eauto using task_evolves_id|].
  intros r' Hr' E. destruct (extends_old _ _ _ _ _ Hx Hr') as [(r & Hr & Hrr)|Hn]; [|by rewrite E in Hn].
  destruct (H r Hr) as [Hle Heq]; [by rewrite <- (task_evolves_id _ _ Hrr)|].
  destruct Hrr as [->|(_ & Hlt & _)]; [auto|]. split; [lia|]. lia.
Qed.

(** A compare-and-set on a coherent snapshot hits the row that was read. *)
Lemma coherent_cas d t r :
  coherent d t → r ∈ db_task d → task_cas (tr_id t) (tr_lockVersion t) r = true →
  tr_def r = tr_def t ∧ tr_status r = tr_status t ∧ tr_lockVersion r = tr_lockVersion t.
Proof. intros [_ H] Hr Hc. unfold task_cas in Hc. bprop. destruct (H r Hr) as [_ Heq]; [done|]. naive_solver. Qed.

(** ** The rules of the statements *)

Section statements.
Implicit Types (d : DB) (E : exn → DB → Prop).

Lemma wp_update_task p f Q E d :
  inv d →
  (∀ t, t ∈ db_task d → p t = true → task_evolves t (f t) ∧
     (open_task (f t) → ∀ a, a ∈ db_attempt d → live a → at_taskId a ≠ tr_id t)) →
  (∀ d', step d d' → db_task d' = set_where p f (db_task d) → db_attempt d' = db_attempt d →
     Q (map f (List.filter p (db_task d))) d') →
  wp (update_task p f) Q E d.
Proof. intros Hi H HQ. unfold update_task. wps. apply HQ; [by apply step_task|done..]. Qed.

Lemma wp_update_attempt p f Q E d :
  inv d → (∀ a, a ∈ db_attempt d → p a = true → attempt_evolves a (f a)) →
  (∀ d', step d d' → db_task d' = db_task d → db_attempt d' = set_where p f (db_attempt d) →
     Q (map f (List.filter p (db_attempt d))) d') →
  wp (update_attempt p f) Q E d.
Proof. intros Hi H HQ. unfold update_attempt. wps. apply HQ; [by apply step_attempt|done..]. Qed.

Lemma wp_update_workflow p f Q E d :
  inv d → (∀ w, w ∈ db_workflow d → p w = true → workflow_evolves w (f w)) →
  (∀ d', step d d' → db_workflow d' = set_where p f (db_workflow d) → db_task d' = db_task d →
     db_attempt d' = db_attempt d → Q (map f (List.filter p (db_workflow d))) d') →
  wp (update_workflow p f) Q E d.
Proof. intros Hi H HQ. unfold update_workflow. wps. apply HQ; [by apply step_workflow|done..]. Qed.

(** Statements on the other tables. *)
Definition side (d d' : DB) : Prop := step d d' ∧ same_core d d'.

Lemma side_refl d : inv d → side d d.
Proof. split; [by apply step_refl|done]. Qed.

Lemma side_trans a b c : side a b → side b c → side a c.
Proof. intros [H (H1 & H2 & H3)] [H' (H1' & H2' & H3')]. split; [by eapply step_trans|split_and!; congruence]. Qed.

Definition effect {A} (m : M A) (d : DB) : Prop :=
  ∀ Q E, (∀ a d', side d d' → Q a d') → (∀ e d', side d d' → E e d') → wp m Q E d.

Ltac side_effect := intros Hi Q E HQ HE; wps; first [apply HE|apply HQ]; (split; [|by split_and!]);
  (apply step_side; [by split_and!|cbn; eauto..|done]).

Lemma effect_update_lease p f d : inv d → effect (update_lease p f) d.
Proof. unfold update_lease. side_effect. Qed.
Lemma effect_delete_lease p d : inv d → effect (delete_lease p) d.
Proof. unfold delete_lease. side_effect. Qed.
Lemma effect_update_approval p f d : inv d → effect (update_approval p f) d.
Proof. unfold update_approval. side_effect. Qed.
Lemma effect_upsert_lease r d : inv d → effect (upsert_lease r) d.
Proof. unfold upsert_lease. side_effect. Qed.
Lemma effect_upsert_gate r z d : inv d → effect (upsert_gate r z) d.
Proof. unfold upsert_gate. side_effect. Qed.
Lemma effect_insert_event r d : inv d → effect (insert_event r) d.
Proof. unfold insert_event. side_effect. Qed.
Lemma effect_insert_artifact b r d : inv d → effect (insert_artifact b r) d.
Proof. unfold insert_artifact. side_effect. Qed.
Lemma effect_insert_dependency r d : inv d → effect (insert_dependency r) d.
Proof. unfold insert_dependency. side_effect. Qed.
Lemma effect_insert_approval r d : inv d → effect (insert_approval r) d.
Proof. unfold insert_approval. side_effect. Qed.
End statements.

Lemma side_inv d d' : side d d' → inv d'.
Proof. by intros [[_ H] _]. Qed.

Lemma side_evolves d d' : side d d' → evolves d d'.
Proof. by intros [[H _] _]. Qed.

Lemma effect_ret {A} (a : A) d : inv d → effect (mret a) d.
Proof. intros Hi Q E HQ HE. wps. by apply HQ, side_refl. Qed.
Lemma effect_throw {A} e d : inv d → effect (throw (A:=A) e) d.
Proof. intros Hi Q E HQ HE. wps. by apply HE, side_refl. Qed.
Lemma effect_gets {A} (f : DB → A) d : inv d → effect (gets f) d.
Proof. intros Hi Q E HQ HE. wps. by apply HQ, side_refl. Qed.
Lemma effect_draw {A} (f : nat → A) d : inv d → effect (draw f) d.
Proof. intros Hi Q E HQ HE. wps. by apply HQ, side_refl. Qed.

Lemma effect_bind {A B} (m : M A) (f : A → M B) d :
  effect m d → (∀ a d', side d d' → effect (f a) d') → effect (m ≫= f) d.
Proof.
  intros Hm Hf Q E HQ HE. apply wp_bind, Hm; [|done]. intros a d' Hs.
  apply (Hf a d' Hs); intros; [apply HQ|apply HE]; by eapply side_trans.
Qed.

Lemma effect_for_each {A} (l : list A) (f : A → M unit) d :
  inv d → (∀ x d', side d d' → effect (f x) d') → effect (for_each l f) d.
Proof.
  intros Hi Hf Q E HQ HE.
  eapply wp_conseq; [apply (wp_for_each _ (λ _ d', side d d')); [by apply side_refl|]|cbn; auto].
  intros x r d' Hs. apply (Hf x d' Hs); intros; [|apply HE]; by eapply side_trans.
Qed.

Lemma effect_when b m d : inv d → effect m d → effect (when b m) d.
Proof. destruct b; [auto|]. intros Hi _. by apply effect_ret. Qed.

Create HintDb engine.
#[export] Hint Resolve effect_ret effect_throw effect_gets effect_draw effect_update_lease effect_delete_lease
  effect_update_approval effect_upsert_lease effect_upsert_gate effect_insert_event effect_insert_artifact
  effect_insert_dependency effect_insert_approval side_inv side_evolves : engine.

(** Proves that a program writes side tables only. *)
Ltac eff :=
  repeat (cbv beta; first
    [ match goal with
      | |- effect (_ ≫= _) _ => apply effect_bind; [|intros ? ? ?]
      | |- effect (for_each _ _) _ => apply effect_for_each; [|intros ? ? ?]
      | |- effect (when _ _) _ => apply effect_when
      | |- effect (fresh_id _) _ => unfold fresh_id
      | |- effect randomUUID _ => unfold randomUUID
      | |- effect new_Date _ => unfold new_Date
      end
    | solve [eauto 3 with engine]
    | match goal with |- effect (match ?x with _ => _ end) _ => destruct x end ]).
