(* ===== verification/Ops.v ===== *)
(** * Operational parameters and the contracts of the host

    [engine/ops.ts], [engine/executors.ts], [engine/notifications.ts],
    [scope/execution-actor.ts] and [state/review-packet.ts]: the constants of
    the engine, the executor registry, who is notified of which transition, the
    identity a child run is started under, and the hash of what an approver
    reviews.  Executors, notifier, audit writer and the agent-run service are
    host code; the engine receives them as arguments. *)

From S2P Require Import Prelude Json Time Spec Transitions Gates Store.
Open Scope Z_scope.

(** ** [ENGINE_OPS] *)

Definition maxConcurrentActive : nat := 50.
Definition dispatchBatchCap : nat := 100.
Definition defaultMaxAttempts : Z := 3.
Definition retryBackoffBaseMs : Z := 60000.
Definition stuckRunningMs : Z := 30 * 60000.
Definition crashRecoveryMs : Z := 2 * 60000.
Definition dispatchLeaseTtlMs : Z := 2 * 60000.

Definition INSTANTANEOUS_EXECUTOR_TYPES : list string :=
  ["checkpoint"; "approval"; "wait"; "timer"; "notification"].

Definition retryBackoffMs (attemptNo : Z) : Z := retryBackoffBaseMs * 2 ^ Z.max 0 (attemptNo - 1).

(** ** Execution actor *)

Definition WORKFLOW_EXECUTION_SOURCE : string := "workflow-reconciler".

Record WorkflowExecutionActor := {
  ea_orgId : string; ea_projectId : option string; ea_runBy : option string; ea_source : string;
  ea_workflowId : string
}.

(** [a ?? b]. *)
Definition coalesce {A} (a b : option A) : option A := match a with Some _ => a | None => b end.

Definition buildExecutionActor (w : WorkflowDef) : WorkflowExecutionActor := {|
  ea_orgId := wd_orgId w;
  ea_projectId := wd_projectId w;
  ea_runBy := coalesce (wd_createdBy w) (wd_ownerId w);
  ea_source := WORKFLOW_EXECUTION_SOURCE;
  ea_workflowId := wd_id w |}.

Record ChildRunProvenance := {
  cv_orgId : string; cv_projectId : option string; cv_runBy : option string; cv_source : string;
  cv_workflowId : string; cv_workflowTaskId : string
}.

Definition buildChildRunProvenance (actor : WorkflowExecutionActor) (workflowTaskId : string)
    : ChildRunProvenance := {|
  cv_orgId := ea_orgId actor; cv_projectId := ea_projectId actor; cv_runBy := ea_runBy actor;
  cv_source := ea_source actor; cv_workflowId := ea_workflowId actor;
  cv_workflowTaskId := workflowTaskId |}.

(** ** Executors *)

Inductive OutcomeStatus := oc_succeeded | oc_failed | oc_running.
#[export] Instance OutcomeStatus_eq_dec : EqDecision OutcomeStatus.
Proof. solve_decision. Defined.

Record ExecutorOutcome := {
  eo_status : OutcomeStatus; eo_error : option json; eo_childRunId : option string;
  eo_note : option string
}.

Definition outcome (s : OutcomeStatus) (note : option string) : ExecutorOutcome :=
  {| eo_status := s; eo_error := None; eo_childRunId := None; eo_note := note |}.

Record ExecutorTask := {
  et_id : string; et_key : string; et_type : string; et_title : string; et_input : option json;
  et_agentRef : option json; et_assigneeLevel : option string; et_assigneeId : option string
}.

Record ExecutorInput := {
  ei_task : ExecutorTask; ei_provenance : ChildRunProvenance; ei_idempotencyKey : string;
  ei_attemptNo : Z
}.

(** An executor is host code: it may take time, during which other
    transactions commit, and it may throw. *)
Definition Executor : Type := ExecutorInput → M ExecutorOutcome.

Definition constant_executor (o : ExecutorOutcome) : Executor := λ _, mret o.

Definition buildExecutorRegistry (notification agent_task : option Executor) : list (string * Executor) :=
  [("checkpoint", constant_executor (outcome oc_succeeded None));
   ("approval", constant_executor (outcome oc_succeeded None));
   ("wait", constant_executor (outcome oc_succeeded None));
   ("timer", constant_executor (outcome oc_succeeded None));
   ("manual", constant_executor (outcome oc_running (Some "Awaiting manual completion")));
   ("notification", notification ??
      constant_executor (outcome oc_succeeded (Some "notification executor not wired (no-op)")));
   ("agent_task", agent_task ??
      constant_executor (outcome oc_running (Some "agent executor not wired (no-op)")))].

(** [registry[type]]. *)
Fixpoint executor_of (registry : list (string * Executor)) (type : string) : option Executor :=
  match registry with
  | [] => None
  | (k, e) :: r => if k ≟ type then Some e else executor_of r type
  end.

(** ** Notifications *)

Inductive WorkflowNotificationEvent :=
  | ne_task_blocked | ne_task_failed | ne_approval_needed | ne_approval_resolved
  | ne_workflow_completed | ne_workflow_failed | ne_workflow_cancelled | ne_workflow_paused
  | ne_workflow_resumed.

Inductive WorkflowNotificationRecipient := nr_owner | nr_assignee | nr_approver.

Definition NOTIFICATION_MATRIX (e : WorkflowNotificationEvent) : list WorkflowNotificationRecipient :=
  match e with
  | ne_task_blocked => [nr_owner]
  | ne_task_failed => [nr_owner; nr_assignee]
  | ne_approval_needed => [nr_approver]
  | ne_approval_resolved => [nr_owner]
  | ne_workflow_completed => [nr_owner]
  | ne_workflow_failed => [nr_owner]
  | ne_workflow_cancelled => [nr_owner]
  | ne_workflow_paused => [nr_owner]
  | ne_workflow_resumed => [nr_owner]
  end.

Record WorkflowNotification := {
  no_event : WorkflowNotificationEvent; no_workflowId : string; no_taskId : option string;
  no_recipients : list WorkflowNotificationRecipient; no_payload : option json
}.

Definition WorkflowNotifier : Type := WorkflowNotification → M unit.

Record WorkflowAuditEntry := {
  au_action : string; au_workflowId : string; au_actorId : option string; au_details : option json
}.

Definition WorkflowAuditWriter : Type := WorkflowAuditEntry → M unit.

Definition notificationFor (event : WorkflowNotificationEvent) (workflowId : string)
    (taskId : option string) (payload : option json) : WorkflowNotification := {|
  no_event := event; no_workflowId := workflowId; no_taskId := taskId;
  no_recipients := NOTIFICATION_MATRIX event; no_payload := payload |}.

(** ** The review packet of an approval *)

Section review_packet.
Context `{Runtime}.

(** What the hash reads of a task row, and of a dependency row. *)
Record ReviewPacketTask := { rp_id : string; rp_key : string; rp_title : string }.
Record PacketDep := { pk_taskId : string; pk_dependsOnTaskId : string; pk_outcome : DependencyOutcome }.

Definition packet_task (t : TaskRow) : ReviewPacketTask :=
  {| rp_id := tr_id t; rp_key := tr_key t; rp_title := td_title (tr_def t) |}.
Definition packet_dep (d : DependencyRow) : PacketDep :=
  {| pk_taskId := dp_taskId d; pk_dependsOnTaskId := dp_dependsOnTaskId d; pk_outcome := dp_outcome d |}.

Record PacketEdge := { pe_on : string; pe_outcome : DependencyOutcome; pe_upstreamTitle : option string }.

(** The stable sort by [a.on.localeCompare(b.on)]. *)
Fixpoint packet_insert (x : PacketEdge) (l : list PacketEdge) : list PacketEdge :=
  match l with
  | [] => [x]
  | y :: r => if rt_localeCompare (pe_on x) (pe_on y) <=? 0 then x :: y :: r else y :: packet_insert x r
  end.

Definition packet_sort (l : list PacketEdge) : list PacketEdge := foldr packet_insert [] l.

Definition packet_edge (taskById : gmap string ReviewPacketTask) (keyById : gmap string string) (d : PacketDep)
    : PacketEdge := {|
  pe_on := keyById !! pk_dependsOnTaskId d ?? pk_dependsOnTaskId d;
  pe_outcome := pk_outcome d;
  pe_upstreamTitle := rp_title <$> taskById !! pk_dependsOnTaskId d |}.

Definition packet_edge_json (e : PacketEdge) : json :=
  JObj [("on", JStr (pe_on e)); ("outcome", JStr (DependencyOutcome_str (pe_outcome e)));
        ("upstreamTitle", (JStr <$> pe_upstreamTitle e) ?? JNull)].

(** What is hashed: key, title, scope and the sorted upstream edges. *)
Definition review_packet (task : ReviewPacketTask) (requiredScope : json) (deps : list PacketDep)
    (taskById : gmap string ReviewPacketTask) (keyById : gmap string string) : json :=
  let edges := packet_sort
    (map (packet_edge taskById keyById) (List.filter (λ d, pk_taskId d ≟ rp_id task) deps)) in
  JObj [("key", JStr (rp_key task)); ("title", JStr (rp_title task));
        ("requiredScope", requiredScope); ("deps", JArr (map packet_edge_json edges))].

Definition computeReviewPacketHash (task : ReviewPacketTask) (requiredScope : json) (deps : list PacketDep)
    (taskById : gmap string ReviewPacketTask) (keyById : gmap string string) : string :=
  rt_sha256 (json_stringify (review_packet task requiredScope deps taskById keyById)).
End review_packet.
