(* ===== verification/ForeachReconciler.v ===== *)
(** * The fan-out reconciler ([engine/foreach-reconciler.ts])

    One pass over the fan-out parents of an active workflow: an idle parent
    follows its source task (materialize, fail, skip or wait), a running parent
    rolls its children up under its policy.  The child rows come from
    [Foreach.materializeForeachChildren]; everything here runs inside the
    transaction of [reconcileForeachParents]. *)

From S2P Require Import Prelude Json Time Spec Transitions Gates Foreach Store Ops.
Open Scope Z_scope.

Section foreach_reconciler.
Context `{Runtime}.

(** The log entry of this file: no actor, source [engine.foreach]. *)
Definition foreach_event (workflowId taskId taskKey kind : string) (payload : json) : M unit :=
  i ← fresh_id "wevent"; now ← new_Date;
  insert_event {| er_id := i; er_workflowId := workflowId; er_taskId := Some taskId;
    er_taskKey := Some taskKey; er_kind := kind; er_payload := Some payload; er_actorId := None;
    er_source := Some "engine.foreach"; er_idempotencyKey := None; er_createdAt := now |}.

Definition readLatestSucceededAttemptOutput (taskId : string) : M (option json) :=
  rows ← gets (λ d, List.filter (λ a, (at_taskId a ≟ taskId) && (at_status a ≟ as_succeeded)) (db_attempt d));
  mret (latest_attempt rows ≫= at_output).

(** ** Cancellation *)

Inductive cancel_scope := scope_pending | scope_all.

Definition cancellableStatuses (scope : cancel_scope) : list TaskStatus :=
  match scope with
  | scope_pending => [ts_idle; ts_scheduled; ts_pending_approval]
  | scope_all => [ts_idle; ts_scheduled; ts_pending_approval; ts_running]
  end.

Definition cancellable_child (workflowId parentTaskId : string) (scope : cancel_scope) (t : TaskRow) : bool :=
  (tr_workflowId t ≟ workflowId) && (td_parentTaskId (tr_def t) ≟ Some parentTaskId)
  && bool_decide (tr_status t ∈ cancellableStatuses scope).

(** The ids of the cancelled tasks and of the child runs to clean up. *)
Definition cancelForeachChildren (workflowId parentTaskId : string) (scope : cancel_scope) (reason : string)
    : M (list string * list string) :=
  now ← new_Date;
  cancelled ← update_task (cancellable_child workflowId parentTaskId scope)
    (λ t, task_set ts_cancelled (tr_lockVersion t + 1) now t);
  if (length cancelled =? 0)%nat then mret ([], [])
  else
    for_each cancelled (λ c, foreach_event workflowId (tr_id c) (tr_key c) "task_cancelled"
      (JObj [("reason", JStr reason); ("parentTaskId", JStr parentTaskId)]));;
    let ids := map tr_id cancelled in
    rows ← gets (λ d, List.filter
      (λ a, bool_decide (at_taskId a ∈ ids) && (at_status a ≟ as_running)) (db_attempt d));
    mret (ids, match scope with
               | scope_all => List.filter nonempty (omap at_childRunId rows)
               | scope_pending => []
               end).

(** ** Idle parents *)

(** The error object as it is stored in the event. *)
Definition foreach_error_code (e : ForeachStructuredError) : string :=
  match e with
  | foreach_invalid_source_output _ _ _ => "foreach_invalid_source_output"
  | foreach_invalid_item_key _ _ _ _ => "foreach_invalid_item_key"
  | foreach_duplicate_item_key _ _ _ _ => "foreach_duplicate_item_key"
  | foreach_max_fanout_exceeded _ _ _ _ _ => "foreach_max_fanout_exceeded"
  | foreach_unresolved_dependency _ _ _ => "foreach_unresolved_dependency"
  end.

Definition foreach_error_json (e : ForeachStructuredError) : json :=
  JObj (("code", JStr (foreach_error_code e)) ::
    match e with
    | foreach_invalid_source_output s p r =>
        [("sourceTaskKey", JStr s); ("foreachParentKey", JStr p); ("receivedShape", JStr r)]
    | foreach_invalid_item_key s p i v =>
        [("sourceTaskKey", JStr s); ("foreachParentKey", JStr p); ("itemIndex", jnat i); ("rawValue", v)]
    | foreach_duplicate_item_key s p d ij =>
        [("sourceTaskKey", JStr s); ("foreachParentKey", JStr p); ("duplicateStableId", JStr d);
         ("indices", JArr [jnat ij.1; jnat ij.2])]
    | foreach_max_fanout_exceeded s p a l h =>
        [("sourceTaskKey", JStr s); ("foreachParentKey", JStr p); ("actual", jint a); ("limit", jint l);
         ("hardCeiling", jint h)]
    | foreach_unresolved_dependency p c k =>
        [("foreachParentKey", JStr p); ("childStableId", JStr c)] ++ fld "attemptedDependencyKey" k
    end).

Definition persistForeachMaterializationFailure (workflowId : string) (parent : TaskRow) (errorCode : string)
    (payload : json) : M unit :=
  lift ex_foreach (assertForeachIdleFail (tr_key parent) errorCode);;
  foreach_event workflowId (tr_id parent) (tr_key parent) "foreach_materialization_failed" payload;;
  now ← new_Date;
  _ ← update_task (task_cas (tr_id parent) (tr_lockVersion parent))
    (λ t, task_meta (jset "foreach_materialization_error" (JStr errorCode) (tr_metadata t))
            (task_set ts_failed (tr_lockVersion t + 1) now t));
  mret ().

(** A value sent to a text column; the driver's text for any other type. *)
Definition col_text (v : option json) : option string :=
  (λ j, match j with JStr s => s | _ => rt_pg_text j end) <$> v.

Definition col_integer (v : option json) : M (option Z) :=
  match v with
  | None => mret None
  | Some j => match rt_pg_integer j with
              | Some z => mret (Some z)
              | None => throw (ex_constraint "max_attempts")
              end
  end.

(** The enumerations of a template, which the spec schema has validated. *)
Definition col_failurePolicy (v : option json) : option FailurePolicy :=
  match v with Some (JStr s) => Some (if s ≟ "skip" then fp_skip else fp_block) | _ => None end.

Definition col_outcome (v : json) : DependencyOutcome :=
  match v with
  | JStr s => if s ≟ "skipped" then do_skipped else if s ≟ "failed" then do_failed else do_success
  | _ => do_success
  end.

(** The row a plan is inserted as; the columns a plan leaves out are [NULL]. *)
Definition child_row (r : ChildTaskRowInsert) (maxAttempts : option Z) (now : Z) : TaskRow := {|
  tr_def := {| td_id := cr_id r; td_workflowId := cr_workflowId r; td_key := cr_key r; td_type := cr_type r;
    td_title := cr_title r; td_parentTaskId := Some (cr_parentTaskId r);
    td_assigneeLevel := col_text (cr_assigneeLevel r); td_assigneeId := col_text (cr_assigneeId r);
    td_agentPackage := col_text (cr_agentPackage r); td_agentRef := cr_agentRef r; td_input := cr_input r;
    td_schedule := cr_schedule r; td_anchor := None; td_plannedStartUtc := None; td_plannedEndUtc := None;
    td_required := cr_required r; td_failurePolicy := col_failurePolicy (cr_failurePolicy r);
    td_missedWindowPolicy := col_text (cr_missedWindowPolicy r); td_retryPolicy := cr_retryPolicy r;
    td_maxAttempts := maxAttempts; td_cancelPolicy := cr_cancelPolicy r; td_runId := None;
    td_pinned := cr_pinned r; td_risk := col_text (cr_risk r); td_foreachConfig := None;
    td_createdAt := now |};
  tr_status := ts_idle; tr_dueAtUtc := None; tr_actualStartUtc := None; tr_actualEndUtc := None;
  tr_metadata := []; tr_lockVersion := 0; tr_updatedAt := now |}.

Definition resolveTaskIdByKey (workflowId key : string) : M (option string) :=
  gets (λ d, tr_id <$> first_where (λ t, (tr_workflowId t ≟ workflowId) && (tr_key t ≟ key)) (db_task d)).

Definition persist_task (p : ChildPlan) : M unit :=
  maxAttempts ← col_integer (cr_maxAttempts (cp_taskRow p)); now ← new_Date;
  insert_task (child_row (cp_taskRow p) maxAttempts now).

Definition persist_dependency (batchKeyToId : gmap string string) (p : ChildPlan) (dep : ChildDependencyInsert)
    : M unit :=
  dependsOnId ← match batchKeyToId !! cdi_dependsOnTaskKey dep with
                | Some i => mret (Some i)
                | None => resolveTaskIdByKey (cr_workflowId (cp_taskRow p)) (cdi_dependsOnTaskKey dep)
                end;
  match dependsOnId with
  | None => mret ()
  | Some i => insert_dependency {| dp_id := cdi_id dep; dp_workflowId := cr_workflowId (cp_taskRow p);
                dp_taskId := cr_id (cp_taskRow p); dp_dependsOnTaskId := i;
                dp_outcome := col_outcome (cdi_outcome dep) |}
  end.

Definition persist_approval (p : ChildPlan) : M unit :=
  match cp_approval p with
  | None => mret ()
  | Some a =>
      now ← new_Date;
      insert_approval {| ap_id := cai_id a; ap_workflowId := cr_workflowId (cp_taskRow p);
        ap_taskId := cr_id (cp_taskRow p); ap_requiredScope := cai_requiredScope a;
        ap_resolvedApproverIds := None; ap_solicitationSchedule := None; ap_deadlineUtc := None;
        ap_reviewPacketHash := None; ap_status := aps_pending; ap_rejectionPolicy := None;
        ap_invalidatedAt := None; ap_notificationState := None; ap_decidedBy := None;
        ap_decidedAt := None; ap_reason := None; ap_createdAt := now; ap_updatedAt := now |}
  end.

Definition persistChildPlans (plans : list ChildPlan) : M unit :=
  let batchKeyToId := map_of (λ p, (cr_key (cp_taskRow p), cr_id (cp_taskRow p))) plans in
  for_each plans persist_task;;
  for_each plans (λ p, for_each (cp_dependencies p) (persist_dependency batchKeyToId p));;
  for_each plans persist_approval.

(** The three settlements of an idle parent and its start. *)
Definition parent_skip (workflowId : string) (parent source : TaskRow) (reason : string) : M unit :=
  now ← new_Date;
  _ ← update_task (task_cas (tr_id parent) (tr_lockVersion parent))
    (λ t, task_set ts_skipped (tr_lockVersion t + 1) now t);
  foreach_event workflowId (tr_id parent) (tr_key parent) "foreach_skipped"
    (JObj [("sourceTaskKey", JStr (tr_key source)); ("reason", JStr reason)]).

Definition parent_zero_children (workflowId : string) (parent source : TaskRow) : M unit :=
  lift ex_foreach (assertForeachIdleSucceeded (tr_key parent) 0);;
  start ← new_Date; end_ ← new_Date; now ← new_Date;
  _ ← update_task (task_cas (tr_id parent) (tr_lockVersion parent))
    (λ t, task_ended end_ (task_started start (task_set ts_succeeded (tr_lockVersion t + 1) now t)));
  foreach_event workflowId (tr_id parent) (tr_key parent) "foreach_zero_children"
    (JObj [("sourceTaskKey", JStr (tr_key source))]).

Definition parent_materialize (workflowId : string) (parent source : TaskRow) (plans : list ChildPlan) : M unit :=
  persistChildPlans plans;;
  start ← new_Date; now ← new_Date;
  _ ← update_task (task_cas (tr_id parent) (tr_lockVersion parent))
    (λ t, task_started start (task_set ts_running (tr_lockVersion t + 1) now t));
  foreach_event workflowId (tr_id parent) (tr_key parent) "foreach_materialized"
    (JObj [("sourceTaskKey", JStr (tr_key source)); ("childCount", jnat (length plans))]).

Definition handleIdleParent (workflowId : string) (parent source : TaskRow) (fe : ForeachSpec)
    (workflowTaskIdByKey : gmap string string) : M unit :=
  match tr_status source with
  | ts_succeeded =>
      sourceOutput ← readLatestSucceededAttemptOutput (tr_id source);
      match materializeForeachChildren rt_sha256
              {| mi_workflowId := workflowId;
                 mi_parent := {| ph_id := tr_id parent; ph_key := tr_key parent |};
                 mi_foreachConfig := fe; mi_sourceOutput := sourceOutput;
                 mi_workflowTaskIdByKey := workflowTaskIdByKey |} with
      | Err e =>
          persistForeachMaterializationFailure workflowId parent (foreach_error_code e) (foreach_error_json e)
      | Ok r =>
          if (length (mr_plans r) =? 0)%nat then parent_zero_children workflowId parent source
          else parent_materialize workflowId parent source (mr_plans r)
      end
  | ts_failed =>
      if td_failurePolicy (tr_def parent) ?? fp_block ≟ fp_skip then
        lift ex_foreach (assertForeachIdleSkip (tr_key parent) src_failed (Some fp_skip));;
        parent_skip workflowId parent source "source_failed_failurePolicy_skip"
      else mret ()
  | ts_skipped =>
      lift ex_foreach (assertForeachIdleSkip (tr_key parent) src_skipped (td_failurePolicy (tr_def parent)));;
      parent_skip workflowId parent source "source_skipped"
  | _ => mret ()
  end.

(** ** Running parents *)

Definition parent_final_status (policy : ForeachRollupPolicy) (anyFailed anySucceeded : bool) : TaskStatus :=
  match policy with
  | rup_any_fails => if anyFailed then ts_failed else ts_succeeded
  | rup_best_effort => if anySucceeded then ts_succeeded else ts_failed
  | rup_all_or_nothing => if anyFailed then ts_failed else ts_succeeded
  end.

(** The metadata with the two observation flags latched. *)
Definition latched_meta (meta : list (string * json)) (anyFailed anySucceeded : bool) : list (string * json) :=
  let m1 := if anyFailed && negb (jget "foreach_has_failure" meta ≟ Some (JBool true))
            then jset "foreach_has_failure" (JBool true) meta else meta in
  if anySucceeded && negb (jget "foreach_has_success" meta ≟ Some (JBool true))
  then jset "foreach_has_success" (JBool true) m1 else m1.

Definition parent_latch (parent : TaskRow) (anyFailed anySucceeded : bool) : M unit :=
  let meta := tr_metadata parent in
  let desiredMeta := latched_meta meta anyFailed anySucceeded in
  when (negb (length desiredMeta =? length meta)%nat ||
        negb (json_stringify (JObj desiredMeta) ≟ json_stringify (JObj meta)))
    (now ← new_Date;
     _ ← update_task (λ t, tr_id t ≟ tr_id parent)
       (λ t, task_meta desiredMeta (task_set (tr_status t) (tr_lockVersion t + 1) now t));
     mret ()).

Definition parent_cancel_children (workflowId : string) (parent : TaskRow) (policy : ForeachRollupPolicy)
    (anyFailed : bool) : M (list string) :=
  if anyFailed then
    match policy with
    | rup_any_fails =>
        r ← cancelForeachChildren workflowId (tr_id parent) scope_pending "any_fails_rollup"; mret r.2
    | rup_all_or_nothing =>
        r ← cancelForeachChildren workflowId (tr_id parent) scope_all "all_or_nothing_rollup"; mret r.2
    | rup_best_effort => mret []
    end
  else mret [].

Definition parent_settle (workflowId : string) (parent : TaskRow) (policy : ForeachRollupPolicy)
    (anyFailed anySucceeded : bool) (childCount : nat) : M unit :=
  let finalStatus := parent_final_status policy anyFailed anySucceeded in
  end_ ← new_Date; now ← new_Date;
  _ ← update_task (λ t, (tr_id t ≟ tr_id parent) && (tr_status t ≟ ts_running))
    (λ t, task_ended end_ (task_set finalStatus (tr_lockVersion t + 1) now t));
  foreach_event workflowId (tr_id parent) (tr_key parent) "foreach_settled"
    (JObj [("policy", JStr (ForeachRollupPolicy_str policy)); ("finalStatus", JStr (TaskStatus_str finalStatus));
           ("anyFailed", JBool anyFailed); ("anySucceeded", JBool anySucceeded);
           ("childCount", jnat childCount)]).

Definition children_of (parent : TaskRow) (allTasks : list TaskRow) : list TaskRow :=
  List.filter (λ t, td_parentTaskId (tr_def t) ≟ Some (tr_id parent)) allTasks.

Definition handleRunningParent (workflowId : string) (parent : TaskRow) (fe : ForeachSpec)
    (allTasks : list TaskRow) : M (list string) :=
  let policy := fe_rollupPolicy fe ?? rup_any_fails in
  let children := children_of parent allTasks in
  if (length children =? 0)%nat then mret []
  else
    let allTerminal := forallb (λ c, isTerminalTaskStatus (tr_status c)) children in
    let anyFailed := existsb (λ c, tr_status c ≟ ts_failed) children in
    let anySucceeded := existsb (λ c, tr_status c ≟ ts_succeeded) children in
    parent_latch parent anyFailed anySucceeded;;
    childRunIdsToCleanup ← parent_cancel_children workflowId parent policy anyFailed;
    when allTerminal (parent_settle workflowId parent policy anyFailed anySucceeded (length children));;
    mret childRunIdsToCleanup.

(** ** The pass *)

Definition reconcile_parent (workflowId : string) (allTasks : list TaskRow) (cleanup : list string)
    (parent : TaskRow) : M (list string) :=
  match td_foreachConfig (tr_def parent) with
  | None => mret cleanup
  | Some fe =>
      match map_of (λ t, (tr_key t, t)) allTasks !! fe_source fe with
      | None =>
          persistForeachMaterializationFailure workflowId parent "foreach_invalid_source_output"
            (JObj [("receivedShape", JStr ("unknown_source_key=" +:+ fe_source fe))]);;
          mret cleanup
      | Some source =>
          if tr_status parent ≟ ts_idle then
            handleIdleParent workflowId parent source fe (map_of (λ t, (tr_key t, tr_id t)) allTasks);;
            mret cleanup
          else if tr_status parent ≟ ts_running then
            c ← handleRunningParent workflowId parent fe allTasks;
            mret (cleanup ++ c)
          else mret cleanup
      end
  end.

Definition reconcileForeachParents (workflowId : string) : M (list string) :=
  transaction (
    wf ← gets (λ d, first_where (λ w, wr_id w ≟ workflowId) (db_workflow d));
    match wf with
    | None => mret []
    | Some w =>
        if negb (wr_status w ≟ ws_active) then mret []
        else
          allTasks ← gets (λ d, List.filter (λ t, tr_workflowId t ≟ workflowId) (db_task d));
          foldM (reconcile_parent workflowId allTasks) [] (List.filter is_foreach allTasks)
    end).
End foreach_reconciler.
