(* ===== verification/Reconciler.v ===== *)
(** * The durable reconciler ([engine/reconciler.ts])

    One tick of a workflow: settle the agent runs that ended, reconcile the
    fan-out parents, apply rejected approvals, re-open stale ones, then claim,
    dispatch and record until nothing is ready, finalize, solicit approvals and
    notify.  Every pass is one transaction under the per-workflow advisory
    lock, executors run between transactions. *)

From S2P Require Import Prelude Json Time Spec Transitions Gates Resolver Store Ops ForeachReconciler.
Open Scope Z_scope.

Record ProducedArtifact := { pa_kind : string; pa_ref : string; pa_authoringStepId : string }.

Record ChildRunStatus := {
  cs_status : string; cs_terminal : bool; cs_failed : bool; cs_hitl : bool; cs_error : option json;
  cs_artifacts : option (list (option string * string)); cs_output : option json;
  cs_producedArtifacts : option (list ProducedArtifact)
}.

Record ClaimedTask := {
  cl_task : TaskRow; cl_attemptId : string; cl_attemptNo : Z; cl_idempotencyKey : string;
  cl_leaseToken : string
}.

Record ReconcileDeps := {
  rd_executors : option (list (string * Executor));
  rd_now : option Z;
  rd_getChildRunStatus : option (string → M (option ChildRunStatus));
  rd_notify : option WorkflowNotifier;
  rd_cancelChildRun : option (string → M unit)
}.

Section reconciler.
Context `{Runtime} `{DateEnv}.

(** ** Leases *)

Definition acquireDispatchLease (wfId taskId attemptId : string) : M string :=
  token ← randomUUID;
  now ← new_Date;
  i ← fresh_id "wlease";
  upsert_lease {| le_id := i; le_workflowId := wfId; le_taskId := taskId; le_attemptId := attemptId;
    le_holderId := rt_process; le_token := token; le_acquiredAt := now; le_heartbeatAt := now;
    le_expiresAt := now + dispatchLeaseTtlMs |};;
  mret token.

Definition takeOverDispatchLease (taskId observedToken : string) : M (option string) :=
  token ← randomUUID;
  now ← new_Date;
  taken ← update_lease
    (λ l, (le_taskId l ≟ taskId) && (le_token l ≟ observedToken) && (le_expiresAt l <=? now))
    (λ l, {| le_id := le_id l; le_workflowId := le_workflowId l; le_taskId := le_taskId l;
             le_attemptId := le_attemptId l; le_holderId := rt_process; le_token := token;
             le_acquiredAt := now; le_heartbeatAt := now; le_expiresAt := now + dispatchLeaseTtlMs |});
  mret (if (0 <? length taken)%nat then Some token else None).

(** One firing of the heartbeat timer of an in-flight dispatch. *)
Definition dispatchLeaseHeartbeat (taskId leaseToken : string) : M unit :=
  now ← new_Date;
  _ ← update_lease (λ l, (le_taskId l ≟ taskId) && (le_token l ≟ leaseToken))
    (λ l, {| le_id := le_id l; le_workflowId := le_workflowId l; le_taskId := le_taskId l;
             le_attemptId := le_attemptId l; le_holderId := le_holderId l; le_token := le_token l;
             le_acquiredAt := le_acquiredAt l; le_heartbeatAt := now;
             le_expiresAt := now + dispatchLeaseTtlMs |});
  mret ().

(** ** The graph of a workflow *)

Record Graph := { g_tasks : list TaskRow; g_deps : list DependencyRow; g_approvals : list ApprovalRow }.

Definition loadGraph (wfId : string) : M Graph :=
  gets (λ d, {|
    g_tasks := List.filter (λ t, tr_workflowId t ≟ wfId) (db_task d);
    g_deps := List.filter (λ e, dp_workflowId e ≟ wfId) (db_dependency d);
    g_approvals := List.filter (λ a, ap_workflowId a ≟ wfId) (db_approval d) |}).

Definition select_workflow (wfId : string) : M (option WorkflowRow) :=
  gets (λ d, first_where (λ w, wr_id w ≟ wfId) (db_workflow d)).

Definition statusById (tasks : list TaskRow) : gmap string TaskStatus := map_of (λ t, (tr_id t, tr_status t)) tasks.
Definition keyById (tasks : list TaskRow) : gmap string string := map_of (λ t, (tr_id t, tr_key t)) tasks.
Definition taskById (tasks : list TaskRow) : gmap string TaskRow := map_of (λ t, (tr_id t, t)) tasks.
Definition approvalByTaskId (approvals : list ApprovalRow) : gmap string ApprovalStatus :=
  map_of (λ a, (ap_taskId a, ap_status a)) approvals.

Definition gate_context (task : TaskRow) (deps : list DependencyRow) (statuses : gmap string TaskStatus)
    (keys : gmap string string) (approvals : gmap string ApprovalStatus) (now : Z) : TaskGateContext := {|
  gc_dueAtUtc := tr_dueAtUtc task;
  gc_now := now;
  gc_dependencies := map (λ e, {| de_dependsOnTaskId := dp_dependsOnTaskId e;
                                  de_dependsOnKey := keys !! dp_dependsOnTaskId e;
                                  de_outcome := dp_outcome e |})
                       (List.filter (λ e, dp_taskId e ≟ tr_id task) deps);
  gc_depStatusById := statuses;
  gc_hasApproval := is_present (approvals !! tr_id task);
  gc_approvalStatus := approvals !! tr_id task |}.

Definition gateContextFor task deps statuses keys approvals now : list GateEntry :=
  evaluateTaskGates (gate_context task deps statuses keys approvals now).

Definition persistGates (wfId taskId : string) (gates : list GateEntry) : M unit :=
  for_each gates (λ g,
    i ← fresh_id "wgate"; at_ ← new_Date; set_at ← new_Date;
    upsert_gate {| gr_id := i; gr_workflowId := wfId; gr_taskId := taskId; gr_entry := g;
                   gr_evaluatedAt := at_ |} set_at).

Definition recordEvent (wfId : string) (taskId taskKey : option string) (kind : string) (payload : json)
    (provenance : WorkflowExecutionActor) (idempotencyKey : option string) : M unit :=
  i ← fresh_id "wevent"; now ← new_Date;
  insert_event {| er_id := i; er_workflowId := wfId; er_taskId := taskId; er_taskKey := taskKey;
    er_kind := kind; er_payload := Some payload; er_actorId := ea_runBy provenance;
    er_source := Some (ea_source provenance); er_idempotencyKey := idempotencyKey;
    er_createdAt := now |}.

Definition task_event (wfId : string) (t : TaskRow) (kind : string) (payload : json)
    (provenance : WorkflowExecutionActor) (idempotencyKey : option string) : M unit :=
  recordEvent wfId (Some (tr_id t)) (Some (tr_key t)) kind payload provenance idempotencyKey.

(** ** Claiming *)

Definition attempt_set (status : AttemptStatus) (childRunId : option string) (error output : option json)
    (completedAt : option Z) (updatedAt : Z) (a : AttemptRow) : AttemptRow := {|
  at_id := at_id a; at_workflowId := at_workflowId a; at_taskId := at_taskId a; at_attemptNo := at_attemptNo a;
  at_idempotencyKey := at_idempotencyKey a; at_status := status; at_childRunId := childRunId;
  at_error := error; at_output := output; at_startedAt := at_startedAt a; at_completedAt := completedAt;
  at_updatedAt := updatedAt |}.

(** Crash recovery of one task: the row as the rest of the pass sees it. *)
Definition recover_task (wfId : string) (recoverCutoff : Z) (prov : WorkflowExecutionActor) (task : TaskRow)
    : M TaskRow :=
  if negb (tr_status task ≟ ts_running)
     || negb (bool_decide (tr_type task ∈ INSTANTANEOUS_EXECUTOR_TYPES)) then mret task
  else if is_foreach task then mret task
  else if recoverCutoff <=? tr_updatedAt task then mret task
  else
    now ← new_Date;
    reset ← update_task (task_cas (tr_id task) (tr_lockVersion task))
      (task_set ts_scheduled (tr_lockVersion task + 1) now);
    if (length reset =? 0)%nat then mret task
    else
      completed ← new_Date; updated ← new_Date;
      _ ← update_attempt (λ a, (at_taskId a ≟ tr_id task) && (at_status a ≟ as_running))
        (λ a, attempt_set as_failed (at_childRunId a) (Some (JObj [("recovered", JStr "crash_mid_dispatch")]))
                (at_output a) (Some completed) updated a);
      delete_lease (λ l, le_taskId l ≟ tr_id task);;
      task_event wfId task "recovered" (JObj [("reason", JStr "crash_mid_dispatch")]) prov None;;
      mret (task_set ts_scheduled (tr_lockVersion task + 1) (tr_updatedAt task) task).

(** Lease-based recovery of one agent task: the same attempt is dispatched
    again once its lease has expired. *)
Definition reclaim_task (wfId : string) (prov : WorkflowExecutionActor) (claimed : list ClaimedTask)
    (task : TaskRow) : M (list ClaimedTask) :=
  if (dispatchBatchCap <=? length claimed)%nat then mret claimed
  else if negb (tr_status task ≟ ts_running) || negb (tr_type task ≟ "agent_task") || is_foreach task
  then mret claimed
  else
    running ← gets (λ d, List.filter (λ a, (at_taskId a ≟ tr_id task) && (at_status a ≟ as_running)) (db_attempt d));
    match latest_attempt running with
    | None => mret claimed
    | Some attempt =>
        if is_present (at_childRunId attempt) then mret claimed
        else
          lease ← gets (λ d, first_where (λ l, le_taskId l ≟ tr_id task) (db_lease d));
          match lease with
          | None => mret claimed
          | Some l =>
              wall ← new_Date;
              if wall <? le_expiresAt l then mret claimed
              else
                token ← takeOverDispatchLease (tr_id task) (le_token l);
                match token with
                | None => mret claimed
                | Some token =>
                    task_event wfId task "dispatch_reclaimed"
                      (JObj [("attemptNo", jint (at_attemptNo attempt));
                             ("idemKey", JStr (at_idempotencyKey attempt));
                             ("expiredHolder", JStr (le_holderId l))]) prov None;;
                    mret (claimed ++ [{| cl_task := task; cl_attemptId := at_id attempt;
                            cl_attemptNo := at_attemptNo attempt;
                            cl_idempotencyKey := at_idempotencyKey attempt; cl_leaseToken := token |}])
                end
          end
    end.

(** What the claim loop reads: the edges, the three maps, the clock. *)
Record ClaimCtx := {
  cx_wfId : string; cx_now : Z; cx_deps : list DependencyRow; cx_status : gmap string TaskStatus;
  cx_key : gmap string string; cx_approval : gmap string ApprovalStatus; cx_prov : WorkflowExecutionActor
}.

Definition idempotency_key (wfId taskId : string) (attemptNo : Z) : string :=
  wfId +:+ ":" +:+ taskId +:+ ":" +:+ show_Z attemptNo.

(** The guarded dispatch of one ready task: attempt, transition, lease, event. *)
Definition dispatch_task (cx : ClaimCtx) (claimed : list ClaimedTask) (task : TaskRow) : M (list ClaimedTask) :=
  prior ← gets (λ d, List.filter (λ a, at_taskId a ≟ tr_id task) (db_attempt d));
  let attemptNo := Z.of_nat (length prior) + 1 in
  let idemKey := idempotency_key (cx_wfId cx) (tr_id task) attemptNo in
  attemptId ← fresh_id "watt";
  started ← new_Date; created ← new_Date;
  inserted ← insert_attempt {| at_id := attemptId; at_workflowId := cx_wfId cx; at_taskId := tr_id task;
    at_attemptNo := attemptNo; at_idempotencyKey := idemKey; at_status := as_running;
    at_childRunId := None; at_error := None; at_output := None; at_startedAt := Some started;
    at_completedAt := None; at_updatedAt := created |};
  if (length inserted =? 0)%nat then mret claimed
  else
    start ← match tr_actualStartUtc task with Some s => mret s | None => new_Date end;
    now ← new_Date;
    moved ← update_task (task_cas (tr_id task) (tr_lockVersion task))
      (λ t, task_started start (task_set ts_running (tr_lockVersion task + 1) now t));
    if (length moved =? 0)%nat then
      delete_attempt (λ a, at_id a ≟ attemptId);; mret claimed
    else
      leaseToken ← acquireDispatchLease (cx_wfId cx) (tr_id task) attemptId;
      task_event (cx_wfId cx) task "dispatched"
        (JObj [("attemptNo", jint attemptNo); ("idemKey", JStr idemKey)]) (cx_prov cx) (Some idemKey);;
      mret (claimed ++ [{| cl_task := task_set ts_running (tr_lockVersion task + 1) (tr_updatedAt task) task;
              cl_attemptId := attemptId; cl_attemptNo := attemptNo; cl_idempotencyKey := idemKey;
              cl_leaseToken := leaseToken |}]).

Definition claim_task (cx : ClaimCtx) (claimed : list ClaimedTask) (task : TaskRow) : M (list ClaimedTask) :=
  if (dispatchBatchCap <=? length claimed)%nat then mret claimed
  else if negb (tr_status task ≟ ts_idle) && negb (tr_status task ≟ ts_scheduled) then mret claimed
  else if is_foreach task then mret claimed
  else
    let gates := gateContextFor task (cx_deps cx) (cx_status cx) (cx_key cx) (cx_approval cx) (cx_now cx) in
    persistGates (cx_wfId cx) (tr_id task) gates;;
    if negb (ev_state (deriveEffectiveGateState gates) ≟ eg_dispatchable) then mret claimed
    else dispatch_task cx claimed task.

Record ClaimResult := {
  cm_inactive : bool; cm_status : string; cm_claimed : list ClaimedTask;
  cm_provenance : option WorkflowExecutionActor
}.

Definition inactive (status : string) : ClaimResult :=
  {| cm_inactive := true; cm_status := status; cm_claimed := []; cm_provenance := None |}.

(** The three loops over the loaded graph. *)
Definition claim_pass (wfId : string) (now : Z) (g : Graph) (prov : WorkflowExecutionActor)
    : M (list ClaimedTask) :=
  let recoverCutoff := now - crashRecoveryMs in
  tasks ← mapM (recover_task wfId recoverCutoff prov) (g_tasks g);
  claimed ← foldM (reclaim_task wfId prov) [] tasks;
  let cx := {| cx_wfId := wfId; cx_now := now; cx_deps := g_deps g; cx_status := statusById tasks;
               cx_key := keyById (g_tasks g); cx_approval := approvalByTaskId (g_approvals g);
               cx_prov := prov |} in
  foldM (claim_task cx) claimed tasks.

Definition claimReadyTasks (wfId : string) (now : Z) : M ClaimResult :=
  transaction (
    wf ← select_workflow wfId;
    match wf with
    | None => mret (inactive "missing")
    | Some w =>
        if negb (wr_status w ≟ ws_active) then mret (inactive (WorkflowStatus_str (wr_status w)))
        else
          g ← loadGraph wfId;
          let prov := buildExecutionActor (wr_def w) in
          claimed ← claim_pass wfId now g prov;
          mret {| cm_inactive := false; cm_status := WorkflowStatus_str (wr_status w);
                  cm_claimed := claimed; cm_provenance := Some prov |}
    end).

(** ** Settling outcomes *)

(** The dead-lettered task, if the attempt budget is spent. *)
Definition applyTaskFailure (wfId : string) (current : TaskRow) (attemptNo : Z) (error : option json) (now : Z)
    (prov : WorkflowExecutionActor) : M (list string) :=
  let maxAttempts := td_maxAttempts (tr_def current) ?? defaultMaxAttempts in
  if attemptNo <? maxAttempts then
    let backoff := retryBackoffMs attemptNo in
    nextDueAt ← lift ex_range (toISOString (time_clip (now + backoff)));
    at_ ← new_Date;
    _ ← update_task (task_cas (tr_id current) (tr_lockVersion current))
      (λ t, task_due (now + backoff) (task_set ts_scheduled (tr_lockVersion current + 1) at_ t));
    task_event wfId current "retry_scheduled"
      (JObj [("attemptNo", jint attemptNo); ("backoffMs", jint backoff); ("nextDueAt", JStr nextDueAt)]) prov None;;
    mret []
  else
    end_ ← new_Date; at_ ← new_Date;
    _ ← update_task (task_cas (tr_id current) (tr_lockVersion current))
      (λ t, task_ended end_ (task_set ts_failed (tr_lockVersion current + 1) at_ t));
    task_event wfId current "dead_lettered"
      (JObj [("attemptNo", jint attemptNo); ("error", error ?? JNull)]) prov None;;
    mret [tr_id current].

Definition outcome_attempt_status (o : OutcomeStatus) : AttemptStatus :=
  match o with oc_running => as_running | oc_succeeded => as_succeeded | oc_failed => as_failed end.

(** [completedAt] and [updatedAt] of a settled attempt. *)
Definition settle_attempt (claimed : ClaimedTask) (o : ExecutorOutcome) : M (list AttemptRow) :=
  completedAt ← (if eo_status o ≟ oc_running then mret None else (t ← new_Date; mret (Some t)));
  updated ← new_Date;
  update_attempt (λ a, (at_id a ≟ cl_attemptId claimed) && (at_status a ≟ as_running))
    (λ a, attempt_set (outcome_attempt_status (eo_status o)) (eo_childRunId o) (eo_error o) (at_output a)
            completedAt updated a).

(** One outcome: dropped unless the claim still owns the task's lease, the
    task is still running and the attempt is still live. *)
Definition record_outcome (wfId : string) (now : Z) (prov : WorkflowExecutionActor) (deadLettered : list string)
    (r : ClaimedTask * ExecutorOutcome) : M (list string) :=
  let claimed := r.1 in
  let o := r.2 in
  let taskId := tr_id (cl_task claimed) in
  lease ← gets (λ d, first_where (λ l, le_taskId l ≟ taskId) (db_lease d));
  match lease with
  | None => mret deadLettered
  | Some l =>
      if negb (le_token l ≟ cl_leaseToken claimed) then mret deadLettered
      else
        delete_lease (λ l, (le_taskId l ≟ taskId) && (le_token l ≟ cl_leaseToken claimed));;
        current ← gets (λ d, first_where (λ t, tr_id t ≟ taskId) (db_task d));
        match current with
        | None => mret deadLettered
        | Some current =>
            if negb (tr_status current ≟ ts_running) then mret deadLettered
            else
              attemptUpdated ← settle_attempt claimed o;
              if (length attemptUpdated =? 0)%nat then mret deadLettered
              else
                match eo_status o with
                | oc_running =>
                    task_event wfId current "awaiting"
                      (JObj (fld "note" (JStr <$> eo_note o))) prov None;;
                    mret deadLettered
                | oc_succeeded =>
                    end_ ← new_Date; at_ ← new_Date;
                    _ ← update_task (task_cas taskId (tr_lockVersion current))
                      (λ t, task_ended end_ (task_set ts_succeeded (tr_lockVersion current + 1) at_ t));
                    task_event wfId current "succeeded"
                      (JObj [("attemptNo", jint (cl_attemptNo claimed))]) prov None;;
                    mret deadLettered
                | oc_failed =>
                    dead ← applyTaskFailure wfId current (cl_attemptNo claimed) (eo_error o) now prov;
                    mret (deadLettered ++ dead)
                end
        end
  end.

Definition recordOutcomes (wfId : string) (results : list (ClaimedTask * ExecutorOutcome)) (now : Z)
    (prov : WorkflowExecutionActor) : M (list string) :=
  transaction (foldM (record_outcome wfId now prov) [] results).

(** ** Polling agent runs *)

Record Polled := {
  po_task : TaskRow; po_attemptId : string; po_attemptNo : Z; po_childRunId : string;
  po_childStatus : ChildRunStatus
}.

(** Outside the lock: the live attempts whose child run has ended or waits
    for a human. *)
Definition poll_task (getChildRunStatus : string → M (option ChildRunStatus)) (polled : list Polled)
    (task : TaskRow) : M (list Polled) :=
  running ← gets (λ d, List.filter (λ a, (at_taskId a ≟ tr_id task) && (at_status a ≟ as_running)
                                          && is_present (at_childRunId a)) (db_attempt d));
  match latest_attempt running with
  | None => mret polled
  | Some attempt =>
      match at_childRunId attempt with
      | None => mret polled
      | Some childRunId =>
          if childRunId ≟ "" then mret polled
          else
            childStatus ← catch (getChildRunStatus childRunId) (λ _, mret None);
            match childStatus with
            | None => mret polled
            | Some cs =>
                if negb (cs_terminal cs) && negb (cs_hitl cs) then mret polled
                else mret (polled ++ [{| po_task := task; po_attemptId := at_id attempt;
                       po_attemptNo := at_attemptNo attempt; po_childRunId := childRunId;
                       po_childStatus := cs |}])
            end
      end
  end.

Definition poll_read (wfId : string) (getChildRunStatus : string → M (option ChildRunStatus)) : M (list Polled) :=
  raw ← gets (λ d, List.filter (λ t, (tr_workflowId t ≟ wfId) && (tr_status t ≟ ts_running)
                                      && (tr_type t ≟ "agent_task")) (db_task d));
  foldM (poll_task getChildRunStatus) [] (List.filter (λ t, negb (is_foreach t)) raw).

Definition insert_artifact_row (on_conflict : bool) (wfId taskId kind ref : string) (step : option string) : M unit :=
  i ← fresh_id "wart"; now ← new_Date;
  insert_artifact on_conflict {| ar_id := i; ar_workflowId := wfId; ar_taskId := taskId; ar_kind := kind;
                                 ar_ref := ref; ar_version := 1; ar_pinned := true; ar_authoringStepId := step;
                                 ar_createdAt := now |}.

Definition settle_success (wfId : string) (prov : WorkflowExecutionActor) (p : Polled) (current : TaskRow)
    : M unit :=
  let cs := po_childStatus p in
  let taskId := tr_id (po_task p) in
  end_ ← new_Date; at_ ← new_Date;
  moved ← update_task (task_cas taskId (tr_lockVersion current))
    (λ t, task_ended end_ (task_set ts_succeeded (tr_lockVersion current + 1) at_ t));
  if (length moved =? 0)%nat then mret ()
  else
    completed ← new_Date; updated ← new_Date;
    _ ← update_attempt (λ a, at_id a ≟ po_attemptId p)
      (λ a, attempt_set as_succeeded (at_childRunId a) (at_error a) (cs_output cs) (Some completed) updated a);
    let artifacts := (Some "agent_run", po_childRunId p) :: cs_artifacts cs ?? [] in
    for_each artifacts (λ art,
      insert_artifact_row false wfId taskId (art.1 ?? "agent_output") art.2 None);;
    let producedArtifacts := cs_producedArtifacts cs ?? [] in
    for_each producedArtifacts (λ pa,
      insert_artifact_row true wfId taskId (pa_kind pa) (pa_ref pa) (Some (pa_authoringStepId pa)));;
    recordEvent wfId (Some taskId) (Some (tr_key current)) "succeeded"
      (JObj [("attemptNo", jint (po_attemptNo p)); ("childRunId", JStr (po_childRunId p));
             ("artifacts", jint (Z.of_nat (length artifacts)));
             ("producedArtifacts", jint (Z.of_nat (length producedArtifacts)))]) prov None.

Definition settle_failure (wfId : string) (now : Z) (prov : WorkflowExecutionActor) (p : Polled)
    (current : TaskRow) : M (list string) :=
  let cs := po_childStatus p in
  completed ← new_Date; updated ← new_Date;
  _ ← update_attempt (λ a, at_id a ≟ po_attemptId p)
    (λ a, attempt_set as_failed (at_childRunId a) (cs_error cs) (at_output a) (Some completed) updated a);
  applyTaskFailure wfId current (po_attemptNo p)
    (coalesce (cs_error cs)
       (Some (JObj [("childRunId", JStr (po_childRunId p)); ("status", JStr (cs_status cs))]))) now prov.

(** The run waits for a human: one event per attempt. *)
Definition bubble_hitl (wfId : string) (prov : WorkflowExecutionActor) (p : Polled) (current : TaskRow)
    (curAttempt : AttemptRow) : M unit :=
  let hitlIdem := at_idempotencyKey curAttempt +:+ ":hitl" in
  existing ← gets (λ d, existsb (λ e, er_idempotencyKey e ≟ Some hitlIdem) (db_event d));
  when (negb existing)
    (recordEvent wfId (Some (tr_id (po_task p))) (Some (tr_key current)) "agent_hitl"
       (JObj [("childRunId", JStr (po_childRunId p)); ("status", JStr (cs_status (po_childStatus p)))])
       prov (Some hitlIdem)).

Definition poll_settle_one (wfId : string) (now : Z) (prov : WorkflowExecutionActor)
    (deadLettered : list string) (p : Polled) : M (list string) :=
  let cs := po_childStatus p in
  current ← gets (λ d, first_where (λ t, tr_id t ≟ tr_id (po_task p)) (db_task d));
  match current with
  | None => mret deadLettered
  | Some current =>
      if negb (tr_status current ≟ ts_running) then mret deadLettered
      else
        cur ← gets (λ d, first_where (λ a, at_id a ≟ po_attemptId p) (db_attempt d));
        match cur with
        | None => mret deadLettered
        | Some curAttempt =>
            if negb (at_status curAttempt ≟ as_running)
               || negb (at_childRunId curAttempt ≟ Some (po_childRunId p)) then mret deadLettered
            else if cs_hitl cs && negb (cs_terminal cs) then
              bubble_hitl wfId prov p current curAttempt;; mret deadLettered
            else if negb (cs_failed cs) then
              settle_success wfId prov p current;; mret deadLettered
            else
              dead ← settle_failure wfId now prov p current; mret (deadLettered ++ dead)
        end
  end.

Definition poll_settle (wfId : string) (now : Z) (polled : list Polled) : M (list string) :=
  transaction (
    wf ← select_workflow wfId;
    match wf with
    | None => mret []
    | Some w =>
        if negb (wr_status w ≟ ws_active) then mret []
        else foldM (poll_settle_one wfId now (buildExecutionActor (wr_def w))) [] polled
    end).

Definition pollRunningAgentTasks (wfId : string) (now : Z)
    (getChildRunStatus : string → M (option ChildRunStatus)) : M (list string) :=
  polled ← poll_read wfId getChildRunStatus;
  if (length polled =? 0)%nat then mret [] else poll_settle wfId now polled.

(** ** Approvals *)

(** [Boolean(ns.solicitedAt)]. *)
Definition solicited (a : ApprovalRow) : bool := truthy (ap_notificationState a ≫= jprop "solicitedAt").

Definition ns_fields (a : ApprovalRow) : list (string * json) :=
  match ap_notificationState a with Some (JObj kvs) => kvs | _ => [] end.

Definition approval_set (status : ApprovalStatus) (notificationState : option json) (hash : option string)
    (invalidatedAt : option Z) (updatedAt : Z) (a : ApprovalRow) : ApprovalRow := {|
  ap_id := ap_id a; ap_workflowId := ap_workflowId a; ap_taskId := ap_taskId a;
  ap_requiredScope := ap_requiredScope a; ap_resolvedApproverIds := ap_resolvedApproverIds a;
  ap_solicitationSchedule := ap_solicitationSchedule a; ap_deadlineUtc := ap_deadlineUtc a;
  ap_reviewPacketHash := hash; ap_status := status; ap_rejectionPolicy := ap_rejectionPolicy a;
  ap_invalidatedAt := invalidatedAt; ap_notificationState := notificationState;
  ap_decidedBy := ap_decidedBy a; ap_decidedAt := ap_decidedAt a; ap_reason := ap_reason a;
  ap_createdAt := ap_createdAt a; ap_updatedAt := updatedAt |}.

Definition approval_hash (g : Graph) (task : TaskRow) (a : ApprovalRow) : string :=
  computeReviewPacketHash (packet_task task) (ap_requiredScope a) (map packet_dep (g_deps g))
    (packet_task <$> taskById (g_tasks g)) (keyById (g_tasks g)).

(** An approval a human could act on, or has acted on without rejecting. *)
Definition was_opened (a : ApprovalRow) : bool :=
  (ap_status a ≟ aps_granted) || (ap_status a ≟ aps_needs_revision)
  || ((ap_status a ≟ aps_pending) && solicited a).

Definition invalidate_one (g : Graph) (now : Z) (a : ApprovalRow) : M unit :=
  match ap_reviewPacketHash a with
  | None => mret ()
  | Some h =>
      if h ≟ "" then mret ()
      else
        match taskById (g_tasks g) !! ap_taskId a with
        | None => mret ()
        | Some task =>
            if isTerminalTaskStatus (tr_status task) then mret ()
            else if negb (was_opened a) then mret ()
            else
              let currentHash := approval_hash g task a in
              if currentHash ≟ h then mret ()
              else
                at_ ← new_Date;
                _ ← update_approval
                  (λ x, (ap_id x ≟ ap_id a) && (ap_status x ≟ ap_status a)
                        && (ap_reviewPacketHash x ≟ Some h))
                  (approval_set aps_pending (Some (JObj [])) (Some currentHash) (Some now) at_);
                mret ()
        end
  end.

Definition invalidateStaleApprovals (wfId : string) (now : Z) : M unit :=
  transaction (
    wf ← select_workflow wfId;
    match wf with
    | None => mret ()
    | Some w =>
        if negb (wr_status w ≟ ws_active) then mret ()
        else g ← loadGraph wfId; for_each (g_approvals g) (invalidate_one g now)
    end).

(** The tear-down of a workflow whose cancellation has just been won. *)
Definition non_terminal_statuses : list TaskStatus := [ts_idle; ts_scheduled; ts_running; ts_pending_approval].

Definition running_child_runs (wfId : string) : M (list string) :=
  rows ← gets (λ d, List.filter (λ a, (at_workflowId a ≟ wfId) && (at_status a ≟ as_running)
                                       && is_present (at_childRunId a)) (db_attempt d));
  mret (List.filter nonempty (omap at_childRunId rows)).

Definition cancel_open_tasks (wfId : string) : M unit :=
  at_ ← new_Date;
  _ ← update_task (λ t, (tr_workflowId t ≟ wfId) && bool_decide (tr_status t ∈ non_terminal_statuses))
    (λ t, task_set ts_cancelled (tr_lockVersion t + 1) at_ t);
  mret ().

Definition skip_rejected (wfId : string) (prov : WorkflowExecutionActor) (tasks : gmap string TaskRow)
    (cancel : bool) (a : ApprovalRow) : M bool :=
  if negb (ap_status a ≟ aps_rejected) then mret cancel
  else
    match ap_rejectionPolicy a with
    | Some rp_cancel => mret true
    | Some rp_skip =>
        match tasks !! ap_taskId a with
        | Some task =>
            if isTerminalTaskStatus (tr_status task) then mret cancel
            else
              at_ ← new_Date;
              _ ← update_task (task_cas (tr_id task) (tr_lockVersion task))
                (task_set ts_skipped (tr_lockVersion task + 1) at_);
              task_event wfId task "skipped" (JObj [("reason", JStr "approval_rejected_skip")]) prov None;;
              mret cancel
        | None => mret cancel
        end
    | _ => mret cancel
    end.

Definition cancel_rejected (wfId : string) (w : WorkflowRow) (prov : WorkflowExecutionActor) : M (list string) :=
  at_ ← new_Date;
  moved ← update_workflow (workflow_cas wfId (wr_lockVersion w))
    (workflow_set ws_cancelled (wr_lockVersion w + 1) at_);
  if (length moved =? 0)%nat then mret []
  else
    childRunsToCancel ← running_child_runs wfId;
    cancel_open_tasks wfId;;
    delete_lease (λ l, le_workflowId l ≟ wfId);;
    recordEvent wfId None None "workflow_cancelled"
      (JObj [("reason", JStr "approval_rejected_cancel");
             ("cancelledChildRuns", jint (Z.of_nat (length childRunsToCancel)))]) prov None;;
    mret childRunsToCancel.

Definition applyRejectedApprovalPolicies (wfId : string) : M (list string) :=
  transaction (
    wf ← select_workflow wfId;
    match wf with
    | None => mret []
    | Some w =>
        if negb (wr_status w ≟ ws_active) then mret []
        else
          g ← loadGraph wfId;
          let prov := buildExecutionActor (wr_def w) in
          cancel ← foldM (skip_rejected wfId prov (taskById (g_tasks g))) false (g_approvals g);
          if (cancel : bool) then cancel_rejected wfId w prov else mret []
    end).

(** When an approval opens: its absolute instant, the task's due time shifted,
    or now. *)
Definition computeSolicitAt (schedule : option json) (taskDueAtUtc : option Z) (now : Z) (targetTz : string)
    : Instant :=
  match schedule with
  | None => Some now
  | Some sch =>
      let mode := jprop "mode" sch in
      match (if mode ≟ Some (JStr "absolute") then jprop "at" sch else None) with
      | Some (JStr at_) =>
          let tz := match jprop "tz" sch with
                    | Some (JStr z) => if z ≟ "" then targetTz else z
                    | _ => targetTz
                    end in
          coalesce (parseInstantMs at_ (if tz ≟ "" then "UTC" else tz)) (Some now)
      | _ =>
          match (if mode ≟ Some (JStr "relative") then taskDueAtUtc else None), jprop "offsetIso8601" sch with
          | Some due, Some (JStr offset) =>
              match parseIsoDuration offset with
              | Some dur => if jprop "direction" sch ≟ Some (JStr "after")
                            then dateAdd (Some due) dur else dateSub (Some due) dur
              | None => Some now
              end
          | _, _ => Some now
          end
      end
  end.

(** [now.getTime() < solicitAt.getTime()]: false for an invalid date. *)
Definition before_instant (now : Z) (t : Instant) : bool := match t with Some z => now <? z | None => false end.

Definition deps_satisfied (g : Graph) (task : TaskRow) : bool :=
  forallb (λ e, resolveDependency (statusById (g_tasks g) !! dp_dependsOnTaskId e ?? ts_idle) (dp_outcome e)
                ≟ dr_satisfied)
    (List.filter (λ e, dp_taskId e ≟ tr_id task) (g_deps g)).

Definition solicit_one (g : Graph) (now : Z) (targetTz : string) (done_ : list string) (a : ApprovalRow)
    : M (list string) :=
  if negb (ap_status a ≟ aps_pending) then mret done_
  else if solicited a then mret done_
  else
    match taskById (g_tasks g) !! ap_taskId a with
    | None => mret done_
    | Some task =>
        if negb (deps_satisfied g task) then mret done_
        else if before_instant now (computeSolicitAt (ap_solicitationSchedule a) (tr_dueAtUtc task) now targetTz)
        then mret done_
        else
          at_ ← new_Date;
          moved ← update_approval (λ x, (ap_id x ≟ ap_id a) && (ap_status x ≟ aps_pending))
            (λ x, approval_set (ap_status x)
                    (Some (JObj (jset "solicitedAt" (JStr (iso_text now)) (ns_fields a))))
                    (Some (approval_hash g task a)) None at_ x);
          mret (if (0 <? length moved)%nat then done_ ++ [ap_taskId a] else done_)
    end.

Definition solicitApprovals (wfId : string) (now : Z) : M (list string) :=
  transaction (
    wf ← select_workflow wfId;
    match wf with
    | None => mret []
    | Some w =>
        if negb (wr_status w ≟ ws_active) then mret []
        else
          g ← loadGraph wfId;
          foldM (solicit_one g now (wd_targetTz (wr_def w) ?? "UTC")) [] (g_approvals g)
    end).

(** ** Finalizing *)

(** The upstream task is terminal and the edge can never be satisfied. *)
Definition terminalUnmatched (upStatus : TaskStatus) (outcome : DependencyOutcome) : bool :=
  ((upStatus ≟ ts_failed) && negb (outcome ≟ do_failed))
  || ((upStatus ≟ ts_skipped) && (outcome ≟ do_success))
  || ((upStatus ≟ ts_succeeded) && (outcome ≟ do_failed))
  || (upStatus ≟ ts_cancelled).

Definition failure_policy (t : TaskRow) : FailurePolicy := td_failurePolicy (tr_def t) ?? fp_block.
Definition policyById (tasks : list TaskRow) : gmap string FailurePolicy :=
  map_of (λ t, (tr_id t, failure_policy t)) tasks.

(** The locals of the propagation loop. *)
Record FinState := {
  fs_status : gmap string TaskStatus; fs_blockingFailure : bool; fs_changed : bool
}.

Definition edges_of (deps : list DependencyRow) (task : TaskRow) : list DependencyRow :=
  List.filter (λ e, dp_taskId e ≟ tr_id task) deps.

Definition up_status (status : gmap string TaskStatus) (e : DependencyRow) : TaskStatus :=
  status !! dp_dependsOnTaskId e ?? ts_idle.

Definition edge_unmatched (status : gmap string TaskStatus) (e : DependencyRow) : bool :=
  terminalUnmatched (up_status status e) (dp_outcome e).

Definition edge_blocks_workflow (policies : gmap string FailurePolicy) (status : gmap string TaskStatus)
    (e : DependencyRow) : bool :=
  edge_unmatched status e && (up_status status e ≟ ts_failed)
  && (policies !! dp_dependsOnTaskId e ?? fp_block ≟ fp_block).

(** One iteration of the inner loop; the returned row has the lock version
    the loop keeps for it. *)
Definition finalize_task (wfId : string) (prov : WorkflowExecutionActor) (deps : list DependencyRow)
    (policies : gmap string FailurePolicy) (st : FinState * list TaskRow) (task : TaskRow)
    : M (FinState * list TaskRow) :=
  let s := st.1 in
  let keep := (s, st.2 ++ [task]) in
  let status := fs_status s !! tr_id task ?? ts_idle in
  if isTerminalTaskStatus status || (status ≟ ts_running) then mret keep
  else
    let edges := edges_of deps task in
    let permanentlyBlocked := existsb (edge_unmatched (fs_status s)) edges in
    let blockingFailure :=
      fs_blockingFailure s || existsb (edge_blocks_workflow policies (fs_status s)) edges in
    if permanentlyBlocked && negb blockingFailure then
      at_ ← new_Date;
      _ ← update_task (task_cas (tr_id task) (tr_lockVersion task))
        (task_set ts_skipped (tr_lockVersion task + 1) at_);
      task_event wfId task "skipped" (JObj [("reason", JStr "upstream terminal-unmatched")]) prov None;;
      mret ({| fs_status := <[tr_id task := ts_skipped]> (fs_status s);
               fs_blockingFailure := blockingFailure; fs_changed := true |},
            st.2 ++ [task_set (tr_status task) (tr_lockVersion task + 1) (tr_updatedAt task) task])
    else mret ({| fs_status := fs_status s; fs_blockingFailure := blockingFailure;
                  fs_changed := fs_changed s |}, st.2 ++ [task]).

(** [while (changed)]: every pass but the last skips a task, so one pass more
    than there are tasks is enough. *)
Fixpoint propagate (fuel : nat) (wfId : string) (prov : WorkflowExecutionActor) (deps : list DependencyRow)
    (policies : gmap string FailurePolicy) (s : FinState) (tasks : list TaskRow) : M FinState :=
  match fuel with
  | O => mret s
  | S fuel =>
      r ← foldM (finalize_task wfId prov deps policies)
            ({| fs_status := fs_status s; fs_blockingFailure := fs_blockingFailure s; fs_changed := false |}, [])
            tasks;
      if fs_changed r.1 then propagate fuel wfId prov deps policies r.1 r.2 else mret r.1
  end.

Definition rollup_input (status : gmap string TaskStatus) (t : TaskRow) : TaskRollupInput := {|
  ri_status := status !! tr_id t ?? ts_idle; ri_required := Some (td_required (tr_def t));
  ri_failurePolicy := Some (failure_policy t) |}.

Definition next_status (s : FinState) (tasks : list TaskRow) : WorkflowStatus :=
  if fs_blockingFailure s then ws_failed else rollUpWorkflowStatus (map (rollup_input (fs_status s)) tasks).

Record FinalizeResult := { fr_status : string; fr_transitioned : bool }.

Definition finalize_active (wfId : string) (w : WorkflowRow) : M FinalizeResult :=
  g ← loadGraph wfId;
  let tasks := g_tasks g in
  let prov := buildExecutionActor (wr_def w) in
  s ← propagate (S (length tasks)) wfId prov (g_deps g) (policyById tasks)
        {| fs_status := statusById tasks; fs_blockingFailure := false; fs_changed := true |} tasks;
  let next := next_status s tasks in
  if negb (next ≟ ws_active) then
    at_ ← new_Date;
    moved ← update_workflow (workflow_cas wfId (wr_lockVersion w)) (workflow_set next (wr_lockVersion w + 1) at_);
    if (0 <? length moved)%nat then
      delete_lease (λ l, le_workflowId l ≟ wfId);;
      recordEvent wfId None None ("workflow_" +:+ WorkflowStatus_str next) (JObj []) prov None;;
      mret {| fr_status := WorkflowStatus_str next; fr_transitioned := true |}
    else mret {| fr_status := WorkflowStatus_str next; fr_transitioned := false |}
  else mret {| fr_status := WorkflowStatus_str next; fr_transitioned := false |}.

Definition finalizeWorkflow (wfId : string) : M FinalizeResult :=
  transaction (
    wf ← select_workflow wfId;
    match wf with
    | None => mret {| fr_status := "missing"; fr_transitioned := false |}
    | Some w =>
        if negb (wr_status w ≟ ws_active)
        then mret {| fr_status := WorkflowStatus_str (wr_status w); fr_transitioned := false |}
        else finalize_active wfId w
    end).

(** ** The tick *)

(** [try { ... } catch (err) { console.error(...) }]. *)
Definition best_effort {A} (d : A) (m : M A) : M A := catch m (λ _, mret d).

Definition cleanup_runs (cancelChildRun : option (string → M unit)) (runs : list string) : M unit :=
  match cancelChildRun with
  | Some f => for_each runs (λ r, best_effort () (f r))
  | None => mret ()
  end.

Definition executor_task (t : TaskRow) : ExecutorTask := {|
  et_id := tr_id t; et_key := tr_key t; et_type := tr_type t; et_title := td_title (tr_def t);
  et_input := td_input (tr_def t); et_agentRef := td_agentRef (tr_def t);
  et_assigneeLevel := td_assigneeLevel (tr_def t); et_assigneeId := td_assigneeId (tr_def t) |}.

Definition exn_message (e : exn) : string :=
  match e with ex_host m => m | ex_constraint n => n | _ => "error" end.

Definition dispatch (executors : list (string * Executor)) (prov : WorkflowExecutionActor) (c : ClaimedTask)
    : M (ClaimedTask * ExecutorOutcome) :=
  let exec := executor_of executors (tr_type (cl_task c)) ??
    constant_executor (outcome oc_running (Some ("no executor for " +:+ tr_type (cl_task c)))) in
  o ← catch (exec {| ei_task := executor_task (cl_task c);
                     ei_provenance := buildChildRunProvenance prov (tr_id (cl_task c));
                     ei_idempotencyKey := cl_idempotencyKey c; ei_attemptNo := cl_attemptNo c |})
        (λ e, mret {| eo_status := oc_failed; eo_error := Some (JObj [("message", JStr (exn_message e))]);
                      eo_childRunId := None; eo_note := None |});
  mret (c, o).

(** The locals of [reconcileWorkflow]. *)
Record Tick := {
  tk_total : nat; tk_status : string; tk_deadLettered : list string; tk_terminalTransitioned : bool
}.

Fixpoint claim_loop (iters : nat) (wfId : string) (now : Z) (executors : list (string * Executor)) (t : Tick)
    : M Tick :=
  match iters with
  | O => mret t
  | S iters =>
      r ← claimReadyTasks wfId now;
      match cm_provenance r with
      | None =>
          mret {| tk_total := tk_total t; tk_status := cm_status r; tk_deadLettered := tk_deadLettered t;
                  tk_terminalTransitioned := tk_terminalTransitioned t |}
      | Some prov =>
          if (length (cm_claimed r) =? 0)%nat then
            fin ← finalizeWorkflow wfId;
            mret {| tk_total := tk_total t; tk_status := fr_status fin; tk_deadLettered := tk_deadLettered t;
                    tk_terminalTransitioned := fr_transitioned fin |}
          else
            results ← mapM (dispatch executors prov) (cm_claimed r);
            dead ← recordOutcomes wfId results now prov;
            claim_loop iters wfId now executors
              {| tk_total := tk_total t + length (cm_claimed r); tk_status := tk_status t;
                 tk_deadLettered := tk_deadLettered t ++ dead;
                 tk_terminalTransitioned := tk_terminalTransitioned t |}
      end
  end.

Definition emitReconcileNotifications (notify : option WorkflowNotifier) (wfId status : string)
    (deadLettered : list string) (terminalTransitioned : bool) (solicitedApprovals : list string) : M unit :=
  match notify with
  | None => mret ()
  | Some notify =>
      best_effort () (
        for_each solicitedApprovals (λ t, notify (notificationFor ne_approval_needed wfId (Some t) None));;
        for_each deadLettered (λ t, notify (notificationFor ne_task_failed wfId (Some t) None));;
        when terminalTransitioned
          (if status ≟ "completed" then notify (notificationFor ne_workflow_completed wfId None None)
           else if status ≟ "failed" then notify (notificationFor ne_workflow_failed wfId None None)
           else mret ()))
  end.

(** The result: how many tasks were dispatched, and the workflow's status. *)
Definition reconcileWorkflow (wfId : string) (deps : ReconcileDeps) : M (nat * string) :=
  now ← match rd_now deps with Some n => mret n | None => new_Date end;
  let executors := rd_executors deps ?? buildExecutorRegistry None None in
  polledDead ← match rd_getChildRunStatus deps with
               | Some f => best_effort [] (pollRunningAgentTasks wfId now f)
               | None => mret []
               end;
  best_effort () (runs ← reconcileForeachParents wfId; cleanup_runs (rd_cancelChildRun deps) runs);;
  best_effort () (runs ← applyRejectedApprovalPolicies wfId; cleanup_runs (rd_cancelChildRun deps) runs);;
  best_effort () (invalidateStaleApprovals wfId now);;
  tick ← claim_loop 200 wfId now executors
    {| tk_total := 0; tk_status := "active"; tk_deadLettered := polledDead; tk_terminalTransitioned := false |};
  solicitedApprovals ← best_effort [] (solicitApprovals wfId now);
  emitReconcileNotifications (rd_notify deps) wfId (tk_status tick) (tk_deadLettered tick)
    (tk_terminalTransitioned tick) solicitedApprovals;;
  mret (tk_total tick, tk_status tick).
End reconciler.
