(* ===== verification/Access.v ===== *)
(** * Who may see and change a workflow; the trigger lint

    [scope/resource-ref.ts]: read visibility and manage permission of a row for
    an actor, and [lint/trigger-bundling.ts]: an agent task is a run-now leaf, so
    a spec that nests a trigger in it is refused. *)

From S2P Require Import Prelude Json Time Spec Transitions Gates Store Validate.
Open Scope Z_scope.

(** ** Rows and actors *)

Record ScopedRow := {
  so_orgId : string; so_ownerLevel : option string; so_ownerId : option string; so_projectId : option string
}.

Definition workflow_scope (w : WorkflowRow) : ScopedRow := {|
  so_orgId := wd_orgId (wr_def w); so_ownerLevel := wd_ownerLevel (wr_def w);
  so_ownerId := wd_ownerId (wr_def w); so_projectId := wd_projectId (wr_def w) |}.

Record WorkflowActor := {
  wa_organizationId : option string; wa_userId : option string; wa_teamIds : option (list string);
  wa_projectIds : option (list string); wa_orgRole : option string; wa_platformRole : option string
}.

Record WorkflowResourceRef := {
  rf_level : option string; rf_ownerId : option string; rf_organizationId : option string;
  rf_projectId : option string
}.

Definition buildWorkflowResourceRef (row : ScopedRow) : WorkflowResourceRef := {|
  rf_level := so_ownerLevel row; rf_ownerId := so_ownerId row; rf_organizationId := Some (so_orgId row);
  rf_projectId := so_projectId row |}.

Definition platform_admin (actor : WorkflowActor) : bool := wa_platformRole actor ≟ Some "platform_admin".

(** [actor.organizationId && row.orgId === actor.organizationId]. *)
Definition same_org (row : ScopedRow) (actor : WorkflowActor) : bool :=
  match truthy_str (wa_organizationId actor) with Some o => so_orgId row ≟ o | None => false end.

(** [ids?.includes(id)]. *)
Definition includes (ids : option (list string)) (id : string) : bool :=
  match ids with Some l => bool_decide (id ∈ l) | None => false end.

Definition owned_by_team (row : ScopedRow) (actor : WorkflowActor) : bool :=
  match truthy_str (so_ownerId row) with Some i => includes (wa_teamIds actor) i | None => false end.

Definition owned_by_user (row : ScopedRow) (actor : WorkflowActor) : bool :=
  match truthy_str (so_ownerId row), truthy_str (wa_userId actor) with
  | Some i, Some u => i ≟ u
  | _, _ => false
  end.

Definition isReadable (row : ScopedRow) (actor : WorkflowActor) : bool :=
  if platform_admin actor then true
  else if negb (same_org row actor) then false
  else match truthy_str (so_projectId row) with
       | Some p => includes (wa_projectIds actor) p
       | None =>
           if (so_ownerLevel row ≟ Some "workspace") || (so_ownerLevel row ≟ Some "organization") then true
           else if so_ownerLevel row ≟ Some "team" then owned_by_team row actor
           else if so_ownerLevel row ≟ Some "user" then owned_by_user row actor
           else true
       end.

Definition filterReadable {T} (scope : T → ScopedRow) (rows : list T) (actor : WorkflowActor) : list T :=
  List.filter (λ r, isReadable (scope r) actor) rows.

Definition org_admin (actor : WorkflowActor) : bool :=
  (wa_orgRole actor ≟ Some "org_admin") || (wa_orgRole actor ≟ Some "org_owner").

Definition canManage (row : ScopedRow) (actor : WorkflowActor) : bool :=
  if platform_admin actor then true
  else if negb (same_org row actor) then false
  else if match truthy_str (so_projectId row) with
          | Some p => negb (includes (wa_projectIds actor) p)
          | None => false
          end then false
  else if so_ownerLevel row ≟ Some "user" then owned_by_user row actor
  else if so_ownerLevel row ≟ Some "team" then owned_by_team row actor
  else org_admin actor.

(** The host's archive gate runs exactly on project-scoped rows. *)
Definition assertWorkflowProjectWritable (assertProjectWritable : string → M unit) (row : ScopedRow) : M unit :=
  match truthy_str (so_projectId row) with Some p => assertProjectWritable p | None => mret () end.

(** ** The trigger lint *)

Definition endsWith (p s : string) : bool :=
  (String.length p <=? String.length s)%nat && (str_drop (String.length s - String.length p) s ≟ p).

Definition contains (p s : string) : bool := is_present (String.index 0 p s).

(** [/(^|\/)trigger(-agent)?$|@cinatra-ai\/trigger/i]. *)
Definition trigger_package (s : string) : bool :=
  let l := toLowerCase s in
  existsb (λ w, (l ≟ w) || endsWith ("/" +:+ w) l) ["trigger"; "trigger-agent"]
  || contains "@cinatra-ai/trigger" l.

Definition TRIGGER_INPUT_KEYS : list string :=
  ["triggerConfig"; "trigger_config"; "trigger"; "cron"; "schedule_trigger"].

Record TriggerLintFinding := { tl_code : string; tl_message : string; tl_path : string }.
Definition lint_finding (message path : string) : TriggerLintFinding :=
  {| tl_code := "TRIGGER_BUNDLING"; tl_message := message; tl_path := path |}.

Definition package_finding (i : nat) (key : string) : TriggerLintFinding :=
  lint_finding ("Task " +:+ quoted key +:+ " dispatches the trigger-agent. A workflow node is the timing truth; agent_task must be a run-now leaf.")
    ("tasks[" +:+ show_nat i +:+ "].agentRef.package").

Definition input_finding (i : nat) (key k : string) : TriggerLintFinding :=
  lint_finding ("Task " +:+ quoted key +:+ " passes trigger config " +:+ quoted k +:+ " to an agent. Triggers do not nest inside workflows.")
    ("tasks[" +:+ show_nat i +:+ "].input." +:+ k).

Definition lint_task (i : nat) (t : TaskSpec) : list TriggerLintFinding :=
  match t_body t with
  | AgentTask a input =>
      (if trigger_package (ar_package a) then [package_finding i (t_key t)] else []) ++
      concat (map (λ k, if is_present (input ≫= jprop k) then [input_finding i (t_key t) k] else [])
                TRIGGER_INPUT_KEYS)
  | _ => []
  end.

Definition lintWorkflowSpecForTriggerBundling (spec : WorkflowSpec) : list TriggerLintFinding :=
  concat (imap lint_task (w_tasks spec)).

Definition lintManifestForTriggerBundling (name : option string) (dependencies : list string)
    : list TriggerLintFinding :=
  map (λ d, lint_finding ("Package " +:+ quoted (name ?? "?") +:+ " bundles the trigger-agent dependency "
                          +:+ quoted d +:+ "; triggers must not nest inside workflow agents.")
              ("dependencies." +:+ d))
    (List.filter trigger_package dependencies).

Example trigger_package_examples :
  map trigger_package ["@cinatra-ai/trigger-agent"; "trigger"; "x/Trigger-Agent"; "my-trigger"; "x/trigger-agents"]
  = [true; true; true; false; false].
Proof. vm_compute. reflexivity. Qed.

(** ** Theorems *)

Lemma same_org_eq row actor : same_org row actor = true → wa_organizationId actor = Some (so_orgId row).
Proof.
  unfold same_org. destruct (truthy_str _) as [o|] eqn:E; [|done]. apply truthy_str_Some in E as [-> _].
  intros. bprop. congruence.
Qed.

Lemma owned_by_user_eq row actor : owned_by_user row actor = true → so_ownerId row = wa_userId actor.
Proof.
  unfold owned_by_user. destruct (truthy_str (so_ownerId row)) as [i|] eqn:E; [|done].
  destruct (truthy_str (wa_userId actor)) as [u|] eqn:E'; [|done].
  apply truthy_str_Some in E as [-> _]. apply truthy_str_Some in E' as [-> _]. intros. bprop. congruence.
Qed.

(** Apart from platform admins, a workflow row is readable only from its own
    organisation; a project-scoped row only with a grant on that project; a
    user-owned row outside projects only by its owner; and every row of the
    actor's own organisation outside projects that is owned by the organisation
    is readable.  Whoever may manage a row may also read it. *)
Theorem access_spec (row : ScopedRow) (actor : WorkflowActor) :
  (canManage row actor = true → isReadable row actor = true) ∧
  (wa_platformRole actor ≠ Some "platform_admin" → isReadable row actor = true →
    wa_organizationId actor = Some (so_orgId row) ∧
    (∀ p, so_projectId row = Some p → p ≠ "" → ∃ l, wa_projectIds actor = Some l ∧ p ∈ l) ∧
    (so_projectId row = None → so_ownerLevel row = Some "user" → so_ownerId row = wa_userId actor)) ∧
  (wa_organizationId actor = Some (so_orgId row) → so_orgId row ≠ "" → so_projectId row = None →
   so_ownerLevel row = Some "organization" →
    isReadable row actor = true ∧
    (canManage row actor = true ↔
     wa_platformRole actor = Some "platform_admin" ∨ wa_orgRole actor = Some "org_admin"
     ∨ wa_orgRole actor = Some "org_owner")).
Proof.
  unfold isReadable, canManage. split; [|split].
  - destruct (platform_admin actor); [done|]. destruct (same_org row actor); [cbn|done].
    destruct (truthy_str (so_projectId row)) as [p|]; [by destruct (includes _ p)|].
    repeat case_bool_decide; cbn; try done; congruence.
  - intros Hp. unfold platform_admin. rewrite bool_decide_false by done.
    destruct (same_org row actor) eqn:Eo; [cbn|done]. intros Hr. split; [by apply same_org_eq|]. split.
    + intros p Ep Hne. rewrite Ep in Hr. cbn in Hr. rewrite bool_decide_false in Hr by done.
      unfold includes in Hr. destruct (wa_projectIds actor) as [l|]; [|done]. exists l. by bprop.
    + intros Ep El. rewrite Ep, El in Hr. cbn in Hr. by apply owned_by_user_eq.
  - intros Ho Hne Ep El. unfold same_org. rewrite Ho, Ep, El. cbn. rewrite !bool_decide_false by done. cbn.
    rewrite bool_decide_true by done. unfold org_admin, platform_admin.
    split; [by case_bool_decide|]. repeat case_bool_decide; cbn; split; try done; intuition congruence.
Qed.

Lemma access_spec_witness :
  let row := {| so_orgId := "o1"; so_ownerLevel := Some "user"; so_ownerId := Some "u1"; so_projectId := None |} in
  let actor := {| wa_organizationId := Some "o1"; wa_userId := Some "u1"; wa_teamIds := None; wa_projectIds := None;
                  wa_orgRole := None; wa_platformRole := None |} in
  canManage row actor = true ∧ isReadable row actor = true.
Proof.
  split; [vm_compute; reflexivity|].
  apply (proj1 (access_spec _ _)). vm_compute. reflexivity.
Defined.
