(* ===== verification/Manifest.v ===== *)
(** * Packaged workflows ([manifest.ts], [bpmn/sidecar.ts])

    A marketplace package ships one workflow as [cinatra/workflow.bpmn].  The
    sidecar parser finds it, checks the package block, parses, validates and
    compiles the document and derives the manifest, whose definition must pass
    the template tier and the trigger lint.

    The package directory is a tree; what cannot be read is absent from it.
    [parseBpmnXml] is bpmn-moddle's parser with the warnings turned into a
    failure; [manifestParse] is Zod's parser for
    [workflowTemplateManifestSchema]. *)

From S2P Require Import Prelude Json Time Spec Limits Validate Transitions Gates Store Access Bpmn.

(** ** The manifest *)

Record WorkflowTemplateManifest := {
  mf_key : string; mf_version : Z; mf_name : string; mf_description : option string; mf_definition : WorkflowSpec
}.

(** [`${i.path.join(".") || "<root>"}: ${i.message}`]. *)
Definition manifest_issue (i : ZodIssue) : string :=
  (truthy_str (Some (join "." (zi_path i))) ?? "<root>") +:+ ": " +:+ zi_message i.

Section manifest.
Context `{DateEnv} (safeParse : json → result (list ZodIssue) WorkflowSpec).
Context (manifestParse : json → result (list ZodIssue) WorkflowTemplateManifest).

(** The manifest, or the errors. *)
Definition parseWorkflowTemplateManifest (raw : json) : result (list string) WorkflowTemplateManifest :=
  match manifestParse raw with
  | Err issues => Err (map manifest_issue issues)
  | Ok m =>
      let tpl := validateTemplate safeParse (WorkflowSpec_json (mf_definition m)) in
      if negb (vr_ok tpl) then
        Err (map (λ e, trim ((se_path e ?? "") +:+ " " +:+ se_message e)) (vr_errors tpl))
      else
        match lintWorkflowSpecForTriggerBundling (mf_definition m) with
        | [] => Ok m
        | lint => Err (map tl_message lint)
        end
  end.

(** ** The package directory *)

Inductive fs_node := FsFile (text : string) | FsDir (entries : list (string * fs_node)) | FsOther.

Definition SIDECAR_BASENAME : string := "workflow.bpmn".
Definition SKIP_DIRS : list string := ["node_modules"; ".git"; "dist"; ".next"; ".turbo"].

(** The paths, relative to the root, of the files named [workflow.bpmn] in a
    directory named [cinatra]. *)
Fixpoint walk_sidecars (path : list string) (dir : fs_node) : list (list string) :=
  match dir with
  | FsDir entries =>
      concat (map (λ e : string * fs_node, let (name, node) := e in
        match node with
        | FsDir _ => if bool_decide (name ∈ SKIP_DIRS) then [] else walk_sidecars (path ++ [name]) node
        | FsFile _ => if (name ≟ SIDECAR_BASENAME) && (last path ≟ Some "cinatra") then [path ++ [name]] else []
        | FsOther => []
        end) entries)
  | _ => []
  end.

Definition findAllSidecars (root : fs_node) : list (list string) := walk_sidecars [] root.

Fixpoint entry (name : string) (entries : list (string * fs_node)) : option fs_node :=
  match entries with
  | [] => None
  | (n, node) :: r => if name ≟ n then Some node else entry name r
  end.

(** [readFile(join(packageRoot, "cinatra", "workflow.bpmn"))]. *)
Definition canonical_text (root : fs_node) : option string :=
  match root with
  | FsDir l => match entry "cinatra" l with
               | Some (FsDir c) => match entry SIDECAR_BASENAME c with Some (FsFile text) => Some text | _ => None end
               | _ => None
               end
  | _ => None
  end.

(** ** The sidecar *)

Inductive BpmnSidecarCode :=
  | sc_inlineDefinitionForbidden | sc_workflowVersionMissing | sc_sidecarMissing | sc_sidecarDuplicate
  | sc_parseError | sc_unsupportedConstruct | sc_compile (c : BpmnErrorCode).

Record BpmnSidecarError := { be_code : BpmnSidecarCode; be_detail : string }.

Definition err (code : BpmnSidecarCode) (detail : string) : BpmnSidecarError :=
  {| be_code := code; be_detail := detail |}.

(** A character of the text. *)
Definition has_char (c : ascii) (s : string) : bool := negb (str_forallb (λ x, negb (x ≟ c)) s).

(** [typeof v === "number" && Number.isInteger(v) && v > 0] on a literal: digits
    alone, or an exponent form without a negative exponent; not zero, no sign. *)
Definition positive_integer (v : option json) : bool :=
  match v with
  | Some (JNum lit) =>
      (str_forallb is_digit lit || has_char "+" lit) && negb (has_char "-" lit) && negb (lit ≟ "0")
  | _ => false
  end.

(** [JSON.stringify(v)] in a message. *)
Definition stringify_opt (v : option json) : string := match v with Some j => json_stringify j | None => "undefined" end.

Definition package_errors (pkgCinatra : json) (root : fs_node) : list BpmnSidecarError :=
  (if is_present (jprop "workflow" pkgCinatra)
   then [err sc_inlineDefinitionForbidden "package.json#cinatra.workflow inline definition is forbidden; ship cinatra/workflow.bpmn instead"]
   else []) ++
  (if positive_integer (jprop "workflowVersion" pkgCinatra) then []
   else [err sc_workflowVersionMissing ("package.json#cinatra.workflowVersion must be a positive integer (got "
           +:+ stringify_opt (jprop "workflowVersion" pkgCinatra) +:+ ")")]) ++
  match canonical_text root with
  | None => [err sc_sidecarMissing "missing canonical sidecar at cinatra/workflow.bpmn"]
  | Some _ =>
      let all := findAllSidecars root in
      if (1 <? length all)%nat then
        [err sc_sidecarDuplicate ("expected exactly one cinatra/workflow.bpmn, found " +:+ show_nat (length all)
           +:+ ": " +:+ join ", " (map (join "/") all))]
      else []
  end.

Definition profile_errors (definitions : json) : list BpmnSidecarError :=
  let r := validateBpmnAgainstProfile definitions in
  map (λ e, err sc_unsupportedConstruct
         (uc_elementType e +:+
          match truthy_str (uc_elementId e) with Some i => " (" +:+ i +:+ ")" | None => "" end +:+
          ": " +:+ uc_reason e)) r.1 ++
  map (err (sc_compile bpmn_structure_invalid)) r.2.

(** The object of the manifest: [proc?.id ?? definition.key] and so on. *)
Definition derived_manifest (definitions : json) (version : json) (definition : WorkflowSpec) : json :=
  let proc := List.find (λ r, etype r ≟ "bpmn:Process") (asArray (jprop "rootElements" definitions)) in
  let documentation := head (asArray (sub "documentation" proc)) in
  JObj (fld "key" (first_of (sub "id" proc) (JStr <$> w_key definition)) ++ [("version", version)] ++
        fld "name" (first_of (sub "name" proc) (Some (JStr (w_name definition)))) ++
        fld "description" (JStr <$> str (sub "text" documentation)) ++
        [("definition", WorkflowSpec_json definition)]).

Context `{JsText} (parseBpmnXml : string → result string json).

Definition parseWorkflowBpmnSidecar (root : fs_node) (pkgCinatra : json)
    : result (list BpmnSidecarError) WorkflowTemplateManifest :=
  match package_errors pkgCinatra root, canonical_text root, jprop "workflowVersion" pkgCinatra with
  | [], Some xml, Some version =>
      match parseBpmnXml xml with
      | Err detail => Err [err sc_parseError detail]
      | Ok definitions =>
          match profile_errors definitions with
          | [] =>
              match compileBpmnToWorkflowSpec safeParse definitions with
              | Err e => Err [err (sc_compile (bc_code e)) (bc_reason e)]
              | Ok definition =>
                  match parseWorkflowTemplateManifest (derived_manifest definitions version definition) with
                  | Ok m => Ok m
                  | Err errors => Err (map (err (sc_compile bpmn_structure_invalid)) errors)
                  end
              end
          | errors => Err errors
          end
      end
  | errors, _, _ => Err errors
  end.
End manifest.

(** ** The package block *)

(** The character of a package scope or slug. *)
Definition slug_char (c : ascii) : bool := is_lower c || is_digit c || (c ≟ "-"%char).

(** [[a-z0-9][a-z0-9-]*]. *)
Definition slug_ok (s : string) : bool :=
  match s with
  | String c r => (is_lower c || is_digit c) && str_forallb slug_char r
  | EmptyString => false
  end.

Fixpoint split_slash (s : string) : option (string * string) :=
  match s with
  | EmptyString => None
  | String c r => if c ≟ "/"%char then Some ("", r)
                  else match split_slash r with Some (a, b) => Some (String c a, b) | None => None end
  end.

(** [WORKFLOW_PACKAGE_NAME_RE]: [@scope/slug-workflow]. *)
Definition package_name_ok (name : string) : bool :=
  match name with
  | String "@" r =>
      match split_slash r with
      | Some (scope, slug) =>
          slug_ok scope && endsWith "-workflow" slug &&
          slug_ok (str_take (String.length slug - String.length "-workflow") slug)
      | None => false
      end
  | _ => false
  end.

Definition allowed_keys : list string := ["kind"; "apiVersion"; "workflowVersion"; "dependencies"; "roles"].

(** The errors; the block is valid without any. *)
Definition validateWorkflowExtensionPackage (pkg : json) : list string :=
  let cinatra := match jprop "cinatra" pkg with Some JNull | None => JObj [] | Some v => v end in
  let name := jprop "name" pkg in
  (if match str_of name with Some n => package_name_ok n | None => false end then []
   else ["package name must match @<scope>/<slug>-workflow (got " +:+ stringify_opt name +:+ ")"]) ++
  (if bool_decide (jprop "kind" cinatra = Some (JStr "workflow")) then []
   else ["package.json must declare cinatra.kind: " +:+ quoted "workflow" +:+ " (got "
         +:+ stringify_opt (jprop "kind" cinatra) +:+ ")"]) ++
  (if is_present (jprop "workflow" cinatra)
   then ["inline cinatra.workflow is forbidden; ship a cinatra/workflow.bpmn sidecar (bpmn_inline_definition_forbidden)"]
   else []) ++
  (if positive_integer (jprop "workflowVersion" cinatra) then []
   else ["cinatra.workflowVersion must be a positive integer (got "
         +:+ stringify_opt (jprop "workflowVersion" cinatra) +:+ ") (manifest_workflow_version_missing)"]) ++
  concat (map (λ kv : string * json,
                 if bool_decide (kv.1 ∈ allowed_keys) then []
                 else ["unexpected cinatra key " +:+ quoted kv.1])
            (match cinatra with JObj kvs => kvs | _ => [] end)).

Example package_name_examples :
  map package_name_ok ["@acme/release-workflow"; "@acme/-workflow"; "acme/x-workflow"; "@a/b/c-workflow"]
  = [true; false; false; false].
Proof. vm_compute. reflexivity. Qed.

(** ** What a package must be *)

Lemma entry_in name l node : entry name l = Some node → (name, node) ∈ l.
Proof.
  induction l as [|[n x] l IH]; [done|]. cbn. destruct (name ≟ n) eqn:E.
  - bprop. intros [= ->]. subst. left.
  - intros H. right. auto.
Qed.

Lemma walk_in path name l node p : (name, node) ∈ l →
  p ∈ (match node with
       | FsDir _ => if bool_decide (name ∈ SKIP_DIRS) then [] else walk_sidecars (path ++ [name]) node
       | FsFile _ => if (name ≟ SIDECAR_BASENAME) && (last path ≟ Some "cinatra") then [path ++ [name]] else []
       | FsOther => []
       end) →
  p ∈ walk_sidecars path (FsDir l).
Proof.
  intros Hin Hp. cbn [walk_sidecars]. apply list_elem_of_In, in_concat. eexists. rewrite <-!list_elem_of_In.
  split; [|exact Hp]. apply list_elem_of_fmap. by exists (name, node).
Qed.

Definition canonical_path : list string := ["cinatra"; SIDECAR_BASENAME].

Lemma canonical_found root text : canonical_text root = Some text → canonical_path ∈ findAllSidecars root.
Proof.
  unfold canonical_text, findAllSidecars. destruct root as [|l|]; try done.
  destruct (entry "cinatra" l) as [[|c|]|] eqn:Ec; try done.
  destruct (entry SIDECAR_BASENAME c) as [[t| |]|] eqn:Ef; try done. intros _.
  apply entry_in in Ec, Ef. eapply walk_in; [exact Ec|]. cbn [app].
  rewrite bool_decide_false by (by apply (bool_decide_unpack _)).
  eapply walk_in; [exact Ef|]. vm_compute. left.
Qed.

Lemma singleton_of {A} (l : list A) x : x ∈ l → (length l <= 1)%nat → l = [x].
Proof. destruct l as [|y [|z l]]; cbn; [by intros ?%elem_of_nil| |lia]. by intros ->%list_elem_of_singleton. Qed.

Lemma package_errors_nil pkgCinatra root :
  package_errors pkgCinatra root = [] ↔
  jprop "workflow" pkgCinatra = None ∧ positive_integer (jprop "workflowVersion" pkgCinatra) = true ∧
  is_Some (canonical_text root) ∧ findAllSidecars root = [canonical_path].
Proof.
  unfold package_errors. rewrite !app_nil_iff.
  destruct (jprop "workflow" pkgCinatra); [by split; intros (? & ?)|].
  destruct (positive_integer _); [|by split; intros (? & ? & ?)].
  destruct (canonical_text root) as [text|] eqn:Ec; [|by split; intros (? & ? & ?); [|by destruct_and?]].
  pose proof (canonical_found _ _ Ec) as Hin. split.
  - intros (_ & _ & Hl). split_and!; [done..|]. apply singleton_of; [done|].
    destruct (1 <? length (findAllSidecars root))%nat eqn:E; [done|]. by apply Nat.ltb_ge in E.
  - intros (_ & _ & _ & ->). done.
Qed.

Section accepted_package.
Context `{DateEnv} `{JsText} (safeParse : json → result (list ZodIssue) WorkflowSpec).
Context (manifestParse : json → result (list ZodIssue) WorkflowTemplateManifest).
Context (parseBpmnXml : string → result string json).

Lemma parseWorkflowTemplateManifest_Ok raw m :
  parseWorkflowTemplateManifest safeParse manifestParse raw = Ok m ↔
  manifestParse raw = Ok m ∧ vr_ok (validateTemplate safeParse (WorkflowSpec_json (mf_definition m))) = true ∧
  lintWorkflowSpecForTriggerBundling (mf_definition m) = [].
Proof.
  unfold parseWorkflowTemplateManifest. split.
  - destruct (manifestParse raw) as [m'|]; [|done]. destruct (negb _) eqn:E; [done|]. bprop.
    destruct (lintWorkflowSpecForTriggerBundling _) eqn:El; [|done]. by intros [= ->].
  - intros (-> & -> & ->). done.
Qed.

Lemma profile_errors_nil definitions : profile_errors definitions = [] ↔ profile_ok definitions = true.
Proof.
  unfold profile_errors, profile_ok. destruct (validateBpmnAgainstProfile definitions) as [[|] [|]]; by cbn.
Qed.

End accepted_package.
