(* ===== verification/Drafts.v ===== *)
(** * The workflow store: drafts and paused edits ([store.ts])

    Creating a workflow from a spec, replacing the spec of a draft, applying an
    edited spec to a paused workflow, and reading a spec back from the tables.

    A draft is rebuilt: its rows are deleted and inserted again.  A paused
    workflow is edited in place, because attempts, artifacts and decided
    approvals refer to its tasks: a task with such evidence keeps its row and
    its execution identity, and a rejected edit throws, so that the transaction
    takes back the compare-and-set on the workflow row too.

    [others] is whatever other sessions commit between a read outside a
    transaction and the transaction that relies on it.  The advisory lock and
    the isolation of a transaction are the atomicity of [transaction]. *)

From S2P Require Import Prelude Json Time Spec Transitions Gates Store Ops Reconciler Validate Resolver.
Open Scope Z_scope.

(** ** [canonicalize] *)

Fixpoint assoc {A} (k : string) (l : list (string * A)) : option A :=
  match l with
  | [] => None
  | (k', v) :: r => if k ≟ k' then Some v else assoc k r
  end.

(** The text of an object whose field values are already text. *)
Definition canonical_object (fields : list (string * string)) : string :=
  "{" +:+ join "," (map (λ k, json_quote k +:+ ":" +:+ (assoc k fields ?? "")) (js_sort (map fst fields))) +:+ "}".

Fixpoint canonicalize (v : json) : string :=
  match v with
  | JArr l => "[" +:+ join "," (map canonicalize l) +:+ "]"
  | JObj kvs => canonical_object (map (λ kv : string * json, let (k, w) := kv in (k, canonicalize w)) kvs)
  | _ => json_stringify v
  end.

(** An absent value is written as [null]. *)
Definition canonicalize_opt (v : option json) : string := canonicalize (v ?? JNull).

(** ** Columns *)

(** [v ?? null] as a [jsonb] parameter. *)
Definition sql_json (v : option json) : option json :=
  match v with Some JNull => None | _ => v end.

(** A [Date] parameter: an invalid date has no ISO text. *)
Definition sql_timestamp (v : option Instant) : result RangeError (option Z) :=
  match v with
  | None => Ok None
  | Some (Some z) => Ok (Some z)
  | Some None => Err InvalidTimeValue
  end.

(** The object [buildCols] returns. *)
Record TaskCols := {
  tc_key : string; tc_type : string; tc_title : string; tc_assigneeLevel : option string;
  tc_assigneeId : option string; tc_agentPackage : option string; tc_agentRef : option json;
  tc_input : option json; tc_schedule : option json; tc_anchor : option json;
  tc_plannedStartUtc : option Instant; tc_plannedEndUtc : option Instant; tc_dueAtUtc : option Instant;
  tc_required : bool; tc_failurePolicy : option FailurePolicy; tc_missedWindowPolicy : option string;
  tc_retryPolicy : option json; tc_maxAttempts : option Z; tc_cancelPolicy : option json;
  tc_pinned : bool; tc_risk : option string; tc_foreachConfig : option ForeachSpec
}.

Definition anchor_column (t : TaskSpec) : option json :=
  match t_schedule t with
  | Some (Relative r) =>
      Some (JObj [("anchor", JStr (rel_anchor r));
                  ("point", JStr (ScheduleAnchorPoint_str (rel_anchorPoint r ?? ap_due)))])
  | _ => None
  end.

Definition agentRef_column (t : TaskSpec) : option json :=
  match t_body t with AgentTask a _ => Some (AgentRef_json a) | _ => None end.

Definition input_column (t : TaskSpec) : option json :=
  match t_body t with AgentTask _ i => sql_json i | _ => None end.

(** The [jsonb] values of a task row with their keys in the order the table returns. *)
Section columns.
Context `{Runtime} `{DateEnv}.

Definition buildCols (resolved : gmap string ResolvedTask) (t : TaskSpec) : TaskCols :=
  let r := resolved !! t_key t in {|
  tc_key := t_key t; tc_type := TaskType_str (t_type t); tc_title := t_title t;
  tc_assigneeLevel := (λ a, OwnershipLevel_str (asg_level a)) <$> t_assignee t;
  tc_assigneeId := asg_id <$> t_assignee t;
  tc_agentPackage := match t_body t with AgentTask a _ => Some (ar_package a) | _ => None end;
  tc_agentRef := agentRef_column t;
  tc_input := input_column t;
  tc_schedule := ScheduleSpec_json <$> t_schedule t;
  tc_anchor := anchor_column t;
  tc_plannedStartUtc := (λ x, Date_parse (rt_plannedStartUtc x)) <$> r;
  tc_plannedEndUtc := (λ x, Date_parse (rt_plannedEndUtc x)) <$> r;
  tc_dueAtUtc := (λ x, Date_parse (rt_dueAtUtc x)) <$> r;
  tc_required := t_required t ?? true;
  tc_failurePolicy := t_failurePolicy t;
  tc_missedWindowPolicy := MissedWindowPolicy_str <$> t_missedWindowPolicy t;
  tc_retryPolicy := sql_json (t_retryPolicy t);
  tc_maxAttempts := t_maxAttempts t;
  tc_cancelPolicy := sql_json (t_cancelPolicy t);
  tc_pinned := t_pinned t ?? false;
  tc_risk := t_risk t;
  tc_foreachConfig := t_foreach t |}.

(** The columns written over those of a row, and its due instant. *)
Definition set_cols (c : TaskCols) (d : TaskDef) : result RangeError (TaskDef * option Z) :=
  s ← sql_timestamp (tc_plannedStartUtc c); e ← sql_timestamp (tc_plannedEndUtc c);
  due ← sql_timestamp (tc_dueAtUtc c);
  Ok ({| td_id := td_id d; td_workflowId := td_workflowId d; td_key := tc_key c; td_type := tc_type c;
         td_title := tc_title c; td_parentTaskId := td_parentTaskId d;
         td_assigneeLevel := tc_assigneeLevel c; td_assigneeId := tc_assigneeId c;
         td_agentPackage := tc_agentPackage c; td_agentRef := rt_jsonb <$> tc_agentRef c;
         td_input := rt_jsonb <$> tc_input c; td_schedule := rt_jsonb <$> tc_schedule c;
         td_anchor := rt_jsonb <$> tc_anchor c; td_plannedStartUtc := s; td_plannedEndUtc := e;
         td_required := tc_required c; td_failurePolicy := tc_failurePolicy c;
         td_missedWindowPolicy := tc_missedWindowPolicy c; td_retryPolicy := rt_jsonb <$> tc_retryPolicy c;
         td_maxAttempts := tc_maxAttempts c; td_cancelPolicy := rt_jsonb <$> tc_cancelPolicy c;
         td_runId := td_runId d; td_pinned := tc_pinned c; td_risk := tc_risk c;
         td_foreachConfig := tc_foreachConfig c; td_createdAt := td_createdAt d |}, due).

(** The columns an [INSERT] leaves to their defaults. *)
Definition blank_def (id workflowId : string) (now : Z) : TaskDef := {|
  td_id := id; td_workflowId := workflowId; td_key := ""; td_type := ""; td_title := "";
  td_parentTaskId := None; td_assigneeLevel := None; td_assigneeId := None; td_agentPackage := None;
  td_agentRef := None; td_input := None; td_schedule := None; td_anchor := None;
  td_plannedStartUtc := None; td_plannedEndUtc := None; td_required := true; td_failurePolicy := None;
  td_missedWindowPolicy := None; td_retryPolicy := None; td_maxAttempts := None; td_cancelPolicy := None;
  td_runId := None; td_pinned := false; td_risk := None; td_foreachConfig := None; td_createdAt := now |}.

Definition new_task_row (id workflowId : string) (c : TaskCols) (now : Z) : result RangeError TaskRow :=
  x ← set_cols c (blank_def id workflowId now);
  Ok {| tr_def := x.1; tr_status := ts_idle; tr_dueAtUtc := x.2; tr_actualStartUtc := None;
        tr_actualEndUtc := None; tr_metadata := []; tr_lockVersion := 0; tr_updatedAt := now |}.

(** [SET { ...cols, lockVersion, updatedAt }] on a kept row. *)
Definition task_cols (x : TaskDef * option Z) (lockVersion updatedAt : Z) (t : TaskRow) : TaskRow := {|
  tr_def := x.1; tr_status := tr_status t; tr_dueAtUtc := x.2; tr_actualStartUtc := tr_actualStartUtc t;
  tr_actualEndUtc := tr_actualEndUtc t; tr_metadata := tr_metadata t; tr_lockVersion := lockVersion;
  tr_updatedAt := updatedAt |}.
End columns.

Definition def_parent (p : option string) (d : TaskDef) : TaskDef := {|
  td_id := td_id d; td_workflowId := td_workflowId d; td_key := td_key d; td_type := td_type d;
  td_title := td_title d; td_parentTaskId := p; td_assigneeLevel := td_assigneeLevel d;
  td_assigneeId := td_assigneeId d; td_agentPackage := td_agentPackage d; td_agentRef := td_agentRef d;
  td_input := td_input d; td_schedule := td_schedule d; td_anchor := td_anchor d;
  td_plannedStartUtc := td_plannedStartUtc d; td_plannedEndUtc := td_plannedEndUtc d;
  td_required := td_required d; td_failurePolicy := td_failurePolicy d;
  td_missedWindowPolicy := td_missedWindowPolicy d; td_retryPolicy := td_retryPolicy d;
  td_maxAttempts := td_maxAttempts d; td_cancelPolicy := td_cancelPolicy d; td_runId := td_runId d;
  td_pinned := td_pinned d; td_risk := td_risk d; td_foreachConfig := td_foreachConfig d;
  td_createdAt := td_createdAt d |}.

Definition task_parent (p : option string) (t : TaskRow) : TaskRow := {|
  tr_def := def_parent p (tr_def t); tr_status := tr_status t; tr_dueAtUtc := tr_dueAtUtc t;
  tr_actualStartUtc := tr_actualStartUtc t; tr_actualEndUtc := tr_actualEndUtc t;
  tr_metadata := tr_metadata t; tr_lockVersion := tr_lockVersion t; tr_updatedAt := tr_updatedAt t |}.

(** ** Statements of the store *)

Definition insert_workflow (r : WorkflowRow) : M unit :=
  guarded (λ d, negb (has_workflow d (wr_id r))) "workflow" (λ d, with_workflow d (db_workflow d ++ [r])).

(** An [INSERT] without conflict clause. *)
Definition insert_new_task (r : TaskRow) : M unit :=
  guarded (λ d, negb (existsb (λ t, (tr_workflowId t ≟ tr_workflowId r) && (tr_key t ≟ tr_key r)) (db_task d))
                && task_insertable r d)
    "workflow_task" (λ d, with_task d (db_task d ++ [r])).

Definition delete_dependency (p : DependencyRow → bool) : M unit :=
  modify (λ d, with_dependency d (List.filter (λ r, negb (p r)) (db_dependency d))).

Definition delete_approval (p : ApprovalRow → bool) : M unit :=
  modify (λ d, with_approval d (List.filter (λ r, negb (p r)) (db_approval d))).

(** [DELETE FROM workflow_task]: attempts, artifacts and approvals RESTRICT it;
    edges, gates and leases go with the task; the parent link of a child that
    stays is set to null. *)
Definition delete_task (p : TaskRow → bool) : M unit :=
  guarded
    (λ d, let gone := map tr_id (List.filter p (db_task d)) in
          negb (existsb (λ a, bool_decide (at_taskId a ∈ gone)) (db_attempt d))
          && negb (existsb (λ a, bool_decide (ar_taskId a ∈ gone)) (db_artifact d))
          && negb (existsb (λ a, bool_decide (ap_taskId a ∈ gone)) (db_approval d)))
    "workflow_task"
    (λ d, let gone := map tr_id (List.filter p (db_task d)) in
      let kept := λ i, negb (bool_decide (i ∈ gone)) in
      Build_DB (db_workflow d)
        (set_where (λ t, match td_parentTaskId (tr_def t) with Some i => bool_decide (i ∈ gone) | None => false end)
           (task_parent None) (List.filter (λ t, negb (p t)) (db_task d)))
        (List.filter (λ e, kept (dp_taskId e) && kept (dp_dependsOnTaskId e)) (db_dependency d))
        (List.filter (λ g, kept (gr_taskId g)) (db_gate d)) (db_event d) (db_attempt d)
        (List.filter (λ l, kept (le_taskId l)) (db_lease d)) (db_artifact d) (db_approval d) (db_template d)).

(** ** Inserting the rows of a spec *)

Definition unknown_parent (t : TaskSpec) (p : string) : exn :=
  ex_host ("Cannot persist workflow: task " +:+ quoted (t_key t) +:+ " has unknown parent " +:+ quoted p +:+ ".").

Definition unknown_dependency (t : TaskSpec) (k : string) : exn :=
  ex_host ("Cannot persist workflow: task " +:+ quoted (t_key t) +:+ " depends on unknown task " +:+ quoted k +:+ ".").

(** [taskIdByKey.get(t.key)!]: every task of the spec has been given an id. *)
Definition task_id (taskIdByKey : gmap string string) (key : string) : string := taskIdByKey !! key ?? "".

(** [new Date(t.deadlineIso8601)], [null] without a deadline. *)
Definition deadline_column `{DateEnv} (deadlineIso8601 : option string) : option Instant :=
  Date_parse <$> truthy_str deadlineIso8601.

Section drafts.
Context `{Runtime} `{DateEnv}.

Definition set_parent (id : string) (p : option string) : M unit :=
  _ ← update_task (λ t, tr_id t ≟ id) (task_parent p); mret ().

Definition new_ids (tasks : list TaskSpec) : M (gmap string string) :=
  foldM (λ m t, i ← fresh_id "wtask"; mret (<[t_key t := i]> m)) ∅ tasks.

Definition insert_spec_task (workflowId : string) (resolved : gmap string ResolvedTask)
    (taskIdByKey : gmap string string) (t : TaskSpec) : M unit :=
  now ← new_Date;
  row ← lift ex_range (new_task_row (task_id taskIdByKey (t_key t)) workflowId (buildCols resolved t) now);
  insert_new_task row.

Definition link_parent (taskIdByKey : gmap string string) (t : TaskSpec) : M unit :=
  match t_parent t with
  | None => mret ()
  | Some p =>
      match taskIdByKey !! p with
      | None => throw (unknown_parent t p)
      | Some parentId => set_parent (task_id taskIdByKey (t_key t)) (Some parentId)
      end
  end.

Definition insert_edge (workflowId : string) (taskIdByKey : gmap string string) (t : TaskSpec)
    (dep : TaskDependency) : M unit :=
  match taskIdByKey !! dep_taskKey dep with
  | None => throw (unknown_dependency t (dep_taskKey dep))
  | Some dependsOnId =>
      i ← fresh_id "wdep";
      insert_dependency {| dp_id := i; dp_workflowId := workflowId;
        dp_taskId := task_id taskIdByKey (t_key t); dp_dependsOnTaskId := dependsOnId;
        dp_outcome := dep_outcome dep ?? do_success |}
  end.

(** The ledger row of an approval task, undecided. *)
Definition insert_pending_approval (workflowId taskId : string) (t : TaskSpec) : M unit :=
  match t_body t with
  | ApprovalTask requiredScope solicitation deadlineIso8601 rejectionPolicy =>
      i ← fresh_id "wapr"; now ← new_Date;
      deadline ← lift ex_range (sql_timestamp (deadline_column deadlineIso8601));
      insert_approval {| ap_id := i; ap_workflowId := workflowId; ap_taskId := taskId;
        ap_requiredScope := rt_jsonb (ApprovalScope_json requiredScope); ap_resolvedApproverIds := None;
        ap_solicitationSchedule := rt_jsonb <$> (ScheduleSpec_json <$> solicitation);
        ap_deadlineUtc := deadline; ap_reviewPacketHash := None; ap_status := aps_pending;
        ap_rejectionPolicy := rejectionPolicy; ap_invalidatedAt := None; ap_notificationState := None;
        ap_decidedBy := None; ap_decidedAt := None; ap_reason := None; ap_createdAt := now;
        ap_updatedAt := now |}
  | _ => mret ()
  end.

Definition insertSpecRows (workflowId : string) (spec : WorkflowSpec) (frozenDueAt : gmap string FrozenDue)
    : M unit :=
  clock ← new_Date;
  resolution ← lift ex_range
    (resolveSchedule clock spec {| ro_targetAtUtc := None; ro_frozenDueAt := frozenDueAt |});
  taskIdByKey ← new_ids (w_tasks spec);
  for_each (w_tasks spec) (insert_spec_task workflowId (rr_tasks resolution) taskIdByKey);;
  for_each (w_tasks spec) (link_parent taskIdByKey);;
  for_each (w_tasks spec) (λ t,
    for_each (deps_of t) (insert_edge workflowId taskIdByKey t);;
    insert_pending_approval workflowId (task_id taskIdByKey (t_key t)) t).

(** ** Creating a workflow *)

Record CreateInput := {
  ci_spec : WorkflowSpec; ci_name : string; ci_product : option string; ci_status : option WorkflowStatus;
  ci_sourceTemplateId : option string; ci_sourceTemplateVersion : option Z; ci_createdBy : option string;
  ci_ownerLevel : option string; ci_ownerId : option string; ci_orgId : string; ci_projectId : option string
}.

(** [spec.target?.at ? new Date(spec.target.at) : null]. *)
Definition target_column (spec : WorkflowSpec) : option Instant :=
  Date_parse <$> truthy_str (w_target spec ≫= tg_at).

Definition createWorkflowFromSpec (input : CreateInput) : M string :=
  let spec := ci_spec input in
  workflowId ← fresh_id "wf";
  transaction (
    now ← new_Date;
    target ← lift ex_range (sql_timestamp (target_column spec));
    insert_workflow {|
      wr_def := {| wd_id := workflowId; wd_sourceTemplateId := ci_sourceTemplateId input;
        wd_sourceTemplateVersion := ci_sourceTemplateVersion input; wd_name := ci_name input;
        wd_product := ci_product input; wd_targetAtUtc := target; wd_targetTz := tg_tz <$> w_target spec;
        wd_ownerLevel := ci_ownerLevel input; wd_ownerId := ci_ownerId input; wd_orgId := ci_orgId input;
        wd_projectId := ci_projectId input; wd_createdBy := ci_createdBy input; wd_specVersion := 1;
        wd_createdAt := now |};
      wr_status := ci_status input ?? ws_draft; wr_lockVersion := 0; wr_updatedAt := now |};;
    insertSpecRows workflowId spec ∅);;
  mret workflowId.

(** ** Reading a workflow and its spec *)

Record ReadWorkflowResult := {
  rw_workflow : WorkflowRow; rw_tasks : list TaskRow; rw_dependencies : list DependencyRow;
  rw_approvals : list ApprovalRow
}.

Definition readWorkflow (workflowId : string) : M (option ReadWorkflowResult) :=
  wf ← select_workflow workflowId;
  match wf with
  | None => mret None
  | Some wf =>
      tasks ← gets (λ d, List.filter (λ t, tr_workflowId t ≟ workflowId) (db_task d));
      dependencies ← gets (λ d, List.filter (λ e, dp_workflowId e ≟ workflowId) (db_dependency d));
      approvals ← gets (λ d, List.filter (λ a, ap_workflowId a ≟ workflowId) (db_approval d));
      mret (Some {| rw_workflow := wf; rw_tasks := tasks; rw_dependencies := dependencies;
                    rw_approvals := approvals |})
  end.

(** [v ? { k: v } : {}]. *)
Definition fld_if (k : string) (v : option json) : list (string * json) :=
  match v with Some j => if json_truthy j then [(k, j)] else [] | None => [] end.

Definition dependency_json (keyById : gmap string string) (e : DependencyRow) : json :=
  JObj [("taskKey", JStr (keyById !! dp_dependsOnTaskId e ?? dp_dependsOnTaskId e));
        ("outcome", JStr (DependencyOutcome_str (dp_outcome e)))].

Definition approval_fields (a : option ApprovalRow) : list (string * json) :=
  [("requiredScope", (ap_requiredScope <$> a) ?? JObj [("level", JStr "organization")])] ++
  fld "rejectionPolicy" ((λ p, JStr (RejectionPolicy_str p)) <$> (a ≫= ap_rejectionPolicy)) ++
  fld "deadlineIso8601" ((λ z, JStr (iso_text z)) <$> (a ≫= ap_deadlineUtc)) ++
  fld_if "solicitation" (a ≫= ap_solicitationSchedule).

Definition reconstruct_task (keyById : gmap string string) (deps : list DependencyRow)
    (approvalByTaskId : gmap string ApprovalRow) (t : TaskRow) : json :=
  let d := tr_def t in
  let own := List.filter (λ e, dp_taskId e ≟ tr_id t) deps in
  JObj (
    [("key", JStr (td_key d)); ("type", JStr (td_type d)); ("title", JStr (td_title d))] ++
    fld_if "parent" (JStr <$> (truthy_str (td_parentTaskId d) ≫= λ i, keyById !! i)) ++
    fld_if "schedule" (td_schedule d) ++
    match own with [] => [] | _ => [("dependsOn", JArr (map (dependency_json keyById) own))] end ++
    match truthy_str (td_assigneeLevel d), truthy_str (td_assigneeId d) with
    | Some l, Some i => [("assignee", JObj [("level", JStr l); ("id", JStr i)])]
    | _, _ => []
    end ++
    (if td_required d then [] else [("required", JBool false)]) ++
    (if td_pinned d then [("pinned", JBool true)] else []) ++
    fld_if "risk" (JStr <$> td_risk d) ++
    fld "failurePolicy" ((λ p, JStr (FailurePolicy_str p)) <$> td_failurePolicy d) ++
    fld_if "missedWindowPolicy" (JStr <$> td_missedWindowPolicy d) ++
    fld_if "retryPolicy" (td_retryPolicy d) ++
    fld "maxAttempts" (jint <$> td_maxAttempts d) ++
    fld_if "cancelPolicy" (td_cancelPolicy d) ++
    fld "foreach" (ForeachSpec_json <$> td_foreachConfig d) ++
    (if td_type d ≟ "agent_task" then fld_if "agentRef" (td_agentRef d) ++ fld_if "input" (td_input d)
     else if td_type d ≟ "approval" then approval_fields (approvalByTaskId !! tr_id t)
     else [])).

Definition reconstruct_target (w : WorkflowDef) : option json :=
  match wd_targetAtUtc w, truthy_str (wd_targetTz w) with
  | Some z, Some tz => Some (JObj [("at", JStr (iso_text z)); ("tz", JStr tz)])
  | _, _ => None
  end.

Definition spec_of_rows (r : ReadWorkflowResult) (approvals : list ApprovalRow) : json :=
  let w := wr_def (rw_workflow r) in
  let approvalByTaskId := map_of (λ a, (ap_taskId a, a)) approvals in
  JObj (
    [("name", JStr (wd_name w))] ++ fld "product" (JStr <$> wd_product w) ++
    fld "target" (reconstruct_target w) ++
    [("tasks", JArr (map (reconstruct_task (keyById (rw_tasks r)) (rw_dependencies r) approvalByTaskId)
                         (rw_tasks r)))]).

Definition reconstructSpec (workflowId : string) : M (option json) :=
  result ← readWorkflow workflowId;
  match result with
  | None => mret None
  | Some r =>
      approvals ← gets (λ d, List.filter (λ a, ap_workflowId a ≟ workflowId) (db_approval d));
      mret (Some (spec_of_rows r approvals))
  end.

(** ** Applying an edited spec to a paused workflow *)

(** What [diffApplySpecRows] reads before it writes. *)
Record OldState := {
  os_tasks : list TaskRow; os_attempted : list string; os_artifacts : list string;
  os_approvals : list ApprovalRow; os_deps : list DependencyRow
}.

Definition old_state (workflowId : string) (d : DB) : OldState := {|
  os_tasks := List.filter (λ t, tr_workflowId t ≟ workflowId) (db_task d);
  os_attempted := map at_taskId (List.filter (λ a, at_workflowId a ≟ workflowId) (db_attempt d));
  os_artifacts := map ar_taskId (List.filter (λ a, ar_workflowId a ≟ workflowId) (db_artifact d));
  os_approvals := List.filter (λ a, ap_workflowId a ≟ workflowId) (db_approval d);
  os_deps := List.filter (λ e, dp_workflowId e ≟ workflowId) (db_dependency d) |}.

Definition oldTaskByKey (o : OldState) : gmap string TaskRow := map_of (λ t, (tr_key t, t)) (os_tasks o).
Definition oldTaskById (o : OldState) : gmap string TaskRow := map_of (λ t, (tr_id t, t)) (os_tasks o).

Definition hasEvidence (o : OldState) (taskId : string) : bool :=
  bool_decide (taskId ∈ os_attempted o) || bool_decide (taskId ∈ os_artifacts o).

Definition oldApprovalByKey (o : OldState) : gmap string ApprovalRow :=
  foldl (λ m a, match oldTaskById o !! ap_taskId a with
                | Some t => <[tr_key t := a]> m
                | None => m
                end) ∅ (os_approvals o).

(** Solicited, decided or invalidated. *)
Definition approvalIsEvidence (a : ApprovalRow) : bool :=
  negb (ap_status a ≟ aps_pending) || is_present (ap_decidedAt a) || is_present (ap_invalidatedAt a)
  || solicited a.

Definition edge_text (key : string) (o : DependencyOutcome) : string := key +:+ ":" +:+ DependencyOutcome_str o.

Definition old_edges (o : OldState) (taskId : string) : gset string :=
  list_to_set (map (λ e, edge_text ((tr_key <$> oldTaskById o !! dp_dependsOnTaskId e) ?? dp_dependsOnTaskId e)
                                   (dp_outcome e))
                 (List.filter (λ e, dp_taskId e ≟ taskId) (os_deps o))).

Definition new_edges (t : TaskSpec) : gset string :=
  list_to_set (map (λ e, edge_text (dep_taskKey e) (dep_outcome e ?? do_success)) (deps_of t)).

Definition isFrozen (o : OldState) (t : TaskRow) (prevAp : option ApprovalRow) : bool :=
  hasEvidence o (tr_id t) || (negb (tr_status t ≟ ts_idle) && negb (tr_status t ≟ ts_scheduled))
  || match prevAp with Some a => approvalIsEvidence a | None => false end.

(** The committed bar of a row; a missing bound is the due instant. *)
Definition frozen_tuple (due : Z) (d : TaskDef) : FrozenDue :=
  FrozenBar (iso_text due) (iso_text (td_plannedStartUtc d ?? due)) (iso_text (td_plannedEndUtc d ?? due)).

Definition new_keys (spec : WorkflowSpec) : list string := map t_key (w_tasks spec).

(** The bars of the frozen tasks that stay; [frozenDueAt[key]] also finds what
    a plain object inherits. *)
Definition freeze_kept (o : OldState) (spec : WorkflowSpec) (frozenDueAt : gmap string FrozenDue)
    : gmap string FrozenDue :=
  foldl (λ m t,
    match tr_dueAtUtc t with
    | None => m
    | Some due =>
        if negb (bool_decide (tr_key t ∈ new_keys spec)) || is_present (m !! tr_key t)
           || bool_decide (tr_key t ∈ object_prototype_keys)
        then m
        else if isFrozen o t (oldApprovalByKey o !! tr_key t)
             then <[tr_key t := frozen_tuple due (tr_def t)]> m
             else m
    end) frozenDueAt (os_tasks o).

Definition toDelete (o : OldState) (spec : WorkflowSpec) : list TaskRow :=
  List.filter (λ t, negb (bool_decide (tr_key t ∈ new_keys spec))) (os_tasks o).

(** Why a removed task may not be deleted. *)
Definition delete_refusal (o : OldState) (t : TaskRow) : option string :=
  let ap := oldApprovalByKey o !! tr_key t in
  if isFrozen o t ap then
    Some (if hasEvidence o (tr_id t) || match ap with Some a => approvalIsEvidence a | None => false end
          then "task_has_attempts" else "task_immutable")
  else None.

Definition FROZEN_TASK_IDENTITY_KEYS : list string :=
  ["type"; "agentPackage"; "agentRef"; "input"; "required"; "failurePolicy"; "missedWindowPolicy";
   "retryPolicy"; "maxAttempts"; "cancelPolicy"; "schedule"; "anchor"].

(** [existing[k]] and [cols[k]], for the keys above. *)
Definition row_columns (d : TaskDef) : list (string * option json) :=
  [("type", Some (JStr (td_type d))); ("agentPackage", JStr <$> td_agentPackage d);
   ("agentRef", td_agentRef d); ("input", td_input d); ("required", Some (JBool (td_required d)));
   ("failurePolicy", (λ p, JStr (FailurePolicy_str p)) <$> td_failurePolicy d);
   ("missedWindowPolicy", JStr <$> td_missedWindowPolicy d); ("retryPolicy", td_retryPolicy d);
   ("maxAttempts", jint <$> td_maxAttempts d); ("cancelPolicy", td_cancelPolicy d);
   ("schedule", td_schedule d); ("anchor", td_anchor d)].

Definition cols_columns (c : TaskCols) : list (string * option json) :=
  [("type", Some (JStr (tc_type c))); ("agentPackage", JStr <$> tc_agentPackage c);
   ("agentRef", tc_agentRef c); ("input", tc_input c); ("required", Some (JBool (tc_required c)));
   ("failurePolicy", (λ p, JStr (FailurePolicy_str p)) <$> tc_failurePolicy c);
   ("missedWindowPolicy", JStr <$> tc_missedWindowPolicy c); ("retryPolicy", tc_retryPolicy c);
   ("maxAttempts", jint <$> tc_maxAttempts c); ("cancelPolicy", tc_cancelPolicy c);
   ("schedule", tc_schedule c); ("anchor", tc_anchor c)].

Definition column_text (k : string) (columns : list (string * option json)) : string :=
  canonicalize_opt (mjoin (assoc k columns)).

Definition identity_changed (d : TaskDef) (c : TaskCols) : bool :=
  existsb (λ k, negb (column_text k (row_columns d) ≟ column_text k (cols_columns c))) FROZEN_TASK_IDENTITY_KEYS.

Definition edges_changed (o : OldState) (t : TaskRow) (spec_task : TaskSpec) : bool :=
  let old := old_edges o (tr_id t) in
  let new := new_edges spec_task in
  negb (size old =? size new)%nat || negb (bool_decide (new ⊆ old)).

(** Scope, solicitation, deadline or policy of an approval in use; the new
    deadline is rendered, which throws on an invalid date. *)
Definition approval_changed (prevAp : option ApprovalRow) (t : TaskSpec) : result RangeError bool :=
  match t_body t, prevAp with
  | ApprovalTask requiredScope solicitation deadlineIso8601 rejectionPolicy, Some a =>
      newDeadline ← match deadline_column deadlineIso8601 with
                    | Some z => s ← toISOString z; Ok (Some s)
                    | None => Ok None
                    end;
      Ok (negb (canonicalize (ap_requiredScope a) ≟ canonicalize (ApprovalScope_json requiredScope))
          || negb (canonicalize_opt (ap_solicitationSchedule a)
                   ≟ canonicalize_opt (ScheduleSpec_json <$> solicitation))
          || negb ((iso_text <$> ap_deadlineUtc a) ≟ newDeadline)
          || negb (ap_rejectionPolicy a ≟ rejectionPolicy))
  | _, _ => Ok false
  end.

(** The precheck of one task of the new spec. *)
Definition identity_frozen (o : OldState) (resolved : gmap string ResolvedTask) (t : TaskSpec) : M unit :=
  match oldTaskByKey o !! t_key t with
  | None => mret ()
  | Some existing =>
      let prevAp := oldApprovalByKey o !! t_key t in
      if negb (isFrozen o existing prevAp) then mret ()
      else if identity_changed (tr_def existing) (buildCols resolved t) then throw (ex_spec_apply "task_immutable")
      else if edges_changed o existing t then throw (ex_spec_apply "task_immutable")
      else
        changed ← lift ex_range (approval_changed prevAp t);
        if (changed : bool) then throw (ex_spec_apply "task_immutable") else mret ()
  end.

(** The ids of the new spec: the row's own, or a fresh one. *)
Definition kept_ids (o : OldState) (tasks : list TaskSpec) : M (gmap string string) :=
  foldM (λ m t, i ← match oldTaskByKey o !! t_key t with
                    | Some existing => mret (tr_id existing)
                    | None => fresh_id "wtask"
                    end;
                mret (<[t_key t := i]> m)) ∅ tasks.

Definition apply_task (o : OldState) (workflowId : string) (resolved : gmap string ResolvedTask)
    (taskIdByKey : gmap string string) (t : TaskSpec) : M unit :=
  let taskId := task_id taskIdByKey (t_key t) in
  let cols := buildCols resolved t in
  match oldTaskByKey o !! t_key t with
  | Some existing =>
      now ← new_Date;
      x ← lift ex_range (set_cols cols (tr_def existing));
      _ ← update_task (λ r, tr_id r ≟ taskId) (task_cols x (tr_lockVersion existing + 1) now);
      mret ()
  | None =>
      now ← new_Date;
      row ← lift ex_range (new_task_row taskId workflowId cols now);
      insert_new_task row
  end.

(** A removed parent clears the column. *)
Definition apply_parent (taskIdByKey : gmap string string) (t : TaskSpec) : M unit :=
  match t_parent t with
  | None => set_parent (task_id taskIdByKey (t_key t)) None
  | Some p =>
      match taskIdByKey !! p with
      | None => throw (unknown_parent t p)
      | Some parentId => set_parent (task_id taskIdByKey (t_key t)) (Some parentId)
      end
  end.

(** The new graph, for the review packets. *)
Definition packet_tasks (taskIdByKey : gmap string string) (spec : WorkflowSpec) : gmap string ReviewPacketTask :=
  map_of (λ t, let tid := task_id taskIdByKey (t_key t) in
               (tid, {| rp_id := tid; rp_key := t_key t; rp_title := t_title t |})) (w_tasks spec).

Definition packet_keys (taskIdByKey : gmap string string) (spec : WorkflowSpec) : gmap string string :=
  map_of (λ t, (task_id taskIdByKey (t_key t), t_key t)) (w_tasks spec).

Definition packet_deps (taskIdByKey : gmap string string) (spec : WorkflowSpec) : list PacketDep :=
  concat (map (λ t, omap (λ e : TaskDependency,
      (λ onId, {| pk_taskId := task_id taskIdByKey (t_key t); pk_dependsOnTaskId := onId;
                  pk_outcome := dep_outcome e ?? do_success |}) <$> taskIdByKey !! dep_taskKey e) (deps_of t))
    (w_tasks spec)).

(** An opened approval, not yet consumed, is re-gated when its packet changed:
    the hash to store, and whether the sign-off is stale. *)
Definition restamp (o : OldState) (taskIdByKey : gmap string string) (spec : WorkflowSpec) (t : TaskSpec)
    (requiredScope : ApprovalScope) (prev : option ApprovalRow) : option string * bool :=
  let taskConsumed := match oldTaskByKey o !! t_key t with
                      | Some r => isTerminalTaskStatus (tr_status r)
                      | None => false
                      end in
  match prev with
  | None => (None, false)
  | Some a =>
      if is_present (truthy_str (ap_reviewPacketHash a)) && negb taskConsumed && was_opened a then
        let h := computeReviewPacketHash
          {| rp_id := task_id taskIdByKey (t_key t); rp_key := t_key t; rp_title := t_title t |}
          (ApprovalScope_json requiredScope) (packet_deps taskIdByKey spec) (packet_tasks taskIdByKey spec)
          (packet_keys taskIdByKey spec) in
        (Some h, negb (ap_reviewPacketHash a ≟ Some h))
      else (ap_reviewPacketHash a, false)
  end.

(** [x?.f ?? v]. *)
Definition kept {A B} (a : option A) (f : A → option B) : option B := a ≫= f.

Definition apply_approval (o : OldState) (workflowId : string) (taskIdByKey : gmap string string)
    (spec : WorkflowSpec) (t : TaskSpec) : M unit :=
  match t_body t with
  | ApprovalTask requiredScope solicitation deadlineIso8601 rejectionPolicy =>
      let prev := oldApprovalByKey o !! t_key t in
      let '(reviewPacketHash, stale) := restamp o taskIdByKey spec t requiredScope prev in
      i ← match prev with Some a => mret (ap_id a) | None => fresh_id "wapr" end;
      deadline ← lift ex_range (sql_timestamp (deadline_column deadlineIso8601));
      invalidated ← (if stale then now ← new_Date; mret (Some now) else mret (kept prev ap_invalidatedAt));
      created ← match prev with Some a => mret (ap_createdAt a) | None => new_Date end;
      updated ← match prev with Some a => mret (ap_updatedAt a) | None => new_Date end;
      insert_approval {| ap_id := i; ap_workflowId := workflowId; ap_taskId := task_id taskIdByKey (t_key t);
        ap_requiredScope := rt_jsonb (ApprovalScope_json requiredScope);
        ap_resolvedApproverIds := kept prev ap_resolvedApproverIds;
        ap_solicitationSchedule := rt_jsonb <$> (ScheduleSpec_json <$> solicitation);
        ap_deadlineUtc := deadline; ap_reviewPacketHash := reviewPacketHash;
        ap_status := if stale then aps_pending else (ap_status <$> prev) ?? aps_pending;
        ap_rejectionPolicy := rejectionPolicy; ap_invalidatedAt := invalidated;
        ap_notificationState := if stale then Some (JObj []) else kept prev ap_notificationState;
        ap_decidedBy := if stale then None else kept prev ap_decidedBy;
        ap_decidedAt := if stale then None else kept prev ap_decidedAt;
        ap_reason := if stale then None else kept prev ap_reason;
        ap_createdAt := created; ap_updatedAt := updated |}
  | _ => mret ()
  end.

Definition diffApplySpecRows (workflowId : string) (spec : WorkflowSpec) (frozenDueAt : gmap string FrozenDue)
    : M unit :=
  o ← gets (old_state workflowId);
  clock ← new_Date;
  resolution ← lift ex_range
    (resolveSchedule clock spec {| ro_targetAtUtc := None; ro_frozenDueAt := freeze_kept o spec frozenDueAt |});
  let resolved := rr_tasks resolution in
  for_each (toDelete o spec) (λ t,
    match delete_refusal o t with Some reason => throw (ex_spec_apply reason) | None => mret () end);;
  for_each (w_tasks spec) (identity_frozen o resolved);;
  delete_dependency (λ e, dp_workflowId e ≟ workflowId);;
  delete_approval (λ a, ap_workflowId a ≟ workflowId);;
  for_each (toDelete o spec) (λ t, delete_task (λ r, tr_id r ≟ tr_id t));;
  taskIdByKey ← kept_ids o (w_tasks spec);
  for_each (w_tasks spec) (apply_task o workflowId resolved taskIdByKey);;
  for_each (w_tasks spec) (apply_parent taskIdByKey);;
  for_each (w_tasks spec) (λ t,
    for_each (deps_of t) (insert_edge workflowId taskIdByKey t);;
    apply_approval o workflowId taskIdByKey spec t).

(** ** Replacing the spec of a draft or paused workflow *)

Record UpdateDraftResult := { ur_ok : bool; ur_reason : option string; ur_lockVersion : option Z }.
Definition update_refused (reason : string) : UpdateDraftResult :=
  {| ur_ok := false; ur_reason := Some reason; ur_lockVersion := None |}.

Record UpdateInput := {
  ui_workflowId : string; ui_spec : WorkflowSpec; ui_name : option string; ui_product : option string;
  ui_expectedLockVersion : Z; ui_excludeFromFreeze : list string
}.

Definition editable (s : WorkflowStatus) : bool := (s ≟ ws_draft) || (s ≟ ws_paused).

Definition respecified (input : UpdateInput) (target : option Z) (nextLock updatedAt : Z) (w : WorkflowRow)
    : WorkflowRow :=
  let d := wr_def w in {|
  wr_def := {| wd_id := wd_id d; wd_sourceTemplateId := wd_sourceTemplateId d;
    wd_sourceTemplateVersion := wd_sourceTemplateVersion d; wd_name := ui_name input ?? w_name (ui_spec input);
    wd_product := coalesce (ui_product input) (w_product (ui_spec input)); wd_targetAtUtc := target;
    wd_targetTz := tg_tz <$> w_target (ui_spec input); wd_ownerLevel := wd_ownerLevel d;
    wd_ownerId := wd_ownerId d; wd_orgId := wd_orgId d; wd_projectId := wd_projectId d;
    wd_createdBy := wd_createdBy d; wd_specVersion := wd_specVersion d + 1; wd_createdAt := wd_createdAt d |};
  wr_status := wr_status w; wr_lockVersion := nextLock; wr_updatedAt := updatedAt |}.

(** The bars of the pinned tasks that are not being moved. *)
Definition oldByKey (rows : list TaskRow) : gmap string FrozenDue :=
  foldl (λ m r, match tr_dueAtUtc r with
                | Some due => <[tr_key r := frozen_tuple due (tr_def r)]> m
                | None => m
                end) ∅ rows.

Definition pinned_bars (input : UpdateInput) (rows : list TaskRow) : gmap string FrozenDue :=
  foldl (λ m t,
    if negb (t_pinned t ?? false) || bool_decide (t_key t ∈ ui_excludeFromFreeze input) then m
    else match oldByKey rows !! t_key t with Some old => <[t_key t := old]> m | None => m end)
    ∅ (w_tasks (ui_spec input)).

(** The body of the transaction: whether the compare-and-set won. *)
Definition update_spec (input : UpdateInput) : M bool :=
  let workflowId := ui_workflowId input in
  let spec := ui_spec input in
  wfLocked ← select_workflow workflowId;
  match wfLocked with
  | None => mret false
  | Some wfLocked =>
      now ← new_Date;
      target ← lift ex_range (sql_timestamp (target_column spec));
      updated ← update_workflow
        (λ w, workflow_cas workflowId (ui_expectedLockVersion input) w && editable (wr_status w))
        (respecified input target (ui_expectedLockVersion input + 1) now);
      if (length updated =? 0)%nat then mret false
      else
        oldRows ← gets (λ d, List.filter (λ t, tr_workflowId t ≟ workflowId) (db_task d));
        let frozenDueAt := pinned_bars input oldRows in
        (if wr_status wfLocked ≟ ws_paused then diffApplySpecRows workflowId spec frozenDueAt
         else
           delete_approval (λ a, ap_workflowId a ≟ workflowId);;
           delete_task (λ t, tr_workflowId t ≟ workflowId);;
           insertSpecRows workflowId spec frozenDueAt);;
        mret true
  end.

Context (others : M unit).

Definition updateWorkflowDraftSpec (input : UpdateInput) : M UpdateDraftResult :=
  wf ← select_workflow (ui_workflowId input);
  match wf with
  | None => mret (update_refused "not_found")
  | Some wf =>
      if negb (editable (wr_status wf)) then mret (update_refused "not_draft")
      else if negb (wr_lockVersion wf =? ui_expectedLockVersion input) then mret (update_refused "stale")
      else
        others;;
        catch (
          casOk ← transaction (update_spec input);
          mret (if (casOk : bool)
                then {| ur_ok := true; ur_reason := None;
                        ur_lockVersion := Some (ui_expectedLockVersion input + 1) |}
                else update_refused "stale"))
          (λ e, match e with ex_spec_apply reason => mret (update_refused reason) | _ => throw e end)
  end.
End drafts.
