(* ===== verification/Canonical.v ===== *)
(** * Values up to the order of their keys

    [canonicalize] ([store.ts]) is the text of a value with every object's keys
    sorted.  Two values with one canonical text are the same value to the code:
    a [jsonb] column returns a written value only up to this equivalence. *)

From S2P Require Import Prelude Json Spec Store Drafts.
Open Scope Z_scope.

(** ** Sorting keys *)

Definition str_le (a b : string) : Prop := String.leb a b = true.

#[export] Instance str_le_dec a b : Decision (str_le a b).
Proof. unfold str_le. apply _. Defined.

#[export] Instance str_le_antisym : AntiSymm (=) str_le.
Proof. intros a b. apply String.leb_antisym. Qed.

Lemma str_compare_lt a b c :
  String.compare a b ≠ Gt → String.compare b c ≠ Gt → String.compare a c ≠ Gt.
Proof.
  revert b c. induction a as [|x a IH]; intros [|y b] [|z c]; cbn; try done.
  unfold Ascii.compare.
  destruct (N.compare_spec (N_of_ascii x) (N_of_ascii y)) as [E1|L1|L1],
    (N.compare_spec (N_of_ascii y) (N_of_ascii z)) as [E2|L2|L2], (N.compare_spec (N_of_ascii x) (N_of_ascii z))
    as [E3|L3|L3]; try done; try lia. apply IH.
Qed.

#[export] Instance str_le_trans : Transitive str_le.
Proof.
  intros a b c. unfold str_le, String.leb. intros H1 H2.
  pose proof (str_compare_lt a b c) as Ht. destruct (String.compare a b), (String.compare b c), (String.compare a c);
    try done; destruct Ht; done.
Qed.

Lemma sort_insert_sorted x l : Sorted str_le l → Sorted str_le (sort_insert x l).
Proof.
  induction 1 as [|y l Hl IH Hhd]; cbn; [by repeat constructor|]. destruct (String.leb x y) eqn:E.
  - constructor; [by constructor|by constructor].
  - assert (Hyx : str_le y x) by (destruct (String.leb_total x y) as [Ht|]; [congruence|done]).
    constructor; [done|]. destruct Hhd as [|z l Hz]; cbn; [by constructor|].
    destruct (String.leb x z); by constructor.
Qed.

Lemma js_sort_sorted l : Sorted str_le (js_sort l).
Proof. induction l as [|x l IH]; [constructor|]. by apply sort_insert_sorted. Qed.

Lemma js_sort_perm_eq l k : l ≡ₚ k → js_sort l = js_sort k.
Proof.
  intros Hp. apply (Sorted_unique str_le); [apply js_sort_sorted..|]. by rewrite !js_sort_perm.
Qed.

(** ** Objects *)

Lemma assoc_map {A B} (f : A → B) k (l : list (string * A)) :
  assoc k (map (λ kv : string * A, let (k, w) := kv in (k, f w)) l) = f <$> assoc k l.
Proof. induction l as [|[k' v] l IH]; [done|]. cbn. by case_bool_decide. Qed.

Lemma assoc_None {A} k (l : list (string * A)) : assoc k l = None ↔ k ∉ map fst l.
Proof.
  induction l as [|[k' v] l IH]; cbn; [split; [by intros _ ?%elem_of_nil|done]|].
  rewrite not_elem_of_cons. case_bool_decide; [split; [done|by intros []]|]. rewrite IH. naive_solver.
Qed.

Lemma canonical_object_ext l k :
  map fst l ≡ₚ map fst k → (∀ x, assoc x l = assoc x k) → canonical_object l = canonical_object k.
Proof.
  intros Hp Ha. unfold canonical_object. rewrite (js_sort_perm_eq _ _ Hp).
  do 2 f_equal. f_equal. apply map_ext. intros x. by rewrite Ha.
Qed.

(** ** The equivalence *)

Definition json_equiv (x y : json) : Prop := canonicalize x = canonicalize y.
Infix "≈" := json_equiv (at level 70).

#[export] Instance json_equiv_equivalence : Equivalence json_equiv.
Proof. split; [intros x|intros x y|intros x y z]; unfold json_equiv; congruence. Qed.

#[export] Instance canonicalize_proper : Proper (json_equiv ==> (=)) canonicalize.
Proof. by intros x y. Qed.

Inductive opt_equiv : option json → option json → Prop :=
  | oe_none : opt_equiv None None
  | oe_some x y : x ≈ y → opt_equiv (Some x) (Some y).

#[export] Instance opt_equiv_equivalence : Equivalence opt_equiv.
Proof.
  split.
  - intros [x|]; by constructor.
  - intros ? ? []; by constructor.
  - intros ? ? ? [|x y Hxy]; [done|]. inversion 1; subst. constructor. by etrans.
Qed.

Lemma arr_equiv l k : Forall2 json_equiv l k → JArr l ≈ JArr k.
Proof.
  intros Hf. unfold json_equiv. cbn. do 3 f_equal. induction Hf as [|x y l k Hxy _ IH]; [done|].
  cbn. by f_equal.
Qed.

Lemma jget_assoc k kvs : jget k kvs = assoc k kvs.
Proof. induction kvs as [|[k' v] l IH]; [done|]. cbn. by case_bool_decide. Qed.

(** Objects with the same keys and equivalent values are equivalent. *)
Lemma obj_equiv l k :
  NoDup (map fst l) → NoDup (map fst k) → (∀ x, opt_equiv (jget x l) (jget x k)) → JObj l ≈ JObj k.
Proof.
  intros Hl Hk Hx. unfold json_equiv. cbn.
  assert (Hfst : ∀ l : list (string * json),
    map fst (map (λ kv : string * json, let (k, w) := kv in (k, canonicalize w)) l) = map fst l).
  { intros l'. rewrite map_map. apply map_ext. by intros []. }
  apply canonical_object_ext.
  - rewrite !Hfst. apply NoDup_Permutation; [done..|]. intros x. specialize (Hx x). rewrite !jget_assoc in Hx.
    destruct (decide (x ∈ map fst l)) as [Hi|Hi], (decide (x ∈ map fst k)) as [Hj|Hj]; try done; exfalso.
    + apply assoc_None in Hj. rewrite Hj in Hx. destruct (assoc x l) eqn:E; [inversion Hx|by apply assoc_None in E].
    + apply assoc_None in Hi. rewrite Hi in Hx. destruct (assoc x k) eqn:E; [inversion Hx|by apply assoc_None in E].
  - intros x. rewrite !assoc_map, <- !jget_assoc. destruct (Hx x) as [|? ? E]; [done|]. cbn. by rewrite E.
Qed.

(** ** Lists of optional fields *)

Definition fields (l : list (string * option json)) : list (string * json) :=
  omap (λ kv : string * option json, (λ v, (kv.1, v)) <$> kv.2) l.

Lemma fields_cons k v l : fields ((k, v) :: l) = match v with Some j => (k, j) :: fields l | None => fields l end.
Proof. by destruct v. Qed.

Lemma fields_keys l : map fst (fields l) `sublist_of` map fst l.
Proof.
  induction l as [|[k [v|]] l IH]; cbn; [constructor|by apply sublist_skip|by apply sublist_cons].
Qed.

Lemma fields_NoDup l : NoDup (map fst l) → NoDup (map fst (fields l)).
Proof. intros Hn. eapply sublist_NoDup; [done|apply fields_keys]. Qed.

Lemma jget_fields k l : NoDup (map fst l) → jget k (fields l) = mjoin (assoc k l).
Proof.
  induction l as [|[k' v] l IH]; [done|]. cbn [map fst]. intros [Hn Hd]%NoDup_cons. rewrite fields_cons. cbn [assoc].
  case_bool_decide as E.
  - subst k'. destruct v as [v|]; cbn; [by rewrite bool_decide_true|].
    rewrite IH by done. by rewrite (proj2 (assoc_None k l) Hn).
  - destruct v as [v|]; cbn; [rewrite bool_decide_false by done|]; by apply IH.
Qed.

Lemma assoc_in {A} k (l : list (string * A)) v : assoc k l = Some v → (k, v) ∈ l.
Proof.
  induction l as [|[k' w] l IH]; [done|]. cbn. case_bool_decide as E; [|by intros ?%IH; right].
  intros [= ->]. subst. left.
Qed.

(** The same optional fields in another order, up to absent ones. *)
Lemma fields_equiv l k :
  bool_decide (NoDup (map fst l)) = true → bool_decide (NoDup (map fst k)) = true →
  forallb (λ kv : string * option json, bool_decide (kv.1 ∈ map fst l) || negb (is_present kv.2)) k = true →
  (∀ x, x ∈ map fst l → opt_equiv (mjoin (assoc x l)) (mjoin (assoc x k))) →
  JObj (fields l) ≈ JObj (fields k).
Proof.
  intros Hl%bool_decide_eq_true Hk%bool_decide_eq_true Hkl Hx.
  apply obj_equiv; [by apply fields_NoDup..|]. intros x. rewrite !jget_fields by done.
  destruct (decide (x ∈ map fst l)) as [|Hn]; [by apply Hx|].
  rewrite (proj2 (assoc_None x l) Hn). destruct (assoc x k) as [v|] eqn:E; [|constructor].
  apply assoc_in in E. rewrite forallb_forall in Hkl. specialize (Hkl _ (proj1 (list_elem_of_In _ _) E)).
  cbn in Hkl. rewrite bool_decide_false in Hkl by done. by destruct v.
Qed.

(** ** The law of [jsonb] columns *)

(** A [jsonb] column returns the value it was given, up to the order of keys. *)
Class JsonbLaw `{Runtime} := {
  jsonb_canonical : ∀ v, canonicalize (rt_jsonb v) = canonicalize v;
  jsonb_truthy : ∀ v, json_truthy (rt_jsonb v) = json_truthy v
}.
