(* ===== verification/Persisted.v ===== *)
(** * What the store keeps of a spec

    [persisted]: the spec that the rows of [createWorkflowFromSpec] stand for: the
    fields without a column are gone, defaults are normalised, instants are UTC
    text.  [row_equiv]: a task reconstructed from its row is, up to the order of
    keys, the persisted task. *)

From S2P Require Import Prelude Json Time Spec Transitions Gates Store Ops Reconciler Validate Resolver Drafts Canonical.
Open Scope Z_scope.

(** ** What is stored of a spec *)

Definition kept_json (v : option json) : option json :=
  match v with Some j => if json_truthy j then Some j else None | None => None end.

Section persisted.
Context `{DateEnv}.

(** An instant as the text of its timestamp. *)
Definition utc_text (s : option string) : option string :=
  truthy_str s ≫= λ x, iso_text <$> Date_parse x.

Definition persisted_body (b : TaskBody) : TaskBody :=
  match b with
  | AgentTask a i => AgentTask a (kept_json i)
  | ApprovalTask s sol d r => ApprovalTask s sol (utc_text d) r
  | ManualTask _ => ManualTask None
  | NotificationTask _ _ => NotificationTask None None
  | WaitTask => WaitTask
  | CheckpointTask => CheckpointTask
  end.

Definition persisted_deps (deps : list TaskDependency) : option (list TaskDependency) :=
  match deps with
  | [] => None
  | _ => Some (map (λ d, {| dep_taskKey := dep_taskKey d; dep_outcome := Some (dep_outcome d ?? do_success) |}) deps)
  end.

Definition persisted_task (t : TaskSpec) : TaskSpec := {|
  t_key := t_key t; t_title := t_title t;
  t_required := if t_required t ?? true then None else Some false;
  t_pinned := if t_pinned t ?? false then Some true else None;
  t_risk := truthy_str (t_risk t); t_parent := t_parent t; t_schedule := t_schedule t;
  t_dependsOn := persisted_deps (deps_of t); t_assignee := t_assignee t; t_failurePolicy := t_failurePolicy t;
  t_missedWindowPolicy := t_missedWindowPolicy t; t_retryPolicy := kept_json (t_retryPolicy t);
  t_maxAttempts := t_maxAttempts t; t_cancelPolicy := kept_json (t_cancelPolicy t);
  t_body := persisted_body (t_body t); t_foreach := t_foreach t |}.

(** A target without a date is not stored. *)
Definition persisted_target (spec : WorkflowSpec) : option Target :=
  tg ← w_target spec; at_ ← utc_text (tg_at tg); tz ← truthy_str (Some (tg_tz tg));
  Some {| tg_at := Some at_; tg_tz := tz |}.

Definition persisted (input : CreateInput) : WorkflowSpec := {|
  w_key := None; w_name := ci_name input; w_product := ci_product input;
  w_target := persisted_target (ci_spec input); w_placeholders := None;
  w_tasks := map persisted_task (w_tasks (ci_spec input)); w_metadata := None |}.
End persisted.

(** ** One task *)

Lemma fields_fld k v l : fields ((k, v) :: l) = fld k v ++ fields l.
Proof. by destruct v. Qed.

Lemma fld_if_kept k v : fld_if k v = fld k (kept_json v).
Proof. destruct v as [v|]; [|done]. cbn. by destruct (json_truthy v). Qed.

Section task.
Context `{Runtime, !JsonbLaw} `{DateEnv}.

Lemma kept_jsonb v : opt_equiv (kept_json (rt_jsonb <$> v)) (kept_json v).
Proof.
  destruct v as [v|]; [|done]. cbn. rewrite jsonb_truthy. destruct (json_truthy v); constructor. apply jsonb_canonical.
Qed.

Lemma kept_sql v : kept_json (sql_json v) = kept_json v.
Proof. by destruct v as [[]|]. Qed.

(** The approval row of a task, as stored. *)
Definition approval_read (t : TaskSpec) (a : option ApprovalRow) : Prop :=
  match t_body t with
  | ApprovalTask scope sol deadline policy =>
      ∃ row, a = Some row ∧ ap_requiredScope row = rt_jsonb (ApprovalScope_json scope) ∧
        ap_solicitationSchedule row = rt_jsonb <$> (ScheduleSpec_json <$> sol) ∧
        sql_timestamp (deadline_column deadline) = Ok (ap_deadlineUtc row) ∧ ap_rejectionPolicy row = policy
  | _ => True
  end.

Definition edges_value (edges : list json) : option json :=
  match edges with [] => None | _ => Some (JArr edges) end.

(** The optional fields of a reconstructed task, in the order of the code. *)
Definition row_fields (d : TaskDef) (parent : option string) (edges : list json) (a : option ApprovalRow)
    : list (string * option json) :=
  [("key", Some (JStr (td_key d))); ("type", Some (JStr (td_type d))); ("title", Some (JStr (td_title d)));
   ("parent", kept_json (JStr <$> parent)); ("schedule", kept_json (td_schedule d));
   ("dependsOn", edges_value edges);
   ("assignee", match truthy_str (td_assigneeLevel d), truthy_str (td_assigneeId d) with
                | Some l, Some i => Some (JObj [("level", JStr l); ("id", JStr i)])
                | _, _ => None
                end);
   ("required", if td_required d then None else Some (JBool false));
   ("pinned", if td_pinned d then Some (JBool true) else None);
   ("risk", kept_json (JStr <$> td_risk d));
   ("failurePolicy", (λ p, JStr (FailurePolicy_str p)) <$> td_failurePolicy d);
   ("missedWindowPolicy", kept_json (JStr <$> td_missedWindowPolicy d));
   ("retryPolicy", kept_json (td_retryPolicy d)); ("maxAttempts", jint <$> td_maxAttempts d);
   ("cancelPolicy", kept_json (td_cancelPolicy d)); ("foreach", ForeachSpec_json <$> td_foreachConfig d)] ++
  (if td_type d ≟ "agent_task" then
     [("agentRef", kept_json (td_agentRef d)); ("input", kept_json (td_input d))]
   else if td_type d ≟ "approval" then
     [("requiredScope", Some ((ap_requiredScope <$> a) ?? JObj [("level", JStr "organization")]));
      ("rejectionPolicy", (λ p, JStr (RejectionPolicy_str p)) <$> (a ≫= ap_rejectionPolicy));
      ("deadlineIso8601", (λ z, JStr (iso_text z)) <$> (a ≫= ap_deadlineUtc));
      ("solicitation", kept_json (a ≫= ap_solicitationSchedule))]
   else []).

Lemma reconstruct_fields keyById deps aps t :
  reconstruct_task keyById deps aps t =
  JObj (fields (row_fields (tr_def t) (truthy_str (td_parentTaskId (tr_def t)) ≫= λ i, keyById !! i)
    (map (dependency_json keyById) (List.filter (λ e, dp_taskId e ≟ tr_id t) deps)) (aps !! tr_id t))).
Proof.
  unfold reconstruct_task, row_fields, approval_fields. f_equal. rewrite !fld_if_kept. cbn [app].
  rewrite !fields_fld. cbn [fld app]. do 3 f_equal. do 2 (apply f_equal2; [done|]).
  apply f_equal2; [by destruct (List.filter _ deps)|].
  apply f_equal2; [by destruct (truthy_str (td_assigneeLevel (tr_def t))), (truthy_str (td_assigneeId (tr_def t)))|].
  apply f_equal2; [by destruct (td_required (tr_def t))|].
  apply f_equal2; [by destruct (td_pinned (tr_def t))|].
  do 7 (apply f_equal2; [done|]). destruct (_ ≟ "agent_task"); [by rewrite !fields_fld, app_nil_r|].
  destruct (_ ≟ "approval"); [|done]. rewrite !fields_fld. cbn [fld app]. by rewrite app_nil_r.
Qed.

(** The optional fields of the stored spec, in the order of the schema. *)
Definition spec_fields (t : TaskSpec) : list (string * option json) :=
  [("key", Some (JStr (t_key t))); ("title", Some (JStr (t_title t))); ("required", JBool <$> t_required t);
   ("pinned", JBool <$> t_pinned t); ("risk", JStr <$> t_risk t); ("parent", JStr <$> t_parent t);
   ("schedule", ScheduleSpec_json <$> t_schedule t);
   ("dependsOn", (λ l, JArr (map TaskDependency_json l)) <$> t_dependsOn t);
   ("assignee", Assignment_json <$> t_assignee t);
   ("failurePolicy", (λ p, JStr (FailurePolicy_str p)) <$> t_failurePolicy t);
   ("missedWindowPolicy", (λ p, JStr (MissedWindowPolicy_str p)) <$> t_missedWindowPolicy t);
   ("retryPolicy", t_retryPolicy t); ("maxAttempts", jint <$> t_maxAttempts t);
   ("cancelPolicy", t_cancelPolicy t); ("type", Some (JStr (TaskType_str (t_type t))))] ++
  match t_body t with
  | AgentTask a i => [("agentRef", Some (AgentRef_json a)); ("input", i)]
  | ApprovalTask s sol d r =>
      [("requiredScope", Some (ApprovalScope_json s)); ("solicitation", ScheduleSpec_json <$> sol);
       ("deadlineIso8601", JStr <$> d); ("rejectionPolicy", (λ p, JStr (RejectionPolicy_str p)) <$> r)]
  | ManualTask i => [("instructions", JStr <$> i)]
  | NotificationTask m r => [("message", JStr <$> m); ("recipients", (λ l, JArr (map JStr l)) <$> r)]
  | _ => []
  end ++ [("foreach", ForeachSpec_json <$> t_foreach t)].

Lemma TaskSpec_json_fields t : TaskSpec_json t = JObj (fields (spec_fields t)).
Proof.
  unfold TaskSpec_json, spec_fields, TaskBody_fields. f_equal. cbn [app]. rewrite !fields_fld.
  repeat f_equal. destruct (t_body t); cbn [app]; rewrite ?fields_fld; cbn [fields omap list_omap];
    rewrite ?app_nil_r, <- ?app_assoc; done.
Qed.

(** What [schema_ok] and the key pattern give of one task. *)
Record storable_task (t : TaskSpec) : Prop := {
  st_parent : t_parent t ≠ Some "";
  st_assignee : ∀ a, t_assignee t = Some a → asg_id a ≠ "";
  st_deadline : match t_body t with
                | ApprovalTask _ _ d _ => ∃ z, sql_timestamp (deadline_column d) = Ok z
                | _ => True
                end
}.

Lemma kept_str o : o ≠ Some "" → kept_json (JStr <$> o) = JStr <$> o.
Proof. destruct o as [s|]; [|done]. cbn. intros Hs. rewrite bool_decide_false; [done|]. congruence. Qed.

Lemma kept_truthy_str o : kept_json (JStr <$> o) = JStr <$> truthy_str o.
Proof. destruct o as [s|]; [|done]. cbn. by case_bool_decide. Qed.

Lemma kept_object f (o : option ScheduleSpec) :
  (∀ s, json_truthy (f s) = true) → kept_json (f <$> o) = f <$> o.
Proof. intros Hf. destruct o as [s|]; [|done]. cbn. by rewrite Hf. Qed.

Lemma ScheduleSpec_truthy s : json_truthy (ScheduleSpec_json s) = true.
Proof. by destruct s. Qed.

Lemma schedule_equiv (o : option ScheduleSpec) :
  opt_equiv (kept_json (rt_jsonb <$> (ScheduleSpec_json <$> o))) (ScheduleSpec_json <$> o).
Proof. etrans; [apply kept_jsonb|]. by rewrite kept_object by apply ScheduleSpec_truthy. Qed.

Lemma sql_json_equiv v : opt_equiv (kept_json (rt_jsonb <$> sql_json v)) (kept_json v).
Proof. etrans; [apply kept_jsonb|]. by rewrite kept_sql. Qed.

Lemma deadline_text d z :
  sql_timestamp (deadline_column d) = Ok z → (λ z, JStr (iso_text z)) <$> z = JStr <$> utc_text d.
Proof.
  unfold deadline_column, utc_text. destruct (truthy_str d) as [x|]; cbn; [|by intros [= <-]].
  destruct (Date_parse x) as [i|]; cbn; [|done]. by intros [= <-].
Qed.

Lemma edges_field deps :
  edges_value (map TaskDependency_json
    (map (λ d, {| dep_taskKey := dep_taskKey d; dep_outcome := Some (dep_outcome d ?? do_success) |}) deps))
  = (λ l, JArr (map TaskDependency_json l)) <$> persisted_deps deps.
Proof. by destruct deps. Qed.

Lemma assignee_field (o : option Assignment) :
  (∀ a, o = Some a → asg_id a ≠ "") →
  match truthy_str ((λ a, OwnershipLevel_str (asg_level a)) <$> o), truthy_str (asg_id <$> o) with
  | Some l, Some i => Some (JObj [("level", JStr l); ("id", JStr i)])
  | _, _ => None
  end = Assignment_json <$> o.
Proof.
  destruct o as [[l i]|]; [|done]. intros Hi. specialize (Hi _ eq_refl). cbn in *.
  rewrite (bool_decide_false (i = "")) by done. by destruct l.
Qed.

Lemma missed_field (o : option MissedWindowPolicy) :
  kept_json (JStr <$> (MissedWindowPolicy_str <$> o)) = (λ p, JStr (MissedWindowPolicy_str p)) <$> o.
Proof. by destruct o as [[]|]. Qed.

Lemma flag_field (b : bool) v : (if b then None else Some (JBool v)) = JBool <$> (if b then None else Some v).
Proof. by destruct b. Qed.

Lemma flag_field' (b : bool) v : (if b then Some (JBool v) else None) = JBool <$> (if b then Some v else None).
Proof. by destruct b. Qed.

(** One field of the two lists. *)
Ltac field_equiv :=
  first
    [ reflexivity
    | apply schedule_equiv
    | apply sql_json_equiv
    | rewrite kept_str by done; reflexivity
    | rewrite kept_truthy_str; reflexivity
    | rewrite assignee_field by done; reflexivity
    | rewrite missed_field; reflexivity
    | rewrite flag_field; reflexivity
    | rewrite flag_field'; reflexivity
    | constructor; apply jsonb_canonical
    | etrans; [apply (kept_jsonb (Some _))|reflexivity] ].

(** [assoc] on a literal list. *)
Ltac assoc_simpl :=
  repeat match goal with
  | |- context [assoc ?k ((?k', ?v) :: ?r)] =>
      first [ change (assoc k ((k', v) :: r)) with (Some v) | change (assoc k ((k', v) :: r)) with (assoc k r) ]
  end; cbn [mjoin option_join].

Lemma row_equiv resolved t d0 x p edges a :
  set_cols (buildCols resolved t) d0 = Ok x → storable_task t →
  edges = map TaskDependency_json
    (map (λ d, {| dep_taskKey := dep_taskKey d; dep_outcome := Some (dep_outcome d ?? do_success) |}) (deps_of t)) →
  approval_read t a →
  JObj (fields (row_fields (def_parent p x.1) (t_parent t) edges a)) ≈ TaskSpec_json (persisted_task t).
Proof.
  intros Hx [Hp Ha _] -> Hr. rewrite TaskSpec_json_fields.
  unfold set_cols in Hx. apply result_bind_Ok in Hx as (s & _ & Hx). apply result_bind_Ok in Hx as (e & _ & Hx).
  apply result_bind_Ok in Hx as (due & _ & [= <-]). unfold row_fields, spec_fields, approval_read in *.
  cbn [def_parent td_key td_type td_title td_schedule td_assigneeLevel td_assigneeId td_required td_pinned td_risk
       td_failurePolicy td_missedWindowPolicy td_retryPolicy td_maxAttempts td_cancelPolicy td_foreachConfig
       td_agentRef td_input buildCols tc_key tc_type tc_title tc_schedule tc_assigneeLevel tc_assigneeId tc_required
       tc_pinned tc_risk tc_failurePolicy tc_missedWindowPolicy tc_retryPolicy tc_maxAttempts tc_cancelPolicy
       tc_foreachConfig tc_agentRef tc_input fst persisted_task t_key t_title t_required t_pinned t_risk t_parent
       t_schedule t_dependsOn t_assignee t_failurePolicy t_missedWindowPolicy t_retryPolicy t_maxAttempts
       t_cancelPolicy t_body t_foreach].
  unfold agentRef_column, input_column, t_type. cbn [t_body]. rewrite edges_field.
  change (t_body (persisted_task t)) with (persisted_body (t_body t)).
  destruct (t_body t) as [ar i|sc sol dl rp|i|m r| |] eqn:Eb; cbn [persisted_body TaskType_str];
    repeat match goal with
           | |- context [(?a ≟ ?b)] => first [change (a ≟ b) with true | change (a ≟ b) with false]
           end; cbn [fmap option_fmap option_map app].
  2: destruct Hr as (row & -> & Hsc & Hsol & Hdl & Hrp); cbn [fmap option_fmap option_map mbind option_bind from_option id];
    rewrite Hsc, Hsol, Hrp, (deadline_text _ _ Hdl).
  all: apply fields_equiv; [vm_compute; reflexivity..|].
  all: intros k Hk; cbn [map fst] in Hk.
  all: repeat (apply elem_of_cons in Hk as [->|Hk]; [assoc_simpl; field_equiv|]).
  all: apply elem_of_nil in Hk; destruct Hk.
Qed.
End task.
