(* ===== verification/Lifecycle.v ===== *)
(** * The lifecycle operations ([engine/lifecycle.ts])

    Start, pause, resume and cancel a workflow, complete a manual task, the body
    of the repeatable tick and the stuck-task report.  [cancelWorkflow] runs in
    one transaction under the advisory lock; the others are a compare-and-set
    on the row's lock version followed by the log entry and the host hooks.

    The two authorization probes and [safeParse] are arguments. *)

From S2P Require Import Prelude Json Time Spec Limits Validate Transitions Gates Store Ops ForeachReconciler Reconciler Drafts.
Open Scope Z_scope.

Record LifecycleDeps := {
  ld_cancelChildRun : option (string → M unit);
  ld_notify : option WorkflowNotifier;
  ld_audit : option WorkflowAuditWriter;
  ld_actorId : option string
}.

Record LifecycleResult := { lr_ok : bool; lr_reason : option string }.
Definition lc_ok : LifecycleResult := {| lr_ok := true; lr_reason := None |}.
Definition refused (reason : string) : LifecycleResult := {| lr_ok := false; lr_reason := Some reason |}.

Inductive start_detail := no_detail | invalid_spec (errors : list StructuredSpecError) | task_detail (d : json).

Record StartResult := { sr_ok : bool; sr_reason : option string; sr_errors : start_detail }.
Definition start_refused (reason : string) (d : start_detail) : StartResult :=
  {| sr_ok := false; sr_reason := Some reason; sr_errors := d |}.

Record StartOptions := {
  so_skipStartValid : bool;
  so_agentExists : option (option json → string → M bool);
  so_approverResolvable : option (option json → string → M bool)
}.

Section lifecycle.
Context `{Runtime} `{DateEnv}.
Context (safeParse : json → result (list ZodIssue) WorkflowSpec).

Definition call_hook {A} (hook : option (A → M unit)) (a : A) : M unit :=
  match hook with Some f => f a | None => mret () end.

Definition lifecycle_event (workflowId kind source : string) (taskId taskKey actorId : option string)
    (payload : option json) : M unit :=
  i ← fresh_id "wevent"; now ← new_Date;
  insert_event {| er_id := i; er_workflowId := workflowId; er_taskId := taskId; er_taskKey := taskKey;
    er_kind := kind; er_payload := payload; er_actorId := actorId; er_source := Some source;
    er_idempotencyKey := None; er_createdAt := now |}.

(** ** Start *)

(** One task of the re-authorization loop; [Some] stops it. *)
Definition reauthorize (opts : StartOptions) (orgId : string) (t : json) : M (option StartResult) :=
  agent_ok ← match so_agentExists opts with
             | Some f => if jprop "type" t ≟ Some (JStr "agent_task") then f (jprop "agentRef" t) orgId else mret true
             | None => mret true
             end;
  if negb agent_ok then
    mret (Some (start_refused "agent_not_available_at_start"
      (task_detail (JObj (fld "taskKey" (jprop "key" t) ++ fld "agentRef" (jprop "agentRef" t))))))
  else
    approver_ok ← match so_approverResolvable opts with
                  | Some f => if jprop "type" t ≟ Some (JStr "approval") then f (jprop "requiredScope" t) orgId
                              else mret true
                  | None => mret true
                  end;
    if negb approver_ok then
      mret (Some (start_refused "approver_unresolvable_at_start" (task_detail (JObj (fld "taskKey" (jprop "key" t))))))
    else mret None.

Fixpoint first_refusal (f : json → M (option StartResult)) (l : list json) : M (option StartResult) :=
  match l with
  | [] => mret None
  | t :: r => x ← f t; match x with Some e => mret (Some e) | None => first_refusal f r end
  end.

Definition spec_tasks (spec : json) : list json :=
  match jprop "tasks" spec with Some (JArr l) => l | _ => [] end.

(** The validation of the stored spec; [None] lets the start proceed. *)
Definition start_check (w : WorkflowRow) (opts : StartOptions) : M (option StartResult) :=
  if so_skipStartValid opts then mret None
  else
    spec ← reconstructSpec (wr_id w);
    match spec with
    | None => mret None
    | Some spec =>
        now ← new_Date;
        sv ← lift ex_range (validateStart safeParse now spec None);
        if negb (vr_ok sv) then mret (Some (start_refused "not_start_valid" (invalid_spec (vr_errors sv))))
        else if is_present (so_agentExists opts) || is_present (so_approverResolvable opts)
        then first_refusal (reauthorize opts (wd_orgId (wr_def w))) (spec_tasks spec)
        else mret None
    end.

Definition startWorkflow (workflowId : string) (opts : StartOptions) : M StartResult :=
  wf ← select_workflow workflowId;
  match wf with
  | None => mret (start_refused "not_found" no_detail)
  | Some w =>
      if negb (wr_status w ≟ ws_draft) then
        mret (start_refused ("not_draft (" +:+ WorkflowStatus_str (wr_status w) +:+ ")") no_detail)
      else
        refusal ← start_check w opts;
        match refusal with
        | Some e => mret e
        | None =>
            at_ ← new_Date;
            moved ← update_workflow
              (λ x, workflow_cas workflowId (wr_lockVersion w) x && (wr_status x ≟ ws_draft))
              (workflow_set ws_active (wr_lockVersion w + 1) at_);
            if (length moved =? 0)%nat then mret (start_refused "stale" no_detail)
            else
              lifecycle_event workflowId "workflow_started" "lifecycle" None None (wd_createdBy (wr_def w)) None;;
              mret {| sr_ok := true; sr_reason := None; sr_errors := no_detail |}
        end
  end.

(** ** Pause and resume *)

Definition pauseWorkflow (workflowId : string) (deps : LifecycleDeps) : M LifecycleResult :=
  wf ← select_workflow workflowId;
  match wf with
  | None => mret (refused "not_found")
  | Some w =>
      if negb (wr_status w ≟ ws_active) then
        mret (refused ("not_active (" +:+ WorkflowStatus_str (wr_status w) +:+ ")"))
      else
        lift ex_transition (assertTransition k_workflow "active" "paused");;
        at_ ← new_Date;
        moved ← update_workflow
          (λ x, workflow_cas workflowId (wr_lockVersion w) x && (wr_status x ≟ ws_active))
          (workflow_set ws_paused (wr_lockVersion w + 1) at_);
        if (length moved =? 0)%nat then mret (refused "stale")
        else
          lifecycle_event workflowId "workflow_paused" "lifecycle" None None (ld_actorId deps) None;;
          call_hook (ld_notify deps) (notificationFor ne_workflow_paused workflowId None None);;
          call_hook (ld_audit deps) {| au_action := "workflow.pause"; au_workflowId := workflowId;
                                       au_actorId := ld_actorId deps; au_details := None |};;
          mret lc_ok
  end.

Definition resumeWorkflow (workflowId : string) (deps : LifecycleDeps) : M LifecycleResult :=
  wf ← select_workflow workflowId;
  match wf with
  | None => mret (refused "not_found")
  | Some w =>
      if negb (wr_status w ≟ ws_paused) then
        mret (refused ("not_paused (" +:+ WorkflowStatus_str (wr_status w) +:+ ")"))
      else
        lift ex_transition (assertTransition k_workflow "paused" "active");;
        at_ ← new_Date;
        moved ← update_workflow
          (λ x, workflow_cas workflowId (wr_lockVersion w) x && (wr_status x ≟ ws_paused))
          (workflow_set ws_active (wr_lockVersion w + 1) at_);
        if (length moved =? 0)%nat then mret (refused "stale")
        else
          lifecycle_event workflowId "workflow_resumed" "lifecycle" None None (ld_actorId deps) None;;
          call_hook (ld_notify deps) (notificationFor ne_workflow_resumed workflowId None None);;
          call_hook (ld_audit deps) {| au_action := "workflow.resume"; au_workflowId := workflowId;
                                       au_actorId := ld_actorId deps; au_details := None |};;
          mret lc_ok
  end.

(** ** Cancel *)

Definition invalidate_pending_approvals (workflowId : string) : M unit :=
  invalidated ← new_Date; updated ← new_Date;
  _ ← update_approval (λ a, (ap_workflowId a ≟ workflowId) && (ap_status a ≟ aps_pending))
    (λ a, approval_set (ap_status a) (ap_notificationState a) (ap_reviewPacketHash a) (Some invalidated) updated a);
  mret ().

(** The transaction: the result, and the child runs to cancel after it. *)
Definition cancel_tx (workflowId : string) (actorId : option string) : M (LifecycleResult * list string) :=
  transaction (
    wf ← select_workflow workflowId;
    match wf with
    | None => mret (refused "not_found", [])
    | Some w =>
        if negb (wr_status w ≟ ws_active) && negb (wr_status w ≟ ws_paused) then
          mret (refused ("not_cancellable (" +:+ WorkflowStatus_str (wr_status w) +:+ ")"), [])
        else
          lift ex_transition (assertTransition k_workflow (WorkflowStatus_str (wr_status w)) "cancelled");;
          at_ ← new_Date;
          moved ← update_workflow
            (λ x, workflow_cas workflowId (wr_lockVersion w) x
                  && bool_decide (wr_status x ∈ [ws_active; ws_paused]))
            (workflow_set ws_cancelled (wr_lockVersion w + 1) at_);
          if (length moved =? 0)%nat then mret (refused "stale", [])
          else
            childRunsToCancel ← running_child_runs workflowId;
            cancel_open_tasks workflowId;;
            invalidate_pending_approvals workflowId;;
            delete_lease (λ l, le_workflowId l ≟ workflowId);;
            lifecycle_event workflowId "workflow_cancelled" "lifecycle" None None actorId
              (Some (JObj [("cancelledChildRuns", jint (Z.of_nat (length childRunsToCancel)))]));;
            mret (lc_ok, childRunsToCancel)
    end).

Definition cancelWorkflow (workflowId : string) (deps : LifecycleDeps) : M LifecycleResult :=
  r ← cancel_tx workflowId (ld_actorId deps);
  let '(result, childRunsToCancel) := r in
  when (lr_ok result) (
    cleanup_runs (ld_cancelChildRun deps) childRunsToCancel;;
    let details := Some (JObj [("cancelledChildRuns", jint (Z.of_nat (length childRunsToCancel)))]) in
    call_hook (ld_notify deps) (notificationFor ne_workflow_cancelled workflowId None details);;
    call_hook (ld_audit deps) {| au_action := "workflow.cancel"; au_workflowId := workflowId;
                                 au_actorId := ld_actorId deps; au_details := details |});;
  mret result.

(** ** Manual tasks and the tick *)

(** The compare-and-set and its log entry; the workflow to reconcile. *)
Definition complete_manual (taskId : string) (actorId : option string) : M (LifecycleResult * option string) :=
  task ← gets (λ d, first_where (λ t, tr_id t ≟ taskId) (db_task d));
  match task with
  | None => mret (refused "not_found", None)
  | Some task =>
      if negb (tr_type task ≟ "manual") then mret (refused "not_manual", None)
      else if negb (tr_status task ≟ ts_running) then
        mret (refused ("not_running (" +:+ TaskStatus_str (tr_status task) +:+ ")"), None)
      else
        end_ ← new_Date; at_ ← new_Date;
        moved ← update_task (task_cas taskId (tr_lockVersion task))
          (λ t, task_ended end_ (task_set ts_succeeded (tr_lockVersion task + 1) at_ t));
        if (length moved =? 0)%nat then mret (refused "stale", None)
        else
          lifecycle_event (tr_workflowId task) "manual_completed" "user" (Some taskId) (Some (tr_key task))
            actorId None;;
          mret (lc_ok, Some (tr_workflowId task))
  end.

Definition markManualDone (taskId : string) (actorId : option string) (deps : ReconcileDeps)
    : M (LifecycleResult * option string) :=
  r ← complete_manual taskId actorId;
  match r.2 with
  | Some wfId => reconcileWorkflow wfId deps;; mret r
  | None => mret r
  end.

(** [ORDER BY updated_at ASC]. *)
Fixpoint due_insert (w : WorkflowRow) (l : list WorkflowRow) : list WorkflowRow :=
  match l with
  | [] => [w]
  | x :: r => if wr_updatedAt w <=? wr_updatedAt x then w :: x :: r else x :: due_insert w r
  end.

Definition due_workflows (limit : nat) (d : DB) : list string :=
  map wr_id (take limit (foldr due_insert [] (List.filter (λ w, wr_status w ≟ ws_active) (db_workflow d)))).

Definition reconcileDueWorkflows (deps : ReconcileDeps) (batchCap : option nat) : M nat :=
  rows ← gets (due_workflows (batchCap ?? maxConcurrentActive));
  foldM (λ n r, reconcileWorkflow r deps;; mret (S n)) 0%nat rows.

Record StuckTask := {
  sk_taskId : string; sk_workflowId : string; sk_type : string; sk_status : TaskStatus; sk_sinceUtc : string
}.

Definition stuck_task (t : TaskRow) : StuckTask := {|
  sk_taskId := tr_id t; sk_workflowId := tr_workflowId t; sk_type := tr_type t; sk_status := tr_status t;
  sk_sinceUtc := iso_text (tr_updatedAt t) |}.

Definition findStuckTasks (workflowIds : option (list string)) : M (list StuckTask) :=
  match workflowIds with
  | Some [] => mret []
  | _ =>
      now ← new_Date;
      let in_scope := λ t, match workflowIds with
                           | Some ids => bool_decide (tr_workflowId t ∈ ids)
                           | None => true
                           end in
      rows ← gets (λ d, List.filter (λ t, (tr_status t ≟ ts_running)
                                          && (tr_updatedAt t <? now - stuckRunningMs) && in_scope t) (db_task d));
      mret (map stuck_task rows)
  end.
End lifecycle.
