(* ===== verification/Sample.v ===== *)
(** * A concrete engine

    One runtime (counting ids, a counting clock, the identity digest) and small
    workflows on which the definitions evaluate and the theorems about the
    engine are instantiated. *)

From S2P Require Import Prelude Json Time Spec Transitions Gates Store Hoare Evolution.
From S2P Require Import Ops ForeachReconciler Reconciler Lifecycle Drafts Canonical.
Open Scope Z_scope.

(** Keys by length, then by bytes, at every level: the order of PostgreSQL. *)
Definition key_before (a b : string) : bool :=
  (String.length a <? String.length b)%nat || ((String.length a =? String.length b)%nat && String.leb a b).

Fixpoint field_insert (x : string * json) (l : list (string * json)) : list (string * json) :=
  match l with
  | [] => [x]
  | y :: r => if key_before x.1 y.1 then x :: y :: r else y :: field_insert x r
  end.

Fixpoint jsonb_order (v : json) : json :=
  match v with
  | JArr l => JArr (map jsonb_order l)
  | JObj kvs => JObj (foldr field_insert [] (map (λ kv : string * json, let (k, w) := kv in (k, jsonb_order w)) kvs))
  | _ => v
  end.

#[export] Instance sample_runtime : Runtime := {|
  rt_uuid := show_nat;
  rt_clock := λ n, 1000000 + Z.of_nat n;
  rt_process := "wfproc_0";
  rt_sha256 := λ s, s;
  rt_localeCompare := λ a b, if a ≟ b then 0 else if String.leb a b then -1 else 1;
  rt_pg_text := json_String;
  rt_pg_integer := λ _, None;
  rt_jsonb := jsonb_order |}.

Lemma field_insert_perm x l : field_insert x l ≡ₚ x :: l.
Proof. induction l as [|y l IH]; [done|]. cbn. destruct (key_before _ _); [done|]. rewrite IH. by constructor. Qed.

Lemma key_before_refl a : key_before a a = true.
Proof.
  unfold key_before. rewrite Nat.eqb_refl, orb_true_iff. right. by destruct (String.leb_total a a).
Qed.

Lemma field_insert_assoc x l k : assoc k (field_insert x l) = assoc k (x :: l).
Proof.
  induction l as [|y l IH]; [done|]. cbn [field_insert]. destruct (key_before _ _) eqn:E; [done|].
  destruct x as [kx vx], y as [ky vy]. cbn in *. rewrite IH. destruct (decide (kx = ky)) as [->|Hn].
  - by rewrite key_before_refl in E.
  - repeat case_bool_decide; congruence.
Qed.

#[export] Instance sample_jsonb : JsonbLaw.
Proof.
  split; [|by intros []]. intros v. induction v as [|b|n|s|l IH|kvs IH] using json_nested_ind; try done.
  - change (JArr (map jsonb_order l) ≈ JArr l). apply arr_equiv. induction IH; by constructor.
  - cbn [rt_jsonb sample_runtime jsonb_order]. cbn [canonicalize].
    set (g := λ kv : string * json, let (k, w) := kv in (k, jsonb_order w)).
    set (h := λ kv : string * json, let (k, w) := kv in (k, canonicalize w)).
    assert (Hg : map h (map g kvs) = map h kvs).
    { rewrite map_map. apply map_ext_in. intros [k w] Hin%list_elem_of_In. rewrite Forall_forall in IH.
      unfold g, h. f_equal. exact (IH _ Hin). }
    rewrite <- Hg. generalize (map g kvs). intros l. apply canonical_object_ext.
    + induction l as [|x l IHl]; [done|]. cbn. rewrite (field_insert_perm x). cbn. by constructor.
    + intros k. unfold h. rewrite !assoc_map. f_equal. induction l as [|[kx vx] l IHl]; [done|].
      cbn [foldr]. rewrite field_insert_assoc. cbn. by case_bool_decide.
Qed.

Definition sample_workflow (status : WorkflowStatus) : WorkflowRow := {|
  wr_def := {| wd_id := "w1"; wd_sourceTemplateId := None; wd_sourceTemplateVersion := None;
    wd_name := "release"; wd_product := None; wd_targetAtUtc := None; wd_targetTz := None;
    wd_ownerLevel := Some "user"; wd_ownerId := Some "u1"; wd_orgId := "o1"; wd_projectId := None;
    wd_createdBy := Some "u1"; wd_specVersion := 1; wd_createdAt := 0 |};
  wr_status := status; wr_lockVersion := 3; wr_updatedAt := 0 |}.

Definition sample_task (id key type : string) (parent : option string) (fe : option ForeachSpec)
    (policy : FailurePolicy) (required : bool) (status : TaskStatus) : TaskRow := {|
  tr_def := {| td_id := id; td_workflowId := "w1"; td_key := key; td_type := type; td_title := key;
    td_parentTaskId := parent; td_assigneeLevel := None; td_assigneeId := None; td_agentPackage := None;
    td_agentRef := None; td_input := None; td_schedule := None; td_anchor := None;
    td_plannedStartUtc := None; td_plannedEndUtc := None; td_required := required;
    td_failurePolicy := Some policy; td_missedWindowPolicy := None; td_retryPolicy := None;
    td_maxAttempts := None; td_cancelPolicy := None; td_runId := None; td_pinned := false;
    td_risk := None; td_foreachConfig := fe; td_createdAt := 0 |};
  tr_status := status; tr_dueAtUtc := None; tr_actualStartUtc := None; tr_actualEndUtc := None;
  tr_metadata := []; tr_lockVersion := 0; tr_updatedAt := 0 |}.

Definition plain_task (id type : string) (status : TaskStatus) : TaskRow :=
  sample_task id id type None None fp_block true status.

Definition sample_dep (task on : string) (o : DependencyOutcome) : DependencyRow := {|
  dp_id := task +:+ "/" +:+ on; dp_workflowId := "w1"; dp_taskId := task; dp_dependsOnTaskId := on;
  dp_outcome := o |}.

Definition sample_attempt (id task : string) (no : Z) (status : AttemptStatus) (run : option string) : AttemptRow := {|
  at_id := id; at_workflowId := "w1"; at_taskId := task; at_attemptNo := no;
  at_idempotencyKey := idempotency_key "w1" task no; at_status := status; at_childRunId := run;
  at_error := None; at_output := None; at_startedAt := None; at_completedAt := None; at_updatedAt := 0 |}.

Definition sample_db (ws : WorkflowStatus) (tasks : list TaskRow) (deps : list DependencyRow)
    (attempts : list AttemptRow) : DB := {|
  db_workflow := [sample_workflow ws]; db_task := tasks; db_dependency := deps; db_gate := [];
  db_event := []; db_attempt := attempts; db_lease := []; db_artifact := []; db_approval := [];
  db_template := [] |}.

Definition sample_st (d : DB) : St := {| st_db := d; st_draws := 0 |}.

(** An agent task after a manual one that is done. *)
Definition ready_db : DB :=
  sample_db ws_active [plain_task "t1" "manual" ts_succeeded; plain_task "t2" "agent_task" ts_idle]
    [sample_dep "t2" "t1" do_success] [].

Definition no_duplicates (l : list string) : bool := bool_decide (NoDup l).

(** Tables without attempts and without fan-out satisfy the invariant. *)
Lemma inv_fresh d :
  no_duplicates (map wr_id (db_workflow d)) = true → no_duplicates (map tr_id (db_task d)) = true →
  db_attempt d = [] → forallb (λ t, negb (is_foreach t)) (db_task d) = true → inv d.
Proof.
  intros Hw Ht Ha Hf. unfold no_duplicates in *. bprop. split; rewrite ?Ha; cbn; try done.
  - constructor.
  - by intros a ?%elem_of_nil.
  - by intros t a _ ?%elem_of_nil.
  - by intros a b ?%elem_of_nil.
  - intros t fe Ht' E. rewrite forallb_forall in Hf. specialize (Hf t (proj1 (list_elem_of_In _ _) Ht')).
    unfold is_foreach in Hf. by rewrite E in Hf.
Qed.

Lemma ready_inv : inv ready_db.
Proof. apply inv_fresh; vm_compute; reflexivity. Qed.
