(* ===== verification/Templates.v ===== *)
(** * The catalogue of templates ([store.ts], [extension-ops.ts], [extension-handler.ts])

    Templates are rows of their own table, unique per organization, key and
    version.  They are created from a workflow ([createWorkflowTemplate]) or
    installed from a package's manifest ([installWorkflowTemplate], an upsert),
    listed, and deleted unless a draft or active workflow was made from them.
    [listActive] is the reader facet of the extension handler: which templates of
    installed packages an actor may discover. *)

From S2P Require Import Prelude Json Time Spec Limits Validate Transitions Gates Store Hoare Ops Drafts Access Bpmn Manifest.
From S2P Require Import Evolution Sample.
Open Scope Z_scope.

(** ** The table *)

Record TemplateInput := {
  ti_key : string; ti_version : Z; ti_name : string; ti_description : option string; ti_definition : WorkflowSpec;
  ti_origin : option json; ti_visibility : option string; ti_packageName : option string;
  ti_createdBy : option string; ti_ownerLevel : option string; ti_ownerId : option string; ti_orgId : string;
  ti_projectId : option string
}.

(** The unique index [workflow_template_org_key_version_uniq]. *)
Definition template_key (t : TemplateRow) : string * string * Z := (wt_orgId t, wt_key t, wt_version t).

Definition template_insertable (r : TemplateRow) (d : DB) : bool :=
  negb (existsb (λ t, wt_id t ≟ wt_id r) (db_template d)).

Definition template_taken (k : string * string * Z) (d : DB) : bool :=
  existsb (λ t, template_key t ≟ k) (db_template d).

Definition insert_template (r : TemplateRow) : M unit :=
  guarded (λ d, template_insertable r d && negb (template_taken (template_key r) d)) "workflow_template"
    (λ d, with_template d (db_template d ++ [r])).

(** The columns [ON CONFLICT (org_id, key, version) DO UPDATE] sets. *)
Definition template_updated (r : TemplateRow) (updatedAt : Z) (t : TemplateRow) : TemplateRow := {|
  wt_id := wt_id t; wt_key := wt_key t; wt_version := wt_version t; wt_name := wt_name r;
  wt_description := wt_description r; wt_definition := wt_definition r; wt_ownerLevel := wt_ownerLevel t;
  wt_ownerId := wt_ownerId t; wt_orgId := wt_orgId t; wt_projectId := wt_projectId t; wt_origin := wt_origin t;
  wt_visibility := wt_visibility t; wt_packageName := wt_packageName r; wt_createdBy := wt_createdBy t;
  wt_createdAt := wt_createdAt t; wt_updatedAt := updatedAt |}.

(** The row the statement returns. *)
Definition upsert_template (r : TemplateRow) (updatedAt : Z) : M TemplateRow :=
  old ← gets (λ d, List.find (λ t, template_key t ≟ template_key r) (db_template d));
  match old with
  | Some t =>
      modify (λ d, with_template d (set_where (λ t, template_key t ≟ template_key r)
                                      (template_updated r updatedAt) (db_template d)));;
      mret (template_updated r updatedAt t)
  | None =>
      guarded (template_insertable r) "workflow_template" (λ d, with_template d (db_template d ++ [r]));;
      mret r
  end.

Record InstallScope := {
  is_orgId : string; is_ownerLevel : option string; is_ownerId : option string; is_createdBy : option string;
  is_sourcePackage : option string
}.

Section catalogue.
Context `{Runtime}.

Definition createWorkflowTemplate (input : TemplateInput) : M TemplateRow :=
  i ← fresh_id "wft"; now ← new_Date;
  let row := {| wt_id := i; wt_key := ti_key input; wt_version := ti_version input; wt_name := ti_name input;
    wt_description := ti_description input; wt_definition := rt_jsonb (WorkflowSpec_json (ti_definition input));
    wt_ownerLevel := ti_ownerLevel input; wt_ownerId := ti_ownerId input; wt_orgId := ti_orgId input;
    wt_projectId := ti_projectId input; wt_origin := rt_jsonb <$> sql_json (ti_origin input);
    wt_visibility := ti_visibility input; wt_packageName := ti_packageName input;
    wt_createdBy := ti_createdBy input; wt_createdAt := now; wt_updatedAt := now |} in
  insert_template row;; mret row.

Definition install_origin (sourcePackage : option string) : json :=
  match truthy_str sourcePackage with
  | Some p => JObj [("source", JStr "marketplace"); ("package", JStr p)]
  | None => JObj [("source", JStr "marketplace")]
  end.

Definition materializeTemplateFromManifest (manifest : WorkflowTemplateManifest) (scope : InstallScope)
    : M TemplateRow :=
  i ← fresh_id "wft"; updatedAt ← new_Date; now ← new_Date;
  upsert_template {| wt_id := i; wt_key := mf_key manifest; wt_version := mf_version manifest;
    wt_name := mf_name manifest; wt_description := mf_description manifest;
    wt_definition := rt_jsonb (WorkflowSpec_json (mf_definition manifest));
    wt_ownerLevel := Some (is_ownerLevel scope ?? "organization");
    wt_ownerId := Some (is_ownerId scope ?? is_orgId scope); wt_orgId := is_orgId scope; wt_projectId := None;
    wt_origin := Some (rt_jsonb (install_origin (is_sourcePackage scope))); wt_visibility := Some "workspace";
    wt_packageName := is_sourcePackage scope; wt_createdBy := is_createdBy scope; wt_createdAt := now;
    wt_updatedAt := now |} updatedAt.
End catalogue.

Definition readWorkflowTemplate (templateId : string) : M (option TemplateRow) :=
  gets (λ d, List.find (λ t, wt_id t ≟ templateId) (db_template d)).

Definition listWorkflowTemplates (orgId : string) : M (list TemplateRow) :=
  gets (λ d, List.filter (λ t, wt_orgId t ≟ orgId) (db_template d)).

Definition listWorkflowTemplatesForOrgIds (orgIds : list string) : M (list TemplateRow) :=
  match orgIds with
  | [] => mret []
  | _ => gets (λ d, List.filter (λ t, bool_decide (wt_orgId t ∈ orgIds)) (db_template d))
  end.

Definition findWorkflowTemplate (orgId key : string) (version : Z) : M (option TemplateRow) :=
  gets (λ d, List.find (λ t, (wt_orgId t ≟ orgId) && (wt_key t ≟ key) && (wt_version t =? version)) (db_template d)).

(** [inArray(workflow.status, ["draft", "active"])]. *)
Definition live_workflow (w : WorkflowRow) : bool := (wr_status w ≟ ws_draft) || (wr_status w ≟ ws_active).

Definition made_from (templateId : string) (w : WorkflowRow) : bool :=
  wd_sourceTemplateId (wr_def w) ≟ Some templateId.

Definition in_use (templateId : string) (d : DB) : bool :=
  existsb (λ w, made_from templateId w && live_workflow w) (db_workflow d).

Definition isTemplateInUse (templateId : string) : M bool := gets (in_use templateId).

Definition arePackageTemplatesInUse (orgId packageName : string) : M bool :=
  gets (λ d, existsb (λ w, existsb (λ t, made_from (wt_id t) w && (wt_orgId t ≟ orgId)
                                         && (wt_packageName t ≟ Some packageName) && live_workflow w)
                             (db_template d)) (db_workflow d)).

Definition deleteWorkflowTemplate (templateId : string) : M bool :=
  transaction (
    inUse ← isTemplateInUse templateId;
    if (inUse : bool) then mret false
    else modify (λ d, with_template d (List.filter (λ t, negb (wt_id t ≟ templateId)) (db_template d)));;
         mret true).

(** ** Installing a package's template *)

Record InstallDeps := {
  id_agentExists : option (AgentRef → string → M bool);
  id_approverResolvable : option (ApprovalScope → string → M bool)
}.

(** The first task a test refuses. *)
Fixpoint first_missing (test : TaskSpec → M bool) (tasks : list TaskSpec) : M (option TaskSpec) :=
  match tasks with
  | [] => mret None
  | t :: r => ok ← test t; if (ok : bool) then first_missing test r else mret (Some t)
  end.

Definition agent_available (f : AgentRef → string → M bool) (orgId : string) (t : TaskSpec) : M bool :=
  match t_body t with AgentTask a _ => f a orgId | _ => mret true end.

Definition approver_available (f : ApprovalScope → string → M bool) (orgId : string) (t : TaskSpec) : M bool :=
  match t_body t with ApprovalTask s _ _ _ => f s orgId | _ => mret true end.

(** A dependency that is not injected checks nothing. *)
Definition missing_agent (deps : InstallDeps) (orgId : string) (tasks : list TaskSpec) : M (option TaskSpec) :=
  match id_agentExists deps with Some f => first_missing (agent_available f orgId) tasks | None => mret None end.

Definition missing_approver (deps : InstallDeps) (orgId : string) (tasks : list TaskSpec) : M (option TaskSpec) :=
  match id_approverResolvable deps with
  | Some f => first_missing (approver_available f orgId) tasks
  | None => mret None
  end.

Section install.
Context `{Runtime} `{DateEnv} (safeParse : json → result (list ZodIssue) WorkflowSpec).
Context (manifestParse : json → result (list ZodIssue) WorkflowTemplateManifest).

(** The template's id, or the errors. *)
Definition installWorkflowTemplate (rawManifest : json) (scope : InstallScope) (deps : InstallDeps)
    : M (result (list string) string) :=
  match parseWorkflowTemplateManifest safeParse manifestParse rawManifest with
  | Err errors => mret (Err errors)
  | Ok m =>
      let tasks := w_tasks (mf_definition m) in
      agent ← missing_agent deps (is_orgId scope) tasks;
      match agent with
      | Some t => mret (Err ["Agent for task " +:+ quoted (t_key t) +:+ " is not available in this organization."])
      | None =>
          approver ← missing_approver deps (is_orgId scope) tasks;
          match approver with
          | Some t => mret (Err ["Approver scope for task " +:+ quoted (t_key t) +:+
                                 " cannot be resolved in this organization."])
          | None => row ← materializeTemplateFromManifest m scope; mret (Ok (wt_id row))
          end
      end
  end.
End install.

(** [archiveExtensionDashboards] of the host runs only when no live workflow was
    made from the package. *)
Definition workflowExtensionArchiveBlocked (templatesInUse : bool) : bool := templatesInUse.

Definition archiveWorkflowExtensionDashboards (archiveExtensionDashboards : M Z) (packageName : string)
    (userId orgId : option string) : M Z :=
  match truthy_str orgId, truthy_str userId with
  | Some o, Some _ =>
      inUse ← arePackageTemplatesInUse o packageName;
      if workflowExtensionArchiveBlocked inUse then
        throw (ex_host ("Cannot archive — a live workflow built from " +:+ packageName +:+
                        " still exists. Complete or cancel it first."))
      else archiveExtensionDashboards
  | _, _ => throw (ex_host "Missing organization context.")
  end.

(** ** Discovery ([extension-types/src/index.ts], [extension-handler.ts]) *)

Record ActiveExtensionManifest := {
  am_packageName : string; am_ownerLevel : string; am_ownerId : option string; am_organizationId : option string
}.

Record ExtensionDiscoveryScope := {
  ds_userId : option string; ds_organizationId : option string; ds_teamIds : list string;
  ds_projectIds : option (list string); ds_platformRole : option string
}.

(** [a != null && b != null && a === b]. *)
Definition same_present (a b : option string) : bool :=
  match a, b with Some x, Some y => x ≟ y | _, _ => false end.

Definition manifestVisibleToScope (manifest : ActiveExtensionManifest) (scope : ExtensionDiscoveryScope) : bool :=
  let level := am_ownerLevel manifest in
  if (level ≟ "platform") || (level ≟ "workspace") then true
  else if level ≟ "organization" then same_present (am_organizationId manifest) (ds_organizationId scope)
  else if level ≟ "team" then
    same_present (am_organizationId manifest) (ds_organizationId scope) &&
    match am_ownerId manifest with Some o => bool_decide (o ∈ ds_teamIds scope) | None => false end
  else if level ≟ "user" then same_present (am_ownerId manifest) (ds_userId scope)
  else false.

Definition visibleManifestPackageNames (manifests : list ActiveExtensionManifest) (scope : ExtensionDiscoveryScope)
    : list string :=
  dedup (map am_packageName (List.filter (λ m, manifestVisibleToScope m scope) manifests)).

Definition MAX_CROSS_ORG_FANOUT : nat := 100.

(** The active organization, or those of a platform administrator, capped. *)
Definition resolveDiscoveryOrgIds (scope : ExtensionDiscoveryScope)
    (orgListResolver : option (string → M (list string))) : M (list string) :=
  match truthy_str (ds_organizationId scope) with
  | Some o => mret [o]
  | None =>
      match (ds_platformRole scope ≟ Some "platform_admin"), orgListResolver, truthy_str (ds_userId scope) with
      | true, Some f, Some user =>
          resolved ← f user;
          mret (take MAX_CROSS_ORG_FANOUT (dedup (List.filter (λ o, negb (o ≟ "")) resolved)))
      | _, _, _ => mret []
      end
  end.

(** [{ ...scope, organizationId: orgId }]. *)
Definition with_org (scope : ExtensionDiscoveryScope) (orgId : string) : ExtensionDiscoveryScope := {|
  ds_userId := ds_userId scope; ds_organizationId := Some orgId; ds_teamIds := ds_teamIds scope;
  ds_projectIds := ds_projectIds scope; ds_platformRole := ds_platformRole scope |}.

Definition template_scope (t : TemplateRow) : ScopedRow := {|
  so_orgId := wt_orgId t; so_ownerLevel := wt_ownerLevel t; so_ownerId := wt_ownerId t;
  so_projectId := wt_projectId t |}.

(** The actor each row is checked for, in the row's own organization. *)
Definition discovery_actor (scope : ExtensionDiscoveryScope) (orgId : string) : WorkflowActor := {|
  wa_organizationId := Some orgId; wa_userId := ds_userId scope; wa_teamIds := Some (ds_teamIds scope);
  wa_projectIds := ds_projectIds scope; wa_orgRole := None; wa_platformRole := ds_platformRole scope |}.

Definition discoverable (scope : ExtensionDiscoveryScope) (manifests : list ActiveExtensionManifest)
    (t : TemplateRow) : bool :=
  match wt_packageName t with
  | Some p => bool_decide (p ∈ visibleManifestPackageNames manifests (with_org scope (wt_orgId t)))
  | None => false
  end && isReadable (template_scope t) (discovery_actor scope (wt_orgId t)).

Definition row_label (t : TemplateRow) : string := wt_orgId t +:+ "::" +:+ wt_id t.

Definition discovery_step (scope : ExtensionDiscoveryScope) (manifests : list ActiveExtensionManifest)
    (acc : list TemplateRow * list string) (t : TemplateRow) : list TemplateRow * list string :=
  if negb (discoverable scope manifests t) then acc
  else if bool_decide (row_label t ∈ acc.2) then acc
  else (acc.1 ++ [t], acc.2 ++ [row_label t]).

Definition listActive (orgListResolver : option (string → M (list string))) (scope : ExtensionDiscoveryScope)
    (manifests : list ActiveExtensionManifest) : M (list TemplateRow) :=
  orgIds ← resolveDiscoveryOrgIds scope orgListResolver;
  match orgIds with
  | [] => mret []
  | [o] => rows ← listWorkflowTemplates o; mret (foldl (discovery_step scope manifests) ([], []) rows).1
  | _ => rows ← listWorkflowTemplatesForOrgIds orgIds; mret (foldl (discovery_step scope manifests) ([], []) rows).1
  end.

(** ** The catalogue as a finite map *)

Notation catalogue := (gmap (string * string * Z) TemplateRow).

(** Ids and keys are unique: the primary key and the unique index. *)
Definition templates_ok (d : DB) : Prop :=
  NoDup (map wt_id (db_template d)) ∧ NoDup (map template_key (db_template d)).

Definition catalog_of (l : list TemplateRow) : catalogue := list_to_map (map (λ t, (template_key t, t)) l).

Definition catalog (d : DB) : catalogue := catalog_of (db_template d).

Lemma catalog_lookup l k t : NoDup (map template_key l) → catalog_of l !! k = Some t ↔ t ∈ l ∧ template_key t = k.
Proof.
  intros Hn. unfold catalog_of. rewrite <-elem_of_list_to_map.
  - rewrite list_elem_of_fmap. split; [intros (x & [= -> ->] & ?); auto|intros [? <-]; eauto].
  - rewrite map_map. exact Hn.
Qed.

Lemma find_unique {R K} `{EqDecision K} (f : R → K) k (l : list R) x :
  List.find (λ r, f r ≟ k) l = Some x → x ∈ l ∧ f x = k.
Proof. intros H. apply find_some in H as [Hin Hk]. apply list_elem_of_In in Hin. by bprop. Qed.

Lemma existsb_false {R} (p : R → bool) l : existsb p l = false ↔ ∀ x, x ∈ l → p x = false.
Proof.
  split.
  - intros He x Hx. destruct (p x) eqn:Ep; [|done].
    assert (existsb p l = true) by (apply existsb_exists; exists x; split; [by apply list_elem_of_In|done]). congruence.
  - intros Hp. destruct (existsb p l) eqn:E; [|done]. apply existsb_exists in E as (x & Hx & E).
    apply list_elem_of_In, Hp in Hx. congruence.
Qed.

Lemma catalog_snoc l r : template_key r ∉ map template_key l →
  catalog_of (l ++ [r]) = <[template_key r := r]> (catalog_of l).
Proof.
  intros Hk. unfold catalog_of. rewrite map_app, list_to_map_app. cbn. rewrite insert_empty.
  rewrite map_union_comm by (apply map_disjoint_singleton_r, not_elem_of_list_to_map_1; by rewrite map_map).
  by rewrite insert_union_singleton_l.
Qed.

Lemma snoc_NoDup {R K} (f : R → K) l r : NoDup (map f l) → f r ∉ map f l → NoDup (map f (l ++ [r])).
Proof.
  intros Hn Hr. rewrite map_app. apply NoDup_app. split_and!; [done| |apply NoDup_singleton].
  intros x Hx Hx'. cbn in Hx'. apply list_elem_of_singleton in Hx' as ->. done.
Qed.

Lemma insertable_spec r d :
  (template_insertable r d = true ↔ wt_id r ∉ map wt_id (db_template d)) ∧
  (template_taken (template_key r) d = false ↔ template_key r ∉ map template_key (db_template d)).
Proof.
  unfold template_insertable, template_taken. rewrite negb_true_iff, !existsb_false.
  rewrite !list_elem_of_fmap. split; split.
  - intros Hf (x & E & Hx). specialize (Hf x Hx). by bprop.
  - intros Hf x Hx. apply bool_decide_eq_false. intros E. apply Hf. eauto.
  - intros Hf (x & E & Hx). specialize (Hf x Hx). by bprop.
  - intros Hf x Hx. apply bool_decide_eq_false. intros E. apply Hf. eauto.
Qed.

Lemma set_where_keys (r : TemplateRow) now l :
  map template_key (set_where (λ t, template_key t ≟ template_key r) (template_updated r now) l)
    = map template_key l ∧
  map wt_id (set_where (λ t, template_key t ≟ template_key r) (template_updated r now) l) = map wt_id l.
Proof. by split; apply set_where_ids. Qed.

Lemma catalog_update (r t : TemplateRow) now l :
  NoDup (map template_key l) → t ∈ l → template_key t = template_key r →
  catalog_of (set_where (λ t, template_key t ≟ template_key r) (template_updated r now) l)
    = <[template_key r := template_updated r now t]> (catalog_of l).
Proof.
  intros Hn Ht Hk. apply map_eq. intros k. apply option_eq. intros x.
  rewrite catalog_lookup by (by rewrite (proj1 (set_where_keys r now l))).
  assert (∀ y, y ∈ l → template_key y = template_key r → y = t) as Huniq.
  { intros y Hy Hyk. eapply (inj Some).
    rewrite <-(proj2 (catalog_lookup l (template_key r) y Hn)), <-(proj2 (catalog_lookup l (template_key r) t Hn));
      auto. }
  unfold set_where. rewrite list_elem_of_fmap. split.
  - intros [(y & -> & Hy) Hx]. case_bool_decide as E.
    + rewrite (Huniq y Hy E). assert (k = template_key r) as -> by (rewrite <-Hx; exact E).
      by rewrite lookup_insert_eq.
    + rewrite lookup_insert_ne by congruence. by apply catalog_lookup.
  - intros Hx. destruct (decide (template_key r = k)) as [<-|Hne].
    + rewrite lookup_insert_eq in Hx. injection Hx as <-. split; [|done].
      exists t. by rewrite bool_decide_true.
    + rewrite lookup_insert_ne in Hx by done. apply catalog_lookup in Hx as [Hx <-]; [|done]. split; [|done].
      exists x. by rewrite bool_decide_false by congruence.
Qed.

Lemma catalog_delete i l : NoDup (map template_key l) →
  catalog_of (List.filter (λ t, negb (wt_id t ≟ i)) l) = filter (λ kt, wt_id kt.2 ≠ i) (catalog_of l).
Proof.
  intros Hn. apply map_eq. intros k. apply option_eq. intros x.
  rewrite map_lookup_filter_Some, !catalog_lookup; [|done|].
  - cbn. rewrite list_elem_of_In, filter_In, <-list_elem_of_In, negb_true_iff, bool_decide_eq_false. tauto.
  - by apply NoDup_map_filter.
Qed.

(** ** The operations refine a finite map *)

Inductive cat_op :=
  | op_create (input : TemplateInput)
  | op_install (manifest : WorkflowTemplateManifest) (scope : InstallScope)
  | op_delete (templateId : string).

Inductive cat_answer := ans_row (r : TemplateRow) | ans_deleted (b : bool).

(** Who owns a template and where it came from. *)
Definition same_identity (r t : TemplateRow) : Prop :=
  wt_id r = wt_id t ∧ wt_ownerLevel r = wt_ownerLevel t ∧ wt_ownerId r = wt_ownerId t ∧
  wt_projectId r = wt_projectId t ∧ wt_origin r = wt_origin t ∧ wt_visibility r = wt_visibility t ∧
  wt_createdBy r = wt_createdBy t.

Section refinement.
Context `{Runtime}.

Definition run_op (op : cat_op) : M cat_answer :=
  match op with
  | op_create input => r ← createWorkflowTemplate input; mret (ans_row r)
  | op_install manifest scope => r ← materializeTemplateFromManifest manifest scope; mret (ans_row r)
  | op_delete i => b ← deleteWorkflowTemplate i; mret (ans_deleted b)
  end.

(** What an operation promises of the catalogue: creating takes a free key,
    installing overwrites the content under its key and keeps the identity of the
    row it finds there, deleting removes a template no live workflow uses. *)
Definition cat_spec (used : string → bool) (c : catalogue) (op : cat_op) (a : cat_answer) (c' : catalogue) : Prop :=
  match op, a with
  | op_create input, ans_row r =>
      c !! template_key r = None ∧ c' = <[template_key r := r]> c ∧
      template_key r = (ti_orgId input, ti_key input, ti_version input) ∧ wt_name r = ti_name input ∧
      wt_definition r = rt_jsonb (WorkflowSpec_json (ti_definition input)) ∧
      wt_packageName r = ti_packageName input
  | op_install m scope, ans_row r =>
      let k := (is_orgId scope, mf_key m, mf_version m) in
      c' = <[k := r]> c ∧ template_key r = k ∧ wt_name r = mf_name m ∧
      wt_definition r = rt_jsonb (WorkflowSpec_json (mf_definition m)) ∧
      wt_packageName r = is_sourcePackage scope ∧
      match c !! k with
      | Some t => same_identity r t
      | None => wt_origin r = Some (rt_jsonb (install_origin (is_sourcePackage scope)))
      end
  | op_delete i, ans_deleted b =>
      b = negb (used i) ∧ c' = if b then filter (λ kt, wt_id kt.2 ≠ i) c else c
  | _, _ => False
  end.

(** Nothing but the catalogue changes. *)
Definition only_templates (d d' : DB) : Prop := d' = with_template d (db_template d').

Lemma template_added r d : templates_ok d →
  template_insertable r d = true → template_taken (template_key r) d = false →
  let d' := with_template d (db_template d ++ [r]) in
  catalog d !! template_key r = None ∧ catalog d' = <[template_key r := r]> (catalog d) ∧ templates_ok d' ∧
  only_templates d d'.
Proof.
  intros [Hid Hkey] Hi Hk. apply insertable_spec in Hi, Hk. split_and!; [|by apply catalog_snoc| |done].
  - apply not_elem_of_list_to_map_1. by rewrite map_map.
  - by split; apply snoc_NoDup.
Qed.

Lemma create_refines input d : templates_ok d →
  wp (createWorkflowTemplate input)
    (λ r d', cat_spec (λ i, in_use i d) (catalog d) (op_create input) (ans_row r) (catalog d') ∧
             templates_ok d' ∧ only_templates d d') (λ _ d', d' = d) d.
Proof.
  intros Hok. unfold createWorkflowTemplate. wps. unfold insert_template. wp1; [|done]. wps. bprop.
  match goal with |- context [ans_row ?row] => set (r := row) in * end.
  destruct (template_added r d Hok) as (Hn & Hc & Hok' & Ho); [done|done|]. cbn [cat_spec]. by rewrite Hc.
Qed.

Lemma install_refines m scope d : templates_ok d →
  wp (materializeTemplateFromManifest m scope)
    (λ r d', cat_spec (λ i, in_use i d) (catalog d) (op_install m scope) (ans_row r) (catalog d') ∧
             templates_ok d' ∧ only_templates d d') (λ _ d', d' = d) d.
Proof.
  intros Hok. unfold materializeTemplateFromManifest. wps. unfold upsert_template. wp1. wp1.
  match goal with |- context [template_updated ?row] => set (r := row) in * end.
  assert (template_key r = (is_orgId scope, mf_key m, mf_version m)) as Hkr by done.
  destruct (List.find _ _) as [t|] eqn:Hf.
  - apply find_unique in Hf as [Ht Hk]. destruct Hok as [Hid Hkey]. wps. cbn [cat_spec].
    rewrite <-Hkr. assert (catalog d !! template_key r = Some t) as -> by (by apply catalog_lookup).
    split_and!; try done.
    + by apply catalog_update.
    + split; cbn; [rewrite (proj2 (set_where_keys r _ _))|rewrite (proj1 (set_where_keys r _ _))]; done.
  - wps; [|done]. assert (template_taken (template_key r) d = false) as Hfree.
    { apply existsb_false. intros x Hx. by apply (find_none _ _ Hf x), list_elem_of_In. }
    destruct (template_added r d Hok) as (Hn & Hc & Hok' & Ho); [done|done|].
    cbn [cat_spec]. rewrite <-Hkr, Hn, Hc. done.
Qed.

Lemma delete_refines i d : templates_ok d →
  wp (deleteWorkflowTemplate i)
    (λ b d', cat_spec (λ i, in_use i d) (catalog d) (op_delete i) (ans_deleted b) (catalog d') ∧
             templates_ok d' ∧ only_templates d d') (λ _ d', d' = d) d.
Proof.
  intros Hok. unfold deleteWorkflowTemplate, isTemplateInUse. apply wp_transaction. wp1. wp1.
  destruct (in_use i d) eqn:Hu; wps; cbn [cat_spec]; rewrite Hu; [by destruct d|].
  split; [|split; [split; by apply NoDup_map_filter, Hok|done]]. split; [done|]. by apply catalog_delete, Hok.
Qed.

(** C18: Creating, installing and deleting a template are operations of a finite
    map keyed by organization, key and version: creating takes a free key,
    installing puts the manifest's content under its key and keeps the identity,
    ownership and origin of the template it replaces, deleting removes a template
    exactly when no draft or active workflow was made from it.  No other table
    changes, and an operation that throws changes nothing. *)
Theorem catalogue_refines op d : templates_ok d →
  wp (run_op op)
    (λ a d', cat_spec (λ i, in_use i d) (catalog d) op a (catalog d') ∧ templates_ok d' ∧ only_templates d d')
    (λ _ d', d' = d) d.
Proof.
  intros Hok. destruct op; cbn [run_op]; wp1.
  - eapply wp_conseq; [by apply create_refines|]. intros r d' Hr. by wps.
  - eapply wp_conseq; [by apply install_refines|]. intros r d' Hr. by wps.
  - eapply wp_conseq; [by apply delete_refines|]. intros b d' Hb. by wps.
Qed.
End refinement.

(** ** The install boundary *)

(** A host whose answers are a function of the reference and the organization. *)
Definition host_deps (agents : option (AgentRef → string → bool)) (approvers : option (ApprovalScope → string → bool))
    : InstallDeps := {|
  id_agentExists := (λ g a o, mret (g a o)) <$> agents;
  id_approverResolvable := (λ g a o, mret (g a o)) <$> approvers |}.

Lemma find_none_iff {A} (p : A → bool) l : List.find p l = None ↔ ∀ x, x ∈ l → p x = false.
Proof.
  split; [intros Hf x Hx; by apply (find_none _ _ Hf x), list_elem_of_In|]. intros Hp.
  destruct (List.find p l) as [x|] eqn:E; [|done]. apply find_some in E as [Hx E].
  rewrite (Hp x) in E; [done|by apply list_elem_of_In].
Qed.

(** Every reference of the tasks resolves in the organization. *)
Definition references_resolve (agents : option (AgentRef → string → bool))
    (approvers : option (ApprovalScope → string → bool)) (orgId : string) (tasks : list TaskSpec) : Prop :=
  ∀ t, t ∈ tasks → match t_body t with
                   | AgentTask a _ => ∀ g, agents = Some g → g a orgId = true
                   | ApprovalTask a _ _ _ => ∀ g, approvers = Some g → g a orgId = true
                   | _ => True
                   end.

Lemma wp_first_missing test (b : TaskSpec → bool) tasks (Q : option TaskSpec → DB → Prop) E d :
  (∀ t s, test t s = (s, Ok (b t))) → Q (List.find (λ t, negb (b t)) tasks) d → wp (first_missing test tasks) Q E d.
Proof.
  intros Ht. induction tasks as [|t r IH]; cbn; intros HQ; [by wps|]. wp1. intros n. rewrite Ht. cbn.
  cbn in HQ. destruct (b t); [by apply IH|by apply wp_ret].
Qed.

Definition agent_ok (agents : option (AgentRef → string → bool)) (orgId : string) (t : TaskSpec) : bool :=
  match agents, t_body t with Some g, AgentTask a _ => g a orgId | _, _ => true end.

Definition approver_ok (approvers : option (ApprovalScope → string → bool)) (orgId : string) (t : TaskSpec) : bool :=
  match approvers, t_body t with Some g, ApprovalTask a _ _ _ => g a orgId | _, _ => true end.

Lemma wp_missing_agent agents approvers orgId tasks (Q : option TaskSpec → DB → Prop) E d :
  Q (List.find (λ t, negb (agent_ok agents orgId t)) tasks) d →
  wp (missing_agent (host_deps agents approvers) orgId tasks) Q E d.
Proof.
  unfold missing_agent, host_deps. cbn. destruct agents as [g|]; cbn; intros HQ.
  - apply (wp_first_missing _ (agent_ok (Some g) orgId)); [|done]. intros t s. unfold agent_available, agent_ok.
    by destruct (t_body t).
  - apply wp_ret. by rewrite (proj2 (find_none_iff _ tasks)) in HQ.
Qed.

Lemma wp_missing_approver agents approvers orgId tasks (Q : option TaskSpec → DB → Prop) E d :
  Q (List.find (λ t, negb (approver_ok approvers orgId t)) tasks) d →
  wp (missing_approver (host_deps agents approvers) orgId tasks) Q E d.
Proof.
  unfold missing_approver, host_deps. cbn. destruct approvers as [g|]; cbn; intros HQ.
  - apply (wp_first_missing _ (approver_ok (Some g) orgId)); [|done]. intros t s.
    unfold approver_available, approver_ok. by destruct (t_body t).
  - apply wp_ret. by rewrite (proj2 (find_none_iff _ tasks)) in HQ.
Qed.

Lemma references_resolve_find agents approvers orgId tasks :
  references_resolve agents approvers orgId tasks ↔
  List.find (λ t, negb (agent_ok agents orgId t)) tasks = None ∧
  List.find (λ t, negb (approver_ok approvers orgId t)) tasks = None.
Proof.
  rewrite !find_none_iff. unfold references_resolve, agent_ok, approver_ok. split.
  - intros Hr. split; intros t Ht; specialize (Hr t Ht); apply negb_false_iff;
      [destruct agents as [g|]|destruct approvers as [g|]]; try done; destruct (t_body t); try done; by apply Hr.
  - intros [Ha Hp] t Ht. specialize (Ha t Ht). specialize (Hp t Ht). apply negb_false_iff in Ha, Hp.
    destruct (t_body t); try done; by intros g ->.
Qed.

Section boundary.
Context `{Runtime} `{DateEnv} (safeParse : json → result (list ZodIssue) WorkflowSpec).
Context (manifestParse : json → result (list ZodIssue) WorkflowTemplateManifest).

(** C34: Installing a package's template is all or nothing: an unacceptable
    manifest is answered with its errors, one that names an agent or an approver
    scope the consuming organization cannot resolve with one error, and in both
    cases, and when the insert throws, no table changes.  Otherwise the template
    is put into the catalogue of the consuming organization. *)
Theorem install_boundary agents approvers raw scope d : templates_ok d →
  wp (installWorkflowTemplate safeParse manifestParse raw scope (host_deps agents approvers))
    (λ r d', match parseWorkflowTemplateManifest safeParse manifestParse raw with
             | Err errors => r = Err errors ∧ d' = d
             | Ok m =>
                 (references_resolve agents approvers (is_orgId scope) (w_tasks (mf_definition m)) ∧
                  ∃ row, r = Ok (wt_id row) ∧
                    cat_spec (λ i, in_use i d) (catalog d) (op_install m scope) (ans_row row) (catalog d') ∧
                    templates_ok d' ∧ only_templates d d') ∨
                 (¬ references_resolve agents approvers (is_orgId scope) (w_tasks (mf_definition m)) ∧
                  (∃ e, r = Err [e]) ∧ d' = d)
             end)
    (λ _ d', d' = d) d.
Proof.
  intros Hok. unfold installWorkflowTemplate.
  destruct (parseWorkflowTemplateManifest _ _ _) as [m|errors]; [|by wps].
  wp1. apply wp_missing_agent. destruct (List.find (λ t, negb (agent_ok _ _ t)) _) as [t|] eqn:Ea.
  { wps. right. rewrite references_resolve_find, Ea. split; [by intros [? _]|eauto]. }
  wp1. apply wp_missing_approver. destruct (List.find (λ t, negb (approver_ok _ _ t)) _) as [t|] eqn:Ep.
  { wps. right. rewrite references_resolve_find, Ep. split; [by intros [_ ?]|eauto]. }
  wp1. eapply wp_conseq; [by apply install_refines|]. intros row d' Hr. wps. left.
  rewrite references_resolve_find. eauto.
Qed.
End boundary.

(** ** Discovery *)

(** The organizations an actor discovers templates in. *)
Definition discovery_orgs (scope : ExtensionDiscoveryScope) (orgs : list string) : Prop :=
  match truthy_str (ds_organizationId scope) with
  | Some o => orgs = [o]
  | None => orgs = [] ∨
            (ds_platformRole scope = Some "platform_admin" ∧ (length orgs <= MAX_CROSS_ORG_FANOUT)%nat ∧ NoDup orgs)
  end.

Lemma resolve_orgs scope f d : (∀ g, f = Some g → ∀ u, quiet (g u)) →
  wp (resolveDiscoveryOrgIds scope f) (λ orgs d', d' = d ∧ discovery_orgs scope orgs) (λ _ d', d' = d) d.
Proof.
  intros Hq. unfold resolveDiscoveryOrgIds, discovery_orgs. destruct (truthy_str (ds_organizationId scope)); [by wps|].
  case_bool_decide as Ha; [|by wps; auto]. destruct f as [g|]; [|by wps; auto].
  destruct (truthy_str (ds_userId scope)) as [u|]; [|by wps; auto]. wp1. apply wp_quiet; [by apply Hq| |done].
  intros orgs. wps. split; [done|]. right. split_and!; [done| |].
  - rewrite length_take. lia.
  - eapply sublist_NoDup; [apply dedup_NoDup|apply sublist_take].
Qed.

Lemma discovery_fold scope manifests rows : NoDup (map row_label rows) →
  foldl (discovery_step scope manifests) ([], []) rows =
    (List.filter (discoverable scope manifests) rows,
     map row_label (List.filter (discoverable scope manifests) rows)).
Proof.
  induction rows as [|t rows IH] using rev_ind; [done|]. rewrite map_app. intros (Hn & Hd & _)%NoDup_app.
  rewrite foldl_snoc, IH by done. rewrite List.filter_app. cbn. unfold discovery_step. cbn.
  destruct (discoverable scope manifests t); cbn; [|by rewrite app_nil_r]. rewrite bool_decide_false.
  - by rewrite map_app.
  - intros (u & E & Hu)%list_elem_of_fmap. apply (Hd (row_label t)); [|left].
    rewrite E. apply list_elem_of_fmap_2. by apply filter_in in Hu as [Hu _].
Qed.

(** Discovery shows exactly the templates of the actor's organizations whose
    package is live and visible to the actor there and whose row the actor may
    read, in the order of the table.  The organizations are the active one, or at
    most a hundred of a platform administrator's without one; nobody else without
    an active organization discovers anything. *)
Theorem listActive_spec f scope manifests d :
  (∀ g, f = Some g → ∀ u, quiet (g u)) → NoDup (map row_label (db_template d)) →
  wp (listActive f scope manifests)
    (λ out d', d' = d ∧ ∃ orgs, discovery_orgs scope orgs ∧
       out = List.filter (λ t, bool_decide (wt_orgId t ∈ orgs) && discoverable scope manifests t) (db_template d))
    (λ _ d', d' = d) d.
Proof.
  intros Hq Hn. unfold listActive. wp1. eapply wp_conseq; [by apply resolve_orgs|]. intros orgs d' [-> Ho].
  assert (∀ q, (∀ t, q t = bool_decide (wt_orgId t ∈ orgs)) →
    (foldl (discovery_step scope manifests) ([], []) (List.filter q (db_template d))).1 =
    List.filter (λ t, bool_decide (wt_orgId t ∈ orgs) && discoverable scope manifests t) (db_template d)) as Hall.
  { intros q Hqq. rewrite discovery_fold by (by apply NoDup_map_filter). cbn.
    induction (db_template d) as [|t l IH]; [done|]. cbn. rewrite <-Hqq. destruct (q t); cbn; [|apply IH].
    - destruct (discoverable scope manifests t); [f_equal|]; apply IH; by inversion Hn.
    - by inversion Hn. }
  destruct orgs as [|o [|o' r]].
  - wps. split; [done|]. exists []. split; [done|]. symmetry. apply filter_none. done.
  - unfold listWorkflowTemplates. wps. split; [done|]. exists [o]. split; [done|]. apply Hall. intros t.
    apply bool_decide_ext. by rewrite list_elem_of_singleton.
  - unfold listWorkflowTemplatesForOrgIds. wps. split; [done|]. exists (o :: o' :: r). split; [done|]. by apply Hall.
Qed.

(** A catalogue with one installed template, and a newer package of the same key. *)
Definition sample_template : TemplateRow := {|
  wt_id := "wft_1"; wt_key := "release"; wt_version := 1; wt_name := "Release"; wt_description := None;
  wt_definition := JNull; wt_ownerLevel := Some "organization"; wt_ownerId := Some "o1"; wt_orgId := "o1";
  wt_projectId := None; wt_origin := Some (JObj [("package", JStr "@acme/release-workflow")]);
  wt_visibility := Some "workspace"; wt_packageName := Some "@acme/release-workflow"; wt_createdBy := Some "u1";
  wt_createdAt := 0; wt_updatedAt := 0 |}.

Definition sample_catalogue : DB := with_template (sample_db ws_draft [] [] []) [sample_template].

Definition sample_manifest : WorkflowTemplateManifest := {|
  mf_key := "release"; mf_version := 1; mf_name := "Release 2"; mf_description := None;
  mf_definition := fork_join_spec |}.

Definition sample_scope : InstallScope := {|
  is_orgId := "o1"; is_ownerLevel := None; is_ownerId := None; is_createdBy := Some "u2";
  is_sourcePackage := Some "@other/release-workflow" |}.

Lemma sample_templates_ok : templates_ok sample_catalogue.
Proof. split; apply (bool_decide_unpack _); vm_compute; reflexivity. Qed.

Lemma catalogue_refines_witness :
  templates_ok sample_catalogue ∧
  wp (run_op (op_install sample_manifest sample_scope))
    (λ a d', cat_spec (λ i, in_use i sample_catalogue) (catalog sample_catalogue)
               (op_install sample_manifest sample_scope) a (catalog d') ∧ templates_ok d' ∧
             only_templates sample_catalogue d')
    (λ _ d', d' = sample_catalogue) sample_catalogue.
Proof.
  split; [apply sample_templates_ok|].
  apply (catalogue_refines (op_install sample_manifest sample_scope) sample_catalogue), sample_templates_ok.
Defined.

Definition agreed (r : result (list string) string) : bool := match r with Ok _ => true | Err _ => false end.

(** The host knows no agent and no approver; the manifest names none. *)
Lemma install_boundary_witness :
  let parse := λ _ : json, Ok (E := list ZodIssue) fork_join_spec in
  let mparse := λ _ : json, Ok (E := list ZodIssue) sample_manifest in
  let host := host_deps (Some (λ _ _, false)) (Some (λ _ _, false)) in
  parseWorkflowTemplateManifest parse mparse JNull = Ok sample_manifest ∧
  wp (installWorkflowTemplate parse mparse JNull sample_scope host)
    (λ r d', (agreed r = true → templates_ok d' ∧ only_templates sample_catalogue d') ∧
             (agreed r = false → d' = sample_catalogue))
    (λ _ d', d' = sample_catalogue) sample_catalogue.
Proof.
  intros parse mparse host.
  assert (parseWorkflowTemplateManifest parse mparse JNull = Ok sample_manifest) as Hp by (vm_compute; reflexivity).
  split; [exact Hp|]. eapply wp_conseq; [apply install_boundary, sample_templates_ok|]. cbn beta. rewrite Hp.
  intros r d' [(_ & row & -> & _ & Hok)|(_ & [e ->] & ->)]; split; intros Ha;
    [exact Hok|discriminate Ha|discriminate Ha|reflexivity].
Defined.

Definition sample_discovery : ExtensionDiscoveryScope := {|
  ds_userId := Some "u1"; ds_organizationId := Some "o1"; ds_teamIds := []; ds_projectIds := None;
  ds_platformRole := None |}.

Definition sample_live : list ActiveExtensionManifest := [{|
  am_packageName := "@acme/release-workflow"; am_ownerLevel := "organization"; am_ownerId := None;
  am_organizationId := Some "o1" |}].

Lemma listActive_spec_witness :
  discoverable sample_discovery sample_live sample_template = true ∧
  wp (listActive None sample_discovery sample_live) (λ out d', d' = sample_catalogue ∧ out = [sample_template])
    (λ _ d', d' = sample_catalogue) sample_catalogue.
Proof.
  split; [vm_compute; reflexivity|]. eapply wp_conseq.
  - apply (listActive_spec None sample_discovery sample_live sample_catalogue); [done|].
    apply (bool_decide_unpack _). vm_compute. reflexivity.
  - intros out d' (-> & orgs & Ho & ->). vm_compute in Ho. subst orgs. split; [done|]. vm_compute. reflexivity.
Defined.
