(* ===== verification/Settle.v ===== *)
(** * Leases, outcomes and retries

    Who may settle a dispatch, what a late or repeated answer does, and the
    retry budget of a task. *)

From S2P Require Import Prelude Json Time Spec Transitions Gates Resolver Store Hoare Evolution.
From S2P Require Import Ops ForeachReconciler Reconciler Lifecycle Sample.
Open Scope Z_scope.

Section leases.
Context `{Runtime} `{DateEnv}.
Implicit Types d : DB.

(** The lease [recordOutcomes] compares with. *)
Definition lease_of (d : DB) (taskId : string) : option LeaseRow :=
  first_where (λ l, le_taskId l ≟ taskId) (db_lease d).

Definition owns (d : DB) (c : ClaimedTask) : Prop :=
  ∃ l, lease_of d (tr_id (cl_task c)) = Some l ∧ le_token l = cl_leaseToken c.

#[global] Instance owns_dec d c : Decision (owns d c).
Proof.
  destruct (lease_of d (tr_id (cl_task c))) as [l|] eqn:El.
  - destruct (decide (le_token l = cl_leaseToken c)) as [E|E]; [left; by exists l|right].
    intros (l' & El' & Et). rewrite El in El'. by injection El' as <-.
  - right. intros (l & El' & _). by rewrite El in El'.
Defined.

Lemma record_not_owned wf now prov dead c o d :
  ¬ owns d c → wp (record_outcome wf now prov dead (c, o)) (λ r d', d' = d ∧ r = dead) any_exn d.
Proof.
  intros Hn. unfold record_outcome. cbn [fst snd]. wp1. wp1. fold (lease_of d (tr_id (cl_task c))).
  destruct (lease_of d _) as [l|] eqn:El; [|by wps].
  destruct (le_token l ≟ _) eqn:Et; bprop; [|by wps]. destruct Hn. by exists l.
Qed.

(** After an owned outcome the claim owns nothing. *)
Definition released (c : ClaimedTask) (d : DB) : Prop :=
  ∀ l, l ∈ db_lease d → le_taskId l = tr_id (cl_task c) → le_token l ≠ cl_leaseToken c.

Lemma released_not_owned c d : released c d → ¬ owns d c.
Proof. intros Hr (l & [Hl Hid]%find_some & Ht). bprop. apply (Hr l); [by apply list_elem_of_In|done..]. Qed.

Lemma wp_task_event_lease wf t kind p prov i l d :
  db_lease d = l → wp (task_event wf t kind p prov i) (λ _ d', db_lease d' = l) any_exn d.
Proof. intros Hl. unfold task_event, recordEvent. by wpr. Qed.

Lemma wp_failure_lease wf t n err now prov l d :
  db_lease d = l → wp (applyTaskFailure wf t n err now prov) (λ _ d', db_lease d' = l) any_exn d.
Proof.
  intros Hl. unfold applyTaskFailure. destruct (_ <? _); wpr;
    (eapply wp_conseq; [apply wp_task_event_lease; exact Hl|intros; by wps]).
Qed.

Lemma record_releases wf now prov dead c o d :
  owns d c → wp (record_outcome wf now prov dead (c, o)) (λ _ d', released c d') any_exn d.
Proof.
  intros (l & El & Et). unfold record_outcome. cbn [fst snd]. wp1. wp1. fold (lease_of d (tr_id (cl_task c))).
  rewrite El, bool_decide_true by done. cbn [negb].
  assert (Hrel : ∀ d', db_lease d' = List.filter (λ r, negb ((le_taskId r ≟ tr_id (cl_task c))
                   && (le_token r ≟ cl_leaseToken c))) (db_lease d) → released c d').
  { intros d' E r Hr Hid Htok. rewrite E in Hr. apply list_elem_of_In, filter_In in Hr as [_ Hr].
    by rewrite !bool_decide_true in Hr. }
  wp1. apply wp_modify. wp1. wp1. destruct (first_where _ _) as [cur|]; [|wps; by apply Hrel].
  destruct (negb _); [wps; by apply Hrel|]. wp1. unfold settle_attempt.
  eapply (wp_conseq _ (λ _ d', db_lease d' = List.filter (λ r, negb ((le_taskId r ≟ tr_id (cl_task c))
                   && (le_token r ≟ cl_leaseToken c))) (db_lease d))); [by wpr|].
  intros upd d' Hd. destruct (_ =? _)%nat; [wps; by apply Hrel|]. destruct (eo_status o).
  - wpr. eapply wp_conseq; [apply wp_task_event_lease; exact Hd|]. intros; wps. by apply Hrel.
  - wp1. eapply wp_conseq; [apply wp_failure_lease; exact Hd|]. intros; wps. by apply Hrel.
  - wp1. eapply wp_conseq; [apply wp_task_event_lease; exact Hd|]. intros; wps. by apply Hrel.
Qed.

Lemma run_record wf c o now prov s :
  st_db (recordOutcomes wf [(c, o)] now prov s).1 =
  match record_outcome wf now prov [] (c, o) s with (s', Ok _) => st_db s' | (_, Err _) => st_db s end.
Proof.
  unfold recordOutcomes, transaction. cbn [foldM]. unfold mbind, M_bind.
  destruct (record_outcome _ _ _ _ _ s) as [s' [a|e]]; done.
Qed.

(** An outcome whose claim no longer holds the task's lease is dropped: the
    tables stay as they are and nothing is dead-lettered. *)
Theorem stale_outcome_dropped wf c o now prov s :
  ¬ owns (st_db s) c →
  st_db (recordOutcomes wf [(c, o)] now prov s).1 = st_db s ∧
  (recordOutcomes wf [(c, o)] now prov s).2 = Ok [].
Proof.
  intros Hn. pose proof (wp_run _ _ _ _ (record_not_owned wf now prov [] c o (st_db s) Hn)) as Hw.
  assert (Hok : is_ok (record_outcome wf now prov [] (c, o) s).2 = true).
  { unfold record_outcome. cbn [fst snd]. unfold mbind, M_bind, gets. cbn.
    fold (lease_of (st_db s) (tr_id (cl_task c))). destruct (lease_of _ _) as [l|] eqn:El; [|done].
    destruct (le_token l ≟ _) eqn:Et; bprop; [|done]. destruct Hn. by exists l. }
  split; [rewrite run_record|unfold recordOutcomes, transaction; cbn [foldM]; unfold mbind, M_bind];
    destruct (record_outcome _ _ _ _ _ s) as [s' [a|e]]; try discriminate; destruct Hw as [Hw ->]; done.
Qed.

(** Outcomes are settled at most once: whatever the first recording of a
    claim's outcome did, recording any outcome of the same claim again changes
    nothing. *)
Theorem outcome_settled_once wf c o o' now now' prov prov' s :
  is_ok (recordOutcomes wf [(c, o)] now prov s).2 = true →
  let s1 := (recordOutcomes wf [(c, o)] now prov s).1 in
  st_db (recordOutcomes wf [(c, o')] now' prov' s1).1 = st_db s1.
Proof.
  intros Hok s1. subst s1.
  assert (Hn : ¬ owns (st_db (recordOutcomes wf [(c, o)] now prov s).1) c).
  { destruct (decide (owns (st_db s) c)) as [Ho|Ho].
    - pose proof (wp_run _ _ _ _ (record_releases wf now prov [] c o (st_db s) Ho)) as Hw.
      apply released_not_owned. rewrite run_record. unfold recordOutcomes, transaction in Hok. cbn [foldM] in Hok.
      unfold mbind, M_bind in Hok. destruct (record_outcome _ _ _ _ _ s) as [s' [a|e]]; [exact Hw|done].
    - pose proof (wp_run _ _ _ _ (record_not_owned wf now prov [] c o (st_db s) Ho)) as Hw.
      rewrite run_record. destruct (record_outcome _ _ _ _ _ s) as [s' [a|e]]; [destruct Hw as [-> _]|]; exact Ho. }
  rewrite run_record. pose proof (wp_run _ _ _ _ (record_not_owned wf now' prov' [] c o' _ Hn)) as Hw.
  destruct (record_outcome _ _ _ _ _ (recordOutcomes wf [(c, o)] now prov s).1) as [s' [a|e]]; [by destruct Hw|done].
Qed.

(** ** Takeover *)

Lemma takeOver_eq taskId tok s :
  let now := rt_clock (S (st_draws s)) in
  let p := λ l, (le_taskId l ≟ taskId) && (le_token l ≟ tok) && (le_expiresAt l <=? now) in
  ∃ f, (∀ l, le_taskId (f l) = le_taskId l ∧ le_token (f l) = rt_uuid (st_draws s)) ∧
  takeOverDispatchLease taskId tok s =
    ({| st_db := with_lease (st_db s) (set_where p f (db_lease (st_db s))); st_draws := S (S (st_draws s)) |},
     Ok (if (0 <? length (List.filter p (db_lease (st_db s))))%nat then Some (rt_uuid (st_draws s)) else None)).
Proof. eexists. split; [|unfold takeOverDispatchLease, update_lease, mbind, M_bind; cbn; by rewrite length_map]. done. Qed.

(** A lease is taken over only from a dispatcher whose lease has expired by
    the wall clock: an unexpired lease is left as it is; and a takeover, whose
    token is fresh, revokes the previous claim, so its late outcome is dropped. *)
Theorem takeover_spec taskId tok s :
  let now := rt_clock (S (st_draws s)) in
  ((∀ l, l ∈ db_lease (st_db s) → le_taskId l = taskId → le_token l = tok → now < le_expiresAt l) →
   (takeOverDispatchLease taskId tok s).2 = Ok None ∧
   db_lease (st_db (takeOverDispatchLease taskId tok s).1) = db_lease (st_db s)) ∧
  (∀ tok', (takeOverDispatchLease taskId tok s).2 = Ok (Some tok') → tok' ≠ tok →
   (∀ l l', l ∈ db_lease (st_db s) → l' ∈ db_lease (st_db s) → le_taskId l = le_taskId l' → l = l') →
   ∀ c, tr_id (cl_task c) = taskId → cl_leaseToken c = tok →
     ¬ owns (st_db (takeOverDispatchLease taskId tok s).1) c).
Proof.
  intros now. destruct (takeOver_eq taskId tok s) as (f & Hf & Heq). fold now in Heq.
  set (p := λ l, _) in Heq. rewrite Heq. cbn [fst snd st_db with_lease db_lease]. split.
  - intros Hlive. assert (Hp : ∀ l, l ∈ db_lease (st_db s) → p l = false).
    { intros l Hl. unfold p. destruct (le_taskId l ≟ taskId) eqn:E1, (le_token l ≟ tok) eqn:E2; bprop; try done.
      cbn. apply Z.leb_gt. auto. }
    rewrite filter_none, set_where_id by done. done.
  - intros tok' Htok Hne Huniq c Hc Hct (l & [Hl Hid]%find_some & Ht). bprop.
    apply list_elem_of_In, set_where_in in Hl as (l0 & Hl0 & ->). rewrite Hc in Hid. rewrite Hct in Ht.
    destruct (0 <? length (List.filter p _))%nat eqn:En; [|done]. injection Htok as <-.
    assert (∃ l1, l1 ∈ db_lease (st_db s) ∧ p l1 = true) as (l1 & Hl1 & Hp1).
    { destruct (List.filter p (db_lease (st_db s))) as [|l1 k] eqn:Ek; [done|]. exists l1. apply filter_in. rewrite Ek. left. }
    assert (l0 = l1) as ->.
    { apply Huniq; try done. unfold p in Hp1. bprop. destruct (p l0); [rewrite (proj1 (Hf l0)) in Hid|]; congruence. }
    rewrite Hp1 in Ht. rewrite (proj2 (Hf l1)) in Ht. done.
Qed.

(** ** The retry budget *)

(** Logging cannot fail: the workflow exists and the ids to come are new. *)
Definition can_log (s : St) (wf : string) : Prop :=
  has_workflow (st_db s) wf = true ∧
  ∀ n e, (st_draws s <= n)%nat → e ∈ db_event (st_db s) → er_id e ≠ "wevent_" +:+ rt_uuid n.

Lemma log_insertable s wf n r :
  can_log s wf → (st_draws s <= n)%nat → er_id r = "wevent_" +:+ rt_uuid n → er_workflowId r = wf →
  negb (existsb (λ x, er_id x ≟ er_id r) (db_event (st_db s))) && has_workflow (st_db s) (er_workflowId r) = true.
Proof.
  intros [Hw Hn] Hle Hid Hwf. rewrite Hwf, Hw, andb_true_r. apply negb_true_iff, not_true_iff_false.
  intros (e & He & E)%existsb_exists. bprop. apply (Hn n e); [done|by apply list_elem_of_In|congruence].
Qed.

Lemma recordEvent_runs d n k wf t key kind p prov i :
  can_log {| st_db := d; st_draws := n |} wf → (n <= k)%nat →
  ∃ d', recordEvent wf t key kind p prov i {| st_db := d; st_draws := k |} = ({| st_db := d'; st_draws := S (S k) |}, Ok ())
        ∧ db_task d' = db_task d.
Proof.
  intros Hl Hk. unfold recordEvent, fresh_id, insert_event, guarded, mbind, M_bind. cbn.
  set (r := Build_EventRow _ _ _ _ _ _ _ _ _ _).
  pose proof (log_insertable _ wf k r Hl Hk eq_refl eq_refl) as Hi.
  cbn [st_db r er_id er_workflowId] in Hi. unfold gets. cbn [st_db st_draws]. rewrite Hi. by eexists.
Qed.

Lemma event_then {A} d n k wf t kind p prov i (a : A) :
  can_log {| st_db := d; st_draws := n |} wf → (n <= k)%nat →
  ∃ m d', (task_event wf t kind p prov i;; mret a) {| st_db := d; st_draws := k |} =
            ({| st_db := d'; st_draws := m |}, Ok a) ∧ db_task d' = db_task d.
Proof.
  intros Hl Hk. destruct (recordEvent_runs d n k wf (Some (tr_id t)) (Some (tr_key t)) kind p prov i Hl Hk) as (d' & E & Et).
  exists (S (S k)), d'. unfold task_event, mbind, M_bind. by rewrite E.
Qed.

(** The retry rule. While the attempt number is below the budget
    ([max_attempts], 3 by default) a failed task is scheduled again after
    60 s doubled per attempt; the attempt that exhausts the budget dead-letters
    it. The one way to fail here is a due date outside the range of [Date]. *)
Theorem retry_or_dead_letter wf t n err now prov s :
  t ∈ db_task (st_db s) → can_log s wf →
  let r := applyTaskFailure wf t n err now prov s in
  let row status := ∃ q, q ∈ db_task (st_db r.1) ∧ tr_def q = tr_def t ∧ tr_status q = status ∧
                         tr_lockVersion q = tr_lockVersion t + 1 ∧
                         tr_dueAtUtc q = (if status ≟ ts_scheduled then Some (now + 60000 * 2 ^ Z.max 0 (n - 1))
                                          else tr_dueAtUtc t) in
  if n <? td_maxAttempts (tr_def t) ?? 3 then
    if Z.abs (now + 60000 * 2 ^ Z.max 0 (n - 1)) <=? max_time
    then r.2 = Ok [] ∧ row ts_scheduled
    else r.2 = Err (ex_range InvalidTimeValue) ∧ st_db r.1 = st_db s
  else r.2 = Ok [tr_id t] ∧ row ts_failed.
Proof.
  intros Ht Hlog r row. destruct s as [d k]. cbn [st_db] in *.
  assert (Hcas : task_cas (tr_id t) (tr_lockVersion t) t = true)
    by (unfold task_cas; by rewrite bool_decide_true, Z.eqb_refl).
  assert (Hlog' : ∀ l, can_log {| st_db := with_task d l; st_draws := k |} wf) by done.
  assert (Hrow : ∀ f, f t ∈ set_where (task_cas (tr_id t) (tr_lockVersion t)) f (db_task d)).
  { intros f. apply set_where_in. exists t. by rewrite Hcas. }
  assert (Hfin : ∀ f st dead, (∃ m d', applyTaskFailure wf t n err now prov {| st_db := d; st_draws := k |} =
        ({| st_db := d'; st_draws := m |}, Ok dead) ∧
        db_task d' = set_where (task_cas (tr_id t) (tr_lockVersion t)) f (db_task d)) →
      tr_def (f t) = tr_def t → tr_status (f t) = st → tr_lockVersion (f t) = tr_lockVersion t + 1 →
      tr_dueAtUtc (f t) = (if st ≟ ts_scheduled then Some (now + 60000 * 2 ^ Z.max 0 (n - 1)) else tr_dueAtUtc t) →
      r.2 = Ok dead ∧ row st).
  { intros f st dead (m & d' & E & Et) H1 H2 H3 H4. subst r row. rewrite E. cbn [fst snd st_db]. split; [done|].
    exists (f t). rewrite Et. split_and!; [apply Hrow|done..]. }
  destruct (n <? _) eqn:En.
  - destruct (Z.abs _ <=? max_time) eqn:Em.
    + eapply (Hfin (λ u, task_due (now + 60000 * 2 ^ Z.max 0 (n - 1)) (task_set ts_scheduled (tr_lockVersion t + 1) (rt_clock k) u)));
        try done. unfold applyTaskFailure, defaultMaxAttempts. rewrite En.
      change (retryBackoffMs n) with (60000 * 2 ^ Z.max 0 (n - 1)). unfold time_clip, toISOString. rewrite Em.
      apply (event_then (with_task d (set_where (task_cas (tr_id t) (tr_lockVersion t))
          (λ u, task_due (now + 60000 * 2 ^ Z.max 0 (n - 1)) (task_set ts_scheduled (tr_lockVersion t + 1) (rt_clock k) u))
          (db_task d))) k (S k) wf t "retry_scheduled"
        (JObj [("attemptNo", jint n); ("backoffMs", jint (60000 * 2 ^ Z.max 0 (n - 1)));
               ("nextDueAt", JStr (iso_text (now + 60000 * 2 ^ Z.max 0 (n - 1))))]) prov None []); [apply Hlog'|lia].
    + subst r row. unfold applyTaskFailure, defaultMaxAttempts. rewrite En.
      change (retryBackoffMs n) with (60000 * 2 ^ Z.max 0 (n - 1)). unfold time_clip, toISOString. rewrite Em. done.
  - eapply (Hfin (λ u, task_ended (rt_clock k) (task_set ts_failed (tr_lockVersion t + 1) (rt_clock (S k)) u))); try done.
    unfold applyTaskFailure, defaultMaxAttempts. rewrite En.
    apply (event_then (with_task d (set_where (task_cas (tr_id t) (tr_lockVersion t))
        (λ u, task_ended (rt_clock k) (task_set ts_failed (tr_lockVersion t + 1) (rt_clock (S k)) u)) (db_task d)))
      k (S (S k)) wf t "dead_lettered"
      (JObj [("attemptNo", jint n); ("error", err ?? JNull)]) prov None [tr_id t]); [apply Hlog'|lia].
Qed.
End leases.

(** ** Instances *)

(** The agent task is running under attempt 1, dispatched by the holder of the
    lease with token [tok1], which expires at time 500000. *)
Definition dispatched_db : DB :=
  let d := sample_db ws_active [plain_task "t2" "agent_task" ts_running] []
             [sample_attempt "a1" "t2" 1 as_running None] in
  with_lease d [{| le_id := "l1"; le_workflowId := "w1"; le_taskId := "t2"; le_attemptId := "a1";
    le_holderId := "p"; le_token := "tok1"; le_acquiredAt := 0; le_heartbeatAt := 0;
    le_expiresAt := 500000 |}].

Definition claim_with (token : string) : ClaimedTask := {|
  cl_task := plain_task "t2" "agent_task" ts_running; cl_attemptId := "a1"; cl_attemptNo := 1;
  cl_idempotencyKey := idempotency_key "w1" "t2" 1; cl_leaseToken := token |}.

Definition sample_actor : WorkflowExecutionActor := buildExecutionActor (wr_def (sample_workflow ws_active)).
Definition failed_outcome : ExecutorOutcome := outcome oc_failed None.

Lemma stale_outcome_dropped_witness :
  ¬ owns dispatched_db (claim_with "tok0") ∧
  st_db (recordOutcomes "w1" [(claim_with "tok0", failed_outcome)] 0 sample_actor (sample_st dispatched_db)).1
    = dispatched_db.
Proof.
  assert (Hn : ¬ owns dispatched_db (claim_with "tok0")).
  { intros (l & E & Et). vm_compute in E. injection E as <-. vm_compute in Et. discriminate Et. }
  split; [exact Hn|].
  exact (proj1 (stale_outcome_dropped "w1" (claim_with "tok0") failed_outcome 0 sample_actor (sample_st dispatched_db) Hn)).
Defined.

Definition recorded_once : St :=
  (recordOutcomes "w1" [(claim_with "tok1", failed_outcome)] 0 sample_actor (sample_st dispatched_db)).1.

Lemma outcome_settled_once_witness :
  map tr_status (db_task (st_db recorded_once)) = [ts_scheduled] ∧
  st_db (recordOutcomes "w1" [(claim_with "tok1", failed_outcome)] 9 sample_actor recorded_once).1
    = st_db recorded_once.
Proof.
  split; [vm_compute; reflexivity|].
  apply (outcome_settled_once "w1" (claim_with "tok1") failed_outcome failed_outcome 0 9 sample_actor sample_actor
           (sample_st dispatched_db)).
  vm_compute. reflexivity.
Defined.

Lemma takeover_spec_witness :
  ¬ owns (st_db (takeOverDispatchLease "t2" "tok1" (sample_st dispatched_db)).1) (claim_with "tok1").
Proof.
  apply (proj2 (takeover_spec "t2" "tok1" (sample_st dispatched_db)) "0").
  - vm_compute. reflexivity.
  - discriminate.
  - intros l l' Hl Hl' _. apply list_elem_of_singleton in Hl as ->. apply list_elem_of_singleton in Hl' as ->.
    reflexivity.
  - reflexivity.
  - reflexivity.
Defined.

Lemma retry_or_dead_letter_witness :
  (applyTaskFailure "w1" (plain_task "t2" "agent_task" ts_running) 2 None 0 sample_actor (sample_st dispatched_db)).2 = Ok [] ∧
  (applyTaskFailure "w1" (plain_task "t2" "agent_task" ts_running) 3 None 0 sample_actor (sample_st dispatched_db)).2 = Ok ["t2"].
Proof.
  assert (Hl : can_log (sample_st dispatched_db) "w1").
  { split; [vm_compute; reflexivity|]. intros n e _ He. exfalso. by apply elem_of_nil in He. }
  assert (Ht : plain_task "t2" "agent_task" ts_running ∈ db_task dispatched_db) by (left).
  split.
  - exact (proj1 (retry_or_dead_letter "w1" _ 2 None 0 sample_actor (sample_st dispatched_db) Ht Hl)).
  - exact (proj1 (retry_or_dead_letter "w1" _ 3 None 0 sample_actor (sample_st dispatched_db) Ht Hl)).
Defined.
