(* ===== verification/Engine.v ===== *)
(** * Every operation of the engine keeps the contract

    One lemma per pass of the reconciler, the fan-out reconciler and the
    lifecycle: from tables satisfying the dispatch invariant, the pass makes
    [step]s only.  The passes are then the transitions of [sys_step], in which
    claims wait for their outcomes and polls for their settlement while other
    passes run in between; the theorems hold in every reachable state. *)

From S2P Require Import Prelude Json Time Spec Limits Validate Transitions Gates Foreach Resolver Store Hoare Evolution.
From S2P Require Import Ops ForeachReconciler Reconciler Lifecycle.
Open Scope Z_scope.

Section effects.
Context `{Runtime} `{DateEnv}.
Implicit Types d : DB.

Lemma effect_recordEvent wf t k kind p prov i d : inv d → effect (recordEvent wf t k kind p prov i) d.
Proof. intros. unfold recordEvent. eff. Qed.

Lemma effect_task_event wf t kind p prov i d : inv d → effect (task_event wf t kind p prov i) d.
Proof. intros. by apply effect_recordEvent. Qed.

Lemma effect_foreach_event wf t k kind p d : inv d → effect (foreach_event wf t k kind p) d.
Proof. intros. unfold foreach_event. eff. Qed.

Lemma effect_lifecycle_event wf kind src t k a p d : inv d → effect (lifecycle_event wf kind src t k a p) d.
Proof. intros. unfold lifecycle_event. eff. Qed.

Lemma effect_persistGates wf t gates d : inv d → effect (persistGates wf t gates) d.
Proof. intros. unfold persistGates. eff. Qed.

Lemma effect_acquire wf t a d : inv d → effect (acquireDispatchLease wf t a) d.
Proof. intros. unfold acquireDispatchLease. eff. Qed.

Lemma effect_takeOver t tok d : inv d → effect (takeOverDispatchLease t tok) d.
Proof. intros. unfold takeOverDispatchLease. eff. Qed.

Lemma effect_heartbeat t tok d : inv d → effect (dispatchLeaseHeartbeat t tok) d.
Proof. intros. unfold dispatchLeaseHeartbeat. eff. Qed.

Lemma effect_persist_dependency m p dep d : inv d → effect (persist_dependency m p dep) d.
Proof. intros. unfold persist_dependency, resolveTaskIdByKey. eff. Qed.

Lemma effect_persist_approval p d : inv d → effect (persist_approval p) d.
Proof. intros. unfold persist_approval. eff. Qed.

Lemma effect_artifact b wf t k r s d : inv d → effect (insert_artifact_row b wf t k r s) d.
Proof. intros. unfold insert_artifact_row. eff. Qed.
End effects.

(** ** Claiming *)

(** Runs a side program inside a [wp]. *)
Tactic Notation "run_side" constr(lem) "as" ident(Hs) := apply lem; [eauto with engine|intros ? ? Hs|by intros].

Section claiming.
Context `{Runtime} `{DateEnv}.
Implicit Types d : DB.

(** What crash recovery makes of a row. *)
Definition recovered (t t' : TaskRow) : Prop :=
  t' = t ∨ (tr_status t = ts_running ∧ t' = task_set ts_scheduled (tr_lockVersion t + 1) (tr_updatedAt t) t).

Lemma coherent_set d d' t t' :
  coherent d t → evolves d d' → tr_id t' = tr_id t →
  (∀ r, r ∈ db_task d' → tr_id r = tr_id t → tr_lockVersion t' <= tr_lockVersion r ∧
     (tr_lockVersion r = tr_lockVersion t' → tr_def r = tr_def t' ∧ tr_status r = tr_status t')) →
  coherent d' t'.
Proof.
  intros Hc He Hid H1. split; rewrite Hid; [|done]. by apply (coherent_evolves d d').
Qed.

Lemma attempt_set_evolves st c e o z u a :
  live a → st ≠ as_pending → attempt_evolves a (attempt_set st c e o z u a).
Proof. intros Hl Hs. right. by split_and!. Qed.

(** The hit row of a compare-and-set on a coherent snapshot. *)
Lemma cas_evolves d t f r :
  coherent d t → r ∈ db_task d → task_cas (tr_id t) (tr_lockVersion t) r = true →
  isTerminalTaskStatus (tr_status t) = false →
  (∀ r, tr_def (f r) = tr_def r) → (∀ r, tr_lockVersion (f r) = tr_lockVersion t + 1) → task_evolves r (f r).
Proof.
  intros Hc Hr Hcas Ht Hd Hl. destruct (coherent_cas _ _ _ Hc Hr Hcas) as (_ & Es & El).
  right. split_and!; [auto|rewrite Hl, El; lia|]. rewrite Es, Ht. discriminate.
Qed.

Lemma running_not_terminal t : tr_status t = ts_running → isTerminalTaskStatus (tr_status t) = false.
Proof. by intros ->. Qed.

(** A key names its task. *)
Lemma idempotency_key_task wf t u n m : idempotency_key wf t n = idempotency_key wf u m → t = u.
Proof.
  unfold idempotency_key. intros E%(f_equal chars). rewrite !chars_app in E. cbn in E.
  apply app_inv_head in E. injection E as E. 
  apply chars_inj. eapply split_last; [apply (show_Z_colon n)|apply (show_Z_colon m)|]. exact E.
Qed.

(** What an attempt says of its task and its dispatch. *)
Definition slot (a : AttemptRow) : string * string := (at_taskId a, at_idempotencyKey a).

(** The rows of the other tasks are still there, and so are the attempts; the
    new ones are of this task. *)
Definition spares (wf : string) (t : TaskRow) (d d' : DB) : Prop :=
  (∀ r, r ∈ db_task d → tr_id r ≠ tr_id t → r ∈ db_task d') ∧
  ∃ new, map slot (db_attempt d') = map slot (db_attempt d) ++ new ∧
    ∀ x, x ∈ new → ∃ n, x = (tr_id t, idempotency_key wf (tr_id t) n).

Lemma spares_same wf t d d' : db_task d' = db_task d → db_attempt d' = db_attempt d → spares wf t d d'.
Proof.
  intros Et Ea. unfold spares. rewrite Et, Ea. split; [auto|]. exists []. rewrite app_nil_r.
  split; [done|]. by intros x ?%elem_of_nil.
Qed.

Lemma spares_side wf t d d' : side d d' → spares wf t d d'.
Proof. intros [_ (_ & ? & ?)]. by apply spares_same. Qed.

Lemma spares_trans wf t d d' d'' : spares wf t d d' → spares wf t d' d'' → spares wf t d d''.
Proof.
  intros (H1 & n1 & E1 & F1) (H2 & n2 & E2 & F2). split; [auto|]. exists (n1 ++ n2). rewrite E2, E1, app_assoc.
  split; [done|]. intros x [?|?]%elem_of_app; auto.
Qed.

(** The key of the next attempt of a task, unless it is taken already. *)
Definition next_key (wf : string) (t : TaskRow) (d : DB) : string :=
  idempotency_key wf (tr_id t)
    (Z.of_nat (length (List.filter (λ a, at_taskId a ≟ tr_id t) (db_attempt d))) + 1).
Definition waiting (wf : string) (t : TaskRow) (d : DB) : Prop :=
  t ∈ db_task d ∧ next_key wf t d ∉ map at_idempotencyKey (db_attempt d).

Lemma attempts_of_slots i l :
  length (List.filter (λ a, at_taskId a ≟ i) l) = length (List.filter (λ x, x.1 ≟ i) (map slot l)).
Proof. induction l as [|a l IH]; [done|]. cbn. destruct (at_taskId a ≟ i); cbn; by rewrite IH. Qed.

(** A task waits on while other tasks are dispatched. *)
Lemma waiting_spared wf t u d d' : tr_id t ≠ tr_id u → spares wf u d d' → waiting wf t d → waiting wf t d'.
Proof.
  intros Hne (Hrows & new & Ea & Hnew) [Ht Hk]. split; [by apply Hrows|]. revert Hk. unfold next_key.
  rewrite !attempts_of_slots, Ea, List.filter_app, length_app.
  assert (List.filter (λ x, x.1 ≟ tr_id t) new = []) as ->.
  { destruct (List.filter _ new) as [|x k] eqn:E; [done|]. exfalso.
    assert (Hx : x ∈ List.filter (λ x, x.1 ≟ tr_id t) new) by (rewrite E; left).
    apply filter_in in Hx as [Hx Hb]. destruct (Hnew x Hx) as [n ->]. by bprop. }
  cbn [length]. rewrite Nat.add_0_r. set (k := idempotency_key _ _ _).
  assert (Hs : ∀ d0, map at_idempotencyKey (db_attempt d0) = map snd (map slot (db_attempt d0)))
    by (intros d0; by rewrite map_map).
  rewrite !Hs, Ea, map_app. intros Hk [Hin|(x & E & Hx)%list_elem_of_fmap]%elem_of_app; [done|].
  destruct (Hnew x Hx) as [n ->]. by apply idempotency_key_task in E.
Qed.

Lemma map_slot_set p f l : (∀ a, slot (f a) = slot a) → map slot (set_where p f l) = map slot l.
Proof. intros Hf. induction l as [|a l IH]; [done|]. cbn. f_equal; [by destruct (p a)|exact IH]. Qed.

Lemma wp_recover wf cut prov t d :
  inv d → coherent d t →
  wp (recover_task wf cut prov t)
    (λ t' d', step d d' ∧ coherent d' t' ∧ recovered t t' ∧ spares wf t d d' ∧ (open_task t → d' = d)) any_exn d.
Proof.
  intros Hi Hc.
  assert (Hkeep : step d d ∧ coherent d t ∧ recovered t t ∧ spares wf t d d ∧ (open_task t → d = d))
    by (split_and!; [by apply step_refl|done|by left|by apply spares_same|done]).
  unfold recover_task.
  destruct (negb _ || negb _) eqn:E1; [by wps|]. destruct (is_foreach t); [by wps|].
  destruct (cut <=? _); [by wps|]. apply orb_false_iff in E1 as [E1 _]. bprop.
  wps; apply wp_raw_task.
  destruct (length _ =? 0)%nat eqn:E2; wps.
  { apply length_map_0, set_where_none with (f := task_set ts_scheduled (tr_lockVersion t + 1) a) in E2.
    rewrite E2, with_task_same. exact Hkeep. }
  apply wp_raw_attempt. cbn [db_attempt with_task].
  set (d1 := with_attempt _ _).
  assert (Hs1 : step d d1).
  { apply step_reset; [done| |].
    - intros r Hr Hcas. by eapply cas_evolves; eauto using running_not_terminal.
    - intros b Hb Hti Hl. split; [by apply attempt_set_evolves|discriminate]. }
  wps. run_side effect_delete_lease as S1; [apply Hs1|]. wps. run_side effect_task_event as S2.
  wps. assert (Hs2 : step d d'0) by (eapply step_trans; [exact Hs1|]; eapply step_trans; [apply S1|apply S2]).
  split; [done|]. split; [|split; [by right|split; [|by intros [Ho|Ho]; rewrite Ho in *]]].
  2:{ assert (He : db_task d'0 = db_task d1 ∧ db_attempt d'0 = db_attempt d1)
        by (destruct S1 as [_ (?&?&?)], S2 as [_ (?&?&?)]; split; congruence).
      destruct He as [Et Ea]. split.
      - intros r Hr Hn. rewrite Et. apply set_where_in. exists r. split; [done|].
        unfold task_cas. by rewrite bool_decide_false.
      - exists []. rewrite Ea, app_nil_r. split; [by apply map_slot_set|]. by intros x ?%elem_of_nil. }
  apply (coherent_set d d'0 t); [done|apply Hs2|done|].
  intros r Hr Hid. assert (Et : db_task d'0 = db_task d1) by (destruct S1 as [_ (?&?&?)], S2 as [_ (?&?&?)]; congruence).
  rewrite Et in Hr. apply set_where_in in Hr as (q & Hq & ->).
  assert (Hid' : tr_id q = tr_id t) by (by destruct (task_cas _ _ q)).
  destruct Hc as [_ Hc']. destruct (Hc' q Hq Hid') as [Hle Heq].
  unfold task_cas. rewrite Hid', bool_decide_true by done. cbn.
  destruct (tr_lockVersion q =? tr_lockVersion t) eqn:El; cbn; bprop.
  - split; [lia|]. intros _. by destruct (Heq El).
  - destruct (length_map_pos _ _ _ E2) as (q0 & Hq0 & Hc0). unfold task_cas in Hc0. bprop.
    destruct El. by rewrite (row_unique tr_id (db_task d) q q0); [|apply Hi|..|congruence].
Qed.

(** The claim names an attempt of its own task. *)
Definition claim_ok (d : DB) (c : ClaimedTask) : Prop :=
  ∃ a, a ∈ db_attempt d ∧ at_id a = cl_attemptId c ∧ at_taskId a = tr_id (cl_task c).

Lemma claim_ok_evolves d d' c : evolves d d' → claim_ok d c → claim_ok d' c.
Proof.
  intros He (a & Ha & Hid & Hti). destruct (extends_new _ _ _ _ _ (ev_attempt _ _ He) Ha) as (a' & Ha' & Hr).
  exists a'. split; [done|]. destruct Hr as [->|(-> & _ & -> & _)]; done.
Qed.

Lemma latest_attempt_in l a : latest_attempt l = Some a → a ∈ l.
Proof.
  unfold latest_attempt. assert (Hgo : ∀ l b, foldl (λ best a, match best with
    | Some b => if at_attemptNo b <? at_attemptNo a then Some a else best | None => Some a end) b l = Some a →
    b = Some a ∨ a ∈ l).
  { clear l. induction l as [|x l IH]; intros b; cbn; [by left|]. intros [E|?]%IH; [|right; by right].
    destruct b as [b|]; [case_match|]; naive_solver (by left). }
  intros [?|?]%Hgo; done.
Qed.

Lemma first_where_in {R} (p : R → bool) l x : first_where p l = Some x → x ∈ l ∧ p x = true.
Proof. intros H1%find_some. by rewrite list_elem_of_In. Qed.

(** The claims a loop adds, and what each of them satisfies. *)
Definition adds (P : ClaimedTask → DB → Prop) (d : DB) (claimed claimed' : list ClaimedTask) (d' : DB) : Prop :=
  step d d' ∧ ∃ new, claimed' = claimed ++ new ∧ ∀ c, c ∈ new → claim_ok d' c ∧ P c d'.

Lemma adds_none P d claimed : inv d → adds P d claimed claimed d.
Proof.
  split; [by apply step_refl|]. exists []. rewrite app_nil_r. split; [done|]. intros c Hc. by apply elem_of_nil in Hc.
Qed.

Lemma adds_side P d d' claimed : side d d' → adds P d claimed claimed d'.
Proof.
  intros [Hs _]. split; [done|]. exists []. rewrite app_nil_r. split; [done|]. intros c Hc. by apply elem_of_nil in Hc.
Qed.

Lemma adds_one (P : ClaimedTask → DB → Prop) d d' claimed c :
  step d d' → claim_ok d' c → P c d' → adds P d claimed (claimed ++ [c]) d'.
Proof. split; [done|]. exists [c]. split; [done|]. by intros x ->%list_elem_of_singleton. Qed.

(** A reclaimed dispatch: the live attempt of a running agent task. *)
Definition is_reclaim (t : TaskRow) (c : ClaimedTask) : Prop :=
  cl_task c = t ∧ tr_status t = ts_running ∧ tr_type t = "agent_task" ∧ is_foreach t = false.

Lemma wp_reclaim wf prov claimed t d :
  inv d →
  wp (reclaim_task wf prov claimed t) (λ l d', adds (λ c _, is_reclaim t c) d claimed l d') any_exn d.
Proof.
  intros Hi. assert (Hkeep : adds (λ c _, is_reclaim t c) d claimed claimed d) by by apply adds_none.
  unfold reclaim_task. destruct (_ <=? _)%nat; [by wps|].
  destruct (negb _ || _ || _) eqn:E; [by wps|]. apply orb_false_iff in E as [E Hf]. apply orb_false_iff in E as [Es Et].
  bprop. wps; try exact Hkeep. run_side effect_takeOver as S1.
  destruct a1; wps; [|by apply adds_side]. run_side effect_task_event as S2. wps.
  apply latest_attempt_in, filter_in in Heqo as [Ha Hp]. bprop.
  apply adds_one; [eapply step_trans; [apply S1|apply S2]| |by split_and!].
  apply (claim_ok_evolves d); [etrans; [apply S1|apply S2]|]. exists a. by split_and!.
Qed.

(** A fresh claim of an open task. *)
Definition is_dispatch (wf : string) (t : TaskRow) (c : ClaimedTask) (d' : DB) : Prop :=
  cl_task c = task_set ts_running (tr_lockVersion t + 1) (tr_updatedAt t) t ∧
  cl_idempotencyKey c = idempotency_key wf (tr_id t) (cl_attemptNo c) ∧
  ∃ r, r ∈ db_task d' ∧ tr_id r = tr_id t ∧ tr_status r = ts_running ∧ tr_lockVersion r = tr_lockVersion t + 1.

Lemma existsb_id_fresh {R} (id : R → string) (p : R → bool) l i :
  existsb p l = false → (∀ x, id x = i → p x = true) → i ∉ map id l.
Proof.
  intros E Hp (x & -> & Hx)%list_elem_of_fmap. apply not_true_iff_false in E. apply E, existsb_exists.
  exists x. split; [by apply list_elem_of_In|auto].
Qed.

Lemma existsb_in {R} (id : R → string) l i : existsb (λ x, id x ≟ i) l = true → i ∈ map id l.
Proof. intros (x & Hx%list_elem_of_In & E)%existsb_exists. bprop. subst. by apply list_elem_of_fmap_2. Qed.

Lemma filter_snoc_fresh l a : at_id a ∉ map at_id l → List.filter (λ r, negb (at_id r ≟ at_id a)) (l ++ [a]) = l.
Proof.
  intros Hn. rewrite List.filter_app. cbn. rewrite bool_decide_true by done. cbn. rewrite app_nil_r.
  induction l as [|x l IH]; [done|]. cbn in *. rewrite not_elem_of_cons in Hn. destruct Hn.
  rewrite bool_decide_false by done. cbn. f_equal. auto.
Qed.

Lemma wp_insert_attempt r (Q : list string → DB → Prop) (E : exn → DB → Prop) d :
  (at_idempotencyKey r ∈ map at_idempotencyKey (db_attempt d) → Q [] d) →
  (at_id r ∉ map at_id (db_attempt d) → Q [at_id r] (with_attempt d (db_attempt d ++ [r]))) →
  (∀ e, E e d) → wp (insert_attempt r) Q E d.
Proof.
  intros H1 H2 H3. unfold insert_attempt. wps; [by eapply H1, existsb_in| |apply H3]. apply H2.
  unfold attempt_insertable in *. bprop. eapply existsb_id_fresh; [eassumption|].
  cbn. intros x Hx. by rewrite bool_decide_true.
Qed.

Lemma cas_hits t d : t ∈ db_task d → t ∈ List.filter (task_cas (tr_id t) (tr_lockVersion t)) (db_task d).
Proof. intros Ht. apply filter_in. split; [done|]. unfold task_cas. rewrite bool_decide_true by done. apply Z.eqb_refl. Qed.

Lemma wp_dispatch cx claimed t d :
  inv d → coherent d t → open_task t →
  wp (dispatch_task cx claimed t)
    (λ l d', adds (is_dispatch (cx_wfId cx) t) d claimed l d' ∧ spares (cx_wfId cx) t d d' ∧
       (waiting (cx_wfId cx) t d → length l = S (length claimed))) any_exn d.
Proof.
  intros Hi Hc Ho. unfold dispatch_task. do 6 wp1. cbv beta.
  do 6 wp1. set (n := Z.of_nat _ + 1).
  set (att := Build_AttemptRow _ _ _ _ _ _ _ _ _ _ _ _).
  apply wp_insert_attempt; 
    [intros Hdup; cbn [length Nat.eqb]; wps; split_and!; [by apply adds_none|by apply spares_same|by intros [_ []]]
    |intros Hfresh|done].
  cbn [length Nat.eqb].
  assert (Hnt : isTerminalTaskStatus (tr_status t) = false) by (by destruct Ho as [-> | ->]).
  set (d1 := with_attempt d _).
  wp1. apply (wp_conseq _ (λ _ d', d' = d1)); [destruct (tr_actualStartUtc t); by wps|]. intros start d' ->.
  wp1. wp1. wp1. apply wp_raw_task. cbn [db_task d1 with_attempt].
  set (f := λ u, task_started _ _).
  destruct (length _ =? 0)%nat eqn:E2; wps.
  { apply length_map_0 in E2. pose proof (cas_hits t d) as Hmiss. rewrite E2 in Hmiss.
    apply set_where_none with (f := f) in E2. unfold delete_attempt. wps.
    rewrite E2. unfold d1, with_attempt, with_task; cbn -[f].
    match goal with |- context [List.filter ?p (db_attempt d ++ [att])] =>
      replace (List.filter p (db_attempt d ++ [att])) with (db_attempt d)
        by (symmetry; exact (filter_snoc_fresh _ att Hfresh)) end. destruct d.
    split_and!; [by apply adds_none|by apply spares_same|intros [Hin _]; by apply Hmiss, elem_of_nil in Hin]. }
  destruct (length_map_pos _ _ _ E2) as (r0 & Hr0 & Hc0).
  set (d2 := with_task d1 _).
  assert (Hs : step d d2).
  { apply step_dispatch; try done.
    - apply Hc.
    - intros r Hr Hcas. destruct (coherent_cas _ _ _ Hc Hr Hcas) as (_ & Es & _). split_and!.
      + unfold open_task. by rewrite Es.
      + by eapply cas_evolves.
      + by intros [|].
    - by exists r0. }
  run_side effect_acquire as S1; [apply Hs|]. wps. run_side effect_task_event as S2. wps.
  assert (Hs2 : step d2 d'0) by (eapply step_trans; [apply S1|apply S2]).
  assert (Et : db_task d'0 = db_task d2) by (destruct S1 as [_ (?&?&?)], S2 as [_ (?&?&?)]; congruence).
  split_and!; [apply adds_one; [by eapply step_trans| |]| |].
  - apply (claim_ok_evolves d2); [apply Hs2|]. exists att. split_and!; [|done..]. cbn. apply elem_of_app. right. by left.
  - split_and!; [done..|].
    exists (f r0). rewrite Et. split.
    { cbn [d2 with_task db_task]. apply set_where_in. exists r0. by rewrite Hc0. }
    unfold task_cas in Hc0. by bprop.
  - split.
    + intros r Hr Hn. rewrite Et. apply set_where_in. exists r. split; [done|].
      unfold task_cas. by rewrite bool_decide_false.
    + exists [slot att]. assert (db_attempt d'0 = db_attempt d ++ [att]) as ->
        by (destruct S1 as [_ (?&?&?)], S2 as [_ (?&?&?)]; cbn in *; congruence).
      rewrite map_app. split; [done|]. intros x ->%list_elem_of_singleton. by exists n.
  - intros _. rewrite length_app. cbn. lia.
Qed.

(** A task the claim loop found ready. *)
Definition ready (cx : ClaimCtx) (t : TaskRow) : Prop :=
  open_task t ∧ is_foreach t = false ∧
  isDispatchable (gateContextFor t (cx_deps cx) (cx_status cx) (cx_key cx) (cx_approval cx) (cx_now cx)) = true.

Lemma wp_claim_task cx claimed t d :
  inv d → coherent d t →
  wp (claim_task cx claimed t)
    (λ l d', adds (λ c d', ready cx t ∧ is_dispatch (cx_wfId cx) t c d') d claimed l d' ∧ spares (cx_wfId cx) t d d' ∧
       (ready cx t → waiting (cx_wfId cx) t d → (length claimed < dispatchBatchCap)%nat →
        length l = S (length claimed))) any_exn d.
Proof.
  intros Hi Hc. unfold claim_task.
  assert (Hkeep : ∀ (X : Prop), X → adds (λ c d', ready cx t ∧ is_dispatch (cx_wfId cx) t c d') d claimed claimed d ∧
    spares (cx_wfId cx) t d d ∧ X) by (intros X HX; split; [by apply adds_none|split; [by apply spares_same|exact HX]]).
  destruct (_ <=? _)%nat eqn:Ecap; [apply wp_ret, Hkeep; intros _ _ ?; apply Nat.leb_le in Ecap; lia|].
  destruct (negb _ && negb _) eqn:Eo.
  { apply wp_ret, Hkeep. apply andb_true_iff in Eo as [E1 E2]. intros ([Es|Es] & _); rewrite Es in *; discriminate. }
  destruct (is_foreach t) eqn:Ef; [apply wp_ret, Hkeep; intros (_ & E & _); congruence|].
  wp1. run_side effect_persistGates as S1.
  assert (Hoth : spares (cx_wfId cx) t d d') by by apply spares_side.
  destruct (negb (ev_state _ ≟ _)) eqn:Eg.
  { wps. split_and!; [by apply adds_side|done|]. intros (_ & _ & Hg). unfold isDispatchable in Hg.
    by rewrite Hg in Eg. }
  assert (Ho : open_task t) by (apply andb_false_iff in Eo as [E|E]; bprop; [by left|by right]).
  eapply wp_conseq; [apply wp_dispatch; [eauto with engine| |done]|].
  - eapply coherent_evolves; [|done]. by apply side_evolves.
  - intros l d'' ((Hs & new & -> & Hnew) & Hoth2 & Hgo). split_and!; [|by eapply spares_trans|].
    + split; [eapply step_trans; [apply S1|done]|]. exists new. split; [done|]. intros c Hcin.
      destruct (Hnew c Hcin) as [Hok Hd]. apply negb_false_iff in Eg. by split_and!.
    + intros _ [Hin Hkey] _. apply Hgo. destruct S1 as [_ (_ & Et & Ea)]. unfold waiting, next_key. by rewrite Et, Ea.
Qed.

Lemma Forall_coherent_evolves d d' l : evolves d d' → Forall (coherent d) l → Forall (coherent d') l.
Proof. intros He Hl. eapply Forall_impl; [exact Hl|]. intros t. by apply coherent_evolves. Qed.

Lemma recovered_id t t' : recovered t t' → tr_id t' = tr_id t.
Proof. by intros [->|[_ ->]]. Qed.

(** The claims of one pass, with their reasons, over the recovered rows. *)
Definition claim_reason (wf : string) (cx : ClaimCtx) (tasks : list TaskRow) (d : DB) (c : ClaimedTask) : Prop :=
  claim_ok d c ∧ ((∃ t, t ∈ tasks ∧ is_reclaim t c) ∨ (∃ t, t ∈ tasks ∧ ready cx t ∧ is_dispatch wf t c d)).

Lemma wp_recover_all wf cut prov tasks d :
  inv d → Forall (coherent d) tasks →
  wp (mapM (recover_task wf cut prov) tasks)
    (λ k d', (step d d' ∧ Forall (coherent d') k ∧ Forall2 recovered tasks k) ∧
       ∀ t, open_task t → (∀ x, x ∈ tasks → tr_id x = tr_id t → x = t) → waiting wf t d → waiting wf t d') any_exn d.
Proof.
  intros Hi Hc.
  eapply wp_conseq; [apply (wp_mapM _ (λ l k d', (step d d' ∧ Forall (coherent d') l ∧ Forall (coherent d') k ∧
    ∃ pre, tasks = pre ++ l ∧ Forall2 recovered pre k) ∧
    ∀ t, open_task t → (∀ x, x ∈ tasks → tr_id x = tr_id t → x = t) → waiting wf t d → waiting wf t d') _ _ [])|].
  - split; [|done]. split_and!; [by apply step_refl|done|constructor|by exists []].
  - intros x r k d' [(Hs & Hl & Hk & pre & -> & Hpre) Hw]. inversion Hl as [|? ? Hx Hr]; subst.
    eapply wp_conseq; [apply wp_recover; [apply Hs|done]|]. intros t' d'' (Hs' & Hc' & Hrec & Hoth & Hsame).
    assert (He : evolves d' d'') by apply Hs'. split; [split_and!|].
    + by eapply step_trans.
    + by eapply Forall_coherent_evolves.
    + apply Forall_app. split; [by eapply Forall_coherent_evolves|by apply Forall_singleton].
    + exists (pre ++ [x]). rewrite <- app_assoc. split; [done|]. apply Forall2_app; [done|by constructor].
    + intros t Ho Hu Hwt. specialize (Hw t Ho Hu Hwt).
      destruct (decide (tr_id x = tr_id t)) as [E|E]; [|eapply waiting_spared; [|exact Hoth|exact Hw]; congruence].
      rewrite Hsame; [done|]. rewrite (Hu x); [done|apply elem_of_app; right; left|done].
  - cbn. intros k d' [(Hs & _ & Hk & pre & -> & Hpre) Hw]. rewrite app_nil_r in *. by split.
Qed.

Lemma wp_claim_pass wf now g prov d :
  inv d → Forall (coherent d) (g_tasks g) → NoDup (map tr_id (g_tasks g)) →
  wp (claim_pass wf now g prov)
    (λ l d', step d d' ∧ ∃ tasks, Forall2 recovered (g_tasks g) tasks ∧ ∀ c, c ∈ l →
       claim_reason wf {| cx_wfId := wf; cx_now := now; cx_deps := g_deps g; cx_status := statusById tasks;
         cx_key := keyById (g_tasks g); cx_approval := approvalByTaskId (g_approvals g); cx_prov := prov |}
         tasks d' c) any_exn d.
Proof.
  intros Hi Hc Hnd. unfold claim_pass. wp1. eapply wp_conseq; [by apply wp_recover_all|].
  intros tasks d1 [(Hs1 & Hc1 & Hrec) _]. set (cx := Build_ClaimCtx _ _ _ _ _ _ _).
  assert (Hnd' : NoDup (map tr_id tasks)).
  { assert (map tr_id tasks = map tr_id (g_tasks g)) as ->; [|done].
    by apply (Forall2_rel_ids recovered tr_id recovered_id). }
  wp1. eapply wp_conseq; [apply (wp_foldM _ (λ l claimed d', step d d' ∧ Forall (coherent d') tasks ∧
      l ⊆ tasks ∧ ∀ c, c ∈ claimed → claim_ok d' c ∧ ∃ t, t ∈ tasks ∧ is_reclaim t c))|].
  { split_and!; [done..|]. intros c Hin. by apply elem_of_nil in Hin. }
  { intros t r claimed d' (Hs & Hct & Hsub & Hcl).
    eapply wp_conseq; [apply wp_reclaim, Hs|]. intros l d'' (Hs' & new & -> & Hnew).
    assert (He : evolves d' d'') by apply Hs'.
    split_and!; [by eapply step_trans|by eapply Forall_coherent_evolves|set_solver|].
    intros c [Hin|Hin]%elem_of_app.
    - destruct (Hcl c Hin). split; [by eapply claim_ok_evolves|done].
    - destruct (Hnew c Hin). split; [done|]. exists t. split; [set_solver|done]. }
  cbn beta. intros claimed d2 (Hs2 & Hc2 & _ & Hcl2).
  eapply wp_conseq; [apply (wp_foldM _ (λ l claimed d', step d d' ∧ Forall (coherent d') l ∧
      (∃ pre, tasks = pre ++ l) ∧ ∀ c, c ∈ claimed → claim_ok d' c ∧ ((∃ t, t ∈ tasks ∧ is_reclaim t c) ∨
        (∃ t, t ∈ tasks ∧ tr_id t ∉ map tr_id l ∧ ready cx t ∧ is_dispatch wf t c d'))))|].
  { split_and!; [done..|by exists []|]. intros c Hin. destruct (Hcl2 c Hin). auto. }
  { intros t r claimed' d' (Hs & Hct & (pre & ->) & Hcl). inversion Hct as [|? ? Hct1 Hct2]; subst.
    eapply wp_conseq; [apply wp_claim_task; [apply Hs|done]|]. intros l d'' [(Hs' & new & -> & Hnew) [[Hrows _] _]].
    assert (He : evolves d' d'') by apply Hs'.
    rewrite map_app in Hnd'. apply NoDup_app in Hnd' as (_ & _ & Hnd').
    cbn in Hnd'. apply NoDup_cons in Hnd' as [Htr _].
    split_and!; [by eapply step_trans|by eapply Forall_coherent_evolves|exists (pre ++ [t]); by rewrite <- app_assoc|].
    intros c [Hin|Hin]%elem_of_app.
    - destruct (Hcl c Hin) as [Hok Hwhy]. split; [by eapply claim_ok_evolves|].
      destruct Hwhy as [?|(u & Hu & Hun & Hrdy & H1 & H2 & q & Hq & Hqi & Hqs)]; [by left|right].
      cbn in Hun. rewrite not_elem_of_cons in Hun. destruct Hun. exists u. split_and!; try done. split_and!; try done.
      exists q. split; [|done]. apply Hrows; [done|congruence].
    - destruct (Hnew c Hin) as (Hok & Hrdy & Hd). split; [done|]. right. exists t. split_and!; try done.
      apply elem_of_app. right. left. }
  cbn beta. intros l d3 (Hs3 & _ & _ & Hcl3). split; [done|]. exists tasks. split; [done|].
  intros c Hin. destruct (Hcl3 c Hin) as [Hok [?|(t & Ht & _ & Hrdy & Hd)]]; split; eauto 6.
Qed.

(** The pass from the tables: [d0] are the tables the transaction read. *)
Definition claims_sound (wf : string) (now : Z) (d0 : DB) (r : ClaimResult) (d' : DB) : Prop :=
  ∀ c, c ∈ cm_claimed r → ∃ tasks prov,
    Forall2 recovered (List.filter (λ t, tr_workflowId t ≟ wf) (db_task d0)) tasks ∧
    claim_reason wf
      {| cx_wfId := wf; cx_now := now; cx_deps := List.filter (λ e, dp_workflowId e ≟ wf) (db_dependency d0);
         cx_status := statusById tasks;
         cx_key := keyById (List.filter (λ t, tr_workflowId t ≟ wf) (db_task d0));
         cx_approval := approvalByTaskId (List.filter (λ a, ap_workflowId a ≟ wf) (db_approval d0));
         cx_prov := prov |} tasks d' c.

Lemma loaded_coherent p d : inv d → Forall (coherent d) (List.filter p (db_task d)).
Proof.
  intros Hi. apply Forall_forall. intros t Ht. apply filter_in in Ht as [? _]. by apply coherent_loaded.
Qed.

Lemma wp_claimReadyTasks wf now d :
  inv d →
  wp (claimReadyTasks wf now) (λ r d', step d d' ∧ claims_sound wf now d r d') (λ _ d', d' = d) d.
Proof.
  intros Hi. unfold claimReadyTasks, select_workflow, loadGraph. apply wp_transaction. wp1. wp1.
  assert (Hno : ∀ s, step d d ∧ claims_sound wf now d (inactive s) d).
  { intros s. split; [by apply step_refl|]. intros c Hin. by apply elem_of_nil in Hin. }
  destruct (first_where _ _) as [w|]; [|by wps]. destruct (negb _); [by wps|].
  wp1. wp1. wp1. eapply wp_mono; [apply wp_claim_pass; [done| |]|..].
  - by apply loaded_coherent.
  - apply NoDup_map_filter, Hi.
  - intros l d' (Hs & tasks & Hrec & Hcl). wps. split; [done|]. intros c Hin. exists tasks. eexists. split; [done|].
    by apply Hcl.
  - done.
Qed.
End claiming.

(** ** Settling *)

Section settling.
Context `{Runtime} `{DateEnv}.
Implicit Types d : DB.

Definition no_live (d : DB) (i : string) : Prop := ∀ a, a ∈ db_attempt d → live a → at_taskId a ≠ i.

(** A compare-and-set on a row of the table. *)
Lemma wp_cas_row t f (Q : list TaskRow → DB → Prop) (E : exn → DB → Prop) d :
  inv d → t ∈ db_task d → isTerminalTaskStatus (tr_status t) = false →
  (∀ u, tr_def (f u) = tr_def u) → (∀ u, tr_lockVersion (f u) = tr_lockVersion t + 1) →
  (open_task (f t) → open_task t ∨ no_live d (tr_id t)) →
  (∀ d', step d d' → db_attempt d' = db_attempt d →
     db_task d' = set_where (task_cas (tr_id t) (tr_lockVersion t)) f (db_task d) →
     Q (map f (List.filter (task_cas (tr_id t) (tr_lockVersion t)) (db_task d))) d') →
  wp (update_task (task_cas (tr_id t) (tr_lockVersion t)) f) Q E d.
Proof.
  intros Hi Ht Hnt Hd Hl Hopen HQ. apply wp_update_task; [done| |auto].
  intros r Hr Hc. split; [apply (cas_evolves d t); try done; by apply coherent_loaded|].
  assert (r = t) as ->.
  { unfold task_cas in Hc. bprop. by apply (row_unique tr_id (db_task d)); [apply Hi|..]. }
  intros Ho a Ha Hla. destruct (Hopen Ho) as [Hot|Hn]; [by eapply inv_open|by apply Hn].
Qed.

Lemma wp_applyTaskFailure wf t n err now prov d :
  inv d → t ∈ db_task d → tr_status t = ts_running → no_live d (tr_id t) →
  wp (applyTaskFailure wf t n err now prov) (λ _ d', step d d') any_exn d.
Proof.
  intros Hi Ht Hr Hn. unfold applyTaskFailure. destruct (_ <? _).
  - wps. apply wp_cas_row; auto using running_not_terminal. intros d1 Hs1 _ _. wps.
    apply effect_task_event; [apply Hs1| |done]. intros _ d2 Hs2. wps. eapply step_trans; [done|apply Hs2].
  - wps. apply wp_cas_row; auto using running_not_terminal; try (by intros [|]). intros d1 Hs1 _ _. wps.
    apply effect_task_event; [apply Hs1| |done]. intros _ d2 Hs2. wps. eapply step_trans; [done|apply Hs2].
Qed.

(** After the live attempt of a task has been settled, none is left. *)
Lemma settled_no_live p f d a :
  inv d → a ∈ db_attempt d → live a → (∀ b, at_id b = at_id a → live b → p b = true) →
  (∀ b, at_taskId (f b) = at_taskId b) → (∀ b, ¬ live (f b)) →
  no_live (with_attempt d (set_where p f (db_attempt d))) (at_taskId a).
Proof.
  intros Hi Ha Hl Hp Ht Hf c (b & Hb & ->)%set_where_in Hlc E.
  destruct (p b) eqn:Eb; [by apply (Hf b)|]. apply not_true_iff_false in Eb. apply Eb, Hp; [|done].
  by apply (inv_one_live d Hi).
Qed.

Lemma settle_attempt_wp c o (Q : list AttemptRow → DB → Prop) E d :
  (∀ z u, let f := attempt_set (outcome_attempt_status (eo_status o)) (eo_childRunId o) (eo_error o) in
     let g := λ a, f (at_output a) z u a in
     let p := λ a, (at_id a ≟ cl_attemptId c) && (at_status a ≟ as_running) in
     Q (map g (List.filter p (db_attempt d))) (with_attempt d (set_where p g (db_attempt d)))) →
  wp (settle_attempt c o) Q E d.
Proof. intros HQ. unfold settle_attempt. wps; apply wp_raw_attempt, HQ. Qed.

Lemma wp_record_outcome wf now prov dead r d :
  inv d → claim_ok d r.1 →
  wp (record_outcome wf now prov dead r) (λ _ d', step d d') any_exn d.
Proof.
  intros Hi Hok. destruct r as [c o]. unfold record_outcome. cbn [fst snd] in *.
  wp1. wp1. destruct (first_where _ (db_lease d)) as [l|]; [|wps; by apply step_refl].
  destruct (negb _); [wps; by apply step_refl|]. wp1. run_side effect_delete_lease as S1.
  assert (Hi1 : inv d') by apply S1. assert (Hs1 : step d d') by apply S1.
  apply (claim_ok_evolves d d') in Hok; [|apply Hs1].
  wp1. wp1. destruct (first_where _ (db_task d')) as [cur|] eqn:Ecur; [|by wps].
  apply first_where_in in Ecur as [Hcur Eid]. bprop.
  destruct (negb (tr_status cur ≟ ts_running)) eqn:Er; [by wps|]. bprop.
  wp1. apply settle_attempt_wp. intros z u f g p.
  assert (Hs2 : step d (with_attempt d' (set_where p g (db_attempt d')))).
  { eapply step_trans; [done|]. apply step_attempt; [done|]. intros a1 Ha1 Hp. unfold p in Hp. bprop.
    apply attempt_set_evolves; [done|]. by destruct (eo_status o). }
  destruct (length _ =? 0)%nat eqn:E2; [by wps|].
  apply length_map_pos in E2 as (b & Hb & Hpb). unfold p in Hpb. bprop.
  destruct Hok as (a1 & Ha1 & Hid & Hti).
  assert (a1 = b) as -> by (apply (row_unique at_id (db_attempt d')); [apply Hi1|congruence..]).
  set (d2 := with_attempt _ _) in *. assert (Hi2 : inv d2) by apply Hs2.
  assert (Hcur2 : cur ∈ db_task d2) by exact Hcur.
  destruct (eo_status o) eqn:Eo.
  - wps. change (tr_id (cl_task c)) with (tr_id (cl_task c)). rewrite <- Eid.
    apply wp_cas_row; auto using running_not_terminal; try (by intros [|]). intros d3 Hs3 _ _. wps.
    apply effect_task_event; [apply Hs3| |done]. intros _ d4 Hs4. wps.
    eapply step_trans; [done|]. eapply step_trans; [done|apply Hs4].
  - wp1. eapply wp_conseq; [apply wp_applyTaskFailure; try done|].
    + rewrite Eid, <- Hti. apply settled_no_live; try done.
      intros b' Eb Hlb. unfold p. rewrite !bool_decide_true; [done|done|congruence].
    + intros x d3 Hs3. wps. by eapply step_trans.
  - wp1. apply effect_task_event; [done| |done]. intros _ d3 Hs3. wps. eapply step_trans; [done|apply Hs3].
Qed.

Lemma wp_recordOutcomes wf results now prov d :
  inv d → (∀ r, r ∈ results → claim_ok d r.1) →
  wp (recordOutcomes wf results now prov) (λ _ d', step d d') (λ _ d', d' = d) d.
Proof.
  intros Hi Hok. apply wp_transaction.
  eapply wp_mono; [apply (wp_foldM _ (λ l _ d', step d d' ∧ ∀ r, r ∈ l → claim_ok d' r.1))| |].
  - split; [by apply step_refl|done].
  - intros r l dead d' [Hs Hl]. eapply wp_conseq; [apply wp_record_outcome; [apply Hs|apply Hl; left]|].
    intros dead' d'' Hs'. split; [by eapply step_trans|].
    intros x Hx. apply (claim_ok_evolves d'); [apply Hs'|]. apply Hl. by right.
  - by intros ? ? [? _].
  - done.
Qed.
End settling.

(** ** Polling *)

Section polling.
Context `{Runtime} `{DateEnv}.
Implicit Types d : DB.

Definition polled_ok (d : DB) (p : Polled) : Prop :=
  ∃ a, a ∈ db_attempt d ∧ at_id a = po_attemptId p ∧ at_taskId a = tr_id (po_task p).

Lemma polled_ok_evolves d d' p : evolves d d' → polled_ok d p → polled_ok d' p.
Proof.
  intros He (a & Ha & Hid & Hti). destruct (extends_new _ _ _ _ _ (ev_attempt _ _ He) Ha) as (a' & Ha' & Hr).
  exists a'. split; [done|]. destruct Hr as [->|(-> & _ & -> & _)]; done.
Qed.

Lemma wp_poll_read wf f d :
  (∀ c, quiet (f c)) →
  wp (poll_read wf f) (λ l d', d' = d ∧ ∀ p, p ∈ l → polled_ok d p) (λ _ d', d' = d) d.
Proof.
  intros Hf. unfold poll_read. wp1. wp1.
  eapply wp_conseq; [apply (wp_foldM _ (λ _ l d', d' = d ∧ ∀ p, p ∈ l → polled_ok d p))|by intros].
  { split; [done|]. intros p Hp. by apply elem_of_nil in Hp. }
  intros t _ polled d' [-> Hp]. unfold poll_task. wp1. wp1.
  destruct (latest_attempt _) as [a|] eqn:Ea; [|by wps]. apply latest_attempt_in, filter_in in Ea as [Ha Hpa]. bprop.
  destruct (at_childRunId a) as [run|]; [|by wps]. destruct (run ≟ ""); [by wps|].
  wp1. apply wp_catch, wp_quiet; [done| |intros e; wps; done]. intros [cs|]; [|by wps].
  destruct (_ && _); wps; [done|]. split; [done|]. intros q [Hq| ->%list_elem_of_singleton]%elem_of_app; [auto|].
  exists a. by split_and!.
Qed.

Lemma effect_bubble wf prov p cur a d : inv d → effect (bubble_hitl wf prov p cur a) d.
Proof. intros. unfold bubble_hitl. eff. by apply effect_recordEvent; eauto with engine. Qed.

Lemma effect_artifacts b wf t {X} (k r : X → string) s (l : list X) d :
  inv d → effect (for_each l (λ x, insert_artifact_row b wf t (k x) (r x) (s x))) d.
Proof. intros. apply effect_for_each; [done|]. intros x d' Hs. apply effect_artifact. eauto with engine. Qed.

(** The settled task and its live attempt, as [poll_settle_one] re-reads them. *)
Definition polled_live (d : DB) (p : Polled) (cur : TaskRow) : Prop :=
  cur ∈ db_task d ∧ tr_id cur = tr_id (po_task p) ∧ tr_status cur = ts_running ∧
  ∃ a, a ∈ db_attempt d ∧ at_id a = po_attemptId p ∧ at_taskId a = tr_id cur ∧ live a.

Lemma wp_settle_success wf prov p cur d :
  inv d → polled_live d p cur → wp (settle_success wf prov p cur) (λ _ d', step d d') any_exn d.
Proof.
  intros Hi (Hcur & Hid & Hr & a & Ha & Haid & Hati & Hl). unfold settle_success. do 4 wp1. wp1. rewrite <- Hid.
  apply wp_cas_row; auto using running_not_terminal; try (by intros [|]). intros d1 Hs1 Ea _.
  destruct (length _ =? 0)%nat; [by wps|]. do 5 wp1. apply wp_raw_attempt. rewrite Ea.
  set (d2 := with_attempt _ _).
  assert (Hs2 : step d1 d2).
  { unfold d2. rewrite <- Ea. apply step_attempt; [apply Hs1|]. rewrite Ea. intros b Hb Hp. bprop.
    assert (b = a) as -> by (apply (row_unique at_id (db_attempt d)); [apply Hi|congruence..]).
    by apply attempt_set_evolves. }
  wp1. apply effect_artifacts; [apply Hs2| |done]. intros _ d3 Hs3.
  wp1. apply effect_artifacts; [apply Hs3| |done]. intros _ d4 Hs4.
  apply effect_recordEvent; [apply Hs4| |done]. intros _ d5 Hs5.
  eapply step_trans; [exact Hs1|]. eapply step_trans; [exact Hs2|]. eapply step_trans; [apply Hs3|].
  eapply step_trans; [apply Hs4|apply Hs5].
Qed.

Lemma wp_settle_failure wf now prov p cur d :
  inv d → polled_live d p cur → wp (settle_failure wf now prov p cur) (λ _ d', step d d') any_exn d.
Proof.
  intros Hi (Hcur & Hid & Hr & a & Ha & Haid & Hati & Hl). unfold settle_failure. do 5 wp1. apply wp_raw_attempt.
  assert (Hrow : ∀ b, b ∈ db_attempt d → at_id b = po_attemptId p → b = a).
  { intros b Hb E. apply (row_unique at_id (db_attempt d)); [apply Hi|congruence..]. }
  set (d2 := with_attempt _ _).
  assert (Hs2 : step d d2).
  { apply step_attempt; [done|]. intros b Hb Hp. bprop. rewrite (Hrow b Hb Hp). by apply attempt_set_evolves. }
  eapply wp_conseq; [apply wp_applyTaskFailure; [apply Hs2|done|done|]|].
  - rewrite <- Hati. apply settled_no_live; try done. intros b E _. rewrite bool_decide_true; [done|congruence].
  - intros x d3 Hs3. by eapply step_trans.
Qed.

Lemma wp_poll_settle_one wf now prov dead p d :
  inv d → polled_ok d p → wp (poll_settle_one wf now prov dead p) (λ _ d', step d d') any_exn d.
Proof.
  intros Hi (a & Ha & Haid & Hati). assert (Hkeep : step d d) by by apply step_refl.
  unfold poll_settle_one. wp1. wp1. destruct (first_where _ (db_task d)) as [cur|] eqn:Ec; [|by wps].
  apply first_where_in in Ec as [Hcur Hid]. bprop. destruct (negb _) eqn:Er; [by wps|]. bprop.
  wp1. wp1. destruct (first_where _ (db_attempt d)) as [b|] eqn:Eb; [|by wps].
  apply first_where_in in Eb as [Hb Hbid]. bprop. destruct (negb _ || negb _) eqn:Ea; [by wps|]. bprop.
  assert (b = a) as -> by (apply (row_unique at_id (db_attempt d)); [apply Hi|congruence..]).
  assert (Hlive : polled_live d p cur) by (split_and!; [done..|exists a; split_and!; congruence || done]).
  destruct (_ && _); [|destruct (negb _)].
  - wp1. apply effect_bubble; [done| |done]. intros _ d' Hs. wps. apply Hs.
  - wp1. eapply wp_conseq; [by apply wp_settle_success|]. intros ? d1 Hs. by wps.
  - wp1. eapply wp_conseq; [by apply wp_settle_failure|]. intros x d' Hs. by wps.
Qed.

Lemma wp_poll_settle wf now polled d :
  inv d → (∀ p, p ∈ polled → polled_ok d p) →
  wp (poll_settle wf now polled) (λ _ d', step d d') (λ _ d', d' = d) d.
Proof.
  intros Hi Hp. unfold poll_settle, select_workflow. apply wp_transaction. wp1. wp1.
  destruct (first_where _ _) as [w|]; [|wps; by apply step_refl]. destruct (negb _); [wps; by apply step_refl|].
  eapply wp_mono; [apply (wp_foldM _ (λ l _ d', step d d' ∧ ∀ p, p ∈ l → polled_ok d' p))| |].
  - split; [by apply step_refl|done].
  - intros p l dead d' [Hs Hl]. eapply wp_conseq; [apply wp_poll_settle_one; [apply Hs|apply Hl; left]|].
    intros dead' d'' Hs'. split; [by eapply step_trans|].
    intros x Hx. apply (polled_ok_evolves d'); [apply Hs'|]. apply Hl. by right.
  - by intros ? ? [? _].
  - done.
Qed.
End polling.

(** ** Approvals *)

Section approvals.
Context `{Runtime} `{DateEnv}.
Implicit Types d : DB.

Lemma effect_invalidate g now a d : inv d → effect (invalidate_one g now a) d.
Proof. intros. unfold invalidate_one. eff. Qed.

Lemma effect_solicit g now tz dn a d : inv d → effect (solicit_one g now tz dn a) d.
Proof. intros. unfold solicit_one. eff. Qed.

Lemma effect_foldM {A B} (f : B → A → M B) b l d :
  inv d → (∀ x b d', side d d' → effect (f b x) d') → effect (foldM f b l) d.
Proof.
  intros Hi Hf Q E HQ HE.
  eapply wp_conseq; [apply (wp_foldM _ (λ _ _ d', side d d')); [by apply side_refl|]|cbn; auto].
  intros x r b' d' Hs. apply (Hf x b' d' Hs); intros; [|apply HE]; by eapply side_trans.
Qed.

Lemma wp_tx_effect {A} (m : M A) d : inv d → effect m d → wp (transaction m) (λ _ d', step d d') (λ _ d', d' = d) d.
Proof. intros Hi He. apply wp_transaction, He; [|done]. intros a d' Hs. apply Hs. Qed.

Lemma wp_invalidate wf now d :
  inv d → wp (invalidateStaleApprovals wf now) (λ _ d', step d d') (λ _ d', d' = d) d.
Proof.
  intros Hi. apply wp_tx_effect; [done|]. unfold select_workflow, loadGraph. eff.
  apply effect_invalidate. eauto with engine.
Qed.

Lemma wp_solicit wf now d :
  inv d → wp (solicitApprovals wf now) (λ _ d', step d d') (λ _ d', d' = d) d.
Proof.
  intros Hi. apply wp_tx_effect; [done|]. unfold select_workflow, loadGraph. eff.
  apply effect_foldM; [eauto with engine|]. intros. apply effect_solicit. eauto with engine.
Qed.

(** ** Updates on a snapshot and on a workflow *)

Lemma wp_cas_snapshot t f (Q : list TaskRow → DB → Prop) (E : exn → DB → Prop) d :
  inv d → coherent d t → isTerminalTaskStatus (tr_status t) = false →
  (∀ u, tr_def (f u) = tr_def u) → (∀ u, tr_lockVersion (f u) = tr_lockVersion t + 1) →
  (∀ u, ¬ open_task (f u)) →
  (∀ d' l, step d d' → Q l d') →
  wp (update_task (task_cas (tr_id t) (tr_lockVersion t)) f) Q E d.
Proof.
  intros Hi Hc Hnt Hd Hl Hno HQ. apply wp_update_task; [done| |auto].
  intros r Hr Hcas. split; [by eapply cas_evolves|]. by intros Ho%Hno.
Qed.

(** The row a compare-and-set on the workflow hits is the one that was read. *)
Lemma workflow_cas_hit d d' w r :
  inv d → w ∈ db_workflow d → evolves d d' → r ∈ db_workflow d' →
  workflow_cas (wr_id w) (wr_lockVersion w) r = true → r = w.
Proof.
  intros Hi Hw He Hr Hc. unfold workflow_cas in Hc. bprop.
  apply list_elem_of_lookup in Hr as [i Hri].
  destruct (Forall2_lookup_r _ _ _ _ _ (ev_workflow _ _ He) Hri) as (u & Hu & Hur).
  apply list_elem_of_lookup_2 in Hu.
  assert (u = w) as ->.
  { apply (row_unique wr_id (db_workflow d)); [apply Hi|done..|]. rewrite <- (workflow_evolves_id _ _ Hur). done. }
  destruct Hur as [?|(_ & Hlt & _)]; [done|lia].
Qed.

Lemma wp_workflow_cas w p s at_ d (Q : list WorkflowRow → DB → Prop) (E : exn → DB → Prop) d' :
  inv d → w ∈ db_workflow d → step d d' →
  (∀ x, p x = true → workflow_cas (wr_id w) (wr_lockVersion w) x = true) →
  canTransition k_workflow (WorkflowStatus_str (wr_status w)) (WorkflowStatus_str s) = true →
  (∀ l d'', step d' d'' → Q l d'') →
  wp (update_workflow p (workflow_set s (wr_lockVersion w + 1) at_)) Q E d'.
Proof.
  intros Hi Hw Hs Hp Ht HQ. apply wp_update_workflow; [apply Hs| |auto].
  intros x Hx Hpx. assert (x = w) as -> by (eapply (workflow_cas_hit d d'); eauto; apply Hs).
  right. cbn. split_and!; [done|lia|by apply rtc_once].
Qed.

Lemma map_of_lookup {R V} (f : R → string * V) l k v :
  map_of f l !! k = Some v → ∃ x, x ∈ l ∧ f x = (k, v).
Proof.
  unfold map_of. assert (Hgo : ∀ l (m : gmap string V), foldl (λ m r, <[(f r).1 := (f r).2]> m) m l !! k = Some v →
    m !! k = Some v ∨ ∃ x, x ∈ l ∧ f x = (k, v)).
  { clear l. induction l as [|x l IH]; intros m; cbn; [by left|].
    intros [E|(y & Hy & E)]%IH; [|right; exists y; split; [by right|done]].
    destruct (decide ((f x).1 = k)) as [<-|Hn].
    - rewrite lookup_insert_eq in E. injection E as <-. right. exists x. split; [left|by destruct (f x)].
    - rewrite lookup_insert_ne in E by done. by left. }
  intros [Hx|?]%Hgo; [by rewrite lookup_empty in Hx|done].
Qed.

Lemma map_of_is_Some {R V} (f : R → string * V) l x : x ∈ l → is_Some (map_of f l !! (f x).1).
Proof.
  unfold map_of. generalize (∅ : gmap string V). induction l as [|y l IH]; intros m; [by intros ?%elem_of_nil|].
  cbn. intros [->|Hx]%elem_of_cons; [|by apply IH]. clear IH. revert m.
  assert (Hkeep : ∀ l k (m : gmap string V), is_Some (m !! k) → is_Some (foldl (λ m r, <[(f r).1 := (f r).2]> m) m l !! k)).
  { clear. induction l as [|x l IH]; intros k m; cbn; [done|]. intros Hm. apply IH.
    destruct (decide ((f x).1 = k)) as [<-|Hn]; [by rewrite lookup_insert_eq|by rewrite lookup_insert_ne]. }
  intros m. apply Hkeep. by rewrite lookup_insert_eq.
Qed.

Lemma wp_cancel_open wf (Q : unit → DB → Prop) (E : exn → DB → Prop) d :
  inv d → (∀ d', step d d' → Q () d') → wp (cancel_open_tasks wf) Q E d.
Proof.
  intros Hi HQ. unfold cancel_open_tasks. wps. apply wp_update_task; [done| |intros; wps; auto].
  intros t Ht Hp. bprop. split; [apply task_set_evolves; [|lia]|by intros [|]].
  by destruct (tr_status t); try done; set_solver.
Qed.

(** ** Rejected approvals *)

Lemma wp_skip_rejected wf prov tasks cancel a d :
  inv d → Forall (coherent d) tasks →
  wp (skip_rejected wf prov (taskById tasks) cancel a) (λ _ d', step d d') any_exn d.
Proof.
  intros Hi Hc. assert (Hkeep : step d d) by by apply step_refl. unfold skip_rejected.
  destruct (negb _); [by wps|]. destruct (ap_rejectionPolicy a) as [[]|]; try by wps.
  destruct (taskById tasks !! _) as [t|] eqn:Et; [|by wps].
  apply map_of_lookup in Et as (t' & Ht & [= _ <-]).
  destruct (isTerminalTaskStatus (tr_status t')) eqn:En; [by wps|]. wp1. wp1. wp1.
  rewrite Forall_forall in Hc. apply wp_cas_snapshot; auto; [by intros u [|]|]. intros d1 l Hs1.
  wp1. apply effect_task_event; [apply Hs1| |done]. intros _ d2 Hs2. wps. eapply step_trans; [done|apply Hs2].
Qed.

Lemma wp_cancel_rejected wf w prov d d' :
  inv d → w ∈ db_workflow d → wr_id w = wf → wr_status w = ws_active → step d d' →
  wp (cancel_rejected wf w prov) (λ _ d'', step d d'') any_exn d'.
Proof.
  intros Hi Hw <- Hact Hs. unfold cancel_rejected, running_child_runs. do 3 wp1.
  apply (wp_workflow_cas w _ _ _ d); try done; [by rewrite Hact|]. intros l d1 Hs1.
  assert (Hsd1 : step d d1) by by eapply step_trans.
  destruct (length l =? 0)%nat; [by wps|]. do 5 wp1. apply wp_cancel_open; [apply Hs1|]. intros d2 Hs2.
  wp1. apply effect_delete_lease; [apply Hs2| |done]. intros _ d3 Hs3.
  wp1. apply effect_recordEvent; [apply Hs3| |done]. intros _ d4 Hs4. wps.
  eapply step_trans; [exact Hsd1|]. eapply step_trans; [exact Hs2|]. eapply step_trans; [apply Hs3|apply Hs4].
Qed.

Lemma wp_applyRejected wf d :
  inv d → wp (applyRejectedApprovalPolicies wf) (λ _ d', step d d') (λ _ d', d' = d) d.
Proof.
  intros Hi. assert (Hkeep : step d d) by by apply step_refl.
  unfold applyRejectedApprovalPolicies, select_workflow, loadGraph. apply wp_transaction. wp1. wp1.
  destruct (first_where _ _) as [w|] eqn:Ew; [|by wps]. apply first_where_in in Ew as [Hw Hid].
  destruct (negb _) eqn:Ea; [by wps|]. bprop. wp1. wp1. wp1. cbn [g_tasks g_approvals].
  set (tasks := List.filter _ (db_task d)).
  eapply wp_mono; [apply (wp_foldM _ (λ _ _ d', step d d' ∧ Forall (coherent d') tasks))| |done].
  - split; [done|]. by apply loaded_coherent.
  - intros a r cancel d' [Hs Hc]. eapply wp_conseq; [apply wp_skip_rejected; [apply Hs|done]|].
    intros b d'' Hs'. split; [by eapply step_trans|]. eapply Forall_coherent_evolves; [apply Hs'|done].
  - intros cancel d' [Hs _]. destruct cancel; [|by wps].
    eapply wp_mono; [by apply (wp_cancel_rejected _ _ _ d)|done..].
Qed.
End approvals.

(** ** Finalizing *)

Section finalizing.
Context `{Runtime} `{DateEnv}.
Implicit Types d : DB.

(** A row of the propagation loop: already decided, or as it was read. *)
Definition fin_row (s : FinState) (d : DB) (t : TaskRow) : Prop :=
  isTerminalTaskStatus (fs_status s !! tr_id t ?? ts_idle) = true ∨
  (fs_status s !! tr_id t ?? ts_idle = tr_status t ∧ coherent d t).

Lemma fin_row_evolves s s' d d' t :
  evolves d d' → fin_row s d t →
  (fs_status s' !! tr_id t = fs_status s !! tr_id t ∨ fs_status s' !! tr_id t = Some ts_skipped) → fin_row s' d' t.
Proof.
  intros He Hr [E|E]; [|left; by rewrite E]. unfold fin_row. rewrite E.
  destruct Hr as [?|[? ?]]; [by left|right]. split; [done|by eapply coherent_evolves].
Qed.

Lemma wp_finalize_task wf prov deps pols s k t l d0 d :
  step d0 d → Forall (fin_row s d) (k ++ t :: l) →
  wp (finalize_task wf prov deps pols (s, k) t)
    (λ r d', step d0 d' ∧ Forall (fin_row r.1 d') (r.2 ++ l)) any_exn d.
Proof.
  intros Hs Hrows. unfold finalize_task. cbn [fst snd].
  assert (Hsame : ∀ s', fs_status s' = fs_status s → Forall (fin_row s' d) ((k ++ [t]) ++ l)).
  { intros s' E. rewrite <- app_assoc. eapply Forall_impl; [exact Hrows|]. intros u Hu.
    eapply fin_row_evolves; [reflexivity|exact Hu|]. left. by rewrite E. }
  destruct (_ || (_ ≟ ts_running)) eqn:Et; [wps; split; [done|by apply Hsame]|].
  apply orb_false_iff in Et as [Et _].
  destruct (_ && negb _); [|wps; split; [done|by apply Hsame]].
  assert (Ht : fin_row s d t) by (eapply Forall_forall; [exact Hrows|]; apply elem_of_app; right; left).
  destruct Ht as [?|[Est Hc]]; [congruence|].
  wp1. wp1. wp1. apply wp_cas_snapshot; auto; [apply Hs|congruence|by intros u [|]|]. intros d1 _ Hs1.
  wp1. apply effect_task_event; [apply Hs1| |done]. intros _ d2 Hs2. wps. cbn [fst snd fs_status].
  assert (Hs02 : step d d2) by (eapply step_trans; [done|apply Hs2]).
  split; [by eapply step_trans|]. rewrite <- app_assoc.
  assert (Hins : ∀ i, <[tr_id t:=ts_skipped]> (fs_status s) !! i = fs_status s !! i ∨
                      <[tr_id t:=ts_skipped]> (fs_status s) !! i = Some ts_skipped).
  { intros i. destruct (decide (tr_id t = i)) as [<-|]; [right; by rewrite lookup_insert_eq|left; by rewrite lookup_insert_ne]. }
  apply Forall_app in Hrows as [Hk Hl]. apply Forall_cons in Hl as [_ Hl].
  assert (Hup : ∀ k, Forall (fin_row s d) k → Forall (fin_row {| fs_status := <[tr_id t:=ts_skipped]> (fs_status s);
      fs_blockingFailure := fs_blockingFailure s || existsb (edge_blocks_workflow pols (fs_status s)) (edges_of deps t);
      fs_changed := true |} d2) k).
  { intros k' Hk'. eapply Forall_impl; [exact Hk'|]. intros u Hu. eapply fin_row_evolves; [apply Hs02|exact Hu|apply Hins]. }
  apply Forall_app. split; [by apply Hup|]. apply Forall_cons. split; [|by apply Hup].
  left. cbn. by rewrite lookup_insert_eq.
Qed.

Lemma wp_propagate fuel wf prov deps pols s tasks d0 d :
  step d0 d → Forall (fin_row s d) tasks →
  wp (propagate fuel wf prov deps pols s tasks) (λ _ d', step d0 d') any_exn d.
Proof.
  revert s tasks d. induction fuel as [|fuel IH]; intros s tasks d Hs Hrows; [by apply wp_ret|].
  cbn [propagate]. wp1.
  eapply wp_conseq; [apply (wp_foldM _ (λ l st d', step d0 d' ∧ Forall (fin_row st.1 d') (st.2 ++ l)))|].
  - split; [done|]. exact Hrows.
  - intros t l [s' k] d' [Hs' Hr']. by apply wp_finalize_task.
  - intros [s' k] d' [Hs' Hr']. cbn [fst snd] in *. rewrite app_nil_r in Hr'.
    destruct (fs_changed s'); [by apply IH|by wps].
Qed.

Lemma rollUp_cases l : rollUpWorkflowStatus l ∈ [ws_active; ws_completed; ws_failed].
Proof. unfold rollUpWorkflowStatus. repeat case_match; set_solver. Qed.

Lemma next_status_legal s tasks :
  next_status s tasks ≠ ws_active →
  canTransition k_workflow "active" (WorkflowStatus_str (next_status s tasks)) = true.
Proof.
  unfold next_status. destruct (fs_blockingFailure s); [done|].
  pose proof (rollUp_cases (map (rollup_input (fs_status s)) tasks)) as Hr. rewrite !elem_of_cons, elem_of_nil in Hr.
  intros Hn. destruct Hr as [E|[E|[E|[]]]]; [congruence|by rewrite E..].
Qed.

Lemma statusById_lookup tasks t : NoDup (map tr_id tasks) → t ∈ tasks → statusById tasks !! tr_id t = Some (tr_status t).
Proof.
  intros Hn Ht. destruct (map_of_is_Some (λ t, (tr_id t, tr_status t)) tasks t Ht) as [s Es].
  unfold statusById. cbn in Es. rewrite Es. apply map_of_lookup in Es as (u & Hu & [= Eu <-]).
  by rewrite (row_unique tr_id tasks t u).
Qed.

Lemma wp_finalize_active wf w d :
  inv d → w ∈ db_workflow d → wr_id w = wf → wr_status w = ws_active →
  wp (finalize_active wf w) (λ _ d', step d d') any_exn d.
Proof.
  intros Hi Hw <- Hact. unfold finalize_active, loadGraph. wp1. wp1. wp1. cbn [g_tasks g_deps].
  set (tasks := List.filter _ (db_task d)).
  eapply wp_conseq; [apply (wp_propagate _ _ _ _ _ _ _ d); [by apply step_refl|]|].
  { apply Forall_forall. intros t Ht. right. cbn [fs_status]. unfold tasks in *.
    rewrite statusById_lookup; [|apply NoDup_map_filter, Hi|done]. split; [done|].
    apply filter_in in Ht as [Ht _]. by apply coherent_loaded. }
  intros s d' Hs. destruct (negb _) eqn:En; [|by wps]. bprop. wp1. wp1. wp1.
  apply (wp_workflow_cas w _ _ _ d); try done; [rewrite Hact; by apply next_status_legal|]. intros l d1 Hs1.
  assert (Hsd1 : step d d1) by exact (step_trans _ _ _ Hs Hs1).
  destruct (0 <? length l)%nat; [|by wps]. wp1. apply effect_delete_lease; [apply Hs1| |done]. intros _ d2 Hs2.
  wp1. apply effect_recordEvent; [apply Hs2| |done]. intros _ d3 Hs3. wps.
  eapply step_trans; [exact Hsd1|]. eapply step_trans; [apply Hs2|apply Hs3].
Qed.

Lemma wp_finalizeWorkflow wf d :
  inv d → wp (finalizeWorkflow wf) (λ _ d', step d d') (λ _ d', d' = d) d.
Proof.
  intros Hi. assert (Hkeep : step d d) by by apply step_refl.
  unfold finalizeWorkflow, select_workflow. apply wp_transaction. wp1. wp1.
  destruct (first_where _ _) as [w|] eqn:Ew; [|by wps]. apply first_where_in in Ew as [Hw Hid].
  destruct (negb _) eqn:Ea; [by wps|]. bprop. eapply wp_mono; [by apply wp_finalize_active|done..].
Qed.
End finalizing.

(** ** Fan-out *)

Section fan_out.
Context `{Runtime}.
Implicit Types d : DB.

Lemma wp_cancelForeachChildren wf parent scope reason d :
  inv d → wp (cancelForeachChildren wf parent scope reason) (λ _ d', step d d') any_exn d.
Proof.
  intros Hi. unfold cancelForeachChildren. wp1. wp1. wp1. apply wp_update_task; [done| |].
  - intros t Ht Hp. unfold cancellable_child in Hp. bprop. split; [apply task_set_evolves; [|lia]|by intros [|]].
    destruct scope, (tr_status t); try done; cbn in *; set_solver.
  - intros d1 Hs1 _ _. destruct (_ =? _)%nat; [by wps|]. wp1. apply effect_for_each; [apply Hs1| | |done].
    + intros c d' Hs. apply effect_foreach_event. eauto with engine.
    + intros _ d2 Hs2. wps. eapply step_trans; [done|apply Hs2].
Qed.

Lemma wp_insert_task r (Q : unit → DB → Prop) d :
  inv d → td_foreachConfig (tr_def r) = None → (∀ d', step d d' → Q () d') → wp (insert_task r) Q any_exn d.
Proof.
  intros Hi Hf HQ. unfold insert_task. wps; [by apply HQ, step_refl|]. apply HQ, step_new_task; [done| |done].
  unfold task_insertable in *. bprop. eapply existsb_id_fresh; [eassumption|]. cbn. intros x Hx. by rewrite bool_decide_true.
Qed.

Lemma wp_persistChildPlans plans d :
  inv d → wp (persistChildPlans plans) (λ _ d', step d d') any_exn d.
Proof.
  intros Hi. unfold persistChildPlans. wp1.
  eapply wp_conseq; [apply (wp_for_each _ (λ _ d', step d d')); [by apply step_refl|]|].
  { intros p r d' Hs. unfold persist_task. wp1. unfold col_integer. wps.
    - apply wp_insert_task; [apply Hs|done|]. intros d'' Hs'. by eapply step_trans.
    - apply wp_insert_task; [apply Hs|done|]. intros d'' Hs'. by eapply step_trans. }
  intros ? d1 Hs1. cbn beta in Hs1. wp1. apply effect_for_each; [apply Hs1| | |done].
  { intros p d' Hs. apply effect_for_each; [eauto with engine|]. intros dep d'' Hs'.
    apply effect_persist_dependency. eauto with engine. }
  intros _ d2 Hs2. apply effect_for_each; [apply Hs2| | |done].
  { intros p d' Hs. apply effect_persist_approval. eauto with engine. }
  intros _ d3 Hs3. eapply step_trans; [done|]. eapply step_trans; [apply Hs2|apply Hs3].
Qed.

(** The compare-and-set of a non-terminal parent followed by its log entry. *)
Lemma wp_parent_set wf t f kind payload d0 d :
  step d0 d → coherent d t → isTerminalTaskStatus (tr_status t) = false →
  (∀ u, tr_def (f u) = tr_def u) → (∀ u, tr_lockVersion (f u) = tr_lockVersion u + 1) → (∀ u, ¬ open_task (f u)) →
  wp (_ ← update_task (task_cas (tr_id t) (tr_lockVersion t)) f;
      foreach_event wf (tr_id t) (tr_key t) kind payload) (λ _ d', step d0 d') any_exn d.
Proof.
  intros Hs Hc Hnt Hd Hl Hno. wp1. apply wp_update_task; [apply Hs| |].
  - intros r Hr Hcas. split; [|by intros Ho%Hno].
    destruct (coherent_cas _ _ _ Hc Hr Hcas) as (_ & Es & _). right.
    split_and!; [auto|rewrite Hl; lia|]. by rewrite Es, Hnt.
  - intros d1 Hs1 _ _. apply effect_foreach_event; [apply Hs1| |done]. intros _ d2 Hs2.
    eapply step_trans; [done|]. eapply step_trans; [done|apply Hs2].
Qed.

Lemma wp_persistFailure wf t code payload d :
  inv d → coherent d t → isTerminalTaskStatus (tr_status t) = false →
  wp (persistForeachMaterializationFailure wf t code payload) (λ _ d', step d d') any_exn d.
Proof.
  intros Hi Hc Hnt. unfold persistForeachMaterializationFailure. do 2 wp1. wp1; [|done].
  wp1. apply effect_foreach_event; [done| |done]. intros _ d1 Hs1. wp1. wp1. wp1. apply wp_update_task; [apply Hs1| |].
  - intros r Hr Hcas. split; [|by intros [|]].
    assert (Hc1 : coherent d1 t) by (eapply coherent_evolves; [apply Hs1|done]).
    destruct (coherent_cas _ _ _ Hc1 Hr Hcas) as (_ & Es & _). right. cbn. split_and!; [done|lia|]. by rewrite Es, Hnt.
  - intros d2 Hs2 _ _. wps. eapply step_trans; [apply Hs1|done].
Qed.

Lemma wp_handleIdleParent wf t src fe keys d :
  inv d → coherent d t → tr_status t = ts_idle →
  wp (handleIdleParent wf t src fe keys) (λ _ d', step d d') any_exn d.
Proof.
  intros Hi Hc Hidle. assert (Hkeep : step d d) by by apply step_refl.
  assert (Hnt : isTerminalTaskStatus (tr_status t) = false) by by rewrite Hidle.
  unfold handleIdleParent. destruct (tr_status src); try by wps.
  - unfold readLatestSucceededAttemptOutput. wp1. wp1. wp1. wp1.
    destruct (materializeForeachChildren _ _) as [r|e]; [|by apply wp_persistFailure].
    destruct (_ =? _)%nat.
    + unfold parent_zero_children. do 2 wp1. wp1; [|done]. do 6 wp1. by apply wp_parent_set; try (by intros u [|]).
    + unfold parent_materialize. wp1. eapply wp_conseq; [by apply wp_persistChildPlans|]. intros ? d1 Hs1.
      do 4 wp1. apply wp_parent_set; try done; try (by intros u [|]). eapply coherent_evolves; [apply Hs1|done].
  - destruct (_ ≟ _); [|by wps]. do 2 wp1. wp1; [|done]. unfold parent_skip. do 2 wp1.
    by apply wp_parent_set; try (by intros u [|]).
  - do 2 wp1. wp1; [|done]. unfold parent_skip. do 2 wp1. by apply wp_parent_set; try (by intros u [|]).
Qed.

Lemma wp_parent_latch t f s d :
  inv d → wp (parent_latch t f s) (λ _ d', step d d') any_exn d.
Proof.
  intros Hi. unfold parent_latch. wp1; [|by apply step_refl]. wp1. wp1. wp1. apply wp_update_task; [done| |intros; by wps].
  intros u Hu _. split; [right; cbn; split_and!; [done|lia|done]|]. intros Ho b Hb Hl. by apply (inv_open d Hi u b).
Qed.

Lemma wp_handleRunningParent wf t fe all d :
  inv d → wp (handleRunningParent wf t fe all) (λ _ d', step d d') any_exn d.
Proof.
  intros Hi. unfold handleRunningParent. destruct (_ =? _)%nat; [wps; by apply step_refl|].
  wp1. eapply wp_conseq; [by apply wp_parent_latch|]. intros ? d1 Hs1. cbn beta in Hs1.
  wp1. apply (wp_conseq _ (λ _ d', step d1 d')).
  { assert (step d1 d1) by apply step_refl, Hs1. unfold parent_cancel_children.
    destruct (existsb _ _); [|by wps]. destruct (_ ?? _); try by wps.
    - wp1. eapply wp_conseq; [apply wp_cancelForeachChildren, Hs1|]. intros; by wps.
    - wp1. eapply wp_conseq; [apply wp_cancelForeachChildren, Hs1|]. intros; by wps. }
  intros runs d2 Hs2. assert (step d d2) by by eapply step_trans. wp1.
  wp1; [|by wps]. unfold parent_settle. do 5 wp1. apply wp_update_task; [apply Hs2| |].
  - intros u Hu Hp. bprop. split; [right; cbn; split_and!; [done|lia|]|].
    + match goal with E : tr_status u = _ |- _ => by rewrite E end.
    + unfold parent_final_status. intros [Ho|Ho]; cbn in Ho; by repeat case_match.
  - intros d3 Hs3 _ _. apply effect_foreach_event; [apply Hs3| |done]. intros _ d4 Hs4. wps.
    eapply step_trans; [done|]. eapply step_trans; [done|apply Hs4].
Qed.

Lemma wp_reconcileForeachParents wf d :
  inv d → wp (reconcileForeachParents wf) (λ _ d', step d d') (λ _ d', d' = d) d.
Proof.
  intros Hi. assert (Hkeep : step d d) by by apply step_refl.
  unfold reconcileForeachParents. apply wp_transaction. wp1. wp1.
  destruct (first_where _ _) as [w|]; [|by wps]. destruct (negb _); [by wps|]. wp1. wp1.
  set (all := List.filter _ (db_task d)).
  eapply wp_mono; [apply (wp_foldM _ (λ l _ d', step d d' ∧ Forall (coherent d') l ∧ l ⊆ all))| |done].
  - split_and!; [done| |].
    + apply Forall_forall. intros t [Ht _]%filter_in. eapply Forall_forall; [by apply loaded_coherent|]. exact Ht.
    + intros t [Ht _]%filter_in. done.
  - intros t l runs d' (Hs & Hc & Hsub). apply Forall_cons in Hc as [Hct Hcl].
    assert (Hnext : ∀ d'' : DB, step d' d'' → step d d'' ∧ Forall (coherent d'') l ∧ l ⊆ all).
    { intros d'' Hs'. split_and!; [by eapply step_trans| |set_solver]. eapply Forall_coherent_evolves; [apply Hs'|done]. }
    assert (Hstay : step d' d') by apply step_refl, Hs.
    assert (Ht : t ∈ all) by set_solver. apply filter_in in Ht as [Ht Hwf]. bprop.
    unfold reconcile_parent. destruct (td_foreachConfig (tr_def t)) as [fe|] eqn:Efe; [|wps; auto].
    destruct (inv_source d Hi t fe Ht Efe) as (src & Hsrc & Hsw & Hsk).
    destruct (map_of _ all !! fe_source fe) as [s|] eqn:Es.
    2:{ exfalso. destruct (map_of_is_Some (λ t, (tr_key t, t)) all src) as [x Hx].
        - apply filter_in. split; [done|]. apply bool_decide_eq_true. congruence.
        - cbn in Hx. rewrite Hsk in Hx. congruence. }
    destruct (tr_status t ≟ ts_idle) eqn:Ei; bprop.
    { wp1. eapply wp_conseq; [apply wp_handleIdleParent; [apply Hs|done..]|]. intros; wps; auto. }
    destruct (tr_status t ≟ ts_running); [|wps; auto].
    wp1. eapply wp_conseq; [apply wp_handleRunningParent, Hs|]. intros; wps; auto.
  - by intros runs d' [Hs _].
Qed.
End fan_out.
