(* ===== verification/Approvals.v ===== *)
(** * Deciding approvals and the read side of the store ([store.ts])

    A decision is a compare-and-set on a row that is pending, still valid and
    has been solicited; the inbox lists exactly the rows a decision can win on.
    [others] is what other sessions commit between the first read and the
    transaction. *)

From S2P Require Import Prelude Json Time Spec Transitions Gates Store Hoare Evolution Ops Reconciler Sample.
Open Scope Z_scope.

Inductive ApprovalDecision := ad_approved | ad_rejected.
#[export] Instance ApprovalDecision_eq_dec : EqDecision ApprovalDecision.
Proof. solve_decision. Defined.

Record DecideInput := {
  di_approvalId : string; di_decidedBy : string; di_decision : ApprovalDecision; di_reason : option string
}.

Record DecideResult := {
  dr_ok : bool; dr_reason : option string; dr_workflowId : option string; dr_taskId : option string;
  dr_rejectionPolicy : option RejectionPolicy
}.
Definition decide_refused (reason : string) : DecideResult :=
  {| dr_ok := false; dr_reason := Some reason; dr_workflowId := None; dr_taskId := None;
     dr_rejectionPolicy := None |}.

(** [notification_state ->> 'solicitedAt' IS NOT NULL]. *)
Definition solicited_at (a : ApprovalRow) : bool :=
  match ap_notificationState a ≫= jprop "solicitedAt" with
  | None | Some JNull => false
  | Some _ => true
  end.

(** Open for a decision. *)
Definition decidable (a : ApprovalRow) : bool :=
  (ap_status a ≟ aps_pending) && negb (is_present (ap_invalidatedAt a)) && solicited_at a.

Definition decision_policy (decision : ApprovalDecision) (a : ApprovalRow) : RejectionPolicy :=
  match decision with
  | ad_approved => rp_needs_revision
  | ad_rejected => ap_rejectionPolicy a ?? rp_needs_revision
  end.

Definition decision_status (decision : ApprovalDecision) (policy : RejectionPolicy) : ApprovalStatus :=
  match decision with
  | ad_approved => aps_granted
  | ad_rejected => if policy ≟ rp_needs_revision then aps_needs_revision else aps_rejected
  end.

Definition approval_decided (status : ApprovalStatus) (decidedBy : string) (decidedAt : Z)
    (reason : option string) (updatedAt : Z) (a : ApprovalRow) : ApprovalRow := {|
  ap_id := ap_id a; ap_workflowId := ap_workflowId a; ap_taskId := ap_taskId a;
  ap_requiredScope := ap_requiredScope a; ap_resolvedApproverIds := ap_resolvedApproverIds a;
  ap_solicitationSchedule := ap_solicitationSchedule a; ap_deadlineUtc := ap_deadlineUtc a;
  ap_reviewPacketHash := ap_reviewPacketHash a; ap_status := status;
  ap_rejectionPolicy := ap_rejectionPolicy a; ap_invalidatedAt := ap_invalidatedAt a;
  ap_notificationState := ap_notificationState a; ap_decidedBy := Some decidedBy;
  ap_decidedAt := Some decidedAt; ap_reason := reason; ap_createdAt := ap_createdAt a;
  ap_updatedAt := updatedAt |}.

Definition approval_by_id (id : string) (d : DB) : option ApprovalRow :=
  first_where (λ a, ap_id a ≟ id) (db_approval d).

Definition readApprovalById (approvalId : string) : M (option ApprovalRow) := gets (approval_by_id approvalId).

Definition readApprovalForTask (workflowId taskId : string) : M (option ApprovalRow) :=
  gets (λ d, first_where (λ a, (ap_workflowId a ≟ workflowId) && (ap_taskId a ≟ taskId)) (db_approval d)).

(** Why a decision that won on no row was refused. *)
Definition refusal (existing : option ApprovalRow) : DecideResult :=
  match existing with
  | None => decide_refused "not_found"
  | Some a =>
      if negb (ap_status a ≟ aps_pending) then decide_refused "not_pending"
      else if is_present (ap_invalidatedAt a) then decide_refused "invalidated"
      else decide_refused "not_opened"
  end.

Section approvals.
Context `{Runtime}.

Definition decide_tx (input : DecideInput) (policy : RejectionPolicy) : M DecideResult :=
  transaction (
    decidedAt ← new_Date; updatedAt ← new_Date;
    rows ← update_approval (λ a, (ap_id a ≟ di_approvalId input) && decidable a)
      (approval_decided (decision_status (di_decision input) policy) (di_decidedBy input) decidedAt
         (di_reason input) updatedAt);
    match rows with
    | [] => existing ← readApprovalById (di_approvalId input); mret (refusal existing)
    | row :: _ =>
        mret {| dr_ok := true; dr_reason := None; dr_workflowId := Some (ap_workflowId row);
                dr_taskId := Some (ap_taskId row);
                dr_rejectionPolicy := if di_decision input ≟ ad_approved then None else Some policy |}
    end).

Definition decideWorkflowApproval (others : M unit) (input : DecideInput) : M DecideResult :=
  appr ← readApprovalById (di_approvalId input);
  match appr with
  | None => mret (decide_refused "not_found")
  | Some appr => others;; decide_tx input (decision_policy (di_decision input) appr)
  end.

Definition approval_resolved (userIds : list string) (updatedAt : Z) (a : ApprovalRow) : ApprovalRow := {|
  ap_id := ap_id a; ap_workflowId := ap_workflowId a; ap_taskId := ap_taskId a;
  ap_requiredScope := ap_requiredScope a; ap_resolvedApproverIds := Some (JArr (map JStr userIds));
  ap_solicitationSchedule := ap_solicitationSchedule a; ap_deadlineUtc := ap_deadlineUtc a;
  ap_reviewPacketHash := ap_reviewPacketHash a; ap_status := ap_status a;
  ap_rejectionPolicy := ap_rejectionPolicy a; ap_invalidatedAt := ap_invalidatedAt a;
  ap_notificationState := ap_notificationState a; ap_decidedBy := ap_decidedBy a;
  ap_decidedAt := ap_decidedAt a; ap_reason := ap_reason a; ap_createdAt := ap_createdAt a;
  ap_updatedAt := updatedAt |}.

Definition persistResolvedApprovers (approvalId : string) (userIds : list string) : M unit :=
  now ← new_Date;
  _ ← update_approval (λ a, ap_id a ≟ approvalId) (approval_resolved userIds now); mret ().
End approvals.

(** ** The inbox *)

Record PendingApprovalSummary := {
  ps_approvalId : string; ps_workflowId : string; ps_workflowName : string; ps_taskId : string;
  ps_taskKey : string; ps_taskTitle : string; ps_requiredScope : json; ps_deadlineUtc : option Z;
  ps_createdAt : Z
}.

Definition pending_summary (d : DB) (orgId : string) (a : ApprovalRow) : list PendingApprovalSummary :=
  if negb (decidable a) then []
  else concat (map (λ w,
    if negb ((wr_id w ≟ ap_workflowId a) && (wd_orgId (wr_def w) ≟ orgId)) then []
    else map (λ t, {| ps_approvalId := ap_id a; ps_workflowId := ap_workflowId a;
                      ps_workflowName := wd_name (wr_def w); ps_taskId := ap_taskId a; ps_taskKey := tr_key t;
                      ps_taskTitle := td_title (tr_def t); ps_requiredScope := ap_requiredScope a;
                      ps_deadlineUtc := ap_deadlineUtc a; ps_createdAt := ap_createdAt a |})
           (List.filter (λ t, tr_id t ≟ ap_taskId a) (db_task d))) (db_workflow d)).

(** The stable sort by [createdAt]. *)
Fixpoint summary_insert (x : PendingApprovalSummary) (l : list PendingApprovalSummary) : list PendingApprovalSummary :=
  match l with
  | [] => [x]
  | y :: r => if ps_createdAt x <=? ps_createdAt y then x :: y :: r else y :: summary_insert x r
  end.

Definition oldest_first (l : list PendingApprovalSummary) : list PendingApprovalSummary := foldr summary_insert [] l.

Definition listPendingApprovalsForOrg (orgId : string) : M (list PendingApprovalSummary) :=
  gets (λ d, oldest_first (concat (map (pending_summary d orgId) (db_approval d)))).

Definition countPendingWorkflowApprovalsForOrg (orgId : string) : M nat :=
  gets (λ d, length (concat (map (λ a,
    if decidable a then List.filter (λ w, (wr_id w ≟ ap_workflowId a) && (wd_orgId (wr_def w) ≟ orgId)) (db_workflow d)
    else []) (db_approval d)))).

(** ** Listings *)

Definition listWorkflows (orgId : string) (status projectId : option string) : M (list WorkflowRow) :=
  gets (λ d, List.filter (λ w,
    (wd_orgId (wr_def w) ≟ orgId)
    && match status with Some s => (s ≟ "") || (WorkflowStatus_str (wr_status w) ≟ s) | None => true end
    && match projectId with Some p => (p ≟ "") || (wd_projectId (wr_def w) ≟ Some p) | None => true end)
    (db_workflow d)).

Record WorkflowWindowRow := {
  ww_workflowId : string; ww_windowStartUtc : option Z; ww_windowEndUtc : option Z
}.

(** [MIN] and [MAX] skip nulls. *)
Definition sql_agg (f : Z → Z → Z) (l : list (option Z)) : option Z :=
  foldl (λ acc x, match acc, x with Some a, Some b => Some (f a b) | None, _ => x | _, None => acc end) None l.

Definition window_row (rows : list TaskRow) (workflowId : string) : list WorkflowWindowRow :=
  match List.filter (λ t, tr_workflowId t ≟ workflowId) rows with
  | [] => []
  | own => [{| ww_workflowId := workflowId;
               ww_windowStartUtc := sql_agg Z.min (map (λ t, td_plannedStartUtc (tr_def t)) own);
               ww_windowEndUtc := sql_agg Z.max (map (λ t, td_plannedEndUtc (tr_def t)) own) |}]
  end.

(** One row per requested workflow that has tasks, in the order of the request. *)
Definition listWorkflowWindows (workflowIds : list string) : M (list WorkflowWindowRow) :=
  gets (λ d, concat (map (window_row (db_task d)) (remove_dups workflowIds))).

(** [ORDER BY created_at DESC]. *)
Fixpoint event_insert (x : EventRow) (l : list EventRow) : list EventRow :=
  match l with
  | [] => [x]
  | y :: r => if er_createdAt y <=? er_createdAt x then x :: y :: r else y :: event_insert x r
  end.

Definition latest_first (l : list EventRow) : list EventRow := foldr event_insert [] l.

Definition listWorkflowEvents (workflowId : string) (limit : Z) : M (list EventRow) :=
  gets (λ d, take (Z.to_nat (Z.max 1 (Z.min 500 limit)))
               (latest_first (List.filter (λ e, er_workflowId e ≟ workflowId) (db_event d)))).

Record AgentHitlEvent := {
  ah_id : string; ah_taskKey : option string; ah_childRunId : option string; ah_childRunStatus : option string;
  ah_createdAt : Z
}.

(** [typeof v === "string" ? v : null]. *)
Definition string_or_null (v : option json) : option string := match v with Some (JStr s) => Some s | _ => None end.

Definition hitl_event (e : EventRow) : AgentHitlEvent := {|
  ah_id := er_id e; ah_taskKey := er_taskKey e;
  ah_childRunId := string_or_null (er_payload e ≫= jprop "childRunId");
  ah_childRunStatus := string_or_null (er_payload e ≫= jprop "status"); ah_createdAt := er_createdAt e |}.

Definition listAgentHitlEvents (workflowId : string) : M (list AgentHitlEvent) :=
  gets (λ d, map hitl_event (latest_first
    (List.filter (λ e, (er_workflowId e ≟ workflowId) && (er_kind e ≟ "agent_hitl")) (db_event d)))).

Definition listWorkflowArtifacts (workflowId : string) (taskId : option string) : M (list ArtifactRow) :=
  gets (λ d, List.filter (λ a, (ar_workflowId a ≟ workflowId)
    && match taskId with Some t => (t ≟ "") || (ar_taskId a ≟ t) | None => true end) (db_artifact d)).

(** ** Theorems *)

Section theorems.
Context `{Runtime}.

Lemma first_where_set (f : ApprovalRow → ApprovalRow) p l x :
  (∀ a, ap_id (f a) = ap_id a) →
  first_where (λ a, ap_id a ≟ x) (set_where p f l) =
  (λ a, if p a then f a else a) <$> first_where (λ a, ap_id a ≟ x) l.
Proof.
  intros Hf. unfold first_where, set_where. induction l as [|a l IH]; [done|]. cbn.
  destruct (p a) eqn:E; rewrite ?Hf; case_bool_decide; cbn; rewrite ?E; done.
Qed.

Lemma first_where_unique l x (a b : ApprovalRow) :
  NoDup (map ap_id l) → first_where (λ a, ap_id a ≟ x) l = Some b → a ∈ l → ap_id a = x → a = b.
Proof.
  intros Hnd Hb Ha Hx. apply find_some in Hb as [Hin Hid]. apply bool_decide_eq_true in Hid.
  apply (row_unique ap_id l); [done|done|by apply list_elem_of_In|congruence].
Qed.

Lemma filter_hit q l x b :
  NoDup (map ap_id l) → q b = true → first_where (λ a, ap_id a ≟ x) l = Some b →
  List.filter (λ a, (ap_id a ≟ x) && q a) l = [b].
Proof.
  intros Hnd Hq. unfold first_where. induction l as [|a l IH]; [done|]. cbn.
  apply NoDup_cons in Hnd as [Hn Hd]. case_bool_decide as E; cbn; [|auto].
  intros [= ->]. rewrite Hq. f_equal. apply filter_none. intros c Hc. rewrite bool_decide_false; [done|].
  intros Ec. apply Hn. rewrite E, <- Ec. by apply list_elem_of_fmap_2.
Qed.

(** The transaction on tables where the row [b] has the given id. *)
Lemma decide_tx_refused input policy s b :
  NoDup (map ap_id (db_approval (st_db s))) → approval_by_id (di_approvalId input) (st_db s) = Some b →
  decidable b = false →
  st_db (decide_tx input policy s).1 = st_db s ∧ (decide_tx input policy s).2 = Ok (refusal (Some b)).
Proof.
  intros Hnd Hb Hd.
  assert (Hno : ∀ a, a ∈ db_approval (st_db s) → (ap_id a ≟ di_approvalId input) && decidable a = false).
  { intros a Ha. case_bool_decide as E; [|done]. by rewrite (first_where_unique _ _ a b Hnd Hb Ha E). }
  unfold decide_tx, transaction, update_approval, readApprovalById, mbind, M_bind, new_Date, draw, gets, modify,
    mret, M_ret. cbn.
  rewrite filter_none, set_where_id by done. cbn. unfold approval_by_id, first_where in *. cbn. rewrite Hb. cbn.
  by destruct (st_db s).
Qed.

Definition decision_won (input : DecideInput) (policy : RejectionPolicy) (b : ApprovalRow) : DecideResult := {|
  dr_ok := true; dr_reason := None; dr_workflowId := Some (ap_workflowId b); dr_taskId := Some (ap_taskId b);
  dr_rejectionPolicy := if di_decision input ≟ ad_approved then None else Some policy |}.

Lemma decide_tx_won input policy s b :
  NoDup (map ap_id (db_approval (st_db s))) → approval_by_id (di_approvalId input) (st_db s) = Some b →
  decidable b = true →
  ∃ t t', st_db (decide_tx input policy s).1 = with_approval (st_db s)
      (set_where (λ a, (ap_id a ≟ di_approvalId input) && decidable a)
         (approval_decided (decision_status (di_decision input) policy) (di_decidedBy input) t
            (di_reason input) t') (db_approval (st_db s))) ∧
    (decide_tx input policy s).2 = Ok (decision_won input policy b).
Proof.
  intros Hnd Hb Hd. pose proof (filter_hit decidable _ _ _ Hnd Hd Hb) as E.
  unfold decide_tx, transaction, update_approval, mbind, M_bind, new_Date, draw, gets, modify, mret, M_ret. cbn.
  rewrite E. cbn. eauto.
Qed.

(** The status written is one the transition matrix allows from pending, except
    for the default rejection: needs_revision is not reachable from pending. *)
Lemma decision_status_legal decision policy :
  decision_status decision policy ≠ aps_pending ∧
  canTransition k_approval "pending" (ApprovalStatus_str (decision_status decision policy))
  = negb (decision_status decision policy ≟ aps_needs_revision).
Proof. by destruct decision, policy. Qed.

End theorems.

(** ** An approval on which the theorem is instantiated *)

Definition sample_approval : ApprovalRow := {|
  ap_id := "ap1"; ap_workflowId := "w1"; ap_taskId := "t2"; ap_requiredScope := JObj [("level", JStr "organization")];
  ap_resolvedApproverIds := None; ap_solicitationSchedule := None; ap_deadlineUtc := None;
  ap_reviewPacketHash := Some "h"; ap_status := aps_pending; ap_rejectionPolicy := Some rp_skip;
  ap_invalidatedAt := None; ap_notificationState := Some (JObj [("solicitedAt", JStr "2026-03-01T09:00:00.000Z")]);
  ap_decidedBy := None; ap_decidedAt := None; ap_reason := None; ap_createdAt := 0; ap_updatedAt := 0 |}.

Definition approval_st : St := sample_st (with_approval ready_db [sample_approval]).

Definition rejection : DecideInput :=
  {| di_approvalId := "ap1"; di_decidedBy := "u2"; di_decision := ad_rejected; di_reason := Some "no" |}.

(** The approvers are stored between the read and the decision. *)
Definition resolver_session : M unit := persistResolvedApprovers "ap1" ["u2"].


(** ** The inbox *)

Section inbox.
Implicit Types d : DB.

Definition older (x y : PendingApprovalSummary) : Prop := ps_createdAt x <= ps_createdAt y.

Lemma summary_insert_perm x l : summary_insert x l ≡ₚ x :: l.
Proof. induction l as [|y l IH]; [done|]. cbn. destruct (_ <=? _); [done|]. rewrite IH. by constructor. Qed.

Lemma oldest_first_perm l : oldest_first l ≡ₚ l.
Proof. induction l as [|x l IH]; [done|]. cbn. by rewrite summary_insert_perm, IH. Qed.

Lemma summary_insert_sorted x l : Sorted older l → Sorted older (summary_insert x l).
Proof.
  induction 1 as [|y l Hs IH Hy]; cbn; [by repeat constructor|].
  destruct (_ <=? _) eqn:E; bprop; [constructor; by constructor|]. constructor; [done|].
  destruct Hy as [|z l Hz]; cbn; [constructor; unfold older; lia|].
  destruct (_ <=? _); constructor; [unfold older; lia|done].
Qed.

Lemma oldest_first_sorted l : Sorted older (oldest_first l).
Proof. induction l as [|x l IH]; [constructor|]. by apply summary_insert_sorted. Qed.

(** The row an open approval contributes. *)
Definition summary_of (a : ApprovalRow) (w : WorkflowRow) (t : TaskRow) : PendingApprovalSummary := {|
  ps_approvalId := ap_id a; ps_workflowId := ap_workflowId a; ps_workflowName := wd_name (wr_def w);
  ps_taskId := ap_taskId a; ps_taskKey := tr_key t; ps_taskTitle := td_title (tr_def t);
  ps_requiredScope := ap_requiredScope a; ps_deadlineUtc := ap_deadlineUtc a; ps_createdAt := ap_createdAt a |}.

Lemma pending_summary_elem d orgId a x :
  x ∈ pending_summary d orgId a ↔ decidable a = true ∧ ∃ w t, w ∈ db_workflow d ∧ t ∈ db_task d ∧
    wr_id w = ap_workflowId a ∧ wd_orgId (wr_def w) = orgId ∧ tr_id t = ap_taskId a ∧ x = summary_of a w t.
Proof.
  unfold pending_summary. destruct (decidable a); cbn [negb]; [|split; [by intros ?%elem_of_nil|by intros []]].
  rewrite list_elem_of_In, in_concat. split.
  - intros (l & (w & <- & Hw)%in_map_iff & Hx). split; [done|]. exists w.
    destruct (_ && _) eqn:E; cbn [negb] in Hx; [|done]. bprop.
    apply in_map_iff in Hx as (t & <- & [Ht Hi]%List.filter_In). bprop. exists t.
    split_and!; [by apply list_elem_of_In|by apply list_elem_of_In|done..].
  - intros (_ & w & t & Hw & Ht & Ew & Eo & Et & ->). eexists. split.
    + apply in_map_iff. exists w. split; [reflexivity|by apply list_elem_of_In].
    + rewrite !bool_decide_true by done. cbn. apply in_map_iff. exists t. split; [done|].
      apply List.filter_In. split; [by apply list_elem_of_In|by apply bool_decide_true].
Qed.

(** Exactly one task row has the id. *)
Lemma one_task d i : NoDup (map tr_id (db_task d)) → (∃ t, t ∈ db_task d ∧ tr_id t = i) →
  length (List.filter (λ t, tr_id t ≟ i) (db_task d)) = 1%nat.
Proof.
  intros Hn (t & Ht & Hi). induction (db_task d) as [|u l IH]; [by apply elem_of_nil in Ht|].
  apply NoDup_cons in Hn as [Hu Hn]. cbn. case_bool_decide as E.
  - cbn. f_equal. rewrite filter_none; [done|]. intros x Hx. apply bool_decide_false. intros Ex. apply Hu.
    rewrite E, <- Ex. by apply list_elem_of_fmap_2.
  - apply elem_of_cons in Ht as [->|Ht]; [done|]. by apply IH.
Qed.

Lemma pending_summary_length d orgId a :
  length (List.filter (λ t, tr_id t ≟ ap_taskId a) (db_task d)) = 1%nat →
  length (pending_summary d orgId a) =
  length (if decidable a then List.filter (λ w, (wr_id w ≟ ap_workflowId a) && (wd_orgId (wr_def w) ≟ orgId)) (db_workflow d)
          else []).
Proof.
  intros Ht. unfold pending_summary. destruct (decidable a); [|done]. cbn [negb].
  induction (db_workflow d) as [|w ws IH]; [done|]. cbn [map concat List.filter].
  rewrite length_app, IH. destruct (_ && _); cbn [negb length]; [by rewrite length_map, Ht|done].
Qed.

(** The approvals inbox of an organization lists exactly the approvals a
    decision can still win on (pending, solicited, not invalidated) whose
    workflow belongs to it, each with its workflow and task, longest-waiting
    first; and the badge counts the rows of that list. *)
Theorem inbox_spec orgId s
    (Htask : NoDup (map tr_id (db_task (st_db s))))
    (Hfk : ∀ a, a ∈ db_approval (st_db s) → ∃ t, t ∈ db_task (st_db s) ∧ tr_id t = ap_taskId a) :
  ∃ l, listPendingApprovalsForOrg orgId s = (s, Ok l) ∧
    (∀ x, x ∈ l ↔ ∃ a w t, a ∈ db_approval (st_db s) ∧ decidable a = true ∧ w ∈ db_workflow (st_db s) ∧
       t ∈ db_task (st_db s) ∧ wr_id w = ap_workflowId a ∧ wd_orgId (wr_def w) = orgId ∧ tr_id t = ap_taskId a ∧
       x = summary_of a w t) ∧
    Sorted older l ∧ countPendingWorkflowApprovalsForOrg orgId s = (s, Ok (length l)).
Proof.
  eexists. split; [reflexivity|]. split_and!; [|apply oldest_first_sorted|].
  - intros x. rewrite oldest_first_perm, list_elem_of_In, in_concat. split.
    + intros (l & (a & <- & Ha)%in_map_iff & Hx%list_elem_of_In). apply pending_summary_elem in Hx as (Hd & w & t & Hx).
      exists a, w, t. apply list_elem_of_In in Ha. naive_solver.
    + intros (a & w & t & Ha & Hd & Hx). exists (pending_summary (st_db s) orgId a).
      split; [apply in_map, list_elem_of_In, Ha|]. apply list_elem_of_In, pending_summary_elem. naive_solver.
  - unfold countPendingWorkflowApprovalsForOrg, gets. do 2 f_equal.
    rewrite oldest_first_perm. revert Hfk. induction (db_approval (st_db s)) as [|a l IH]; intros Hfk; [done|].
    cbn [map concat]. rewrite !length_app, IH by (intros; apply Hfk; by right). f_equal.
    symmetry. apply pending_summary_length, one_task; [done|]. apply Hfk. left.
Qed.

Lemma inbox_spec_witness : ∃ l,
  listPendingApprovalsForOrg "o1" approval_st = (approval_st, Ok l) ∧ length l = 1%nat ∧ Sorted older l.
Proof.
  destruct (inbox_spec "o1" approval_st) as (l & Hl & _ & Hs & Hc).
  - apply (bool_decide_unpack _). vm_compute. exact I.
  - intros a [->|[]%elem_of_nil]%elem_of_cons. exists (plain_task "t2" "agent_task" ts_idle). split; [right; left|reflexivity].
  - exists l. split; [exact Hl|]. split; [|exact Hs]. vm_compute in Hl. injection Hl as <-. reflexivity.
Defined.
End inbox.
