(* ===== verification/Edits.v ===== *)
(** * Narrow edits of a workflow ([store.ts])

    The changes the timeline makes: move one task, move the target date, delete
    a task, add or remove a dependency, rename, and change the status.  Each
    reconstructs the spec from the tables, patches that object, validates the
    result like a full update and hands it to [updateWorkflowDraftSpec] under
    the lock version the caller saw.

    [resolveSchedule] is called on the reconstructed object; [spec_view] is that
    object as the record the resolver reads.  [others] is what other sessions
    commit between the reads of an edit and its transaction. *)

From S2P Require Import Prelude Json Time Spec Limits Transitions Gates Store Ops Reconciler Validate Resolver Drafts Access.
Open Scope Z_scope.

(** ** Durations *)

(** [msToIsoDuration] of a whole number of milliseconds: rounded to seconds,
    in days, hours, minutes and seconds, zero parts left out. *)
Definition msToIsoDuration (absMs : Z) : string :=
  if absMs <=? 0 then "PT0S"
  else
    let s := (absMs + 500) / 1000 in
    let days := s / 86400 in let s := s - days * 86400 in
    let hours := s / 3600 in let s := s - hours * 3600 in
    let minutes := s / 60 in let seconds := s - minutes * 60 in
    let out := "P" +:+ (if 0 <? days then show_Z days +:+ "D" else "") in
    if (0 <? hours) || (0 <? minutes) || (0 <? seconds) || (out ≟ "P") then
      let out := out +:+ "T" in
      let out := out +:+ (if 0 <? hours then show_Z hours +:+ "H" else "") in
      let out := out +:+ (if 0 <? minutes then show_Z minutes +:+ "M" else "") in
      out +:+ (if (0 <? seconds) || (out ≟ "PT") then show_Z seconds +:+ "S" else "")
    else out.

Example msToIsoDuration_examples :
  map msToIsoDuration [0; 499; 1000; 10800000; 129600000; 1814400000; 86401000]
  = ["PT0S"; "PT0S"; "PT1S"; "PT3H"; "P1DT12H"; "P21D"; "P1DT1S"].
Proof. vm_compute. reflexivity. Qed.

(** ** Patching a reconstructed spec *)

Definition props (v : json) : list (string * json) := match v with JObj kvs => kvs | _ => [] end.
Definition elements (v : option json) : list json := match v with Some (JArr l) => l | _ => [] end.
Definition jremove (k : string) (kvs : list (string * json)) : list (string * json) :=
  List.filter (λ kv, negb (kv.1 ≟ k)) kvs.

Definition tasks_of (spec : json) : list json := elements (jprop "tasks" spec).
Definition has_key (key : string) (t : json) : bool := jprop "key" t ≟ Some (JStr key).
Definition find_task (spec : json) (key : string) : option json := List.find (has_key key) (tasks_of spec).
Definition spec_edges (t : json) : list json := elements (jprop "dependsOn" t).

(** [{ ...spec, tasks: tasks.map(t => t.key === key ? f(t) : t) }]. *)
Definition with_tasks (spec : json) (tasks : list json) : json := JObj (jset "tasks" (JArr tasks) (props spec)).
Definition patch_task (spec : json) (key : string) (f : list (string * json) → list (string * json)) : json :=
  with_tasks spec (map (λ t, if has_key key t then JObj (f (props t)) else t) (tasks_of spec)).

(** ** The object the resolver reads *)

Definition anchorPoint_view (v : option json) : option ScheduleAnchorPoint :=
  match str_of v with
  | Some "start" => Some ap_start | Some "end" => Some ap_end | Some "due" => Some ap_due | _ => None
  end.

Definition schedule_view (v : json) : option ScheduleSpec :=
  match str_of (jprop "mode" v) with
  | Some "absolute" => Some (Absolute {|
      abs_at := str_of (jprop "at" v) ?? ""; abs_tz := str_of (jprop "tz" v);
      abs_anchorPoint := anchorPoint_view (jprop "anchorPoint" v);
      abs_durationIso8601 := str_of (jprop "durationIso8601" v) |})
  | Some "relative" => Some (Relative {|
      rel_anchor := str_of (jprop "anchor" v) ?? ""; rel_offsetIso8601 := str_of (jprop "offsetIso8601" v) ?? "";
      rel_direction := if str_of (jprop "direction" v) ≟ Some "before" then sd_before else sd_after;
      rel_localTime := str_of (jprop "localTime" v); rel_tz := str_of (jprop "tz" v);
      rel_anchorPoint := anchorPoint_view (jprop "anchorPoint" v);
      rel_durationIso8601 := str_of (jprop "durationIso8601" v) |})
  | _ => None
  end.

(** The value, if it is a boolean. *)
Definition bool_of (v : option json) : option bool := match v with Some (JBool b) => Some b | _ => None end.

Definition task_view (t : json) : TaskSpec := {|
  t_key := str_of (jprop "key" t) ?? ""; t_title := str_of (jprop "title" t) ?? ""; t_required := None;
  t_pinned := bool_of (jprop "pinned" t); t_risk := None; t_parent := str_of (jprop "parent" t);
  t_schedule := jprop "schedule" t ≫= schedule_view; t_dependsOn := None; t_assignee := None;
  t_failurePolicy := None; t_missedWindowPolicy := None; t_retryPolicy := None; t_maxAttempts := None;
  t_cancelPolicy := None; t_body := WaitTask; t_foreach := None |}.

Definition target_view (v : json) : option Target :=
  (λ tz, {| tg_at := str_of (jprop "at" v); tg_tz := tz |}) <$> str_of (jprop "tz" v).

Definition spec_view (spec : json) : WorkflowSpec := {|
  w_key := None; w_name := str_of (jprop "name" spec) ?? ""; w_product := None;
  w_target := jprop "target" spec ≫= target_view; w_placeholders := None;
  w_tasks := map task_view (tasks_of spec); w_metadata := None |}.

(** ** Results *)

Record EditResult := {
  ed_ok : bool; ed_reason : option string; ed_lockVersion : option Z; ed_dependents : list string;
  ed_errors : list StructuredSpecError
}.

Definition edit_refused (reason : string) : EditResult :=
  {| ed_ok := false; ed_reason := Some reason; ed_lockVersion := None; ed_dependents := []; ed_errors := [] |}.

Definition edit_blocked (reason : string) (dependents : list string) : EditResult :=
  {| ed_ok := false; ed_reason := Some reason; ed_lockVersion := None; ed_dependents := dependents; ed_errors := [] |}.

Definition edit_invalid (errors : list StructuredSpecError) : EditResult :=
  {| ed_ok := false; ed_reason := Some "invalid_spec"; ed_lockVersion := None; ed_dependents := [];
     ed_errors := errors |}.

Definition edit_of (r : UpdateDraftResult) : EditResult :=
  {| ed_ok := ur_ok r; ed_reason := if ur_ok r then None else ur_reason r;
     ed_lockVersion := if ur_ok r then ur_lockVersion r else None; ed_dependents := []; ed_errors := [] |}.

Inductive RescheduleTaskMode := rm_pin | rm_reoffset.
#[export] Instance RescheduleTaskMode_eq_dec : EqDecision RescheduleTaskMode.
Proof. solve_decision. Defined.

Section edits.
Context `{Runtime} `{DateEnv}.
Context (safeParse : json → result (list ZodIssue) WorkflowSpec) (others : M unit).

(** The gate every edit shares: the template tier and the trigger lint. *)
Definition validatePatchedSpec (raw : json) : result (list StructuredSpecError) WorkflowSpec :=
  let tpl := validateTemplate safeParse raw in
  match vr_ok tpl, vr_spec tpl with
  | true, Some spec =>
      match lintWorkflowSpecForTriggerBundling spec with
      | [] => Ok spec
      | lint => Err (map (λ l, spec_error (tl_code l) (tl_message l) (Some (tl_path l))) lint)
      end
  | _, _ => Err (vr_errors tpl)
  end.

(** The common end of the edits. *)
Definition commit_patch (workflowId : string) (expectedLockVersion : Z) (excludeFromFreeze : list string)
    (patched : json) : M EditResult :=
  match validatePatchedSpec patched with
  | Err errors => mret (edit_invalid errors)
  | Ok spec =>
      res ← updateWorkflowDraftSpec others
        {| ui_workflowId := workflowId; ui_spec := spec; ui_name := None; ui_product := None;
           ui_expectedLockVersion := expectedLockVersion; ui_excludeFromFreeze := excludeFromFreeze |};
      mret (edit_of res)
  end.

(** ** Moving a task *)

(** The instant a relative schedule counts from, on the current spec. *)
Definition anchor_instant (spec cur : json) : M (result string Z) :=
  let found := λ ms : Instant, match ms with Some z => Ok z | None => Err "anchor_unresolvable" end in
  match jprop "anchor" cur with
  | Some (JStr anchor) =>
      if anchor ≟ TARGET_ANCHOR then
        match truthy_str (jprop "target" spec ≫= λ t, str_of (jprop "at" t)) with
        | None => mret (Err "no_target")
        | Some at_ => mret (found (Date_parse at_))
        end
      else
        clock ← new_Date;
        resolution ← lift ex_range (resolveSchedule clock (spec_view spec) no_options);
        mret (match rr_tasks resolution !! anchor with
              | Some r => found (Date_parse (rt_dueAtUtc r))
              | None => Err "anchor_unresolvable"
              end)
  | _ => mret (Err "anchor_unresolvable")
  end.

(** [{ ...cur, offsetIso8601, direction }] so that the due instant becomes [due]. *)
Definition reoffset (cur : json) (anchorMs due : Z) : json :=
  let diffMs := due - anchorMs in
  JObj (jset "direction" (JStr (if 0 <=? diffMs then "after" else "before"))
         (jset "offsetIso8601" (JStr (msToIsoDuration (Z.abs diffMs))) (props cur))).

Definition is_mode (mode : string) (cur : option json) : bool := (cur ≫= jprop "mode") ≟ Some (JStr mode).

Definition set_schedule (schedule : json) (pinned : option bool) (kvs : list (string * json))
    : list (string * json) :=
  let kvs := jset "schedule" schedule kvs in
  match pinned with Some b => jset "pinned" (JBool b) kvs | None => kvs end.

(** The pinned schedule; an absolute one keeps its zone and anchor point. *)
Definition pinned_schedule (cur : option json) (newDue : Z) : json :=
  let keep := λ k, if is_mode "absolute" cur then fld_if k (cur ≫= jprop k) else [] in
  JObj ([("mode", JStr "absolute"); ("at", JStr (iso_text newDue))]
        ++ keep "tz" ++ keep "durationIso8601" ++ keep "anchorPoint").

Definition rescheduleWorkflowTask (workflowId taskKey newDueAtUtc : string) (mode : RescheduleTaskMode)
    (expectedLockVersion : Z) : M EditResult :=
  match Date_parse newDueAtUtc with
  | None => mret (edit_refused "invalid_target")
  | Some newDue =>
      spec ← reconstructSpec workflowId; others;;
      match spec with
      | None => mret (edit_refused "not_found")
      | Some spec =>
          match find_task spec taskKey with
          | None => mret (edit_refused "task_not_found")
          | Some task =>
              let cur := jprop "schedule" task in
              if ((cur ≫= jprop "anchorPoint") ≟ Some (JStr "start")) || truthy (cur ≫= jprop "durationIso8601")
              then mret (edit_refused "unsupported_in_slice")
              else
                let commit := λ schedule pinned,
                  commit_patch workflowId expectedLockVersion [taskKey]
                    (patch_task spec taskKey (set_schedule schedule (Some pinned))) in
                match mode, cur with
                | rm_pin, _ => commit (pinned_schedule cur newDue) true
                | rm_reoffset, Some c =>
                    if negb (is_mode "relative" cur) then mret (edit_refused "not_relative")
                    else
                      anchor ← anchor_instant spec c;
                      match anchor with
                      | Err reason => mret (edit_refused reason)
                      | Ok anchorMs => commit (reoffset c anchorMs newDue) false
                      end
                | rm_reoffset, None => mret (edit_refused "not_relative")
                end
          end
      end
  end.

(** The schedule a bar from [start] to [end_] gives a task without a relative one. *)
Definition window_schedule (cur : option json) (start end_ : Z) : json :=
  let durMs := end_ - start in
  JObj ([("mode", JStr "absolute"); ("at", JStr (iso_text end_))] ++ fld_if "tz" (cur ≫= jprop "tz") ++
        (if 60000 <=? durMs then [("durationIso8601", JStr (msToIsoDuration durMs))] else [])).

Definition applyWorkflowTaskWindow (workflowId taskKey startAtUtc endAtUtc : string) (expectedLockVersion : Z)
    : M EditResult :=
  match Date_parse startAtUtc, Date_parse endAtUtc with
  | Some start, Some end_ =>
      if end_ <? start then mret (edit_refused "invalid_target")
      else
        spec ← reconstructSpec workflowId; others;;
        match spec with
        | None => mret (edit_refused "not_found")
        | Some spec =>
            match find_task spec taskKey with
            | None => mret (edit_refused "task_not_found")
            | Some task =>
                taskRow ← gets (λ d, first_where (λ t, (tr_workflowId t ≟ workflowId) && (tr_key t ≟ taskKey))
                                       (db_task d));
                if match taskRow with
                   | Some r => negb (tr_status r ≟ ts_idle) && negb (tr_status r ≟ ts_scheduled)
                   | None => false
                   end then mret (edit_refused "task_not_editable")
                else
                  let cur := jprop "schedule" task in
                  let commit := λ schedule, commit_patch workflowId expectedLockVersion [taskKey]
                    (patch_task spec taskKey (set_schedule schedule None)) in
                  match cur with
                  | Some c =>
                      if is_mode "relative" cur then
                        if truthy (jprop "durationIso8601" c)
                           || (truthy (jprop "anchorPoint" c) && negb (jprop "anchorPoint" c ≟ Some (JStr "due")))
                        then mret (edit_refused "unsupported_in_slice")
                        else
                          anchor ← anchor_instant spec c;
                          match anchor with
                          | Err reason => mret (edit_refused reason)
                          | Ok anchorMs => commit (reoffset c anchorMs end_)
                          end
                      else commit (window_schedule cur start end_)
                  | None => commit (window_schedule cur start end_)
                  end
            end
        end
  | _, _ => mret (edit_refused "invalid_target")
  end.

(** ** Moving the target date *)

Definition rescheduleWorkflow (workflowId newTargetAt : string) (expectedLockVersion : Z) : M EditResult :=
  match Date_parse newTargetAt with
  | None => mret (edit_refused "invalid_target")
  | Some newTarget =>
      spec ← reconstructSpec workflowId; others;;
      match spec with
      | None => mret (edit_refused "not_found")
      | Some spec =>
          match jprop "target" spec with
          | None => mret (edit_refused "no_target")
          | Some target =>
              commit_patch workflowId expectedLockVersion []
                (JObj (jset "target" (JObj (jset "at" (JStr (iso_text newTarget)) (props target))) (props spec)))
          end
      end
  end.

(** ** Deleting a task *)

(** The keys of the other tasks that satisfy the test, as a sorted set. *)
Definition blockers (spec : json) (taskKey : string) (p : json → bool) : list string :=
  js_sort (dedup (omap (λ t, str_of (jprop "key" t))
    (List.filter (λ t, negb (has_key taskKey t) && p t) (tasks_of spec)))).

Definition depends_upon (taskKey : string) (t : json) : bool :=
  existsb (λ e, jprop "taskKey" e ≟ Some (JStr taskKey)) (spec_edges t).

Definition anchored_to (taskKey : string) (t : json) : bool :=
  let s := jprop "schedule" t in is_mode "relative" s && ((s ≫= jprop "anchor") ≟ Some (JStr taskKey)).

(** The spec without the task; its children move to the top level. *)
Definition without_task (spec : json) (taskKey : string) : json :=
  with_tasks spec
    (map (λ t, if jprop "parent" t ≟ Some (JStr taskKey) then JObj (jremove "parent" (props t)) else t)
      (List.filter (λ t, negb (has_key taskKey t)) (tasks_of spec))).

Definition deleteWorkflowTask (workflowId taskKey : string) (expectedLockVersion : Z) : M EditResult :=
  spec ← reconstructSpec workflowId; others;;
  match spec with
  | None => mret (edit_refused "not_found")
  | Some spec =>
      match find_task spec taskKey with
      | None => mret (edit_refused "task_not_found")
      | Some _ =>
          match blockers spec taskKey (depends_upon taskKey) with
          | [] =>
              match blockers spec taskKey (anchored_to taskKey) with
              | [] => commit_patch workflowId expectedLockVersion [] (without_task spec taskKey)
              | anchors => mret (edit_blocked "has_anchors" anchors)
              end
          | dependents => mret (edit_blocked "has_dependents" dependents)
          end
      end
  end.

(** ** Dependencies *)

Definition addWorkflowDependency (workflowId taskKey dependsOnKey : string) (expectedLockVersion : Z)
    : M EditResult :=
  if taskKey ≟ dependsOnKey then mret (edit_refused "self_loop")
  else
    spec ← reconstructSpec workflowId; others;;
    match spec with
    | None => mret (edit_refused "not_found")
    | Some spec =>
        match find_task spec taskKey, find_task spec dependsOnKey with
        | Some task, Some _ =>
            if depends_upon dependsOnKey task then mret (edit_refused "duplicate")
            else
              commit_patch workflowId expectedLockVersion []
                (patch_task spec taskKey
                   (jset "dependsOn" (JArr (spec_edges task ++ [JObj [("taskKey", JStr dependsOnKey)]]))))
        | _, _ => mret (edit_refused "task_not_found")
        end
    end.

Definition removeWorkflowDependency (workflowId taskKey dependsOnKey : string) (expectedLockVersion : Z)
    : M EditResult :=
  spec ← reconstructSpec workflowId; others;;
  match spec with
  | None => mret (edit_refused "not_found")
  | Some spec =>
      match find_task spec taskKey with
      | None => mret (edit_refused "task_not_found")
      | Some _ =>
          commit_patch workflowId expectedLockVersion []
            (patch_task spec taskKey (λ kvs, jset "dependsOn"
               (JArr (List.filter (λ e, negb (jprop "taskKey" e ≟ Some (JStr dependsOnKey)))
                        (spec_edges (JObj kvs)))) kvs))
      end
  end.

(** ** Status and name *)

Definition updateWorkflowStatusCas (workflowId : string) (toStatus : WorkflowStatus) (expectedLockVersion : Z)
    : M bool :=
  current ← select_workflow workflowId;
  match current with
  | None => mret false
  | Some current =>
      if negb (wr_lockVersion current =? expectedLockVersion) then mret false
      else
        lift ex_transition
          (assertTransition k_workflow (WorkflowStatus_str (wr_status current)) (WorkflowStatus_str toStatus));;
        others;;
        now ← new_Date;
        updated ← update_workflow (workflow_cas workflowId expectedLockVersion)
          (workflow_set toStatus (expectedLockVersion + 1) now);
        mret (negb (length updated =? 0)%nat)
  end.

Definition workflow_renamed (name : string) (lockVersion updatedAt : Z) (w : WorkflowRow) : WorkflowRow :=
  let d := wr_def w in {|
  wr_def := {| wd_id := wd_id d; wd_sourceTemplateId := wd_sourceTemplateId d;
    wd_sourceTemplateVersion := wd_sourceTemplateVersion d; wd_name := name; wd_product := wd_product d;
    wd_targetAtUtc := wd_targetAtUtc d; wd_targetTz := wd_targetTz d; wd_ownerLevel := wd_ownerLevel d;
    wd_ownerId := wd_ownerId d; wd_orgId := wd_orgId d; wd_projectId := wd_projectId d;
    wd_createdBy := wd_createdBy d; wd_specVersion := wd_specVersion d; wd_createdAt := wd_createdAt d |};
  wr_status := wr_status w; wr_lockVersion := lockVersion; wr_updatedAt := updatedAt |}.

Definition renameWorkflowCas (workflowId newName : string) (expectedLockVersion : Z) : M UpdateDraftResult :=
  let trimmed := trim newName in
  if trimmed ≟ "" then mret (update_refused "invalid_name")
  else
    current ← select_workflow workflowId;
    match current with
    | None => mret (update_refused "not_found")
    | Some current =>
        if negb (wr_lockVersion current =? expectedLockVersion) then mret (update_refused "stale")
        else
          others;;
          now ← new_Date;
          updated ← update_workflow (workflow_cas workflowId expectedLockVersion)
            (workflow_renamed trimmed (expectedLockVersion + 1) now);
          mret (if (length updated =? 0)%nat then update_refused "stale"
                else {| ur_ok := true; ur_reason := None; ur_lockVersion := Some (expectedLockVersion + 1) |})
    end.
End edits.
