(* ===== verification/Timeline.v ===== *)
(** * What the timeline's edits do

    A duration printed by [msToIsoDuration] is read back by [parseIsoDuration]
    ([msToIsoDuration_parse]), so a task moved by a new offset lands on the
    instant it was dragged to ([reoffset_lands]); and every narrow edit is a
    refusal that writes nothing or one full update with a spec that passed the
    gates ([narrow_edit_spec]). *)

From Stdlib Require Import Decimal DecimalString DecimalN.
From S2P Require Import Prelude Json Time Spec Limits Transitions Gates Store Ops Reconciler Validate Resolver Drafts Access Edits.
Open Scope Z_scope.

(** ** Durations *)

(** A printed field is read under its letter and left under another. *)
Lemma duration_field_show x c n r : 0 < n → is_digit c = false →
  duration_field x (show_Z n +:+ String c r) = if c ≟ x then (Some (show_Z n), r) else (None, show_Z n +:+ String c r).
Proof.
  intros (a & d & -> & Hd)%Z.lt_le_incl%show_Z_digits Hc. unfold duration_field. by rewrite span_digits_app.
Qed.

(** The duration that stands for a number of seconds. *)
Definition duration_of_seconds (s : Z) : Duration := {|
  years := 0; months := 0; weeks := 0; days := s / 86400; hours := s mod 86400 / 3600;
  minutes := s mod 3600 / 60; seconds := s mod 60 |}.

Lemma duration_field_none x c r : is_digit c = false → duration_field x (String c r) = (None, String c r).
Proof. intros Hc. unfold duration_field. cbn [span_digits]. by rewrite Hc. Qed.

Definition amount (n : Z) : option string := if 0 <? n then Some (show_Z n) else None.

Lemma amount_number n : 0 <= n → duration_number (amount n) = n.
Proof.
  intros Hn. unfold amount. destruct (0 <? n) eqn:E; bprop; cbn [duration_number]; [apply digits_value_show; lia|lia].
Qed.

Lemma str_app_nil_l (a : string) : "" +:+ a = a.
Proof. done. Qed.

(** One group of the duration pattern on a printed text. *)
Ltac duration_step :=
  first [ rewrite duration_field_show by (first [assumption|reflexivity])
        | rewrite duration_field_none by reflexivity ];
  cbv beta iota;
  repeat match goal with
         | |- context [(?a ≟ ?b)] => first [change (a ≟ b) with true | change (a ≟ b) with false]
         end; cbv beta iota.

Lemma duration_parts_printed d h mi s : 0 <= d → 0 <= h → 0 <= mi → 0 <= s → 0 < d ∨ 0 < h ∨ 0 < mi ∨ 0 < s →
  duration_parts ("P" +:+ (if 0 <? d then show_Z d +:+ "D" else "") +:+
    (if (0 <? h) || (0 <? mi) || (0 <? s) then
       "T" +:+ (if 0 <? h then show_Z h +:+ "H" else "") +:+ (if 0 <? mi then show_Z mi +:+ "M" else "") +:+
       (if 0 <? s then show_Z s +:+ "S" else "")
     else ""))
  = Some (Build_DurationParts None None None (amount d) (amount h) (amount mi) (amount s)).
Proof.
  intros Hd Hh Hm Hs Hpos. unfold amount.
  destruct (0 <? d) eqn:Ed, (0 <? h) eqn:Eh, (0 <? mi) eqn:Em, (0 <? s) eqn:Es; bprop; try lia;
    cbn [orb]; rewrite ?str_app_assoc, !str_app_cons, ?str_app_nil_l, ?str_app_nil_r; unfold duration_parts.
  all: repeat duration_step.
  all: reflexivity.
Qed.

(** A text that goes on with a number. *)
Lemma show_ne n r x : 0 < n → match x with String c _ => is_digit c | EmptyString => false end = false →
  (show_Z n +:+ r ≟ x) = false.
Proof.
  intros (c & d & -> & Hd)%Z.lt_le_incl%show_Z_digits Hx. apply bool_decide_false. intros <-. rewrite str_app_cons in Hx.
  cbn in Hd, Hx. by rewrite Hx in Hd.
Qed.

Lemma str_cons_eqb c (a b : string) : (String c a ≟ String c b) = (a ≟ b).
Proof. apply bool_decide_ext. split; [by intros [= ->]|by intros ->]. Qed.

(** The text of the code against the one above: the tests on the text so far
    only matter for the zero duration. *)
Lemma printed_text d h mi s : 0 <= d → 0 <= h → 0 <= mi → 0 <= s → 0 < d ∨ 0 < h ∨ 0 < mi ∨ 0 < s →
  (let out := "P" +:+ (if 0 <? d then show_Z d +:+ "D" else "") in
   if (0 <? h) || (0 <? mi) || (0 <? s) || (out ≟ "P") then
     let out := out +:+ "T" in
     let out := out +:+ (if 0 <? h then show_Z h +:+ "H" else "") in
     let out := out +:+ (if 0 <? mi then show_Z mi +:+ "M" else "") in
     out +:+ (if (0 <? s) || (out ≟ "PT") then show_Z s +:+ "S" else "")
   else out)
  = "P" +:+ (if 0 <? d then show_Z d +:+ "D" else "") +:+
    (if (0 <? h) || (0 <? mi) || (0 <? s) then
       "T" +:+ (if 0 <? h then show_Z h +:+ "H" else "") +:+ (if 0 <? mi then show_Z mi +:+ "M" else "") +:+
       (if 0 <? s then show_Z s +:+ "S" else "")
     else "").
Proof.
  intros Hd Hh Hm Hs Hpos. cbv zeta.
  destruct (0 <? d) eqn:Ed, (0 <? h) eqn:Eh, (0 <? mi) eqn:Em, (0 <? s) eqn:Es; bprop; try lia; cbn [orb];
    rewrite ?str_app_assoc, ?str_app_cons, ?str_app_nil_l, ?str_app_nil_r, ?str_cons_eqb;
    rewrite ?show_ne by (first [assumption|reflexivity]); rewrite ?str_app_nil_r; reflexivity.
Qed.

Lemma msToIsoDuration_parse ms : 0 <= ms →
  parseIsoDuration (msToIsoDuration ms) = Some (duration_of_seconds ((ms + 500) / 1000)).
Proof.
  intros Hms. unfold msToIsoDuration. destruct (ms <=? 0) eqn:E0; bprop.
  { assert (ms = 0) as -> by lia. vm_compute. reflexivity. }
  set (s := (ms + 500) / 1000).
  assert (Hs : 0 <= s) by (unfold s; apply Z.div_pos; lia). clearbody s. clear E0 Hms ms.
  destruct (decide (s = 0)) as [->|Hn]; [vm_compute; reflexivity|].
  unfold duration_of_seconds.
  assert (Hd : 0 <= s / 86400) by (apply Z.div_pos; lia).
  assert (Eh : s - s / 86400 * 86400 = s mod 86400) by (rewrite Z.mod_eq; lia).
  assert (Em : s mod 86400 - s mod 86400 / 3600 * 3600 = s mod 3600) by (Z.div_mod_to_equations; lia).
  assert (Es : s mod 3600 - s mod 3600 / 60 * 60 = s mod 60) by (Z.div_mod_to_equations; lia).
  assert (Hpos : 0 <= s mod 86400 / 3600 ∧ 0 <= s mod 3600 / 60 ∧ 0 <= s mod 60 ∧
    (0 < s / 86400 ∨ 0 < s mod 86400 / 3600 ∨ 0 < s mod 3600 / 60 ∨ 0 < s mod 60)) by (Z.div_mod_to_equations; lia).
  cbv zeta. rewrite Eh, Em, Es. destruct Hpos as (Hh & Hm & Hsec & Hpos).
  pose proof (printed_text _ _ _ _ Hd Hh Hm Hsec Hpos) as Ht. cbv zeta in Ht. rewrite Ht.
  unfold parseIsoDuration. rewrite duration_parts_printed by done. cbn [mbind option_bind from_option].
  cbn [dp_Y dp_Mo dp_W dp_D dp_H dp_Mi dp_S]. by rewrite !amount_number by done.
Qed.

(** ** Moving a task by its offset *)

Definition duration_ms (d : Duration) : Z :=
  days d * 86400000 + hours d * 3600000 + minutes d * 60000 + seconds d * 1000.

Lemma duration_of_seconds_ms s : duration_ms (duration_of_seconds s) = s * 1000.
Proof. unfold duration_ms, duration_of_seconds. cbn. Z.div_mod_to_equations. lia. Qed.

Definition relative_view (v : json) : RelativeSchedule := {|
  rel_anchor := str_of (jprop "anchor" v) ?? ""; rel_offsetIso8601 := str_of (jprop "offsetIso8601" v) ?? "";
  rel_direction := if str_of (jprop "direction" v) ≟ Some "before" then sd_before else sd_after;
  rel_localTime := str_of (jprop "localTime" v); rel_tz := str_of (jprop "tz" v);
  rel_anchorPoint := anchorPoint_view (jprop "anchorPoint" v);
  rel_durationIso8601 := str_of (jprop "durationIso8601" v) |}.

Lemma schedule_view_relative v r :
  schedule_view v = Some (Relative r) ↔ str_of (jprop "mode" v) = Some "relative" ∧ r = relative_view v.
Proof.
  split; [|intros [E ->]; unfold schedule_view; by rewrite E].
  unfold schedule_view. destruct (str_of (jprop "mode" v)) as [m|] eqn:E; [|done].
  destruct (decide (m = "relative")) as [->|Hn]; [by intros [= <-]|].
  intros Hr. exfalso. repeat (case_match; try done).
Qed.

(** What [reoffset] leaves of the object. *)
Lemma reoffset_prop k cur anchorMs due :
  k ≠ "direction" → k ≠ "offsetIso8601" → jprop k (reoffset cur anchorMs due) = jprop k cur.
Proof.
  intros Hd Ho. unfold reoffset. cbn [jprop]. rewrite !jget_jset, !bool_decide_false by done. by destruct cur.
Qed.

Lemma reoffset_view cur anchorMs due : relative_view (reoffset cur anchorMs due) = {|
  rel_anchor := rel_anchor (relative_view cur); rel_offsetIso8601 := msToIsoDuration (Z.abs (due - anchorMs));
  rel_direction := if 0 <=? due - anchorMs then sd_after else sd_before;
  rel_localTime := rel_localTime (relative_view cur); rel_tz := rel_tz (relative_view cur);
  rel_anchorPoint := rel_anchorPoint (relative_view cur);
  rel_durationIso8601 := rel_durationIso8601 (relative_view cur) |}.
Proof.
  assert (Ed : jprop "direction" (reoffset cur anchorMs due) = Some (JStr (if 0 <=? due - anchorMs then "after" else "before")))
    by (unfold reoffset; cbn [jprop]; by rewrite !jget_jset).
  assert (Eo : jprop "offsetIso8601" (reoffset cur anchorMs due) = Some (JStr (msToIsoDuration (Z.abs (due - anchorMs)))))
    by (unfold reoffset; cbn [jprop]; by rewrite !jget_jset).
  unfold relative_view at 1. rewrite Ed, Eo, (reoffset_prop "anchor"), (reoffset_prop "localTime"), (reoffset_prop "tz"),
    (reoffset_prop "anchorPoint"), (reoffset_prop "durationIso8601") by done.
  by destruct (0 <=? due - anchorMs).
Qed.

Section reoffset.
Context `{DateEnv}.

(** The offset of the zone does not change between two instants: calendar days
    and hours that lead from one to the other are exact. *)
Definition steady (tz : string) (from to : Z) : Prop := ∀ d, years d = 0 → months d = 0 → weeks d = 0 →
  (from + duration_ms d = to → tzAdd (Some from) tz d = Some to) ∧
  (from - duration_ms d = to → tzSub (Some from) tz d = Some to).

(** Dragging a task with a relative schedule.  The offset and direction that
    [rescheduleWorkflowTask] and [applyWorkflowTaskWindow] write make the resolver
    land on exactly the instant asked for: the task stays relative to the same
    anchor in the same zone, and from the anchor's instant the new schedule leads
    to [due], provided [due] is a whole number of seconds away, the zone's offset
    does not change in between and the schedule sets no time of day. *)
Theorem reoffset_lands key cur r tz anchorMs due
    (Hcur : schedule_view cur = Some (Relative r)) (Hlocal : rel_localTime r = None)
    (Hseconds : (due - anchorMs) mod 1000 = 0) (Hsteady : steady tz anchorMs due) :
  ∃ r', schedule_view (reoffset cur anchorMs due) = Some (Relative r') ∧
    rel_anchor r' = rel_anchor r ∧ rel_tz r' = rel_tz r ∧ rel_anchorPoint r' = rel_anchorPoint r ∧
    relative_instant key r' tz (Some anchorMs) = (Some due, []).
Proof.
  apply schedule_view_relative in Hcur as [Hmode ->]. exists (relative_view (reoffset cur anchorMs due)).
  split; [apply schedule_view_relative; by rewrite reoffset_prop|]. rewrite reoffset_view. split_and!; [done..|].
  unfold relative_instant. cbn [rel_offsetIso8601 rel_direction rel_localTime]. rewrite Hlocal.
  rewrite msToIsoDuration_parse by lia. cbn [default]. set (n := (Z.abs (due - anchorMs) + 500) / 1000).
  assert (Hn : n * 1000 = Z.abs (due - anchorMs)).
  { unfold n. clear - Hseconds. Z.div_mod_to_equations. lia. }
  destruct (Hsteady (duration_of_seconds n)) as [Hadd Hsub]; [done..|]. rewrite duration_of_seconds_ms, Hn in Hadd, Hsub.
  destruct (0 <=? due - anchorMs) eqn:E; bprop; cbv beta iota zeta delta [id]; [rewrite Hadd by lia|rewrite Hsub by lia]; done.
Qed.
End reoffset.

(** The offset survives a time of day, which then decides the minute: a task at
    nine o'clock dragged to noon stays at nine. *)
Example reoffset_local_time :
  let cur := JObj [("mode", JStr "relative"); ("anchor", JStr "target"); ("offsetIso8601", JStr "P3D");
                   ("direction", JStr "before"); ("localTime", JStr "09:00")] in
  (** the target is noon of 2026-03-10, the drop noon of 2026-03-08 *)
  let target := 1773144000000 in let drop := target - 2 * ms_per_day in
  (λ s, match s with Relative r => (relative_instant "t" r "UTC" (Some target)).1 | _ => None end)
    <$> schedule_view (reoffset cur target drop)
  = Some (Some (drop - 3 * 3600000)).
Proof. vm_compute. reflexivity. Qed.

(** ** The narrow edits *)

Inductive EditRequest :=
  | er_task (taskKey newDueAtUtc : string) (mode : RescheduleTaskMode)
  | er_window (taskKey startAtUtc endAtUtc : string)
  | er_target (newTargetAt : string)
  | er_delete (taskKey : string)
  | er_add (taskKey dependsOnKey : string)
  | er_remove (taskKey dependsOnKey : string).

Section narrow.
Context `{Runtime} `{DateEnv}.
Context (safeParse : json → result (list ZodIssue) WorkflowSpec) (others : M unit).

Definition run_edit (e : EditRequest) (wf : string) (v : Z) : M EditResult :=
  match e with
  | er_task k due mode => rescheduleWorkflowTask safeParse others wf k due mode v
  | er_window k start end_ => applyWorkflowTaskWindow safeParse others wf k start end_ v
  | er_target at_ => rescheduleWorkflow safeParse others wf at_ v
  | er_delete k => deleteWorkflowTask safeParse others wf k v
  | er_add k on => addWorkflowDependency safeParse others wf k on v
  | er_remove k on => removeWorkflowDependency safeParse others wf k on v
  end.

(** [patches j e raw]: the edit [e] asks for the spec [raw] in place of [j].
    Only the named task, edge or date differs, and the guards of the edit hold. *)
Inductive patches (j : json) : EditRequest → json → Prop :=
  | pt_pin k due z task : Date_parse due = Some z → find_task j k = Some task →
      patches j (er_task k due rm_pin)
        (patch_task j k (set_schedule (pinned_schedule (jprop "schedule" task) z) (Some true)))
  | pt_reoffset k due z task cur anchorMs : Date_parse due = Some z → find_task j k = Some task →
      jprop "schedule" task = Some cur → is_mode "relative" (Some cur) = true →
      patches j (er_task k due rm_reoffset) (patch_task j k (set_schedule (reoffset cur anchorMs z) (Some false)))
  | pt_window_move k start end_ a z task cur anchorMs : Date_parse start = Some a → Date_parse end_ = Some z → a <= z →
      find_task j k = Some task → jprop "schedule" task = Some cur → is_mode "relative" (Some cur) = true →
      patches j (er_window k start end_) (patch_task j k (set_schedule (reoffset cur anchorMs z) None))
  | pt_window_set k start end_ a z task : Date_parse start = Some a → Date_parse end_ = Some z → a <= z →
      find_task j k = Some task → is_mode "relative" (jprop "schedule" task) = false →
      patches j (er_window k start end_)
        (patch_task j k (set_schedule (window_schedule (jprop "schedule" task) a z) None))
  | pt_target at_ z target : Date_parse at_ = Some z → jprop "target" j = Some target →
      patches j (er_target at_) (JObj (jset "target" (JObj (jset "at" (JStr (iso_text z)) (props target))) (props j)))
  | pt_delete k task : find_task j k = Some task → blockers j k (depends_upon k) = [] → blockers j k (anchored_to k) = [] →
      patches j (er_delete k) (without_task j k)
  | pt_add k on task other : k ≠ on → find_task j k = Some task → find_task j on = Some other →
      depends_upon on task = false →
      patches j (er_add k on)
        (patch_task j k (jset "dependsOn" (JArr (spec_edges task ++ [JObj [("taskKey", JStr on)]]))))
  | pt_remove k on task : find_task j k = Some task →
      patches j (er_remove k on)
        (patch_task j k (λ kvs, jset "dependsOn"
           (JArr (List.filter (λ e, negb (jprop "taskKey" e ≟ Some (JStr on))) (spec_edges (JObj kvs)))) kvs)).

(** What [reconstructSpec] returns. *)
Definition stored_spec (wf : string) (d : DB) : option json :=
  match (reconstructSpec wf {| st_db := d; st_draws := 0 |}).2 with Ok j => j | Err _ => None end.

Lemma reconstructSpec_run wf s : reconstructSpec wf s = (s, Ok (stored_spec wf (st_db s))).
Proof.
  unfold stored_spec, reconstructSpec, readWorkflow, select_workflow, mbind, M_bind, gets. cbn -[spec_of_rows].
  by destruct (first_where _ _).
Qed.

Definition refused_or_threw (r : result exn EditResult) : Prop :=
  match r with Ok res => ed_ok res = false | Err _ => True end.

Definition edit_result (r : result exn UpdateDraftResult) : result exn EditResult :=
  match r with Ok u => Ok (edit_of u) | Err e => Err e end.

Definition edit_post (e : EditRequest) (wf : string) (v : Z) (s : St) (out : St * result exn EditResult) : Prop :=
  ((st_db out.1 = st_db s ∨ st_db out.1 = st_db (others s).1) ∧ refused_or_threw out.2) ∨
  ∃ j raw spec exclude s2,
    stored_spec wf (st_db s) = Some j ∧ patches j e raw ∧
    vr_ok (validateTemplate safeParse raw) = true ∧ vr_spec (validateTemplate safeParse raw) = Some spec ∧
    lintWorkflowSpecForTriggerBundling spec = [] ∧ st_db s2 = st_db (others s).1 ∧
    let update := updateWorkflowDraftSpec others {| ui_workflowId := wf; ui_spec := spec; ui_name := None;
      ui_product := None; ui_expectedLockVersion := v; ui_excludeFromFreeze := exclude |} s2 in
    out = (update.1, edit_result update.2).

Lemma commit_post e wf v exclude j raw s s2 :
  stored_spec wf (st_db s) = Some j → patches j e raw → st_db s2 = st_db (others s).1 →
  edit_post e wf v s (commit_patch safeParse others wf v exclude raw s2).
Proof.
  intros Hj Hp Hs. unfold commit_patch, validatePatchedSpec.
  destruct (vr_ok (validateTemplate safeParse raw)) eqn:Ev; [|by left; cbn; auto].
  destruct (vr_spec (validateTemplate safeParse raw)) as [spec|] eqn:Es; [|by left; cbn; auto].
  destruct (lintWorkflowSpecForTriggerBundling spec) eqn:El; [|by left; cbn; auto].
  right. exists j, raw, spec, exclude, s2. split_and!; try done. unfold mbind, M_bind.
  by destruct (updateWorkflowDraftSpec _ _ s2) as [s3 [u|x]].
Qed.
Lemma refuse_post e wf v s s2 r : st_db s2 = st_db s ∨ st_db s2 = st_db (others s).1 → ed_ok r = false →
  edit_post e wf v s ((mret r : M EditResult) s2).
Proof. intros Hs Hr. by left. Qed.

(** The read every edit starts with, and what other sessions commit after it. *)
Lemma read_post e wf v s (k : option json → M EditResult) :
  (∀ s2, st_db s2 = st_db (others s).1 → edit_post e wf v s (k (stored_spec wf (st_db s)) s2)) →
  edit_post e wf v s ((spec ← reconstructSpec wf; others;; k spec) s).
Proof.
  intros Hk. unfold mbind, M_bind. rewrite reconstructSpec_run.
  destruct (others s) as [s1 [u|x]] eqn:E; [by apply Hk|]. left. rewrite E. by split; [right|].
Qed.

Lemma anchor_instant_db spec cur s : st_db (anchor_instant spec cur s).1 = st_db s.
Proof.
  unfold anchor_instant, lift, new_Date, draw, throw, mbind, M_bind. destruct (jprop "anchor" cur) as [[]|]; try done.
  destruct (_ ≟ _); [by destruct (truthy_str _)|]. cbn. by destruct (resolveSchedule _ _ _).
Qed.

(** An anchor that resolves, or not. *)
Lemma anchor_post e wf v s s2 spec cur (k : Z → M EditResult) : st_db s2 = st_db (others s).1 →
  (∀ z s3, st_db s3 = st_db (others s).1 → edit_post e wf v s (k z s3)) →
  edit_post e wf v s ((anchor ← anchor_instant spec cur;
    match anchor with Err reason => mret (edit_refused reason) | Ok z => k z end) s2).
Proof.
  intros Hs Hk. unfold mbind, M_bind. pose proof (anchor_instant_db spec cur s2) as Hd.
  destruct (anchor_instant spec cur s2) as [s3 [[z|r]|x]]; cbn in Hd; rewrite Hs in Hd; [by apply Hk| |].
  - apply refuse_post; auto.
  - left. cbn. auto.
Qed.

Lemma task_post taskKey newDueAtUtc mode wf v s :
  edit_post (er_task taskKey newDueAtUtc mode) wf v s (run_edit (er_task taskKey newDueAtUtc mode) wf v s).
Proof.
  assert (Hrefuse : ∀ r, ed_ok r = false → edit_post (er_task taskKey newDueAtUtc mode) wf v s ((mret r : M EditResult) s)) by (intros; apply refuse_post; auto).
  cbn [run_edit].
  unfold rescheduleWorkflowTask. destruct (Date_parse newDueAtUtc) as [z|] eqn:Ez; [|by apply Hrefuse].
  apply read_post. intros s2 Hs. destruct (stored_spec wf (st_db s)) as [j|] eqn:Ej; [|apply refuse_post; auto].
  destruct (find_task j taskKey) as [task|] eqn:Et; [|apply refuse_post; auto].
  destruct (_ || _); [apply refuse_post; auto|]. cbv zeta. destruct mode.
  - eapply commit_post; [done| |done]. by constructor.
  - destruct (jprop "schedule" task) as [cur|] eqn:Ec; [|apply refuse_post; auto].
    destruct (is_mode "relative" (Some cur)) eqn:Em; [|apply refuse_post; auto]. cbn [negb].
    apply anchor_post; [done|]. intros a s3 Hs3. eapply commit_post; [done| |done]. by econstructor.
Qed.

Lemma window_post taskKey startAtUtc endAtUtc wf v s :
  edit_post (er_window taskKey startAtUtc endAtUtc) wf v s (run_edit (er_window taskKey startAtUtc endAtUtc) wf v s).
Proof.
  assert (Hrefuse : ∀ r, ed_ok r = false → edit_post (er_window taskKey startAtUtc endAtUtc) wf v s ((mret r : M EditResult) s)) by (intros; apply refuse_post; auto).
  cbn [run_edit].
  unfold applyWorkflowTaskWindow. destruct (Date_parse startAtUtc) as [a|] eqn:Ea; [|by apply Hrefuse].
  destruct (Date_parse endAtUtc) as [z|] eqn:Ez; [|by apply Hrefuse].
  destruct (z <? a) eqn:Eza; [by apply Hrefuse|]. apply Z.ltb_ge in Eza.
  apply read_post. intros s2 Hs. destruct (stored_spec wf (st_db s)) as [j|] eqn:Ej; [|apply refuse_post; auto].
  destruct (find_task j taskKey) as [task|] eqn:Et; [|apply refuse_post; auto].
  unfold mbind at 1, M_bind at 1. cbn [gets].
  match goal with |- context [if ?b then _ else _] => destruct b end; [apply refuse_post; auto|]. cbv zeta.
  destruct (jprop "schedule" task) as [cur|] eqn:Ec.
  2:{ eapply commit_post; [done| |done]. rewrite <- Ec. econstructor; try done. by rewrite Ec. }
  destruct (is_mode "relative" (Some cur)) eqn:Em.
  - destruct (_ || _); [apply refuse_post; auto|]. apply anchor_post; [done|]. intros b s3 Hs3.
    eapply commit_post; [done| |done]. by econstructor.
  - eapply commit_post; [done| |done]. rewrite <- Ec. econstructor; try done. by rewrite Ec.
Qed.

(** Every narrow edit of the timeline (move a task, draw its bar, move the
    target date, delete a task, add or remove a dependency) is a refusal that
    writes nothing, or exactly one [updateWorkflowDraftSpec] at the lock version
    the caller saw, with a spec that differs from the stored one by that edit
    alone, passed the template tier and the trigger lint, and satisfies the
    edit's guards: a deleted task has no dependents and no tasks anchored to it,
    an added edge is new and not a loop, a bar does not end before it starts. *)
Theorem narrow_edit_spec e wf v s : edit_post e wf v s (run_edit e wf v s).
Proof.
  assert (Hrefuse : ∀ r, ed_ok r = false → edit_post e wf v s ((mret r : M EditResult) s)) by (intros; apply refuse_post; auto).
  destruct e; [apply task_post|apply window_post|..]; cbn [run_edit].
  - unfold rescheduleWorkflow. destruct (Date_parse newTargetAt) as [z|] eqn:Ez; [|by apply Hrefuse].
    apply read_post. intros s2 Hs. destruct (stored_spec wf (st_db s)) as [j|] eqn:Ej; [|apply refuse_post; auto].
    destruct (jprop "target" j) as [target|] eqn:Et; [|apply refuse_post; auto].
    eapply commit_post; [done| |done]. by constructor.
  - unfold deleteWorkflowTask.
    apply read_post. intros s2 Hs. destruct (stored_spec wf (st_db s)) as [j|] eqn:Ej; [|apply refuse_post; auto].
    destruct (find_task j taskKey) as [task|] eqn:Et; [|apply refuse_post; auto].
    destruct (blockers j taskKey (depends_upon taskKey)) eqn:Ed; [|apply refuse_post; auto].
    destruct (blockers j taskKey (anchored_to taskKey)) eqn:Ea; [|apply refuse_post; auto].
    eapply commit_post; [done| |done]. by econstructor.
  - unfold addWorkflowDependency. destruct (taskKey ≟ dependsOnKey) eqn:Ek; [by apply Hrefuse|]. bprop.
    apply read_post. intros s2 Hs. destruct (stored_spec wf (st_db s)) as [j|] eqn:Ej; [|apply refuse_post; auto].
    destruct (find_task j taskKey) as [task|] eqn:Et; [|apply refuse_post; auto].
    destruct (find_task j dependsOnKey) as [on|] eqn:Eo; [|apply refuse_post; auto].
    destruct (depends_upon dependsOnKey task) eqn:Ed; [apply refuse_post; auto|].
    eapply commit_post; [done| |done]. by econstructor.
  - unfold removeWorkflowDependency.
    apply read_post. intros s2 Hs. destruct (stored_spec wf (st_db s)) as [j|] eqn:Ej; [|apply refuse_post; auto].
    destruct (find_task j taskKey) as [task|] eqn:Et; [|apply refuse_post; auto].
    eapply commit_post; [done| |done]. by econstructor.
Qed.
End narrow.

(** A task three days before a target at noon, dragged five hours back. *)
Definition before_target : json :=
  JObj [("mode", JStr "relative"); ("anchor", JStr "target"); ("offsetIso8601", JStr "P3D"); ("direction", JStr "before")].

Lemma steady_release : steady "UTC" 1773144000000 1772866800000.
Proof.
  assert (Ec : civil_from_days (1773144000000 / ms_per_day) = (2026, 3, 10)) by reflexivity.
  intros d Hy Hm Hw. unfold duration_ms. split; intros E; cbn [tzAdd tzSub utc_env mbind option_bind];
    unfold utc_shift; rewrite Ec, Hy, Hm, Hw.
  - match goal with |- time_clip ?x = _ => replace x with 1772866800000; [reflexivity|] end.
    change (days_from_civil _ _ _) with 20522. unfold ms_per_day. change (1773144000000 mod 86400000) with 43200000. lia.
  - match goal with |- time_clip ?x = _ => replace x with 1772866800000; [reflexivity|] end.
    change (days_from_civil _ _ _) with 20522. unfold ms_per_day. change (1773144000000 mod 86400000) with 43200000. lia.
Qed.

Lemma reoffset_lands_witness :
  ∃ r', schedule_view (reoffset before_target 1773144000000 1772866800000) = Some (Relative r') ∧
    rel_offsetIso8601 r' = "P3DT5H" ∧
    relative_instant "build" r' "UTC" (Some 1773144000000) = (Some 1772866800000, []).
Proof.
  destruct (reoffset_lands "build" before_target (relative_view before_target) "UTC" 1773144000000 1772866800000)
    as (r' & Hr & _ & _ & _ & Hi); [reflexivity|reflexivity|reflexivity|exact steady_release|].
  exists r'. split; [exact Hr|]. split; [|exact Hi]. vm_compute in Hr. injection Hr as <-. reflexivity.
Defined.
