(* ===== verification/Finalize.v ===== *)
(** * Finalizing a workflow

    The propagation loop of [finalizeWorkflow] ends, and what it computes: open
    tasks with a hopeless dependency are skipped until none is left, unless a
    blocking failure stops the loop, and the workflow's status is the roll-up of
    the final task statuses. *)

From S2P Require Import Prelude Json Time Spec Transitions Gates Store Hoare Evolution.
From S2P Require Import Ops ForeachReconciler Reconciler Sample Engine.
Open Scope Z_scope.

(** ** Edges that can never be satisfied *)

Lemma terminalUnmatched_terminal u o : terminalUnmatched u o = true → isTerminalTaskStatus u = true.
Proof. by destruct u, o. Qed.

(** The loop's own test for a hopeless edge and the dispatch gates: an edge
    the loop gives up on blocks its task for good, but of the edges that block a
    task the loop misses exactly one case, a skipped upstream task whose
    dependents wait for a failure. *)
Theorem terminalUnmatched_spec u o :
  (terminalUnmatched u o = true → resolveDependency u o = dr_blocked ∧ isTerminalTaskStatus u = true) ∧
  (resolveDependency u o = dr_blocked ∧ terminalUnmatched u o = false ↔ u = ts_skipped ∧ o = do_failed).
Proof.
  split; [intros Hu; split; [|by eapply terminalUnmatched_terminal]|]; destruct u, o; cbn; intuition discriminate.
Qed.

Lemma terminalUnmatched_spec_witness : resolveDependency ts_cancelled do_success = dr_blocked.
Proof. apply (proj1 (terminalUnmatched_spec ts_cancelled do_success)). reflexivity. Defined.

(** ** Statuses in the tables *)

Definition wf_tasks (wf : string) (d : DB) : list TaskRow :=
  List.filter (λ t, tr_workflowId t ≟ wf) (db_task d).
#[local] Arguments wf_tasks : simpl never.

Lemma wf_tasks_in wf d t : t ∈ wf_tasks wf d ↔ t ∈ db_task d ∧ tr_workflowId t = wf.
Proof. unfold wf_tasks. by rewrite filter_in, bool_decide_eq_true. Qed.

Lemma statusById_Some l i s :
  NoDup (map tr_id l) → statusById l !! i = Some s ↔ ∃ t, t ∈ l ∧ tr_id t = i ∧ tr_status t = s.
Proof.
  intros Hn. split.
  - intros (t & Ht & [= Hi Hs])%map_of_lookup. by exists t.
  - intros (t & Ht & <- & <-). by apply statusById_lookup.
Qed.

(** The compare-and-set of one row, in the status map. *)
Lemma statusById_set wf d x v a d' :
  NoDup (map tr_id (db_task d)) → x ∈ wf_tasks wf d →
  db_task d' = set_where (task_cas (tr_id x) (tr_lockVersion x)) (task_set ts_skipped v a) (db_task d) →
  NoDup (map tr_id (db_task d')) →
  statusById (wf_tasks wf d') = <[tr_id x := ts_skipped]> (statusById (wf_tasks wf d)).
Proof.
  intros Hn Hx Ed Hn'. apply map_eq. intros i. apply option_eq. intros s.
  assert (Hu := NoDup_map_filter tr_id (λ t, tr_workflowId t ≟ wf) _ Hn).
  rewrite statusById_Some by by apply NoDup_map_filter. setoid_rewrite wf_tasks_in. rewrite Ed.
  setoid_rewrite set_where_in. apply wf_tasks_in in Hx as [Hx Hw].
  assert (Hcas : ∀ y, y ∈ db_task d → task_cas (tr_id x) (tr_lockVersion x) y = bool_decide (tr_id y = tr_id x)).
  { intros y Hy. unfold task_cas. destruct (bool_decide _) eqn:E; [|done]. bprop.
    rewrite (row_unique tr_id (db_task d) y x); [apply Z.eqb_refl|done..]. }
  destruct (decide (tr_id x = i)) as [<-|Hi]; [rewrite lookup_insert_eq|rewrite lookup_insert_ne by done]; split.
  - intros (t & ((y & Hy & ->) & Hwt) & Ei & <-). rewrite Hcas in * by done. by destruct (bool_decide _) eqn:E; bprop.
  - intros [= <-]. exists (task_set ts_skipped v a x). split; [split; [|done]|done]. exists x.
    by rewrite Hcas, bool_decide_true.
  - intros (t & ((y & Hy & ->) & Hwt) & Ei & <-). rewrite Hcas in * by done.
    destruct (bool_decide _) eqn:E; bprop; [by destruct Hi; rewrite <- E|]. apply statusById_Some; [done|].
    exists y. by rewrite wf_tasks_in.
  - intros (y & [Hy Hwy]%wf_tasks_in & Ei & <-)%statusById_Some; [|done]. exists y. split; [split; [|done]|done].
    exists y. rewrite Hcas, bool_decide_false; [done..|congruence|done].
Qed.

Section finalize.
Context `{Runtime} `{DateEnv}.
Context (wf : string) (prov : WorkflowExecutionActor) (deps : list DependencyRow) (policies : gmap string FailurePolicy).
Context (tasks : list TaskRow) (d0 : DB).
Implicit Types (σ : gmap string TaskStatus) (d : DB) (t : TaskRow).

(** ** Statuses and their order *)

Definition closed (s : TaskStatus) : bool := isTerminalTaskStatus s || (s ≟ ts_running).
Definition now_of (σ : gmap string TaskStatus) (i : string) : TaskStatus := σ !! i ?? ts_idle.

(** The loop may still skip the task. *)
Definition open_in (σ : gmap string TaskStatus) (t : TaskRow) : Prop := closed (now_of σ (tr_id t)) = false.
Definition hopeless (σ : gmap string TaskStatus) (t : TaskRow) : Prop :=
  existsb (edge_unmatched σ) (edges_of deps t) = true.
Definition blocks_workflow (σ : gmap string TaskStatus) (t : TaskRow) : Prop :=
  existsb (edge_blocks_workflow policies σ) (edges_of deps t) = true.

(** Statuses that are closed stay. *)
Definition later (σ σ' : gmap string TaskStatus) : Prop :=
  ∀ i, closed (now_of σ i) = true → now_of σ' i = now_of σ i.

#[local] Instance later_preorder : PreOrder later.
Proof.
  split; [by intros σ i|]. intros σ1 σ2 σ3 H1 H2 i Hi. rewrite <- (H1 i Hi). apply H2. by rewrite (H1 i Hi).
Qed.

Lemma later_insert σ i s : closed (now_of σ i) = false → later σ (<[i := s]> σ).
Proof.
  intros Hi j Hj. unfold now_of. rewrite lookup_insert_ne; [done|]. intros ->. congruence.
Qed.

Lemma later_open σ σ' t : later σ σ' → open_in σ' t → open_in σ t.
Proof.
  unfold open_in. intros Hl Ho. apply not_true_iff_false. intros Hc. rewrite (Hl _ Hc) in Ho. congruence.
Qed.

Lemma later_unmatched σ σ' e : later σ σ' → edge_unmatched σ e = true → edge_unmatched σ' e = true.
Proof.
  unfold edge_unmatched, up_status. fold (now_of σ (dp_dependsOnTaskId e)) (now_of σ' (dp_dependsOnTaskId e)).
  intros Hl Hu. rewrite Hl; [done|]. unfold closed. by rewrite (terminalUnmatched_terminal _ _ Hu).
Qed.

Lemma later_hopeless σ σ' t : later σ σ' → hopeless σ t → hopeless σ' t.
Proof.
  intros Hl. unfold hopeless. rewrite !existsb_exists. intros (e & He & Hu). exists e.
  split; [done|by eapply later_unmatched].
Qed.

(** ** Counting the open tasks *)

Definition open_count (σ : gmap string TaskStatus) : nat :=
  length (List.filter (λ t, negb (closed (now_of σ (tr_id t)))) tasks).

Lemma filter_count_le {A} (p q : A → bool) l :
  (∀ x, q x = true → p x = true) → (length (List.filter q l) ≤ length (List.filter p l))%nat.
Proof.
  intros Hpq. induction l as [|x l IH]; [done|]. cbn. destruct (q x) eqn:Eq; [rewrite (Hpq x Eq)|case_match]; cbn; lia.
Qed.

Lemma filter_count_lt {A} (p q : A → bool) l x :
  (∀ x, q x = true → p x = true) → x ∈ l → p x = true → q x = false →
  (length (List.filter q l) < length (List.filter p l))%nat.
Proof.
  intros Hpq Hx Hp Hq. induction l as [|y l IH]; [by apply elem_of_nil in Hx|].
  pose proof (filter_count_le p q l Hpq) as Hle. cbn. apply elem_of_cons in Hx as [<-|Hx].
  - rewrite Hp, Hq. cbn. lia.
  - specialize (IH Hx). destruct (q y) eqn:Eq; [rewrite (Hpq y Eq)|case_match]; cbn; lia.
Qed.

Lemma later_closed σ σ' i : later σ σ' → negb (closed (now_of σ' i)) = true → negb (closed (now_of σ i)) = true.
Proof.
  intros Hl Ho. apply negb_true_iff in Ho. apply negb_true_iff, not_true_iff_false. intros Hc.
  rewrite (Hl _ Hc) in Ho. congruence.
Qed.

Lemma open_count_lt σ t :
  t ∈ tasks → open_in σ t → (open_count (<[tr_id t := ts_skipped]> σ) < open_count σ)%nat.
Proof.
  intros Ht Ho. eapply (filter_count_lt _ _ _ t); [|done|by rewrite Ho|].
  - intros u. by apply later_closed, later_insert.
  - unfold now_of. by rewrite lookup_insert_eq.
Qed.

(** ** The invariant of the loop *)

(** A task of the workflow against the tables: untouched, or skipped with a
    hopeless edge. *)
Definition tracked (σ : gmap string TaskStatus) (d : DB) (t : TaskRow) : Prop :=
  (now_of σ (tr_id t) = tr_status t ∧ t ∈ db_task d) ∨
  (now_of σ (tr_id t) = ts_skipped ∧ closed (tr_status t) = false ∧ hopeless σ t ∧
   ∃ t', t' ∈ db_task d ∧ tr_def t' = tr_def t ∧ tr_status t' = ts_skipped).

Record loop_inv (s : FinState) (cur : list TaskRow) (d : DB) : Prop := {
  li_cur : Forall2 (λ t c, tr_id c = tr_id t ∧ (open_in (fs_status s) t → c = t)) tasks cur;
  li_track : ∀ t, t ∈ tasks → tracked (fs_status s) d t;
  li_block : fs_blockingFailure s = true → ∃ t, t ∈ tasks ∧ open_in (fs_status s) t ∧ blocks_workflow (fs_status s) t;
  li_ids : map tr_id (db_task d) = map tr_id (db_task d0);
  li_status : fs_status s = statusById (wf_tasks wf d);
  li_others : ∀ t, t ∈ db_task d0 → tr_workflowId t ≠ wf → t ∈ db_task d;
  li_workflow : db_workflow d = db_workflow d0
}.

(** What one pass has established: the tasks it has visited, and its flag. *)
Record pass_inv (σ0 : gmap string TaskStatus) (s : FinState) (visited : list TaskRow) : Prop := {
  pi_later : later σ0 (fs_status s);
  pi_changed : fs_changed s = true → (open_count (fs_status s) < open_count σ0)%nat;
  pi_fixed : fs_changed s = false → fs_status s = σ0 ∧
    ∀ t, t ∈ visited → open_in σ0 t → hopeless σ0 t ∨ blocks_workflow σ0 t → fs_blockingFailure s = true
}.

Hypothesis ids_unique : NoDup (map tr_id (db_task d0)).
Hypothesis tasks_of : ∀ t, t ∈ tasks → tr_workflowId t = wf.
Hypothesis tasks_in : ∀ t, t ∈ tasks → t ∈ db_task d0.

(** The current entry of an open task is the task. *)
Lemma cur_open s acc x rest d :
  loop_inv s (acc ++ x :: rest) d → open_in (fs_status s) x → x ∈ tasks ∧ x ∈ db_task d.
Proof.
  intros Hi Ho. destruct (proj1 (Forall2_app_inv_r _ _ _ _) (li_cur _ _ _ Hi)) as (l1 & l2 & _ & H2 & E).
  inversion H2 as [|t ? l ? [Eid Ex] _]; subst. unfold open_in in *. rewrite Eid in Ho. specialize (Ex Ho) as ->.
  assert (Ht : t ∈ tasks) by (rewrite E; apply elem_of_app; right; left). split; [done|].
  destruct (li_track _ _ _ Hi t Ht) as [[_ ?]|[Es _]]; [done|]. by rewrite Es in Ho.
Qed.

(** The write of a skip. *)
Lemma skip_tracked σ d x a v t (new : list EventRow) :
  map tr_id (db_task d) = map tr_id (db_task d0) → x ∈ tasks → x ∈ db_task d → open_in σ x → hopeless σ x →
  t ∈ tasks → tracked σ d t →
  tracked (<[tr_id x := ts_skipped]> σ)
    (with_event (with_task d (set_where (task_cas (tr_id x) (tr_lockVersion x)) (task_set ts_skipped v a) (db_task d))) new)
    t.
Proof.
  intros Hids Hx Hxd Ho Hh Ht Htr. assert (Hl := later_insert σ (tr_id x) ts_skipped Ho).
  destruct (decide (tr_id x = tr_id t)) as [E|E].
  - assert (t = x) as -> by (by apply (row_unique tr_id (db_task d0)); auto).
    right. unfold now_of at 1. rewrite lookup_insert_eq. split_and!; [done| |by eapply later_hopeless|].
    + destruct Htr as [[Es _]|(Es & _)]; [by rewrite <- Es|]. unfold open_in in Ho. by rewrite Es in Ho.
    + exists (task_set ts_skipped v a x). split; [|done]. apply set_where_in. exists x. split; [done|].
      unfold task_cas. by rewrite bool_decide_true, Z.eqb_refl.
  - assert (Hkeep : ∀ u, tr_id u = tr_id t → u ∈ db_task d → u ∈
      set_where (task_cas (tr_id x) (tr_lockVersion x)) (task_set ts_skipped v a) (db_task d)).
    { intros u Eu Hu. apply set_where_in. exists u. split; [done|]. unfold task_cas.
      rewrite bool_decide_false; [done|]. congruence. }
    assert (En : now_of (<[tr_id x := ts_skipped]> σ) (tr_id t) = now_of σ (tr_id t))
      by (unfold now_of; by rewrite lookup_insert_ne).
    destruct Htr as [[Es Hu]|(Es & Hc & Hho & u & Hu & Hd & Hs)].
    + left. split; [by rewrite En|by apply Hkeep].
    + right. split_and!; [by rewrite En|done|by eapply later_hopeless|]. exists u. split; [|done].
      apply Hkeep; [unfold tr_id; by rewrite Hd|done].
Qed.

Lemma task_set_ids x v a l :
  map tr_id (set_where (task_cas (tr_id x) (tr_lockVersion x)) (task_set ts_skipped v a) l) = map tr_id l.
Proof. unfold set_where. rewrite map_map. apply map_ext. intros u. by case_match. Qed.

(** The loop invariant and the pass invariant after a visit that writes nothing. *)
Lemma visit_keeps σ0 s acc x rest d blocking :
  loop_inv s (acc ++ x :: rest) d → pass_inv σ0 s acc →
  (blocking = true → fs_blockingFailure s = true ∨ (open_in (fs_status s) x ∧ blocks_workflow (fs_status s) x)) →
  (fs_blockingFailure s = true → blocking = true) →
  (open_in (fs_status s) x → hopeless (fs_status s) x ∨ blocks_workflow (fs_status s) x → blocking = true) →
  let s' := {| fs_status := fs_status s; fs_blockingFailure := blocking; fs_changed := fs_changed s |} in
  loop_inv s' ((acc ++ [x]) ++ rest) d ∧ pass_inv σ0 s' (acc ++ [x]).
Proof.
  intros Hi Hp Hb Hmono Hvisit s'. split.
  - rewrite <- app_assoc. split; try apply Hi. cbn. intros Eb.
    destruct (Hb Eb) as [Eb'|[Ho Hbl]]; [by apply Hi|]. exists x. split; [by eapply cur_open|done].
  - split; cbn; [apply Hp|apply Hp|]. intros Ec. destruct (pi_fixed _ _ _ Hp Ec) as [Es Hv]. split; [done|].
    intros t [Ht| ->%list_elem_of_singleton]%elem_of_app Ho Hh; [by apply Hmono, (Hv t)|]. rewrite <- Es in *. auto.
Qed.

Lemma wp_visit σ0 s acc x rest d :
  loop_inv s (acc ++ x :: rest) d → pass_inv σ0 s acc →
  wp (finalize_task wf prov deps policies (s, acc) x)
    (λ r d', loop_inv r.1 (r.2 ++ rest) d' ∧ pass_inv σ0 r.1 r.2) any_exn d.
Proof.
  intros Hi Hp. assert (Es : s = {| fs_status := fs_status s; fs_blockingFailure := fs_blockingFailure s;
    fs_changed := fs_changed s |}) by by destruct s.
  unfold finalize_task. cbn [fst snd]. fold (now_of (fs_status s) (tr_id x)) (closed (now_of (fs_status s) (tr_id x))).
  destruct (closed _) eqn:Ec.
  { wps. rewrite Es. cbn [fst snd]. apply visit_keeps; auto. intros Ho. unfold open_in in Ho. congruence. }
  destruct (existsb (edge_unmatched _) _ && negb _) eqn:Eh.
  2:{ wps. apply visit_keeps; auto.
      - intros [?|?]%orb_true_iff; auto.
      - intros ->. done.
      - intros _ [Hh|Hb]; [|unfold blocks_workflow in Hb; by rewrite Hb, orb_true_r]. unfold hopeless in Hh.
        rewrite Hh in Eh. cbn in Eh. by apply negb_false_iff in Eh. }
  apply andb_true_iff in Eh as [Hh Hnb]. apply negb_true_iff in Hnb.
  destruct (cur_open _ _ _ _ _ Hi Ec) as [Hx Hxd]. unfold task_event, recordEvent. wpr. cbn [fst snd].
  set (s' := {| fs_status := _; fs_blockingFailure := _; fs_changed := _ |}).
  assert (Hl : later (fs_status s) (fs_status s')) by by apply later_insert. split; [|split; cbn].
  - rewrite <- app_assoc. split; cbn.
    + pose proof (li_cur _ _ _ Hi) as Hc. apply Forall2_app_inv_r in Hc as (l1 & l2 & Hl1 & Hl2 & Ecur).
      apply Forall2_cons_inv_r in Hl2 as (t & l & [Eid Hxt] & Hl2 & ->).
      assert (Hup : ∀ k k', Forall2 (λ t c, tr_id c = tr_id t ∧ (open_in (fs_status s) t → c = t)) k k' →
        Forall2 (λ t c, tr_id c = tr_id t ∧ (open_in (fs_status s') t → c = t)) k k').
      { intros k k' Hk. eapply Forall2_impl; [exact Hk|]. intros u c [? Hu]. split; [done|].
        intros Ho. by eapply Hu, later_open. }
      rewrite Ecur. apply Forall2_app; [by apply Hup|]. apply Forall2_cons. split; [|by apply Hup].
      split; [done|]. unfold open_in. cbn. rewrite <- Eid. unfold now_of. by rewrite lookup_insert_eq.
    + intros t Ht. apply skip_tracked; try done; by apply Hi.
    + rewrite Hnb. done.
    + rewrite task_set_ids. apply Hi.
    + erewrite statusById_set; [by rewrite (li_status _ _ _ Hi)|..|reflexivity|cbn; rewrite task_set_ids];
        rewrite ?(li_ids _ _ _ Hi); [done| |done]. apply wf_tasks_in. auto.
    + intros t Ht Hw. apply set_where_in. exists t. split; [by apply Hi|]. unfold task_cas.
      rewrite bool_decide_false; [done|]. intros E. apply Hw.
      assert (t = x) as -> by (apply (row_unique tr_id (db_task d0)); auto). auto.
    + apply Hi.
  - etrans; [apply Hp|done].
  - intros _. pose proof (open_count_lt (fs_status s) x Hx Ec) as Hlt.
    assert (open_count (fs_status s) ≤ open_count σ0)%nat; [|lia].
    apply filter_count_le. intros u. apply later_closed, Hp.
  - done.
Qed.

(** ** The loop *)

(** Where the loop stops. *)
Definition settled (s : FinState) : Prop :=
  (fs_blockingFailure s = true ↔ ∃ t, t ∈ tasks ∧ open_in (fs_status s) t ∧ blocks_workflow (fs_status s) t) ∧
  (fs_blockingFailure s = false → ∀ t, t ∈ tasks → open_in (fs_status s) t → ¬ hopeless (fs_status s) t).

Lemma same_edges σ t c : tr_id c = tr_id t →
  (open_in σ c ↔ open_in σ t) ∧ (hopeless σ c ↔ hopeless σ t) ∧ (blocks_workflow σ c ↔ blocks_workflow σ t).
Proof. intros E. unfold open_in, hopeless, blocks_workflow, edges_of. by rewrite E. Qed.

Lemma settled_pass σ0 s cur d : loop_inv s cur d → pass_inv σ0 s cur → fs_changed s = false → settled s.
Proof.
  intros Hi Hp Hc. destruct (pi_fixed _ _ _ Hp Hc) as [Es Hv]. rewrite <- Es in Hv.
  assert (Hall : ∀ t, t ∈ tasks → open_in (fs_status s) t →
    hopeless (fs_status s) t ∨ blocks_workflow (fs_status s) t → fs_blockingFailure s = true).
  { intros t Ht Ho Hh. apply list_elem_of_lookup in Ht as [i Hti].
    destruct (Forall2_lookup_l _ _ _ _ _ (li_cur _ _ _ Hi) Hti) as (c & Hci & Eid & _).
    destruct (same_edges (fs_status s) t c Eid) as (E1 & E2 & E3).
    apply (Hv c); [by eapply list_elem_of_lookup_2|by apply E1|]. by rewrite E2, E3. }
  split; [split|].
  - apply Hi.
  - intros (t & Ht & Ho & Hb). apply (Hall t); auto.
  - intros Hf t Ht Ho Hh. rewrite (Hall t) in Hf; auto. done.
Qed.

(** Every pass but the last closes a task, so the loop ends within its fuel. *)
Lemma wp_loop fuel s cur d :
  loop_inv s cur d → (open_count (fs_status s) < fuel)%nat →
  wp (propagate fuel wf prov deps policies s cur)
    (λ s' d', (∃ cur', loop_inv s' cur' d') ∧ fs_changed s' = false ∧ settled s') any_exn d.
Proof.
  revert s cur d. induction fuel as [|fuel IH]; intros s cur d Hi Hf; [lia|]. cbn [propagate]. wp1.
  eapply wp_conseq; [apply (wp_foldM _ (λ l r d', loop_inv r.1 (r.2 ++ l) d' ∧ pass_inv (fs_status s) r.1 r.2))|].
  - split; [by destruct Hi|]. split; cbn; [done|done|]. intros _. split; [done|]. by intros t ?%elem_of_nil.
  - intros x r [s1 acc] d1 [H1 H2]. by apply wp_visit.
  - intros [s1 acc] d1 [H1 H2]. cbn [fst snd] in *. rewrite app_nil_r in H1. destruct (fs_changed s1) eqn:Ec.
    + apply IH; [done|]. pose proof (pi_changed _ _ _ H2 Ec). lia.
    + wp1. split; [by eexists|]. split; [done|by eapply settled_pass].
Qed.
End finalize.

(** ** The whole operation *)

Section whole.
Context `{Runtime} `{DateEnv}.
Implicit Types d : DB.

Definition wf_deps (wf : string) (d : DB) : list DependencyRow :=
  List.filter (λ e, dp_workflowId e ≟ wf) (db_dependency d).

Definition loop_start (tasks : list TaskRow) : FinState :=
  {| fs_status := statusById tasks; fs_blockingFailure := false; fs_changed := true |}.

Lemma loop_inv_start wf deps policies d :
  inv d → loop_inv wf deps policies (wf_tasks wf d) d (loop_start (wf_tasks wf d)) (wf_tasks wf d) d.
Proof.
  intros Hi. split; try done; cbn.
  - generalize (statusById (wf_tasks wf d)). intros σ. induction (wf_tasks wf d); constructor; auto.
  - intros t Ht. left. unfold now_of. rewrite statusById_lookup; [|apply NoDup_map_filter, Hi|done].
    split; [done|]. by apply wf_tasks_in in Ht as [? _].
Qed.

Lemma open_count_fuel σ tasks : (open_count tasks σ < S (length tasks))%nat.
Proof.
  unfold open_count. pose proof (filter_count_le (λ _, true) (λ t, negb (closed (now_of σ (tr_id t)))) tasks
    (λ _ _, eq_refl)) as Hle. enough (List.filter (λ _ : TaskRow, true) tasks = tasks) as E by (rewrite E in Hle; lia).
  induction tasks as [|t l IH]; [done|]. cbn. f_equal. apply IH. apply filter_count_le. done.
Qed.

(** More fuel than there are open tasks changes nothing. *)
Lemma propagate_fuel wf prov deps policies tasks d0 f1 f2 s cur st :
  NoDup (map tr_id (db_task d0)) → (∀ t, t ∈ tasks → tr_workflowId t = wf ∧ t ∈ db_task d0) →
  loop_inv wf deps policies tasks d0 s cur (st_db st) →
  (open_count tasks (fs_status s) < f1)%nat → (open_count tasks (fs_status s) < f2)%nat →
  propagate f1 wf prov deps policies s cur st = propagate f2 wf prov deps policies s cur st.
Proof.
  intros Hn Hin. revert f2 s cur st. induction f1 as [|f1 IH]; intros [|f2] s cur st Hi H1 H2; [lia..|].
  cbn [propagate]. unfold mbind, M_bind.
  set (s0 := {| fs_status := fs_status s; fs_blockingFailure := fs_blockingFailure s; fs_changed := false |}).
  assert (Hw : wp (foldM (finalize_task wf prov deps policies) (s0, []) cur)
    (λ r d', loop_inv wf deps policies tasks d0 r.1 r.2 d' ∧ pass_inv deps policies tasks (fs_status s) r.1 r.2)
    any_exn (st_db st)).
  { eapply wp_conseq; [apply (wp_foldM _ (λ l r d', loop_inv wf deps policies tasks d0 r.1 (r.2 ++ l) d' ∧
      pass_inv deps policies tasks (fs_status s) r.1 r.2))|].
    - split; [by destruct Hi|]. split; cbn; [done|done|]. intros _. split; [done|]. by intros t ?%elem_of_nil.
    - intros x r [s1 acc] d1 [Ha Hb]. apply wp_visit; try done; intros t Ht; by apply Hin.
    - intros r d1. cbn. by rewrite app_nil_r. }
  apply wp_run in Hw. destruct (foldM _ _ _ st) as [st' [[s1 acc]|e]]; [|done]. destruct Hw as [Ha Hb]. cbn [fst snd] in *.
  destruct (fs_changed s1) eqn:Ec; [|done]. pose proof (pi_changed _ _ _ _ _ _ Hb Ec). apply IH; [done|lia..].
Qed.

(** The declared result, from the final tables. *)
Definition workflow_blocked (wf : string) (d d' : DB) : Prop :=
  ∃ t, t ∈ wf_tasks wf d ∧ open_in (statusById (wf_tasks wf d')) t ∧
       blocks_workflow (wf_deps wf d) (policyById (wf_tasks wf d)) (statusById (wf_tasks wf d')) t.

Record finalized (wf : string) (d d' : DB) (r : FinalizeResult) : Prop := {
  fz_tasks : ∀ t, t ∈ wf_tasks wf d → ∃ t', t' ∈ wf_tasks wf d' ∧ tr_def t' = tr_def t ∧
    (t' = t ∨ (tr_status t' = ts_skipped ∧ closed (tr_status t) = false ∧
               hopeless (wf_deps wf d) (statusById (wf_tasks wf d')) t));
  fz_others : ∀ t, t ∈ db_task d → tr_workflowId t ≠ wf → t ∈ db_task d';
  fz_fixpoint : ¬ workflow_blocked wf d d' → ∀ t, t ∈ wf_tasks wf d →
    open_in (statusById (wf_tasks wf d')) t → ¬ hopeless (wf_deps wf d) (statusById (wf_tasks wf d')) t;
  fz_status : ∃ next, fr_status r = WorkflowStatus_str next ∧ (fr_transitioned r = true ↔ next ≠ ws_active) ∧
    (workflow_blocked wf d d' → next = ws_failed) ∧
    (¬ workflow_blocked wf d d' →
       next = rollUpWorkflowStatus (map (rollup_input (statusById (wf_tasks wf d'))) (wf_tasks wf d))) ∧
    (∃ w', w' ∈ db_workflow d' ∧ wr_id w' = wf ∧ wr_status w' = next)
}.

Lemma own_row_hits w (l : list WorkflowRow) (f : WorkflowRow → WorkflowRow) :
  w ∈ l → (0 <? length (map f (List.filter (workflow_cas (wr_id w) (wr_lockVersion w)) l)))%nat = true.
Proof.
  intros Hw. destruct (List.filter _ l) eqn:E; [|done].
  assert (Hin : w ∈ List.filter (workflow_cas (wr_id w) (wr_lockVersion w)) l).
  { apply filter_in. split; [done|]. unfold workflow_cas. by rewrite bool_decide_true, Z.eqb_refl. }
  rewrite E in Hin. by apply elem_of_nil in Hin.
Qed.

(** The declared result from the end of the loop. *)
Lemma finalized_end wf d d1 d' s next r (cur : list TaskRow) :
  inv d → loop_inv wf (wf_deps wf d) (policyById (wf_tasks wf d)) (wf_tasks wf d) d s cur d1 →
  settled (wf_deps wf d) (policyById (wf_tasks wf d)) (wf_tasks wf d) s →
  db_task d' = db_task d1 → next = next_status s (wf_tasks wf d) →
  fr_status r = WorkflowStatus_str next → (fr_transitioned r = true ↔ next ≠ ws_active) →
  (∃ w', w' ∈ db_workflow d' ∧ wr_id w' = wf ∧ wr_status w' = next) →
  finalized wf d d' r.
Proof.
  intros Hi Hl [Hb Hf] Ed Hnext Hr Htr Hw.
  assert (Es : statusById (wf_tasks wf d') = fs_status s).
  { rewrite (li_status _ _ _ _ _ _ _ _ Hl). unfold wf_tasks. by rewrite Ed. }
  assert (Hbl : workflow_blocked wf d d' ↔ fs_blockingFailure s = true) by (unfold workflow_blocked; rewrite Es; by rewrite Hb).
  split; rewrite ?Es.
  - intros t Ht. pose proof (proj1 (wf_tasks_in wf d t) Ht) as [_ Hwf].
    destruct (li_track _ _ _ _ _ _ _ _ Hl t Ht) as [[_ Hin]|(_ & Hc & Hh & t' & Hin & Hd & Hs)].
    + exists t. rewrite wf_tasks_in, Ed. split_and!; auto.
    + exists t'. rewrite wf_tasks_in, Ed. split_and!; [done|unfold tr_workflowId in *; by rewrite Hd|done|by right].
  - intros t Ht Hn. rewrite Ed. by apply (li_others _ _ _ _ _ _ _ _ Hl).
  - rewrite Hbl. intros Hn. apply Hf. by apply not_true_iff_false.
  - exists next. rewrite Hbl. split_and!; try done; unfold next_status in Hnext.
    + intros E. by rewrite E in Hnext.
    + intros E. apply not_true_iff_false in E. by rewrite E in Hnext.
Qed.

Lemma wp_finalized wf w d :
  inv d → first_where (λ w, wr_id w ≟ wf) (db_workflow d) = Some w → wr_status w = ws_active →
  wp (finalizeWorkflow wf) (λ r d', finalized wf d d' r) any_exn d.
Proof.
  intros Hi Ew Hact. pose proof (first_where_in _ _ _ Ew) as [Hw Hid]. bprop.
  unfold finalizeWorkflow, select_workflow. apply wp_transaction. wp1. wp1. rewrite Ew, Hact.
  rewrite bool_decide_true by done. cbn [negb]. unfold finalize_active, loadGraph. wp1. wp1. cbn [g_tasks g_deps].
  fold (wf_tasks wf d) (wf_deps wf d) (loop_start (wf_tasks wf d)). wp1.
  eapply wp_conseq; [apply (wp_loop wf _ _ _ (wf_tasks wf d) d)|].
  - apply Hi.
  - by intros t [_ ?]%wf_tasks_in.
  - by intros t [? _]%wf_tasks_in.
  - by apply loop_inv_start.
  - apply open_count_fuel.
  - intros s d1 ([cur Hl] & _ & Hset). pose proof (li_workflow _ _ _ _ _ _ _ _ Hl) as Ewf.
    destruct (negb _) eqn:En; bprop.
    + wp1. wp1. wp1. apply wp_raw_workflow. rewrite Ewf, <- Hid, own_row_hits by done.
      unfold recordEvent. wpr. rewrite Hid in *.
      eapply (finalized_end _ _ _ _ _ (next_status s (wf_tasks wf d))); try done. exists (workflow_set (next_status s (wf_tasks wf d)) (wr_lockVersion w + 1) a w).
      split; [|done]. cbn. apply set_where_in. exists w. split; [done|].
      unfold workflow_cas. by rewrite Hid, bool_decide_true, Z.eqb_refl.
    + wp1. eapply (finalized_end _ _ _ _ _ (next_status s (wf_tasks wf d))); try done; cbn. exists w. by rewrite Ewf, En.
Qed.

Lemma wp_finalized_step wf w d :
  inv d → first_where (λ w, wr_id w ≟ wf) (db_workflow d) = Some w → wr_status w = ws_active →
  wp (finalizeWorkflow wf) (λ r d', finalized wf d d' r ∧ step d d') any_exn d.
Proof. intros. eapply wp_and; [by eapply wp_finalized|by apply wp_finalizeWorkflow]. Qed.
End whole.

Section theorems.
Context `{Runtime} `{DateEnv}.

(** The propagation loop of [finalizeWorkflow] ends: a pass that changes
    something closes a task, so running it with more fuel than one pass per task
    gives the same result and the same tables. *)
Theorem finalize_loop_ends wf prov policies s fuel :
  inv (st_db s) →
  let tasks := wf_tasks wf (st_db s) in
  let run n := propagate n wf prov (wf_deps wf (st_db s)) policies (loop_start tasks) tasks s in
  (S (length tasks) ≤ fuel)%nat → run fuel = run (S (length tasks)).
Proof.
  intros Hi tasks run Hf. pose proof (open_count_fuel (fs_status (loop_start tasks)) tasks) as Hc.
  apply propagate_fuel with (tasks := tasks) (d0 := st_db s); [apply Hi| |by apply loop_inv_start|lia|lia].
  intros t [? ?]%wf_tasks_in. done.
Qed.

End theorems.

(** ** Instances *)

(** A chain behind a failed task whose policy is to skip. *)
Definition chain_db : DB :=
  sample_db ws_active
    [sample_task "t1" "a" "agent_task" None None fp_skip true ts_failed; plain_task "t2" "agent_task" ts_idle;
     plain_task "t3" "agent_task" ts_idle]
    [sample_dep "t3" "t2" do_success; sample_dep "t2" "t1" do_success] [].

Lemma chain_inv : inv chain_db.
Proof. apply inv_fresh; vm_compute; reflexivity. Qed.

Lemma finalize_loop_ends_witness :
  let p := buildExecutionActor (wr_def (sample_workflow ws_active)) in
  let run n := propagate n "w1" p (db_dependency chain_db) ∅ (loop_start (db_task chain_db)) (db_task chain_db)
                 (sample_st chain_db) in
  run 9%nat = run 4%nat.
Proof. cbv zeta. apply (finalize_loop_ends "w1" _ ∅ (sample_st chain_db) 9 chain_inv). apply Nat.leb_le. reflexivity. Defined.

