(* ===== verification/Rollup.v ===== *)
(** * Fan-out parents

    The decisions of the fan-out pass: what an idle parent becomes from the
    state of its source, how a running parent is settled from its children, and
    which children are cancelled on the way.  It also shows how a failed child
    reaches the workflow's status past its parent's policy. *)

From S2P Require Import Prelude Json Time Spec Transitions Gates Foreach Store Hoare Evolution.
From S2P Require Import Ops ForeachReconciler Reconciler Sample Engine Finalize.
Open Scope Z_scope.

Section rollup.
Context `{Runtime} `{DateEnv}.
Implicit Types (d : DB) (t : TaskRow).

(** ** Rows that stay *)

(** Task rows other than [i] stay; new ones may appear. *)
Definition keeps_others (i : string) (d d' : DB) : Prop :=
  ∀ t, t ∈ db_task d → tr_id t ≠ i → t ∈ db_task d'.

Definition only_adds (d d' : DB) : Prop := ∃ new, db_task d' = db_task d ++ new.

#[local] Instance only_adds_preorder : PreOrder only_adds.
Proof.
  split; [intros d; exists []; by rewrite app_nil_r|].
  intros d1 d2 d3 [n E1] [n' E2]. exists (n ++ n'). by rewrite E2, E1, app_assoc.
Qed.

Lemma only_adds_same d d' : db_task d' = db_task d → only_adds d d'.
Proof. exists []. by rewrite app_nil_r. Qed.

Lemma only_adds_in d d' t : only_adds d d' → t ∈ db_task d → t ∈ db_task d'.
Proof. intros [n ->]. rewrite elem_of_app. auto. Qed.

(** The compare-and-set of a row that is in the tables. *)
Lemma cas_row d p f t : t ∈ db_task d → p t = true → f t ∈ set_where p f (db_task d).
Proof. intros Ht Hp. apply set_where_in. exists t. by rewrite Hp. Qed.

Lemma cas_own t : task_cas (tr_id t) (tr_lockVersion t) t = true.
Proof. unfold task_cas. by rewrite bool_decide_true, Z.eqb_refl. Qed.

Lemma cas_others i v f d : keeps_others i d (with_task d (set_where (task_cas i v) f (db_task d))).
Proof.
  intros t Ht Hn. apply set_where_in. exists t. split; [done|]. unfold task_cas. by rewrite bool_decide_false.
Qed.

(** ** The children of a batch *)

Definition has_key (wf key : string) (d : DB) : Prop :=
  ∃ t, t ∈ db_task d ∧ tr_workflowId t = wf ∧ tr_key t = key.

Definition plan_present (d : DB) (p : ChildPlan) : Prop := has_key (cr_workflowId (cp_taskRow p)) (plan_key p) d.

Lemma plan_present_adds d d' p : only_adds d d' → plan_present d p → plan_present d' p.
Proof. intros Ha (t & Ht & Hk). exists t. split; [by eapply only_adds_in|done]. Qed.

Lemma wp_persist_task p d :
  wp (persist_task p) (λ _ d', only_adds d d' ∧ plan_present d' p) any_exn d.
Proof.
  unfold persist_task. wp1. apply (wp_conseq _ (λ _ d', d' = d)); [unfold col_integer; by wps|]. intros m d' ->.
  do 2 wp1. unfold insert_task. do 2 wp1. destruct (existsb _ _) eqn:E.
  - wp1. split; [done|]. apply existsb_exists in E as (t & Ht & Hk). bprop. exists t. by rewrite list_elem_of_In.
  - wps. split; [by eexists|]. exists (child_row (cp_taskRow p) m a). split; [|done]. cbn. apply elem_of_app. right. left.
Qed.

Lemma wp_persist_dependency m p dep d :
  wp (persist_dependency m p dep) (λ _ d', db_task d' = db_task d) any_exn d.
Proof.
  unfold persist_dependency, resolveTaskIdByKey, insert_dependency. wp1. apply (wp_conseq _ (λ _ d', d' = d)); [by wps|].
  intros i d' ->. by wps.
Qed.

Lemma wp_persist_approval p d : wp (persist_approval p) (λ _ d', db_task d' = db_task d) any_exn d.
Proof. unfold persist_approval, insert_approval. by wps. Qed.

(** Every plan ends up with a task of its key, and no row changes. *)
Lemma wp_plans_present plans d :
  wp (persistChildPlans plans) (λ _ d', only_adds d d' ∧ ∀ p, p ∈ plans → plan_present d' p) any_exn d.
Proof.
  unfold persistChildPlans. wp1.
  eapply wp_conseq; [apply (wp_for_each _ (λ l d', only_adds d d' ∧
    ∀ p, p ∈ plans → p ∈ l ∨ plan_present d' p)); [split; auto; reflexivity|]|].
  { intros p l d1 [Ha Hl]. eapply wp_conseq; [apply wp_persist_task|]. intros _ d2 [Ha2 Hp]. split; [by etrans|].
    intros q [Hq|Hq]%Hl; [|right; by eapply plan_present_adds]. apply elem_of_cons in Hq as [->|?]; auto. }
  intros ? d1 [Ha Hl]. cbn beta in Ha, Hl.
  assert (Hsame : ∀ d', db_task d' = db_task d1 → only_adds d d' ∧ ∀ p, p ∈ plans → plan_present d' p).
  { intros d' E. apply only_adds_same in E. split; [by etrans|]. intros p Hp. eapply plan_present_adds; [exact E|].
    by destruct (Hl p Hp) as [?%elem_of_nil|?]. }
  wp1. eapply wp_conseq; [apply (wp_for_each _ (λ _ d', db_task d' = db_task d1)); [done|]|].
  { intros p l d2 E. eapply wp_conseq; [apply (wp_for_each _ (λ _ d', db_task d' = db_task d1)); [done|]|done].
    intros dep l' d3 E3. eapply wp_conseq; [apply wp_persist_dependency|]. intros; cbn; congruence. }
  intros ? d2 E2. cbn beta in E2.
  eapply wp_conseq; [apply (wp_for_each _ (λ _ d', db_task d' = db_task d1)); [done|]|auto].
  intros p l d3 E3. eapply wp_conseq; [apply wp_persist_approval|]. intros; cbn; congruence.
Qed.

(** ** Idle parents *)

(** The batch an idle parent materializes from tables [d]. *)
Definition batch (wf : string) (parent source : TaskRow) (fe : ForeachSpec) (keys : gmap string string) (d : DB) :=
  materializeForeachChildren rt_sha256
    {| mi_workflowId := wf; mi_parent := {| ph_id := tr_id parent; ph_key := tr_key parent |};
       mi_foreachConfig := fe;
       mi_sourceOutput := latest_attempt (List.filter (λ a, (at_taskId a ≟ tr_id source)
                                            && (at_status a ≟ as_succeeded)) (db_attempt d)) ≫= at_output;
       mi_workflowTaskIdByKey := keys |}.

(** The status an idle parent gets, if it gets one. *)
Definition idle_target (wf : string) (parent source : TaskRow) (fe : ForeachSpec) (keys : gmap string string)
    (d : DB) : option TaskStatus :=
  match tr_status source, td_failurePolicy (tr_def parent) with
  | ts_succeeded, _ => match batch wf parent source fe keys d with
                       | Err _ => Some ts_failed
                       | Ok r => Some (if (length (mr_plans r) =? 0)%nat then ts_succeeded else ts_running)
                       end
  | ts_failed, Some fp_skip | ts_skipped, _ => Some ts_skipped
  | _, _ => None
  end.

Record idle_handled (wf : string) (parent source : TaskRow) (fe : ForeachSpec) (keys : gmap string string)
    (d d' : DB) : Prop := {
  ih_waits : idle_target wf parent source fe keys d = None → d' = d;
  ih_row : ∀ st, idle_target wf parent source fe keys d = Some st →
    ∃ p', p' ∈ db_task d' ∧ tr_def p' = tr_def parent ∧ tr_status p' = st ∧
          tr_lockVersion p' = tr_lockVersion parent + 1 ∧
          (∀ e, tr_status source = ts_succeeded → batch wf parent source fe keys d = Err e →
             jget "foreach_materialization_error" (tr_metadata p') = Some (JStr (foreach_error_code e)));
  ih_children : ∀ r p, tr_status source = ts_succeeded → batch wf parent source fe keys d = Ok r → p ∈ mr_plans r →
    plan_present d' p;
  ih_others : keeps_others (tr_id parent) d d'
}.
Arguments idle_handled : clear implicits.

(** One compare-and-set of the parent and its log entry, after rows were added. *)
Lemma wp_settle_parent wf parent f kind payload d Q :
  parent ∈ db_task d →
  (∀ d', db_task d' = set_where (task_cas (tr_id parent) (tr_lockVersion parent)) f (db_task d) → Q () d') →
  wp (_ ← update_task (task_cas (tr_id parent) (tr_lockVersion parent)) f;
      foreach_event wf (tr_id parent) (tr_key parent) kind payload) Q any_exn d.
Proof. intros Hp HQ. unfold foreach_event. wpr. by apply HQ. Qed.

Lemma keeps_others_cas i v f d d1 d' :
  only_adds d d1 → db_task d' = set_where (task_cas i v) f (db_task d1) → keeps_others i d d'.
Proof. intros Ha E t Ht Hn. rewrite E. apply (cas_others i v f d1); [by eapply only_adds_in|done]. Qed.

Lemma plan_present_cas i v f d d' p :
  (∀ u, tr_def (f u) = tr_def u) → db_task d' = set_where (task_cas i v) f (db_task d) →
  plan_present d p → plan_present d' p.
Proof.
  intros Hd E (t & Ht & Hw & Hk). exists (if task_cas i v t then f t else t).
  rewrite E, set_where_in. split; [by eexists|]. unfold tr_workflowId, tr_key in *. case_match; by rewrite ?Hd.
Qed.

Lemma idle_target_source wf parent source fe keys d :
  tr_status source = ts_succeeded →
  idle_target wf parent source fe keys d = match batch wf parent source fe keys d with
    | Err _ => Some ts_failed
    | Ok r => Some (if (length (mr_plans r) =? 0)%nat then ts_succeeded else ts_running)
    end.
Proof. intros E. unfold idle_target. rewrite E. by destruct (td_failurePolicy (tr_def parent)). Qed.

(** A batch, then the compare-and-set of the parent. *)
Lemma handled_batch wf parent source fe keys d d1 d' r f st :
  batch wf parent source fe keys d = Ok r → tr_status source = ts_succeeded →
  idle_target wf parent source fe keys d = Some st → parent ∈ db_task d →
  only_adds d d1 → (∀ p, p ∈ mr_plans r → plan_present d1 p) →
  db_task d' = set_where (task_cas (tr_id parent) (tr_lockVersion parent)) f (db_task d1) →
  (∀ t, tr_def (f t) = tr_def t) → (∀ t, tr_status (f t) = st) → (∀ t, tr_lockVersion (f t) = tr_lockVersion t + 1) →
  idle_handled wf parent source fe keys d d'.
Proof.
  intros Eb Es Et Hp Ha Hpl E Hd Hs Hv. split; rewrite ?Et, ?Eb; try done.
  - intros st' [= <-]. exists (f parent). rewrite E. split; [|by rewrite Hd, Hs, Hv].
    by apply cas_row, cas_own; eapply only_adds_in.
  - intros r' p _ [= <-] Hin. eapply plan_present_cas; [exact Hd|exact E|auto].
  - by eapply keeps_others_cas.
Qed.

Lemma wp_handled wf parent source fe keys d :
  parent ∈ db_task d →
  wp (handleIdleParent wf parent source fe keys) (λ _ d', idle_handled wf parent source fe keys d d') any_exn d.
Proof.
  intros Hp.
  assert (Hskip : ∀ d', idle_target wf parent source fe keys d = Some ts_skipped → tr_status source ≠ ts_succeeded →
    (∃ now, db_task d' = set_where (task_cas (tr_id parent) (tr_lockVersion parent))
       (λ t, task_set ts_skipped (tr_lockVersion t + 1) now t) (db_task d)) → idle_handled wf parent source fe keys d d').
  { intros d' Et Hn [now E]. split; rewrite ?Et; try done.
    - intros st [= <-]. exists (task_set ts_skipped (tr_lockVersion parent + 1) now parent).
      rewrite E. split; [|done]. by apply (cas_row _ _ (λ t, task_set ts_skipped (tr_lockVersion t + 1) now t)), cas_own.
    - by eapply keeps_others_cas. }
  assert (Hwait : idle_target wf parent source fe keys d = None → tr_status source ≠ ts_succeeded →
    idle_handled wf parent source fe keys d d).
  { intros Et Hn. split; rewrite ?Et; try done. by intros t. }
  unfold handleIdleParent. destruct (tr_status source) eqn:Es;
    try (wp1; apply Hwait; [unfold idle_target; by rewrite Es|done]).
  - unfold readLatestSucceededAttemptOutput. do 4 wp1.
    change (wp (match batch wf parent source fe keys d with
      | Err e => persistForeachMaterializationFailure wf parent (foreach_error_code e) (foreach_error_json e)
      | Ok r => if (length (mr_plans r) =? 0)%nat then parent_zero_children wf parent source
                else parent_materialize wf parent source (mr_plans r)
      end) (λ _ d', idle_handled wf parent source fe keys d d') any_exn d).
    destruct (batch wf parent source fe keys d) as [r|e] eqn:Eb;
      pose proof (idle_target_source wf parent source fe keys d Es) as Et; rewrite Eb in Et.
    + destruct (length (mr_plans r) =? 0)%nat eqn:El.
      * unfold parent_zero_children. do 2 wp1. wp1; [|done]. do 6 wp1. apply wp_settle_parent; [done|].
        intros d' E. eapply (handled_batch _ _ _ _ _ d d); try done.
        apply Nat.eqb_eq, length_zero_iff_nil in El. rewrite El. by intros p ?%elem_of_nil.
      * unfold parent_materialize. wp1. eapply wp_conseq; [apply wp_plans_present|]. intros ? d1 [Ha Hpl].
        do 4 wp1. apply wp_settle_parent; [by eapply only_adds_in|].
        intros d' E. by eapply (handled_batch _ _ _ _ _ d d1).
    + unfold persistForeachMaterializationFailure. wp1. wp1. wp1; [|done]. unfold foreach_event. wpr.
      set (f := λ t, task_meta _ _). split; rewrite ?Et, ?Eb; try done.
      * intros st [= <-]. eexists (f parent). split; [by apply (cas_row _ _ f), cas_own|]. split_and!; [done..|].
        intros e' _ [= <-]. cbn. rewrite jget_jset. by rewrite bool_decide_true.
      * by eapply keeps_others_cas.
  - unfold idle_target in Hskip, Hwait. rewrite Es in Hskip, Hwait.
    destruct (td_failurePolicy (tr_def parent)) as [[]|]; cbn [default];
      try (rewrite bool_decide_false by done; wp1; by apply Hwait).
    rewrite bool_decide_true by done. do 2 wp1. wp1; [|done]. unfold parent_skip. do 2 wp1. apply wp_settle_parent; [done|].
    intros d' E. apply Hskip; [done..|]. by eexists.
  - unfold idle_target in Hskip. rewrite Es in Hskip. do 2 wp1. wp1; [|done]. unfold parent_skip. do 2 wp1.
    apply wp_settle_parent; [done|]. intros d' E. apply Hskip; [done..|]. by eexists.
Qed.

(** ** Running parents *)

Definition policy_of (fe : ForeachSpec) : ForeachRollupPolicy := fe_rollupPolicy fe ?? rup_any_fails.
Definition some_child (st : TaskStatus) (children : list TaskRow) : Prop := ∃ c, c ∈ children ∧ tr_status c = st.
Definition all_done (children : list TaskRow) : Prop :=
  children ≠ [] ∧ ∀ c, c ∈ children → isTerminalTaskStatus (tr_status c) = true.

Definition cancelling (policy : ForeachRollupPolicy) : option cancel_scope :=
  match policy with
  | rup_any_fails => Some scope_pending
  | rup_all_or_nothing => Some scope_all
  | rup_best_effort => None
  end.

(** What one pass makes of a running parent. *)
Record running_handled (wf : string) (parent : TaskRow) (policy : ForeachRollupPolicy) (children : list TaskRow)
    (d d' : DB) (runs : list string) : Prop := {
  rh_row : ∃ p', p' ∈ db_task d' ∧ tr_def p' = tr_def parent ∧
    (¬ all_done children → tr_status p' = ts_running) ∧
    (all_done children → tr_status p' = ts_succeeded ∨ tr_status p' = ts_failed) ∧
    (all_done children → tr_status p' = ts_failed ↔
       if policy ≟ rup_best_effort then ¬ some_child ts_succeeded children else some_child ts_failed children);
  rh_cancelled : ∀ sc c, some_child ts_failed children → cancelling policy = Some sc → c ∈ db_task d' →
    tr_workflowId c = wf → td_parentTaskId (tr_def c) = Some (tr_id parent) → tr_id c ≠ tr_id parent →
    tr_status c ∉ cancellableStatuses sc;
  rh_kept : ∀ t, t ∈ db_task d → tr_id t ≠ tr_id parent →
    t ∈ db_task d' ∨ (∃ sc, cancelling policy = Some sc ∧ some_child ts_failed children ∧
                            cancellable_child wf (tr_id parent) sc t = true);
  rh_runs : ∀ r, r ∈ runs → policy = rup_all_or_nothing ∧ some_child ts_failed children ∧
    ∃ a t, a ∈ db_attempt d ∧ at_status a = as_running ∧ at_childRunId a = Some r ∧ t ∈ db_task d ∧
           tr_id t = at_taskId a ∧ td_parentTaskId (tr_def t) = Some (tr_id parent)
}.

Lemma some_child_spec st children : existsb (λ c, tr_status c ≟ st) children = true ↔ some_child st children.
Proof.
  rewrite existsb_exists. unfold some_child. setoid_rewrite <- list_elem_of_In. by setoid_rewrite bool_decide_eq_true.
Qed.

Lemma all_done_spec children :
  children ≠ [] → forallb (λ c, isTerminalTaskStatus (tr_status c)) children = true ↔ all_done children.
Proof.
  intros Hne. rewrite forallb_forall. unfold all_done. setoid_rewrite <- list_elem_of_In. naive_solver.
Qed.

(** The three writes of the pass, each on rows it owns. *)
Lemma wp_latch_row parent anyF anyS d Q :
  parent ∈ db_task d →
  (∀ p d', p ∈ db_task d' → tr_def p = tr_def parent → tr_status p = tr_status parent →
     keeps_others (tr_id parent) d d' →
     (∀ c, c ∈ db_task d' → ∃ t, t ∈ db_task d ∧ tr_def t = tr_def c) → db_attempt d' = db_attempt d → Q () d') →
  wp (parent_latch parent anyF anyS) Q any_exn d.
Proof.
  intros Hp HQ. unfold parent_latch. wp1; [|apply (HQ parent d); unfold keeps_others; eauto]. wpr. set (f := λ t, task_meta _ _).
  apply (HQ (f parent)); cbn; try done.
  - apply cas_row; [done|by apply bool_decide_eq_true].
  - intros t Ht Hn. apply set_where_in. exists t. split; [done|]. by rewrite bool_decide_false.
  - intros c (t & Ht & ->)%set_where_in. exists t. split; [done|]. by case_match.
Qed.

Lemma wp_cancel_rows wf i sc reason d :
  wp (cancelForeachChildren wf i sc reason)
    (λ r d', db_attempt d' = db_attempt d ∧
       (∀ t, t ∈ db_task d → cancellable_child wf i sc t = false → t ∈ db_task d') ∧
       (∀ t, t ∈ db_task d' → t ∈ db_task d ∧ cancellable_child wf i sc t = false ∨ tr_status t = ts_cancelled) ∧
       (∀ x, x ∈ r.2 → sc = scope_all ∧ ∃ a t, a ∈ db_attempt d ∧ at_status a = as_running ∧
          at_childRunId a = Some x ∧ t ∈ db_task d ∧ tr_id t = at_taskId a ∧
          td_parentTaskId (tr_def t) = Some i)) any_exn d.
Proof.
  unfold cancelForeachChildren. wp1. wp1. wp1. apply wp_raw_task.
  set (f := λ t, task_set ts_cancelled _ _ t). set (d1 := with_task d _).
  assert (Hkeep : ∀ t, t ∈ db_task d → cancellable_child wf i sc t = false → t ∈ db_task d1).
  { intros t Ht E. apply set_where_in. exists t. by rewrite E. }
  assert (Hnew : ∀ t, t ∈ db_task d1 → t ∈ db_task d ∧ cancellable_child wf i sc t = false ∨ tr_status t = ts_cancelled).
  { intros t (u & Hu & ->)%set_where_in. destruct (cancellable_child wf i sc u) eqn:E; auto. }
  destruct (_ =? _)%nat; [wps; split_and!; try done; by intros x ?%elem_of_nil|]. wp1.
  eapply wp_conseq; [apply (wp_for_each _ (λ _ d', db_task d' = db_task d1 ∧ db_attempt d' = db_attempt d)); [done|]|].
  { intros c l d2 [E1 E2]. unfold foreach_event. wpr. by split. }
  intros ? d2 [E1 E2]. cbn beta in E1, E2. wp1. wp1. wp1. rewrite E1, E2. split_and!; try done.
  intros x Hx. destruct sc; cbn in Hx; [by apply elem_of_nil in Hx|]. split; [done|].
  apply filter_in in Hx as [(att & Ha & Ex)%list_elem_of_omap _]. apply filter_in in Ha as [Ha Hb]. bprop.
  match goal with Hin : at_taskId att ∈ _ |- _ => apply list_elem_of_fmap in Hin as (t & Et & Ht) end.
  apply list_elem_of_fmap in Ht as (u & -> & [Hu Hc]%filter_in). unfold cancellable_child in Hc. bprop.
  exists att, u. by split_and!.
Qed.

(** The cancellation of the pass, under any policy. *)
Record cancels (wf : string) (parent : TaskRow) (policy : ForeachRollupPolicy) (anyF : bool) (d : DB)
    (runs : list string) (d' : DB) : Prop := {
  cn_attempts : db_attempt d' = db_attempt d;
  cn_kept : ∀ t, t ∈ db_task d → t ∈ db_task d' ∨ (∃ sc, anyF = true ∧ cancelling policy = Some sc ∧
    cancellable_child wf (tr_id parent) sc t = true);
  cn_done : ∀ sc t, anyF = true → cancelling policy = Some sc → t ∈ db_task d' →
    cancellable_child wf (tr_id parent) sc t = false ∨ tr_status t = ts_cancelled;
  cn_runs : ∀ x, x ∈ runs → anyF = true ∧ policy = rup_all_or_nothing ∧ ∃ a t, a ∈ db_attempt d ∧
    at_status a = as_running ∧ at_childRunId a = Some x ∧ t ∈ db_task d ∧ tr_id t = at_taskId a ∧
    td_parentTaskId (tr_def t) = Some (tr_id parent)
}.

Lemma wp_cancel_children wf parent policy anyF d :
  wp (parent_cancel_children wf parent policy anyF) (cancels wf parent policy anyF d) any_exn d.
Proof.
  assert (Hnone : (anyF = true → cancelling policy = None) →
    wp (mret []) (cancels wf parent policy anyF d) any_exn d).
  { intros Hn. wp1. split; [done|by left| |by intros x ?%elem_of_nil]. intros sc t E. by rewrite (Hn E). }
  unfold parent_cancel_children. destruct anyF; [|by apply Hnone].
  assert (Hcancel : ∀ sc reason, cancelling policy = Some sc → (sc = scope_all → policy = rup_all_or_nothing) →
    wp (r ← cancelForeachChildren wf (tr_id parent) sc reason; mret r.2) (cancels wf parent policy true d) any_exn d).
  { intros sc reason Es Hp. wp1. eapply wp_conseq; [apply wp_cancel_rows|]. intros r d' (Ea & Hk & Hn & Hr). wp1. split.
    - done.
    - intros t Ht. destruct (cancellable_child wf (tr_id parent) sc t) eqn:E; eauto.
    - intros sc' t _ E Ht. rewrite Es in E. injection E as <-. destruct (Hn t Ht) as [[_ ?]|?]; auto.
    - intros x Hx. destruct (Hr x Hx) as [? ?]. auto. }
  destruct policy; [by apply Hcancel|by apply Hnone|by apply Hcancel].
Qed.

Lemma cancellable_false wf i sc c :
  cancellable_child wf i sc c = false → tr_workflowId c = wf → td_parentTaskId (tr_def c) = Some i →
  tr_status c ∉ cancellableStatuses sc.
Proof.
  unfold cancellable_child. intros E Hw Hp. rewrite (bool_decide_true _ Hw), (bool_decide_true _ Hp) in E.
  cbn [andb] in E. by bprop.
Qed.

(** The settlement writes the parent's row only. *)
Lemma wp_settle_row wf parent p policy anyF anyS n d Q :
  p ∈ db_task d → tr_def p = tr_def parent → tr_status p = ts_running →
  (∀ p' d', p' ∈ db_task d' → tr_def p' = tr_def parent → tr_status p' = parent_final_status policy anyF anyS →
     keeps_others (tr_id parent) d d' →
     (∀ c, c ∈ db_task d' → tr_id c ≠ tr_id parent → c ∈ db_task d) → Q () d') →
  wp (parent_settle wf parent policy anyF anyS n) Q any_exn d.
Proof.
  intros Hp Hd Hr HQ. assert (Hid : tr_id p = tr_id parent) by (unfold tr_id; congruence).
  unfold parent_settle, foreach_event. wpr. set (f := λ t, task_ended _ _).
  apply (HQ (f p)); cbn; try done.
  - apply cas_row; [done|]. by rewrite !bool_decide_true.
  - intros t Ht Hn. apply set_where_in. exists t. split; [done|]. by rewrite bool_decide_false.
  - intros c (t & Ht & ->)%set_where_in Hn. destruct (tr_id t ≟ tr_id parent) eqn:E; [|done]. bprop.
    cbn [andb] in *. by destruct (tr_status t ≟ ts_running).
Qed.

Lemma final_status_spec policy children anyF anyS :
  (anyF = true ↔ some_child ts_failed children) → (anyS = true ↔ some_child ts_succeeded children) →
  (parent_final_status policy anyF anyS = ts_succeeded ∨ parent_final_status policy anyF anyS = ts_failed) ∧
  (parent_final_status policy anyF anyS = ts_failed ↔
     if policy ≟ rup_best_effort then ¬ some_child ts_succeeded children else some_child ts_failed children).
Proof.
  intros HF HS. destruct policy; cbn [parent_final_status];
    [rewrite bool_decide_false by done|rewrite bool_decide_true by done|rewrite bool_decide_false by done].
  1,3: rewrite <- HF; destruct anyF; intuition congruence.
  rewrite <- HS. destruct anyS; intuition congruence.
Qed.

Lemma wp_running wf parent fe d :
  parent ∈ db_task d → tr_status parent = ts_running → td_parentTaskId (tr_def parent) ≠ Some (tr_id parent) →
  wp (handleRunningParent wf parent fe (wf_tasks wf d))
    (λ runs d', running_handled wf parent (policy_of fe) (children_of parent (wf_tasks wf d)) d d' runs) any_exn d.
Proof.
  intros Hp Hr Hself. unfold handleRunningParent. fold (policy_of fe). set (children := children_of _ _).
  destruct (length children =? 0)%nat eqn:El.
  { apply Nat.eqb_eq, length_zero_iff_nil in El. rewrite El.
    assert (Hnf : ∀ st, ¬ some_child st []) by (by intros st (c & ?%elem_of_nil & _)).
    assert (Hnd : ¬ all_done []) by by intros [].
    wp1. split; [|by intros sc c ?%Hnf|by left|by intros r ?%elem_of_nil]. exists parent. by split_and!. }
  assert (Hne : children ≠ []) by (by intros E; rewrite E in El).
  set (anyF := existsb (λ c, tr_status c ≟ ts_failed) children).
  set (anyS := existsb (λ c, tr_status c ≟ ts_succeeded) children).
  pose proof (some_child_spec ts_failed children : anyF = true ↔ _) as HF.
  pose proof (some_child_spec ts_succeeded children : anyS = true ↔ _) as HS.
  wp1. apply (wp_latch_row _ _ _ _ _ Hp). intros p1 d1 Hp1 Hd1 Hs1 Hk1 Hi1 Ea1. wp1.
  eapply wp_conseq; [apply wp_cancel_children|]. intros runs d2 Hc. wp1.
  assert (Hid : tr_id p1 = tr_id parent) by (unfold tr_id; congruence).
  assert (Hp2 : p1 ∈ db_task d2).
  { destruct (cn_kept _ _ _ _ _ _ _ Hc p1 Hp1) as [?|(sc & _ & _ & Hcan)]; [done|].
    unfold cancellable_child in Hcan. bprop. congruence. }
  assert (Hkept : ∀ t, t ∈ db_task d → tr_id t ≠ tr_id parent → t ∈ db_task d2 ∨
    ∃ sc, cancelling (policy_of fe) = Some sc ∧ some_child ts_failed children ∧ cancellable_child wf (tr_id parent) sc t = true).
  { intros t Ht Hn. destruct (cn_kept _ _ _ _ _ _ _ Hc t (Hk1 t Ht Hn)) as [?|(sc & Ef%HF & Esc & Et)]; eauto 6. }
  assert (Hdone : ∀ sc c, some_child ts_failed children → cancelling (policy_of fe) = Some sc → c ∈ db_task d2 →
    tr_workflowId c = wf → td_parentTaskId (tr_def c) = Some (tr_id parent) → tr_status c ∉ cancellableStatuses sc).
  { intros sc c Hf%HF Esc Hin Hw Hpa. destruct (cn_done _ _ _ _ _ _ _ Hc sc c Hf Esc Hin) as [E|E].
    - by eapply cancellable_false.
    - rewrite E. destruct sc; cbn; set_solver. }
  assert (Hruns : ∀ r, r ∈ runs → policy_of fe = rup_all_or_nothing ∧ some_child ts_failed children ∧
    ∃ a t, a ∈ db_attempt d ∧ at_status a = as_running ∧ at_childRunId a = Some r ∧ t ∈ db_task d ∧
           tr_id t = at_taskId a ∧ td_parentTaskId (tr_def t) = Some (tr_id parent)).
  { intros r Hin. destruct (cn_runs _ _ _ _ _ _ _ Hc r Hin) as (Hf%HF & Epol & a & t & Ha & ? & ? & Ht & ? & Hpa).
    split_and!; [done..|]. destruct (Hi1 t Ht) as (t0 & Ht0 & Ed). exists a, t0. rewrite Ea1 in Ha.
    unfold tr_id in *. rewrite Ed. by split_and!. }
  wp1.
  - apply (wp_settle_row _ _ p1); [done..|congruence|]. intros p' d3 Hp' Hd' Hs' Hk3 Hi3. wp1.
    apply all_done_spec in H1; [|done]. destruct (final_status_spec (policy_of fe) children anyF anyS HF HS) as [Ht Hf].
    split; [|..|exact Hruns].
    + exists p'. rewrite Hs'. by split_and!.
    + intros sc c Hf' Esc Hin Hw Hpa Hn. eapply Hdone; eauto.
    + intros t Ht' Hn. destruct (Hkept t Ht' Hn) as [?|?]; [left; by apply Hk3|by right].
  - wp1. split; [|intros; by eapply Hdone|done|exact Hruns]. exists p1.
    assert (Hnd : ¬ all_done children) by (rewrite <- all_done_spec by done; by apply not_true_iff_false).
    split_and!; try done. congruence.
Qed.
End rollup.

Section theorems.
Context `{Runtime} `{DateEnv}.

(** What the fan-out pass makes of an idle parent: it waits (and writes
    nothing) unless its source has succeeded, was skipped, or failed with the
    parent's policy being [skip]; a failed materialization fails the parent and
    stores the error code; an empty batch completes it; any other batch starts it
    with a task for every planned child; no other task row changes. *)
Theorem idle_parent_spec wf parent source fe keys s s' :
  parent ∈ db_task (st_db s) → handleIdleParent wf parent source fe keys s = (s', Ok ()) →
  idle_handled wf parent source fe keys (st_db s) (st_db s').
Proof.
  intros Hp Hrun. pose proof (wp_run _ _ _ _ (wp_handled wf parent source fe keys (st_db s) Hp)) as Hw.
  by rewrite Hrun in Hw.
Qed.

(** What the fan-out pass makes of a running parent: it is settled exactly
    when all its children are terminal, failing under [best_effort] if none
    succeeded and under the other policies if one failed; once a child has
    failed, [any_fails] leaves no child that has not started and
    [all_or_nothing] none that is unfinished, only [all_or_nothing] hands out
    child runs to stop, which are runs of live attempts of its children, and
    every other task row is kept. *)
Theorem running_parent_spec wf parent fe s s' runs :
  parent ∈ db_task (st_db s) → tr_status parent = ts_running →
  td_parentTaskId (tr_def parent) ≠ Some (tr_id parent) →
  handleRunningParent wf parent fe (wf_tasks wf (st_db s)) s = (s', Ok runs) →
  running_handled wf parent (policy_of fe) (children_of parent (wf_tasks wf (st_db s))) (st_db s) (st_db s') runs.
Proof.
  intros Hp Hr Hself Hrun. pose proof (wp_run _ _ _ _ (wp_running wf parent fe (st_db s) Hp Hr Hself)) as Hw.
  by rewrite Hrun in Hw.
Qed.

Lemma rollup_failed ts t : t ∈ ts → blocking_failure t = true → rollUpWorkflowStatus ts = ws_failed.
Proof.
  intros Ht Hb. unfold rollUpWorkflowStatus. destruct (length ts =? 0)%nat eqn:E.
  { apply Nat.eqb_eq, length_zero_iff_nil in E. rewrite E in Ht. by apply elem_of_nil in Ht. }
  assert (Hex : existsb blocking_failure ts = true) by (apply existsb_exists; exists t; by rewrite <- list_elem_of_In).
  by rewrite Hex.
Qed.

(** The workflow's status does not see fan-out policies: a failed task that
    is required and has no [skip] policy fails the workflow when it is
    finalized, also when the task is a child whose parent tolerates failures
    ([best_effort]) and has not been settled yet. *)
Theorem failed_child_fails_workflow wf w t s s' r :
  inv (st_db s) → first_where (λ w, wr_id w ≟ wf) (db_workflow (st_db s)) = Some w → wr_status w = ws_active →
  t ∈ db_task (st_db s) → tr_workflowId t = wf → tr_status t = ts_failed →
  td_required (tr_def t) = true → td_failurePolicy (tr_def t) ≠ Some fp_skip →
  finalizeWorkflow wf s = (s', Ok r) →
  fr_status r = "failed" ∧ ∃ w', w' ∈ db_workflow (st_db s') ∧ wr_id w' = wf ∧ wr_status w' = ws_failed.
Proof.
  intros Hi Ew Hact Ht Hwf Hf Hreq Hpol Hrun.
  pose proof (wp_run _ _ _ _ (wp_finalized_step wf w (st_db s) Hi Ew Hact)) as Hw. rewrite Hrun in Hw.
  destruct Hw as [[Htasks _ _ (next & Er & _ & Hb & Hn & w' & Hw' & Hid & Hs)] [_ Hi']].
  assert (next = ws_failed) as ->; [|by rewrite Er; eauto].
  destruct (decide (next = ws_failed)) as [|Hne]; [done|]. rewrite Hn; [|by intros ?%Hb].
  apply (rollup_failed _ (rollup_input (statusById (wf_tasks wf (st_db s'))) t)).
  { apply list_elem_of_fmap_2. by apply wf_tasks_in. }
  destruct (Htasks t) as (t' & Ht' & Hd & Hcase); [by apply wf_tasks_in|].
  unfold blocking_failure, rollup_input, failure_policy. cbn.
  assert (tr_id t = tr_id t') as -> by (unfold tr_id; by rewrite Hd).
  rewrite statusById_lookup; [|apply NoDup_map_filter, Hi'|done]. cbn [default].
  destruct Hcase as [->|(_ & Hc & _)]; [|by rewrite Hf in Hc]. rewrite Hf, Hreq.
  destruct (td_failurePolicy (tr_def t)) as [[]|]; try done.
Qed.
End theorems.

(** ** Instances *)

(** The fan-out of [Foreach.docs_foreach] behind a collector that has returned
    two documents. *)
Definition collect_task : TaskRow := sample_task "c" "collect" "agent_task" None None fp_block true ts_succeeded.
Definition reviews_parent : TaskRow :=
  sample_task "p" "reviews" "approval" None (Some docs_foreach) fp_block true ts_idle.
Definition collected : AttemptRow := {|
  at_id := "a1"; at_workflowId := "w1"; at_taskId := "c"; at_attemptNo := 1; at_idempotencyKey := "w1:c:1";
  at_status := as_succeeded; at_childRunId := None; at_error := None;
  at_output := Some (JObj [("items", JArr docs_items)]); at_startedAt := None; at_completedAt := None;
  at_updatedAt := 0 |}.
Definition fanout_db : DB := sample_db ws_active [collect_task; reviews_parent] [] [collected].
Definition fanout_keys : gmap string string := map_of (λ t, (tr_key t, tr_id t)) (db_task fanout_db).

Lemma idle_parent_spec_witness :
  let x := handleIdleParent "w1" reviews_parent collect_task docs_foreach fanout_keys (sample_st fanout_db) in
  map (λ t, (tr_key t, tr_status t)) (db_task (st_db x.1)) =
    [("collect", ts_succeeded); ("reviews", ts_running); ("reviews__a-1", ts_idle); ("reviews__b2", ts_idle)] ∧
  idle_handled "w1" reviews_parent collect_task docs_foreach fanout_keys fanout_db (st_db x.1).
Proof.
  cbv zeta. split; [vm_compute; reflexivity|].
  destruct (handleIdleParent _ _ _ _ _ _) as [s' [[]|e]] eqn:E.
  - refine (idle_parent_spec "w1" reviews_parent collect_task docs_foreach fanout_keys (sample_st fanout_db) s' _ E).
    right. left.
  - exfalso. apply (f_equal (λ x, is_ok x.2)) in E. vm_compute in E. discriminate E.
Defined.

(** A tolerant fan-out with a failed child, a finished one and a running one. *)
Definition tolerant : ForeachSpec := {|
  fe_source := "collect"; fe_as := "doc"; fe_itemKey := None; fe_template := docs_template;
  fe_rollupPolicy := Some rup_best_effort; fe_maxFanout := None |}.
Definition strict : ForeachSpec := {|
  fe_source := "collect"; fe_as := "doc"; fe_itemKey := None; fe_template := docs_template;
  fe_rollupPolicy := Some rup_all_or_nothing; fe_maxFanout := None |}.
Definition child (id : string) (status : TaskStatus) : TaskRow :=
  sample_task id ("reviews__" +:+ id) "agent_task" (Some "p") None fp_block true status.
Definition running_parent (fe : ForeachSpec) : TaskRow :=
  sample_task "p" "reviews" "agent_task" None (Some fe) fp_block true ts_running.
Definition children_db (fe : ForeachSpec) : DB :=
  sample_db ws_active [collect_task; running_parent fe; child "x" ts_failed; child "y" ts_succeeded; child "z" ts_running]
    [] [sample_attempt "az" "z" 1 as_running (Some "run-z")].

Lemma running_parent_spec_witness :
  let x := handleRunningParent "w1" (running_parent strict) strict (wf_tasks "w1" (children_db strict))
             (sample_st (children_db strict)) in
  x.2 = Ok ["run-z"] ∧
  running_handled "w1" (running_parent strict) rup_all_or_nothing
    (children_of (running_parent strict) (wf_tasks "w1" (children_db strict))) (children_db strict) (st_db x.1) ["run-z"].
Proof.
  cbv zeta. assert (Hr : (handleRunningParent "w1" (running_parent strict) strict (wf_tasks "w1" (children_db strict))
             (sample_st (children_db strict))).2 = Ok ["run-z"]) by (vm_compute; reflexivity).
  split; [exact Hr|].
  destruct (handleRunningParent _ _ _ _ _) as [s' r] eqn:E. cbn [fst snd] in *. rewrite Hr in E.
  refine (running_parent_spec "w1" (running_parent strict) strict (sample_st (children_db strict)) s' _ _ eq_refl _ E).
  - right. left.
  - discriminate.
Defined.

Lemma tolerant_inv : inv (children_db tolerant).
Proof.
  split; cbn.
  - repeat constructor; set_solver.
  - repeat constructor; set_solver.
  - repeat constructor; set_solver.
  - set_solver.
  - intros t a Ht ->%list_elem_of_singleton Ho _. cbn. intros E.
    repeat (apply elem_of_cons in Ht as [->|Ht]; [by destruct Ho|]). by apply elem_of_nil in Ht.
  - by intros a b ->%list_elem_of_singleton ->%list_elem_of_singleton.
  - intros t fe Ht Hfe. exists collect_task. split; [left|].
    repeat (apply elem_of_cons in Ht as [->|Ht]; [first [discriminate Hfe|by injection Hfe as <-]|]).
    by apply elem_of_nil in Ht.
Qed.

(** The workflow fails although the parent tolerates the failure and a child is
    still running. *)
Lemma failed_child_fails_workflow_witness :
  let x := finalizeWorkflow "w1" (sample_st (children_db tolerant)) in
  map tr_status (db_task (st_db x.1)) = [ts_succeeded; ts_running; ts_failed; ts_succeeded; ts_running] ∧
  ∃ w', w' ∈ db_workflow (st_db x.1) ∧ wr_id w' = "w1" ∧ wr_status w' = ws_failed.
Proof.
  cbv zeta. split; [vm_compute; reflexivity|].
  destruct (finalizeWorkflow "w1" (sample_st (children_db tolerant))) as [s' [r|e]] eqn:E.
  - refine (proj2 (failed_child_fails_workflow "w1" (sample_workflow ws_active) (child "x" ts_failed)
      (sample_st (children_db tolerant)) s' r tolerant_inv eq_refl eq_refl _ eq_refl eq_refl eq_refl _ E)).
    + do 2 right. left.
    + discriminate.
  - exfalso. apply (f_equal (λ x, is_ok x.2)) in E. vm_compute in E. discriminate E.
Defined.
