(* ===== verification/Walk.v ===== *)
(** * Walking the two writers of a spec

    [insertSpecRows] and [diffApplySpecRows] issue a few kinds of statements.  A
    property of the tables that each kind keeps is kept by the whole: the lemmas
    [wp_insertSpecRows] and [wp_diffApplySpecRows] are proved once and applied to
    each property.  The property may depend on the ids of the tasks put so far. *)

From S2P Require Import Prelude Json Time Spec Transitions Gates Store Hoare Evolution Ops Reconciler Engine Validate Resolver Drafts.

(** What [INSERT] gives a new row: a task that has not run, an approval nobody
    was asked for. *)
Record unstarted (t : TaskRow) : Prop := {
  us_status : tr_status t = ts_idle;
  us_started : tr_actualStartUtc t = None;
  us_ended : tr_actualEndUtc t = None;
  us_metadata : tr_metadata t = []
}.

Record unasked (a : ApprovalRow) : Prop := {
  ua_status : ap_status a = aps_pending;
  ua_decider : ap_decidedBy a = None;
  ua_decided : ap_decidedAt a = None;
  ua_hash : ap_reviewPacketHash a = None
}.

(** The rows of a workflow whose tasks have never run. *)
Record draft_rows (wf : string) (d : DB) : Prop := {
  dr_task : ∀ t, t ∈ db_task d → tr_workflowId t = wf → unstarted t;
  dr_approval : ∀ a, a ∈ db_approval d → ap_workflowId a = wf → unasked a
}.

Definition ids_kept (o : OldState) (m : gmap string string) (tasks : list TaskSpec) : Prop :=
  ∀ t e, t ∈ tasks → oldTaskByKey o !! t_key t = Some e → m !! t_key t = Some (tr_id e).

Lemma oldTaskByKey_old o k e : oldTaskByKey o !! k = Some e → e ∈ os_tasks o ∧ tr_key e = k.
Proof. intros (x & Hx & [= <- <-])%map_of_lookup. done. Qed.

Section walk.
Context `{Runtime} `{DateEnv} (wf : string) (spec : WorkflowSpec).

Lemma set_cols_row c d0 x : set_cols c d0 = Ok x → td_id x.1 = td_id d0 ∧ td_workflowId x.1 = td_workflowId d0.
Proof.
  unfold set_cols. intros Hx. apply result_bind_Ok in Hx as (s & _ & Hx).
  apply result_bind_Ok in Hx as (e & _ & Hx). by apply result_bind_Ok in Hx as (due & _ & [= <-]).
Qed.

Lemma new_task_row_unstarted i c now r :
  new_task_row i wf c now = Ok r → tr_id r = i ∧ tr_workflowId r = wf ∧ td_parentTaskId (tr_def r) = None ∧ unstarted r.
Proof.
  unfold new_task_row. intros Hr. apply result_bind_Ok in Hr as (x & Hx & [= <-]).
  destruct (set_cols_row _ _ _ Hx) as [Hi Hw]. split_and!; [done..| |done].
  unfold set_cols in Hx. apply result_bind_Ok in Hx as (s & _ & Hx).
  apply result_bind_Ok in Hx as (e & _ & Hx). by apply result_bind_Ok in Hx as (due & _ & [= <-]).
Qed.

Lemma kept_ids_spec o d1 :
  wp (kept_ids o (w_tasks spec)) (λ m d', d' = d1 ∧ ids_kept o m (w_tasks spec)) any_exn d1.
Proof.
  unfold kept_ids. apply (wp_conseq _ (λ m d', d' = d1 ∧ ∃ done, done ++ [] = w_tasks spec ∧ ids_kept o m done)).
  - apply (wp_foldM _ (λ r m d', d' = d1 ∧ ∃ done, done ++ r = w_tasks spec ∧ ids_kept o m done)).
    + split; [done|]. exists []. split; [done|]. by intros t e ?%elem_of_nil.
    + intros t r m d' (-> & dn & Hdn & Hm).
      assert (Hnext : ∀ i, (∀ e, oldTaskByKey o !! t_key t = Some e → i = tr_id e) →
        d1 = d1 ∧ ∃ dn, dn ++ r = w_tasks spec ∧ ids_kept o (<[t_key t := i]> m) dn).
      { intros i Hi. split; [done|]. exists (dn ++ [t]). split; [by rewrite <- app_assoc|].
        intros u e Hu He. destruct (decide (t_key u = t_key t)) as [E|Hn].
        - rewrite E, lookup_insert_eq. rewrite E in He. by rewrite (Hi e He).
        - rewrite lookup_insert_ne by done. apply Hm; [|done].
          apply elem_of_app in Hu as [Hu| ->%list_elem_of_singleton]; done. }
      destruct (oldTaskByKey o !! t_key t) as [e|]; wps; apply Hnext; [by intros ? [= <-]|done].
  - cbn. intros m d' (-> & dn & Hdn & Hm). rewrite app_nil_r in Hdn. by subst.
Qed.

(** A loop over the tasks that puts one id each, then loops that may use them. *)
Section kept.
Context (I : list string → DB → Prop).

Definition puts (m : gmap string string) (ids : list string) (tasks : list TaskSpec) : Prop :=
  ∀ t, t ∈ tasks → task_id m (t_key t) ∈ ids.

Lemma wp_put_tasks m (f : TaskSpec → M unit) tasks d :
  I [] d →
  (∀ t ids d1, t ∈ tasks → I ids d1 → wp (f t) (λ _, I (task_id m (t_key t) :: ids)) any_exn d1) →
  wp (for_each tasks f) (λ _ d', ∃ ids, puts m ids tasks ∧ I ids d') any_exn d.
Proof.
  intros Hd Hf.
  apply (wp_conseq _ (λ _ d', ∃ pre ids, pre ++ [] = tasks ∧ puts m ids pre ∧ I ids d')).
  - apply (wp_for_each _ (λ r d', ∃ pre ids, pre ++ r = tasks ∧ puts m ids pre ∧ I ids d')).
    + exists [], []. split_and!; [done| |done]. by intros t ?%elem_of_nil.
    + intros t r d1 (pre & ids & Hp & Hids & Hi). eapply wp_conseq.
      * apply Hf; [|exact Hi]. rewrite <-Hp. apply elem_of_app. right. left.
      * cbn. intros _ d2 Hd2. exists (pre ++ [t]), (task_id m (t_key t) :: ids). split_and!; [by rewrite <-app_assoc| |done].
        intros u [Hu| ->%list_elem_of_singleton]%elem_of_app; [right; by apply Hids|left].
  - cbn. intros _ d' (pre & ids & Hp & Hids & Hi). rewrite app_nil_r in Hp. subst. by exists ids.
Qed.

Context (keeps_task : ∀ ids r d, tr_workflowId r = wf → td_parentTaskId (tr_def r) = None → unstarted r → I ids d →
           wp (insert_new_task r) (λ _, I (tr_id r :: ids)) any_exn d).
Context (keeps_parent : ∀ ids i p d, i ∈ ids → I ids d → wp (set_parent i p) (λ _, I ids) any_exn d).
Context (keeps_edge : ∀ ids e d, dp_workflowId e = wf → I ids d → wp (insert_dependency e) (λ _, I ids) any_exn d).

Lemma wp_edges ids m t d : I ids d → wp (for_each (deps_of t) (insert_edge wf m t)) (λ _, I ids) any_exn d.
Proof.
  intros Hd. apply (wp_for_each_inv _ (I ids)); [exact Hd|]. intros dep d1 _ Hd1. unfold insert_edge.
  destruct (m !! _); [|by wps]. wp1. wp1. wp1. wp1. wp1. by apply keeps_edge.
Qed.

Lemma wp_insertSpecRows fz d :
  (∀ ids a d, ap_workflowId a = wf → unasked a → I ids d → wp (insert_approval a) (λ _, I ids) any_exn d) →
  I [] d → wp (insertSpecRows wf spec fz) (λ _ d', ∃ ids, I ids d') any_exn d.
Proof.
  intros keeps_approval Hd. unfold insertSpecRows. wp1. wp1. wp1. wp1. wp1; [|done]. wp1.
  eapply wp_conseq; [apply (wp_foldM _ (λ _ _, I [])); [exact Hd|intros; wps; done]|].
  cbn. intros m d1 Hd1. wp1. eapply wp_conseq; [apply (wp_put_tasks m); [exact Hd1|]|].
  { intros t ids d2 _ Hd2. unfold insert_spec_task. wp1. wp1. wp1. wp1. wp1; [|done].
    apply new_task_row_unstarted in Heqr0 as (Hi & Hw & Hp & Hu). rewrite <-Hi. by apply keeps_task. }
  cbn. intros _ d2 (ids & Hids & Hd2). wp1. eapply wp_conseq; [apply (wp_for_each_inv _ (I ids)); [exact Hd2|]|].
  { intros t d3 Ht Hd3. unfold link_parent. destruct (t_parent t) as [p|]; [|by wps].
    destruct (m !! p); [|by wps]. apply keeps_parent; [by apply Hids|done]. }
  cbn. intros _ d3 Hd3. eapply wp_conseq; [apply (wp_for_each_inv _ (I ids)); [exact Hd3|]|by cbn; intros _ d' Hd'; exists ids].
  intros t d4 _ Hd4. wp1. eapply wp_conseq; [by apply wp_edges|]. cbn. intros _ d5 Hd5.
  unfold insert_pending_approval. destruct (t_body t); try by wps.
  wps; try done. by apply keeps_approval.
Qed.

Lemma wp_diffApplySpecRows fz d :
  (∀ d1, I [] d1 → I [] (with_dependency d1 (List.filter (λ e, negb (dp_workflowId e ≟ wf)) (db_dependency d1)))) →
  (∀ d1, I [] d1 → I [] (with_approval d1 (List.filter (λ a, negb (ap_workflowId a ≟ wf)) (db_approval d1)))) →
  (∀ t d1, t ∈ os_tasks (old_state wf d) → I [] d1 →
     wp (delete_task (λ r, tr_id r ≟ tr_id t)) (λ _, I []) any_exn d1) →
  (∀ ids e x v now d1, e ∈ os_tasks (old_state wf d) → td_id x.1 = tr_id e → td_workflowId x.1 = wf → I ids d1 →
     wp (update_task (λ r, tr_id r ≟ tr_id e) (task_cols x v now)) (λ _, I (tr_id e :: ids)) any_exn d1) →
  (∀ ids a d1, ap_workflowId a = wf → I ids d1 → wp (insert_approval a) (λ _, I ids) any_exn d1) →
  I [] d → wp (diffApplySpecRows wf spec fz) (λ _ d', ∃ ids, I ids d') any_exn d.
Proof.
  intros keeps_unlinked keeps_unasked keeps_deleted keeps_updated keeps_approval Hd.
  unfold diffApplySpecRows. wp1. wp1. set (o := old_state wf d) in *. wp1. wp1. wp1. wp1. wp1; [|done].
  wp1. eapply wp_conseq; [apply (wp_for_each_inv _ (I [])); [exact Hd|]|].
  { intros t d' _ Hd'. destruct (delete_refusal _ _); by wps. }
  cbn. intros _ d1 Hd1. wp1. eapply wp_conseq; [apply (wp_for_each_inv _ (I [])); [exact Hd1|]|].
  { intros t d' _ Hd'. unfold identity_frozen. wps; done. }
  cbn. intros _ d2 Hd2. wp1. unfold delete_dependency. wp1. wp1. unfold delete_approval. wp1. wp1.
  eapply wp_conseq; [apply (wp_for_each_inv _ (I [])); [by apply keeps_unasked, keeps_unlinked|]|].
  { intros t d' Ht Hd'. apply keeps_deleted; [|done]. by apply filter_in in Ht as [Ht _]. }
  cbn. intros _ d3 Hd3. wp1. eapply wp_conseq; [apply kept_ids_spec|]. cbn. intros m d4 [-> Hm].
  wp1. eapply wp_conseq; [apply (wp_put_tasks m); [exact Hd3|]|].
  { intros t ids d' Ht Hd'. unfold apply_task. destruct (oldTaskByKey o !! t_key t) as [e|] eqn:Ee.
    - wp1. wp1. wp1. wp1. wp1; [|done]. wp1. unfold task_id. rewrite (Hm t e Ht Ee). cbn.
      apply oldTaskByKey_old in Ee as [He _]. apply set_cols_row in Heqr0 as [Hi Hw].
      eapply wp_conseq; [apply (keeps_updated ids); try done|intros; by wps].
      rewrite Hw. apply filter_in in He as [_ He]. by bprop.
    - wp1. wp1. wp1. wp1. wp1; [|done].
      apply new_task_row_unstarted in Heqr0 as (Hi & Hw & Hp & Hu). rewrite <-Hi. by apply keeps_task. }
  cbn. intros _ d5 (ids & Hids & Hd5). wp1. eapply wp_conseq; [apply (wp_for_each_inv _ (I ids)); [exact Hd5|]|].
  { intros t d' Ht Hd'. unfold apply_parent. destruct (t_parent t) as [p|]; [destruct (m !! p); [|by wps]|];
      (apply keeps_parent; [by apply Hids|done]). }
  cbn. intros _ d6 Hd6. eapply wp_conseq; [apply (wp_for_each_inv _ (I ids)); [exact Hd6|]|by cbn; intros _ d' Hd'; exists ids].
  intros t d' _ Hd'. wp1. eapply wp_conseq; [by apply wp_edges|]. cbn. intros _ d7 Hd7.
  unfold apply_approval. wps; try done; by apply keeps_approval.
Qed.
End kept.
End walk.
