(* ===== verification/PausedEdit.v ===== *)
(** * Editing a workflow that has already run

    What an edit of a paused workflow may not touch: attempts, artifacts and
    events, and of a task with evidence its row, its status and dates, its
    execution identity, its edges and its committed bar.  And what an edit is as
    a whole: all or nothing, under the lock version its caller saw. *)

From S2P Require Import Prelude Json Time Spec Transitions Gates Store Hoare Evolution Ops Reconciler.
From S2P Require Import Validate Resolver Drafts Canonical Sample Engine Walk.
Open Scope Z_scope.

(** ** Frozen tasks in the resolver *)

Section frozen.
Context `{DateEnv}.

Definition frozen_ok (env : ResolveEnv) (memo : gmap string Bar) : Prop :=
  ∀ k b f, re_frozen env !! k = Some f → memo !! k = Some b → b = frozen_bar f.

Lemma frozen_ok_insert env memo k b :
  frozen_ok env memo → (∀ f, re_frozen env !! k = Some f → b = frozen_bar f) → frozen_ok env (<[k := b]> memo).
Proof.
  intros Hm Hb k' b' f Hf. destruct (decide (k' = k)) as [->|Hn].
  - rewrite lookup_insert_eq. intros [= <-]. auto.
  - rewrite lookup_insert_ne by done. by apply Hm.
Qed.

Lemma insert_keeps {A} (m : gmap string A) k v i : is_Some (m !! i) → is_Some (<[k := v]> m !! i).
Proof. destruct (decide (i = k)) as [->|Hn]; [by rewrite lookup_insert_eq|by rewrite lookup_insert_ne]. Qed.

(** A frozen key gets its frozen bar, whatever the anchors do. *)
Lemma resolveDueMs_frozen env fuel key stack st :
  frozen_ok env st.1 →
  let st' := (resolveDueMs fuel env key stack st).2 in
  frozen_ok env st'.1 ∧ (∀ k, is_Some (st.1 !! k) → is_Some (st'.1 !! k)) ∧
  (is_Some (re_frozen env !! key) → is_Some (st'.1 !! key)).
Proof.
  revert key stack st. induction fuel as [|fuel IH]; intros key stack [memo ws] Hm; rewrite resolveDueMs_eq;
    unfold resolve_step; destruct (memo !! key) eqn:Ek; cbn in *; try (split_and!; [done|done|by rewrite Ek]);
    destruct (re_frozen env !! key) as [f|] eqn:Ef; cbn;
    try (split_and!; [apply frozen_ok_insert; [done|intros ? ?; congruence]|intros; by apply insert_keeps|by rewrite lookup_insert_eq]);
    case_bool_decide; cbn; try (split_and!; [done|done|by intros [? ?]]).
  all: destruct (re_byKey env !! key ≫= t_schedule) as [[a|r]|]; cbn.
  all: try (split_and!; [apply frozen_ok_insert; [done|intros ? ?; congruence]|intros; by apply insert_keeps|by rewrite lookup_insert_eq]).
  all: case_bool_decide; cbn.
  all: try (destruct (relative_instant _ _ _ _); cbn;
    split_and!; [apply frozen_ok_insert; [done|intros ? ?; congruence]|intros; by apply insert_keeps|by rewrite lookup_insert_eq]).
  specialize (IH (rel_anchor r) (key :: stack) (memo, ws) Hm).
  destruct (resolveDueMs _ _ _ _ _) as [due [memo' ws']]. cbn in *. destruct IH as (Hok & Hdom & _).
  destruct (relative_instant _ _ _ _); cbn.
  split_and!; [apply frozen_ok_insert; [done|intros ? ?; congruence]|intros; apply insert_keeps; auto|by rewrite lookup_insert_eq].
Qed.

Lemma resolve_all_frozen env tasks :
  frozen_ok env (resolve_all env tasks).1 ∧
  (∀ k, k ∈ map t_key tasks → is_Some (re_frozen env !! k) → is_Some ((resolve_all env tasks).1 !! k)).
Proof.
  unfold resolve_all. set (n := length tasks). clearbody n. induction tasks as [|t l IH] using rev_ind.
  - split; [intros ? ? ? _; cbn; by rewrite lookup_empty|by intros ? ?%elem_of_nil].
  - rewrite foldl_snoc. destruct IH as [Hm Hk].
    destruct (resolveDueMs_frozen env n (t_key t) [] _ Hm) as (Hm' & Hd & Hs). split; [done|].
    intros k Hin Hf. rewrite map_app in Hin. apply elem_of_app in Hin as [Hin|Hin]; [auto|].
    apply list_elem_of_singleton in Hin as ->. by apply Hs.
Qed.

(** In the result a frozen task without children has exactly the frozen bar. *)
Lemma resolveSchedule_frozen now spec opts res k f :
  resolveSchedule now spec opts = Ok res → ro_frozenDueAt opts !! k = Some f →
  k ∈ map t_key (w_tasks spec) → childrenByParent (w_tasks spec) !! k = None →
  ∃ r, rr_tasks res !! k = Some r ∧ resolved_task (frozen_bar f) = Ok r.
Proof.
  intros Hr Hf Hk Hc. destruct (proj2 (resolveSchedule_dom _ _ _ _ k Hr) Hk) as [r Hkr]. exists r. split; [done|].
  apply resolveSchedule_Ok, resolved_tasks_Ok in Hr as [_ Hv]. specialize (Hv _ _ Hkr).
  rewrite recompute_all_leaf in Hv by done.
  destruct (resolve_all_frozen (resolve_env now spec opts) (w_tasks spec)) as [Hm Hd].
  destruct (Hd k Hk ltac:(by exists f)) as [b Hb]. rewrite Hb in Hv. by rewrite (Hm k b f Hf Hb) in Hv.
Qed.
End frozen.

(** ** What a frozen task keeps *)

Definition same_identity (d d' : TaskDef) : Prop :=
  ∀ k, k ∈ FROZEN_TASK_IDENTITY_KEYS → column_text k (row_columns d') = column_text k (row_columns d).

(** The row, its history and what it ran. *)
Record same_evidence (e e' : TaskRow) : Prop := {
  se_id : tr_id e' = tr_id e;
  se_workflow : tr_workflowId e' = tr_workflowId e;
  se_key : tr_key e' = tr_key e;
  se_status : tr_status e' = tr_status e;
  se_started : tr_actualStartUtc e' = tr_actualStartUtc e;
  se_ended : tr_actualEndUtc e' = tr_actualEndUtc e;
  se_metadata : tr_metadata e' = tr_metadata e;
  se_run : td_runId (tr_def e') = td_runId (tr_def e);
  se_created : td_createdAt (tr_def e') = td_createdAt (tr_def e);
  se_identity : same_identity (tr_def e) (tr_def e')
}.

(** The committed bar; a missing bound stands for the due instant. *)
Definition same_bar (e e' : TaskRow) : Prop :=
  ∀ due, tr_dueAtUtc e = Some due →
    tr_dueAtUtc e' = Some due ∧
    td_plannedStartUtc (tr_def e') ?? due = td_plannedStartUtc (tr_def e) ?? due ∧
    td_plannedEndUtc (tr_def e') ?? due = td_plannedEndUtc (tr_def e) ?? due.

(** The instants of the row are time values. *)
Definition valid_times (e : TaskRow) : Prop :=
  ∀ z, tr_dueAtUtc e = Some z ∨ td_plannedStartUtc (tr_def e) = Some z ∨ td_plannedEndUtc (tr_def e) = Some z →
  Z.abs z <= max_time.

(** The freeze of the bar applies: the key is not one every object inherits, and
    no task of the new spec makes the row a summary. *)
Definition bar_held (spec : WorkflowSpec) (e : TaskRow) : Prop :=
  valid_times e ∧ tr_key e ∉ object_prototype_keys ∧ childrenByParent (w_tasks spec) !! tr_key e = None.

Definition kept_row (spec : WorkflowSpec) (e e' : TaskRow) : Prop :=
  same_evidence e e' ∧ (bar_held spec e → same_bar e e').

(** Two rows that differ at most in the parent link. *)
Lemma kept_row_parent spec e e' p : kept_row spec e e' → kept_row spec e (task_parent p e').
Proof.
  intros [[] Hb]. split; [by split|]. intros Hh due Hd. by apply (Hb Hh).
Qed.

Lemma kept_row_refl spec e : kept_row spec e e.
Proof. split; [by split|]. by intros _ due ->. Qed.

Section apply.
Context `{Runtime, !JsonbLaw} `{DateEnv}.

Lemma column_text_fmap (v : option json) :
  canonicalize_opt (rt_jsonb <$> v) = canonicalize_opt v.
Proof. destruct v as [v|]; [apply jsonb_canonical|done]. Qed.

(** The stored columns say what the built columns say. *)
Lemma set_cols_identity c d0 x k :
  set_cols c d0 = Ok x → k ∈ FROZEN_TASK_IDENTITY_KEYS →
  column_text k (row_columns x.1) = column_text k (cols_columns c).
Proof.
  unfold set_cols. intros Hx Hk. apply result_bind_Ok in Hx as (? & _ & Hx).
  apply result_bind_Ok in Hx as (? & _ & Hx). apply result_bind_Ok in Hx as (? & _ & [= <-]).
  unfold FROZEN_TASK_IDENTITY_KEYS in Hk.
  repeat (apply elem_of_cons in Hk as [->|Hk]; [first [reflexivity|exact (column_text_fmap _)]|]).
  by apply elem_of_nil in Hk.
Qed.

Lemma set_cols_keeps c d0 x :
  set_cols c d0 = Ok x →
  td_id x.1 = td_id d0 ∧ td_workflowId x.1 = td_workflowId d0 ∧ td_key x.1 = tc_key c ∧
  td_runId x.1 = td_runId d0 ∧ td_createdAt x.1 = td_createdAt d0 ∧
  sql_timestamp (tc_plannedStartUtc c) = Ok (td_plannedStartUtc x.1) ∧
  sql_timestamp (tc_plannedEndUtc c) = Ok (td_plannedEndUtc x.1) ∧
  sql_timestamp (tc_dueAtUtc c) = Ok x.2.
Proof.
  unfold set_cols. intros Hx. apply result_bind_Ok in Hx as (s & Hs & Hx).
  apply result_bind_Ok in Hx as (e & He & Hx). by apply result_bind_Ok in Hx as (due & Hd & [= <-]).
Qed.

Lemma identity_unchanged d0 c :
  identity_changed d0 c = false →
  ∀ k, k ∈ FROZEN_TASK_IDENTITY_KEYS → column_text k (row_columns d0) = column_text k (cols_columns c).
Proof.
  unfold identity_changed. intros Hc k Hk. destruct (decide (column_text k (row_columns d0) = column_text k (cols_columns c)))
    as [|Hn]; [done|].
  enough (existsb (λ k, negb (column_text k (row_columns d0) ≟ column_text k (cols_columns c))) FROZEN_TASK_IDENTITY_KEYS = true)
    by congruence.
  apply existsb_exists. exists k. split; [by apply list_elem_of_In|]. by rewrite bool_decide_false.
Qed.

(** ** The frozen bars of the resolver *)

Lemma frozen_tuple_resolved due d0 r :
  (∀ z, z = due ∨ td_plannedStartUtc d0 = Some z ∨ td_plannedEndUtc d0 = Some z → Z.abs z <= max_time) →
  resolved_task (frozen_bar (frozen_tuple due d0)) = Ok r →
  Date_parse (rt_dueAtUtc r) = Some due ∧
  Date_parse (rt_plannedStartUtc r) = Some (td_plannedStartUtc d0 ?? due) ∧
  Date_parse (rt_plannedEndUtc r) = Some (td_plannedEndUtc d0 ?? due).
Proof.
  intros Hv. rewrite resolved_task_Ok. unfold frozen_bar, frozen_tuple. cbn [startMs endMs dueMs].
  assert (Hs : Z.abs (td_plannedStartUtc d0 ?? due) <= max_time) by (destruct (td_plannedStartUtc d0); apply Hv; cbn; auto).
  assert (He : Z.abs (td_plannedEndUtc d0 ?? due) <= max_time) by (destruct (td_plannedEndUtc d0); apply Hv; cbn; auto).
  assert (Hd : Z.abs due <= max_time) by (apply Hv; auto).
  rewrite !Date_parse_toISO by done. rewrite !date_iso_Ok.
  intros ((? & [= <-] & _ & ->) & (? & [= <-] & _ & ->) & (? & [= <-] & _ & ->)).
  by rewrite !Date_parse_toISO.
Qed.

Lemma freeze_kept_lookup o spec fz e due :
  (∀ t u, t ∈ os_tasks o → u ∈ os_tasks o → tr_key t = tr_key u → t = u) →
  e ∈ os_tasks o → tr_dueAtUtc e = Some due → tr_key e ∈ new_keys spec → tr_key e ∉ object_prototype_keys →
  isFrozen o e (oldApprovalByKey o !! tr_key e) = true →
  (∀ f, fz !! tr_key e = Some f → f = frozen_tuple due (tr_def e)) →
  freeze_kept o spec fz !! tr_key e = Some (frozen_tuple due (tr_def e)).
Proof.
  intros Hu He Hd Hk Hp Hf Hfz. unfold freeze_kept. set (g := λ m t, _).
  assert (Hg : ∀ m t, t ∈ os_tasks o → t ≠ e → g m t !! tr_key e = m !! tr_key e).
  { intros m t Ht Hn. unfold g. destruct (tr_dueAtUtc t); [|done]. destruct (negb _ || _ || _); [done|].
    destruct (isFrozen o t _); [|done]. rewrite lookup_insert_ne; [done|]. intros E. by apply Hn, Hu. }
  assert (Hge : ∀ m, (∀ f, m !! tr_key e = Some f → f = frozen_tuple due (tr_def e)) →
                     g m e !! tr_key e = Some (frozen_tuple due (tr_def e))).
  { intros m Hm. unfold g. rewrite Hd, (bool_decide_true _ Hk), (bool_decide_false _ Hp), Hf.
    destruct (m !! tr_key e) as [f|] eqn:E; cbn [is_present negb orb]; [by rewrite E, (Hm f)|]. by rewrite lookup_insert_eq. }
  assert (Hl : ∀ l m, l ⊆ os_tasks o → (∀ f, m !! tr_key e = Some f → f = frozen_tuple due (tr_def e)) →
    (∀ f, foldl g m l !! tr_key e = Some f → f = frozen_tuple due (tr_def e)) ∧
    (e ∈ l ∨ m !! tr_key e = Some (frozen_tuple due (tr_def e)) →
     foldl g m l !! tr_key e = Some (frozen_tuple due (tr_def e)))).
  { induction l as [|t l IH]; intros m Hs Hm; [split; [done|by intros [?%elem_of_nil|?]]|]. cbn.
    destruct (decide (tr_key t = tr_key e)) as [E|Hn].
    - apply Hu in E as ->; [|set_solver|done]. destruct (IH (g m e)) as [Hl1 Hl2]; [set_solver|intros f; rewrite Hge by done; by intros [= ->]|].
      split; [done|]. intros _. apply Hl2. right. by apply Hge.
    - destruct (IH (g m t)) as [Hl1 Hl2]; [set_solver|rewrite Hg; [done|set_solver|congruence]|]. split; [done|].
      intros [Hin|Hm']; apply Hl2; [left; apply elem_of_cons in Hin as [->|?]; done|right; rewrite Hg; [done|set_solver|congruence]]. }
  apply Hl; [done|done|by left].
Qed.

(** ** The diff *)

Definition frozen_in (o : OldState) (e : TaskRow) : Prop :=
  e ∈ os_tasks o ∧ isFrozen o e (oldApprovalByKey o !! tr_key e) = true.

Record kept_tables (o : OldState) (spec : WorkflowSpec) (d d' : DB) : Prop := {
  kt_attempt : db_attempt d' = db_attempt d;
  kt_artifact : db_artifact d' = db_artifact d;
  kt_event : db_event d' = db_event d;
  kt_workflow : db_workflow d' = db_workflow d;
  kt_rows : ∀ e, frozen_in o e → ∃ e', e' ∈ db_task d' ∧ kept_row spec e e'
}.

Section diff.
Context (wf : string) (spec : WorkflowSpec) (d : DB).
Notation o := (old_state wf d).
Hypothesis ids_unique : NoDup (map tr_id (db_task d)).
Hypothesis keys_unique : ∀ t u, t ∈ os_tasks o → u ∈ os_tasks o → tr_key t = tr_key u → t = u.

Lemma old_row e : e ∈ os_tasks o → e ∈ db_task d ∧ tr_workflowId e = wf.
Proof. cbn. intros [? ?]%filter_in. by bprop. Qed.

Lemma old_unique e e' : e ∈ os_tasks o → e' ∈ os_tasks o → tr_id e = tr_id e' → e = e'.
Proof. intros [He _]%old_row [He' _]%old_row. by apply (row_unique tr_id (db_task d)). Qed.

Lemma oldTaskByKey_hit e : e ∈ os_tasks o → oldTaskByKey o !! tr_key e = Some e.
Proof.
  intros He. destruct (map_of_is_Some (λ t, (tr_key t, t)) (os_tasks o) e He) as [e' E].
  change (oldTaskByKey o !! tr_key e = Some e') in E. destruct (oldTaskByKey_old _ _ _ E) as [He' Hk].
  by rewrite E, (keys_unique e' e).
Qed.

Lemma kept_start : kept_tables o spec d d.
Proof. split; try done. intros e [[He _]%old_row _]. exists e. split; [done|apply kept_row_refl]. Qed.

(** A statement that keeps the other tables and every frozen row. *)
Lemma kept_step d1 d2 :
  kept_tables o spec d d1 →
  db_attempt d2 = db_attempt d1 → db_artifact d2 = db_artifact d1 → db_event d2 = db_event d1 →
  db_workflow d2 = db_workflow d1 →
  (∀ e e', frozen_in o e → e' ∈ db_task d1 → kept_row spec e e' →
     ∃ e'', e'' ∈ db_task d2 ∧ kept_row spec e e'') →
  kept_tables o spec d d2.
Proof.
  intros [] Ha Hr He Hw Ht. split; try congruence. intros e Hf. destruct (kt_rows0 e Hf) as (e' & Hin & Hk). eauto.
Qed.

Lemma kept_same_tasks d1 d2 :
  kept_tables o spec d d1 →
  db_attempt d2 = db_attempt d1 → db_artifact d2 = db_artifact d1 → db_event d2 = db_event d1 →
  db_workflow d2 = db_workflow d1 → (∀ t, t ∈ db_task d1 → t ∈ db_task d2) → kept_tables o spec d d2.
Proof. intros. eapply kept_step; eauto. Qed.

Lemma kept_set_parent i p d1 :
  kept_tables o spec d d1 → wp (set_parent i p) (λ _, kept_tables o spec d) any_exn d1.
Proof.
  intros Hk. unfold set_parent. wpr. eapply kept_step; [exact Hk|done..|]. intros e e' _ Hin Hr. cbn.
  exists (if tr_id e' ≟ i then task_parent p e' else e'). split; [apply set_where_in; eauto|].
  case_bool_decide; [by apply kept_row_parent|done].
Qed.

Lemma kept_insert_task r d1 :
  kept_tables o spec d d1 → wp (insert_new_task r) (λ _, kept_tables o spec d) any_exn d1.
Proof.
  intros Hk. unfold insert_new_task. wps. eapply kept_same_tasks; [exact Hk|done..|]. cbn.
  intros t Ht. apply elem_of_app. by left.
Qed.

Lemma kept_insert_edge m t dep d1 :
  kept_tables o spec d d1 → wp (insert_edge wf m t dep) (λ _, kept_tables o spec d) any_exn d1.
Proof.
  intros Hk. unfold insert_edge, insert_dependency. wps; try done. by eapply kept_same_tasks; [exact Hk|..].
Qed.

Lemma kept_apply_parent m t d1 :
  kept_tables o spec d d1 → wp (apply_parent m t) (λ _, kept_tables o spec d) any_exn d1.
Proof. intros Hk. unfold apply_parent. wps; try by apply kept_set_parent. Qed.

Lemma kept_apply_approval m t d1 :
  kept_tables o spec d d1 → wp (apply_approval o wf m spec t) (λ _, kept_tables o spec d) any_exn d1.
Proof.
  intros Hk. unfold apply_approval, insert_approval. wps; try done; by eapply kept_same_tasks; [exact Hk|..].
Qed.

(** Deleting a row that is not frozen. *)
Lemma kept_delete_task t d1 :
  kept_tables o spec d d1 → t ∈ os_tasks o → delete_refusal o t = None →
  wp (delete_task (λ r, tr_id r ≟ tr_id t)) (λ _, kept_tables o spec d) any_exn d1.
Proof.
  intros Hk Ht Hd. unfold delete_task. wps. eapply kept_step; [exact Hk|done..|]. cbn.
  intros e e' [He Hf] Hin Hr. eexists. split.
  - apply set_where_in. exists e'. split; [|reflexivity]. apply filter_in. split; [done|].
    rewrite bool_decide_false; [done|]. intros Ei. rewrite (se_id _ _ (proj1 Hr)) in Ei.
    apply old_unique in Ei as ->; [|done..]. unfold delete_refusal in Hd. by rewrite Hf in Hd.
  - match goal with |- kept_row _ _ (if ?b then _ else _) => destruct b end; [by apply kept_row_parent|done].
Qed.
(** What the precheck of a task of the new spec establishes. *)
Definition checked (resolved : gmap string ResolvedTask) (t : TaskSpec) : Prop :=
  ∀ e, oldTaskByKey o !! t_key t = Some e → isFrozen o e (oldApprovalByKey o !! t_key t) = true →
    identity_changed (tr_def e) (buildCols resolved t) = false ∧ edges_changed o e t = false ∧
    approval_changed (oldApprovalByKey o !! t_key t) t = Ok false.

Lemma precheck resolved t d1 :
  wp (identity_frozen o resolved t) (λ _ d', d' = d1 ∧ checked resolved t) any_exn d1.
Proof.
  unfold identity_frozen, checked. destruct (oldTaskByKey o !! t_key t) as [e|]; [|by wps].
  destruct (negb (isFrozen _ _ _)) eqn:Ef; bprop; [wps; split; [done|]; intros ? [= <-]; congruence|].
  destruct (identity_changed _ _) eqn:Ei; [by wps|]. destruct (edges_changed _ _ _) eqn:Ee; [by wps|].
  wps; try done. split; [done|]. by intros ? [= <-].
Qed.

(** The resolution holds the bar of every frozen row. *)
Definition bars_resolved (resolved : gmap string ResolvedTask) : Prop :=
  ∀ e due, frozen_in o e → tr_dueAtUtc e = Some due → bar_held spec e → tr_key e ∈ new_keys spec →
    ∃ r, resolved !! tr_key e = Some r ∧ Date_parse (rt_dueAtUtc r) = Some due ∧
      Date_parse (rt_plannedStartUtc r) = Some (td_plannedStartUtc (tr_def e) ?? due) ∧
      Date_parse (rt_plannedEndUtc r) = Some (td_plannedEndUtc (tr_def e) ?? due).

Lemma bars_of_resolution now res fz :
  resolveSchedule now spec {| ro_targetAtUtc := None; ro_frozenDueAt := freeze_kept o spec fz |} = Ok res →
  (∀ e due f, e ∈ os_tasks o → tr_dueAtUtc e = Some due → fz !! tr_key e = Some f →
     f = frozen_tuple due (tr_def e)) →
  bars_resolved (rr_tasks res).
Proof.
  intros Hr Hfz e due [He Hf] Hd (Hv & Hp & Hc) Hk.
  destruct (resolveSchedule_frozen _ _ _ _ (tr_key e) (frozen_tuple due (tr_def e)) Hr) as (r & Hkr & Hbar); [|done|done|].
  { cbn [ro_frozenDueAt]. apply freeze_kept_lookup; eauto. }
  exists r. split; [done|]. apply frozen_tuple_resolved; [|done].
  intros z [->|Hz]; apply Hv; auto.
Qed.

(** The row of a frozen task after the update of its columns. *)
Lemma kept_row_cols resolved t e e' x lock now :
  frozen_in o e → kept_row spec e e' → t ∈ w_tasks spec → t_key t = tr_key e →
  identity_changed (tr_def e) (buildCols resolved t) = false → bars_resolved resolved →
  set_cols (buildCols resolved t) (tr_def e) = Ok x →
  kept_row spec e (task_cols x lock now e').
Proof.
  intros Hfr [[] _] Ht Hk Hi Hb Hx.
  pose proof (set_cols_keeps _ _ _ Hx) as (Hc1 & Hc2 & Hc3 & Hc4 & Hc5 & Hc6 & Hc7 & Hc8). split.
  - split; try done.
    + by unfold tr_key; cbn; rewrite Hc3.
    + intros k Hkey. change (column_text k (row_columns x.1) = column_text k (row_columns (tr_def e))).
      by rewrite (set_cols_identity _ _ _ k Hx Hkey), <- (identity_unchanged _ _ Hi k Hkey).
  - intros Hh due Hd. destruct (Hb e due Hfr Hd Hh) as (r & Hr & Hdue & Hs & He).
    { rewrite <- Hk. by apply list_elem_of_In, in_map, list_elem_of_In. }
    unfold buildCols in Hc6, Hc7, Hc8. cbn in Hc6, Hc7, Hc8. rewrite Hk, Hr in Hc6, Hc7, Hc8. cbn in Hc6, Hc7, Hc8.
    rewrite Hs in Hc6. rewrite He in Hc7. rewrite Hdue in Hc8. cbn.
    injection Hc6 as <-. injection Hc7 as <-. injection Hc8 as <-. done.
Qed.

Lemma kept_apply_task resolved m t d1 :
  kept_tables o spec d d1 → t ∈ w_tasks spec → checked resolved t → bars_resolved resolved →
  ids_kept o m (w_tasks spec) →
  wp (apply_task o wf resolved m t) (λ _, kept_tables o spec d) any_exn d1.
Proof.
  intros Hk Ht Hc Hb Hm. unfold apply_task. destruct (oldTaskByKey o !! t_key t) as [x|] eqn:Ex.
  - wpr; try done. eapply kept_step; [exact Hk|done..|]. cbn. intros e e' Hfr Hin Hr.
    eexists. split; [apply set_where_in; exists e'; split; [done|reflexivity]|].
    case_bool_decide as E; [|done]. unfold task_id in E. rewrite (Hm t x Ht Ex) in E. cbn in E.
    destruct (oldTaskByKey_old _ _ _ Ex) as [Hx Hkx]. rewrite (se_id _ _ (proj1 Hr)) in E.
    apply old_unique in E; [|apply Hfr|done]. subst x.
    destruct (Hc e Ex) as (Hi & _); [rewrite <- Hkx; apply Hfr|]. by eapply kept_row_cols.
  - wps; try done. by apply kept_insert_task.
Qed.
(** A frozen row is not removed, and its edges are those of the new spec. *)
Definition edges_kept : Prop :=
  ∀ e, frozen_in o e → tr_key e ∈ new_keys spec ∧
    ∀ t, t ∈ w_tasks spec → t_key t = tr_key e → new_edges t = old_edges o (tr_id e).

Lemma edges_of_checks resolved :
  (∀ t, t ∈ toDelete o spec → delete_refusal o t = None) →
  (∀ t, t ∈ w_tasks spec → checked resolved t) → edges_kept.
Proof.
  intros Hdel Hchk e [He Hf]. split.
  - destruct (decide (tr_key e ∈ new_keys spec)) as [|Hn]; [done|].
    assert (Hd : delete_refusal o e = None).
    { apply Hdel. apply filter_in. split; [done|]. by rewrite bool_decide_false. }
    unfold delete_refusal in Hd. by rewrite Hf in Hd.
  - intros t Ht Hk. destruct (Hchk t Ht e) as (_ & He' & _); rewrite ?Hk; [by apply oldTaskByKey_hit|done|].
    unfold edges_changed in He'. apply orb_false_iff in He' as [Hsz Hsub]. bprop.
    apply Nat.eqb_eq in Hsz. by apply set_subseteq_size_eq; [|lia].
Qed.

Lemma diff_keeps fz :
  (∀ e due f, e ∈ os_tasks o → tr_dueAtUtc e = Some due → fz !! tr_key e = Some f →
     f = frozen_tuple due (tr_def e)) →
  wp (diffApplySpecRows wf spec fz) (λ _ d', kept_tables o spec d d' ∧ edges_kept) any_exn d.
Proof.
  intros Hfz. unfold diffApplySpecRows. wp1. wp1. wp1. wp1. wp1. wp1. wp1; [|done].
  pose proof (bars_of_resolution _ _ _ Heqr Hfz) as Hbars.
  wp1. eapply wp_conseq; [apply (wp_for_each_check _ (λ t, delete_refusal o t = None))|].
  { intros t _. destruct (delete_refusal o t); by wps. }
  cbn. intros _ d' [-> Hdel].
  wp1. eapply wp_conseq; [apply (wp_for_each_check _ (checked (rr_tasks a0))); intros; apply precheck|].
  cbn. intros _ d' [-> Hchk]. pose proof (edges_of_checks _ Hdel Hchk) as Hedges.
  wp1. unfold delete_dependency. wp1. wp1. unfold delete_approval. wp1. wp1.
  match goal with |- wp _ _ _ ?d1 => assert (Hk : kept_tables o spec d d1) by
    (eapply kept_same_tasks; [apply kept_start|done..]) end.
  eapply wp_conseq; [apply (wp_for_each_inv _ (kept_tables o spec d)); [exact Hk|]|].
  { intros t d1 Ht Hd1. apply kept_delete_task; [done| |by apply Hdel]. by apply filter_in in Ht as [? _]. }
  cbn. intros _ d2 Hk2. clear Hk.
  wp1. eapply wp_conseq; [apply (kept_ids_spec spec)|]. cbn. intros m d' [-> Hm].
  wp1. eapply wp_conseq; [apply (wp_for_each_inv _ (kept_tables o spec d)); [exact Hk2|]|].
  { intros t d1 Ht Hd1. apply kept_apply_task; auto. }
  cbn. intros _ d3 Hk3.
  wp1. eapply wp_conseq; [apply (wp_for_each_inv _ (kept_tables o spec d)); [exact Hk3|]|].
  { intros t d1 _ Hd1. by apply kept_apply_parent. }
  cbn. intros _ d4 Hk4.
  eapply wp_conseq; [apply (wp_for_each_inv _ (kept_tables o spec d)); [exact Hk4|]|by auto].
  intros t d1 _ Hd1. wp1.
  eapply wp_conseq; [apply (wp_for_each_inv _ (kept_tables o spec d)); [exact Hd1|]|].
  { intros dep d5 _ Hd5. by apply kept_insert_edge. }
  cbn. intros _ d5 Hd5. by apply kept_apply_approval.
Qed.
End diff.

(** ** The transaction *)

Lemma pinned_bars_lookup input rows e due f :
  (∀ t u, t ∈ rows → u ∈ rows → tr_key t = tr_key u → t = u) →
  e ∈ rows → tr_dueAtUtc e = Some due → pinned_bars input rows !! tr_key e = Some f →
  f = frozen_tuple due (tr_def e).
Proof.
  intros Hu He Hd.
  assert (Hold : ∀ k g, oldByKey rows !! k = Some g →
            ∃ r z, r ∈ rows ∧ tr_key r = k ∧ tr_dueAtUtc r = Some z ∧ g = frozen_tuple z (tr_def r)).
  { unfold oldByKey. clear. induction rows as [|r l IH] using rev_ind; intros k g; [cbn; by rewrite lookup_empty|].
    rewrite foldl_snoc. intros Hg.
    assert (Hl : ∀ k g, oldByKey l !! k = Some g → ∃ r0 z, r0 ∈ l ++ [r] ∧ tr_key r0 = k ∧
                   tr_dueAtUtc r0 = Some z ∧ g = frozen_tuple z (tr_def r0)).
    { intros k' g' (r0 & z & Hr0 & Hrest)%IH. exists r0, z. split; [apply elem_of_app; by left|done]. }
    destruct (tr_dueAtUtc r) as [z|] eqn:Ez; [|by apply Hl].
    destruct (decide (tr_key r = k)) as [<-|Hn].
    - rewrite lookup_insert_eq in Hg. injection Hg as <-. exists r, z. split; [apply elem_of_app; right; left|done].
    - rewrite lookup_insert_ne in Hg by done. by apply Hl. }
  assert (Hin : ∀ k g, pinned_bars input rows !! k = Some g → oldByKey rows !! k = Some g).
  { unfold pinned_bars. induction (w_tasks (ui_spec input)) as [|t l IH] using rev_ind; intros k g.
    { cbn. by rewrite lookup_empty. }
    rewrite foldl_snoc. destruct (_ || _); [apply IH|]. destruct (oldByKey rows !! t_key t) as [b|] eqn:Eb; [|apply IH].
    destruct (decide (t_key t = k)) as [<-|Hn]; [by rewrite lookup_insert_eq, Eb|].
    rewrite lookup_insert_ne by done. apply IH. }
  intros (r & z & Hr & Hk & Hz & ->)%Hin%Hold. apply Hu in Hk as ->; [|done|done]. congruence.
Qed.

(** The statements of a rebuild leave the workflow table alone. *)
Definition workflow_kept (d d' : DB) : Prop := db_workflow d' = db_workflow d.

Lemma workflow_kept_insert_rows wf spec fz d0 d :
  workflow_kept d0 d → wp (insertSpecRows wf spec fz) (λ _, workflow_kept d0) any_exn d.
Proof.
  intros Hk. eapply wp_conseq; [apply (wp_insertSpecRows _ _ (λ _, workflow_kept d0)); [..|exact Hk]|by intros _ d' []];
    intros; unfold insert_new_task, set_parent, insert_dependency, insert_approval; wpr; done.
Qed.

Lemma workflow_kept_diff wf spec fz d0 d :
  workflow_kept d0 d → wp (diffApplySpecRows wf spec fz) (λ _, workflow_kept d0) any_exn d.
Proof.
  intros Hk. eapply wp_conseq; [apply (wp_diffApplySpecRows _ _ (λ _, workflow_kept d0)); [..|exact Hk]|by intros _ d' []];
    intros; unfold insert_new_task, set_parent, insert_dependency, insert_approval, delete_task; wpr; done.
Qed.

(** The row an edit may win on. *)
Definition editable_at (input : UpdateInput) (w : WorkflowRow) : bool :=
  workflow_cas (ui_workflowId input) (ui_expectedLockVersion input) w && editable (wr_status w).

(** The workflow table after a won edit. *)
Definition edit_won (input : UpdateInput) (d d' : DB) : Prop :=
  List.filter (editable_at input) (db_workflow d) ≠ [] ∧
  ∃ target now, db_workflow d' =
    set_where (editable_at input) (respecified input target (ui_expectedLockVersion input + 1) now) (db_workflow d).

Lemma update_spec_workflow input d :
  wp (update_spec input) (λ won d', if (won : bool) then edit_won input d d' else d' = d) any_exn d.
Proof.
  unfold update_spec, select_workflow. wp1. wp1. destruct (first_where _ _) as [w|]; [|by wps].
  wp1. wp1. wp1. wp1. wp1; [|done]. wp1. apply wp_raw_workflow. fold (editable_at input).
  destruct (_ =? _)%nat eqn:El; [wps|].
  { apply length_map_0 in El. rewrite set_where_none by done. by destruct d. }
  wp1. wp1. wp1.
  assert (Hw : ∀ d1, workflow_kept (with_workflow d (set_where (editable_at input)
              (respecified input a0 (ui_expectedLockVersion input + 1) a) (db_workflow d))) d1 → edit_won input d d1).
  { intros d1 Hd1. split; [|exists a0, a; exact Hd1]. intros E. rewrite E in El. done. }
  destruct (_ ≟ _).
  - eapply wp_conseq; [by apply workflow_kept_diff|]. cbn. intros _ d1 Hd1. wps. auto.
  - unfold delete_approval, delete_task. wp1. wp1. wp1. wp1; [|done].
    eapply wp_conseq; [by apply workflow_kept_insert_rows|]. cbn. intros _ d1 Hd1. wps. auto.
Qed.

Lemma update_run others input s s1 :
  others s = (s1, Ok ()) →
  updateWorkflowDraftSpec others input s =
  match first_where (λ w, wr_id w ≟ ui_workflowId input) (db_workflow (st_db s)) with
  | None => (s, Ok (update_refused "not_found"))
  | Some wf =>
      if negb (editable (wr_status wf)) then (s, Ok (update_refused "not_draft"))
      else if negb (wr_lockVersion wf =? ui_expectedLockVersion input) then (s, Ok (update_refused "stale"))
      else match transaction (update_spec input) s1 with
           | (s', Ok true) => (s', Ok {| ur_ok := true; ur_reason := None;
                                         ur_lockVersion := Some (ui_expectedLockVersion input + 1) |})
           | (s', Ok false) => (s', Ok (update_refused "stale"))
           | (s', Err (ex_spec_apply reason)) => (s', Ok (update_refused reason))
           | (s', Err e) => (s', Err e)
           end
  end.
Proof.
  intros Ho. unfold updateWorkflowDraftSpec, select_workflow, mbind, M_bind, gets, catch, mret, M_ret. cbn.
  destruct (first_where _ _) as [w|]; [|by destruct s].
  destruct (negb (editable _)); [by destruct s|]. destruct (negb (_ =? _)); [by destruct s|].
  replace {| st_db := st_db s; st_draws := st_draws s |} with s by by destruct s. rewrite Ho.
  destruct (transaction _ s1) as [s' [[]|[]]]; done.
Qed.

Lemma transaction_update input s1 :
  match transaction (update_spec input) s1 with
  | (s', Ok true) => edit_won input (st_db s1) (st_db s')
  | (s', _) => st_db s' = st_db s1
  end.
Proof.
  pose proof (wp_run _ _ _ _ (update_spec_workflow input (st_db s1))) as Hw.
  unfold transaction. by destruct (update_spec input s1) as [s' [[]|e]].
Qed.

Lemma first_where_set_workflow (f : WorkflowRow → WorkflowRow) p l i :
  (∀ w, wr_id (f w) = wr_id w) →
  first_where (λ w, wr_id w ≟ i) (set_where p f l) =
  (λ w, if p w then f w else w) <$> first_where (λ w, wr_id w ≟ i) l.
Proof.
  intros Hf. unfold first_where, set_where. induction l as [|a l IH]; [done|]. cbn.
  destruct (p a) eqn:E; rewrite ?Hf; case_bool_decide; cbn; rewrite ?E; done.
Qed.

Lemma first_where_editable input l :
  NoDup (map wr_id l) → List.filter (editable_at input) l ≠ [] →
  ∃ w, first_where (λ w, wr_id w ≟ ui_workflowId input) l = Some w ∧ editable_at input w = true.
Proof.
  intros Hn He. destruct (List.filter (editable_at input) l) as [|w k] eqn:E; [done|]. clear He.
  assert (Hw : w ∈ List.filter (editable_at input) l) by (rewrite E; left).
  apply filter_in in Hw as [Hin Hed]. exists w. split; [|done].
  assert (Hid : wr_id w = ui_workflowId input) by (unfold editable_at, workflow_cas in Hed; by bprop).
  destruct (first_where _ l) as [w'|] eqn:Ew.
  - apply find_some in Ew as [Hin' Hid']. apply bool_decide_eq_true in Hid'. f_equal.
    apply (row_unique wr_id l); [done|by apply list_elem_of_In|done|congruence].
  - exfalso. apply list_elem_of_In in Hin. pose proof (find_none _ _ Ew _ Hin) as Hno. by apply bool_decide_eq_false in Hno.
Qed.

(** C22: Whatever other sessions commit between the reads of an edit and its
    transaction, the edit is all or nothing: if it is refused or throws, no
    table differs from what those sessions left (or from the start, when it is
    refused before them).  If it succeeds, the workflow was a draft or paused and
    still had the lock version the caller saw; its status stays, its lock and
    spec version grow by one, no other workflow row changes, and any later edit
    from the same lock version is refused and writes nothing. *)
Theorem edit_all_or_nothing others input s s1 :
  others s = (s1, Ok ()) → NoDup (map wr_id (db_workflow (st_db s1))) →
  let '(s', r) := updateWorkflowDraftSpec others input s in
  match r with
  | Err e => st_db s' = st_db s1
  | Ok res =>
      if ur_ok res then
        ur_lockVersion res = Some (ui_expectedLockVersion input + 1) ∧
        (∃ w w', first_where (λ w, wr_id w ≟ ui_workflowId input) (db_workflow (st_db s1)) = Some w ∧
           first_where (λ w, wr_id w ≟ ui_workflowId input) (db_workflow (st_db s')) = Some w' ∧
           editable (wr_status w) = true ∧ wr_lockVersion w = ui_expectedLockVersion input ∧
           wr_status w' = wr_status w ∧ wr_lockVersion w' = wr_lockVersion w + 1 ∧
           wd_specVersion (wr_def w') = wd_specVersion (wr_def w) + 1) ∧
        (∀ i, i ≠ ui_workflowId input →
           first_where (λ w, wr_id w ≟ i) (db_workflow (st_db s')) =
           first_where (λ w, wr_id w ≟ i) (db_workflow (st_db s1))) ∧
        (∀ others' later, ui_workflowId later = ui_workflowId input →
           ui_expectedLockVersion later = ui_expectedLockVersion input →
           updateWorkflowDraftSpec others' later s' = (s', Ok (update_refused "stale")))
      else st_db s' = st_db s ∨ st_db s' = st_db s1
  end.
Proof.
  intros Ho Hn. rewrite (update_run _ _ _ _ Ho). destruct (first_where _ (db_workflow (st_db s))) as [w0|]; [|by left].
  destruct (negb (editable _)); [by left|]. destruct (negb (_ =? _)); [by left|].
  pose proof (transaction_update input s1) as Ht. destruct (transaction _ s1) as [s' [[]|e]]; [|by right|destruct e; cbn; auto].
  cbn. destruct Ht as (He & target & now & Hw).
  destruct (first_where_editable input _ Hn He) as (w & Ew & Hed).
  assert (Hf : ∀ i, first_where (λ w, wr_id w ≟ i) (db_workflow (st_db s')) =
      (λ w, if editable_at input w then respecified input target (ui_expectedLockVersion input + 1) now w else w)
        <$> first_where (λ w, wr_id w ≟ i) (db_workflow (st_db s1))).
  { intros i. by rewrite Hw, first_where_set_workflow. }
  assert (Hold : editable (wr_status w) = true ∧ wr_lockVersion w = ui_expectedLockVersion input).
  { unfold editable_at, workflow_cas in Hed. by bprop. }
  destruct Hold as [Hst Hlk]. split_and!; [done| | |].
  - exists w, (respecified input target (ui_expectedLockVersion input + 1) now w).
    rewrite Hf, Ew. cbn. rewrite Hed. split_and!; try done. cbn. lia.
  - intros i Hi. rewrite Hf. destruct (first_where (λ w, wr_id w ≟ i) _) as [x|] eqn:Ex; [|done]. cbn.
    apply find_some in Ex as [_ Ex]. apply bool_decide_eq_true in Ex.
    destruct (editable_at input x) eqn:E; [|done]. unfold editable_at, workflow_cas in E. bprop. congruence.
  - intros others' later Hi Hl. unfold updateWorkflowDraftSpec, select_workflow, mbind, M_bind, gets, mret, M_ret.
    cbn. rewrite Hi, Hf, Ew. cbn. rewrite Hed. cbn. rewrite Hst, Hl. cbn.
    rewrite (proj2 (Z.eqb_neq _ _)) by lia. cbn. by destruct s'.
Qed.

(** A task that has run or is in use: it has an attempt or an artifact, it is
    past idle and scheduled, or its approval was solicited, decided or
    invalidated. *)
Definition in_use (wf : string) (d : DB) (e : TaskRow) : Prop :=
  e ∈ db_task d ∧ tr_workflowId e = wf ∧
  ((∃ a, a ∈ db_attempt d ∧ at_workflowId a = wf ∧ at_taskId a = tr_id e) ∨
   (∃ a, a ∈ db_artifact d ∧ ar_workflowId a = wf ∧ ar_taskId a = tr_id e) ∨
   (tr_status e ≠ ts_idle ∧ tr_status e ≠ ts_scheduled) ∨
   (∃ a, a ∈ db_approval d ∧ ap_workflowId a = wf ∧ ap_taskId a = tr_id e ∧
      (ap_status a ≠ aps_pending ∨ is_Some (ap_decidedAt a) ∨ is_Some (ap_invalidatedAt a) ∨ solicited a = true) ∧
      ∀ b, b ∈ db_approval d → ap_taskId b = tr_id e → b = a)).

Lemma filtered_id {R} (id : R → string) p (l : list R) x i :
  x ∈ l → p x = true → id x = i → bool_decide (i ∈ map id (List.filter p l)) = true.
Proof.
  intros Hx Hp <-. apply bool_decide_true, list_elem_of_fmap_2, list_elem_of_In, List.filter_In.
  split; [by apply list_elem_of_In|done].
Qed.

(** The approval of a task, when it is the only one. *)
Lemma oldApprovalByKey_only o e a :
  e ∈ os_tasks o → (∀ t, t ∈ os_tasks o → tr_id t = tr_id e → t = e) →
  (∀ t, t ∈ os_tasks o → tr_key t = tr_key e → t = e) →
  a ∈ os_approvals o → ap_taskId a = tr_id e →
  (∀ b, b ∈ os_approvals o → ap_taskId b = tr_id e → b = a) →
  oldApprovalByKey o !! tr_key e = Some a.
Proof.
  intros He Hids Hkey Ha Hat Hone. unfold oldApprovalByKey.
  assert (Hlook : ∀ i t, oldTaskById o !! i = Some t → t ∈ os_tasks o ∧ tr_id t = i).
  { intros i t (x & Hx & [= <- <-])%map_of_lookup. done. }
  assert (Hself : oldTaskById o !! tr_id e = Some e).
  { destruct (map_of_is_Some (λ t, (tr_id t, t)) (os_tasks o) e He) as [t Ht]. cbn in Ht.
    change (oldTaskById o !! tr_id e = Some t) in Ht. destruct (Hlook _ _ Ht) as [Hin Hid].
    by rewrite Ht, (Hids t Hin Hid). }
  assert (Hgo : ∀ l (m : gmap string ApprovalRow), (∀ b, b ∈ l → b ∈ os_approvals o) →
    a ∈ l ∨ m !! tr_key e = Some a →
    foldl (λ m a, match oldTaskById o !! ap_taskId a with Some t => <[tr_key t := a]> m | None => m end) m l
      !! tr_key e = Some a).
  { induction l as [|b l IH]; intros m Hl Hm; cbn; [by destruct Hm as [?%elem_of_nil|]|].
    apply IH; [intros c Hc; apply Hl; by right|]. destruct (decide (ap_taskId b = tr_id e)) as [Eb|Hb].
    - right. rewrite (Hone b) by (done || apply Hl; left). by rewrite Hat, Hself, lookup_insert_eq.
    - destruct Hm as [Hin|Hm]; [left; by apply elem_of_cons in Hin as [->|]|]. right.
      destruct (oldTaskById o !! ap_taskId b) as [t|] eqn:Et; [|done]. destruct (Hlook _ _ Et) as [Ht Hid].
      rewrite lookup_insert_ne; [done|]. intros Ek. apply Hb. by rewrite <- Hid, (Hkey t Ht Ek). }
  apply Hgo; [done|by left].
Qed.

Lemma in_use_frozen wf d e :
  NoDup (map tr_id (db_task d)) →
  (∀ t u, t ∈ db_task d → u ∈ db_task d → tr_workflowId t = tr_workflowId u → tr_key t = tr_key u → t = u) →
  in_use wf d e → frozen_in (old_state wf d) e.
Proof.
  intros Hids Hkeys (He & Hw & Hu).
  assert (Hos : e ∈ os_tasks (old_state wf d)).
  { apply list_elem_of_In, List.filter_In. split; [by apply list_elem_of_In|by apply bool_decide_true]. }
  split; [done|]. unfold isFrozen, hasEvidence. destruct Hu as [(a & Ha & Haw & Hat)|[(a & Ha & Haw & Hat)|[[Hi Hs]|
    (a & Ha & Haw & Hat & Hev & Hone)]]].
  - cbn [os_attempted old_state]. by rewrite (filtered_id at_taskId _ _ a) by (done || by apply bool_decide_true).
  - cbn [os_artifacts old_state]. rewrite (filtered_id ar_taskId _ _ a) by (done || by apply bool_decide_true).
    by rewrite orb_true_r.
  - rewrite (bool_decide_false (tr_status e = ts_idle)), (bool_decide_false (tr_status e = ts_scheduled)) by done.
    cbn [negb andb]. by rewrite orb_true_r.
  - rewrite (oldApprovalByKey_only _ e a); try done.
    + unfold approvalIsEvidence. apply orb_true_iff. right. rewrite !orb_true_iff, negb_true_iff, bool_decide_eq_false.
      destruct Hev as [?|[[? ->]|[[? ->]|?]]]; auto.
    + intros t [Ht Htw]%old_row Hk. by apply (row_unique tr_id (db_task d)).
    + intros t [Ht Htw]%old_row Hk. apply Hkeys; congruence.
    + apply list_elem_of_In, List.filter_In. split; [by apply list_elem_of_In|by apply bool_decide_true].
    + intros b [Hb _]%list_elem_of_In%List.filter_In. apply Hone. by apply list_elem_of_In.
Qed.

Record evidence_kept (input : UpdateInput) (d d' : DB) : Prop := {
  ek_attempt : db_attempt d' = db_attempt d;
  ek_artifact : db_artifact d' = db_artifact d;
  ek_event : db_event d' = db_event d;
  ek_rows : ∀ e, in_use (ui_workflowId input) d e →
    (∃ e', e' ∈ db_task d' ∧ kept_row (ui_spec input) e e') ∧
    (∃ t, t ∈ w_tasks (ui_spec input) ∧ t_key t = tr_key e) ∧
    (∀ t, t ∈ w_tasks (ui_spec input) → t_key t = tr_key e →
       new_edges t = old_edges (old_state (ui_workflowId input) d) (tr_id e))
}.

Lemma update_spec_paused input w d :
  first_where (λ w, wr_id w ≟ ui_workflowId input) (db_workflow d) = Some w → wr_status w = ws_paused →
  NoDup (map tr_id (db_task d)) →
  (∀ t u, t ∈ db_task d → u ∈ db_task d → tr_workflowId t = tr_workflowId u → tr_key t = tr_key u → t = u) →
  wp (update_spec input) (λ won d', won = true → evidence_kept input d d') any_exn d.
Proof.
  intros Hw Hp Hids Hkeys. unfold update_spec, select_workflow. wp1. wp1. rewrite Hw. wp1. wp1. wp1. wp1. wp1; [|done].
  wp1. apply wp_raw_workflow. destruct (_ =? _)%nat; [by wps|]. wp1. wp1. wp1. rewrite Hp, bool_decide_true by done.
  set (d1 := with_workflow d _). change (db_task d1) with (db_task d).
  assert (Hku : ∀ t u, t ∈ os_tasks (old_state (ui_workflowId input) d) →
     u ∈ os_tasks (old_state (ui_workflowId input) d) → tr_key t = tr_key u → t = u).
  { intros t u [Ht ?]%old_row [Hu ?]%old_row. apply Hkeys; congruence. }
  eapply wp_conseq; [apply (diff_keeps _ _ d1); [exact Hids|exact Hku|]|].
  - intros e due f He Hd Hf. by eapply pinned_bars_lookup; [exact Hku|..].
  - cbn. intros _ d' [[] Hedges]. wps. intros _. split; [done..|]. intros e Hfr%in_use_frozen; [|done..].
    destruct (Hedges e Hfr) as [Hk He]. split_and!; [by apply kt_rows0| |done].
    unfold new_keys in Hk. apply list_elem_of_fmap in Hk as (t & Ht & Hin). by exists t.
Qed.

End apply.

(** ** A paused release on which the theorems are instantiated

    The first task is done, the second still idle.  The edit drops the second,
    adds a third after the first and moves the target date. *)

(** No other session commits in between. *)
Definition alone : M unit := mret ().

Definition paused_db : DB :=
  sample_db ws_paused [task_due 1772355600000 (plain_task "t1" "manual" ts_succeeded); plain_task "t2" "manual" ts_idle]
    [sample_dep "t2" "t1" do_success] [sample_attempt "a1" "t1" 1 as_succeeded None].

Definition manual_spec (key : string) (deps : list TaskDependency) : TaskSpec := {|
  t_key := key; t_title := key; t_required := None; t_pinned := None; t_risk := None; t_parent := None;
  t_schedule := None; t_dependsOn := Some deps; t_assignee := None; t_failurePolicy := Some fp_block;
  t_missedWindowPolicy := None; t_retryPolicy := None; t_maxAttempts := None; t_cancelPolicy := None;
  t_body := ManualTask None; t_foreach := None |}.

Definition moved_release : UpdateInput := {|
  ui_workflowId := "w1";
  ui_spec := {| w_key := None; w_name := "release"; w_product := None;
    w_target := Some {| tg_at := Some "2026-05-01T09:00:00Z"; tg_tz := "UTC" |}; w_placeholders := None;
    w_tasks := [manual_spec "t1" []; manual_spec "t3" [{| dep_taskKey := "t1"; dep_outcome := None |}]];
    w_metadata := None |};
  ui_name := None; ui_product := None; ui_expectedLockVersion := 3; ui_excludeFromFreeze := [] |}.

Definition edited : St * result exn UpdateDraftResult :=
  updateWorkflowDraftSpec alone moved_release (sample_st paused_db).

Lemma edited_ok : edited = (edited.1, Ok {| ur_ok := true; ur_reason := None; ur_lockVersion := Some 4 |}).
Proof. vm_compute. reflexivity. Qed.

Example edited_rows :
  map (λ t, (tr_key t, tr_status t, tr_dueAtUtc t)) (db_task (st_db edited.1))
  = [("t1", ts_succeeded, Some 1772355600000); ("t3", ts_idle, Some 1777626000000)].
Proof. vm_compute. reflexivity. Qed.

Lemma edit_all_or_nothing_witness :
  NoDup (map wr_id (db_workflow paused_db)) ∧
  updateWorkflowDraftSpec alone moved_release edited.1 = (edited.1, Ok (update_refused "stale")).
Proof.
  assert (Hn : NoDup (map wr_id (db_workflow paused_db))) by (apply (bool_decide_unpack _); vm_compute; exact I).
  split; [exact Hn|].
  pose proof (edit_all_or_nothing alone moved_release (sample_st paused_db) (sample_st paused_db)
    eq_refl Hn) as T.
  change (updateWorkflowDraftSpec alone moved_release (sample_st paused_db)) with edited in T.
  rewrite edited_ok in T. cbv beta iota in T. cbn [ur_ok] in T. destruct T as (_ & _ & _ & T).
  apply T; reflexivity.
Defined.

