(* ===== verification/Roundtrip.v ===== *)
(** * Storing a spec and reading it back

    [createWorkflowFromSpec] followed by [reconstructSpec]: the rows are written
    with fresh ids in two passes, edges and parents as ids, instants as
    timestamps, objects as [jsonb]; reading turns them back into a spec.

    [total m Q s]: from state [s] the program returns, in a state satisfying
    [Q]. *)

From S2P Require Import Prelude Json Time Spec Transitions Gates Store Hoare Evolution Ops Reconciler.
From S2P Require Import Validate Resolver Drafts Canonical Persisted Sample Engine.
Open Scope Z_scope.

(** ** Runs that return *)

Definition total {A} (m : M A) (Q : A → St → Prop) (s : St) : Prop :=
  match m s with (s', Ok a) => Q a s' | (_, Err _) => False end.

Section total.
Implicit Types s : St.

Lemma total_ret {A} (a : A) Q s : Q a s → total (mret a) Q s.
Proof. done. Qed.

Lemma total_bind {A B} (m : M A) (f : A → M B) Q s :
  total m (λ a s', total (f a) Q s') s → total (m ≫= f) Q s.
Proof. unfold total, mbind, M_bind. by destruct (m s) as [s' [a|e]]. Qed.

Lemma total_conseq {A} (m : M A) (Q Q' : A → St → Prop) s :
  total m Q s → (∀ a s', Q a s' → Q' a s') → total m Q' s.
Proof. unfold total. destruct (m s) as [s' [a|e]]; auto. Qed.

Lemma total_gets {A} (f : DB → A) (Q : A → St → Prop) s : Q (f (st_db s)) s → total (gets f) Q s.
Proof. done. Qed.

Lemma total_draw {A} (f : nat → A) (Q : A → St → Prop) s :
  Q (f (st_draws s)) {| st_db := st_db s; st_draws := S (st_draws s) |} → total (draw f) Q s.
Proof. done. Qed.

Lemma total_lift {E A} (inj : E → exn) (r : result E A) a (Q : A → St → Prop) s :
  r = Ok a → Q a s → total (lift inj r) Q s.
Proof. by intros ->. Qed.

Lemma total_guarded ok name f (Q : unit → St → Prop) s :
  ok (st_db s) = true → Q () {| st_db := f (st_db s); st_draws := st_draws s |} → total (guarded ok name f) Q s.
Proof. intros Hok HQ. unfold total, guarded, mbind, M_bind, gets. cbn. by rewrite Hok. Qed.

Lemma total_transaction {A} (m : M A) Q s : total m Q s → total (transaction m) Q s.
Proof. unfold total, transaction. by destruct (m s) as [s' [a|e]]. Qed.

(** Loops, by an invariant on the items done. *)
Lemma total_foldM {A B} (f : B → A → M B) (I : list A → B → St → Prop) l b s :
  I [] b s →
  (∀ pre x post b s, l = pre ++ x :: post → I pre b s → total (f b x) (λ b' s', I (pre ++ [x]) b' s') s) →
  total (foldM f b l) (λ b' s', I l b' s') s.
Proof.
  intros H Hstep.
  assert (Hgo : ∀ post pre b s, l = pre ++ post → I pre b s → total (foldM f b post) (λ b' s', I l b' s') s).
  { induction post as [|x post IH]; intros pre b0 s0 El Hi.
    - rewrite app_nil_r in El. subst. by apply total_ret.
    - cbn. apply total_bind. eapply total_conseq; [by apply (Hstep pre x post)|]. cbn. intros b' s' Hi'.
      apply (IH (pre ++ [x])); [by rewrite <- app_assoc|done]. }
  by apply (Hgo l []).
Qed.

Lemma total_for_each {A} (f : A → M unit) (I : list A → St → Prop) l s :
  I [] s →
  (∀ pre x post s, l = pre ++ x :: post → I pre s → total (f x) (λ _ s', I (pre ++ [x]) s') s) →
  total (for_each l f) (λ _ s', I l s') s.
Proof. intros H Hstep. apply (total_foldM _ (λ l _, I l)); [done|]. intros pre x post _ s'. apply Hstep. Qed.
End total.

(** ** Fresh ids *)

Section ids.
Context `{Runtime}.

(** [randomUUID] never repeats. *)
Class UuidLaw := { uuid_inj :: Inj (=) (=) rt_uuid }.

Definition uid (p : string) (n : nat) : string := p +:+ "_" +:+ rt_uuid n.

Lemma uid_inj `{!UuidLaw} p : Inj (=) (=) (uid p).
Proof. intros i j Hij. unfold uid in Hij. apply str_app_inj_l, str_app_inj_l in Hij. by apply (inj rt_uuid). Qed.

(** Ids drawn from the [n]-th draw on are not among [ids]. *)
Definition fresh_in (p : string) (ids : list string) (n : nat) : Prop := ∀ k, (n <= k)%nat → uid p k ∉ ids.

Lemma fresh_in_le p ids n n' : fresh_in p ids n → (n <= n')%nat → fresh_in p ids n'.
Proof. intros Hf Hn k Hk. apply Hf. lia. Qed.

Lemma fresh_in_app `{!UuidLaw} p ids n n' : fresh_in p ids n → (n < n')%nat → fresh_in p (ids ++ [uid p n]) n'.
Proof.
  intros Hf Hn k Hk. rewrite elem_of_app, list_elem_of_singleton. intros [Hi|E]; [by apply (Hf k); [lia|]|].
  apply (uid_inj p) in E. lia.
Qed.

Record fresh_ids (s : St) : Prop := {
  fr_workflow : fresh_in "wf" (map wr_id (db_workflow (st_db s))) (st_draws s);
  fr_task : fresh_in "wtask" (map tr_id (db_task (st_db s))) (st_draws s);
  fr_dependency : fresh_in "wdep" (map dp_id (db_dependency (st_db s))) (st_draws s);
  fr_approval : fresh_in "wapr" (map ap_id (db_approval (st_db s))) (st_draws s)
}.

(** The foreign keys the rows of a workflow hang on. *)
Record fk_ok (d : DB) : Prop := {
  fk_task : ∀ t, t ∈ db_task d → tr_workflowId t ∈ map wr_id (db_workflow d);
  fk_dependency : ∀ e, e ∈ db_dependency d →
    dp_workflowId e ∈ map wr_id (db_workflow d) ∧ dp_taskId e ∈ map tr_id (db_task d);
  fk_approval : ∀ a, a ∈ db_approval d → ap_workflowId a ∈ map wr_id (db_workflow d)
}.

(** Distinct keys have distinct ids, drawn between two points of the stream. *)
Definition ids_drawn (lo hi : nat) (tasks : list TaskSpec) (m : gmap string string) : Prop :=
  (∀ t, t ∈ tasks → is_Some (m !! t_key t)) ∧
  (∀ k i, m !! k = Some i → k ∈ map t_key tasks ∧ ∃ n, (lo <= n < hi)%nat ∧ i = uid "wtask" n) ∧
  (∀ k k' i, m !! k = Some i → m !! k' = Some i → k = k').

Lemma total_fresh_id p (Q : string → St → Prop) s :
  Q (uid p (st_draws s)) {| st_db := st_db s; st_draws := S (st_draws s) |} → total (fresh_id p) Q s.
Proof. done. Qed.

Lemma total_new_ids `{!UuidLaw} tasks s :
  total (new_ids tasks) (λ m s', st_db s' = st_db s ∧ (st_draws s <= st_draws s')%nat ∧
    ids_drawn (st_draws s) (st_draws s') tasks m) s.
Proof.
  unfold new_ids. apply (total_foldM _ (λ done m s', st_db s' = st_db s ∧ (st_draws s <= st_draws s')%nat ∧
    ids_drawn (st_draws s) (st_draws s') done m)).
  - split_and!; [done|lia|]. split_and!; [by intros t ?%elem_of_nil|..]; intros k *; by rewrite lookup_empty.
  - intros pre t post m s' _ (Hdb & Hlo & Hall & Hdrawn & Hinj). apply total_bind, total_fresh_id, total_ret.
    cbn [st_db st_draws]. split_and!; [done|lia|]. split_and!.
    + intros u Hu. destruct (decide (t_key t = t_key u)) as [E|Hn]; [by rewrite E, lookup_insert_eq|].
      rewrite lookup_insert_ne by done. apply Hall. apply elem_of_app in Hu as [?| ->%list_elem_of_singleton]; done.
    + intros k i. rewrite map_app, elem_of_app. destruct (decide (t_key t = k)) as [<-|Hn].
      * rewrite lookup_insert_eq. intros [= <-]. split; [right; left|]. exists (st_draws s'). split; [lia|done].
      * rewrite lookup_insert_ne by done. intros (Hk & n & Hn' & ->)%Hdrawn. split; [by left|]. exists n. split; [lia|done].
    + assert (Hnew : ∀ k, m !! k ≠ Some (uid "wtask" (st_draws s'))).
      { intros k (_ & n & Hn & E)%Hdrawn. apply (uid_inj "wtask") in E. lia. }
      intros k k' i. destruct (decide (t_key t = k)) as [<-|Hn], (decide (t_key t = k')) as [<-|Hn'];
        rewrite ?lookup_insert_eq, ?lookup_insert_ne by done; [done| | |apply Hinj].
      * intros [= <-] E. by destruct (Hnew k').
      * intros E [= <-]. by destruct (Hnew k).
Qed.
End ids.

(** ** The rows of a spec *)

Lemma set_where_app {R} (p : R → bool) f l k : set_where p f (l ++ k) = set_where p f l ++ set_where p f k.
Proof. apply map_app. Qed.

Lemma set_where_cons {R} (p : R → bool) f x l :
  set_where p f (x :: l) = (if p x then f x else x) :: set_where p f l.
Proof. done. Qed.

Lemma existsb_false_in {A} (f : A → bool) l : (∀ x, x ∈ l → f x = false) → existsb f l = false.
Proof.
  intros Hf. destruct (existsb f l) eqn:E; [|done]. apply existsb_exists in E as (x & Hx%list_elem_of_In & E).
  by rewrite Hf in E.
Qed.

Lemma existsb_true_in {A} (f : A → bool) l x : x ∈ l → f x = true → existsb f l = true.
Proof. intros Hx%list_elem_of_In Hf. apply existsb_exists. by exists x. Qed.

Lemma elem_concat {A} (x : A) ls : x ∈ concat ls → ∃ l, l ∈ ls ∧ x ∈ l.
Proof. intros (l & Hl%list_elem_of_In & Hx%list_elem_of_In)%list_elem_of_In%in_concat. by exists l. Qed.

Section rows.
Context `{Runtime} `{DateEnv}.

(** A resolved schedule gives every task a row. *)
Lemma resolved_rows now spec opts res : resolveSchedule now spec opts = Ok res →
  ∀ id wf t now', ∃ r, new_task_row id wf (buildCols (rr_tasks res) t) now' = Ok r.
Proof.
  intros Hr%resolveSchedule_Ok%resolved_tasks_Ok id wf t now'. destruct Hr as [_ Hv].
  assert (Hcol : ∀ (g : Bar → Instant) (f : ResolvedTask → string),
    (∀ b r, resolved_task b = Ok r → date_iso (g b) = Ok (f r)) →
    ∃ z, sql_timestamp ((λ x, Date_parse (f x)) <$> rr_tasks res !! t_key t) = Ok z).
  { intros g f Hf. destruct (rr_tasks res !! t_key t) as [r|] eqn:E; [|by eexists].
    destruct (proj1 (date_iso_Ok _ _) (Hf _ r (Hv _ _ E))) as (z & _ & Hz & Ez).
    cbn. rewrite Ez, Date_parse_toISO by done. by eexists. }
  destruct (Hcol startMs rt_plannedStartUtc) as [s Hs]; [by intros b r (? & ? & ?)%resolved_task_Ok|].
  destruct (Hcol endMs rt_plannedEndUtc) as [e He]; [by intros b r (? & ? & ?)%resolved_task_Ok|].
  destruct (Hcol dueMs rt_dueAtUtc) as [due Hd]; [by intros b r (? & ? & ?)%resolved_task_Ok|].
  unfold new_task_row, set_cols, buildCols. cbn [tc_plannedStartUtc tc_plannedEndUtc tc_dueAtUtc].
  rewrite Hs. cbn. rewrite He. cbn. rewrite Hd. by eexists.
Qed.

Context (W : string) (tasks : list TaskSpec) (resolved : gmap string ResolvedTask) (m : gmap string string).

Definition tid (t : TaskSpec) : string := task_id m (t_key t).

(** The row a task is inserted with, and the row with its parent. *)
Definition row_of (t : TaskSpec) (r : TaskRow) : Prop :=
  ∃ now, new_task_row (tid t) W (buildCols resolved t) now = Ok r.

Definition linked (t : TaskSpec) (r : TaskRow) : Prop :=
  ∃ r0, row_of t r0 ∧ r = task_parent (t_parent t ≫= λ p, m !! p) r0.

Definition edge_of (t : TaskSpec) (dep : TaskDependency) (e : DependencyRow) : Prop :=
  dp_workflowId e = W ∧ dp_taskId e = tid t ∧ m !! dep_taskKey dep = Some (dp_dependsOnTaskId e) ∧
  dp_outcome e = dep_outcome dep ?? do_success.

Definition approvals_of (t : TaskSpec) (l : list ApprovalRow) : Prop :=
  (∀ a, a ∈ l → ap_workflowId a = W ∧ ap_taskId a = tid t) ∧ (length l <= 1)%nat ∧ approval_read t (head l).

Lemma row_of_columns t r : row_of t r →
  tr_id r = tid t ∧ tr_key r = t_key t ∧ tr_workflowId r = W ∧ td_parentTaskId (tr_def r) = None ∧
  ∃ x d0, set_cols (buildCols resolved t) d0 = Ok x ∧ tr_def r = x.1.
Proof.
  intros (now & Hr). unfold new_task_row in Hr. apply result_bind_Ok in Hr as (x & Hx & [= <-]).
  pose proof Hx as Hx'. unfold set_cols in Hx. apply result_bind_Ok in Hx as (s & _ & Hx).
  apply result_bind_Ok in Hx as (e & _ & Hx). apply result_bind_Ok in Hx as (due & _ & [= <-]).
  split_and!; [done..|]. by eexists _, _.
Qed.

Lemma linked_columns t r : linked t r →
  tr_id r = tid t ∧ tr_key r = t_key t ∧ tr_workflowId r = W ∧
  td_parentTaskId (tr_def r) = t_parent t ≫= (λ p, m !! p).
Proof. intros (r0 & (E1 & E2 & E3 & _)%row_of_columns & ->). done. Qed.
End rows.

(** ** The loops of [insertSpecRows] *)

Section loops.
Context `{Runtime} `{DateEnv}.
Context (W : string) (tasks : list TaskSpec) (resolved : gmap string ResolvedTask) (m : gmap string string).
Context (Hkeys : NoDup (map t_key tasks)).
Context (Hm : ∀ t, t ∈ tasks → is_Some (m !! t_key t)).
Context (Hinj : ∀ k k' i, m !! k = Some i → m !! k' = Some i → k = k').
Context (Hrows : ∀ id wf t now, ∃ r, new_task_row id wf (buildCols resolved t) now = Ok r).

Notation tid := (tid m).

(** A database that knows the workflow and none of its rows. *)
Record base (d : DB) : Prop := {
  ba_workflow : has_workflow d W = true;
  ba_task : ∀ r, r ∈ db_task d → tr_workflowId r ≠ W ∧ ∀ t, t ∈ tasks → tr_id r ≠ tid t;
  ba_dependency : ∀ e, e ∈ db_dependency d → dp_workflowId e ≠ W ∧ ∀ t, t ∈ tasks → dp_taskId e ≠ tid t;
  ba_approval : ∀ a, a ∈ db_approval d → ap_workflowId a ≠ W
}.

Lemma tid_lookup t : t ∈ tasks → m !! t_key t = Some (tid t).
Proof. intros Ht. destruct (Hm t Ht) as [i Hi]. unfold tid, Roundtrip.tid, task_id. by rewrite Hi. Qed.

Lemma tid_inj t u : t ∈ tasks → u ∈ tasks → tid t = tid u → t_key t = t_key u.
Proof. intros Ht%tid_lookup Hu%tid_lookup E. rewrite E in Ht. by eapply Hinj. Qed.

(** A task and those before it. *)
Lemma before_ne pre t post u : tasks = pre ++ t :: post → u ∈ pre → t_key u ≠ t_key t ∧ tid u ≠ tid t.
Proof.
  intros E Hu. assert (Hk : t_key u ≠ t_key t).
  { rewrite E, map_app in Hkeys. apply NoDup_app in Hkeys as (_ & Hd & _). intros Ek.
    apply (Hd (t_key u)); [by apply list_elem_of_fmap_2|rewrite Ek; left]. }
  split; [done|]. intros Et. apply Hk, tid_inj; [|rewrite E; apply elem_of_app; right; left|done].
  rewrite E. by apply elem_of_app; left.
Qed.

Lemma after_ne pre t post u : tasks = pre ++ t :: post → u ∈ post → tid u ≠ tid t.
Proof.
  intros E (a & b & ->)%list_elem_of_split. apply not_eq_sym. apply (before_ne (pre ++ t :: a) u b).
  - by rewrite E, <- app_assoc.
  - apply elem_of_app. right. left.
Qed.

Lemma Forall2_elem_r {A B} (P : A → B → Prop) l k y : Forall2 P l k → y ∈ k → ∃ x, x ∈ l ∧ P x y.
Proof.
  intros Hf Hy. apply list_elem_of_lookup in Hy as [i Hi]. destruct (Forall2_lookup_r _ _ _ _ _ Hf Hi) as (x & Hx & Hp).
  exists x. split; [by eapply list_elem_of_lookup_2|done].
Qed.

Lemma Forall2_elem_l {A B} (P : A → B → Prop) l k x : Forall2 P l k → x ∈ l → ∃ y, y ∈ k ∧ P x y.
Proof. intros Hf%Forall2_flip Hx. by destruct (Forall2_elem_r _ _ _ _ Hf Hx) as (y & Hy & Hp); exists y. Qed.

Lemma total_insert_tasks d s : base d → st_db s = d →
  total (for_each tasks (insert_spec_task W resolved m)) (λ _ s', ∃ rows,
    Forall2 (row_of W resolved m) tasks rows ∧ st_db s' = with_task d (db_task d ++ rows) ∧
    (st_draws s <= st_draws s')%nat) s.
Proof.
  intros Hb Hs. apply (total_for_each _ (λ pre s', ∃ rows, Forall2 (row_of W resolved m) pre rows ∧
    st_db s' = with_task d (db_task d ++ rows) ∧ (st_draws s <= st_draws s')%nat)).
  { exists []. split_and!; [constructor| |lia]. rewrite app_nil_r, Hs. by destruct d. }
  intros pre t post s' Et (rows & Hf & Hdb & Hd). unfold insert_spec_task.
  apply total_bind, total_draw, total_bind. set (now := rt_clock _).
  destruct (Hrows (task_id m (t_key t)) W t now) as [r Hr]. eapply total_lift; [exact Hr|].
  assert (Hrow : row_of W resolved m t r) by by exists now.
  destruct (row_of_columns _ _ _ _ _ Hrow) as (Eid & Ekey & Ewf & Epar & _).
  assert (Ht : t ∈ tasks) by (rewrite Et; apply elem_of_app; right; left).
  apply total_guarded; cbn [st_db st_draws]; rewrite Hdb.
  - unfold task_insertable, has_task. rewrite Epar. cbn [with_task db_task]. rewrite !existsb_app.
    rewrite (existsb_false_in _ (db_task d)), (existsb_false_in _ rows),
      (existsb_false_in _ (db_task d)), (existsb_false_in _ rows), Ewf; [|..].
    + change (negb (false || false) && (negb (false || false) && has_workflow d W && true) = true).
      by rewrite (ba_workflow _ Hb).
    + intros x (u & Hu & Hx)%(Forall2_elem_r _ _ _ _ Hf). apply row_of_columns in Hx as (-> & _). rewrite Eid.
      apply bool_decide_false. by apply (before_ne pre t post).
    + intros x Hx. apply bool_decide_false. rewrite Eid. by apply (ba_task _ Hb).
    + intros x (u & Hu & Hx)%(Forall2_elem_r _ _ _ _ Hf). apply row_of_columns in Hx as (_ & -> & _).
      rewrite Ekey, (bool_decide_false (t_key u = t_key t)), andb_false_r; [done|]. by apply (before_ne pre t post).
    + intros x Hx. rewrite Ewf, bool_decide_false; [done|]. by apply (ba_task _ Hb).
  - exists (rows ++ [r]). split_and!; [by apply Forall2_app; [|constructor]| |lia].
    cbn. by rewrite <- app_assoc.
Qed.
Lemma total_set_parent i p (Q : unit → St → Prop) s :
  Q () {| st_db := with_task (st_db s) (set_where (λ t, tr_id t ≟ i) (task_parent p) (db_task (st_db s)));
          st_draws := st_draws s |} → total (set_parent i p) Q s.
Proof. done. Qed.

Lemma task_parent_None r : td_parentTaskId (tr_def r) = None → task_parent None r = r.
Proof. destruct r as [[] ? ? ? ? ? ?]. cbn. by intros ->. Qed.

Lemma total_link_parents d rows s : base d → (∀ t p, t ∈ tasks → t_parent t = Some p → is_Some (m !! p)) →
  Forall2 (row_of W resolved m) tasks rows → st_db s = with_task d (db_task d ++ rows) →
  total (for_each tasks (link_parent m)) (λ _ s', ∃ rows',
    Forall2 (linked W resolved m) tasks rows' ∧ st_db s' = with_task d (db_task d ++ rows') ∧
    st_draws s' = st_draws s) s.
Proof.
  intros Hb Hpar Hf Hdb.
  eapply total_conseq; [apply (total_for_each _ (λ pre s', ∀ post, tasks = pre ++ post → ∃ rs1 rs2,
    Forall2 (linked W resolved m) pre rs1 ∧ Forall2 (row_of W resolved m) post rs2 ∧
    st_db s' = with_task d (db_task d ++ rs1 ++ rs2) ∧ st_draws s' = st_draws s))|].
  - intros post ->. exists [], rows. done.
  - intros pre t post s' Et HI. destruct (HI _ Et) as (rs1 & rs2 & H1 & H2 & Edb & Ed). clear HI.
    apply Forall2_cons_inv_l in H2 as (r & rs2' & Hr & H2 & ->).
    assert (Ht : t ∈ tasks) by (rewrite Et; apply elem_of_app; right; left).
    assert (Hlink : linked W resolved m t (task_parent (t_parent t ≫= λ p, m !! p) r)) by by exists r.
    destruct (row_of_columns _ _ _ _ _ Hr) as (Eid & _ & _ & Epar & _).
    assert (Hend : ∀ s'' r', st_db s'' = with_task d (db_task d ++ rs1 ++ r' :: rs2') → st_draws s'' = st_draws s →
        linked W resolved m t r' → ∀ post', tasks = (pre ++ [t]) ++ post' → ∃ rs1 rs2,
        Forall2 (linked W resolved m) (pre ++ [t]) rs1 ∧ Forall2 (row_of W resolved m) post' rs2 ∧
        st_db s'' = with_task d (db_task d ++ rs1 ++ rs2) ∧ st_draws s'' = st_draws s).
    { intros s'' r' E'' Ed'' Hl post' Et'. rewrite Et, <- app_assoc in Et'. apply app_inv_head in Et' as [= <-].
      exists (rs1 ++ [r']), rs2'. split_and!; [by apply Forall2_app; [|constructor]|done| |done].
      by rewrite <- app_assoc. }
    unfold link_parent. destruct (t_parent t) as [p|] eqn:Ep; cbn in Hlink.
    + destruct (Hpar t p Ht Ep) as [i Hi]. rewrite Hi in Hlink |- *. apply total_set_parent.
      apply (Hend _ (task_parent (Some i) r)); [|done..]. cbn [st_db]. rewrite Edb.
      unfold with_task. cbn [db_task db_workflow db_dependency db_gate db_event db_attempt db_lease db_artifact db_approval].
      rewrite !set_where_app.
      rewrite (set_where_id _ _ (db_task d)), (set_where_id _ _ rs1).
      * rewrite set_where_cons, (bool_decide_true (tr_id r = _)) by done. rewrite set_where_id; [done|].
        intros x (u & Hu & Hx)%(Forall2_elem_r _ _ _ _ H2). apply row_of_columns in Hx as (-> & _).
        apply bool_decide_false. by apply (after_ne pre t post).
      * intros x (u & Hu & Hx)%(Forall2_elem_r _ _ _ _ H1). apply linked_columns in Hx as (-> & _).
        apply bool_decide_false. by apply (before_ne pre t post).
      * intros x Hx. apply bool_decide_false. by apply (ba_task _ Hb).
    + apply total_ret. apply (Hend _ r); [done..|]. by rewrite task_parent_None in Hlink.
  - cbn. intros _ s' HI. destruct (HI [] (eq_sym (app_nil_r _))) as (rs1 & rs2 & H1 & H2%Forall2_nil_inv_l & E & Ed).
    subst rs2. exists rs1. by rewrite app_nil_r in E.
Qed.
End loops.

(** ** Edges and approvals *)

Section ledgers.
Context `{Runtime, !UuidLaw} `{DateEnv}.
Context (W : string) (tasks : list TaskSpec) (m : gmap string string) (d : DB).
Context (Hm : ∀ t, t ∈ tasks → is_Some (m !! t_key t)).
Context (Hinj : ∀ k k' i, m !! k = Some i → m !! k' = Some i → k = k').
Context (Hw : has_workflow d W = true).
Context (Hrow : ∀ k i, m !! k = Some i → has_task d i = true).
Context (Hold : ∀ e t, e ∈ db_dependency d → t ∈ tasks → dp_taskId e ≠ tid m t).

(** The edges and approvals added to [d] so far. *)
Record tables (es : list DependencyRow) (aps : list ApprovalRow) (s : St) : Prop := {
  ta_db : st_db s = with_approval (with_dependency d (db_dependency d ++ es)) (db_approval d ++ aps);
  ta_dependency : fresh_in "wdep" (map dp_id (db_dependency d ++ es)) (st_draws s);
  ta_approval : fresh_in "wapr" (map ap_id (db_approval d ++ aps)) (st_draws s)
}.

Lemma tid_row t : t ∈ tasks → has_task d (tid m t) = true.
Proof. intros Ht. destruct (Hm t Ht) as [i Hi]. unfold tid, task_id. rewrite Hi. by eapply Hrow. Qed.

Lemma tables_edge es aps s e n : tables es aps s → (st_draws s <= n)%nat → dp_id e = uid "wdep" n →
  tables (es ++ [e]) aps {| st_db := with_dependency (st_db s) (db_dependency (st_db s) ++ [e]); st_draws := S n |}.
Proof.
  intros [E Hd Ha] Hn Ee. split; cbn [st_db st_draws].
  - rewrite E. cbn. by rewrite <- app_assoc.
  - rewrite app_assoc, map_app. cbn [map]. rewrite Ee. apply fresh_in_app; [|lia]. by eapply fresh_in_le.
  - eapply fresh_in_le; [done|lia].
Qed.

Lemma tables_approval es aps s a n n' : tables es aps s → (st_draws s <= n)%nat → (n < n')%nat → ap_id a = uid "wapr" n →
  tables es (aps ++ [a]) {| st_db := with_approval (st_db s) (db_approval (st_db s) ++ [a]); st_draws := n' |}.
Proof.
  intros [E Hd Ha] Hn Hn' Ea. split; cbn [st_db st_draws].
  - rewrite E. cbn. by rewrite <- app_assoc.
  - eapply fresh_in_le; [done|lia].
  - rewrite app_assoc, map_app. cbn [map]. rewrite Ea. apply fresh_in_app; [|lia]. by eapply fresh_in_le.
Qed.

Lemma total_edges t es0 aps s : t ∈ tasks → NoDup (map dep_taskKey (deps_of t)) →
  (∀ dep, dep ∈ deps_of t → is_Some (m !! dep_taskKey dep)) →
  (∀ e, e ∈ es0 → dp_taskId e ≠ tid m t) → tables es0 aps s →
  total (for_each (deps_of t) (insert_edge W m t)) (λ _ s', ∃ es,
    Forall2 (edge_of W m t) (deps_of t) es ∧ tables (es0 ++ es) aps s') s.
Proof.
  intros Ht Hnd Hdeps Hes0 Hs. apply (total_for_each _ (λ pre s', ∃ es,
    Forall2 (edge_of W m t) pre es ∧ tables (es0 ++ es) aps s')).
  { exists []. by rewrite app_nil_r. }
  intros pre dep post s' Ed (es & Hf & Hta). unfold insert_edge.
  destruct (Hdeps dep) as [i Hi]; [rewrite Ed; apply elem_of_app; right; left|]. rewrite Hi.
  apply total_bind, total_fresh_id.
  set (e := {| dp_id := _; dp_workflowId := W; dp_taskId := _; dp_dependsOnTaskId := i; dp_outcome := _ |}).
  assert (He : edge_of W m t dep e) by done.
  apply total_guarded; cbn [st_db st_draws].
  - rewrite (ta_db _ _ _ Hta). cbn [db_dependency with_approval with_dependency].
    rewrite existsb_false_in.
    + change (has_workflow d W && has_task d (tid m t) && has_task d i = true).
      by rewrite Hw, (tid_row t Ht), (Hrow _ _ Hi).
    + intros x Hx. apply orb_false_iff. split; [apply bool_decide_false|].
      { intros Ex. apply (ta_dependency _ _ _ Hta (st_draws s')); [lia|]. cbn in Ex. rewrite <- Ex.
        by apply list_elem_of_fmap_2. }
      apply elem_of_app in Hx as [Hx|Hx]; [by rewrite bool_decide_false by by apply Hold|].
      apply elem_of_app in Hx as [Hx|Hx]; [by rewrite bool_decide_false by by apply Hes0|].
      destruct (Forall2_elem_r _ _ _ _ Hf Hx) as (dep' & Hdep' & _ & _ & Hi' & _).
      rewrite (bool_decide_false (dp_dependsOnTaskId x = _)), andb_false_r; [done|]. cbn. intros Ex. rewrite Ex in Hi'.
      rewrite Ed, map_app in Hnd. apply NoDup_app in Hnd as (_ & Hnd & _). apply (Hnd (dep_taskKey dep')).
      * by apply list_elem_of_fmap_2.
      * rewrite (Hinj _ _ _ Hi' Hi). left.
  - exists (es ++ [e]). split; [by apply Forall2_app; [|constructor]|]. rewrite app_assoc.
    by apply tables_edge.
Qed.

Lemma total_approval t es aps s : t ∈ tasks → storable_task t → tables es aps s →
  total (insert_pending_approval W (tid m t) t) (λ _ s', ∃ l, approvals_of W m t l ∧ tables es (aps ++ l) s') s.
Proof.
  intros Ht Hst Hta. unfold insert_pending_approval.
  destruct (t_body t) as [ | scope sol deadline policy | | | | ] eqn:Eb.
  2:{ pose proof (st_deadline _ Hst) as Hd. rewrite Eb in Hd. destruct Hd as [z Hz].
    apply total_bind, total_fresh_id, total_bind, total_draw, total_bind. eapply total_lift; [exact Hz|].
    set (a := {| ap_id := _ |}). cbn [st_db st_draws] in *.
    apply total_guarded; cbn [st_db st_draws].
    - rewrite (ta_db _ _ _ Hta). cbn [db_approval with_approval]. rewrite existsb_false_in.
      + change (has_workflow d W && has_task d (tid m t) = true). by rewrite Hw, (tid_row t Ht).
      + intros x Hx. apply bool_decide_false. intros Ex. apply (ta_approval _ _ _ Hta (st_draws s)); [lia|].
        cbn in Ex. rewrite <- Ex. by apply list_elem_of_fmap_2.
    - exists [a]. split; [|by apply (tables_approval _ _ s a (st_draws s)); [|lia..|]].
      split_and!; [by intros x ->%list_elem_of_singleton|done|]. unfold approval_read. rewrite Eb. by exists a. }
  all: apply total_ret; exists []; rewrite app_nil_r; split; [|done].
  all: split_and!; [by intros ? ?%elem_of_nil|cbn; lia|]; unfold approval_read; by rewrite Eb.
Qed.
Context (Hkeys : NoDup (map t_key tasks)).
Context (Htask : ∀ t, t ∈ tasks → storable_task t ∧ NoDup (map dep_taskKey (deps_of t)) ∧
  ∀ dep, dep ∈ deps_of t → is_Some (m !! dep_taskKey dep)).

Lemma edges_task pre ess e : Forall2 (λ t es, Forall2 (edge_of W m t) (deps_of t) es) pre ess →
  e ∈ concat ess → ∃ t, t ∈ pre ∧ dp_workflowId e = W ∧ dp_taskId e = tid m t.
Proof.
  intros Hf (es & Hes & He)%elem_concat.
  destruct (Forall2_elem_r _ _ _ _ Hf Hes) as (t & Ht & Hf').
  destruct (Forall2_elem_r _ _ _ _ Hf' He) as (dep & _ & E1 & E2 & _). by exists t.
Qed.

Lemma total_ledgers s : tables [] [] s →
  total (for_each tasks (λ t,
      for_each (deps_of t) (insert_edge W m t);; insert_pending_approval W (task_id m (t_key t)) t))
    (λ _ s', ∃ ess apss, Forall2 (λ t es, Forall2 (edge_of W m t) (deps_of t) es) tasks ess ∧
      Forall2 (approvals_of W m) tasks apss ∧ tables (concat ess) (concat apss) s') s.
Proof.
  intros Hta. apply (total_for_each _ (λ pre s', ∃ ess apss,
    Forall2 (λ t es, Forall2 (edge_of W m t) (deps_of t) es) pre ess ∧
    Forall2 (approvals_of W m) pre apss ∧ tables (concat ess) (concat apss) s')).
  { by exists [], []. }
  intros pre t post s' Et (ess & apss & Hes & Hap & Hs').
  assert (Ht : t ∈ tasks) by (rewrite Et; apply elem_of_app; right; left).
  destruct (Htask t Ht) as (Hst & Hnd & Hdeps). apply total_bind. eapply total_conseq.
  - apply (total_edges t (concat ess) (concat apss)); [done..| |done].
    intros e (u & Hu & _ & ->)%(edges_task _ _ _ Hes). by apply (before_ne tasks m Hkeys Hm Hinj pre t post).
  - cbn. intros _ s2 (es & Hf & Hs2). eapply total_conseq; [by apply (total_approval t _ _ s2 Ht Hst Hs2)|].
    cbn. intros _ s3 (l & Hl & Hs3). exists (ess ++ [es]), (apss ++ [l]).
    split_and!; [by apply Forall2_app; [|constructor]|by apply Forall2_app; [|constructor]|].
    by rewrite !concat_app, !concat_cons, !app_nil_r.
Qed.
End ledgers.

Section spec_rows.
Context `{Runtime, !UuidLaw} `{DateEnv}.

(** What the validator and the schema give of a spec; the edges of a task name
    each upstream task once. *)
Record storable (spec : WorkflowSpec) : Prop := {
  so_keys : NoDup (map t_key (w_tasks spec));
  so_parent : ∀ t p, t ∈ w_tasks spec → t_parent t = Some p → p ∈ map t_key (w_tasks spec);
  so_deps : ∀ t dep, t ∈ w_tasks spec → dep ∈ deps_of t → dep_taskKey dep ∈ map t_key (w_tasks spec);
  so_deps_once : ∀ t, t ∈ w_tasks spec → NoDup (map dep_taskKey (deps_of t));
  so_task : ∀ t, t ∈ w_tasks spec → storable_task t;
  so_target : ∃ z, sql_timestamp (target_column spec) = Ok z
}.

Definition resolvable (spec : WorkflowSpec) (frozenDueAt : gmap string FrozenDue) : Prop := ∀ now, ∃ res,
  resolveSchedule now spec {| ro_targetAtUtc := None; ro_frozenDueAt := frozenDueAt |} = Ok res.

(** The rows of a spec, added to [d]. *)
Record written (W : string) (spec : WorkflowSpec) (resolved : gmap string ResolvedTask) (m : gmap string string)
    (rows : list TaskRow) (ess : list (list DependencyRow)) (apss : list (list ApprovalRow)) : Prop := {
  wn_ids : ∀ t, t ∈ w_tasks spec → is_Some (m !! t_key t);
  wn_dom : ∀ k i, m !! k = Some i → k ∈ map t_key (w_tasks spec);
  wn_id : ∀ k i, m !! k = Some i → i ≠ "";
  wn_inj : ∀ k k' i, m !! k = Some i → m !! k' = Some i → k = k';
  wn_rows : Forall2 (linked W resolved m) (w_tasks spec) rows;
  wn_edges : Forall2 (λ t es, Forall2 (edge_of W m t) (deps_of t) es) (w_tasks spec) ess;
  wn_approvals : Forall2 (approvals_of W m) (w_tasks spec) apss
}.

Definition with_rows (d : DB) (rows : list TaskRow) (es : list DependencyRow) (aps : list ApprovalRow) : DB :=
  with_approval (with_dependency (with_task d (db_task d ++ rows)) (db_dependency d ++ es)) (db_approval d ++ aps).

(** No row names the workflow yet. *)
Record unused (W : string) (d : DB) : Prop := {
  un_task : ∀ r, r ∈ db_task d → tr_workflowId r ≠ W;
  un_dependency : ∀ e, e ∈ db_dependency d → dp_workflowId e ≠ W ∧ dp_taskId e ∈ map tr_id (db_task d);
  un_approval : ∀ a, a ∈ db_approval d → ap_workflowId a ≠ W
}.

Lemma key_task spec t' : t' ∈ map t_key (w_tasks spec) → ∃ t, t ∈ w_tasks spec ∧ t_key t = t'.
Proof. intros (t & <- & Ht%list_elem_of_In)%list_elem_of_In%in_map_iff. by exists t. Qed.

Lemma total_insertSpecRows W spec frozenDueAt s :
  storable spec → resolvable spec frozenDueAt → has_workflow (st_db s) W = true → unused W (st_db s) →
  fresh_in "wtask" (map tr_id (db_task (st_db s))) (st_draws s) →
  fresh_in "wdep" (map dp_id (db_dependency (st_db s))) (st_draws s) →
  fresh_in "wapr" (map ap_id (db_approval (st_db s))) (st_draws s) →
  total (insertSpecRows W spec frozenDueAt) (λ _ s', ∃ resolved m rows ess apss,
    written W spec resolved m rows ess apss ∧
    st_db s' = with_rows (st_db s) rows (concat ess) (concat apss)) s.
Proof.
  intros Hso Hsch Hw Hun Hft Hfd Hfa. unfold insertSpecRows. apply total_bind, total_draw, total_bind.
  destruct (Hsch (rt_clock (st_draws s))) as [res Hres]. eapply total_lift; [exact Hres|].
  apply total_bind. eapply total_conseq; [apply total_new_ids|].
  cbn [st_db st_draws]. intros m s1 (Edb & Hd1 & Hids & Hdrawn & Hinj).
  assert (Hdom : ∀ k, k ∈ map t_key (w_tasks spec) → is_Some (m !! k)).
  { intros k (t & Ht & <-)%key_task. by apply Hids. }
  assert (Htid : ∀ t, t ∈ w_tasks spec → tid m t ∉ map tr_id (db_task (st_db s))).
  { intros t Ht. destruct (Hids t Ht) as [i Hi]. unfold tid, task_id. rewrite Hi.
    destruct (Hdrawn _ _ Hi) as (_ & n & Hn & ->). apply Hft. cbn. lia. }
  assert (Hb : base W (w_tasks spec) m (st_db s)).
  { split; [done| | |by apply Hun].
    - intros r Hr. split; [by apply (un_task _ _ Hun)|]. intros t Ht E. apply (Htid t Ht). rewrite <- E.
      by apply list_elem_of_fmap_2.
    - intros e He. destruct (un_dependency _ _ Hun e He) as [Hn Hi]. split; [done|]. intros t Ht E.
      apply (Htid t Ht). by rewrite <- E. }
  apply total_bind. eapply total_conseq.
  { by apply (total_insert_tasks W _ (rr_tasks res) m (so_keys _ Hso) Hids Hinj (resolved_rows _ _ _ _ Hres) (st_db s)). }
  cbn. intros _ s2 (rows0 & Hf0 & Edb2 & Hd2).
  apply total_bind. eapply total_conseq.
  { apply (total_link_parents W _ (rr_tasks res) m (so_keys _ Hso) Hids Hinj (st_db s) rows0); try done.
    intros t p Ht Hp. by apply Hdom, (so_parent _ Hso t). }
  cbn. intros _ s3 (rows & Hf & Edb3 & Hd3). eapply total_conseq.
  { apply (total_ledgers W (w_tasks spec) m (with_task (st_db s) (db_task (st_db s) ++ rows))); try done.
    - intros k i Hk. destruct (Hdrawn _ _ Hk) as [(t & Ht & <-)%key_task _].
      destruct (Forall2_elem_l _ _ _ _ Hf Ht) as (r & Hr & Hl). apply linked_columns in Hl as (Er & _).
      unfold has_task. cbn [with_task db_task]. apply (existsb_true_in _ _ r); [by apply elem_of_app; right|].
      apply bool_decide_true. rewrite Er. unfold tid, task_id. by rewrite Hk.
    - intros e t He Ht. by apply (ba_dependency _ _ _ _ Hb).
    - apply Hso.
    - intros t Ht. split_and!; [by apply (so_task _ Hso)|by apply (so_deps_once _ Hso)|].
      intros dep Hdep. by apply Hdom, (so_deps _ Hso t).
    - split; cbn; rewrite ?app_nil_r.
      + rewrite Edb3. by destruct (st_db s).
      + eapply fresh_in_le; [done|lia].
      + eapply fresh_in_le; [done|lia]. }
  cbn. intros _ s4 (ess & apss & Hess & Hapss & Hta). exists (rr_tasks res), m, rows, ess, apss.
  split; [|by rewrite (ta_db _ _ _ _ Hta)]. split; try done; intros k i Hk; destruct (Hdrawn _ _ Hk) as (Hk' & n & _ & ->); done.
Qed.

Lemma filter_new {R} (p : R → bool) old new :
  (∀ x, x ∈ old → p x = false) → (∀ x, x ∈ new → p x = true) → List.filter p (old ++ new) = new.
Proof.
  intros Ho Hn. rewrite List.filter_app, (filter_none p old) by done. cbn.
  induction new as [|x l IH]; [done|]. cbn. rewrite (Hn x) by left. f_equal. apply IH. intros y Hy. apply Hn. by right.
Qed.

Lemma find_new {R} (p : R → bool) old x :
  (∀ y, y ∈ old → p y = false) → p x = true → first_where p (old ++ [x]) = Some x.
Proof.
  intros Ho Hx. unfold first_where. induction old as [|y l IH]; cbn; [by rewrite Hx|].
  rewrite (Ho y) by left. apply IH. intros z Hz. apply Ho. by right.
Qed.

(** The row of a created workflow. *)
Definition created (input : CreateInput) (w : WorkflowRow) : Prop :=
  wd_name (wr_def w) = ci_name input ∧ wd_product (wr_def w) = ci_product input ∧
  sql_timestamp (target_column (ci_spec input)) = Ok (wd_targetAtUtc (wr_def w)) ∧
  wd_targetTz (wr_def w) = tg_tz <$> w_target (ci_spec input).

Lemma total_create input s : storable (ci_spec input) → resolvable (ci_spec input) ∅ → fresh_ids s → fk_ok (st_db s) →
  total (createWorkflowFromSpec input) (λ W s', ∃ w resolved m rows ess apss,
    created input w ∧ written W (ci_spec input) resolved m rows ess apss ∧
    first_where (λ w, wr_id w ≟ W) (db_workflow (st_db s) ++ [w]) = Some w ∧ unused W (st_db s) ∧
    st_db s' = with_rows (with_workflow (st_db s) (db_workflow (st_db s) ++ [w])) rows (concat ess) (concat apss)) s.
Proof.
  intros Hso Hsch Hf Hfk. unfold createWorkflowFromSpec. apply total_bind, total_fresh_id.
  set (W := uid "wf" (st_draws s)). assert (HW : W ∉ map wr_id (db_workflow (st_db s))) by (by apply (fr_workflow _ Hf)).
  assert (Hun : unused W (st_db s)).
  { split.
    - intros r Hr <-. by apply HW, (fk_task _ Hfk).
    - intros e He. destruct (fk_dependency _ Hfk e He) as [Hw Ht]. split; [by intros <-|done].
    - intros a Ha <-. by apply HW, (fk_approval _ Hfk). }
  apply total_bind, total_transaction, total_bind, total_draw, total_bind. destruct (so_target _ Hso) as [z Hz].
  eapply total_lift; [exact Hz|]. set (w := {| wr_def := _ |}). apply total_bind, total_guarded.
  { apply negb_true_iff, existsb_false_in. intros x Hx. apply bool_decide_false. cbn. intros E. apply HW.
    rewrite <- E. by apply list_elem_of_fmap_2. }
  eapply total_conseq; [apply (total_insertSpecRows W (ci_spec input)); cbn; try done|].
  - unfold has_workflow. cbn. rewrite existsb_app. cbn. by rewrite bool_decide_true, orb_true_r.
  - by destruct Hun; split.
  - eapply fresh_in_le; [by apply Hf|lia].
  - eapply fresh_in_le; [by apply Hf|lia].
  - eapply fresh_in_le; [by apply Hf|lia].
  - cbn. intros _ s' (resolved & m & rows & ess & apss & Hwn & E).
    exists w, resolved, m, rows, ess, apss. split_and!; try done.
    apply find_new; [|by apply bool_decide_true]. intros y Hy. apply bool_decide_false.
    intros Ey. apply HW. rewrite <- Ey. by apply list_elem_of_fmap_2.
Qed.

(** ** Reading the rows back *)

Lemma filter_concat_nth {R} (p : R → bool) (ls : list (list R)) i l : ls !! i = Some l →
  (∀ x, x ∈ l → p x = true) → (∀ j k x, j ≠ i → ls !! j = Some k → x ∈ k → p x = false) →
  List.filter p (concat ls) = l.
Proof.
  intros Hi Hl Ho. rewrite <- (take_drop_middle _ _ _ Hi), concat_app, concat_cons, List.filter_app.
  rewrite (filter_none p (concat (take i ls))); cbn.
  - rewrite List.filter_app, (filter_none p (concat (drop (S i) ls))), app_nil_r.
    + rewrite <- (app_nil_l l) at 1. apply filter_new; [by intros x ?%elem_of_nil|done].
    + intros x (k & [j Hj]%list_elem_of_lookup & Hx)%elem_concat. rewrite lookup_drop in Hj.
      apply (Ho (S i + j)%nat k x); [lia|done..].
  - intros x (k & [j Hj]%list_elem_of_lookup & Hx)%elem_concat. apply lookup_take_Some in Hj as [Hj Hlt].
    apply (Ho j k x); [lia|done..].
Qed.

Section reading.
Context (W : string) (input : CreateInput) (resolved : gmap string ResolvedTask) (m : gmap string string).
Context (rows : list TaskRow) (ess : list (list DependencyRow)) (apss : list (list ApprovalRow)).
Context (Hso : storable (ci_spec input)) (Hwn : written W (ci_spec input) resolved m rows ess apss).
Notation tasks := (w_tasks (ci_spec input)).

Lemma read_rows w d s : first_where (λ w, wr_id w ≟ W) (db_workflow d) = Some w → unused W d →
  st_db s = with_rows d rows (concat ess) (concat apss) →
  reconstructSpec W s = (s, Ok (Some (spec_of_rows
    {| rw_workflow := w; rw_tasks := rows; rw_dependencies := concat ess; rw_approvals := concat apss |}
    (concat apss)))).
Proof.
  intros Ew Hun E.
  assert (E1 : first_where (λ w, wr_id w ≟ W) (db_workflow (st_db s)) = Some w) by by rewrite E.
  assert (E2 : List.filter (λ t, tr_workflowId t ≟ W) (db_task (st_db s)) = rows).
  { rewrite E. apply filter_new; intros r Hr; [by apply bool_decide_false, (un_task _ _ Hun)|].
    destruct (Forall2_elem_r _ _ _ _ (wn_rows _ _ _ _ _ _ _ Hwn) Hr) as (t & _ & Hl).
    apply bool_decide_true. by apply linked_columns in Hl as (_ & _ & -> & _). }
  assert (E3 : List.filter (λ e, dp_workflowId e ≟ W) (db_dependency (st_db s)) = concat ess).
  { rewrite E. apply filter_new; intros e He; [by apply bool_decide_false, (un_dependency _ _ Hun)|].
    by destruct (edges_task W m tasks ess e (wn_edges _ _ _ _ _ _ _ Hwn) He) as (t & _ & Ee & _); apply bool_decide_true. }
  assert (E4 : List.filter (λ a, ap_workflowId a ≟ W) (db_approval (st_db s)) = concat apss).
  { rewrite E. apply filter_new; intros a Ha; [by apply bool_decide_false, (un_approval _ _ Hun)|].
    apply elem_concat in Ha as (l & Hl & Ha).
    destruct (Forall2_elem_r _ _ _ _ (wn_approvals _ _ _ _ _ _ _ Hwn) Hl) as (t & _ & Hap & _).
    by apply bool_decide_true, Hap. }
  unfold reconstructSpec, readWorkflow, select_workflow, mbind, M_bind, gets. cbn -[spec_of_rows].
  rewrite E1. cbn -[spec_of_rows]. by rewrite E2, E3, E4.
Qed.

Lemma same_task i j t u : tasks !! i = Some t → tasks !! j = Some u → tid m t = tid m u → i = j.
Proof.
  intros Hi Hj E. apply (NoDup_lookup (map t_key tasks) i j (t_key t) (so_keys _ Hso)).
  - by rewrite lookup_map, Hi.
  - rewrite lookup_map, Hj. cbn. f_equal. symmetry. eapply (tid_inj tasks m); [apply Hwn|apply Hwn|..|done];
      by eapply list_elem_of_lookup_2.
Qed.

Lemma key_of k i : m !! k = Some i → keyById rows !! i = Some k.
Proof.
  intros Hi. destruct (key_task _ _ (wn_dom _ _ _ _ _ _ _ Hwn _ _ Hi)) as (t & Ht & <-).
  destruct (Forall2_elem_l _ _ _ _ (wn_rows _ _ _ _ _ _ _ Hwn) Ht) as (r & Hr & Hl).
  apply linked_columns in Hl as (Er & _).
  pose proof (map_of_is_Some (λ t, (tr_id t, tr_key t)) rows r Hr) as Hs. cbn in Hs.
  unfold tid, task_id in Er. rewrite Hi in Er. cbn in Er. rewrite Er in Hs. destruct Hs as [k Hk].
  unfold keyById. rewrite Hk. destruct (map_of_lookup _ _ _ _ Hk) as (x & Hx & [= Ex <-]).
  destruct (Forall2_elem_r _ _ _ _ (wn_rows _ _ _ _ _ _ _ Hwn) Hx) as (u & Hu & Hl).
  apply linked_columns in Hl as (Eu & -> & _). f_equal. rewrite Ex in Eu.
  eapply (wn_inj _ _ _ _ _ _ _ Hwn); [|exact Hi]. rewrite (tid_lookup tasks m); [by f_equal|apply Hwn|done].
Qed.

Lemma own_edges i t es : tasks !! i = Some t → ess !! i = Some es →
  List.filter (λ e, dp_taskId e ≟ tid m t) (concat ess) = es.
Proof.
  intros Ht Hes. pose proof (wn_edges _ _ _ _ _ _ _ Hwn) as Hf.
  apply (filter_concat_nth _ _ i); [done|..].
  - intros e He. apply bool_decide_true. destruct (Forall2_lookup_r _ _ _ _ _ Hf Hes) as (u & Hu & Hfe).
    rewrite Ht in Hu. injection Hu as <-. by destruct (Forall2_elem_r _ _ _ _ Hfe He) as (dep & _ & _ & E & _).
  - intros j es' e Hj Hes' He. apply bool_decide_false. destruct (Forall2_lookup_r _ _ _ _ _ Hf Hes') as (u & Hu & Hfe).
    destruct (Forall2_elem_r _ _ _ _ Hfe He) as (dep & _ & _ & -> & _). intros E. apply Hj. by eapply same_task.
Qed.

Lemma own_approval i t l : tasks !! i = Some t → apss !! i = Some l →
  map_of (λ a, (ap_taskId a, a)) (concat apss) !! tid m t = head l.
Proof.
  intros Ht Hl. pose proof (wn_approvals _ _ _ _ _ _ _ Hwn) as Hf.
  destruct (Forall2_lookup_r _ _ _ _ _ Hf Hl) as (u & Hu & Hall & Hlen & _). rewrite Ht in Hu. injection Hu as <-.
  assert (Honly : ∀ a, map_of (λ a, (ap_taskId a, a)) (concat apss) !! tid m t = Some a → a ∈ l).
  { intros a (x & Hx & [= Ex ->])%map_of_lookup. apply elem_concat in Hx as (l' & Hl' & Hx).
    apply list_elem_of_lookup in Hl' as [j Hj]. destruct (Forall2_lookup_r _ _ _ _ _ Hf Hj) as (u & Hu & Hall' & _).
    destruct (Hall' _ Hx) as [_ Eu]. rewrite Ex in Eu. assert (i = j) as <- by by eapply same_task.
    rewrite Hl in Hj. by injection Hj as <-. }
  destruct (map_of _ _ !! tid m t) as [a|] eqn:E.
  - specialize (Honly _ eq_refl). destruct l as [|b [|]]; [by apply elem_of_nil in Honly| |cbn in Hlen; lia].
    apply list_elem_of_singleton in Honly. by subst.
  - destruct l as [|b l]; [done|]. destruct (Hall b) as [_ Eb]; [left|].
    destruct (map_of_is_Some (λ a, (ap_taskId a, a)) (concat apss) b) as [x Hx].
    + apply list_elem_of_In, in_concat. exists (b :: l). split; apply list_elem_of_In; [by eapply list_elem_of_lookup_2|left].
    + cbn in Hx. rewrite Eb in Hx. congruence.
Qed.

Lemma edges_read t es : Forall2 (edge_of W m t) (deps_of t) es →
  map (dependency_json (keyById rows)) es = map TaskDependency_json
    (map (λ d, {| dep_taskKey := dep_taskKey d; dep_outcome := Some (dep_outcome d ?? do_success) |}) (deps_of t)).
Proof.
  induction 1 as [|dep e deps es (_ & _ & Hi & Ho) _ IH]; [done|]. cbn [map]. f_equal; [|exact IH].
  unfold dependency_json. rewrite (key_of _ _ Hi), Ho. done.
Qed.

Lemma task_read `{!JsonbLaw} i t r : tasks !! i = Some t → rows !! i = Some r →
  reconstruct_task (keyById rows) (concat ess) (map_of (λ a, (ap_taskId a, a)) (concat apss)) r
    ≈ TaskSpec_json (persisted_task t).
Proof.
  intros Ht Hr. pose proof Hwn as [Hids _ Hid _ Hrows Hess Haps].
  destruct (Forall2_lookup_l _ _ _ _ _ Hess Ht) as (es & Hes & Hfe).
  destruct (Forall2_lookup_l _ _ _ _ _ Haps Ht) as (l & Hl & _ & _ & Happ).
  destruct (Forall2_lookup_lr _ _ _ _ _ _ Hrows Ht Hr) as (r0 & Hr0 & ->).
  destruct (row_of_columns _ _ _ _ _ Hr0) as (Eid & _ & _ & _ & x & d0 & Hx & Ex).
  assert (Hin : t ∈ tasks) by by eapply list_elem_of_lookup_2.
  rewrite reconstruct_fields. cbn [tr_def task_parent]. rewrite Ex.
  change (tr_id (task_parent ?p r0)) with (tr_id r0). rewrite Eid, (own_edges i t es Ht Hes), (own_approval i t l Ht Hl).
  cbn [def_parent td_parentTaskId].
  assert (Ep : (truthy_str (t_parent t ≫= λ p, m !! p) ≫= λ i, keyById rows !! i) = t_parent t).
  { destruct (t_parent t) as [p|] eqn:E; [|done]. cbn.
    destruct (key_task _ _ (so_parent _ Hso t p Hin E)) as (u & Hu & <-). destruct (Hids u Hu) as [j Hj].
    rewrite Hj. cbn. rewrite bool_decide_false by by eapply Hid. cbn. by apply key_of. }
  rewrite Ep. apply (row_equiv resolved t d0 x); [done|by apply (so_task _ Hso)| |done]. by apply edges_read.
Qed.

Lemma target_read w : created input w →
  reconstruct_target (wr_def w) = Target_json <$> persisted_target (ci_spec input).
Proof.
  intros (_ & _ & Et & Ez). unfold reconstruct_target. rewrite Ez. revert Et.
  unfold target_column, persisted_target, utc_text. destruct (w_target (ci_spec input)) as [[at_ tz]|]; cbn;
    [|by intros [= <-]]. destruct (truthy_str at_) as [x|]; cbn; [|by intros [= <-]].
  destruct (Date_parse x) as [z|]; cbn; [|done]. intros [= <-]. by case_bool_decide.
Qed.

Lemma spec_read `{!JsonbLaw} w aps : created input w →
  spec_of_rows {| rw_workflow := w; rw_tasks := rows; rw_dependencies := concat ess; rw_approvals := aps |} (concat apss)
    ≈ WorkflowSpec_json (persisted input).
Proof.
  intros Hc. pose proof Hc as (En & Ep & _).
  set (items := map (reconstruct_task (keyById rows) (concat ess) (map_of (λ a, (ap_taskId a, a)) (concat apss))) rows).
  set (p := persisted input).
  trans (JObj (fields [("name", Some (JStr (ci_name input))); ("product", JStr <$> ci_product input);
    ("target", Target_json <$> persisted_target (ci_spec input)); ("tasks", Some (JArr items))])).
  { unfold spec_of_rows. cbn [rw_workflow]. rewrite (target_read w Hc), En, Ep, !fields_fld. done. }
  trans (JObj (fields [("key", JStr <$> w_key p); ("name", Some (JStr (w_name p))); ("product", JStr <$> w_product p);
    ("target", Target_json <$> w_target p); ("placeholders", None);
    ("tasks", Some (JArr (map TaskSpec_json (w_tasks p)))); ("metadata", None)])).
  2: { unfold WorkflowSpec_json. by rewrite !fields_fld. }
  apply fields_equiv; [vm_compute; reflexivity..|]. intros k Hk. cbn [map fst] in Hk.
  do 3 (apply elem_of_cons in Hk as [->|Hk]; [reflexivity|]).
  apply list_elem_of_singleton in Hk as ->. constructor. apply arr_equiv.
  unfold items, p, persisted. cbn [w_tasks]. rewrite map_map. pose proof (wn_rows _ _ _ _ _ _ _ Hwn) as Hf.
  apply Forall2_same_length_lookup_2; [by rewrite !length_map, (Forall2_length _ _ _ Hf)|].
  intros i x y. rewrite !lookup_map. destruct (rows !! i) as [r|] eqn:Er; [|done].
  destruct (tasks !! i) as [t|] eqn:Et; [|done]. intros [= <-] [= <-]. by eapply task_read.
Qed.
End reading.

(** C8: Storing and reading back a spec.  For a spec that passes the validator's
    checks on keys, parents and edges and whose dates parse,
    [createWorkflowFromSpec] returns, and [reconstructSpec] of the returned id
    gives, up to the order of an object's keys, the spec with the fields that have
    columns: every task, edge, schedule, approval and retry setting comes back
    with defaults normalised and instants in UTC; only placeholders, metadata,
    manual instructions, notification texts and an undated target are dropped. *)
Theorem spec_roundtrip `{!JsonbLaw} input s
    (Hso : storable (ci_spec input)) (Hsch : resolvable (ci_spec input) ∅) (Hf : fresh_ids s) (Hfk : fk_ok (st_db s)) :
  ∃ W s' j, createWorkflowFromSpec input s = (s', Ok W) ∧ reconstructSpec W s' = (s', Ok (Some j)) ∧
    canonicalize j = canonicalize (WorkflowSpec_json (persisted input)).
Proof.
  pose proof (total_create input s Hso Hsch Hf Hfk) as Ht. unfold total in Ht.
  destruct (createWorkflowFromSpec input s) as [s' [W|e]]; [|done].
  destruct Ht as (w & resolved & m & rows & ess & apss & Hc & Hwn & Hw & Hun & E).
  exists W, s', (spec_of_rows {| rw_workflow := w; rw_tasks := rows; rw_dependencies := concat ess;
    rw_approvals := concat apss |} (concat apss)).
  split_and!; [done| |by eapply spec_read].
  apply (read_rows _ _ _ _ _ _ _ Hwn w (with_workflow (st_db s) (db_workflow (st_db s) ++ [w]))); [done|by destruct Hun; split|done].
Qed.
End spec_rows.

(** ** A release with an agent task and a sign-off *)

#[export] Instance sample_uuid : UuidLaw.
Proof. split. intros i j. apply show_nat_inj. Defined.

Definition signed_task (key : string) (parent : option string) (deps : list TaskDependency) (body : TaskBody) : TaskSpec := {|
  t_key := key; t_title := key; t_required := None; t_pinned := Some true; t_risk := None; t_parent := parent;
  t_schedule := plan_offset "target" "P3D" sd_before; t_dependsOn := Some deps;
  t_assignee := Some {| asg_level := ol_user; asg_id := "u1" |}; t_failurePolicy := Some fp_block;
  t_missedWindowPolicy := None; t_retryPolicy := Some (JObj [("delayMs", jint 5); ("backoff", JStr "fixed")]);
  t_maxAttempts := Some 2; t_cancelPolicy := None; t_body := body; t_foreach := None |}.

Definition signed_plan : WorkflowSpec := {|
  w_key := None; w_name := "release"; w_product := None;
  w_target := Some {| tg_at := Some "2026-03-10T09:00:00Z"; tg_tz := "UTC" |};
  w_placeholders := None; w_metadata := None;
  w_tasks := [plan_task "ship" None None None;
              signed_task "build" (Some "ship") [] CheckpointTask;
              signed_task "sign" (Some "ship") [{| dep_taskKey := "build"; dep_outcome := None |}]
                (ApprovalTask {| sc_level := ol_user; sc_id := Some "u1" |} None (Some "2026-03-09T09:00:00Z") None)] |}.

Definition signed_input : CreateInput := {|
  ci_spec := signed_plan; ci_name := "release"; ci_product := Some "cinatra"; ci_status := None;
  ci_sourceTemplateId := None; ci_sourceTemplateVersion := None; ci_createdBy := Some "u1";
  ci_ownerLevel := Some "user"; ci_ownerId := Some "u1"; ci_orgId := "o1"; ci_projectId := None |}.

Definition empty_st : St := sample_st (Build_DB [] [] [] [] [] [] [] [] [] []).

Lemma signed_storable : storable signed_plan.
Proof.
  assert (Hf : ∀ P : TaskSpec → Prop, Forall P (w_tasks signed_plan) → ∀ t, t ∈ w_tasks signed_plan → P t)
    by (intros P; apply Forall_forall).
  assert (Hp : Forall (λ t, match t_parent t with Some p => p ∈ map t_key (w_tasks signed_plan) | None => True end)
    (w_tasks signed_plan)) by (repeat constructor).
  split.
  - apply (bool_decide_unpack _). vm_compute. exact I.
  - intros t p Ht E. pose proof (Hf _ Hp t Ht) as Hx. cbv beta in Hx. by rewrite E in Hx.
  - intros t dep Ht. revert t Ht dep. apply (Hf (λ t, ∀ dep, dep ∈ deps_of t → dep_taskKey dep ∈ map t_key (w_tasks signed_plan))).
    repeat (apply Forall_cons; split); [..|done]; intros dep Hd; cbn in Hd |- *; set_solver.
  - apply (Hf (λ t, NoDup (map dep_taskKey (deps_of t)))).
    apply (bool_decide_unpack _). vm_compute. exact I.
  - apply (Hf storable_task). repeat (apply Forall_cons; split); [..|done]; split; cbn; try done; try (by intros a [= <-]).
    by eexists.
  - by eexists.
Qed.

Lemma signed_resolvable : resolvable signed_plan ∅.
Proof.
  intros now. assert (E : is_ok (resolveSchedule now signed_plan {| ro_targetAtUtc := None; ro_frozenDueAt := ∅ |}) = true)
    by (vm_compute; reflexivity). destruct (resolveSchedule _ _ _) as [res|]; [by exists res|done].
Qed.

Lemma spec_roundtrip_witness : ∃ W s' j,
  createWorkflowFromSpec signed_input empty_st = (s', Ok W) ∧ reconstructSpec W s' = (s', Ok (Some j)) ∧
  canonicalize j = canonicalize (WorkflowSpec_json (persisted signed_input)).
Proof.
  apply (spec_roundtrip signed_input empty_st signed_storable signed_resolvable).
  - split; intros k _; apply not_elem_of_nil.
  - split; intros ? []%elem_of_nil.
Defined.
