(* ===== verification/Documents.v ===== *)
(** * The store as versioned documents

    The abstract specification of the draft half of [store.ts]: a workflow is a
    document with a version, and replacing its spec is a compare-and-set on the
    version.  [document] is the abstraction function: what [reconstructSpec]
    reads, with the row's status and lock version.  [draft_store_refines] shows
    that [updateWorkflowDraftSpec] on a draft implements [put], at one instant,
    whatever other sessions commit between its read and its transaction. *)

From S2P Require Import Prelude Json Time Spec Transitions Gates Store Hoare Evolution Ops Reconciler.
From S2P Require Import Validate Resolver Drafts Canonical Persisted Sample Engine PausedEdit Roundtrip.
Open Scope Z_scope.

(** ** The abstract store *)

Record Doc := { doc_status : WorkflowStatus; doc_version : Z; doc_text : string }.

(** The document after the call, and its new version if the call won. *)
Definition put (version : Z) (text : string) (doc : option Doc) : option Doc * option Z :=
  match doc with
  | Some x =>
      if editable (doc_status x) && (doc_version x =? version)
      then (Some {| doc_status := doc_status x; doc_version := version + 1; doc_text := text |}, Some (version + 1))
      else (doc, None)
  | None => (None, None)
  end.

Definition accepted (r : result exn UpdateDraftResult) : option Z :=
  match r with Ok u => if ur_ok u then ur_lockVersion u else None | Err _ => None end.

(** ** The abstraction function *)

Section documents.
Context `{Runtime, !UuidLaw, !JsonbLaw} `{DateEnv}.
Implicit Types d : DB.

Definition document (wf : string) (d : DB) : option Doc :=
  match first_where (λ w, wr_id w ≟ wf) (db_workflow d), (reconstructSpec wf {| st_db := d; st_draws := 0 |}).2 with
  | Some w, Ok (Some j) =>
      Some {| doc_status := wr_status w; doc_version := wr_lockVersion w; doc_text := canonicalize j |}
  | _, _ => None
  end.

(** The name and product an update stores, as the input of a creation. *)
Definition as_created (input : UpdateInput) : CreateInput := {|
  ci_spec := ui_spec input; ci_name := ui_name input ?? w_name (ui_spec input);
  ci_product := coalesce (ui_product input) (w_product (ui_spec input)); ci_status := None;
  ci_sourceTemplateId := None; ci_sourceTemplateVersion := None; ci_createdBy := None;
  ci_ownerLevel := None; ci_ownerId := None; ci_orgId := ""; ci_projectId := None |}.

Definition stored_text (input : UpdateInput) : string :=
  canonicalize (WorkflowSpec_json (persisted (as_created input))).

(** The keys and foreign keys of the tables. *)
Record tables_ok (d : DB) : Prop := {
  to_workflow : NoDup (map wr_id (db_workflow d));
  to_task_ids : NoDup (map tr_id (db_task d));
  to_dependency : ∀ e, e ∈ db_dependency d →
    ∃ t, t ∈ db_task d ∧ tr_id t = dp_taskId e ∧ tr_workflowId t = dp_workflowId e;
  to_approval : ∀ a, a ∈ db_approval d →
    ∃ t, t ∈ db_task d ∧ tr_id t = ap_taskId a ∧ tr_workflowId t = ap_workflowId a
}.

(** A draft has never run: its tasks have neither attempts nor artifacts. *)
Record no_evidence (wf : string) (d : DB) : Prop := {
  ne_attempt : ∀ t a, t ∈ db_task d → tr_workflowId t = wf → a ∈ db_attempt d → at_taskId a ≠ tr_id t;
  ne_artifact : ∀ t a, t ∈ db_task d → tr_workflowId t = wf → a ∈ db_artifact d → ar_taskId a ≠ tr_id t
}.

Lemma document_None wf d : first_where (λ w, wr_id w ≟ wf) (db_workflow d) = None → document wf d = None.
Proof. unfold document. by intros ->. Qed.

Lemma document_Some wf d w : first_where (λ w, wr_id w ≟ wf) (db_workflow d) = Some w →
  ∃ text, document wf d = Some {| doc_status := wr_status w; doc_version := wr_lockVersion w; doc_text := text |}.
Proof.
  intros E. unfold document, reconstructSpec, readWorkflow, select_workflow, mbind, M_bind, gets. cbn -[spec_of_rows].
  rewrite E. by eexists.
Qed.

(** A call that loses leaves the document. *)
Lemma put_refused wf d v text w : first_where (λ w, wr_id w ≟ wf) (db_workflow d) = Some w →
  editable (wr_status w) && (wr_lockVersion w =? v) = false → put v text (document wf d) = (document wf d, None).
Proof. intros E Hn. destruct (document_Some _ _ _ E) as [x ->]. cbn. by rewrite Hn. Qed.

(** ** Running the transaction *)

Lemma total_update_workflow p f (Q : list WorkflowRow → St → Prop) s :
  Q (map f (List.filter p (db_workflow (st_db s))))
    {| st_db := with_workflow (st_db s) (set_where p f (db_workflow (st_db s))); st_draws := st_draws s |} →
  total (update_workflow p f) Q s.
Proof. done. Qed.

Lemma total_modify f (Q : unit → St → Prop) s :
  Q () {| st_db := f (st_db s); st_draws := st_draws s |} → total (modify f) Q s.
Proof. done. Qed.

(** An update that keeps the ids, seen through the id. *)
Lemma first_set_where wf p f l w : (∀ x, wr_id (f x) = wr_id x) →
  first_where (λ w, wr_id w ≟ wf) l = Some w →
  first_where (λ w, wr_id w ≟ wf) (set_where p f l) = Some (if p w then f w else w).
Proof.
  intros Hf. unfold first_where. induction l as [|x l IH]; [done|]. rewrite set_where_cons. cbn [List.find].
  assert (E : wr_id (if p x then f x else x) = wr_id x) by by destruct (p x). rewrite E.
  destruct (wr_id x ≟ wf); [by intros [= ->]|done].
Qed.
(** The tables without the rows of a workflow. *)
Record cleared (wf : string) (d d' : DB) : Prop := {
  cl_workflow : db_workflow d' = db_workflow d;
  cl_unused : unused wf d';
  cl_task : map tr_id (db_task d') ⊆ map tr_id (db_task d);
  cl_dependency : map dp_id (db_dependency d') ⊆ map dp_id (db_dependency d);
  cl_approval : map ap_id (db_approval d') ⊆ map ap_id (db_approval d)
}.

Lemma map_filter_subset {R A} (f : R → A) p l : map f (List.filter p l) ⊆ map f l.
Proof.
  intros x (r & <- & [Hr _]%List.filter_In)%list_elem_of_In%in_map_iff. apply list_elem_of_In, in_map_iff. by exists r.
Qed.

(** The tasks that go and those that stay have different ids. *)
Lemma gone_ids wf d t : tables_ok d → t ∈ db_task d →
  tr_id t ∈ map tr_id (List.filter (λ t, tr_workflowId t ≟ wf) (db_task d)) ↔ tr_workflowId t = wf.
Proof.
  intros Hok Ht. rewrite list_elem_of_In, in_map_iff. split.
  - intros (u & E & [Hu Hw]%List.filter_In). apply list_elem_of_In in Hu. bprop.
    by rewrite (row_unique tr_id (db_task d) t u (to_task_ids _ Hok) Ht Hu).
  - intros E. exists t. split; [done|]. apply List.filter_In. split; [by apply list_elem_of_In|by apply bool_decide_true].
Qed.

Lemma total_clear wf s : tables_ok (st_db s) → no_evidence wf (st_db s) →
  total (delete_approval (λ a, ap_workflowId a ≟ wf)) (λ _, total (delete_task (λ t, tr_workflowId t ≟ wf))
    (λ _ s', cleared wf (st_db s) (st_db s') ∧ st_draws s' = st_draws s)) s.
Proof.
  intros Hok Hne. unfold delete_approval, delete_task. apply total_modify, total_guarded; cbn [st_db st_draws].
  - set (gone := map tr_id _). cbn [with_approval db_attempt db_artifact db_approval].
    assert (Hgone : ∀ i, i ∈ gone → ∃ t, t ∈ db_task (st_db s) ∧ tr_id t = i ∧ tr_workflowId t = wf).
    { intros i (t & <- & [Ht Hw]%List.filter_In)%list_elem_of_In%in_map_iff. apply list_elem_of_In in Ht. bprop. by exists t. }
    rewrite (existsb_false_in _ (db_attempt _)), (existsb_false_in _ (db_artifact _)), existsb_false_in; [done|..].
    + intros a Ha. apply list_elem_of_In, List.filter_In in Ha as [Ha Hw]. apply list_elem_of_In in Ha. bprop.
      apply bool_decide_false. intros (t & Ht & Et & Ew)%Hgone. apply Hw.
      destruct (to_approval _ Hok a Ha) as (u & Hu & Eu & <-).
      by rewrite (row_unique tr_id (db_task (st_db s)) u t (to_task_ids _ Hok) Hu Ht) by congruence.
    + intros a Ha. apply bool_decide_false. intros (t & Ht & Et & Ew)%Hgone. by apply (ne_artifact _ _ Hne t a).
    + intros a Ha. apply bool_decide_false. intros (t & Ht & Et & Ew)%Hgone. by apply (ne_attempt _ _ Hne t a).
  - split; [|done]. set (gone := map tr_id _).
    cbn [with_approval db_workflow db_task db_dependency db_gate db_event db_attempt db_lease db_artifact db_approval].
    split; cbn [db_workflow db_task db_dependency db_approval]; [done| | |apply map_filter_subset|apply map_filter_subset].
    2:{ rewrite set_where_ids by done. apply map_filter_subset. }
    split; cbn [db_task db_dependency db_approval].
    + intros r (x & <- & [Hx Hw]%List.filter_In)%list_elem_of_In%in_map_iff. bprop.
      by destruct (match td_parentTaskId (tr_def x) with Some i => _ | None => false end).
    + intros e He. apply list_elem_of_In, List.filter_In in He as [He Hk]. apply list_elem_of_In in He. bprop.
      destruct (to_dependency _ Hok e He) as (t & Ht & Et & Ew). rewrite <- Et, <- Ew in *.
      assert (Hn : tr_workflowId t ≠ wf) by (intros E; by apply (gone_ids wf _ t Hok Ht) in E).
      split; [done|]. rewrite set_where_ids by done. apply list_elem_of_fmap_2.
      apply list_elem_of_In, List.filter_In. split; [by apply list_elem_of_In|]. by rewrite bool_decide_false.
    + intros a Ha. apply list_elem_of_In, List.filter_In in Ha as [_ Hw]. by bprop.
Qed.
(** The row [w] of the workflow is at the expected version. *)
Lemma total_update_spec input w s :
  tables_ok (st_db s) → no_evidence (ui_workflowId input) (st_db s) → fresh_ids s → storable (ui_spec input) →
  resolvable (ui_spec input)
    (pinned_bars input (List.filter (λ t, tr_workflowId t ≟ ui_workflowId input) (db_task (st_db s)))) →
  first_where (λ w, wr_id w ≟ ui_workflowId input) (db_workflow (st_db s)) = Some w →
  editable (wr_status w) = true → wr_status w ≠ ws_paused → wr_lockVersion w = ui_expectedLockVersion input →
  total (update_spec input) (λ b s', b = true ∧ document (ui_workflowId input) (st_db s') =
    Some {| doc_status := wr_status w; doc_version := wr_lockVersion w + 1; doc_text := stored_text input |}) s.
Proof.
  intros Hok Hne Hf Hso Hres Hw Hed Hnp Hv. set (wf := ui_workflowId input) in *.
  unfold update_spec, select_workflow. fold wf. apply total_bind, total_gets. rewrite Hw.
  apply total_bind, total_draw, total_bind. destruct (so_target _ Hso) as [z Hz]. eapply total_lift; [exact Hz|].
  cbn [st_db st_draws]. apply total_bind, total_update_workflow. cbn [st_db st_draws].
  set (p := λ w, workflow_cas _ _ w && _). set (f := respecified _ _ _ _).
  destruct (first_where_in _ _ _ Hw) as [Hin Hid]. bprop.
  assert (Hp : p w = true) by (unfold p, workflow_cas; rewrite Hid, Hv, Hed, Z.eqb_refl, bool_decide_true by done; done).
  assert (Hhit : w ∈ List.filter p (db_workflow (st_db s))).
  { apply list_elem_of_In, List.filter_In. split; [by apply list_elem_of_In|done]. }
  assert (Hlen : (length (map f (List.filter p (db_workflow (st_db s)))) =? 0)%nat = false).
  { rewrite length_map. destruct (List.filter p _); [by apply elem_of_nil in Hhit|done]. }
  rewrite Hlen. apply total_bind, total_gets. cbn [st_db with_workflow db_task]. apply total_bind.
  rewrite bool_decide_false by done. apply total_bind. eapply total_conseq; [apply (total_clear wf)|].
  { destruct Hok. split; try done. cbn. by rewrite set_where_ids. }
  { destruct Hne. by split. }
  intros u s1 Hs1. apply total_bind. eapply total_conseq; [exact Hs1|]. cbn [st_db st_draws]. clear u s1 Hs1.
  intros _ [d' n] [Hcl Hn]. cbn [st_db st_draws] in Hcl, Hn. subst n.
  assert (Hw1 : first_where (λ w, wr_id w ≟ wf) (db_workflow d') = Some (f w)).
  { rewrite (cl_workflow _ _ _ Hcl). cbn. by rewrite (first_set_where wf p f _ w), Hp. }
  eapply total_conseq.
  - apply (total_insertSpecRows wf (ui_spec input)); cbn [st_db st_draws]; [done|exact Hres| |apply Hcl|..].
    + destruct (first_where_in _ _ _ Hw1) as [Hin1 Hid1]. by apply (existsb_true_in _ _ (f w)).
    + intros k Hk Hi. apply (cl_task _ _ _ Hcl) in Hi. apply (fr_task _ Hf k); [lia|done].
    + intros k Hk Hi. apply (cl_dependency _ _ _ Hcl) in Hi. apply (fr_dependency _ Hf k); [lia|done].
    + intros k Hk Hi. apply (cl_approval _ _ _ Hcl) in Hi. apply (fr_approval _ Hf k); [lia|done].
  - cbn. intros _ s' (resolved & m & rows & ess & apss & Hwn & E). split; [done|].
    unfold document. rewrite E. cbn [with_rows with_approval with_dependency with_task db_workflow]. rewrite Hw1.
    rewrite (read_rows wf (as_created input) resolved m rows ess apss Hwn (f w) d' _ Hw1 (cl_unused _ _ _ Hcl)) by done.
    cbn [snd]. cbn [f respecified wr_status wr_lockVersion]. do 2 f_equal; [by rewrite Hv|].
    by apply (spec_read wf (as_created input) resolved m rows ess apss Hso Hwn (f w)).
Qed.

(** A transaction whose compare-and-set cannot win. *)
Lemma update_spec_loses input s :
  storable (ui_spec input) →
  (∀ w, w ∈ db_workflow (st_db s) → wr_id w = ui_workflowId input →
    editable (wr_status w) && (wr_lockVersion w =? ui_expectedLockVersion input) = false) →
  total (update_spec input) (λ b s', b = false ∧ st_db s' = st_db s) s.
Proof.
  intros Hso Hn. unfold update_spec, select_workflow. apply total_bind, total_gets.
  destruct (first_where _ _) as [w|]; [|by apply total_ret].
  apply total_bind, total_draw, total_bind. destruct (so_target _ Hso) as [z Hz]. eapply total_lift; [exact Hz|].
  cbn [st_db st_draws]. apply total_bind, total_update_workflow. cbn [st_db st_draws].
  set (p := λ w, workflow_cas _ _ w && _).
  assert (Hp : ∀ w, w ∈ db_workflow (st_db s) → p w = false).
  { intros x Hx. unfold p, workflow_cas. destruct (decide (wr_id x = ui_workflowId input)) as [E|E].
    - rewrite bool_decide_true by done. specialize (Hn x Hx E). rewrite andb_comm in Hn. exact Hn.
    - by rewrite bool_decide_false. }
  rewrite filter_none by done. cbn [map length Nat.eqb]. apply total_ret. split; [done|].
  cbn [st_db]. rewrite set_where_id by done. by destruct (st_db s).
Qed.

(** The transaction against the document at its start. *)
Lemma update_tx_put input s :
  tables_ok (st_db s) → no_evidence (ui_workflowId input) (st_db s) → fresh_ids s → storable (ui_spec input) →
  resolvable (ui_spec input)
    (pinned_bars input (List.filter (λ t, tr_workflowId t ≟ ui_workflowId input) (db_task (st_db s)))) →
  (∀ x, document (ui_workflowId input) (st_db s) = Some x → doc_status x ≠ ws_paused) →
  total (update_spec input) (λ b s',
    (document (ui_workflowId input) (st_db s'), if b then Some (ui_expectedLockVersion input + 1) else None)
    = put (ui_expectedLockVersion input) (stored_text input) (document (ui_workflowId input) (st_db s))) s.
Proof.
  intros Hok Hne Hf Hso Hres Hnp. set (wf := ui_workflowId input) in *.
  destruct (first_where (λ w, wr_id w ≟ wf) (db_workflow (st_db s))) as [w|] eqn:Ew.
  - destruct (document_Some _ _ _ Ew) as [x Ex]. specialize (Hnp _ Ex). cbn in Hnp.
    destruct (editable (wr_status w) && (wr_lockVersion w =? ui_expectedLockVersion input)) eqn:Eg.
    + rewrite Ex. cbn [put doc_status doc_version]. rewrite Eg.
      pose proof Eg as [Ee Ev%Z.eqb_eq]%andb_true_iff.
      eapply total_conseq; [by apply (total_update_spec input w)|]. intros b s' [-> Hd]. fold wf in Hd.
      by rewrite Hd, Ev.
    + rewrite (put_refused _ _ _ _ _ Ew Eg). eapply total_conseq; [apply update_spec_loses; [done|]|].
      * intros y Hy Hid. destruct (first_where_in _ _ _ Ew) as [Hw Hwid]. bprop.
        by rewrite (row_unique wr_id (db_workflow (st_db s)) y w (to_workflow _ Hok) Hy Hw (eq_trans Hid (eq_sym Hwid))).
      * intros b s' [-> ->]. done.
  - rewrite (document_None _ _ Ew). eapply total_conseq; [apply update_spec_loses; [done|]|].
    + intros y Hy%list_elem_of_In Hid. apply (List.find_none _ _ Ew) in Hy. by bprop.
    + intros b s' [-> ->]. by rewrite (document_None _ _ Ew).
Qed.

(** C11: On a draft, [updateWorkflowDraftSpec] refines a compare-and-set on a
    versioned document.  Whatever other sessions commit between its read and its
    transaction, the call takes effect at one instant: seen through
    [reconstructSpec], the workflow before and after it, and what it returns, are
    those of [put] there.  A call that wins stores exactly the given spec and
    raises the version by one; a call that loses changes nothing. *)
Theorem draft_store_refines others input s s1
    (Hothers : others s = (s1, Ok ()))
    (Hok : tables_ok (st_db s1)) (Hne : no_evidence (ui_workflowId input) (st_db s1)) (Hf : fresh_ids s1)
    (Hso : storable (ui_spec input))
    (Hres : resolvable (ui_spec input)
      (pinned_bars input (List.filter (λ t, tr_workflowId t ≟ ui_workflowId input) (db_task (st_db s1)))))
    (Hnp : ∀ x, document (ui_workflowId input) (st_db s1) = Some x → doc_status x ≠ ws_paused) :
  let after := updateWorkflowDraftSpec others input s in
  ∃ at_, (at_ = s ∨ at_ = s1) ∧
    (document (ui_workflowId input) (st_db after.1), accepted after.2)
    = put (ui_expectedLockVersion input) (stored_text input) (document (ui_workflowId input) (st_db at_)).
Proof.
  cbn zeta. unfold updateWorkflowDraftSpec, select_workflow.
  pose proof (update_tx_put input s1 Hok Hne Hf Hso Hres Hnp) as Ht.
  unfold total in Ht. unfold mbind, M_bind, gets. cbn [fst].
  destruct (first_where _ _) as [w|] eqn:Ew.
  2:{ exists s. split; [by left|]. cbn. by rewrite (document_None _ _ Ew). }
  destruct (editable (wr_status w) && (wr_lockVersion w =? ui_expectedLockVersion input)) eqn:Eg.
  - apply andb_true_iff in Eg as [Ee Ev]. rewrite Ee, Ev. cbn [negb]. exists s1. split; [by right|].
    rewrite Hothers. unfold catch, transaction. destruct (update_spec input s1) as [s2 [b|e]]; [|done].
    rewrite <- Ht. by destruct b.
  - exists s. split; [by left|]. rewrite (put_refused _ _ _ _ _ Ew Eg).
    destruct (editable (wr_status w)); cbn [negb]; [|done]. cbn in Eg. by rewrite Eg.
Qed.
End documents.

(** ** A draft replaced by the signed-off release *)

Definition draft_db : DB := sample_db ws_draft [plain_task "t1" "manual" ts_idle] [] [].

Definition signed_update : UpdateInput := {|
  ui_workflowId := "w1"; ui_spec := signed_plan; ui_name := None; ui_product := None;
  ui_expectedLockVersion := 3; ui_excludeFromFreeze := [] |}.

Lemma draft_store_refines_witness :
  let after := updateWorkflowDraftSpec alone signed_update (sample_st draft_db) in
  accepted after.2 = Some 4 ∧
  ∃ at_, (at_ = sample_st draft_db ∨ at_ = sample_st draft_db) ∧
    (document "w1" (st_db after.1), accepted after.2)
    = put 3 (stored_text signed_update) (document "w1" (st_db at_)).
Proof.
  split; [vm_compute; reflexivity|].
  apply (draft_store_refines alone signed_update (sample_st draft_db) (sample_st draft_db)).
  - reflexivity.
  - split; [apply (bool_decide_unpack _); vm_compute; exact I..| |]; intros ? []%elem_of_nil.
  - split; intros ? ? _ _ []%elem_of_nil.
  - split; intros k _; [intros Hk%list_elem_of_singleton; discriminate Hk..|intros []%elem_of_nil|intros []%elem_of_nil].
  - exact signed_storable.
  - exact signed_resolvable.
  - intros x Hx. vm_compute in Hx. injection Hx as <-. discriminate.
Defined.
