(* ===== verification/Isolation.v ===== *)
(** * Edits touch one workflow

    [apart wf d d']: the tables differ at most in rows of the workflow [wf]; the
    log, the attempts, the artifacts and the templates do not differ at all.
    Creating a workflow and replacing the spec of one, drafts and paused
    workflows alike, keep every other workflow apart. *)

From S2P Require Import Prelude Json Time Spec Transitions Gates Store Hoare Evolution Ops Reconciler Engine Validate.
From S2P Require Import Resolver Drafts Sample Roundtrip Walk PausedEdit Documents.

(** The rows of the other workflows, in their order. *)
Definition rest {R} (workflowId : R → string) (wf : string) (l : list R) : list R :=
  List.filter (λ x, negb (workflowId x ≟ wf)) l.

Record apart (wf : string) (d d' : DB) : Prop := {
  pt_workflow : rest wr_id wf (db_workflow d') = rest wr_id wf (db_workflow d);
  pt_task : rest tr_workflowId wf (db_task d') = rest tr_workflowId wf (db_task d);
  pt_dependency : rest dp_workflowId wf (db_dependency d') = rest dp_workflowId wf (db_dependency d);
  pt_gate : rest gr_workflowId wf (db_gate d') = rest gr_workflowId wf (db_gate d);
  pt_lease : rest le_workflowId wf (db_lease d') = rest le_workflowId wf (db_lease d);
  pt_approval : rest ap_workflowId wf (db_approval d') = rest ap_workflowId wf (db_approval d);
  pt_event : db_event d' = db_event d;
  pt_attempt : db_attempt d' = db_attempt d;
  pt_artifact : db_artifact d' = db_artifact d;
  pt_template : db_template d' = db_template d
}.

(** Only rows of [wf] refer to the task [i]. *)
Record owned (wf : string) (d : DB) (i : string) : Prop := {
  ow_task : ∀ t, t ∈ db_task d → tr_id t = i → tr_workflowId t = wf;
  ow_parent : ∀ t, t ∈ db_task d → td_parentTaskId (tr_def t) = Some i → tr_workflowId t = wf;
  ow_dependency : ∀ e, e ∈ db_dependency d → dp_taskId e = i ∨ dp_dependsOnTaskId e = i → dp_workflowId e = wf;
  ow_gate : ∀ g, g ∈ db_gate d → gr_taskId g = i → gr_workflowId g = wf;
  ow_lease : ∀ l, l ∈ db_lease d → le_taskId l = i → le_workflowId l = wf
}.

(** No row of another workflow refers to a task of [wf]. *)
Definition closed (wf : string) (d : DB) : Prop :=
  ∀ t, t ∈ db_task d → tr_workflowId t = wf → owned wf d (tr_id t).

(** ** Rows of the other workflows *)

Section rest.
Context {R : Type} (workflowId : R → string) (wf : string).
Notation kept := (rest workflowId wf).

Lemma rest_in l x : x ∈ kept l ↔ x ∈ l ∧ workflowId x ≠ wf.
Proof. unfold rest. rewrite filter_in, negb_true_iff, bool_decide_eq_false. done. Qed.

Lemma rest_snoc l x : workflowId x = wf → kept (l ++ [x]) = kept l.
Proof.
  intros E. unfold rest. rewrite List.filter_app. cbn. by rewrite bool_decide_true, app_nil_r.
Qed.

Lemma rest_filter p l : (∀ x, x ∈ l → workflowId x ≠ wf → p x = true) → kept (List.filter p l) = kept l.
Proof.
  unfold rest. induction l as [|x l IH]; [done|]. intros Hp. cbn.
  rewrite <-IH by (intros y Hy; apply Hp; by right). destruct (workflowId x ≟ wf) eqn:E; cbn.
  - destruct (p x); cbn; [|done]. by rewrite E.
  - rewrite (Hp x) by (by left || by apply bool_decide_eq_false in E). cbn. by rewrite E.
Qed.

Lemma rest_set_where p f l :
  (∀ x, x ∈ l → p x = true → workflowId x = wf ∧ workflowId (f x) = wf) → kept (set_where p f l) = kept l.
Proof.
  unfold rest, set_where. induction l as [|x l IH]; [done|]. intros Hp. cbn.
  rewrite <-IH by (intros y Hy; apply Hp; by right). destruct (p x) eqn:E; [|done].
  destruct (Hp x) as [Hx Hf]; [by left|done|]. by rewrite !bool_decide_true.
Qed.

(** What the other workflows have is in both tables. *)
Lemma rest_mem l l' x : kept l' = kept l → x ∈ l' → workflowId x ≠ wf → x ∈ l.
Proof. intros E Hx Hn. assert (x ∈ kept l') as Hr by by apply rest_in. rewrite E in Hr. by apply rest_in in Hr as [? _]. Qed.
End rest.

Lemma apart_refl wf d : apart wf d d.
Proof. by split. Qed.

Lemma apart_trans wf d1 d2 d3 : apart wf d1 d2 → apart wf d2 d3 → apart wf d1 d3.
Proof. intros [] []. split; congruence. Qed.

(** A fact about the other workflows' rows holds after as before. *)
Lemma apart_task wf d d' t : apart wf d d' → t ∈ db_task d' → tr_workflowId t ≠ wf → t ∈ db_task d.
Proof. intros Ha. apply rest_mem, (pt_task _ _ _ Ha). Qed.

Lemma inserted_owned wf d d1 i :
  apart wf d d1 → has_task d1 i = false → ∀ t, t ∈ db_task d → tr_id t = i → tr_workflowId t = wf.
Proof.
  intros Ha Hf t Ht E. destruct (decide (tr_workflowId t = wf)) as [|Hn]; [done|].
  assert (t ∈ db_task d1) as H1 by (apply (rest_mem _ _ _ _ _ (eq_sym (pt_task _ _ _ Ha)) Ht Hn)).
  assert (has_task d1 i = true); [|congruence].
  apply existsb_exists. exists t. split; [by apply list_elem_of_In|by apply bool_decide_true].
Qed.

(** ** Statements *)

(** The tables of an edit of [wf] begun in [d0]: everything else is apart, the
    ids put so far are not those of other workflows' tasks, the workflow table is
    left alone; in a rebuild ([D]) the rows of [wf] have not run. *)
Record held (D : Prop) (wf : string) (d0 : DB) (ids : list string) (d : DB) : Prop := {
  hd_apart : apart wf d0 d;
  hd_workflow : db_workflow d = db_workflow d0;
  hd_ids : ∀ i t, i ∈ ids → t ∈ db_task d0 → tr_id t = i → tr_workflowId t = wf;
  hd_draft : D → draft_rows wf d
}.

Section statements.
Context (D : Prop) (wf : string) (d0 : DB).
Notation held := (held D wf d0).

Lemma held_insert_task ids r d : tr_workflowId r = wf → td_parentTaskId (tr_def r) = None → unstarted r →
  held ids d → wp (insert_new_task r) (λ _, held (tr_id r :: ids)) any_exn d.
Proof.
  intros Hw Hp Hu [Ha Hwf Hids Hd]. unfold insert_new_task. wps. split; [|done| |].
  - apply (apart_trans _ _ _ _ Ha). split; try done. cbn. by apply rest_snoc.
  - intros i t [->|Hi]%elem_of_cons; [|by apply Hids]. eapply (inserted_owned _ _ _ _ Ha).
    unfold task_insertable in *. by bprop.
  - intros HD. destruct (Hd HD) as [Ht Hap]. split; [|done]. cbn.
    intros t [Hin| ->%list_elem_of_singleton]%elem_of_app; [by apply Ht|done].
Qed.

Lemma held_set_parent ids i p d : i ∈ ids → held ids d → wp (set_parent i p) (λ _, held ids) any_exn d.
Proof.
  intros Hi [Ha Hwf Hids Hd]. unfold set_parent. wpr. split; [|done|done|].
  - apply (apart_trans _ _ _ _ Ha). split; try done. cbn. apply rest_set_where. intros t Ht E. bprop.
    assert (tr_workflowId t = wf) as Hw; [|done].
    destruct (decide (tr_workflowId t = wf)) as [|Hn]; [done|].
    eapply (Hids (tr_id t)); [by rewrite E| |done]. by eapply apart_task.
  - intros HD. destruct (Hd HD) as [Ht Hap]. split; [|done]. cbn. intros t (u & Hu & ->)%set_where_in.
    case_bool_decide; intros Hw; [|by apply Ht]. destruct (Ht u Hu Hw). by split.
Qed.

Lemma held_insert_edge ids e d : dp_workflowId e = wf → held ids d → wp (insert_dependency e) (λ _, held ids) any_exn d.
Proof.
  intros Hw [Ha Hwf Hids Hd]. unfold insert_dependency. wps. split; [|done|done|].
  - apply (apart_trans _ _ _ _ Ha). split; try done. cbn. by apply rest_snoc.
  - intros HD. by destruct (Hd HD).
Qed.

Lemma held_insert_approval ids a d : ap_workflowId a = wf → (D → unasked a) → held ids d →
  wp (insert_approval a) (λ _, held ids) any_exn d.
Proof.
  intros Hw Hu [Ha Hwf Hids Hd]. unfold insert_approval. wps. split; [|done|done|].
  - apply (apart_trans _ _ _ _ Ha). split; try done. cbn. by apply rest_snoc.
  - intros HD. destruct (Hd HD) as [Ht Hap]. split; [done|]. cbn.
    intros x [Hin| ->%list_elem_of_singleton]%elem_of_app; [by apply Hap|intros _; by apply Hu].
Qed.

(** Deleting tasks of [wf] that only [wf] refers to. *)
Lemma apart_delete p d : apart wf d0 d →
  (∀ t, t ∈ db_task d → p t = true → tr_workflowId t = wf ∧ owned wf d0 (tr_id t)) →
  wp (delete_task p) (λ _ d', apart wf d0 d' ∧ db_workflow d' = db_workflow d ∧ db_approval d' = db_approval d ∧
        db_task d' = set_where (λ t, match td_parentTaskId (tr_def t) with
                                     | Some i => bool_decide (i ∈ map tr_id (List.filter p (db_task d)))
                                     | None => false
                                     end) (task_parent None) (List.filter (λ t, negb (p t)) (db_task d))) any_exn d.
Proof.
  intros Ha Hp. unfold delete_task. wps. split; [|done]. apply (apart_trans _ _ _ _ Ha).
  assert (∀ i, i ∈ map tr_id (List.filter p (db_task d)) → owned wf d0 i) as Hown.
  { intros i (t & -> & Ht)%list_elem_of_fmap. apply filter_in in Ht as [Ht Hpt]. by apply Hp. }
  split; try done; cbn [db_task db_dependency db_gate db_lease].
  - rewrite rest_set_where.
    + apply rest_filter. intros t Ht Hn. apply negb_true_iff. destruct (p t) eqn:E; [|done].
      by destruct (Hp t Ht E).
    + intros t [Ht _]%filter_in E. destruct (td_parentTaskId (tr_def t)) as [i|] eqn:Ei; [|done]. bprop.
      assert (tr_workflowId t = wf); [|done]. destruct (decide (tr_workflowId t = wf)) as [|Hn]; [done|].
      eapply (ow_parent _ _ _ (Hown i E)); [|done]. by eapply apart_task.
  - apply rest_filter. intros e He Hn.
    assert (e ∈ db_dependency d0) as He0 by by eapply (rest_mem _ _ _ _ _ (pt_dependency _ _ _ Ha)).
    apply andb_true_iff. rewrite !negb_true_iff, !bool_decide_eq_false.
    split; intros Hi%Hown; apply Hn, (ow_dependency _ _ _ Hi e He0); auto.
  - apply rest_filter. intros g Hg Hn.
    assert (g ∈ db_gate d0) as Hg0 by by eapply (rest_mem _ _ _ _ _ (pt_gate _ _ _ Ha)).
    rewrite negb_true_iff, bool_decide_eq_false. intros Hi%Hown. by apply Hn, (ow_gate _ _ _ Hi g Hg0).
  - apply rest_filter. intros l Hl Hn.
    assert (l ∈ db_lease d0) as Hl0 by by eapply (rest_mem _ _ _ _ _ (pt_lease _ _ _ Ha)).
    rewrite negb_true_iff, bool_decide_eq_false. intros Hi%Hown. by apply Hn, (ow_lease _ _ _ Hi l Hl0).
Qed.

Lemma apart_unlink d : apart wf d0 d →
  apart wf d0 (with_dependency d (List.filter (λ e, negb (dp_workflowId e ≟ wf)) (db_dependency d))).
Proof.
  intros Ha. apply (apart_trans _ _ _ _ Ha). split; try done. cbn. apply rest_filter.
  intros e _ Hn. by rewrite bool_decide_false.
Qed.

Lemma apart_unask d : apart wf d0 d →
  apart wf d0 (with_approval d (List.filter (λ a, negb (ap_workflowId a ≟ wf)) (db_approval d))).
Proof.
  intros Ha. apply (apart_trans _ _ _ _ Ha). split; try done. cbn. apply rest_filter.
  intros e _ Hn. by rewrite bool_decide_false.
Qed.
End statements.

(** ** The two writers *)

Section writers.
Context `{Runtime} `{DateEnv}.

Lemma insertSpecRows_apart wf spec fz d : draft_rows wf d →
  wp (insertSpecRows wf spec fz)
    (λ _ d', apart wf d d' ∧ db_workflow d' = db_workflow d ∧ draft_rows wf d') any_exn d.
Proof.
  intros Hd. eapply wp_conseq.
  - apply (wp_insertSpecRows _ _ (held True wf d));
      [apply held_insert_task|apply held_set_parent|apply held_insert_edge| |].
    + intros ids a d1 Hw Hu. by apply held_insert_approval.
    + split; [apply apart_refl|done| |done]. by intros i t ?%elem_of_nil.
  - cbn. intros _ d' (ids & [Ha Hw _ Hr]). auto.
Qed.

Lemma diffApplySpecRows_apart wf spec fz d : closed wf d →
  wp (diffApplySpecRows wf spec fz) (λ _ d', apart wf d d' ∧ db_workflow d' = db_workflow d) any_exn d.
Proof.
  intros Hc. assert (∀ t, t ∈ os_tasks (old_state wf d) → owned wf d (tr_id t)) as Hold.
  { intros t [Ht Hw]%filter_in. bprop. by apply Hc. }
  eapply wp_conseq.
  - apply (wp_diffApplySpecRows _ _ (held False wf d));
      [apply held_insert_task|apply held_set_parent|apply held_insert_edge|..].
    + intros d1 []. split; [by apply apart_unlink|done..].
    + intros d1 []. split; [by apply apart_unask|done..].
    + intros t d1 Ht [Ha Hw Hids _]. eapply wp_conseq; [apply (apart_delete wf d)|]; [done| |].
      * intros u Hu E. bprop. rewrite E. split; [|by apply Hold].
        destruct (decide (tr_workflowId u = wf)) as [|Hn]; [done|].
        eapply (ow_task _ _ _ (Hold t Ht)); [|done]. by eapply apart_task.
      * cbn. intros _ d2 (Ha2 & Hw2 & _). split; [done|congruence|done|done].
    + intros ids e x v now d1 He Hi Hx [Ha Hw Hids _]. wpr. split; [|done| |done].
      * apply (apart_trans _ _ _ _ Ha). split; try done. cbn. apply rest_set_where. intros t Ht E. bprop.
        split; [|done]. destruct (decide (tr_workflowId t = wf)) as [|Hn]; [done|].
        eapply (ow_task _ _ _ (Hold e He)); [|done]. by eapply apart_task.
      * intros i t [->|Hin]%elem_of_cons; [|by apply Hids]. apply (ow_task _ _ _ (Hold e He)).
    + intros ids a d1 Hw. by apply held_insert_approval.
    + split; [apply apart_refl|done| |done]. by intros i t ?%elem_of_nil.
  - cbn. intros _ d' (ids & [Ha Hw _ _]). auto.
Qed.

(** The row [createWorkflowFromSpec] inserts. *)
Record opened (input : CreateInput) (w : WorkflowRow) : Prop := {
  op_status : wr_status w = ci_status input ?? ws_draft;
  op_lock : wr_lockVersion w = 0%Z;
  op_name : wd_name (wr_def w) = ci_name input;
  op_org : wd_orgId (wr_def w) = ci_orgId input;
  op_level : wd_ownerLevel (wr_def w) = ci_ownerLevel input;
  op_owner : wd_ownerId (wr_def w) = ci_ownerId input;
  op_project : wd_projectId (wr_def w) = ci_projectId input;
  op_creator : wd_createdBy (wr_def w) = ci_createdBy input;
  op_template : wd_sourceTemplateId (wr_def w) = ci_sourceTemplateId input;
  op_version : wd_sourceTemplateVersion (wr_def w) = ci_sourceTemplateVersion input
}.

(** What creating adds: one workflow whose tasks have not run. *)
Record added (input : CreateInput) (wf : string) (d d' : DB) : Prop := {
  ad_apart : apart wf d d';
  ad_new : wf ∉ map wr_id (db_workflow d);
  ad_row : ∃ w, db_workflow d' = db_workflow d ++ [w] ∧ wr_id w = wf ∧ opened input w;
  ad_rows : draft_rows wf d'
}.

Lemma new_draft_rows wf d l : fk_ok d → wf ∉ map wr_id (db_workflow d) → draft_rows wf (with_workflow d l).
Proof.
  intros Hfk Hn. split; cbn; [intros t Ht E|intros a Ha E]; exfalso; apply Hn; rewrite <-E;
    [by apply (fk_task _ Hfk)|by apply (fk_approval _ Hfk)].
Qed.

Lemma createWorkflowFromSpec_added input d : fk_ok d →
  wp (createWorkflowFromSpec input) (λ wf d', added input wf d d') (λ _ d', d' = d) d.
Proof.
  intros Hfk. unfold createWorkflowFromSpec. wp1. wp1. wp1. wp1. wp1. wp1. apply wp_transaction.
  wp1. wp1. wp1. wp1. wp1; [|done]. wp1. unfold insert_workflow. wp1; [|done].
  match goal with |- context [insertSpecRows ?i] => set (wf := i) in * end.
  match goal with |- context [db_workflow d ++ [?r]] => set (w := r) in * end.
  assert (wf ∉ map wr_id (db_workflow d)) as Hn.
  { intros (x & E & Hx)%list_elem_of_fmap. apply negb_true_iff in H1. unfold has_workflow in H1. cbn in H1.
    enough (existsb (λ y, wr_id y ≟ wf) (db_workflow d) = true) by congruence.
    apply existsb_exists. exists x. split; [by apply list_elem_of_In|by apply bool_decide_true]. }
  eapply wp_mono; [apply insertSpecRows_apart; by apply new_draft_rows| |done].
  cbn. intros _ d' (Ha & Hw & Hr). wps. split; [|done| |done].
  - eapply apart_trans; [|exact Ha]. split; try done. cbn. by apply rest_snoc.
  - exists w. by split_and!.
Qed.

(** What replacing the spec of [wf] does to the rest of the tables. *)
Lemma update_spec_apart input d : closed (ui_workflowId input) d →
  wp (update_spec input)
    (λ won d', if (won : bool)
       then apart (ui_workflowId input) d d' ∧
            ((∀ w, first_where (λ w, wr_id w ≟ ui_workflowId input) (db_workflow d) = Some w → wr_status w ≠ ws_paused) →
             draft_rows (ui_workflowId input) d')
       else d' = d) any_exn d.
Proof.
  intros Hc. unfold update_spec, select_workflow. set (wf := ui_workflowId input) in *.
  wp1. wp1. destruct (first_where _ _) as [w|] eqn:Ew; [|by wps].
  wp1. wp1. wp1. wp1. wp1; [|done]. wp1. apply wp_raw_workflow. fold (editable_at input).
  destruct (_ =? _)%nat eqn:El; [wps|].
  { apply length_map_0 in El. rewrite set_where_none by done. by destruct d. }
  match goal with |- context [with_workflow d ?l] => set (d1 := with_workflow d l) end.
  assert (apart wf d d1) as Ha1.
  { split; try done. apply rest_set_where. intros x _ E. unfold editable_at, workflow_cas in E. bprop. done. }
  assert (closed wf d1) as Hc1 by (intros t Ht Hw; destruct (Hc t Ht Hw); by split).
  wp1. wp1. wp1. destruct (wr_status w ≟ ws_paused) eqn:Ep.
  - eapply wp_conseq; [by apply diffApplySpecRows_apart|]. cbn. intros _ d' [Ha _]. wps.
    split; [by eapply apart_trans|]. intros Hnp. apply bool_decide_eq_true in Ep. by apply (Hnp w) in Ep.
  - wp1. unfold delete_approval. wp1. wp1. eapply wp_conseq.
    + apply (apart_delete wf d1); [by apply apart_unask, apart_refl|].
      intros t Ht E. bprop. split; [done|]. by apply Hc1.
    + cbn beta. intros _ d2 (Ha2 & Hw2 & Hap2 & Ht2). eapply wp_conseq.
      * apply insertSpecRows_apart. split.
        -- intros t Ht E. rewrite Ht2 in Ht. apply set_where_in in Ht as (u & Hu & ->).
           apply filter_in in Hu as [_ Hu]. exfalso.
           assert (tr_workflowId u = wf) as Eu by (by destruct (match td_parentTaskId (tr_def u) with Some _ => _ | None => _ end)).
           cbn in Hu. by rewrite bool_decide_true in Hu.
        -- intros x Hx E. rewrite Hap2 in Hx. apply filter_in in Hx as [_ Hx]. exfalso.
           by rewrite bool_decide_true in Hx.
      * cbn. intros _ d' (Ha & _ & Hr). wps. split; [|done]. eapply apart_trans; [exact Ha1|]. by eapply apart_trans.
Qed.
End writers.

(** ** Isolation *)

Section isolation.
Context `{Runtime} `{DateEnv}.

(** C21: An edit touches one workflow.  Creating a workflow adds one row with a
    new id and unstarted tasks, and replacing the spec of a workflow, draft or
    paused, whatever other sessions commit before its transaction, changes rows of
    that workflow only: the rows of every other workflow in every table, the log,
    the attempts, the artifacts and the templates are those the transaction found.
    An edit that throws changes nothing. *)
Theorem edit_isolated s :
  (∀ input, fk_ok (st_db s) →
     match createWorkflowFromSpec input s with
     | (s', Ok wf) => added input wf (st_db s) (st_db s')
     | (s', Err _) => st_db s' = st_db s
     end) ∧
  (∀ others s1 input, others s = (s1, Ok ()) → closed (ui_workflowId input) (st_db s1) →
     let '(s', r) := updateWorkflowDraftSpec others input s in
     st_db s' = st_db s ∨ apart (ui_workflowId input) (st_db s1) (st_db s')).
Proof.
  split.
  - intros input Hfk. pose proof (wp_run _ _ _ s (createWorkflowFromSpec_added input _ Hfk)) as Hc.
    by destruct (createWorkflowFromSpec input s) as [s' [wf|e]].
  - intros others s1 input Ho Hcl. rewrite (update_run _ _ _ _ Ho).
    destruct (first_where _ _) as [w|]; [|by left]. destruct (negb (editable _)); [by left|].
    destruct (negb (_ =? _)%Z); [by left|].
    pose proof (wp_run _ _ _ s1 (update_spec_apart input _ Hcl)) as Hu. unfold transaction.
    destruct (update_spec input s1) as [s' [[]|e]]; [right; apply Hu|right; rewrite Hu; apply apart_refl|].
    destruct e; right; apply apart_refl.
Qed.
End isolation.

(** The sample tables are closed. *)
Lemma ready_fk : fk_ok ready_db.
Proof.
  split.
  - intros t Ht. vm_compute in Ht. repeat (apply elem_of_cons in Ht as [->|Ht]; [left|]). by apply elem_of_nil in Ht.
  - intros e ->%list_elem_of_singleton. split; [left|right; left].
  - by intros a ?%elem_of_nil.
Qed.

Lemma ready_closed wf : closed wf ready_db.
Proof.
  assert (∀ t, t ∈ db_task ready_db → tr_workflowId t = "w1") as Hw.
  { intros t Ht. vm_compute in Ht. repeat (apply elem_of_cons in Ht as [->|Ht]; [reflexivity|]). by apply elem_of_nil in Ht. }
  intros t Ht <-. rewrite (Hw t Ht).
  split; [by auto|by auto|by intros e ->%list_elem_of_singleton _|by intros g ?%elem_of_nil|by intros l ?%elem_of_nil].
Qed.

Lemma edit_isolated_witness :
  let s := sample_st ready_db in
  fk_ok ready_db ∧ closed "w1" ready_db ∧
  (let '(s', r) := updateWorkflowDraftSpec alone signed_update s in
   st_db s' = ready_db ∨ apart "w1" ready_db (st_db s')) ∧
  (match createWorkflowFromSpec signed_input s with
   | (s', Ok wf) => added signed_input wf ready_db (st_db s')
   | (s', Err _) => st_db s' = ready_db
   end).
Proof.
  intros s. split; [apply ready_fk|]. split; [apply ready_closed|]. split.
  - apply (proj2 (edit_isolated s) alone s signed_update); [reflexivity|apply ready_closed].
  - apply (proj1 (edit_isolated s) signed_input ready_fk).
Defined.
