(* ===== verification/Tools.v ===== *)
(** * The tools offered to a model ([mcp/handlers.ts])

    An assistant proposes workflows through tools: it lists and reads templates,
    drafts, status and artifacts, validates and previews specs, and creates or
    edits drafts.  Each handler resolves the actor from the request, checks that
    the row is readable (or manageable), passes every spec through one gate
    ([materializeSpec]) and calls the store.  The gates of the host (project
    grants, agents, approvers, access to an installed extension, its dependency
    closure) are injected.

    An object a handler returns is a value of [tool_result]. *)

From S2P Require Import Prelude Json Time Spec Limits Tokens Validate Transitions Gates Store Hoare Ops Reconciler Resolver.
From S2P Require Import Drafts Access Approvals Edits Bpmn Manifest Templates.
Open Scope Z_scope.

(** ** The actor *)

(** [getActor] on the envelope of the transport. *)
Definition getActor (actor : json) : WorkflowActor :=
  let s := λ k, str_of (jprop k actor) in
  let arr := λ k, match jprop k actor with Some (JArr l) => Some (omap (λ v, str_of (Some v)) l) | _ => None end in {|
  wa_organizationId := s "orgId"; wa_userId := s "userId"; wa_teamIds := arr "teamIds";
  wa_projectIds := arr "projectIds"; wa_orgRole := s "orgRole"; wa_platformRole := s "platformRole" |}.

Record WorkflowHandlerDeps := {
  hd_assertProjectWritable : option (string → M unit);
  hd_assertProjectWriteAccess : option (WorkflowActor → string → M unit);
  hd_agentExists : option (AgentRef → string → M bool);
  hd_approverResolvable : option (ApprovalScope → string → M bool);
  hd_assertExtensionAccess : option (WorkflowActor → string → string → M unit);
  hd_assertDependencyClosure : option (WorkflowActor → string → M unit)
}.

Definition reauthorization (deps : WorkflowHandlerDeps) : InstallDeps :=
  {| id_agentExists := hd_agentExists deps; id_approverResolvable := hd_approverResolvable deps |}.

(** The package an installed template came from. *)
Definition templateSourcePackage (tmpl : TemplateRow) : option string :=
  truthy_str (wt_origin tmpl ≫= λ o, str_of (jprop "package" o)).

(** ** Results *)

Record ToolError := {
  te_error : string; te_code : option string; te_validation : option (list StructuredSpecError);
  te_missing : list string
}.

Definition tool_error (message : string) : ToolError :=
  {| te_error := message; te_code := None; te_validation := None; te_missing := [] |}.
Definition coded_error (message code : string) : ToolError :=
  {| te_error := message; te_code := Some code; te_validation := None; te_missing := [] |}.
Definition invalid_error (message : string) (errors : list StructuredSpecError) : ToolError :=
  {| te_error := message; te_code := None; te_validation := Some errors; te_missing := [] |}.

Record Handoff := { hf_workflowId : string; hf_deepLink : string; hf_renderHint : string }.

Definition DEEP_LINK (id : string) : string := "/workflows/" +:+ id.
Definition handoff (workflowId : string) : Handoff :=
  {| hf_workflowId := workflowId; hf_deepLink := DEEP_LINK workflowId; hf_renderHint := "gantt" |}.

Record Verdict := { vd_ok : bool; vd_errors : list StructuredSpecError }.
Definition verdict (r : ValidationResult) : Verdict := {| vd_ok := vr_ok r; vd_errors := vr_errors r |}.

Record TemplateEntry := { en_id : string; en_key : string; en_version : Z; en_name : string }.
Definition template_entry (t : TemplateRow) : TemplateEntry :=
  {| en_id := wt_id t; en_key := wt_key t; en_version := wt_version t; en_name := wt_name t |}.

Record WorkflowEntry := { we_id : string; we_name : string; we_status : string; we_targetAtUtc : option Z }.
Definition workflow_entry (w : WorkflowRow) : WorkflowEntry :=
  {| we_id := wr_id w; we_name := wd_name (wr_def w); we_status := WorkflowStatus_str (wr_status w);
     we_targetAtUtc := wd_targetAtUtc (wr_def w) |}.

Definition ALLOWED_METADATA_KEYS : list string :=
  ["foreach_materialization_error"; "foreach_has_failure"; "foreach_has_success"].

Definition pickPublicMetadata (meta : list (string * json)) : list (string * json) :=
  omap (λ k, (λ v, (k, v)) <$> jget k meta) ALLOWED_METADATA_KEYS.

Record PublicTask := {
  pd_id : string; pd_key : string; pd_type : string; pd_title : string; pd_status : string;
  pd_parentTaskId : option string; pd_plannedStartUtc : option Z; pd_plannedEndUtc : option Z;
  pd_actualStartUtc : option Z; pd_actualEndUtc : option Z; pd_dueAtUtc : option Z; pd_required : bool;
  pd_failurePolicy : option FailurePolicy; pd_missedWindowPolicy : option string; pd_pinned : bool;
  pd_risk : option string; pd_agentPackage : option string; pd_agentRef : option json; pd_input : option json;
  pd_schedule : option json; pd_anchor : option json; pd_metadata : list (string * json)
}.

Definition toPublicTaskDto (t : TaskRow) : PublicTask :=
  let d := tr_def t in {|
  pd_id := td_id d; pd_key := td_key d; pd_type := td_type d; pd_title := td_title d;
  pd_status := TaskStatus_str (tr_status t); pd_parentTaskId := td_parentTaskId d;
  pd_plannedStartUtc := td_plannedStartUtc d; pd_plannedEndUtc := td_plannedEndUtc d;
  pd_actualStartUtc := tr_actualStartUtc t; pd_actualEndUtc := tr_actualEndUtc t; pd_dueAtUtc := tr_dueAtUtc t;
  pd_required := td_required d; pd_failurePolicy := td_failurePolicy d;
  pd_missedWindowPolicy := td_missedWindowPolicy d; pd_pinned := td_pinned d; pd_risk := td_risk d;
  pd_agentPackage := td_agentPackage d; pd_agentRef := td_agentRef d; pd_input := td_input d;
  pd_schedule := td_schedule d; pd_anchor := td_anchor d; pd_metadata := pickPublicMetadata (tr_metadata t) |}.

Record StatusTask := {
  st_key : string; st_type : string; st_title : string; st_status : string; st_plannedStartUtc : option Z;
  st_plannedEndUtc : option Z; st_dueAtUtc : option Z; st_metadata : list (string * json)
}.

Record StatusSummary := {
  ss_id : string; ss_name : string; ss_status : string; ss_targetAtUtc : option Z; ss_lockVersion : Z;
  ss_tasks : list StatusTask
}.

Definition status_task (t : TaskRow) : StatusTask := {|
  st_key := tr_key t; st_type := tr_type t; st_title := td_title (tr_def t);
  st_status := TaskStatus_str (tr_status t); st_plannedStartUtc := td_plannedStartUtc (tr_def t);
  st_plannedEndUtc := td_plannedEndUtc (tr_def t); st_dueAtUtc := tr_dueAtUtc t;
  st_metadata := pickPublicMetadata (tr_metadata t) |}.

Definition statusSummary (result : ReadWorkflowResult) : StatusSummary :=
  let wf := rw_workflow result in {|
  ss_id := wr_id wf; ss_name := wd_name (wr_def wf); ss_status := WorkflowStatus_str (wr_status wf);
  ss_targetAtUtc := wd_targetAtUtc (wr_def wf); ss_lockVersion := wr_lockVersion wf;
  ss_tasks := map status_task (rw_tasks result) |}.

Inductive tool_result :=
  | res_error (e : ToolError)
  | res_templates (templates : list TemplateEntry)
  | res_template (entry : TemplateEntry) (placeholders metadata : json)
  | res_drafted (h : Handoff) (validation : Verdict)
  | res_updated (h : Handoff) (lockVersion : option Z) (validation : Verdict)
  | res_draft (h : Handoff) (workflow : WorkflowRow) (tasks : list PublicTask)
      (dependencies : list DependencyRow) (timeline : gmap string ResolvedTask)
  | res_workflows (workflows : list WorkflowEntry)
  | res_validated (template draft start : Verdict) (triggerLint : list TriggerLintFinding)
  | res_preview (h : option Handoff) (validation : Verdict) (timeline : gmap string ResolvedTask)
      (warnings : list ResolveWarning)
  | res_status (s : StatusSummary)
  | res_artifacts (artifacts : list ArtifactRow)
  | res_instantiated (h : Handoff) (sourceTemplateId : string) (sourceTemplateVersion : Z) (validation : Verdict)
  | res_cascade (h : Handoff) (targetAt : string) (cascade : list CascadeDiffEntry) (lockVersion : Z)
  | res_copied (h : Handoff) (copiedFrom : string)
  | res_saved (templateId key : string) (version : Z).

(** ** Placeholders *)

(** [v ?? undefined]: null counts as absent. *)
Definition nullish (v : option json) : option json := match v with Some JNull => None | _ => v end.

Fixpoint fillPlaceholders (inputs : list (string * json)) (value : json) : json :=
  match value with
  | JStr s =>
      JStr (replace_tokens placeholder_syntax
              (λ m name _, match jget name inputs with Some v => json_String v | None => m end) s)
  | JArr l => JArr (map (fillPlaceholders inputs) l)
  | JObj kvs => JObj (map (λ kv : string * json, let (k, v) := kv in (k, fillPlaceholders inputs v)) kvs)
  | _ => value
  end.

(** [supplied[name]] is undefined, null or blank; a name every object inherits is
    found without being supplied. *)
Definition unsupplied (supplied : list (string * json)) (name : string) : bool :=
  match jget name supplied with
  | Some JNull => true
  | Some (JStr s) => trim s ≟ ""
  | Some _ => false
  | None => negb (bool_decide (name ∈ object_prototype_keys))
  end.

(** [definition.placeholders ?? {}]. *)
Definition declared_placeholders (definition : json) : list (string * json) :=
  match nullish (jprop "placeholders" definition) with Some (JObj kvs) => kvs | _ => [] end.

Definition missing_placeholders (definition : json) (supplied : list (string * json)) : list string :=
  map fst (List.filter (λ kv : string * json, truthy (jprop "required" kv.2) && unsupplied supplied kv.1)
             (declared_placeholders definition)).

(** [{ ...raw, target: { at, tz } }]. *)
Definition set_target (raw : json) (at_ : option json) (tz : json) : json :=
  JObj (jset "target" (JObj (fld "at" at_ ++ [("tz", tz)])) (props raw)).

Definition old_target (raw : json) (k : string) : option json := nullish (jprop "target" raw ≫= jprop k).

(** ** Requests *)

Record InstantiateInput := {
  ii_templateId : string; ii_name : option string; ii_inputs : option (list (string * json));
  ii_targetAt : option string; ii_targetTz : option string; ii_projectId : option string
}.

Record DraftUpdateInput := {
  du_workflowId : string; du_spec : json; du_expectedLockVersion : option Z; du_name : option string
}.

Record SaveInput := {
  sv_workflowId : string; sv_key : string; sv_name : option string; sv_version : option Z
}.

(** The primitives of [createWorkflowPrimitiveHandlers], with the input fields
    each one reads. *)
Inductive tool_call :=
  | workflow_template_list
  | workflow_template_get (templateId : string)
  | workflow_draft_create (spec : json)
  | workflow_draft_update (input : DraftUpdateInput)
  | workflow_draft_get (workflowId : string)
  | workflow_draft_list (status : option string)
  | workflow_validate (spec : json)
  | workflow_preview (spec : json) (workflowId : option string)
  | workflow_status_get (workflowId : string)
  | workflow_artifacts_list (workflowId : string) (taskId : option string)
  | workflow_status_list (status projectId : option string)
  | workflow_template_instantiate (input : InstantiateInput)
  | workflow_cascade_preview (workflowId targetAt : string)
  | workflow_copy (sourceWorkflowId : string) (name targetAt : option string)
  | workflow_save_as_template (input : SaveInput).

Definition org_required : tool_result := res_error (tool_error "Active organization required.").
Definition user_required : tool_result := res_error (tool_error "Active organization + user required.").
Definition workflow_not_found : tool_result := res_error (coded_error "Workflow not found." "NOT_FOUND").
Definition source_not_found : tool_result := res_error (coded_error "Source workflow not found." "NOT_FOUND").
Definition template_not_found : tool_result := res_error (coded_error "Template not found." "NOT_FOUND").

Section handlers.
Context `{Runtime} `{DateEnv}.
Context (safeParse : json → result (list ZodIssue) WorkflowSpec) (others : M unit) (deps : WorkflowHandlerDeps).

(** ** The gate of every spec *)

Definition materializeSpec (rawSpec : json) : M (result (list StructuredSpecError) (WorkflowSpec * Verdict)) :=
  let tpl := validateTemplate safeParse rawSpec in
  match vr_ok tpl, vr_spec tpl with
  | true, Some spec =>
      match lintWorkflowSpecForTriggerBundling spec with
      | [] =>
          now ← new_Date;
          draft ← lift ex_range (validateDraft safeParse now (WorkflowSpec_json spec));
          mret (Ok (spec, verdict draft))
      | lint => mret (Err (map (λ l, spec_error (tl_code l) (tl_message l) (Some (tl_path l))) lint))
      end
  | _, _ => mret (Err (vr_errors tpl))
  end.

Definition reauthorizeReferences (spec : WorkflowSpec) (orgId : string) : M (option ToolError) :=
  agent ← missing_agent (reauthorization deps) orgId (w_tasks spec);
  match agent with
  | Some t => mret (Some (coded_error ("Agent for task " +:+ quoted (t_key t) +:+
                                       " is not available in this organization.") "AGENT_NOT_FOUND"))
  | None =>
      approver ← missing_approver (reauthorization deps) orgId (w_tasks spec);
      mret ((λ t, coded_error ("Approver scope for task " +:+ quoted (t_key t) +:+ " cannot be resolved.")
                    "APPROVER_UNRESOLVABLE") <$> approver)
  end.

(** The row the actor may read. *)
Definition readable_workflow (actor : WorkflowActor) (workflowId : string) : M (option ReadWorkflowResult) :=
  result ← readWorkflow workflowId;
  mret (match result with
        | Some r => if isReadable (workflow_scope (rw_workflow r)) actor then Some r else None
        | None => None
        end).

Definition readable_template (actor : WorkflowActor) (templateId : string) : M (option TemplateRow) :=
  tmpl ← readWorkflowTemplate templateId;
  mret (match tmpl with
        | Some t => if isReadable (template_scope t) actor then Some t else None
        | None => None
        end).

(** [try { await gate() } catch { ... }]: the refusal, if any. *)
Definition attempt (gate : M unit) (refusal : exn → tool_result) : M (option tool_result) :=
  catch (gate;; mret None) (λ e, mret (Some (refusal e))).

(** The access gate of a template that came from a package. *)
Definition extension_gate (actor : WorkflowActor) (tmpl : TemplateRow) (op : string) (refusal : exn → tool_result)
    : M (option tool_result) :=
  match templateSourcePackage tmpl, hd_assertExtensionAccess deps with
  | Some package, Some gate => attempt (gate actor package op) refusal
  | _, _ => mret None
  end.

(** A draft owned by the actor. *)
Definition draft_input (spec : WorkflowSpec) (name : string) (template : option (string * Z))
    (orgId userId : string) (projectId : option string) : CreateInput := {|
  ci_spec := spec; ci_name := name; ci_product := w_product spec; ci_status := Some ws_draft;
  ci_sourceTemplateId := fst <$> template; ci_sourceTemplateVersion := snd <$> template;
  ci_createdBy := Some userId; ci_ownerLevel := Some "user"; ci_ownerId := Some userId; ci_orgId := orgId;
  ci_projectId := projectId |}.

(** ** Templates *)

Fixpoint filterM {A} (f : A → M bool) (l : list A) : M (list A) :=
  match l with
  | [] => mret []
  | x :: r => b ← f x; k ← filterM f r; mret (if (b : bool) then x :: k else k)
  end.

Definition template_list (actor : WorkflowActor) : M tool_result :=
  match truthy_str (wa_organizationId actor) with
  | None => mret org_required
  | Some orgId =>
      rows ← listWorkflowTemplates orgId;
      listable ← filterM (λ t, r ← extension_gate actor t "list" (λ _, org_required); mret (negb (is_present r)))
                   (filterReadable template_scope rows actor);
      mret (res_templates (map template_entry listable))
  end.

Definition template_get (actor : WorkflowActor) (templateId : string) : M tool_result :=
  match truthy_str (wa_organizationId actor), truthy_str (Some templateId) with
  | None, _ => mret org_required
  | _, None => mret (res_error (tool_error "templateId is required."))
  | Some _, Some templateId =>
      tmpl ← readable_template actor templateId;
      match tmpl with
      | None => mret template_not_found
      | Some t =>
          refusal ← extension_gate actor t "read" (λ _, template_not_found);
          match refusal with
          | Some r => mret r
          | None =>
              mret (res_template (template_entry t)
                      (nullish (jprop "placeholders" (wt_definition t)) ?? JObj [])
                      (nullish (jprop "metadata" (wt_definition t)) ?? JObj []))
          end
      end
  end.

(** A project the workflow is tagged with needs the actor's write grant. *)
Definition project_gate (actor : WorkflowActor) (projectId : option string) : M (option tool_result) :=
  match truthy_str projectId, hd_assertProjectWriteAccess deps with
  | None, _ => mret None
  | Some _, None =>
      mret (Some (res_error (coded_error "Project scoping is not available." "PROJECT_SCOPE_UNAVAILABLE")))
  | Some p, Some gate => attempt (gate actor p) (λ e, res_error (coded_error (exn_message e) "FORBIDDEN"))
  end.

(** The gates between a readable template and its materialization, in order. *)
Definition instantiate_gates (actor : WorkflowActor) (tmpl : TemplateRow) (input : InstantiateInput)
    : M (option tool_result) :=
  access ← extension_gate actor tmpl "execute" (λ e, res_error (coded_error (exn_message e) "FORBIDDEN"));
  match access with
  | Some r => mret (Some r)
  | None =>
      closure ← match templateSourcePackage tmpl, hd_assertDependencyClosure deps with
                | Some package, Some gate =>
                    attempt (gate actor package) (λ e, res_error (coded_error (exn_message e) "DEPENDENCY_CLOSURE"))
                | _, _ => mret None
                end;
      match closure with
      | Some r => mret (Some r)
      | None => project_gate actor (ii_projectId input)
      end
  end.

Definition missing_error (missing : list string) : ToolError := {|
  te_error := "Required placeholder" +:+ (if (1 <? length missing)%nat then "s" else "") +:+ " missing: "
              +:+ join ", " missing +:+ ".";
  te_code := Some "placeholder_required"; te_validation := None; te_missing := missing |}.

(** The definition with its placeholders filled and its target set. *)
Definition filled (definition : json) (input : InstantiateInput) : json :=
  let raw := fillPlaceholders (ii_inputs input ?? []) definition in
  match truthy_str (ii_targetAt input), truthy_str (ii_targetTz input) with
  | None, None => raw
  | _, _ =>
      set_target raw (match ii_targetAt input with Some s => Some (JStr s) | None => old_target raw "at" end)
        (match ii_targetTz input with Some s => JStr s | None => old_target raw "tz" ?? JStr "UTC" end)
  end.

Definition template_instantiate (actor : WorkflowActor) (input : InstantiateInput) : M tool_result :=
  match truthy_str (wa_organizationId actor), truthy_str (wa_userId actor), truthy_str (Some (ii_templateId input)) with
  | Some orgId, Some userId, Some templateId =>
      tmpl ← readable_template actor templateId;
      match tmpl with
      | None => mret template_not_found
      | Some tmpl =>
          refusal ← instantiate_gates actor tmpl input;
          match refusal with
          | Some r => mret r
          | None =>
              match missing_placeholders (wt_definition tmpl) (ii_inputs input ?? []) with
              | [] =>
                  mat ← materializeSpec (filled (wt_definition tmpl) input);
                  match mat with
                  | Err errors => mret (res_error (invalid_error "Instantiated spec is invalid." errors))
                  | Ok (spec, draft) =>
                      reauth ← reauthorizeReferences spec orgId;
                      match reauth with
                      | Some e => mret (res_error e)
                      | None =>
                          workflowId ← createWorkflowFromSpec
                            (draft_input spec (ii_name input ?? w_name spec) (Some (wt_id tmpl, wt_version tmpl))
                               orgId userId (ii_projectId input));
                          mret (res_instantiated (handoff workflowId) (wt_id tmpl) (wt_version tmpl) draft)
                      end
                  end
              | missing => mret (res_error (missing_error missing))
              end
          end
      end
  | Some _, Some _, None => mret (res_error (tool_error "templateId is required."))
  | _, _, _ => mret user_required
  end.

Definition save_as_template (actor : WorkflowActor) (input : SaveInput) : M tool_result :=
  match truthy_str (wa_organizationId actor), truthy_str (wa_userId actor) with
  | Some orgId, Some userId =>
      if (sv_workflowId input ≟ "") || (sv_key input ≟ "") then
        mret (res_error (tool_error "workflowId and key are required."))
      else
        source ← readable_workflow actor (sv_workflowId input);
        match source with
        | None => mret workflow_not_found
        | Some source =>
            if negb (canManage (workflow_scope (rw_workflow source)) actor) then
              mret (res_error (coded_error "You cannot save this workflow as a template." "FORBIDDEN"))
            else
              reconstructed ← reconstructSpec (sv_workflowId input);
              match reconstructed with
              | None => mret workflow_not_found
              | Some reconstructed =>
                  mat ← materializeSpec reconstructed;
                  match mat with
                  | Err errors =>
                      mret (res_error (invalid_error "Cannot save an invalid workflow as a template." errors))
                  | Ok (spec, _) =>
                      rows ← listWorkflowTemplates orgId;
                      let existing := List.filter (λ t, wt_key t ≟ sv_key input) rows in
                      let version := sv_version input ?? (foldl (λ m t, Z.max m (wt_version t)) 0 existing + 1) in
                      tmpl ← createWorkflowTemplate {| ti_key := sv_key input; ti_version := version;
                        ti_name := sv_name input ?? wd_name (wr_def (rw_workflow source)); ti_description := None;
                        ti_definition := spec; ti_origin := None; ti_visibility := None; ti_packageName := None;
                        ti_createdBy := Some userId; ti_ownerLevel := Some "user"; ti_ownerId := Some userId;
                        ti_orgId := orgId; ti_projectId := None |};
                      mret (res_saved (wt_id tmpl) (wt_key tmpl) (wt_version tmpl))
                  end
              end
        end
  | _, _ => mret user_required
  end.

(** ** Drafts *)

Definition draft_create (actor : WorkflowActor) (rawSpec : json) : M tool_result :=
  match truthy_str (wa_organizationId actor), truthy_str (wa_userId actor) with
  | Some orgId, Some userId =>
      mat ← materializeSpec rawSpec;
      match mat with
      | Err errors => mret (res_error (invalid_error "Spec is invalid." errors))
      | Ok (spec, draft) =>
          workflowId ← createWorkflowFromSpec (draft_input spec (w_name spec) None orgId userId None);
          mret (res_drafted (handoff workflowId) draft)
      end
  | _, _ => mret user_required
  end.

Definition draft_update (actor : WorkflowActor) (input : DraftUpdateInput) : M tool_result :=
  match truthy_str (wa_organizationId actor), truthy_str (Some (du_workflowId input)), du_expectedLockVersion input with
  | None, _, _ => mret org_required
  | Some _, Some workflowId, Some expectedLockVersion =>
      existing ← readable_workflow actor workflowId;
      match existing with
      | None => mret workflow_not_found
      | Some existing =>
          let w := rw_workflow existing in
          if negb (canManage (workflow_scope w) actor) then
            mret (res_error (coded_error "You cannot edit this workflow." "FORBIDDEN"))
          else if negb (wr_status w ≟ ws_draft) then
            mret (res_error (coded_error
              "Only draft workflows can be edited from chat. Manage active workflows on the Gantt." "DRAFT_ONLY"))
          else
            mat ← materializeSpec (du_spec input);
            match mat with
            | Err errors => mret (res_error (invalid_error "Spec is invalid." errors))
            | Ok (spec, draft) =>
                match truthy_str (wd_projectId (wr_def w)), hd_assertProjectWritable deps with
                | Some p, Some gate => gate p
                | _, _ => mret ()
                end;;
                res ← updateWorkflowDraftSpec others {| ui_workflowId := workflowId; ui_spec := spec;
                  ui_name := du_name input; ui_product := None; ui_expectedLockVersion := expectedLockVersion;
                  ui_excludeFromFreeze := [] |};
                mret (if ur_ok res then res_updated (handoff workflowId) (ur_lockVersion res) draft
                      else res_error (coded_error ("Update failed (" +:+ (ur_reason res ?? "undefined") +:+ ").")
                                        (ur_reason res ?? "undefined")))
            end
      end
  | Some _, _, _ => mret (res_error (tool_error "workflowId and expectedLockVersion are required."))
  end.

(** [resolveSchedule] on the spec read back. *)
Definition stored_timeline (spec : option json) : M (gmap string ResolvedTask) :=
  match spec with
  | None => mret ∅
  | Some spec =>
      now ← new_Date;
      res ← lift ex_range (resolveSchedule now (spec_view spec) no_options);
      mret (rr_tasks res)
  end.

Definition draft_get (actor : WorkflowActor) (workflowId : string) : M tool_result :=
  match truthy_str (wa_organizationId actor), truthy_str (Some workflowId) with
  | None, _ => mret org_required
  | _, None => mret (res_error (tool_error "workflowId is required."))
  | Some _, Some workflowId =>
      result ← readable_workflow actor workflowId;
      match result with
      | None => mret workflow_not_found
      | Some r =>
          spec ← reconstructSpec workflowId;
          timeline ← stored_timeline spec;
          mret (res_draft (handoff (wr_id (rw_workflow r))) (rw_workflow r) (map toPublicTaskDto (rw_tasks r))
                  (rw_dependencies r) timeline)
      end
  end.

Definition draft_list (actor : WorkflowActor) (status projectId : option string) : M tool_result :=
  match truthy_str (wa_organizationId actor) with
  | None => mret org_required
  | Some orgId =>
      rows ← listWorkflows orgId status projectId;
      mret (res_workflows (map workflow_entry (filterReadable workflow_scope rows actor)))
  end.

Definition copy (actor : WorkflowActor) (sourceWorkflowId : string) (name targetAt : option string) : M tool_result :=
  match truthy_str (wa_organizationId actor), truthy_str (wa_userId actor), truthy_str (Some sourceWorkflowId) with
  | Some orgId, Some userId, Some sourceWorkflowId =>
      source ← readable_workflow actor sourceWorkflowId;
      match source with
      | None => mret source_not_found
      | Some source =>
          spec ← reconstructSpec sourceWorkflowId;
          match spec with
          | None => mret source_not_found
          | Some spec =>
              let spec := match truthy_str targetAt with
                          | Some at_ => set_target spec (Some (JStr at_)) (old_target spec "tz" ?? JStr "UTC")
                          | None => spec
                          end in
              mat ← materializeSpec spec;
              match mat with
              | Err errors => mret (res_error (invalid_error "Copied spec is invalid." errors))
              | Ok (spec, _) =>
                  workflowId ← createWorkflowFromSpec
                    (draft_input spec (name ?? (wd_name (wr_def (rw_workflow source)) +:+ " (copy)")) None
                       orgId userId None);
                  mret (res_copied (handoff workflowId) (wr_id (rw_workflow source)))
              end
          end
      end
  | Some _, Some _, None => mret (res_error (tool_error "sourceWorkflowId is required."))
  | _, _, _ => mret user_required
  end.

(** ** Previews and status *)

Definition validate (rawSpec : json) : M tool_result :=
  let tpl := validateTemplate safeParse rawSpec in
  let lint := match vr_ok tpl, vr_spec tpl with
              | true, Some spec => lintWorkflowSpecForTriggerBundling spec
              | _, _ => []
              end in
  now ← new_Date;
  draft ← lift ex_range (validateDraft safeParse now rawSpec);
  now' ← new_Date;
  start ← lift ex_range (validateStart safeParse now' rawSpec None);
  mret (res_validated (verdict tpl) (verdict draft) (verdict start) lint).

Definition preview (actor : WorkflowActor) (rawSpec : json) (workflowId : option string) : M tool_result :=
  let continue_ := λ (h : option Handoff) (raw : json),
    mat ← materializeSpec raw;
    match mat with
    | Err errors => mret (res_error (invalid_error "Spec is invalid." errors))
    | Ok (spec, draft) =>
        now ← new_Date;
        resolved ← lift ex_range (resolveSchedule now spec no_options);
        mret (res_preview h draft (rr_tasks resolved) (rr_warnings resolved))
    end in
  match truthy_str workflowId with
  | None => continue_ None rawSpec
  | Some workflowId =>
      match truthy_str (wa_organizationId actor) with
      | None => mret org_required
      | Some _ =>
          existing ← readable_workflow actor workflowId;
          match existing with
          | None => mret workflow_not_found
          | Some _ => spec ← reconstructSpec workflowId; continue_ (Some (handoff workflowId)) (spec ?? JNull)
          end
      end
  end.

Definition status_get (actor : WorkflowActor) (workflowId : string) : M tool_result :=
  match truthy_str (wa_organizationId actor), truthy_str (Some workflowId) with
  | None, _ => mret org_required
  | _, None => mret (res_error (tool_error "workflowId is required."))
  | Some _, Some workflowId =>
      result ← readable_workflow actor workflowId;
      mret (match result with None => workflow_not_found | Some r => res_status (statusSummary r) end)
  end.

Definition artifacts_list (actor : WorkflowActor) (workflowId : string) (taskId : option string) : M tool_result :=
  match truthy_str (wa_organizationId actor), truthy_str (Some workflowId) with
  | None, _ => mret org_required
  | _, None => mret (res_error (tool_error "workflowId is required."))
  | Some _, Some workflowId =>
      result ← readable_workflow actor workflowId;
      match result with
      | None => mret workflow_not_found
      | Some _ => rows ← listWorkflowArtifacts workflowId taskId; mret (res_artifacts rows)
      end
  end.

Definition cascade_preview (actor : WorkflowActor) (workflowId targetAt : string) : M tool_result :=
  match truthy_str (wa_organizationId actor) with
  | None => mret org_required
  | Some _ =>
      if (workflowId ≟ "") || (targetAt ≟ "") then
        mret (res_error (tool_error "workflowId and targetAt are required."))
      else
        existing ← readable_workflow actor workflowId;
        match existing with
        | None => mret workflow_not_found
        | Some existing =>
            spec ← reconstructSpec workflowId;
            match spec with
            | None => mret workflow_not_found
            | Some spec =>
                now ← new_Date; now' ← new_Date;
                cascade ← lift ex_range
                  (computeCascadeDiff now now' (spec_view spec) {| cc_targetAtUtc := Some targetAt |});
                mret (res_cascade (handoff workflowId) targetAt cascade (wr_lockVersion (rw_workflow existing)))
            end
        end
  end.

(** One call: the actor of the envelope and the handler of the primitive. *)
Definition run_tool (envelope : json) (call : tool_call) : M tool_result :=
  let actor := getActor envelope in
  match call with
  | workflow_template_list => template_list actor
  | workflow_template_get i => template_get actor i
  | workflow_draft_create spec => draft_create actor spec
  | workflow_draft_update input => draft_update actor input
  | workflow_draft_get i => draft_get actor i
  | workflow_draft_list status => draft_list actor status None
  | workflow_validate spec => validate spec
  | workflow_preview spec i => preview actor spec i
  | workflow_status_get i => status_get actor i
  | workflow_artifacts_list i taskId => artifacts_list actor i taskId
  | workflow_status_list status projectId => draft_list actor status projectId
  | workflow_template_instantiate input => template_instantiate actor input
  | workflow_cascade_preview i targetAt => cascade_preview actor i targetAt
  | workflow_copy i name targetAt => copy actor i name targetAt
  | workflow_save_as_template input => save_as_template actor input
  end.
End handlers.
