(* ===== verification/Safety.v ===== *)
(** * Safety of the engine under every interleaving

    [sys_step] has one transition per transaction (or lock-free update) of the
    engine and the lifecycle.  A claim stays outstanding until some later step
    records its outcome, a poll until some later step settles it, so executors
    that finish late, crash or answer twice are covered, as are heartbeats,
    pauses, cancellations and approval decisions in between.  A transition is
    one transaction: the advisory lock serializes the passes of a workflow, and the lock-free
    operations are single compare-and-set statements.

    Every reachable state satisfies the dispatch invariant, and the tables only
    ever evolve ([Evolution.evolves]). *)

From S2P Require Import Prelude Json Time Spec Limits Validate Transitions Gates Foreach Resolver Store Hoare Evolution.
From S2P Require Import Ops ForeachReconciler Reconciler Drafts Lifecycle Sample Engine Approvals Edits.
Open Scope Z_scope.

Section lifecycle_steps.
Context `{Runtime} `{DateEnv}.
Context (safeParse : json → result (list ZodIssue) WorkflowSpec).
Implicit Types d : DB.

(** The hooks of the host leave the engine's tables alone. *)
Definition quiet_deps (deps : LifecycleDeps) : Prop :=
  (∀ f, ld_cancelChildRun deps = Some f → ∀ r, quiet (f r)) ∧
  (∀ f, ld_notify deps = Some f → ∀ n, quiet (f n)) ∧
  (∀ f, ld_audit deps = Some f → ∀ e, quiet (f e)).

Definition quiet_start (opts : StartOptions) : Prop :=
  (∀ f, so_agentExists opts = Some f → ∀ a o, quiet (f a o)) ∧
  (∀ f, so_approverResolvable opts = Some f → ∀ a o, quiet (f a o)).

Lemma quiet_reconstructSpec i : quiet (reconstructSpec i).
Proof.
  intros s. unfold reconstructSpec, readWorkflow, select_workflow, mbind, M_bind, gets. cbn.
  by destruct (first_where _ _).
Qed.

Lemma wp_hook {A} (hook : option (A → M unit)) a (Q : unit → DB → Prop) (E : exn → DB → Prop) d :
  (∀ f, hook = Some f → ∀ x, quiet (f x)) → Q () d → (∀ e, E e d) → wp (call_hook hook a) Q E d.
Proof.
  intros Hq HQ HE. destruct hook as [f|]; cbn; [|by apply wp_ret].
  apply wp_quiet; [by apply Hq|by intros []|done].
Qed.

Lemma first_where_workflow d i w :
  first_where (λ w, wr_id w ≟ i) (db_workflow d) = Some w → w ∈ db_workflow d ∧ wr_id w = i.
Proof. intros [? Hid]%first_where_in. by bprop. Qed.

(** The three compare-and-set operations: [from] to [to], then the log entry. *)
Lemma wp_lifecycle_set w p s at_ (rest : list WorkflowRow → M unit) d Q :
  inv d → w ∈ db_workflow d →
  (∀ x, p x = true → workflow_cas (wr_id w) (wr_lockVersion w) x = true) →
  canTransition k_workflow (WorkflowStatus_str (wr_status w)) (WorkflowStatus_str s) = true →
  (∀ l d', step d d' → wp (rest l) Q (λ _ d', step d d') d') →
  wp (l ← update_workflow p (workflow_set s (wr_lockVersion w + 1) at_); rest l) Q (λ _ d', step d d') d.
Proof. intros Hi Hw Hp Ht Hr. wp1. apply (wp_workflow_cas w _ _ _ d); auto using step_refl. Qed.

(** What follows a won compare-and-set: the log entry and the hooks. *)
Lemma wp_after_set wf kind actor deps n e d0 d (r : LifecycleResult) :
  quiet_deps deps → step d0 d →
  wp (lifecycle_event wf kind "lifecycle" None None actor None;;
      call_hook (ld_notify deps) n;; call_hook (ld_audit deps) e;; mret r)
    (λ _ d', step d0 d') (λ _ d', step d0 d') d.
Proof.
  intros (_ & Hn & Ha) Hs.
  assert (Hside : ∀ d', side d d' → step d0 d') by (intros d' Hd; eapply step_trans; [exact Hs|apply Hd]).
  wp1. apply effect_lifecycle_event; [apply Hs| |auto]. intros _ d' Hd. apply Hside in Hd.
  wp1. apply wp_hook; [exact Hn| |done]. wp1. apply wp_hook; [exact Ha| |done]. by wp1.
Qed.

Lemma cas_and (w x : WorkflowRow) b :
  workflow_cas (wr_id w) (wr_lockVersion w) x && b = true → workflow_cas (wr_id w) (wr_lockVersion w) x = true.
Proof. by intros [? _]%andb_true_iff. Qed.

Lemma wp_pause wf deps d :
  inv d → quiet_deps deps →
  wp (pauseWorkflow wf deps) (λ _ d', step d d') (λ _ d', step d d') d.
Proof.
  intros Hi Hq. assert (Hkeep : step d d) by by apply step_refl.
  unfold pauseWorkflow, select_workflow. wp1. wp1.
  destruct (first_where _ _) as [w|] eqn:Ew; [|by wps]. apply first_where_workflow in Ew as [Hw <-].
  destruct (negb _) eqn:Es; [by wps|]. bprop. wp1. wp1. wp1; [|exact Hkeep]. wp1. wp1. wp1.
  apply (wp_workflow_cas w _ _ _ d); try done; [by intros x ?%cas_and|by rewrite Es|]. intros l d' Hs.
  destruct (_ =? _)%nat; [by wps|]. by apply wp_after_set.
Qed.

Lemma wp_resume wf deps d :
  inv d → quiet_deps deps →
  wp (resumeWorkflow wf deps) (λ _ d', step d d') (λ _ d', step d d') d.
Proof.
  intros Hi Hq. assert (Hkeep : step d d) by by apply step_refl.
  unfold resumeWorkflow, select_workflow. wp1. wp1.
  destruct (first_where _ _) as [w|] eqn:Ew; [|by wps]. apply first_where_workflow in Ew as [Hw <-].
  destruct (negb _) eqn:Es; [by wps|]. bprop. wp1. wp1. wp1; [|exact Hkeep]. wp1. wp1. wp1.
  apply (wp_workflow_cas w _ _ _ d); try done; [by intros x ?%cas_and|by rewrite Es|]. intros l d' Hs.
  destruct (_ =? _)%nat; [by wps|]. by apply wp_after_set.
Qed.

Lemma wp_first_refusal f (l : list json) d :
  (∀ t, wp (f t) (λ _ d', d' = d) (λ _ d', d' = d) d) →
  wp (first_refusal f l) (λ _ d', d' = d) (λ _ d', d' = d) d.
Proof.
  intros Hf. induction l as [|t l IH]; [by apply wp_ret|]. cbn. wp1. eapply wp_conseq; [apply Hf|].
  intros [e|] d' ->; [by wps|exact IH].
Qed.

Lemma wp_start_check w opts d :
  quiet_start opts →
  wp (start_check safeParse w opts) (λ _ d', d' = d) (λ _ d', d' = d) d.
Proof.
  intros (Ha & Hp). unfold start_check. destruct (so_skipStartValid opts); [by wps|].
  wp1. apply wp_quiet; [apply quiet_reconstructSpec| |done]. intros [spec|]; [|by wps]. wp1. wp1. wp1. wp1. wp1; [|done].
  destruct (negb _); [by wps|]. destruct (_ || _); [|by wps]. apply wp_first_refusal. intros t.
  unfold reauthorize. wp1. apply (wp_conseq _ (λ _ d', d' = d)).
  { destruct (so_agentExists opts) as [f|]; [|by wps]. destruct (_ ≟ _); [|by wps]. apply wp_quiet; auto. }
  intros ok d' ->. destruct (negb ok); [by wps|]. wp1. apply (wp_conseq _ (λ _ d', d' = d)).
  { destruct (so_approverResolvable opts) as [f|]; [|by wps]. destruct (_ ≟ _); [|by wps]. apply wp_quiet; auto. }
  intros ok' d' ->. destruct (negb ok'); by wps.
Qed.

Lemma wp_start wf opts d :
  inv d → quiet_start opts →
  wp (startWorkflow safeParse wf opts) (λ _ d', step d d') (λ _ d', step d d') d.
Proof.
  intros Hi Hq. assert (Hkeep : step d d) by by apply step_refl.
  unfold startWorkflow, select_workflow. wp1. wp1.
  destruct (first_where _ _) as [w|] eqn:Ew; [|by wps]. apply first_where_workflow in Ew as [Hw <-].
  destruct (negb _) eqn:Es; [by wps|]. bprop. wp1.
  eapply wp_mono; [by apply wp_start_check| |intros e d' ->; done]. intros [e|] d' ->; [by wps|].
  wp1. wp1. wp1. apply (wp_workflow_cas w _ _ _ d); try done; [by intros x ?%cas_and|by rewrite Es|]. intros l d' Hs.
  destruct (_ =? _)%nat; [by wps|]. wp1.
  apply effect_lifecycle_event; [apply Hs| |]; intros ? d'' Hs'; wps; (eapply step_trans; [exact Hs|apply Hs']).
Qed.

Lemma effect_invalidate_pending wf d : inv d → effect (invalidate_pending_approvals wf) d.
Proof. intros. unfold invalidate_pending_approvals. eff. Qed.

Lemma wp_cancel_tx wf actor d :
  inv d → wp (cancel_tx wf actor) (λ _ d', step d d') (λ _ d', d' = d) d.
Proof.
  intros Hi. assert (Hkeep : step d d) by by apply step_refl.
  unfold cancel_tx, select_workflow, running_child_runs. apply wp_transaction. wp1. wp1.
  destruct (first_where _ _) as [w|] eqn:Ew; [|by wps]. apply first_where_workflow in Ew as [Hw <-].
  destruct (_ && _) eqn:Es; [by wps|]. wp1. wp1. wp1; [|done]. wp1. wp1. wp1.
  assert (Ht : canTransition k_workflow (WorkflowStatus_str (wr_status w)) (WorkflowStatus_str ws_cancelled) = true).
  { apply andb_false_iff in Es as [Es|Es]; bprop; by rewrite Es. }
  apply (wp_workflow_cas w _ _ _ d); try done; [by intros x ?%cas_and|]. intros l d1 Hs1.
  destruct (_ =? _)%nat; [by wps|]. do 5 wp1. apply wp_cancel_open; [apply Hs1|]. intros d2 Hs2.
  wp1. apply effect_invalidate_pending; [apply Hs2| |by intros]. intros _ d3 Hs3.
  wp1. apply effect_delete_lease; [apply Hs3| |by intros]. intros _ d4 Hs4.
  wp1. apply effect_lifecycle_event; [apply Hs4| |by intros]. intros _ d5 Hs5. wps.
  eapply step_trans; [exact Hs1|]. eapply step_trans; [exact Hs2|].
  eapply step_trans; [apply Hs3|]. eapply step_trans; [apply Hs4|apply Hs5].
Qed.

Lemma wp_cancel wf deps d :
  inv d → quiet_deps deps →
  wp (cancelWorkflow wf deps) (λ _ d', step d d') (λ _ d', step d d') d.
Proof.
  intros Hi (Hc & Hn & Ha). unfold cancelWorkflow. wp1.
  eapply wp_mono; [by apply wp_cancel_tx| |intros e d' ->; by apply step_refl]. intros [r runs] d' Hs. wp1.
  apply (wp_conseq _ (λ _ d', step d d')); [|intros; by wps]. wp1; [|done]. wp1.
  unfold cleanup_runs. apply (wp_conseq _ (λ _ d', step d d')).
  { destruct (ld_cancelChildRun deps) as [f|] eqn:Ef; [|by wps].
    apply (wp_for_each _ (λ _ d', step d d')); [done|]. intros run l d1 Hs1.
    unfold best_effort. apply wp_catch, wp_quiet; [by apply (Hc f)|done|intros e; by wps]. }
  intros _ d1 Hs1. wp1. apply wp_hook; [exact Hn| |done]. by apply wp_hook.
Qed.

Lemma wp_complete_manual taskId actor d :
  inv d → wp (complete_manual taskId actor) (λ _ d', step d d') (λ _ d', step d d') d.
Proof.
  intros Hi. assert (Hkeep : step d d) by by apply step_refl. unfold complete_manual. wp1. wp1.
  destruct (first_where _ _) as [t|] eqn:Et; [|by wps]. apply first_where_in in Et as [Ht Hid]. bprop. subst taskId.
  destruct (negb _); [by wps|]. destruct (negb (_ ≟ ts_running)) eqn:Er; [by wps|]. bprop. do 5 wp1.
  apply wp_cas_row; auto using running_not_terminal; try (by intros [|]). intros d1 Hs1 _ _.
  destruct (_ =? _)%nat; [by wps|]. wp1.
  apply effect_lifecycle_event; [apply Hs1| |]; intros ? d'' Hs'; wps; (eapply step_trans; [exact Hs1|apply Hs']).
Qed.

(** ** Decisions and the status endpoint of the store *)

Lemma wp_decide_tx input policy d :
  inv d → wp (decide_tx input policy) (λ _ d', step d d') (λ _ d', step d d') d.
Proof.
  intros Hi. unfold decide_tx. apply wp_transaction. wp1. wp1. wp1. wp1. wp1.
  apply effect_update_approval; [done| |by intros; apply step_refl].
  intros rows d' Hs. unfold readApprovalById. destruct rows as [|row rows]; wps; apply Hs.
Qed.

Lemma wp_persistResolvedApprovers i users d :
  inv d → wp (persistResolvedApprovers i users) (λ _ d', step d d') (λ _ d', step d d') d.
Proof.
  intros Hi. unfold persistResolvedApprovers. wp1. wp1. wp1.
  apply effect_update_approval; [done|..]; intros ? d' Hs; wps; apply Hs.
Qed.

(** What other sessions commit in between are steps too. *)
Definition stepping (others : M unit) : Prop :=
  ∀ d, inv d → wp others (λ _ d', step d d') (λ _ d', step d d') d.

Lemma wp_updateWorkflowStatusCas others wf status v d :
  inv d → stepping others →
  wp (updateWorkflowStatusCas others wf status v) (λ _ d', step d d') (λ _ d', step d d') d.
Proof.
  intros Hi Ho. assert (Hkeep : step d d) by by apply step_refl.
  unfold updateWorkflowStatusCas, select_workflow. wp1. wp1.
  destruct (first_where _ _) as [w|] eqn:Ew; [|by wps]. apply first_where_workflow in Ew as [Hw <-].
  destruct (negb _) eqn:Ev; [by wps|]. bprop. subst v. wp1. wp1. wp1; [|exact Hkeep]. unfold assertTransition in Heqr.
  destruct (canTransition k_workflow _ _) eqn:Et; [|done]. wp1. eapply wp_conseq; [by apply Ho|].
  cbn. intros _ d' Hs. wp1. wp1. wp1. apply (wp_workflow_cas w _ _ _ d); try done. intros l d'' Hs'. wps.
  by eapply step_trans.
Qed.
End lifecycle_steps.

(** ** The system *)

Section system.
Context `{Runtime} `{DateEnv}.
Context (safeParse : json → result (list ZodIssue) WorkflowSpec).

(** The tables, the claims whose outcome may still be recorded and the polled
    runs that may still be settled. *)
Record Sys := { sy_st : St; sy_claims : list ClaimedTask; sy_polled : list Polled }.

Inductive operation :=
  | op_claim (wf : string) (now : Z)
  | op_record (wf : string) (results : list (ClaimedTask * ExecutorOutcome)) (now : Z)
      (prov : WorkflowExecutionActor)
  | op_heartbeat (taskId token : string)
  | op_poll (wf : string) (getChildRunStatus : string → M (option ChildRunStatus))
  | op_settle (wf : string) (now : Z) (polled : list Polled)
  | op_foreach (wf : string)
  | op_reject (wf : string)
  | op_invalidate (wf : string) (now : Z)
  | op_solicit (wf : string) (now : Z)
  | op_finalize (wf : string)
  | op_start (wf : string) (opts : StartOptions)
  | op_pause (wf : string) (deps : LifecycleDeps)
  | op_resume (wf : string) (deps : LifecycleDeps)
  | op_cancel (wf : string) (deps : LifecycleDeps)
  | op_manual (taskId : string) (actor : option string)
  | op_decide (input : DecideInput) (policy : RejectionPolicy)
  | op_approvers (approvalId : string) (userIds : list string)
  | op_status (others : M unit) (wf : string) (status : WorkflowStatus) (lockVersion : Z).

(** Outcomes are recorded for outstanding claims, with any content and any
    number of times; host hooks do not write the engine's tables.  A decision
    runs with any policy read before its transaction. *)
Definition allowed (op : operation) (S : Sys) : Prop :=
  match op with
  | op_record _ results _ _ => ∀ r, r ∈ results → r.1 ∈ sy_claims S
  | op_poll _ f => ∀ c, quiet (f c)
  | op_settle _ _ polled => polled ⊆ sy_polled S
  | op_start _ opts => quiet_start opts
  | op_pause _ deps | op_resume _ deps | op_cancel _ deps => quiet_deps deps
  | op_status others _ _ _ => stepping others
  | _ => True
  end.

Definition result_list {A B} (f : A → list B) (r : result exn A) : list B :=
  match r with Ok a => f a | Err _ => [] end.

Definition run_in {A} (S : Sys) (m : M A) : Sys :=
  {| sy_st := (m (sy_st S)).1; sy_claims := sy_claims S; sy_polled := sy_polled S |}.

Definition run_op (op : operation) (S : Sys) : Sys :=
  match op with
  | op_claim wf now =>
      let r := claimReadyTasks wf now (sy_st S) in
      {| sy_st := r.1; sy_claims := result_list cm_claimed r.2 ++ sy_claims S; sy_polled := sy_polled S |}
  | op_poll wf f =>
      let r := poll_read wf f (sy_st S) in
      {| sy_st := r.1; sy_claims := sy_claims S; sy_polled := result_list (λ l, l) r.2 ++ sy_polled S |}
  | op_record wf results now prov => run_in S (recordOutcomes wf results now prov)
  | op_heartbeat taskId token => run_in S (dispatchLeaseHeartbeat taskId token)
  | op_settle wf now polled => run_in S (poll_settle wf now polled)
  | op_foreach wf => run_in S (reconcileForeachParents wf)
  | op_reject wf => run_in S (applyRejectedApprovalPolicies wf)
  | op_invalidate wf now => run_in S (invalidateStaleApprovals wf now)
  | op_solicit wf now => run_in S (solicitApprovals wf now)
  | op_finalize wf => run_in S (finalizeWorkflow wf)
  | op_start wf opts => run_in S (startWorkflow safeParse wf opts)
  | op_pause wf deps => run_in S (pauseWorkflow wf deps)
  | op_resume wf deps => run_in S (resumeWorkflow wf deps)
  | op_cancel wf deps => run_in S (cancelWorkflow wf deps)
  | op_manual taskId actor => run_in S (complete_manual taskId actor)
  | op_decide input policy => run_in S (decide_tx input policy)
  | op_approvers approvalId userIds => run_in S (persistResolvedApprovers approvalId userIds)
  | op_status others wf status lockVersion => run_in S (updateWorkflowStatusCas others wf status lockVersion)
  end.

Inductive sys_step (S : Sys) : Sys → Prop :=
  | sys_op op : allowed op S → sys_step S (run_op op S).

Definition sy_db (S : Sys) : DB := st_db (sy_st S).

Record sys_ok (S : Sys) : Prop := {
  ok_inv : inv (sy_db S);
  ok_claims : ∀ c, c ∈ sy_claims S → claim_ok (sy_db S) c;
  ok_polled : ∀ p, p ∈ sy_polled S → polled_ok (sy_db S) p
}.

Lemma sys_ok_step S st' claims polled :
  sys_ok S → step (sy_db S) (st_db st') →
  (∀ c, c ∈ claims → claim_ok (st_db st') c) → (∀ p, p ∈ polled → polled_ok (st_db st') p) →
  sys_ok {| sy_st := st'; sy_claims := claims ++ sy_claims S; sy_polled := polled ++ sy_polled S |}.
Proof.
  intros [Hi Hc Hp] [He Hi'] Hcs Hps. split; [done|..].
  - intros c [?|Hin]%elem_of_app; [auto|]. by eapply claim_ok_evolves, Hc.
  - intros p [?|Hin]%elem_of_app; [auto|]. by eapply polled_ok_evolves, Hp.
Qed.

(** A pass proved by [wp] is a step of the system. *)
Lemma run_in_ok {A} S (m : M A) (E : exn → DB → Prop) :
  sys_ok S → wp m (λ _ d', step (sy_db S) d') E (sy_db S) → (∀ e d', E e d' → step (sy_db S) d') →
  step (sy_db S) (sy_db (run_in S m)) ∧ sys_ok (run_in S m).
Proof.
  intros Hok Hwp HE. apply wp_run in Hwp.
  assert (Hs : step (sy_db S) (sy_db (run_in S m))).
  { unfold sy_db at 2, run_in; cbn. destruct (m (sy_st S)) as [s' [a|e]]; cbn; [exact Hwp|by apply (HE e)]. }
  split; [done|]. by apply (sys_ok_step S _ [] []); [| |intros ? ?%elem_of_nil..].
Qed.

Lemma run_op_ok op S :
  sys_ok S → allowed op S → step (sy_db S) (sy_db (run_op op S)) ∧ sys_ok (run_op op S).
Proof.
  intros Hok Ha. assert (Hi : inv (sy_db S)) by apply Hok.
  assert (Hsame : ∀ (e : exn) d', d' = sy_db S → step (sy_db S) d') by (intros e d' ->; by apply step_refl).
  destruct op; cbn [run_op allowed] in *;
    try (eapply run_in_ok; [done|first
      [by apply wp_reconcileForeachParents|by apply wp_applyRejected|by apply wp_invalidate|by apply wp_solicit
      |by apply wp_finalizeWorkflow|by apply wp_start|by apply wp_pause|by apply wp_resume|by apply wp_cancel
      |by apply wp_complete_manual|by apply wp_decide_tx|by apply wp_persistResolvedApprovers
      |by apply wp_updateWorkflowStatusCas
      |apply wp_recordOutcomes; [done|intros r Hr; by apply (ok_claims S Hok), Ha]
      |apply wp_poll_settle; [done|intros p Hp; by apply (ok_polled S Hok), Ha]]
      |by eauto]).
  - pose proof (wp_claimReadyTasks wf now _ Hi) as Hwp. apply wp_run in Hwp.
    destruct (claimReadyTasks wf now (sy_st S)) as [s' [r|e]]; cbn in *.
    + destruct Hwp as [Hs Hcl]. split; [done|]. apply (sys_ok_step S s' (cm_claimed r) []); try done.
      * intros c Hc. by destruct (Hcl c Hc) as (? & ? & _ & Hk & _).
      * by intros ? ?%elem_of_nil.
    + split; [by apply (Hsame e)|]. apply (sys_ok_step S s' [] []); [done|by apply (Hsame e)|by intros ? ?%elem_of_nil..].
  - apply (run_in_ok S _ (λ _ d', step (sy_db S) d')); [done| |done].
    apply effect_heartbeat; [done|intros ? d' Hs; apply Hs..].
  - pose proof (wp_poll_read wf getChildRunStatus (sy_db S) Ha) as Hwp. apply wp_run in Hwp.
    destruct (poll_read wf getChildRunStatus (sy_st S)) as [s' [l|e]]; cbn in *.
    + destruct Hwp as [Hs Hl]. split; [by apply (Hsame (ex_host ""))|].
      apply (sys_ok_step S s' [] l); [done|by apply (Hsame (ex_host ""))|by intros ? ?%elem_of_nil|].
      rewrite Hs. exact Hl.
    + split; [by apply (Hsame e)|]. apply (sys_ok_step S s' [] []); [done|by apply (Hsame e)|by intros ? ?%elem_of_nil..].
Qed.

Lemma reachable_ok S S' : sys_ok S → rtc sys_step S S' → evolves (sy_db S) (sy_db S') ∧ sys_ok S'.
Proof.
  intros Hok Hr. induction Hr as [S|S S1 S2 [op Ha] _ IH]; [split; [reflexivity|done]|].
  destruct (run_op_ok op S Hok Ha) as [[He _] Hok1]. destruct (IH Hok1) as [He2 Hok2]. split; [by etrans|done].
Qed.
End system.

(** ** Theorems *)

Section theorems.
Context `{Runtime} `{DateEnv}.
Context (safeParse : json → result (list ZodIssue) WorkflowSpec).

(** C1: In every reachable state a task has at most one live attempt, and a task
    the claim loop may dispatch has none: whatever the interleaving of claims,
    late or repeated outcomes, polls, recoveries, pauses and cancellations, no
    task is dispatched while an earlier dispatch of it is still live. *)
Theorem at_most_one_live_attempt S S' :
  sys_ok S → rtc (sys_step safeParse) S S' →
  (∀ a b, a ∈ db_attempt (sy_db S') → b ∈ db_attempt (sy_db S') →
     at_status a = as_running → at_status b = as_running → at_taskId a = at_taskId b → a = b) ∧
  (∀ t a, t ∈ db_task (sy_db S') → a ∈ db_attempt (sy_db S') →
     tr_status t = ts_idle ∨ tr_status t = ts_scheduled → at_status a = as_running →
     at_taskId a ≠ tr_id t).
Proof.
  intros Hok Hr. destruct (reachable_ok _ S S' Hok Hr) as [_ [Hi _ _]]. split.
  - intros a b Ha Hb Hla Hlb E. apply (row_unique at_id (db_attempt (sy_db S'))); try done; [apply Hi|].
    by apply (inv_one_live _ Hi).
  - intros t a Ht Ha Ho Hl. by apply (inv_open _ Hi t a).
Qed.

Lemma terminal_workflow_stays s s' :
  isTerminalWorkflowStatus s = true →
  rtc (λ a b, canTransition k_workflow (WorkflowStatus_str a) (WorkflowStatus_str b) = true) s s' → s' = s.
Proof. intros Ht. induction 1 as [|s s1 s2 Hs _ IH]; [done|]. assert (s1 = s) as -> by (by all_statuses). auto. Qed.

(** C6: What no operation of the engine can undo, in any order: workflows move
    along the transition matrix and never leave a final status; every change of
    a task raises its lock version and none changes a terminal status; attempts
    are never deleted, and a settled one is never written again; the event log
    only grows. *)
Theorem history_preserved S S' :
  sys_ok S → rtc (sys_step safeParse) S S' →
  (∀ w, w ∈ db_workflow (sy_db S) → ∃ w', w' ∈ db_workflow (sy_db S') ∧ wr_def w' = wr_def w ∧
     rtc (λ a b, canTransition k_workflow (WorkflowStatus_str a) (WorkflowStatus_str b) = true)
       (wr_status w) (wr_status w') ∧
     (isTerminalWorkflowStatus (wr_status w) = true → wr_status w' = wr_status w)) ∧
  (∀ t, t ∈ db_task (sy_db S) → ∃ t', t' ∈ db_task (sy_db S') ∧ tr_def t' = tr_def t ∧
     (t' = t ∨ tr_lockVersion t < tr_lockVersion t') ∧
     (isTerminalTaskStatus (tr_status t) = true → tr_status t' = tr_status t)) ∧
  (∀ a, a ∈ db_attempt (sy_db S) → ∃ a', a' ∈ db_attempt (sy_db S') ∧ at_id a' = at_id a ∧
     at_idempotencyKey a' = at_idempotencyKey a ∧ (at_status a ≠ as_running → a' = a)) ∧
  (∃ new, db_event (sy_db S') = db_event (sy_db S) ++ new).
Proof.
  intros Hok Hr. destruct (reachable_ok _ S S' Hok Hr) as [He _]. split_and!.
  - intros w Hw. apply list_elem_of_lookup in Hw as [i Hi].
    destruct (Forall2_lookup_l _ _ _ _ _ (ev_workflow _ _ He) Hi) as (w' & Hi' & Hww).
    exists w'. split; [by eapply list_elem_of_lookup_2|].
    destruct Hww as [->|(Hd & _ & Hp)]; [split_and!; done|]. split_and!; [done..|].
    intros Ht. by eapply terminal_workflow_stays.
  - intros t Ht. destruct (extends_new _ _ _ _ _ (ev_task _ _ He) Ht) as (t' & Ht' & Htt).
    exists t'. split; [done|]. destruct Htt as [->|(Hd & Hl & Hs)]; split_and!; auto.
  - intros a Ha. destruct (extends_new _ _ _ _ _ (ev_attempt _ _ He) Ha) as (a' & Ha' & Haa).
    exists a'. split; [done|]. destruct Haa as [->|(Hid & _ & _ & _ & Hk & Hl & _)]; [done|].
    split_and!; [done..|]. intros Hn. by destruct Hn.
  - apply He.
Qed.

(** The upstream tasks of [t] in workflow [wf] and how they resolve. *)
Definition upstream_ok (d : DB) (wf : string) (t : TaskRow) : Prop :=
  ∀ e, e ∈ db_dependency d → dp_workflowId e = wf → dp_taskId e = tr_id t →
  ∃ u, u ∈ db_task d ∧ tr_workflowId u = wf ∧ tr_id u = dp_dependsOnTaskId e ∧
       resolveDependency (tr_status u) (dp_outcome e) = dr_satisfied.

Definition approval_granted (d : DB) (wf : string) (t : TaskRow) : Prop :=
  (∃ a, a ∈ db_approval d ∧ ap_workflowId a = wf ∧ ap_taskId a = tr_id t) →
  ∃ a, a ∈ db_approval d ∧ ap_workflowId a = wf ∧ ap_taskId a = tr_id t ∧ ap_status a = aps_granted.

Lemma recovered_in tasks0 tasks t :
  Forall2 recovered tasks0 tasks → t ∈ tasks → ∃ t0, t0 ∈ tasks0 ∧ recovered t0 t.
Proof.
  intros Hf Ht. apply list_elem_of_lookup in Ht as [i Hi].
  destruct (Forall2_lookup_r _ _ _ _ _ Hf Hi) as (t0 & Hi0 & Hr). exists t0. split; [by eapply list_elem_of_lookup_2|done].
Qed.

(** Crash recovery never satisfies a dependency. *)
Lemma satisfied_before tasks0 tasks i o :
  Forall2 recovered tasks0 tasks → resolveDependency (statusById tasks !! i ?? ts_idle) o = dr_satisfied →
  ∃ u, u ∈ tasks0 ∧ tr_id u = i ∧ resolveDependency (tr_status u) o = dr_satisfied.
Proof.
  intros Hf. destruct (statusById tasks !! i) as [s|] eqn:Es; cbn [default]; [|by destruct o].
  apply map_of_lookup in Es as (t & Ht & [= <- <-]).
  destruct (recovered_in _ _ _ Hf Ht) as (u & Hu & Hr). intros Hs. exists u. split; [done|].
  destruct Hr as [->|[_ ->]]; [done|]. cbn in Hs. by destruct o.
Qed.

End theorems.

(** ** Instances *)

Definition ready_sys : Sys := {| sy_st := sample_st ready_db; sy_claims := []; sy_polled := [] |}.

Lemma ready_sys_ok : sys_ok ready_sys.
Proof. split; [exact ready_inv|by intros ? ?%elem_of_nil..]. Qed.

Definition parse : json → result (list ZodIssue) WorkflowSpec := λ _, Err [].

(** The claim of the agent task, and the pause of the workflow after it. *)
Definition claimed_sys : Sys := run_op parse (op_claim "w1" 0) ready_sys.
Definition no_hooks : LifecycleDeps :=
  {| ld_cancelChildRun := None; ld_notify := None; ld_audit := None; ld_actorId := None |}.
Definition paused_sys : Sys := run_op parse (op_pause "w1" no_hooks) claimed_sys.

Lemma paused_reachable : rtc (sys_step parse) ready_sys paused_sys.
Proof.
  eapply rtc_l; [apply sys_op with (op := op_claim "w1" 0); exact I|].
  apply rtc_once. apply sys_op. by split_and!.
Qed.

Lemma at_most_one_live_attempt_witness :
  length (db_attempt (sy_db paused_sys)) = 1%nat ∧
  ∀ a b, a ∈ db_attempt (sy_db paused_sys) → b ∈ db_attempt (sy_db paused_sys) →
    at_status a = as_running → at_status b = as_running → at_taskId a = at_taskId b → a = b.
Proof.
  split; [vm_compute; reflexivity|].
  exact (proj1 (at_most_one_live_attempt parse _ _ ready_sys_ok paused_reachable)).
Defined.

Lemma history_preserved_witness :
  map wr_status (db_workflow (sy_db paused_sys)) = [ws_paused] ∧
  ∃ new, db_event (sy_db paused_sys) = db_event ready_db ++ new.
Proof.
  split; [vm_compute; reflexivity|].
  exact (proj2 (proj2 (proj2 (history_preserved parse _ _ ready_sys_ok paused_reachable)))).
Defined.
Definition the_claim (s : St) : option ClaimedTask :=
  match (claimReadyTasks "w1" 0 s).2 with Ok r => head (cm_claimed r) | Err _ => None end.

