(* ===== verification/Control.v ===== *)
(** * Pausing, cancelling and inactive workflows

    Which status each lifecycle operation accepts, what a cancellation leaves
    behind, and that a tick does nothing to a workflow that is not active. *)

From S2P Require Import Prelude Json Time Spec Limits Validate Transitions Gates Foreach Resolver Store Hoare Evolution.
From S2P Require Import Ops ForeachReconciler Reconciler Lifecycle Sample Engine Safety.
Open Scope Z_scope.

Section control.
Context `{Runtime} `{DateEnv}.
Implicit Types d : DB.

Definition workflow_row (d : DB) (wf : string) : option WorkflowRow :=
  first_where (λ w, wr_id w ≟ wf) (db_workflow d).

(** ** Accepted statuses *)

(** The answer of a lifecycle operation from the statuses [from] to [to]. *)
Definition answers (from : list WorkflowStatus) (to : WorkflowStatus) (wf : string) (d : DB)
    (r : LifecycleResult) (d' : DB) : Prop :=
  (lr_ok r = true ↔ ∃ w, workflow_row d wf = Some w ∧ wr_status w ∈ from) ∧
  (lr_ok r = false → d' = d) ∧
  (lr_ok r = true → ∃ w, w ∈ db_workflow d' ∧ wr_id w = wf ∧ wr_status w = to).

Lemma answers_refused from to wf d why :
  (∀ w, workflow_row d wf = Some w → wr_status w ∉ from) → answers from to wf d (refused why) d.
Proof. intros Hn. split_and!; [|done..]. split; [done|]. intros (w & Ew & Hw). by destruct (Hn w Ew). Qed.

Lemma answers_ok from to wf d d' w z u q :
  workflow_row d wf = Some w → wr_status w ∈ from → q w = true →
  db_workflow d' = set_where (λ x, workflow_cas (wr_id w) (wr_lockVersion w) x && q x)
                     (workflow_set to z u) (db_workflow d) →
  answers from to wf d lc_ok d'.
Proof.
  intros Ew Hw Hq Ed. destruct (first_where_workflow d wf w Ew) as [Hin <-].
  split_and!; [|done|].
  - split; [|done]. intros _. by exists w.
  - intros _. exists (workflow_set to z u w). split; [|done]. rewrite Ed. apply set_where_in. exists w.
    split; [done|]. unfold workflow_cas. by rewrite Z.eqb_refl, bool_decide_true, Hq.
Qed.

(** The compare-and-set of an operation on the row it has just read. *)
Lemma own_cas_hits d w (q : WorkflowRow → bool) (f : WorkflowRow → WorkflowRow) :
  w ∈ db_workflow d → q w = true →
  (length (map f (List.filter (λ x, workflow_cas (wr_id w) (wr_lockVersion w) x && q x) (db_workflow d))) =? 0)%nat
    = false.
Proof.
  intros Hw Hq. apply not_true_iff_false. intros E%length_map_0. apply (proj1 (filter_nil_iff _ _) E w) in Hw.
  unfold workflow_cas in Hw. by rewrite bool_decide_true, Z.eqb_refl, Hq in Hw.
Qed.

(** The host hooks at the end of an operation. *)
Ltac run_hooks Hn Ha :=
  apply wp_hook; [exact Hn| |done]; wp1; apply wp_hook; [exact Ha| |done]; wp1.

Lemma answers_wrong_status from to wf d w why :
  workflow_row d wf = Some w → wr_status w ∉ from → answers from to wf d (refused why) d.
Proof. intros Ew Hw. apply answers_refused. intros w' Ew'. by rewrite Ew in Ew'; injection Ew' as <-. Qed.

Lemma wp_pause_answers wf deps d :
  quiet_deps deps → wp (pauseWorkflow wf deps) (answers [ws_active] ws_paused wf d) any_exn d.
Proof.
  intros (_ & Hn & Ha). unfold pauseWorkflow, select_workflow. wp1. wp1. fold (workflow_row d wf).
  destruct (workflow_row d wf) as [w|] eqn:Ew; [|wps; apply answers_refused; congruence].
  destruct (first_where_workflow d wf w Ew) as [Hw <-].
  destruct (negb _) eqn:Es; bprop.
  { wps. apply (answers_wrong_status _ _ _ _ w); [done|]. by intros ?%list_elem_of_singleton. }
  wp1. wp1. wp1; [|done]. wp1. wp1. wp1. apply wp_raw_workflow.
  rewrite (own_cas_hits d w) by (done || by apply bool_decide_eq_true).
  wp1. unfold lifecycle_event. wpr. run_hooks Hn Ha.
  eapply (answers_ok _ _ _ _ _ w _ _ (λ x, wr_status x ≟ ws_active)); [done|rewrite Es; left|by apply bool_decide_eq_true|done].
Qed.

Lemma wp_resume_answers wf deps d :
  quiet_deps deps → wp (resumeWorkflow wf deps) (answers [ws_paused] ws_active wf d) any_exn d.
Proof.
  intros (_ & Hn & Ha). unfold resumeWorkflow, select_workflow. wp1. wp1. fold (workflow_row d wf).
  destruct (workflow_row d wf) as [w|] eqn:Ew; [|wps; apply answers_refused; congruence].
  destruct (first_where_workflow d wf w Ew) as [Hw <-].
  destruct (negb _) eqn:Es; bprop.
  { wps. apply (answers_wrong_status _ _ _ _ w); [done|]. by intros ?%list_elem_of_singleton. }
  wp1. wp1. wp1; [|done]. wp1. wp1. wp1. apply wp_raw_workflow.
  rewrite (own_cas_hits d w) by (done || by apply bool_decide_eq_true).
  wp1. unfold lifecycle_event. wpr. run_hooks Hn Ha.
  eapply (answers_ok _ _ _ _ _ w _ _ (λ x, wr_status x ≟ ws_paused)); [done|rewrite Es; left|by apply bool_decide_eq_true|done].
Qed.

(** ** Cancellation *)

(** What a won cancellation leaves of workflow [wf]. *)
Record torn_down (wf : string) (d d' : DB) : Prop := {
  td_workflow : ∃ w, w ∈ db_workflow d' ∧ wr_id w = wf ∧ wr_status w = ws_cancelled;
  td_tasks : ∀ t, t ∈ db_task d' → tr_workflowId t = wf → isTerminalTaskStatus (tr_status t) = true;
  td_others : ∀ t, t ∈ db_task d → tr_workflowId t ≠ wf ∨ isTerminalTaskStatus (tr_status t) = true → t ∈ db_task d';
  td_leases : ∀ l, l ∈ db_lease d' ↔ l ∈ db_lease d ∧ le_workflowId l ≠ wf;
  td_approvals : ∀ a, a ∈ db_approval d' → ap_workflowId a = wf → ap_status a = aps_pending → ap_invalidatedAt a ≠ None;
  td_attempts : db_attempt d' = db_attempt d
}.

Lemma non_terminal_in s : isTerminalTaskStatus s = false ↔ s ∈ non_terminal_statuses.
Proof. destruct s; unfold non_terminal_statuses; cbn; set_solver. Qed.

(** The child runs a cancellation stops: those of the live attempts. *)
Definition live_runs (d : DB) (wf : string) : list string :=
  List.filter nonempty (omap at_childRunId (List.filter (λ a, (at_workflowId a ≟ wf) && (at_status a ≟ as_running)
                                                            && is_present (at_childRunId a)) (db_attempt d))).

Lemma wp_cancel_teardown wf actor d :
  wp (cancel_tx wf actor)
    (λ r d', answers [ws_active; ws_paused] ws_cancelled wf d r.1 d' ∧
             (lr_ok r.1 = true → torn_down wf d d' ∧ r.2 = live_runs d wf)) any_exn d.
Proof.
  unfold cancel_tx, select_workflow. apply wp_transaction. wp1. wp1. fold (workflow_row d wf).
  destruct (workflow_row d wf) as [w|] eqn:Ew; [|wps; split; [apply answers_refused; congruence|done]].
  destruct (first_where_workflow d wf w Ew) as [Hw <-].
  destruct (_ && _) eqn:Es.
  { wps. split; [|done]. apply (answers_wrong_status _ _ _ _ w); [done|]. bprop. set_solver. }
  assert (Hs : wr_status w ∈ [ws_active; ws_paused]) by (apply andb_false_iff in Es as [Es|Es]; bprop; set_solver).
  wp1. wp1. wp1; [|done]. wp1. wp1. wp1. apply wp_raw_workflow.
  rewrite (own_cas_hits d w) by (done || by apply bool_decide_eq_true).
  unfold running_child_runs, cancel_open_tasks, invalidate_pending_approvals, lifecycle_event. wpr.
  split.
  { by eapply (answers_ok _ _ _ _ _ w _ _ (λ x, bool_decide (wr_status x ∈ [ws_active; ws_paused])));
      [..|apply bool_decide_eq_true|]. }
  intros _. split; [|done]. split; cbn; try done.
  - exists (workflow_set ws_cancelled (wr_lockVersion w + 1) a0 w). split; [|done]. apply set_where_in. exists w.
    split; [done|]. unfold workflow_cas. by rewrite Z.eqb_refl, !bool_decide_true.
  - intros t (u & Hu & ->)%set_where_in Hwf.
    destruct ((tr_workflowId u ≟ wr_id w) && bool_decide (tr_status u ∈ non_terminal_statuses)) eqn:E; [done|].
    destruct (isTerminalTaskStatus (tr_status u)) eqn:Et; [done|]. apply non_terminal_in in Et.
    by rewrite !bool_decide_true in E.
  - intros t Ht Hk. apply set_where_in. exists t. split; [done|].
    destruct ((tr_workflowId t ≟ wr_id w) && bool_decide (tr_status t ∈ non_terminal_statuses)) eqn:E; [|done].
    bprop. destruct Hk as [?|Hk]; [done|]. by rewrite (proj2 (non_terminal_in _)) in Hk.
  - intros l. rewrite filter_in. rewrite negb_true_iff, bool_decide_eq_false. done.
  - intros x (b & Hb & ->)%set_where_in.
    destruct ((ap_workflowId b ≟ wr_id w) && (ap_status b ≟ aps_pending)) eqn:E; [done|]. intros Hwf Hp.
    by rewrite !bool_decide_true in E.
Qed.

(** Cancelling accepts exactly an active or paused workflow and otherwise
    changes nothing. A cancellation leaves no unfinished task, no dispatch lease
    and no decidable pending approval of the workflow, keeps finished tasks, all
    attempts and the tasks of other workflows as they are, and hands exactly
    the child runs of the live attempts to the host. *)
Theorem cancel_teardown wf actor s s' r runs :
  cancel_tx wf actor s = (s', Ok (r, runs)) →
  (lr_ok r = true ↔ ∃ w, workflow_row (st_db s) wf = Some w ∧ wr_status w ∈ [ws_active; ws_paused]) ∧
  (lr_ok r = false → st_db s' = st_db s) ∧
  (lr_ok r = true → torn_down wf (st_db s) (st_db s') ∧ runs = live_runs (st_db s) wf).
Proof.
  intros Hrun. pose proof (wp_run _ _ _ _ (wp_cancel_teardown wf actor (st_db s))) as Hw. rewrite Hrun in Hw.
  destruct Hw as [(H1 & H2 & _) H3]. by split_and!.
Qed.

(** Pausing and resuming: a pause is accepted exactly for an active workflow,
    a resumption exactly for a paused one, the row then has the new status, and
    a refusal changes nothing. *)
Theorem pause_resume_spec wf deps s s' r :
  quiet_deps deps →
  (pauseWorkflow wf deps s = (s', Ok r) →
     (lr_ok r = true ↔ ∃ w, workflow_row (st_db s) wf = Some w ∧ wr_status w = ws_active) ∧
     (lr_ok r = false → st_db s' = st_db s) ∧
     (lr_ok r = true → ∃ w, w ∈ db_workflow (st_db s') ∧ wr_id w = wf ∧ wr_status w = ws_paused)) ∧
  (resumeWorkflow wf deps s = (s', Ok r) →
     (lr_ok r = true ↔ ∃ w, workflow_row (st_db s) wf = Some w ∧ wr_status w = ws_paused) ∧
     (lr_ok r = false → st_db s' = st_db s) ∧
     (lr_ok r = true → ∃ w, w ∈ db_workflow (st_db s') ∧ wr_id w = wf ∧ wr_status w = ws_active)).
Proof.
  intros Hq. split; intros Hrun.
  - pose proof (wp_run _ _ _ _ (wp_pause_answers wf deps (st_db s) Hq)) as Hw. rewrite Hrun in Hw.
    unfold answers in Hw. by setoid_rewrite list_elem_of_singleton in Hw.
  - pose proof (wp_run _ _ _ _ (wp_resume_answers wf deps (st_db s) Hq)) as Hw. rewrite Hrun in Hw.
    unfold answers in Hw. by setoid_rewrite list_elem_of_singleton in Hw.
Qed.
(** ** Inactive workflows *)

Definition inactive_workflow (d : DB) (wf : string) : Prop :=
  ∀ w, workflow_row d wf = Some w → wr_status w ≠ ws_active.

Definition status_of (d : DB) (wf : string) : string :=
  match workflow_row d wf with Some w => WorkflowStatus_str (wr_status w) | None => "missing" end.

(** [m] returns [a] without writing. *)
Definition returns {A} (m : M A) (a : A) (d : DB) : Prop :=
  wp m (λ r d', r = a ∧ d' = d) (λ _ _, False) d.

(** A pass that first looks at the workflow's status. *)
Ltac inactive_pass Hn :=
  apply wp_transaction; wp1; wp1; unfold inactive_workflow, workflow_row in Hn;
  destruct (first_where _ _) as [w|] eqn:Ew; [|by wps];
  rewrite (bool_decide_false _ (Hn w eq_refl)); by wps.

Lemma inactive_claim wf now d :
  inactive_workflow d wf → returns (claimReadyTasks wf now) (inactive (status_of d wf)) d.
Proof.
  intros Hn. unfold returns, claimReadyTasks, select_workflow, status_of, workflow_row. inactive_pass Hn.
Qed.

Lemma inactive_settle wf now polled d :
  inactive_workflow d wf → returns (poll_settle wf now polled) [] d.
Proof. intros Hn. unfold returns, poll_settle, select_workflow. inactive_pass Hn. Qed.

Lemma inactive_foreach wf d : inactive_workflow d wf → returns (reconcileForeachParents wf) [] d.
Proof. intros Hn. unfold returns, reconcileForeachParents. inactive_pass Hn. Qed.

Lemma inactive_rejected wf d : inactive_workflow d wf → returns (applyRejectedApprovalPolicies wf) [] d.
Proof. intros Hn. unfold returns, applyRejectedApprovalPolicies, select_workflow. inactive_pass Hn. Qed.

Lemma inactive_invalidate wf now d : inactive_workflow d wf → returns (invalidateStaleApprovals wf now) () d.
Proof. intros Hn. unfold returns, invalidateStaleApprovals, select_workflow. inactive_pass Hn. Qed.

Lemma inactive_solicit wf now d : inactive_workflow d wf → returns (solicitApprovals wf now) [] d.
Proof. intros Hn. unfold returns, solicitApprovals, select_workflow. inactive_pass Hn. Qed.

Lemma inactive_poll wf now f d :
  inactive_workflow d wf → (∀ c, quiet (f c)) →
  returns (best_effort [] (pollRunningAgentTasks wf now f)) [] d.
Proof.
  intros Hn Hq. unfold returns, best_effort, pollRunningAgentTasks. apply wp_catch. wp1.
  eapply wp_mono; [by apply wp_poll_read| |intros e d' ->; by wps]. intros l d' [-> _].
  destruct (_ =? _)%nat; [by wps|].
  eapply wp_mono; [by apply inactive_settle|done|by intros].
Qed.

Lemma returns_bind {A B} (m : M A) (f : A → M B) a Q d :
  returns m a d → wp (f a) Q (λ _ _, False) d → wp (m ≫= f) Q (λ _ _, False) d.
Proof. intros Hm Hf. apply wp_bind. eapply wp_conseq; [exact Hm|]. by intros ? ? [-> ->]. Qed.

Lemma returns_best_effort {A} x (m : M A) a d : returns m a d → returns (best_effort x m) a d.
Proof. intros Hm. apply wp_catch. eapply wp_mono; [exact Hm|done|done]. Qed.

Lemma inactive_loop iters wf now executors t d :
  inactive_workflow d wf →
  returns (claim_loop (S iters) wf now executors t)
    {| tk_total := tk_total t; tk_status := status_of d wf; tk_deadLettered := tk_deadLettered t;
       tk_terminalTransitioned := tk_terminalTransitioned t |} d.
Proof.
  intros Hn. cbn [claim_loop]. apply (returns_bind _ _ (inactive (status_of d wf))); [by apply inactive_claim|].
  by apply wp_ret.
Qed.

Lemma wp_reconcile_inactive wf deps d :
  inactive_workflow d wf → (∀ f, rd_getChildRunStatus deps = Some f → ∀ c, quiet (f c)) →
  returns (reconcileWorkflow wf deps) (0%nat, status_of d wf) d.
Proof.
  intros Hn Hq. unfold returns, reconcileWorkflow. wp1. apply (wp_conseq _ (λ _ d', d' = d)).
  { destruct (rd_now deps); by wps. }
  intros now d' ->. eapply (returns_bind _ _ []).
  { destruct (rd_getChildRunStatus deps) as [f|]; [|by apply wp_ret]. by apply inactive_poll, Hq. }
  apply (returns_bind _ _ ()).
  { apply returns_best_effort, (returns_bind _ _ []); [by apply inactive_foreach|].
    unfold cleanup_runs. destruct (rd_cancelChildRun deps); by apply wp_ret. }
  apply (returns_bind _ _ ()).
  { apply returns_best_effort, (returns_bind _ _ []); [by apply inactive_rejected|].
    unfold cleanup_runs. destruct (rd_cancelChildRun deps); by apply wp_ret. }
  apply (returns_bind _ _ ()); [by apply returns_best_effort, inactive_invalidate|].
  eapply returns_bind; [exact (inactive_loop 199 _ _ _ _ _ Hn)|].
  eapply returns_bind; [by apply returns_best_effort, inactive_solicit|].
  eapply returns_bind; [|by apply wp_ret].
  unfold emitReconcileNotifications. destruct (rd_notify deps); by apply wp_ret.
Qed.

(** C39: A tick leaves a workflow that is not active alone: it dispatches nothing,
    returns the workflow's status (or that it is missing) without throwing, and
    writes no table, even if the host's status reader throws. *)
Theorem reconcile_inactive wf deps s :
  inactive_workflow (st_db s) wf → (∀ f, rd_getChildRunStatus deps = Some f → ∀ c, quiet (f c)) →
  ∃ s', reconcileWorkflow wf deps s = (s', Ok (0%nat, status_of (st_db s) wf)) ∧ st_db s' = st_db s.
Proof.
  intros Hn Hq. pose proof (wp_run _ _ _ _ (wp_reconcile_inactive wf deps (st_db s) Hn Hq)) as Hw.
  destruct (reconcileWorkflow wf deps s) as [s' [r|e]]; [|done]. destruct Hw as [-> Hd]. by exists s'.
Qed.
End control.

(** ** Instances *)

(** Two running agent tasks, one with a child run, and a manual one that is done. *)
Definition running_db : DB :=
  sample_db ws_active
    [plain_task "t1" "manual" ts_succeeded; plain_task "t2" "agent_task" ts_running;
     plain_task "t3" "agent_task" ts_running] []
    [sample_attempt "a2" "t2" 1 as_running (Some "run-2"); sample_attempt "a3" "t3" 1 as_running None].

Definition answer (x : St * result exn (LifecycleResult * list string)) : LifecycleResult * list string :=
  match x.2 with Ok r => r | Err _ => (lc_ok, []) end.

Lemma cancel_teardown_witness :
  let x := cancel_tx "w1" (Some "u1") (sample_st running_db) in
  answer x = (lc_ok, ["run-2"]) ∧ torn_down "w1" running_db (st_db x.1).
Proof.
  cbv zeta. assert (Ha : answer (cancel_tx "w1" (Some "u1") (sample_st running_db)) = (lc_ok, ["run-2"]))
    by (vm_compute; reflexivity).
  split; [exact Ha|]. destruct (cancel_tx "w1" (Some "u1") (sample_st running_db)) as [s' [[r runs]|e]] eqn:E.
  - injection Ha as -> ->. exact (proj1 (proj2 (proj2 (cancel_teardown _ _ _ _ _ _ E)) eq_refl)).
  - discriminate Ha.
Defined.

Definition workflow_is (s : WorkflowStatus) (x : St * result exn LifecycleResult) : Prop :=
  ∃ w, w ∈ db_workflow (st_db x.1) ∧ wr_id w = "w1" ∧ wr_status w = s.

Lemma pause_resume_spec_witness :
  workflow_is ws_paused (pauseWorkflow "w1" no_hooks (sample_st running_db)) ∧
  workflow_is ws_active (resumeWorkflow "w1" no_hooks (sample_st (sample_db ws_paused [] [] []))).
Proof.
  assert (Hq : quiet_deps no_hooks) by by split_and!.
  unfold workflow_is. split.
  - destruct (pauseWorkflow _ _ _) as [s' [r|e]] eqn:E; [|vm_compute in E; discriminate E].
    refine (proj2 (proj2 (proj1 (pause_resume_spec "w1" no_hooks _ s' r Hq) E)) _).
    vm_compute in E. injection E as _ <-. reflexivity.
  - destruct (resumeWorkflow _ _ _) as [s' [r|e]] eqn:E; [|vm_compute in E; discriminate E].
    refine (proj2 (proj2 (proj2 (pause_resume_spec "w1" no_hooks _ s' r Hq) E)) _).
    vm_compute in E. injection E as _ <-. reflexivity.
Defined.

(** The reader of child runs is down. *)
Definition failing_deps : ReconcileDeps := {|
  rd_executors := None; rd_now := Some 0;
  rd_getChildRunStatus := Some (λ _, throw (ex_host "unreachable")); rd_notify := None;
  rd_cancelChildRun := None |}.

Definition paused_db : DB := with_workflow running_db [sample_workflow ws_paused].

Lemma reconcile_inactive_witness :
  ∃ s', reconcileWorkflow "w1" failing_deps (sample_st paused_db) = (s', Ok (0%nat, "paused")) ∧
        st_db s' = paused_db.
Proof.
  apply (reconcile_inactive "w1" failing_deps (sample_st paused_db)).
  - intros w E. vm_compute in E. injection E as <-. discriminate.
  - intros f [= <-] c s. reflexivity.
Defined.
