(* ===== verification/Progress.v ===== *)
(** * A ready task does not wait

    What one reconcile pass does for a task that is ready when the pass reads
    the tables: crash recovery and the dispatches of the other tasks leave it
    ready and leave its next attempt free ([waiting]), so when the claim loop
    reaches it the guarded dispatch goes through, unless the batch is full. *)

From S2P Require Import Prelude Json Time Spec Limits Validate Transitions Gates Foreach Resolver Store Hoare Evolution.
From S2P Require Import Ops ForeachReconciler Reconciler Lifecycle Sample Engine Safety Control.
Open Scope Z_scope.

Section live.
Context `{Runtime} `{DateEnv}.
Implicit Types d : DB.

(** The reclaims change neither tasks nor attempts. *)
Lemma reclaim_side wf prov claimed t d : inv d → wp (reclaim_task wf prov claimed t) (λ _ d', side d d') any_exn d.
Proof.
  intros Hi. assert (Hkeep : side d d) by by apply side_refl. unfold reclaim_task. destruct (_ <=? _)%nat; [by wps|].
  destruct (negb _ || _ || _); [by wps|]. wps; try exact Hkeep. run_side effect_takeOver as S1.
  destruct a1; wps; [|exact S1]. run_side effect_task_event as S2. wps. by eapply side_trans.
Qed.

Lemma reclaim_all wf prov tasks d : inv d →
  wp (foldM (reclaim_task wf prov) [] tasks) (λ _ d', side d d') any_exn d.
Proof.
  intros Hi. apply (wp_foldM _ (λ _ _ d', side d d')); [by apply side_refl|]. intros t r claimed d' Hs.
  eapply wp_conseq; [apply reclaim_side, Hs|]. intros l d'' Hs'. by eapply side_trans.
Qed.

(** The task has a claim, and its row is running. *)
Definition dispatched (t : TaskRow) (claimed : list ClaimedTask) (d : DB) : Prop :=
  ∃ c q, c ∈ claimed ∧ tr_id (cl_task c) = tr_id t ∧ q ∈ db_task d ∧ tr_id q = tr_id t ∧ tr_status q = ts_running.
Definition served (t : TaskRow) (claimed : list ClaimedTask) (d : DB) : Prop :=
  (dispatchBatchCap <= length claimed)%nat ∨ dispatched t claimed d.

Lemma served_spared wf t u claimed new d d' :
  tr_id t ≠ tr_id u → spares wf u d d' → served t claimed d → served t (claimed ++ new) d'.
Proof.
  intros Hne [Hrows _] [Hcap|(c & q & Hc & Hid & Hq & Hqi & Hqs)].
  - left. rewrite length_app. lia.
  - right. exists c, q. split_and!; [apply elem_of_app; by left|done| |done..]. apply Hrows; congruence.
Qed.

Lemma one_claim (claimed new : list ClaimedTask) :
  length (claimed ++ new) = S (length claimed) → ∃ c, new = [c].
Proof. rewrite length_app. destruct new as [|c [|]]; cbn; [lia|by exists c|lia]. Qed.

(** The claim loop over the rows of a pass. *)
Lemma claim_loop cx t tasks claimed d :
  inv d → Forall (coherent d) tasks → NoDup (map tr_id tasks) → t ∈ tasks → ready cx t → waiting (cx_wfId cx) t d →
  wp (foldM (claim_task cx) claimed tasks) (λ l d', served t l d') any_exn d.
Proof.
  intros Hi Hc Hnd Ht Hr Hw.
  eapply wp_conseq; [apply (wp_foldM _ (λ l claimed d', inv d' ∧ Forall (coherent d') l ∧ NoDup (map tr_id l) ∧
    (t ∈ l ∧ waiting (cx_wfId cx) t d' ∨ tr_id t ∉ map tr_id l ∧ served t claimed d')))|].
  - split_and!; [done..|]. by left.
  - intros x r cl d' (Hi' & Hc' & Hnd' & Hst). inversion Hc' as [|? ? Hcx Hcr]; subst.
    cbn in Hnd'. apply NoDup_cons in Hnd' as [Hx Hnd'].
    eapply wp_conseq; [by apply wp_claim_task|]. intros l d'' ((Hs & new & -> & Hnew) & Hoth & Hgo).
    split_and!; [apply Hs|by eapply Forall_coherent_evolves; [apply Hs|]|done|].
    destruct Hst as [[[->|Htr]%elem_of_cons Hw']|[[Hne Hnr]%not_elem_of_cons Hsv]].
    + right. split; [done|]. destruct (decide (length cl < dispatchBatchCap)%nat) as [Hlt|Hge].
      * destruct (one_claim cl new) as [c ->]; [by apply Hgo|]. destruct (Hnew c) as (_ & _ & Hcl & _ & q & Hq); [left|].
        right. exists c, q. destruct Hq as (Hq & Hqi & Hqs & _).
        split_and!; [apply elem_of_app; right; left|by rewrite Hcl|done..].
      * left. rewrite length_app. lia.
    + left. split; [done|]. eapply waiting_spared; [|exact Hoth|exact Hw'].
      intros E. destruct Hx. rewrite <- E. by apply list_elem_of_fmap_2.
    + right. split; [done|]. by eapply served_spared.
  - cbn beta. intros l d' (_ & _ & _ & [[Hn _]|[_ Hsv]]); [by apply elem_of_nil in Hn|done].
Qed.

(** Every approval of the task is granted, and its timing gate is open. *)
Definition approved (d : DB) (wf : string) (t : TaskRow) : Prop :=
  ∀ a, a ∈ db_approval d → ap_workflowId a = wf → ap_taskId a = tr_id t → ap_status a = aps_granted.
Definition due (now : Z) (t : TaskRow) : Prop := ∀ due, tr_dueAtUtc t = Some due → due <= now.

(** The task is ready in the tables. *)
Record ready_in (d : DB) (wf : string) (now : Z) (t : TaskRow) : Prop := {
  ri_row : t ∈ db_task d; ri_workflow : tr_workflowId t = wf;
  ri_open : open_task t; ri_plain : is_foreach t = false;
  ri_due : due now t; ri_upstream : upstream_ok d wf t; ri_approved : approved d wf t
}.

(** Crash recovery keeps the statuses that satisfy a dependency. *)
Lemma satisfied_after tasks0 tasks u o :
  Forall2 recovered tasks0 tasks → NoDup (map tr_id tasks0) → u ∈ tasks0 →
  resolveDependency (tr_status u) o = dr_satisfied →
  resolveDependency (statusById tasks !! tr_id u ?? ts_idle) o = dr_satisfied.
Proof.
  intros Hf Hnd Hu Hs. apply list_elem_of_lookup in Hu as [i Hi].
  destruct (Forall2_lookup_l _ _ _ _ _ Hf Hi) as (u' & Hi' & Hr).
  assert (u' = u) as -> by (destruct Hr as [->|[E _]]; [done|]; rewrite E in Hs; by destruct o).
  rewrite (statusById_lookup tasks u); [done| |by eapply list_elem_of_lookup_2].
  by rewrite (Forall2_rel_ids recovered tr_id recovered_id _ _ Hf).
Qed.

(** What the tables say of a ready task is what the pass reads. *)
Lemma ready_in_pass d wf now t tasks prov :
  inv d → ready_in d wf now t →
  Forall2 recovered (List.filter (λ t, tr_workflowId t ≟ wf) (db_task d)) tasks →
  ready {| cx_wfId := wf; cx_now := now; cx_deps := List.filter (λ e, dp_workflowId e ≟ wf) (db_dependency d);
           cx_status := statusById tasks;
           cx_key := keyById (List.filter (λ t, tr_workflowId t ≟ wf) (db_task d));
           cx_approval := approvalByTaskId (List.filter (λ a, ap_workflowId a ≟ wf) (db_approval d));
           cx_prov := prov |} t.
Proof.
  intros Hi [Ht Hw Ho Hf Hdue Hup Hap] Hrec. split_and!; [done..|]. apply dispatchable_spec. cbn. split_and!.
  - exact Hdue.
  - intros e' He'. apply list_elem_of_In, in_map_iff in He' as (e & <- & He).
    apply list_elem_of_In, filter_in in He as [He Het].
    apply filter_in in He as [He Hew]. bprop. cbn.
    destruct (Hup e He Hew Het) as (u & Hu & Huw & <- & Hus).
    eapply satisfied_after; [exact Hrec|apply NoDup_map_filter, Hi| |exact Hus].
    apply filter_in. split; [done|by apply bool_decide_eq_true].
  - set (aps := List.filter _ _). destruct (approvalByTaskId aps !! tr_id t) as [st|] eqn:E; [|discriminate].
    intros _. apply map_of_lookup in E as (a & Ha & [= Hat <-]). apply filter_in in Ha as [Ha Haw]. bprop.
    f_equal. by apply Hap.
Qed.

(** The pass serves the task, from the tables it read. *)
Lemma claim_pass_serves wf now prov t d :
  inv d → ready_in d wf now t → waiting wf t d →
  wp (claim_pass wf now {| g_tasks := List.filter (λ t, tr_workflowId t ≟ wf) (db_task d);
        g_deps := List.filter (λ e, dp_workflowId e ≟ wf) (db_dependency d);
        g_approvals := List.filter (λ a, ap_workflowId a ≟ wf) (db_approval d) |} prov)
    (λ l d', served t l d') any_exn d.
Proof.
  intros Hi Hr Hw. set (tasks0 := List.filter _ (db_task d)).
  assert (Hnd : NoDup (map tr_id tasks0)) by apply NoDup_map_filter, Hi.
  assert (Ht : t ∈ tasks0) by (apply filter_in; split; [apply Hr|apply bool_decide_eq_true, Hr]).
  unfold claim_pass. cbn [g_tasks g_deps g_approvals]. wp1.
  eapply wp_conseq; [apply wp_recover_all; [done|by apply loaded_coherent]|].
  intros tasks d1 [(Hs1 & Hc1 & Hrec) Hkeep].
  assert (Hw1 : waiting wf t d1).
  { apply Hkeep; [apply Hr| |done]. intros x Hx E. by apply (row_unique tr_id tasks0). }
  wp1. eapply wp_conseq; [apply reclaim_all, Hs1|]. intros claimed d2 [Hs2 (_ & Et & Ea)].
  set (cx := Build_ClaimCtx _ _ _ _ _ _ _).
  apply (claim_loop cx); [apply Hs2|by eapply Forall_coherent_evolves; [apply Hs2|]| | | |].
  - by rewrite (Forall2_rel_ids recovered tr_id recovered_id _ _ Hrec).
  - apply list_elem_of_lookup in Ht as [i Hti]. destruct (Forall2_lookup_l _ _ _ _ _ Hrec Hti) as (t' & Hi' & Hrt).
    assert (t' = t) as -> by (destruct Hrt as [->|[E _]]; [done|]; destruct (ri_open _ _ _ _ Hr); congruence).
    by eapply list_elem_of_lookup_2.
  - by apply ready_in_pass.
  - unfold waiting, next_key. by rewrite Et, Ea.
Qed.

(** C16: A ready task does not wait. In an active workflow, a task that is idle or
    scheduled, not a fan-out parent, due, with every upstream outcome satisfied
    and its approval granted, and whose next idempotency key is unused, is
    dispatched by the next claim: unless the statement fails, which rolls the
    whole claim back and leaves the task ready, the answer contains a claim of
    the task and its row is running, or the batch is full. *)
Theorem ready_dispatched wf now s w t :
  inv (st_db s) → workflow_row (st_db s) wf = Some w → wr_status w = ws_active →
  ready_in (st_db s) wf now t → waiting wf t (st_db s) →
  match claimReadyTasks wf now s with
  | (s', Err _) => st_db s' = st_db s
  | (s', Ok r) => (dispatchBatchCap <= length (cm_claimed r))%nat ∨ dispatched t (cm_claimed r) (st_db s')
  end.
Proof.
  intros Hi Hw Ha Hr Hwt.
  apply (wp_run (claimReadyTasks wf now) (λ r d', served t (cm_claimed r) d') (λ _ d', d' = st_db s)).
  unfold claimReadyTasks, select_workflow, loadGraph. apply wp_transaction. wp1. wp1.
  fold (workflow_row (st_db s) wf). rewrite Hw, Ha. cbn [negb]. rewrite bool_decide_true by done. cbn [negb].
  wp1. wp1. wp1. eapply wp_mono; [by apply claim_pass_serves|..].
  - intros l d' Hsv. wps. exact Hsv.
  - done.
Qed.
End live.

(** The agent task of the sample tables, claimed. *)
Definition ready_row : TaskRow := plain_task "t2" "agent_task" ts_idle.

Lemma ready_row_in : ready_in ready_db "w1" 0 ready_row.
Proof.
  split; try reflexivity; [right; left|by left|discriminate| |].
  - intros e He%list_elem_of_singleton. subst e. intros _ _. exists (plain_task "t1" "manual" ts_succeeded).
    split_and!; [left|reflexivity..].
  - by intros a ?%elem_of_nil.
Qed.

Lemma ready_dispatched_witness :
  match claimReadyTasks "w1" 0 (sample_st ready_db) with
  | (s', Err _) => False
  | (s', Ok r) => dispatched ready_row (cm_claimed r) (st_db s')
  end.
Proof.
  assert (Hw : ∃ w, workflow_row ready_db "w1" = Some w ∧ wr_status w = ws_active)
    by (eexists; split; vm_compute; reflexivity).
  destruct Hw as (w & Hw & Ha).
  assert (H := ready_dispatched "w1" 0 (sample_st ready_db) w ready_row ready_inv Hw Ha ready_row_in).
  assert (Hn : length (result_list cm_claimed (claimReadyTasks "w1" 0 (sample_st ready_db)).2) = 1%nat)
    by (vm_compute; reflexivity).
  destruct (claimReadyTasks _ _ _) as [s' [r|e]]; [|discriminate Hn]. cbn in Hn.
  destruct H as [Hcap|Hd]; [split; [right; left|apply not_elem_of_nil]| |exact Hd].
  exfalso. rewrite Hn in Hcap. by apply Nat.leb_le in Hcap.
Defined.
