(* ===== verification/Extensions.v ===== *)
(** * Installed extensions and their dependency edges
      ([packages/extensions/src/canonical-types.ts], [manifest-dependencies.ts],
      [packages/registries/src/version-compare.ts], [scope.ts])

    One row of [installed_extension] per organization, owner and package carries
    the lifecycle status of an extension, where it came from and the edges its
    manifest declares to other extensions.  The manifest reader accepts two
    vocabularies, [cinatra.dependencies] and the older
    [cinatra.agentDependencies]; where both are present they must agree.

    An error is its code with the names its message is made of. *)

From S2P Require Import Prelude Json Spec.

(** ** Rows *)

Inductive ExtensionKind := xk_agent | xk_connector | xk_artifact | xk_skill | xk_workflow.
Inductive ExtensionLifecycleStatus := xs_active | xs_archived | xs_locked.
Inductive ExtensionOwnerLevel := xo_user | xo_team | xo_organization | xo_workspace | xo_platform.
Inductive DependencyEdgeType := xe_runtime | xe_install_time | xe_peer.
Inductive DependencyRequirement := xr_required | xr_optional.
Inductive VersionConstraint :=
  | vc_semver_range (range : string)
  | vc_exact (version : string)
  | vc_git_ref (ref : string).

#[export] Instance ExtensionKind_eq_dec : EqDecision ExtensionKind.
Proof. solve_decision. Defined.
#[export] Instance ExtensionLifecycleStatus_eq_dec : EqDecision ExtensionLifecycleStatus.
Proof. solve_decision. Defined.
#[export] Instance ExtensionOwnerLevel_eq_dec : EqDecision ExtensionOwnerLevel.
Proof. solve_decision. Defined.
#[export] Instance DependencyEdgeType_eq_dec : EqDecision DependencyEdgeType.
Proof. solve_decision. Defined.
#[export] Instance DependencyRequirement_eq_dec : EqDecision DependencyRequirement.
Proof. solve_decision. Defined.
#[export] Instance VersionConstraint_eq_dec : EqDecision VersionConstraint.
Proof. solve_decision. Defined.

Record ExtensionDependency := {
  xd_packageName : string; xd_kind : option ExtensionKind; xd_edgeType : DependencyEdgeType;
  xd_versionConstraint : VersionConstraint; xd_requirement : DependencyRequirement
}.

#[export] Instance ExtensionDependency_eq_dec : EqDecision ExtensionDependency.
Proof. solve_decision. Defined.

(** [source] is a [jsonb] column, read with run-time checks. *)
Record InstalledExtension := {
  ie_id : string; ie_packageName : string; ie_ownerLevel : ExtensionOwnerLevel; ie_ownerId : option string;
  ie_organizationId : option string; ie_kind : ExtensionKind; ie_status : ExtensionLifecycleStatus;
  ie_source : json; ie_requiredInProd : bool; ie_dependencies : list ExtensionDependency;
  ie_manifestHash : option string
}.

Definition EXTENSION_KINDS : list (string * ExtensionKind) :=
  [("agent", xk_agent); ("connector", xk_connector); ("artifact", xk_artifact); ("skill", xk_skill);
   ("workflow", xk_workflow)].
Definition DEPENDENCY_EDGE_TYPES : list (string * DependencyEdgeType) :=
  [("runtime", xe_runtime); ("install-time", xe_install_time); ("peer", xe_peer)].
Definition DEPENDENCY_REQUIREMENTS : list (string * DependencyRequirement) :=
  [("required", xr_required); ("optional", xr_optional)].

(** The member of a list of literals a value is. *)
Definition literal {A} (l : list (string * A)) (v : option json) : option A :=
  s ← str_of v; snd <$> List.find (λ x, x.1 ≟ s) l.

(** ** Provenance *)

Definition PROVENANCE_PLACEHOLDERS : list string := ["pending-resolution"; "latest"; "HEAD"].

Definition provenance_str (v : option json) : bool :=
  match str_of v with
  | Some x => negb (x ≟ "") && negb (bool_decide (x ∈ PROVENANCE_PLACEHOLDERS))
  | None => false
  end.

(** The fields a source of each type must carry. *)
Definition source_fields (type : option string) : option (list string) :=
  match type with
  | Some "verdaccio" => Some ["registryUrl"; "packageName"; "version"; "integrity"]
  | Some "github" => Some ["repo"; "ref"; "resolvedSha"]
  | Some "local" => Some ["path"; "resolvedCommitOrTreeHash"]
  | _ => None
  end%string.

Definition isExtensionSource (value : json) : bool :=
  match source_fields (str_of (jprop "type" value)) with
  | Some fields => is_object value && forallb (λ f, provenance_str (jprop f value)) fields
  | None => false
  end.

Definition validateExtensionSource (value : json) : list string :=
  if negb (is_object value) then ["source is not an object"]
  else
    match str_of (jprop "type" value) with
    | Some type =>
        match source_fields (Some type) with
        | Some fields => map (λ f, type +:+ "." +:+ f) (List.filter (λ f, negb (provenance_str (jprop f value))) fields)
        | None => ["unknown source type '" +:+ type +:+ "'"]
        end
    | None => ["unknown source type '" +:+ match jprop "type" value with Some v => json_String v | None => "undefined" end +:+ "'"]
    end.

(** ** Versions and scopes *)

(** [semver.satisfies(version, range, { includePrerelease: true })]. *)
Class Semver := { semver_satisfies : string → string → bool }.

Definition satisfiesVersionRange `{Semver} (version range : string) : bool := semver_satisfies version range.

Definition FIRST_PARTY_PACKAGE_SCOPE : string := "@cinatra-ai".

(** [s.indexOf(c)], absent for -1. *)
Fixpoint index_of (c : ascii) (s : string) : option nat :=
  match s with
  | EmptyString => None
  | String c' r => if c ≟ c' then Some 0%nat else S <$> index_of c r
  end.

Definition vendorScopeOfPackage (packageName : string) : option string :=
  if negb (startsWith "@" packageName) then None
  else match index_of "/" packageName with
       | Some slash => if (slash <=? 1)%nat then None else Some (str_take slash packageName)
       | None => None
       end.

Definition dependencyScopePrefixesFor (rootPackageName : string) : list string :=
  let first := FIRST_PARTY_PACKAGE_SCOPE +:+ "/" in
  match vendorScopeOfPackage rootPackageName with
  | Some own => if own +:+ "/" ≟ first then [first] else [first; own +:+ "/"]
  | None => [first]
  end.

(** ** Edges *)

Definition isInstallBlockingEdge (dep : ExtensionDependency) : bool :=
  (xd_requirement dep ≟ xr_required) && negb (xd_edgeType dep ≟ xe_peer).

Definition isAutoInstallableEdge (dep : ExtensionDependency) : bool :=
  (xd_requirement dep ≟ xr_required) && negb (xd_edgeType dep ≟ xe_peer).

Definition isNonEmptyString (v : option json) : bool :=
  match str_of v with Some s => negb (s ≟ "") | None => false end.

(** [versionConstraint] of a value, with the problem it has otherwise. *)
Definition constraint_of (vc : option json) : result string VersionConstraint :=
  let member k (mk : string → VersionConstraint) v :=
    match str_of (jprop k v) with
    | Some s => if s ≟ "" then Err ("versionConstraint." +:+ k +:+ " must be a non-empty string") else Ok (mk s)
    | None => Err ("versionConstraint." +:+ k +:+ " must be a non-empty string")
    end in
  match vc with
  | Some v =>
      if negb (is_object v) then Err "versionConstraint must be an object"
      else match str_of (jprop "kind" v) with
           | Some "semver-range" => member "range" vc_semver_range v
           | Some "exact" => member "version" vc_exact v
           | Some "git-ref" => member "ref" vc_git_ref v
           | _ => Err "versionConstraint.kind must be one of semver-range|exact|git-ref"
           end%string
  | None => Err "versionConstraint must be an object"
  end.

Definition constraint_problems (vc : option json) : list string :=
  match constraint_of vc with Ok _ => [] | Err p => [p] end.

(** [own] is the name of the declaring package, empty or absent when unknown. *)
Definition is_self (own : option string) (name : string) : bool :=
  match own with Some o => negb (o ≟ "") && (name ≟ o) | None => false end.

Definition validateExtensionDependencyShape (value : json) (own : option string) : list string :=
  match value with
  | JObj _ =>
      (if negb (isNonEmptyString (jprop "packageName" value)) then ["packageName must be a non-empty string"]
       else if is_self own (str_of (jprop "packageName" value) ?? "") then
         ["self-edge (a package cannot depend on itself)"] else []) ++
      (if is_present (literal DEPENDENCY_EDGE_TYPES (jprop "edgeType" value)) then []
       else ["edgeType must be one of runtime|install-time|peer"]) ++
      (if is_present (literal DEPENDENCY_REQUIREMENTS (jprop "requirement" value)) then []
       else ["requirement must be one of required|optional"]) ++
      (if is_present (jprop "kind" value) && negb (is_present (literal EXTENSION_KINDS (jprop "kind" value)))
       then ["kind, when present, must be one of agent|connector|artifact|skill|workflow"] else []) ++
      constraint_problems (jprop "versionConstraint" value)
  | _ => ["entry is not an object"]
  end.

(** A valid entry as the edge its readers see; no other member is ever read. *)
Definition dependency_of (value : json) : option ExtensionDependency :=
  name ← str_of (jprop "packageName" value);
  edge ← literal DEPENDENCY_EDGE_TYPES (jprop "edgeType" value);
  requirement ← literal DEPENDENCY_REQUIREMENTS (jprop "requirement" value);
  match constraint_of (jprop "versionConstraint" value) with
  | Ok vc => Some {| xd_packageName := name; xd_kind := literal EXTENSION_KINDS (jprop "kind" value);
                     xd_edgeType := edge; xd_versionConstraint := vc; xd_requirement := requirement |}
  | Err _ => None
  end.

(** ** The manifest reader *)

Inductive ManifestDependencyCode := md_MALFORMED | md_CONFLICT.
Record ManifestDependencyError := { me_code : ManifestDependencyCode; me_details : list string }.

Inductive EdgeSource := src_canonical | src_legacy_agent | src_none.
Record ManifestDependencyReadResult := { mr_edges : list ExtensionDependency; mr_source : EdgeSource }.

Definition malformed (details : list string) : ManifestDependencyError :=
  {| me_code := md_MALFORMED; me_details := details |}.

(** The loop over [cinatra.dependencies]. *)
Fixpoint canonical_edges (own : option string) (edges : list ExtensionDependency) (entries : list json)
    : result ManifestDependencyError (list ExtensionDependency) :=
  match entries with
  | [] => Ok edges
  | entry :: rest =>
      match validateExtensionDependencyShape entry own with
      | [] =>
          match dependency_of entry with
          | Some dep =>
              if bool_decide (xd_packageName dep ∈ map xd_packageName edges) then Err (malformed [xd_packageName dep])
              else canonical_edges own (edges ++ [dep]) rest
          | None => Err (malformed [json_stringify entry])
          end
      | problems => Err (malformed (json_stringify entry :: problems))
      end
  end.

(** The loop over the entries of [cinatra.agentDependencies]. *)
Fixpoint legacy_entries (own : option string) (legacy : list (string * string)) (entries : list (string * json))
    : result ManifestDependencyError (list (string * string)) :=
  match entries with
  | [] => Ok legacy
  | (name, range) :: rest =>
      match str_of (Some range) with
      | Some r =>
          if (name ≟ "") || (r ≟ "") then Err (malformed [json_stringify (JObj [(name, range)])])
          else if is_self own name then Err (malformed [name])
          else legacy_entries own (legacy ++ [(name, r)]) rest
      | None => Err (malformed [json_stringify (JObj [(name, range)])])
      end
  end.

Definition edge_named (name : string) (edges : list ExtensionDependency) : option ExtensionDependency :=
  List.find (λ d, xd_packageName d ≟ name) edges.

(** A legacy name the canonical array drops or weakens. *)
Definition conflicts (canonical : list ExtensionDependency) (legacy : list (string * string)) : list string :=
  omap (λ e, match edge_named e.1 canonical with
             | None => Some e.1
             | Some c => if negb (xd_requirement c ≟ xr_required) || (xd_edgeType c ≟ xe_peer) then Some e.1 else None
             end) legacy.

Definition legacy_edge (e : string * string) : ExtensionDependency := {|
  xd_packageName := e.1; xd_kind := None; xd_edgeType := xe_runtime;
  xd_versionConstraint := vc_semver_range e.2; xd_requirement := xr_required |}.

Definition cinatra_member (k : string) (manifest : json) : option json :=
  cinatra ← jprop "cinatra" manifest; jprop k cinatra.

Definition read_canonical (own : option string) (raw : option json)
    : result ManifestDependencyError (option (list ExtensionDependency)) :=
  match raw with
  | None => Ok None
  | Some (JArr entries) => edges ← canonical_edges own [] entries; Ok (Some edges)
  | Some v => Err (malformed [json_typeof v])
  end.

Definition read_legacy (own : option string) (raw : option json)
    : result ManifestDependencyError (option (list (string * string))) :=
  match raw with
  | None => Ok None
  | Some (JObj entries) => legacy ← legacy_entries own [] entries; Ok (Some legacy)
  | Some v => Err (malformed [json_typeof v])
  end.

(** [packageName] is [opts.packageName]. *)
Definition parseManifestDependencyEdges (manifest : json) (packageName : option string)
    : result ManifestDependencyError ManifestDependencyReadResult :=
  let own := match packageName with Some n => Some n | None => str_of (jprop "name" manifest) end in
  canonical ← read_canonical own (cinatra_member "dependencies" manifest);
  legacy ← read_legacy own (cinatra_member "agentDependencies" manifest);
  match canonical, legacy with
  | Some edges, Some ((_ :: _) as l) =>
      match conflicts edges l with
      | [] => Ok {| mr_edges := edges; mr_source := src_canonical |}
      | names => Err {| me_code := md_CONFLICT; me_details := names |}
      end
  | Some edges, _ => Ok {| mr_edges := edges; mr_source := src_canonical |}
  | None, Some ((_ :: _) as l) => Ok {| mr_edges := map legacy_edge l; mr_source := src_legacy_agent |}
  | None, _ => Ok {| mr_edges := []; mr_source := src_none |}
  end.

(** ** What the reader accepts *)

Lemma literal_present {A} (l : list (string * A)) v : is_present (literal l v) = true → is_Some (literal l v).
Proof. by destruct (literal l v). Qed.

Lemma str_of_named v : isNonEmptyString v = true → ∃ s, str_of v = Some s ∧ s ≠ "".
Proof. unfold isNonEmptyString. destruct (str_of v) as [s|]; [|done]. intros Hs. bprop. by exists s. Qed.

(** A valid entry is an edge with a name that is not the declaring package's. *)
Lemma valid_entry own value : validateExtensionDependencyShape value own = [] →
  ∃ d, dependency_of value = Some d ∧ xd_packageName d ≠ "" ∧ is_self own (xd_packageName d) = false.
Proof.
  unfold validateExtensionDependencyShape. destruct value as [| | | | |kvs]; try (intros E; discriminate E).
  intros (Hn & He & Hr & _ & Hc)%app_nil_iff5. destruct (negb (isNonEmptyString _)) eqn:E1; [discriminate|].
  apply negb_false_iff, str_of_named in E1 as (s & Es & Hs). rewrite Es in Hn. cbn [default id] in Hn.
  destruct (is_self own s) eqn:E2; [discriminate|].
  destruct (literal DEPENDENCY_EDGE_TYPES _) as [e|] eqn:E3; [|discriminate].
  destruct (literal DEPENDENCY_REQUIREMENTS _) as [q|] eqn:E4; [|discriminate].
  unfold constraint_problems in Hc. destruct (constraint_of _) as [vc|] eqn:E5; [|discriminate].
  unfold dependency_of. rewrite Es, E3, E4, E5. cbn. eexists. split; [done|]. by cbn.
Qed.

Definition declares (own : option string) (entry : json) (d : ExtensionDependency) : Prop :=
  validateExtensionDependencyShape entry own = [] ∧ dependency_of entry = Some d.

Lemma canonical_edges_Ok own acc entries es : NoDup (map xd_packageName acc) →
  canonical_edges own acc entries = Ok es ↔
  ∃ ds, es = acc ++ ds ∧ Forall2 (declares own) entries ds ∧ NoDup (map xd_packageName es).
Proof.
  revert acc. induction entries as [|entry rest IH]; intros acc Hnd; cbn.
  { split; [intros [= <-]; exists []; by rewrite app_nil_r|]. intros (ds & -> & Hf & _). inversion Hf. by rewrite app_nil_r. }
  destruct (validateExtensionDependencyShape entry own) as [|p ps] eqn:Ev; cycle 1.
  { split; [done|]. intros (ds & _ & Hf & _). inversion Hf as [|? ? ? ? [H _]]. congruence. }
  destruct (valid_entry own entry Ev) as (d & Ed & _). rewrite Ed.
  case_bool_decide as Hin.
  { split; [done|]. intros (ds & -> & Hf & Hnd'). inversion Hf as [|? d' ? ? [_ Hd']]; subst. exfalso.
    assert (d' = d) as -> by congruence. rewrite map_app in Hnd'. apply NoDup_app in Hnd' as (_ & Hn & _).
    apply (Hn _ Hin). cbn. left. }
  rewrite IH; cycle 1.
  { rewrite map_app. apply NoDup_app. split_and!; [done| |apply NoDup_singleton].
    intros x Hx ->%list_elem_of_singleton. by destruct Hin. }
  split.
  - intros (ds & -> & Hf & Hnd'). exists (d :: ds). rewrite <- app_assoc in *. split_and!; [done| |done]. by constructor.
  - intros (ds & -> & Hf & Hnd'). inversion Hf as [|? d' ? ds' [_ Hd'] Hf']; subst.
    assert (d' = d) as -> by congruence. exists ds'. by rewrite <- app_assoc.
Qed.

(** An entry of the legacy map: a range for another package. *)
Definition names_range (own : option string) (entry : string * json) (e : string * string) : Prop :=
  e.1 = entry.1 ∧ entry.2 = JStr e.2 ∧ e.1 ≠ "" ∧ e.2 ≠ "" ∧ is_self own e.1 = false.

Lemma legacy_entries_Ok own acc entries l :
  legacy_entries own acc entries = Ok l ↔ ∃ ls, l = acc ++ ls ∧ Forall2 (names_range own) entries ls.
Proof.
  revert acc. induction entries as [|[name range] rest IH]; intros acc; cbn.
  { split; [intros [= <-]; exists []; by rewrite app_nil_r|]. intros (ls & -> & Hf). inversion Hf. by rewrite app_nil_r. }
  assert (Hno : ∀ E, (∀ r, range = JStr r → name ≠ "" → r ≠ "" → is_self own name = false → False) →
    (Err (E := ManifestDependencyError) E = Ok l ↔
     ∃ ls, l = acc ++ ls ∧ Forall2 (names_range own) ((name, range) :: rest) ls)).
  { intros E Hn. split; [done|]. intros (ls & _ & Hf). inversion Hf as [|? [n r] ? ? (Hn1 & Hr & Hne & Hre & Hs)].
    cbn in *. subst. exfalso. by eapply Hn. }
  destruct (match range with JStr s => Some s | _ => None end) as [r|] eqn:Er; cycle 1.
  { apply Hno. intros r ->. discriminate. }
  assert (range = JStr r) as -> by (by destruct range; simplify_eq).
  destruct ((name ≟ "") || (r ≟ "")) eqn:E1.
  { apply Hno. intros r' [= <-] H1 H2 _. apply orb_true_iff in E1 as [E1|E1]; by bprop. }
  destruct (is_self own name) eqn:E2; [apply Hno; intros; congruence|]. bprop.
  rewrite IH. split.
  - intros (ls & -> & Hf). exists ((name, r) :: ls). rewrite <- app_assoc. split; [done|]. constructor; [by split_and!|done].
  - intros (ls & -> & Hf). inversion Hf as [|? [n r'] ? ls' (Hn1 & Hr & _) Hf']; subst. cbn in *.
    injection Hr as <-. subst. exists ls'. by rewrite <- app_assoc.
Qed.

(** The canonical array restates the legacy map. *)
Definition restates (ds : list ExtensionDependency) (legacy : list (string * string)) : Prop :=
  ∀ e, e ∈ legacy → ∃ d, d ∈ ds ∧ xd_packageName d = e.1 ∧ isInstallBlockingEdge d = true.

Lemma edge_named_in name ds d : NoDup (map xd_packageName ds) → d ∈ ds → xd_packageName d = name →
  edge_named name ds = Some d.
Proof.
  intros Hnd Hd Hname. destruct (edge_named name ds) as [d'|] eqn:E.
  - apply find_some in E as [Hin E]. bprop. f_equal. apply list_elem_of_In in Hin.
    apply (row_unique xd_packageName ds); [done..|congruence].
  - exfalso. pose proof (find_none _ _ E d (proj1 (list_elem_of_In _ _) Hd)) as H. cbn in H. by bprop.
Qed.

Lemma conflicts_nil ds legacy : NoDup (map xd_packageName ds) → conflicts ds legacy = [] ↔ restates ds legacy.
Proof.
  intros Hnd. unfold conflicts, restates. induction legacy as [|e l IH]; cbn.
  { split; [|done]. by intros _ e ?%elem_of_nil. }
  assert (He : (∃ d, d ∈ ds ∧ xd_packageName d = e.1 ∧ isInstallBlockingEdge d = true) ↔
    match edge_named e.1 ds with
    | Some c => isInstallBlockingEdge c = true
    | None => False
    end).
  { split.
    - intros (d & Hd & Hn & Hb). by rewrite (edge_named_in _ _ _ Hnd Hd Hn).
    - destruct (edge_named e.1 ds) as [c|] eqn:E; [|done]. apply find_some in E as [Hin E]. bprop.
      intros Hb. exists c. split_and!; [by apply list_elem_of_In|done|done]. }
  setoid_rewrite elem_of_cons.
  transitivity ((∃ d, d ∈ ds ∧ xd_packageName d = e.1 ∧ isInstallBlockingEdge d = true) ∧
    (∀ x, x ∈ l → ∃ d, d ∈ ds ∧ xd_packageName d = x.1 ∧ isInstallBlockingEdge d = true)); [|naive_solver].
  rewrite <- IH, He. unfold isInstallBlockingEdge. destruct (edge_named e.1 ds) as [c|]; [|naive_solver].
  destruct (xd_requirement c), (xd_edgeType c); cbn; naive_solver.
Qed.

(** What each vocabulary of a manifest declares. *)
Definition canonical_declared (own : option string) (raw : option json) (ds : option (list ExtensionDependency)) : Prop :=
  match raw, ds with
  | None, None => True
  | Some (JArr entries), Some ds => Forall2 (declares own) entries ds ∧ NoDup (map xd_packageName ds)
  | _, _ => False
  end.
Definition legacy_declared (own : option string) (raw : option json) (legacy : list (string * string)) : Prop :=
  match raw with
  | None => legacy = []
  | Some (JObj entries) => Forall2 (names_range own) entries legacy
  | _ => False
  end.

(** The edges two vocabularies that agree stand for. *)
Definition declared_edges (ds : option (list ExtensionDependency)) (legacy : list (string * string))
    : ManifestDependencyReadResult :=
  match ds, legacy with
  | Some ds, _ => {| mr_edges := ds; mr_source := src_canonical |}
  | None, [] => {| mr_edges := []; mr_source := src_none |}
  | None, _ => {| mr_edges := map legacy_edge legacy; mr_source := src_legacy_agent |}
  end.

Lemma read_canonical_Ok own raw ds : read_canonical own raw = Ok ds ↔ canonical_declared own raw ds.
Proof.
  destruct raw as [[| | | |entries|]|], ds as [ds|]; cbn; try (split; [discriminate|done]); try done.
  - rewrite result_bind_Ok. setoid_rewrite canonical_edges_Ok; [|constructor]. split.
    + by intros (es & (ds' & -> & Hf & Hnd) & [= <-]).
    + intros [Hf Hnd]. exists ds. split; [by exists ds|done].
  - split; [|done]. rewrite result_bind_Ok. by intros (? & _ & [=]).
Qed.

Lemma read_legacy_Ok own raw l : read_legacy own raw = Ok l ↔
  ∃ legacy, legacy_declared own raw legacy ∧ l = ((λ _, legacy) <$> raw).
Proof.
  destruct raw as [[| | | | |entries]|]; cbn; try (split; [done|by intros (? & [] & _)]).
  - rewrite result_bind_Ok. setoid_rewrite legacy_entries_Ok. split.
    + intros (l' & (ls & -> & Hf) & [= <-]). by exists ls.
    + intros (ls & Hf & ->). exists ls. split; [by exists ls|done].
  - split; [intros [= <-]; by exists []|by intros (? & -> & ->)].
Qed.

(** C33: The manifest reader drops, invents and weakens no edge.  It answers
    exactly when both vocabularies of the manifest are well-formed (entries of
    the right shape, distinct packages, none the package itself) and the canonical
    one restates every legacy name as a required, non-peer edge; and then with
    the canonical edges in order, or with one required run-time edge per legacy
    entry when there is no canonical array. *)
Theorem manifest_edges_spec manifest packageName r :
  let own := match packageName with Some n => Some n | None => str_of (jprop "name" manifest) end in
  parseManifestDependencyEdges manifest packageName = Ok r ↔
  ∃ ds legacy,
    canonical_declared own (cinatra_member "dependencies" manifest) ds ∧
    legacy_declared own (cinatra_member "agentDependencies" manifest) legacy ∧
    (∀ l, ds = Some l → restates l legacy) ∧ r = declared_edges ds legacy.
Proof.
  intros own. unfold parseManifestDependencyEdges. fold own. set (raw := cinatra_member "agentDependencies" manifest).
  rewrite result_bind_Ok. setoid_rewrite read_canonical_Ok. setoid_rewrite result_bind_Ok. setoid_rewrite read_legacy_Ok.
  assert (Hno : ∀ legacy, legacy_declared own raw legacy → ((λ _, legacy) <$> raw) = None → legacy = [])
    by (intros legacy Hl E; by destruct raw).
  assert (Hnd : ∀ ds, canonical_declared own (cinatra_member "dependencies" manifest) (Some ds) →
    NoDup (map xd_packageName ds)) by (intros ds Hds; destruct (cinatra_member "dependencies" _) as [[]|]; destruct Hds; done).
  assert (Hnil : ∀ ds, restates ds []) by (by intros ds e ?%elem_of_nil).
  split.
  - intros (ds & Hds & ? & (legacy & Hl & ->) & Hr). exists ds, legacy. split; [done|]. split; [done|].
    destruct ds as [ds|], legacy as [|e l], raw as [v|]; cbn -[conflicts] in Hr; try (by specialize (Hno _ Hl eq_refl));
      try (injection Hr as <-; split; [first [intros ? [= <-]; apply Hnil|discriminate]|done]).
    destruct (conflicts ds (e :: l)) eqn:E; [|done]. injection Hr as <-. split; [|done].
    intros ? [= <-]. apply conflicts_nil in E; [done|by apply Hnd].
  - intros (ds & legacy & Hds & Hl & Hres & ->). exists ds. split; [done|]. exists ((λ _, legacy) <$> raw).
    split; [by exists legacy|].
    destruct ds as [ds|], legacy as [|e l], raw as [v|]; cbn -[conflicts]; try done; try (by specialize (Hno _ Hl eq_refl)).
    specialize (Hres ds eq_refl). apply conflicts_nil in Hres; [|by apply Hnd]. by rewrite Hres.
Qed.
