(* ===== verification/Closure.v ===== *)
(** * The dependency closure of installed extensions
      ([packages/extensions/src/dependency-closure.ts], the boot diagnostics of
      [src/lib/extension-closure-boot-gate.ts])

    A snapshot is the list of all rows of [installed_extension].  A dependent at
    an organization resolves a package name to the organization's own live row,
    else to the platform's.  [computeClosure] walks the edges depth first with an
    explicit stack; its fuel bounds the number of stack entries popped, which is
    at most one per package name.

    The gates (install, restore, archive, update, boot) are functions of a
    snapshot. *)

From S2P Require Import Prelude Json Spec Extensions.

(** ** Lookup *)

(** [PRESENT_STATUSES.has(status)]. *)
Definition is_live (r : InstalledExtension) : bool := negb (ie_status r ≟ xs_archived).

(** [(r.organizationId ?? null) === org]. *)
Definition at_org (org : option string) (r : InstalledExtension) : bool := ie_organizationId r ≟ org.

Abbreviation ManifestLookup := (string → option InstalledExtension).

Definition makeScopedManifestLookup (rows : list InstalledExtension) (organizationId : option string)
    : ManifestLookup := λ name,
  let live := List.filter (λ r, (ie_packageName r ≟ name) && is_live r) rows in
  match match organizationId with
        | Some _ => List.find (at_org organizationId) live
        | None => None
        end with
  | Some r => Some r
  | None => List.find (at_org None) live
  end.

(** The version of a registry install; other sources carry none. *)
Definition installedVersionOfRow (row : InstalledExtension) : option string :=
  if jprop "type" (ie_source row) ≟ Some (JStr "verdaccio") then
    match str_of (jprop "version" (ie_source row)) with
    | Some v => if v ≟ "" then None else Some v
    | None => None
    end
  else None.

(** ** The closure *)

Record ClosureNode := {
  cn_packageName : string; cn_status : option ExtensionLifecycleStatus; cn_kind : option ExtensionKind
}.
Record RangeViolation := {
  rv_packageName : string; rv_via : string; rv_installedVersion : string; rv_constraint : string
}.
Record ClosureResult := {
  cr_missingRequired : list ClosureNode; cr_missingOptional : list ClosureNode; cr_missingPeer : list ClosureNode;
  cr_rangeViolations : list RangeViolation; cr_visited : list string
}.
Definition cr_ok (r : ClosureResult) : bool := match cr_missingRequired r with [] => true | _ => false end.

Section closure.
Context `{Semver}.

(** The violated constraint, as displayed. *)
Definition edgeVersionViolation (dep : ExtensionDependency) (installedVersion : option string) : option string :=
  match installedVersion with
  | None => None
  | Some v =>
      match xd_versionConstraint dep with
      | vc_semver_range range =>
          if (range ≟ "*") || satisfiesVersionRange v range then None else Some (quoted range)
      | vc_exact version => if version ≟ v then None else Some ("=" +:+ version)
      | vc_git_ref _ => None
      end
  end.

Definition missing_node (dep : ExtensionDependency) (installed : option InstalledExtension) : ClosureNode := {|
  cn_packageName := xd_packageName dep; cn_status := ie_status <$> installed; cn_kind := ie_kind <$> installed |}.

Definition violation_of (from : string) (dep : ExtensionDependency) (installed : InstalledExtension)
    : list RangeViolation :=
  if isInstallBlockingEdge dep then
    match edgeVersionViolation dep (installedVersionOfRow installed) with
    | Some c => [{| rv_packageName := xd_packageName dep; rv_via := from;
                    rv_installedVersion := installedVersionOfRow installed ?? "(unknown)"; rv_constraint := c |}]
    | None => []
    end
  else [].

Abbreviation closure_entry := (string * list ExtensionDependency)%type.

(** The body of the loop over the edges of one popped entry. *)
Definition visit_edge (lookup : ManifestLookup) (from : string)
    (acc : list closure_entry * ClosureResult) (dep : ExtensionDependency) : list closure_entry * ClosureResult :=
  let '(stack, r) := acc in
  let installed := lookup (xd_packageName dep) in
  let missing :=
    let node := missing_node dep installed in
    if xd_edgeType dep ≟ xe_peer then
      {| cr_missingRequired := cr_missingRequired r; cr_missingOptional := cr_missingOptional r;
         cr_missingPeer := cr_missingPeer r ++ [node]; cr_rangeViolations := cr_rangeViolations r;
         cr_visited := cr_visited r |}
    else if isInstallBlockingEdge dep then
      {| cr_missingRequired := cr_missingRequired r ++ [node]; cr_missingOptional := cr_missingOptional r;
         cr_missingPeer := cr_missingPeer r; cr_rangeViolations := cr_rangeViolations r;
         cr_visited := cr_visited r |}
    else
      {| cr_missingRequired := cr_missingRequired r; cr_missingOptional := cr_missingOptional r ++ [node];
         cr_missingPeer := cr_missingPeer r; cr_rangeViolations := cr_rangeViolations r;
         cr_visited := cr_visited r |} in
  match installed with
  | Some row =>
      if is_live row then
        let violations := cr_rangeViolations r ++ violation_of from dep row in
        let new := negb (bool_decide (xd_packageName dep ∈ cr_visited r)) in
        (if new then (xd_packageName dep, ie_dependencies row) :: stack else stack,
         {| cr_missingRequired := cr_missingRequired r; cr_missingOptional := cr_missingOptional r;
            cr_missingPeer := cr_missingPeer r; cr_rangeViolations := violations;
            cr_visited := if new then cr_visited r ++ [xd_packageName dep] else cr_visited r |})
      else (stack, missing)
  | None => (stack, missing)
  end.

(** The walk; [None] means that the fuel ran out. *)
Fixpoint closure_loop (fuel : nat) (lookup : ManifestLookup) (stack : list closure_entry) (r : ClosureResult)
    : option ClosureResult :=
  match stack with
  | [] => Some r
  | (from, deps) :: rest =>
      match fuel with
      | O => None
      | S f => let '(stack', r') := foldl (visit_edge lookup from) (rest, r) deps in closure_loop f lookup stack' r'
      end
  end.

Definition computeClosure (fuel : nat) (root : InstalledExtension) (lookup : ManifestLookup) : option ClosureResult :=
  closure_loop fuel lookup [(ie_packageName root, ie_dependencies root)]
    {| cr_missingRequired := []; cr_missingOptional := []; cr_missingPeer := []; cr_rangeViolations := [];
       cr_visited := [ie_packageName root] |}.

(** The closure of a row at its own scope, over a snapshot.  The fuel is enough:
    see [closure_in_spec]. *)
Definition closure_at (rows : list InstalledExtension) (organizationId : option string) (target : InstalledExtension)
    : ClosureResult :=
  computeClosure (S (length rows)) target (makeScopedManifestLookup rows organizationId) ??
    {| cr_missingRequired := []; cr_missingOptional := []; cr_missingPeer := []; cr_rangeViolations := []; cr_visited := [] |}.

(** ** Verdicts *)

Inductive OptionalMissingBehavior := om_stop_run_hitl | om_skip_step_audit | om_log_continue | om_fail_instantiate.
#[export] Instance OptionalMissingBehavior_eq_dec : EqDecision OptionalMissingBehavior.
Proof. solve_decision. Defined.

Definition optionalMissingBehaviorForKind (kind : ExtensionKind) : OptionalMissingBehavior :=
  match kind with
  | xk_agent => om_stop_run_hitl
  | xk_connector => om_skip_step_audit
  | xk_skill => om_log_continue
  | xk_artifact => om_log_continue
  | xk_workflow => om_fail_instantiate
  end.

Record OptionalMissingAdvisory := {
  oa_kind : ExtensionKind; oa_behavior : OptionalMissingBehavior; oa_missingOptional : list ClosureNode
}.
Inductive ExecutionBlock :=
  | eb_REQUIRED_MISSING (missing : list string)
  | eb_OPTIONAL_MISSING_FAILS_INSTANTIATE (missing : list string).
Record ExecutionClosureVerdict := {
  xv_requiredClosureOk : bool; xv_missingRequired : list ClosureNode;
  xv_advisory : option OptionalMissingAdvisory; xv_executionBlock : option ExecutionBlock
}.

(** The verdict on a closure computed for a target of this kind. *)
Definition verdict_of (kind : ExtensionKind) (result : ClosureResult) : ExecutionClosureVerdict :=
  let missingAdvisory := cr_missingOptional result ++ cr_missingPeer result in
  let advisory := match missingAdvisory with
    | [] => None
    | _ => Some {| oa_kind := kind; oa_behavior := optionalMissingBehaviorForKind kind;
                   oa_missingOptional := missingAdvisory |}
    end in {|
  xv_requiredClosureOk := cr_ok result; xv_missingRequired := cr_missingRequired result; xv_advisory := advisory;
  xv_executionBlock :=
    match cr_missingRequired result with
    | _ :: _ => Some (eb_REQUIRED_MISSING (map cn_packageName (cr_missingRequired result)))
    | [] =>
        match advisory with
        | Some a =>
            if oa_behavior a ≟ om_fail_instantiate then
              Some (eb_OPTIONAL_MISSING_FAILS_INSTANTIATE (map cn_packageName (oa_missingOptional a)))
            else None
        | None => None
        end
    end |}.

Definition evaluateExecutionClosure (rows : list InstalledExtension) (organizationId : option string)
    (target : InstalledExtension) : ExecutionClosureVerdict :=
  verdict_of (ie_kind target) (closure_at rows organizationId target).

(** ** The boot diagnostics *)

Record BrokenClosure := {
  bc_packageName : string; bc_missingRequired : list string; bc_rangeViolations : list string
}.

Definition violation_text (v : RangeViolation) : string :=
  rv_packageName v +:+ "@" +:+ rv_installedVersion v +:+ " violates " +:+ rv_constraint v +:+ " required by " +:+ rv_via v.

Definition findBrokenClosures (rows : list InstalledExtension) : list BrokenClosure :=
  omap (λ row,
    if negb (is_live row) then None
    else
      let result := closure_at rows (ie_organizationId row) row in
      match cr_missingRequired result, cr_rangeViolations result with
      | [], [] => None
      | missing, violations =>
          Some {| bc_packageName := ie_packageName row; bc_missingRequired := map cn_packageName missing;
                  bc_rangeViolations := map violation_text violations |}
      end) rows.

(** ** The gates *)

Inductive DependencyClosureCode :=
  dc_REQUIRED_MISSING | dc_ARCHIVE_BREAKS_CLOSURE | dc_UPDATE_BREAKS_DEPENDENTS | dc_RANGE_VIOLATION.
Record DependencyClosureError := { ce_code : DependencyClosureCode; ce_dependents : list string }.

Definition closure_error (code : DependencyClosureCode) (dependents : list string) : DependencyClosureError :=
  {| ce_code := code; ce_dependents := dependents |}.

(** Restoring an archived row. *)
Definition assertInstallClosure (rows : list InstalledExtension) (organizationId : option string)
    (candidate : InstalledExtension) : result DependencyClosureError ClosureResult :=
  let result := closure_at rows organizationId candidate in
  match cr_missingRequired result, cr_rangeViolations result with
  | [], (_ :: _) as v => Err (closure_error dc_RANGE_VIOLATION (map rv_packageName (cr_rangeViolations result)))
  | (_ :: _) as m, _ => Err (closure_error dc_REQUIRED_MISSING (map cn_packageName m))
  | [], [] => Ok result
  end.

Definition requires_target (name : string) (row : InstalledExtension) : bool :=
  existsb (λ d, (xd_packageName d ≟ name) && isInstallBlockingEdge d) (ie_dependencies row).

Definition assertArchiveDoesNotBreakClosure (target : InstalledExtension) (allRows : list InstalledExtension)
    : result DependencyClosureError unit :=
  let blockingDependents := map ie_packageName (List.filter (λ row,
    negb (ie_packageName row ≟ ie_packageName target) && is_live row && requires_target (ie_packageName target) row)
    allRows) in
  match blockingDependents with
  | [] => Ok ()
  | _ => Err (closure_error dc_ARCHIVE_BREAKS_CLOSURE blockingDependents)
  end.

(** The live rows of a package, at a scope when one is given. *)
Definition rows_at (packageName : string) (organizationId : option (option string)) (allRows : list InstalledExtension)
    : list InstalledExtension :=
  List.filter (λ r, (ie_packageName r ≟ packageName) && is_live r &&
    match organizationId with None => true | Some org => at_org org r end) allRows.

Definition assertForwardInstallClosureForPackage (packageName : string) (allRows : list InstalledExtension)
    (organizationId : option (option string)) : result DependencyClosureError unit :=
  _ ← mapM (λ target,
    let result := closure_at allRows (ie_organizationId target) target in
    match cr_rangeViolations result, cr_missingRequired result with
    | (_ :: _) as v, _ => Err (closure_error dc_RANGE_VIOLATION (map rv_packageName v))
    | [], (_ :: _) as m => Err (closure_error dc_REQUIRED_MISSING (map cn_packageName (cr_missingRequired result)))
    | [], [] => Ok ()
    end) (rows_at packageName organizationId allRows);
  Ok ().

(** The violated edges of one dependent. *)
Definition update_violations (packageName newVersion : string) (row : InstalledExtension) : list (string * string) :=
  omap (λ dep,
    if (xd_packageName dep ≟ packageName) && isInstallBlockingEdge dep then
      pair (ie_packageName row) <$> edgeVersionViolation dep (Some newVersion)
    else None) (ie_dependencies row).

Definition assertUpdateDoesNotBreakDependents (packageName newVersion : string) (allRows : list InstalledExtension)
    (organizationId : option (option string)) : result DependencyClosureError unit :=
  let targetIds := map ie_id (rows_at packageName organizationId allRows) in
  match targetIds with
  | [] => Ok ()
  | _ =>
      let violations := flat_map (λ row,
        if (ie_packageName row ≟ packageName) || negb (is_live row) then []
        else match makeScopedManifestLookup allRows (ie_organizationId row) packageName with
             | Some resolved => if bool_decide (ie_id resolved ∈ targetIds)
                                then update_violations packageName newVersion row else []
             | None => []
             end) allRows in
      match violations with
      | [] => Ok ()
      | _ => Err (closure_error dc_UPDATE_BREAKS_DEPENDENTS (dedup (map fst violations)))
      end
  end.

(** ** The walk *)

Definition live_target (lookup : ManifestLookup) (dep : ExtensionDependency) : option InstalledExtension :=
  match lookup (xd_packageName dep) with
  | Some row => if is_live row then Some row else None
  | None => None
  end.

(** What the edges of one entry add to each bucket. *)
Definition missing_edges (kind : ExtensionDependency → bool) (lookup : ManifestLookup) (e : closure_entry)
    : list ClosureNode :=
  map (λ d, missing_node d (lookup (xd_packageName d)))
    (List.filter (λ d, negb (is_present (live_target lookup d)) && kind d) e.2).
Definition violating_edges (lookup : ManifestLookup) (e : closure_entry) : list RangeViolation :=
  flat_map (λ d, match live_target lookup d with Some row => violation_of e.1 d row | None => [] end) e.2.

Definition is_peer (d : ExtensionDependency) : bool := xd_edgeType d ≟ xe_peer.
Definition is_optional (d : ExtensionDependency) : bool := negb (is_peer d) && negb (isInstallBlockingEdge d).

(** The packages a root depends on, directly or not, with their edges. *)
Inductive reached (lookup : ManifestLookup) (root : InstalledExtension) : string → list ExtensionDependency → Prop :=
  | reached_root : reached lookup root (ie_packageName root) (ie_dependencies root)
  | reached_edge from deps d row :
      reached lookup root from deps → d ∈ deps → live_target lookup d = Some row →
      xd_packageName d ≠ ie_packageName root →
      reached lookup root (xd_packageName d) (ie_dependencies row).

(** A result holding the edges of the entries [l]. *)
Definition collects (lookup : ManifestLookup) (l : list closure_entry) (r : ClosureResult) : Prop :=
  cr_missingRequired r = flat_map (missing_edges isInstallBlockingEdge lookup) l ∧
  cr_missingOptional r = flat_map (missing_edges is_optional lookup) l ∧
  cr_missingPeer r = flat_map (missing_edges is_peer lookup) l ∧
  cr_rangeViolations r = flat_map (violating_edges lookup) l.

Lemma blocking_not_peer d : isInstallBlockingEdge d = true → is_peer d = false.
Proof. unfold isInstallBlockingEdge, is_peer. intros [_ Hd]%andb_true_iff. by apply negb_true_iff. Qed.

Lemma flat_map_snoc {A B} (f : A → list B) l e : flat_map f (l ++ [e]) = flat_map f l ++ f e.
Proof. rewrite flat_map_app. cbn. by rewrite app_nil_r. Qed.

Lemma missing_edges_snoc kind lookup from deps d :
  missing_edges kind lookup (from, deps ++ [d]) = missing_edges kind lookup (from, deps) ++
    if negb (is_present (live_target lookup d)) && kind d then [missing_node d (lookup (xd_packageName d))] else [].
Proof.
  unfold missing_edges. cbn [snd]. rewrite List.filter_app, map_app. f_equal. cbn. by destruct (_ && _).
Qed.

Lemma violating_edges_snoc lookup from deps d :
  violating_edges lookup (from, deps ++ [d]) = violating_edges lookup (from, deps) ++
    match live_target lookup d with Some row => violation_of from d row | None => [] end.
Proof. unfold violating_edges. cbn [fst snd]. apply flat_map_snoc. Qed.

(** One edge: the entry of [from] grows by it, and its target is visited. *)
Lemma visit_edge_spec lookup from l deps stack r d stack' r' :
  visit_edge lookup from (stack, r) d = (stack', r') →
  collects lookup (l ++ [(from, deps)]) r → collects lookup (l ++ [(from, deps ++ [d])]) r' ∧
  ((stack' = stack ∧ cr_visited r' = cr_visited r ∧
     ∀ row, live_target lookup d = Some row → xd_packageName d ∈ cr_visited r) ∨
   ∃ row, live_target lookup d = Some row ∧ xd_packageName d ∉ cr_visited r ∧
     stack' = (xd_packageName d, ie_dependencies row) :: stack ∧ cr_visited r' = cr_visited r ++ [xd_packageName d]).
Proof.
  intros Hv (H1 & H2 & H3 & H4). unfold collects in *. revert H1 H2 H3 H4.
  rewrite !flat_map_snoc, !missing_edges_snoc, violating_edges_snoc, !app_assoc. intros H1 H2 H3 H4.
  unfold visit_edge, live_target in *.
  destruct (lookup (xd_packageName d)) as [row|] eqn:El; [destruct (is_live row) eqn:Er|].
  { injection Hv as <- <-. cbn [is_present negb andb cr_missingRequired cr_missingOptional cr_missingPeer cr_rangeViolations].
    rewrite !app_nil_r, H4. split; [done|]. cbn [cr_visited]. case_bool_decide as Hin; cbn [negb].
    + left. split_and!; [done..|]. by intros ? [= <-].
    + right. by exists row. }
  all: assert (Hp : (xd_edgeType d ≟ xe_peer) = true → isInstallBlockingEdge d = false)
    by (intros Ep; unfold isInstallBlockingEdge; by rewrite Ep, andb_false_r).
  all: unfold is_optional, is_peer; destruct (xd_edgeType d ≟ xe_peer);
    [rewrite Hp by done|destruct (isInstallBlockingEdge d)]; injection Hv as <- <-; cbn; rewrite ?app_nil_r;
    (split; [by rewrite ?H1, ?H2, ?H3|by left]).
Qed.

Lemma omap_nil {A B} (f : A → option B) l : omap f l = [] ↔ ∀ x, x ∈ l → f x = None.
Proof.
  induction l as [|x l IH]; cbn; [split; [by intros _ x ?%elem_of_nil|done]|].
  setoid_rewrite elem_of_cons. destruct (f x) eqn:E; [|naive_solver]. split; [done|]. intros Hall.
  specialize (Hall x (or_introl eq_refl)). congruence.
Qed.

Lemma flat_map_nil {A B} (f : A → list B) l : flat_map f l = [] ↔ ∀ x, x ∈ l → f x = [].
Proof.
  induction l as [|x l IH]; cbn; [split; [by intros _ x ?%elem_of_nil|done]|].
  rewrite app_nil_iff, IH. setoid_rewrite elem_of_cons. naive_solver.
Qed.

(** Between two pops: [done] are the entries whose edges have been followed. *)
Record walk (lookup : ManifestLookup) (root : InstalledExtension) (done stack : list closure_entry) (r : ClosureResult)
    : Prop := {
  wk_nodup : NoDup (map fst (done ++ stack));
  wk_visited : cr_visited r ≡ₚ map fst (done ++ stack);
  wk_reached : ∀ e, e ∈ done ++ stack → reached lookup root e.1 e.2;
  wk_closed : ∀ e d row, e ∈ done → d ∈ e.2 → live_target lookup d = Some row → xd_packageName d ∈ cr_visited r;
  wk_collects : collects lookup done r;
  wk_root : (ie_packageName root, ie_dependencies root) ∈ done ++ stack
}.

(** Inside a pop: [pre] are the edges of [from] that have been followed. *)
Record walk_in (lookup : ManifestLookup) (root : InstalledExtension) (done : list closure_entry)
    (from : string) (deps pre : list ExtensionDependency) (stack : list closure_entry) (r : ClosureResult) : Prop := {
  wi_nodup : NoDup (map fst (done ++ (from, deps) :: stack));
  wi_visited : cr_visited r ≡ₚ map fst (done ++ (from, deps) :: stack);
  wi_reached : ∀ e, e ∈ done ++ (from, deps) :: stack → reached lookup root e.1 e.2;
  wi_closed : ∀ e d row, e ∈ done ++ [(from, pre)] → d ∈ e.2 → live_target lookup d = Some row →
                xd_packageName d ∈ cr_visited r;
  wi_collects : collects lookup (done ++ [(from, pre)]) r;
  wi_root : (ie_packageName root, ie_dependencies root) ∈ done ++ (from, deps) :: stack
}.

Lemma perm_second {A} (l : list A) x y k : l ++ x :: y :: k ≡ₚ y :: (l ++ x :: k).
Proof. rewrite (Permutation_middle l (x :: k) y). apply Permutation_app_head, Permutation_swap. Qed.

Lemma visit_edge_walk lookup root done from deps pre d stack r stack' r' :
  walk_in lookup root done from deps pre stack r → d ∈ deps → visit_edge lookup from (stack, r) d = (stack', r') →
  walk_in lookup root done from deps (pre ++ [d]) stack' r'.
Proof.
  intros [Hnd Hv Hr Hc Hcol Hroot] Hd E.
  destruct (visit_edge_spec _ _ _ _ _ _ _ _ _ E Hcol) as [Hcol' Hcase].
  assert (Hclosed : ∀ vis, cr_visited r ⊆ vis → (∀ row, live_target lookup d = Some row → xd_packageName d ∈ vis) →
    ∀ e d' row, e ∈ done ++ [(from, pre ++ [d])] → d' ∈ e.2 → live_target lookup d' = Some row → xd_packageName d' ∈ vis).
  { intros vis Hsub Hnew e d' row [He| ->%list_elem_of_singleton]%elem_of_app Hd' Ht.
    - apply Hsub. eapply (Hc e); [|done..]. apply elem_of_app. by left.
    - cbn in Hd'. apply elem_of_app in Hd' as [Hd'| ->%list_elem_of_singleton]; [|by eapply Hnew].
      apply Hsub. eapply (Hc (from, pre)); [|done..]. apply elem_of_app. right. left. }
  destruct Hcase as [(-> & Ev & Hin)|(row & Ht & Hn & -> & Ev)].
  - split; try done; [by rewrite Ev|]. rewrite Ev. by apply Hclosed.
  - assert (Hname : xd_packageName d ∉ map fst (done ++ (from, deps) :: stack)) by by rewrite <- Hv.
    set (new := (xd_packageName d, ie_dependencies row)).
    assert (Hp : done ++ (from, deps) :: new :: stack ≡ₚ new :: (done ++ (from, deps) :: stack)) by apply perm_second.
    assert (Hpf : map fst (done ++ (from, deps) :: new :: stack) ≡ₚ
      xd_packageName d :: map fst (done ++ (from, deps) :: stack)) by (by rewrite Hp).
    split; try done.
    + rewrite Hpf. by constructor.
    + rewrite Ev, Hpf, Hv. symmetry. apply Permutation_cons_append.
    + intros e. rewrite Hp. intros [->|He]%elem_of_cons; [|by apply Hr]. cbn.
      apply (reached_edge _ _ from deps d); [|done..|].
      * apply (Hr (from, deps)). apply elem_of_app. right. left.
      * intros Eq. apply Hname. rewrite Eq. by apply (list_elem_of_fmap_2 fst) in Hroot.
    + rewrite Ev. apply Hclosed; [intros x Hx; apply elem_of_app; by left|].
      intros _ _. apply elem_of_app. right. left.
    + rewrite Hp. by right.
Qed.

Lemma visit_edges_walk lookup root done from deps pre rest stack r :
  deps = pre ++ rest → walk_in lookup root done from deps pre stack r →
  let '(stack', r') := foldl (visit_edge lookup from) (stack, r) rest in
  walk_in lookup root done from deps deps stack' r'.
Proof.
  revert pre stack r. induction rest as [|d rest IH]; intros pre stack r E Hw; cbn [foldl].
  { by rewrite app_nil_r in E; subst. }
  destruct (visit_edge lookup from (stack, r) d) as [stack1 r1] eqn:Ev.
  apply (IH (pre ++ [d])); [by rewrite <- app_assoc|]. eapply visit_edge_walk; [done| |done]. subst.
  apply elem_of_app. right. left.
Qed.

Lemma pop_walk lookup root done from deps stack r :
  walk lookup root done ((from, deps) :: stack) r →
  let '(stack', r') := foldl (visit_edge lookup from) (stack, r) deps in
  walk lookup root (done ++ [(from, deps)]) stack' r'.
Proof.
  intros [Hnd Hv Hr Hc Hcol Hroot].
  pose proof (visit_edges_walk lookup root done from deps [] deps stack r eq_refl) as Hfold.
  destruct (foldl _ _ _) as [stack' r']. destruct Hfold as [Hnd' Hv' Hr' Hc' Hcol' Hroot'].
  { split; try done.
    - intros e d row [He| ->%list_elem_of_singleton]%elem_of_app Hd; [by apply (Hc e)|by apply elem_of_nil in Hd].
    - unfold collects in *. rewrite !flat_map_snoc. cbn. by rewrite !app_nil_r. }
  split; rewrite <- ?app_assoc; done.
Qed.

(** A set of names that holds every live package the lookup knows. *)
Definition covers (lookup : ManifestLookup) (names : list string) : Prop :=
  ∀ n row, lookup n = Some row → is_live row = true → n ∈ names.

Lemma live_target_Some lookup d row :
  live_target lookup d = Some row → lookup (xd_packageName d) = Some row ∧ is_live row = true.
Proof. unfold live_target. destruct (lookup _) as [r|]; [|done]. destruct (is_live r) eqn:E; [|done]. by intros [= <-]. Qed.

Lemma reached_known lookup root n ds : reached lookup root n ds →
  (n = ie_packageName root ∧ ds = ie_dependencies root) ∨
  (n ≠ ie_packageName root ∧ ∃ row, lookup n = Some row ∧ is_live row = true ∧ ds = ie_dependencies row).
Proof.
  destruct 1 as [|from deps d row _ _ Ht Hne]; [by left|right]. split; [done|].
  apply live_target_Some in Ht as [? ?]. by exists row.
Qed.

Lemma reached_fun lookup root n ds ds' : reached lookup root n ds → reached lookup root n ds' → ds = ds'.
Proof.
  intros [[-> ->]|(Hn & r & Hr & _ & ->)]%reached_known [[E ->]|(Hn' & r' & Hr' & _ & ->)]%reached_known;
    [done|done|by rewrite E in Hn|congruence].
Qed.

Lemma walk_bounded lookup root done stack r names :
  covers lookup names → walk lookup root done stack r → (length (done ++ stack) <= S (length names))%nat.
Proof.
  intros Hc [Hnd _ Hr _ _ _]. change (S (length names)) with (length (ie_packageName root :: names)).
  rewrite <- (length_map fst). apply NoDup_subset_length; [done|].
  intros n ([m ds] & -> & He)%list_elem_of_fmap. cbn. pose proof (Hr _ He) as Hm. cbn in Hm.
  destruct (reached_known _ _ _ _ Hm) as [[-> _]|(_ & row & Hl & Hlive & _)]; [left|right].
  by eapply Hc.
Qed.

Lemma closure_loop_walk fuel lookup root done stack r names :
  covers lookup names → walk lookup root done stack r → (S (length names) <= length done + fuel)%nat →
  ∃ r' done', closure_loop fuel lookup stack r = Some r' ∧ walk lookup root done' [] r'.
Proof.
  intros Hc. revert done stack r. induction fuel as [|f IH]; intros done stack r Hw Hf; destruct stack as [|[from deps] stack];
    cbn [closure_loop]; try (exists r, done; split; [reflexivity|exact Hw]).
  - exfalso. pose proof (walk_bounded _ _ _ _ _ _ Hc Hw) as Hb. rewrite length_app in Hb. cbn in Hb. lia.
  - apply pop_walk in Hw. destruct (foldl _ _ _) as [stack' r']. apply (IH (done ++ [(from, deps)])); [done|].
    rewrite length_app. cbn. lia.
Qed.

(** A finished walk has seen exactly what is reached. *)
Lemma walk_complete lookup root done r n ds :
  walk lookup root done [] r → reached lookup root n ds → (n, ds) ∈ done.
Proof.
  intros [_ Hv Hr Hc _ Hroot]. rewrite app_nil_r in *. intros Hn. induction Hn as [|from deps d row _ IH Hd Ht Hne]; [done|].
  assert (Hin : xd_packageName d ∈ map fst done) by (rewrite <- Hv; by apply (Hc (from, deps) d row)).
  apply list_elem_of_fmap in Hin as ([m ds'] & E & He). cbn in E. subst m.
  assert (ds' = ie_dependencies row) as <-; [|done].
  destruct (reached_known _ _ _ _ (Hr _ He)) as [[E _]|(_ & row' & Hl & _ & E)]; [done|]. cbn in *.
  apply live_target_Some in Ht as [Hl' _]. congruence.
Qed.

(** What a result says of the entries it was computed from. *)
Definition closure_of (lookup : ManifestLookup) (root : InstalledExtension) (entries : list closure_entry)
    (r : ClosureResult) : Prop :=
  NoDup (map fst entries) ∧ (∀ n ds, (n, ds) ∈ entries ↔ reached lookup root n ds) ∧
  cr_visited r ≡ₚ map fst entries ∧ collects lookup entries r.

Lemma computeClosure_closure fuel root lookup names :
  covers lookup names → (length names < fuel)%nat →
  ∃ r entries, computeClosure fuel root lookup = Some r ∧ closure_of lookup root entries r.
Proof.
  intros Hc Hf. unfold computeClosure.
  destruct (closure_loop_walk fuel lookup root [] [(ie_packageName root, ie_dependencies root)]
    {| cr_missingRequired := []; cr_missingOptional := []; cr_missingPeer := []; cr_rangeViolations := [];
       cr_visited := [ie_packageName root] |} names Hc) as (r & done & E & Hw).
  - split; cbn; try done; [apply NoDup_singleton| |by intros ? ? ? ?%elem_of_nil|left].
    intros e ->%list_elem_of_singleton. apply reached_root.
  - cbn. lia.
  - exists r, done. split; [done|]. destruct (Hw) as [Hnd Hv Hr _ Hcol _]. rewrite app_nil_r in *.
    split_and!; [done| |done|apply Hcol..]. intros n ds. split; [apply (Hr (n, ds))|by apply (walk_complete _ _ _ r)].
Qed.

(** The closure with the blocking edges [bad]. *)
Definition edge_reached (lookup : ManifestLookup) (root : InstalledExtension) (from : string) (d : ExtensionDependency) : Prop :=
  ∃ deps, reached lookup root from deps ∧ d ∈ deps.

Lemma collected_missing kind lookup root entries r : closure_of lookup root entries r →
  ∀ node, node ∈ flat_map (missing_edges kind lookup) entries ↔
    ∃ from d, edge_reached lookup root from d ∧ live_target lookup d = None ∧ kind d = true ∧
      node = missing_node d (lookup (xd_packageName d)).
Proof.
  intros (_ & He & _ & _) node. rewrite list_elem_of_In, in_flat_map. split.
  - intros ([from deps] & Hin & (d & <- & [Hd Hk]%filter_In)%in_map_iff). apply andb_true_iff in Hk as [Hl Hk].
    exists from, d. split_and!; [|by destruct (live_target lookup d)|done|done].
    exists deps. split; [apply He|]; by apply list_elem_of_In.
  - intros (from & d & (deps & Hr & Hd) & Hl & Hk & ->). exists (from, deps).
    split; [by apply list_elem_of_In, He|]. apply in_map_iff. exists d. split; [done|]. apply filter_In.
    split; [by apply list_elem_of_In|]. by rewrite Hl, Hk.
Qed.

Lemma collected_violations lookup root entries r : closure_of lookup root entries r →
  ∀ v, v ∈ flat_map (violating_edges lookup) entries ↔
    ∃ from d row, edge_reached lookup root from d ∧ live_target lookup d = Some row ∧ v ∈ violation_of from d row.
Proof.
  intros (_ & He & _ & _) v. rewrite list_elem_of_In, in_flat_map. split.
  - intros ([from deps] & Hin & (d & Hd & Hv)%in_flat_map). cbn in *.
    destruct (live_target lookup d) as [row|] eqn:Hl; [|done]. exists from, d, row.
    split_and!; [|done|by apply list_elem_of_In]. exists deps. split; [apply He|]; by apply list_elem_of_In.
  - intros (from & d & row & (deps & Hr & Hd) & Hl & Hv). exists (from, deps).
    split; [by apply list_elem_of_In, He|]. apply in_flat_map. exists d. split; [by apply list_elem_of_In|].
    cbn. rewrite Hl. by apply list_elem_of_In.
Qed.

Lemma execution_block kind r : xv_executionBlock (verdict_of kind r) = None ↔
  cr_missingRequired r = [] ∧ (kind = xk_workflow → cr_missingOptional r = [] ∧ cr_missingPeer r = []).
Proof.
  unfold verdict_of. cbn. rewrite <- app_nil_iff.
  destruct (cr_missingRequired r); [|naive_solver]. destruct (cr_missingOptional r ++ cr_missingPeer r); [naive_solver|].
  destruct kind; cbn; naive_solver.
Qed.

(** C27: [computeClosure] ends, on cyclic graphs too, and computes the dependency
    closure: it visits each reachable package once, and files each edge of a
    reachable package whose target is not live under exactly one of required,
    optional and peer, and each violated constraint of a live required target.  The
    verdict blocks an execution for what is required, and a workflow's for anything.
    One unit of fuel per known package name and one more is enough. *)
Theorem computeClosure_spec fuel root lookup names :
  covers lookup names → (length names < fuel)%nat →
  ∃ r, computeClosure fuel root lookup = Some r ∧ NoDup (cr_visited r) ∧
    (∀ n, n ∈ cr_visited r ↔ ∃ deps, reached lookup root n deps) ∧
    let missing kind node := ∃ from d, edge_reached lookup root from d ∧ live_target lookup d = None ∧
      kind d = true ∧ node = missing_node d (lookup (xd_packageName d)) in
    (∀ node, node ∈ cr_missingRequired r ↔ missing isInstallBlockingEdge node) ∧
    (∀ node, node ∈ cr_missingOptional r ↔ missing is_optional node) ∧
    (∀ node, node ∈ cr_missingPeer r ↔ missing is_peer node) ∧
    (∀ v, v ∈ cr_rangeViolations r ↔
       ∃ from d row, edge_reached lookup root from d ∧ live_target lookup d = Some row ∧ v ∈ violation_of from d row) ∧
    (∀ kind, xv_executionBlock (verdict_of kind r) = None ↔
       cr_missingRequired r = [] ∧ (kind = xk_workflow → cr_missingOptional r = [] ∧ cr_missingPeer r = [])).
Proof.
  intros Hc Hf. destruct (computeClosure_closure fuel root lookup names Hc Hf) as (r & entries & E & Hof).
  exists r. split; [done|]. pose proof Hof as (Hnd & He & Hv & E1 & E2 & E3 & E4). cbv zeta.
  pose proof (λ kind, execution_block kind r) as Hx. rewrite E1, E2, E3 in Hx.
  rewrite E1, E2, E3, E4. split; [by rewrite Hv|].
  split; [|split_and!; [by eapply collected_missing..|by eapply collected_violations|exact Hx]].
  intros n. rewrite Hv. split.
  - intros ([m ds] & -> & Hin)%list_elem_of_fmap. exists ds. by apply He.
  - intros (ds & Hr%He). by apply (list_elem_of_fmap_2 fst) in Hr.
Qed.

(** ** Lookups at a scope *)

Lemma scoped_lookup_Some rows org n row : makeScopedManifestLookup rows org n = Some row →
  row ∈ rows ∧ ie_packageName row = n ∧ is_live row = true ∧
  (ie_organizationId row = org ∨ ie_organizationId row = None).
Proof.
  unfold makeScopedManifestLookup. set (live := List.filter _ rows).
  assert (Hl : ∀ r, r ∈ live → r ∈ rows ∧ ie_packageName r = n ∧ is_live r = true).
  { intros r [Hr E]%filter_in. by bprop. }
  assert (Hf : ∀ o r, List.find (at_org o) live = Some r → r ∈ live ∧ ie_organizationId r = o).
  { intros o r [Hr E]%find_some. unfold at_org in E. split; [by apply list_elem_of_In|by bprop]. }
  intros E. assert (Hrow : row ∈ live ∧ (ie_organizationId row = org ∨ ie_organizationId row = None)).
  { destruct org as [o|]; [|apply Hf in E; tauto]. destruct (List.find _ live) as [r|] eqn:E1; [|apply Hf in E; tauto].
    injection E as <-. apply Hf in E1. tauto. }
  destruct Hrow as [Hin Horg]. destruct (Hl _ Hin) as (? & ? & ?). done.
Qed.

(** A name resolves exactly when a live row of the scope or the platform has it. *)
Lemma scoped_lookup_is_Some rows org n : is_Some (makeScopedManifestLookup rows org n) ↔
  ∃ row, row ∈ rows ∧ ie_packageName row = n ∧ is_live row = true ∧
    (ie_organizationId row = org ∨ ie_organizationId row = None).
Proof.
  split; [intros [row E]; exists row; by apply scoped_lookup_Some|]. intros (row & Hin & Hn & Hlive & Horg).
  unfold makeScopedManifestLookup. set (live := List.filter _ rows).
  assert (Hl : row ∈ live) by (apply filter_in; split; [done|]; rewrite Hlive, bool_decide_true by done; done).
  assert (Hf : ∀ o, ie_organizationId row = o → is_Some (List.find (at_org o) live)).
  { intros o Ho. destruct (List.find _ live) eqn:E; [done|].
    pose proof (find_none _ _ E row (proj1 (list_elem_of_In _ _) Hl)) as Hx. unfold at_org in Hx. by bprop. }
  destruct org as [o|]; [|apply Hf; tauto]. destruct (List.find _ live) eqn:E; [done|].
  destruct Horg as [Ho|Ho]; [|by apply Hf]. destruct (Hf _ Ho) as [r E2]. congruence.
Qed.

Lemma scoped_covers rows org : covers (makeScopedManifestLookup rows org) (map ie_packageName rows).
Proof. intros n row E _. apply scoped_lookup_Some in E as (Hin & <- & _). by apply list_elem_of_fmap_2. Qed.

Lemma closure_at_closure rows org target :
  ∃ entries, closure_of (makeScopedManifestLookup rows org) target entries (closure_at rows org target).
Proof.
  unfold closure_at. destruct (computeClosure_closure (S (length rows)) target (makeScopedManifestLookup rows org)
    (map ie_packageName rows) (scoped_covers rows org)) as (r & entries & -> & Hof); [rewrite length_map; lia|].
  by exists entries.
Qed.

Lemma live_target_scoped rows org d :
  live_target (makeScopedManifestLookup rows org) d = makeScopedManifestLookup rows org (xd_packageName d).
Proof.
  unfold live_target. destruct (makeScopedManifestLookup rows org (xd_packageName d)) as [r|] eqn:E; [|done].
  apply scoped_lookup_Some in E as (_ & _ & -> & _). done.
Qed.

(** ** Intact snapshots *)

(** The edge resolves at the scope. *)
Definition resolves (rows : list InstalledExtension) (org : option string) (d : ExtensionDependency) : Prop :=
  is_Some (makeScopedManifestLookup rows org (xd_packageName d)).

(** Every install-blocking edge of a live row resolves at the row's scope. *)
Definition intact (rows : list InstalledExtension) : Prop :=
  ∀ r d, r ∈ rows → is_live r = true → d ∈ ie_dependencies r → isInstallBlockingEdge d = true →
    resolves rows (ie_organizationId r) d.

(** The platform's rows are seen from every scope. *)
Lemma resolves_mono rows org d : resolves rows None d → resolves rows org d.
Proof. unfold resolves. rewrite !scoped_lookup_is_Some. intros (row & ? & ? & ? & [?|?]); exists row; tauto. Qed.

Lemma no_missing_iff rows org target :
  cr_missingRequired (closure_at rows org target) = [] ↔
  ∀ from d, edge_reached (makeScopedManifestLookup rows org) target from d → isInstallBlockingEdge d = true →
    resolves rows org d.
Proof.
  destruct (closure_at_closure rows org target) as [entries Hof].
  pose proof Hof as (_ & _ & _ & E & _). rewrite E.
  pose proof (collected_missing isInstallBlockingEdge _ _ _ _ Hof) as Hm. split.
  - intros Hnil from d Hd Hb. unfold resolves. rewrite <- live_target_scoped.
    destruct (live_target _ d) eqn:El; [done|]. exfalso.
    apply (not_elem_of_nil (missing_node d (makeScopedManifestLookup rows org (xd_packageName d)))).
    rewrite <- Hnil. apply Hm. by exists from, d.
  - intros Hall. apply elem_of_nil_inv. intros node (from & d & Hd & Hl & Hb & _)%Hm.
    destruct (Hall from d Hd Hb) as [row Hrow]. rewrite live_target_scoped in Hl. congruence.
Qed.

(** A live target of each blocking edge reached, at a version the edge accepts. *)
Definition whole (rows : list InstalledExtension) (target : InstalledExtension) : Prop :=
  let lookup := makeScopedManifestLookup rows (ie_organizationId target) in
  ∀ from d, edge_reached lookup target from d → isInstallBlockingEdge d = true →
    ∃ row, lookup (xd_packageName d) = Some row ∧ edgeVersionViolation d (installedVersionOfRow row) = None.

Lemma violation_of_nil from d row : violation_of from d row = [] ↔
  (isInstallBlockingEdge d = true → edgeVersionViolation d (installedVersionOfRow row) = None).
Proof.
  unfold violation_of. destruct (isInstallBlockingEdge d); [|naive_solver].
  destruct (edgeVersionViolation d (installedVersionOfRow row)); naive_solver.
Qed.

Lemma no_violations_iff rows org target :
  cr_rangeViolations (closure_at rows org target) = [] ↔
  ∀ from d row, edge_reached (makeScopedManifestLookup rows org) target from d → isInstallBlockingEdge d = true →
    makeScopedManifestLookup rows org (xd_packageName d) = Some row →
    edgeVersionViolation d (installedVersionOfRow row) = None.
Proof.
  destruct (closure_at_closure rows org target) as [entries Hof]. pose proof Hof as (_ & _ & _ & _ & _ & _ & E). rewrite E.
  pose proof (collected_violations _ _ _ _ Hof) as Hv. split.
  - intros Hnil from d row Hd Hb Hrow. revert Hb. apply (violation_of_nil from), elem_of_nil_inv. intros v Hin.
    apply (not_elem_of_nil v). rewrite <- Hnil. apply Hv. exists from, d, row. by rewrite live_target_scoped.
  - intros Hall. apply elem_of_nil_inv. intros v (from & d & row & Hd & Hl & Hin)%Hv. rewrite live_target_scoped in Hl.
    assert (Hn : violation_of from d row = []) by (apply violation_of_nil; intros; by apply (Hall from d row)).
    rewrite Hn in Hin. by apply elem_of_nil in Hin.
Qed.

Lemma whole_iff rows target : whole rows target ↔
  cr_missingRequired (closure_at rows (ie_organizationId target) target) = [] ∧
  cr_rangeViolations (closure_at rows (ie_organizationId target) target) = [].
Proof.
  rewrite no_missing_iff, no_violations_iff. split.
  - intros Hw. split.
    + intros from d Hd Hb. destruct (Hw from d Hd Hb) as (row & Hl & _). by exists row.
    + intros from d row Hd Hb Hl. destruct (Hw from d Hd Hb) as (row' & Hl' & Hv). congruence.
  - intros [Hm Hv] from d Hd Hb. destruct (Hm from d Hd Hb) as [row Hl]. exists row. split; [done|]. by eapply Hv.
Qed.

(** The boot diagnostics report nothing exactly when every live row is whole. *)
Lemma findBrokenClosures_nil rows :
  findBrokenClosures rows = [] ↔ ∀ r, r ∈ rows → is_live r = true → whole rows r.
Proof.
  unfold findBrokenClosures. rewrite omap_nil. apply forall_proper. intros r. apply forall_proper. intros Hr.
  rewrite whole_iff. destruct (is_live r); cbn [negb]; [|naive_solver].
  destruct (cr_missingRequired _), (cr_rangeViolations _); naive_solver.
Qed.

(** What a live row reaches at its scope in an intact snapshot resolves there. *)
Lemma intact_reached rows target from d : intact rows →
  (∀ d, d ∈ ie_dependencies target → isInstallBlockingEdge d = true → resolves rows (ie_organizationId target) d) →
  edge_reached (makeScopedManifestLookup rows (ie_organizationId target)) target from d →
  isInstallBlockingEdge d = true → resolves rows (ie_organizationId target) d.
Proof.
  intros Hi Ht (deps & Hr & Hd) Hb. apply reached_known in Hr as [[_ ->]|(_ & row & Hl & Hlive & ->)]; [by apply Ht|].
  apply scoped_lookup_Some in Hl as (Hin & _ & _ & [Horg|Horg]).
  - rewrite <- Horg. by apply (Hi row).
  - apply resolves_mono. rewrite <- Horg. by apply (Hi row).
Qed.

(** Closures are a local matter: no live row misses a required package, however
    deep, exactly when each direct edge resolves. *)
Lemma intact_closures rows : intact rows ↔
  ∀ r, r ∈ rows → is_live r = true → cr_missingRequired (closure_at rows (ie_organizationId r) r) = [].
Proof.
  split.
  - intros Hi r Hr Hl. apply no_missing_iff. intros from d. apply intact_reached; [done|]. intros d'. by apply Hi.
  - intros Hall r d Hr Hl Hd Hb. specialize (Hall r Hr Hl). rewrite no_missing_iff in Hall.
    apply (Hall (ie_packageName r)); [|done]. exists (ie_dependencies r). split; [apply reached_root|done].
Qed.

(** ** The gates *)

(** The statuses of the rows a lifecycle operation hits. *)
Definition with_status (status : ExtensionLifecycleStatus) (r : InstalledExtension) : InstalledExtension := {|
  ie_id := ie_id r; ie_packageName := ie_packageName r; ie_ownerLevel := ie_ownerLevel r; ie_ownerId := ie_ownerId r;
  ie_organizationId := ie_organizationId r; ie_kind := ie_kind r; ie_status := status; ie_source := ie_source r;
  ie_requiredInProd := ie_requiredInProd r; ie_dependencies := ie_dependencies r; ie_manifestHash := ie_manifestHash r |}.
Definition set_status (hit : InstalledExtension → bool) (status : ExtensionLifecycleStatus)
    (rows : list InstalledExtension) : list InstalledExtension :=
  map (λ r, if hit r then with_status status r else r) rows.

(** The boot diagnostics find no missing package. *)
Definition boots (rows : list InstalledExtension) : Prop :=
  ∀ b, b ∈ findBrokenClosures rows → bc_missingRequired b = [].

Lemma boots_intact rows : boots rows ↔ intact rows.
Proof.
  rewrite intact_closures. unfold boots, findBrokenClosures. setoid_rewrite list_elem_of_omap. split.
  - intros Hb r Hr Hl. set (c := closure_at rows (ie_organizationId r) r).
    destruct (cr_missingRequired c) as [|m ms] eqn:E; [done|].
    specialize (Hb {| bc_packageName := ie_packageName r; bc_missingRequired := map cn_packageName (m :: ms);
                      bc_rangeViolations := map violation_text (cr_rangeViolations c) |}).
    discriminate Hb. exists r. split; [done|]. rewrite Hl. cbn [negb]. fold c. by rewrite E.
  - intros Hall b (r & Hr & Hb). destruct (is_live r) eqn:El; [|done]. cbn [negb] in Hb.
    rewrite (Hall r Hr El) in Hb. destruct (cr_rangeViolations _); by simplify_eq/=.
Qed.

Lemma set_status_in hit status rows r : r ∈ set_status hit status rows ↔
  ∃ q, q ∈ rows ∧ r = if hit q then with_status status q else q.
Proof. unfold set_status. rewrite list_elem_of_fmap. split; intros (q & ? & ?); by exists q. Qed.

(** What the archive gate lets through holds no blocking edge to the target. *)
Lemma archive_gate_free target rows r d : assertArchiveDoesNotBreakClosure target rows = Ok () →
  r ∈ rows → is_live r = true → d ∈ ie_dependencies r → isInstallBlockingEdge d = true →
  xd_packageName d = ie_packageName target → ie_packageName r = ie_packageName target.
Proof.
  unfold assertArchiveDoesNotBreakClosure. intros Hg Hr Hl Hd Hb Hn.
  destruct (map ie_packageName _) as [|x l] eqn:E; [|done]. apply map_eq_nil in E.
  rewrite filter_nil_iff in E. specialize (E r Hr). rewrite Hl, andb_true_r in E.
  assert (requires_target (ie_packageName target) r = true) as Hreq.
  { apply existsb_exists. exists d. split; [by apply list_elem_of_In|]. by rewrite Hb, bool_decide_true. }
  rewrite Hreq, andb_true_r in E. by bprop.
Qed.

(** Rows that keep a live row of each name, at its scope, keep its dependents whole. *)
Lemma resolves_keep rows rows' r d : resolves rows (ie_organizationId r) d →
  (∀ q, q ∈ rows → is_live q = true → ie_packageName q = xd_packageName d → resolves rows' (ie_organizationId r) d ∨
     ∃ q', q' ∈ rows' ∧ is_live q' = true ∧ ie_packageName q' = ie_packageName q ∧
           ie_organizationId q' = ie_organizationId q) →
  resolves rows' (ie_organizationId r) d.
Proof.
  intros (q & Hq & Hn & Hl & Ho)%scoped_lookup_is_Some Hkeep.
  destruct (Hkeep q Hq Hl Hn) as [?|(q' & Hq' & Hl' & Hn' & Ho')]; [done|].
  apply scoped_lookup_is_Some. exists q'. rewrite Hn', Ho'. done.
Qed.

Lemma archive_keeps_intact rows target hit : intact rows → assertArchiveDoesNotBreakClosure target rows = Ok () →
  (∀ r, hit r = true → ie_packageName r = ie_packageName target) → intact (set_status hit xs_archived rows).
Proof.
  intros Hi Hg Hhit r' d (r & Hr & ->)%set_status_in. destruct (hit r) eqn:Eh; [done|]. intros Hl Hd Hb.
  assert (Hself : r ∈ set_status hit xs_archived rows) by (apply set_status_in; exists r; by rewrite Eh).
  apply (resolves_keep rows); [by apply Hi|]. intros q Hq Hlq Hn. destruct (hit q) eqn:Eq.
  - left. apply scoped_lookup_is_Some. exists r. split_and!; [done| |done|by left].
    rewrite <- Hn, (Hhit q Eq). eapply (archive_gate_free target rows r d); try done. by rewrite <- Hn, (Hhit q Eq).
  - right. exists q. split; [|done]. apply set_status_in. exists q. by rewrite Eq.
Qed.

Lemma install_gate_resolves rows org r result d : assertInstallClosure rows org r = Ok result →
  d ∈ ie_dependencies r → isInstallBlockingEdge d = true → resolves rows org d.
Proof.
  unfold assertInstallClosure. intros Hg Hd Hb.
  assert (Hm : cr_missingRequired (closure_at rows org r) = []) by (by destruct (cr_missingRequired _)).
  rewrite no_missing_iff in Hm. apply (Hm (ie_packageName r)); [|done]. exists (ie_dependencies r).
  split; [apply reached_root|done].
Qed.

Lemma restore_keeps_intact rows hit : intact rows →
  (∀ r, r ∈ rows → hit r = true → is_ok (assertInstallClosure rows (ie_organizationId r) r) = true) →
  intact (set_status hit xs_active rows).
Proof.
  intros Hi Hg r' d (r & Hr & ->)%set_status_in Hl Hd Hb.
  assert (Hres : resolves rows (ie_organizationId r) d).
  { destruct (hit r) eqn:Eh; [|by apply Hi]. specialize (Hg r Hr Eh).
    destruct (assertInstallClosure _ _ r) eqn:E; [|done]. by eapply install_gate_resolves. }
  assert (Ho : ie_organizationId (if hit r then with_status xs_active r else r) = ie_organizationId r) by by destruct (hit r).
  rewrite Ho. apply (resolves_keep rows); [done|]. intros q Hq Hlq _. right.
  exists (if hit q then with_status xs_active q else q). split; [apply set_status_in; by exists q|].
  by destruct (hit q).
Qed.

Lemma forward_gate_resolves rows name org r d : assertForwardInstallClosureForPackage name rows org = Ok () →
  r ∈ rows_at name org rows → d ∈ ie_dependencies r → isInstallBlockingEdge d = true →
  resolves rows (ie_organizationId r) d.
Proof.
  unfold assertForwardInstallClosureForPackage. intros (l & Hl & _)%result_bind_Ok Hr Hd Hb.
  apply result_mapM_Ok in Hl. apply list_elem_of_lookup in Hr as [i Hr].
  destruct (Forall2_lookup_l _ _ _ _ _ Hl Hr) as (u & _ & Hu). cbn beta in Hu.
  assert (Hm : cr_missingRequired (closure_at rows (ie_organizationId r) r) = []) by (destruct (cr_rangeViolations _); [by destruct (cr_missingRequired _)|done]).
  rewrite no_missing_iff in Hm. apply (Hm (ie_packageName r)); [|done]. exists (ie_dependencies r).
  split; [apply reached_root|done].
Qed.

Lemma install_keeps_intact rows row : intact rows →
  assertForwardInstallClosureForPackage (ie_packageName row) (rows ++ [row]) (Some (ie_organizationId row)) = Ok () →
  intact (rows ++ [row]).
Proof.
  intros Hi Hg r d Hr Hl Hd Hb. apply elem_of_app in Hr as [Hr| ->%list_elem_of_singleton].
  - apply (resolves_keep rows); [by apply Hi|]. intros q Hq Hlq _. right. exists q. split; [apply elem_of_app; by left|done].
  - eapply forward_gate_resolves; [exact Hg| |done|done]. apply filter_in. split; [apply elem_of_app; right; left|].
    unfold at_org. by rewrite Hl, !bool_decide_true.
Qed.

(** C26: The lifecycle gates keep every dependency closure whole.  If the boot
    diagnostics find no missing package, they find none after archiving rows of a
    package whose archive gate passed, after restoring rows whose install gate
    passed, or after installing a row whose forward gate passed, however deep the
    dependencies and whatever the organizations. *)
Theorem gates_keep_closures rows : boots rows →
  (∀ target hit, assertArchiveDoesNotBreakClosure target rows = Ok () →
     (∀ r, hit r = true → ie_packageName r = ie_packageName target) → boots (set_status hit xs_archived rows)) ∧
  (∀ hit, (∀ r, r ∈ rows → hit r = true → is_ok (assertInstallClosure rows (ie_organizationId r) r) = true) →
     boots (set_status hit xs_active rows)) ∧
  (∀ row, assertForwardInstallClosureForPackage (ie_packageName row) (rows ++ [row]) (Some (ie_organizationId row)) = Ok () →
     boots (rows ++ [row])).
Proof.
  intros Hb%boots_intact. split_and!; intros; apply boots_intact;
    eauto using archive_keeps_intact, restore_keeps_intact, install_keeps_intact.
Qed.

Lemma update_violations_nil name version r : update_violations name version r = [] ↔
  ∀ d, d ∈ ie_dependencies r → xd_packageName d = name → isInstallBlockingEdge d = true →
    edgeVersionViolation d (Some version) = None.
Proof.
  unfold update_violations. rewrite omap_nil. apply forall_proper; intros d. case_bool_decide as En; cbn [andb].
  - destruct (isInstallBlockingEdge d); [|naive_solver].
    destruct (edgeVersionViolation d (Some version)); naive_solver.
  - naive_solver.
Qed.

(** An update is refused exactly when it would violate a blocking edge of a
    live dependent that resolves, at the dependent's own scope, to a row being
    updated; what resolves elsewhere, and what only an optional or peer edge
    wants, never blocks it. *)
Theorem update_gate_spec name version rows org :
  assertUpdateDoesNotBreakDependents name version rows org = Ok () ↔
  ∀ r d t, r ∈ rows → is_live r = true → ie_packageName r ≠ name → d ∈ ie_dependencies r →
    xd_packageName d = name → isInstallBlockingEdge d = true →
    makeScopedManifestLookup rows (ie_organizationId r) name = Some t →
    ie_id t ∈ map ie_id (rows_at name org rows) →
    edgeVersionViolation d (Some version) = None.
Proof.
  unfold assertUpdateDoesNotBreakDependents. set (ids := map ie_id _).
  match goal with |- context [flat_map ?g rows] => set (f := g) end.
  transitivity (flat_map f rows = []).
  { destruct ids as [|i l] eqn:Ei; [|by destruct (flat_map f rows)]. split; [|done]. intros _.
    apply elem_of_nil_inv. intros v (r & _ & Hv)%list_elem_of_In%in_flat_map. unfold f in Hv.
    destruct (_ || _); [done|]. destruct (makeScopedManifestLookup _ _ _); [|done]. by rewrite bool_decide_false in Hv by apply not_elem_of_nil. }
  rewrite flat_map_nil. unfold f. split.
  - intros Hall r d t Hr Hl Hn Hd Hdn Hb Ht Hid. specialize (Hall r Hr).
    rewrite Hl, (bool_decide_false (_ = name)) in Hall by done. cbn [orb negb] in Hall.
    rewrite Ht, bool_decide_true in Hall by done. by apply (update_violations_nil name version r).
  - intros Hall r Hr. case_bool_decide as En; [done|]. destruct (is_live r) eqn:El; [|done]. cbn [orb negb].
    destruct (makeScopedManifestLookup _ _ _) as [t|] eqn:Et; [|done]. case_bool_decide as Hid; [|done].
    apply update_violations_nil. intros d Hd Hdn Hb. by apply (Hall r d t).
Qed.
End closure.

(** ** Instances *)

(** A registry that knows exact versions only. *)
#[local] Instance sample_semver : Semver := {| semver_satisfies := λ v range, v ≟ range |}.

Definition sample_source (version : string) : json :=
  JObj [("type", JStr "verdaccio"); ("registryUrl", JStr "https://r"); ("packageName", JStr "p");
        ("version", JStr version); ("integrity", JStr "sha512-x")].
Definition sample_edge (name version : string) : ExtensionDependency := {|
  xd_packageName := name; xd_kind := None; xd_edgeType := xe_runtime; xd_versionConstraint := vc_exact version;
  xd_requirement := xr_required |}.
Definition sample_ext (id name : string) (org : option string) (version : string) (deps : list ExtensionDependency)
    : InstalledExtension := {|
  ie_id := id; ie_packageName := name; ie_ownerLevel := xo_platform; ie_ownerId := None; ie_organizationId := org;
  ie_kind := xk_agent; ie_status := xs_active; ie_source := sample_source version; ie_requiredInProd := false;
  ie_dependencies := deps; ie_manifestHash := None |}.

(** Two packages that require each other, and one that requires both. *)
Definition cyclic_rows : list InstalledExtension :=
  [sample_ext "a" "@x/a" None "1.0.0" [sample_edge "@x/b" "1.0.0"; sample_edge "@x/c" "1.0.0"];
   sample_ext "b" "@x/b" None "1.0.0" [sample_edge "@x/c" "1.0.0"];
   sample_ext "c" "@x/c" None "2.0.0" [sample_edge "@x/b" "1.0.0"]].

Lemma computeClosure_spec_witness :
  ∃ r, computeClosure 4 (sample_ext "a" "@x/a" None "1.0.0" [sample_edge "@x/b" "1.0.0"])
         (makeScopedManifestLookup cyclic_rows None) = Some r ∧
       cr_missingRequired r = [] ∧ length (cr_rangeViolations r) = 1%nat ∧ NoDup (cr_visited r).
Proof.
  destruct (computeClosure_spec 4 (sample_ext "a" "@x/a" None "1.0.0" [sample_edge "@x/b" "1.0.0"])
    (makeScopedManifestLookup cyclic_rows None) (map ie_packageName cyclic_rows) (scoped_covers cyclic_rows None))
    as (r & E & Hnd & _); [cbn; lia|].
  exists r. split; [exact E|]. vm_compute in E. injection E as <-. split; [reflexivity|]. split; [reflexivity|exact Hnd].
Defined.

(** A package and the one it requires. *)
Definition sample_lib : InstalledExtension := sample_ext "b" "@x/b" None "1.0.0" [].
Definition sample_app : InstalledExtension := sample_ext "a" "@x/a" None "1.0.0" [sample_edge "@x/b" "1.0.0"].
Definition sample_rows : list InstalledExtension := [sample_app; sample_lib].

Lemma gates_keep_closures_witness :
  is_ok (assertArchiveDoesNotBreakClosure sample_lib sample_rows) = false ∧
  boots (set_status (λ r, ie_packageName r ≟ "@x/a") xs_archived sample_rows) ∧
  boots (sample_rows ++ [sample_ext "c" "@x/c" (Some "o") "1.0.0" [sample_edge "@x/a" "1.0.0"]]).
Proof.
  assert (Hb : boots sample_rows) by (intros b Hin; vm_compute in Hin; by apply elem_of_nil in Hin).
  split; [vm_compute; reflexivity|].
  destruct (gates_keep_closures sample_rows Hb) as (Harchive & _ & Hinstall). split.
  - apply (Harchive sample_app); [vm_compute; reflexivity|]. intros r Hr. by apply bool_decide_eq_true in Hr.
  - apply Hinstall. vm_compute. reflexivity.
Defined.

(** The update gate asks what a dependent resolves at its own scope, the
    diagnostics what the dependents of the dependent resolve at theirs.  An
    organization's copy of a package shadows the platform's for the platform
    packages the organization uses: the gate lets it be updated past a range, and
    the diagnostics report the organization's closure. *)
Definition shadow_rows (version : string) : list InstalledExtension :=
  [sample_ext "l0" "@x/lib" None "1.0.0" [];
   sample_ext "p0" "@x/plugin" None "1.0.0" [sample_edge "@x/lib" "1.0.0"];
   sample_ext "l1" "@x/lib" (Some "o") version [];
   sample_ext "a1" "@x/app" (Some "o") "1.0.0" [sample_edge "@x/plugin" "1.0.0"]].

Lemma update_gate_misses_shadow :
  findBrokenClosures (shadow_rows "1.0.0") = [] ∧
  assertUpdateDoesNotBreakDependents "@x/lib" "2.0.0" (shadow_rows "1.0.0") (Some (Some "o")) = Ok () ∧
  findBrokenClosures (shadow_rows "2.0.0") =
    [{| bc_packageName := "@x/app"; bc_missingRequired := [];
        bc_rangeViolations := ["@x/lib@2.0.0 violates =1.0.0 required by @x/plugin"] |}].
Proof. vm_compute. done. Qed.

(** The archive gate looks at the dependents of every organization. *)
Definition two_orgs (status : ExtensionLifecycleStatus) : list InstalledExtension :=
  [with_status status (sample_ext "l1" "@x/lib" (Some "o") "1.0.0" []);
   sample_ext "l2" "@x/lib" (Some "p") "1.0.0" [];
   sample_ext "a2" "@x/app" (Some "p") "1.0.0" [sample_edge "@x/lib" "1.0.0"]].

Lemma archive_gate_blocks_elsewhere :
  is_ok (assertArchiveDoesNotBreakClosure (sample_ext "l1" "@x/lib" (Some "o") "1.0.0" []) (two_orgs xs_active)) = false ∧
  findBrokenClosures (two_orgs xs_archived) = [].
Proof. vm_compute. done. Qed.
