(* ===== verification/InstallPlan.v ===== *)
(** * Installing an extension with its dependencies
      ([src/lib/extension-dependency-plan.ts], [orderPackagesByDependencyFirst] of
      [packages/extensions/src/dependency-closure.ts])

    The planner resolves a root package and, breadth first, every package its
    auto-installable edges lead to, pins each to one version, checks scopes,
    authorization, version constraints and installed versions, and orders the
    plan dependencies first (Kahn's algorithm).  The registry reader and the
    manifest parser are injected; the reader is asked at most once per package.

    The fuel bounds the number of packages taken from the queue. *)

From S2P Require Import Prelude Json Spec Extensions Closure Graph.

(** ** Dependencies first *)

(** Kahn's algorithm over a sorted list of names; [pick] chooses among the names
    whose dependencies are all placed.  Names on a cycle come last, in order. *)
Fixpoint kahn (fuel : nat) (dependsOn : string → list string) (pick : string → list string → string)
    (remaining ordered : list string) : list string :=
  match remaining, fuel with
  | [], _ | _, O => ordered
  | _, S f =>
      match List.filter (λ n, forallb (λ d, bool_decide (d ∈ ordered)) (dependsOn n)) remaining with
      | [] => ordered ++ remaining
      | first :: ready =>
          let next := pick first (first :: ready) in
          kahn f dependsOn pick (List.filter (λ n, negb (n ≟ next)) remaining) (ordered ++ [next])
      end
  end.

(** [deps] of a name is empty when the map has no entry. *)
Definition orderPackagesByDependencyFirst (names : list string) (edgesByPackage : string → list ExtensionDependency)
    : list string :=
  let dependsOn n := map xd_packageName
    (List.filter (λ d, negb (xd_edgeType d ≟ xe_peer) && bool_decide (xd_packageName d ∈ names)) (edgesByPackage n)) in
  kahn (length names) dependsOn (λ first _, first) (js_sort names) [].

Section kahn.
Context (dependsOn : string → list string) (pick : string → list string → string).
Context (Hpick : ∀ n l, n ∈ l → pick n l ∈ l).

Abbreviation depends := (λ a b : string, b ∈ dependsOn a).

Lemma filter_other_perm (l : list string) x : NoDup l → x ∈ l → l ≡ₚ x :: List.filter (λ n, negb (n ≟ x)) l.
Proof.
  induction l as [|y l IH]; [by intros _ ?%elem_of_nil|]. intros [Hy Hnd]%NoDup_cons Hx. cbn.
  destruct (decide (y = x)) as [->|Hne].
  - rewrite bool_decide_true by done. cbn. constructor. clear IH Hx Hnd.
    induction l as [|z l IH]; [done|]. rewrite not_elem_of_cons in Hy. destruct Hy. cbn.
    rewrite bool_decide_false by done. cbn. by rewrite <- IH.
  - rewrite bool_decide_false by done. cbn. apply elem_of_cons in Hx as [->|Hx]; [done|].
    rewrite (IH Hnd Hx) at 1. apply Permutation_swap.
Qed.

(** One turn of the loop. *)
Lemma kahn_turn fuel x rem ord : NoDup (x :: rem) →
  (∃ next rest, kahn (S fuel) dependsOn pick (x :: rem) ord = kahn fuel dependsOn pick rest (ord ++ [next]) ∧
     x :: rem ≡ₚ next :: rest ∧ ∀ d, d ∈ dependsOn next → d ∈ ord) ∨
  (kahn (S fuel) dependsOn pick (x :: rem) ord = ord ++ x :: rem ∧
     ∀ n, n ∈ x :: rem → ∃ d, d ∈ dependsOn n ∧ d ∉ ord).
Proof.
  intros Hnd. cbn [kahn]. set (ready := List.filter _ (x :: rem)).
  assert (Hready : ∀ n, n ∈ ready ↔ n ∈ x :: rem ∧ ∀ d, d ∈ dependsOn n → d ∈ ord).
  { intros n. unfold ready. rewrite filter_in, forallb_forall. apply and_iff_compat_l.
    setoid_rewrite bool_decide_eq_true. by setoid_rewrite <- list_elem_of_In. }
  destruct ready as [|first l] eqn:E.
  - right. split; [done|]. intros n Hn. destruct (Exists_dec (λ d, d ∉ ord) (dependsOn n)) as [Hd|Hd].
    + apply Exists_exists in Hd as (d & ? & ?). by exists d.
    + exfalso. apply (not_elem_of_nil n), Hready. split; [done|]. intros d Hd'.
      destruct (decide (d ∈ ord)); [done|]. destruct Hd. apply Exists_exists. by exists d.
  - left. exists (pick first (first :: l)). eexists. split; [reflexivity|].
    assert (Hp : pick first (first :: l) ∈ first :: l) by (apply Hpick; left).
    apply Hready in Hp as [Hp Hd]. split; [by apply filter_other_perm|done].
Qed.

Lemma kahn_perm fuel rem ord : (length rem <= fuel)%nat → NoDup rem →
  kahn fuel dependsOn pick rem ord ≡ₚ ord ++ rem.
Proof.
  revert rem ord. induction fuel as [|f IH]; intros [|x rem] ord Hf Hnd; cbn [length] in Hf;
    try (cbn; by rewrite app_nil_r); [lia|].
  destruct (kahn_turn f x rem ord Hnd) as [(next & rest & -> & Hp & _)|[-> _]]; [|done].
  rewrite IH.
  - by rewrite <- app_assoc, Hp.
  - apply Permutation_length in Hp. cbn in Hp. lia.
  - rewrite Hp in Hnd. by apply NoDup_cons in Hnd as [_ ?].
Qed.

(** Every dependency stands before its dependent. *)
Definition dependencies_first (l : list string) : Prop :=
  ∀ i n d, l !! i = Some n → d ∈ dependsOn n → d ∈ take i l.

Lemma dependencies_first_snoc l n : dependencies_first l → (∀ d, d ∈ dependsOn n → d ∈ l) →
  dependencies_first (l ++ [n]).
Proof.
  intros Hl Hn i m d Hi Hd. apply lookup_app_Some in Hi as [Hi|[Hlen Hi]].
  - rewrite take_app_le; [by eapply Hl|]. apply lookup_lt_Some in Hi. lia.
  - apply list_lookup_singleton_Some in Hi as [Hz ->]. rewrite take_app_ge by done.
    apply elem_of_app. left. by apply Hn.
Qed.

Lemma kahn_first fuel rem ord : (length rem <= fuel)%nat → NoDup rem →
  (∀ n d, n ∈ rem → d ∈ dependsOn n → d ∈ ord ++ rem) → ¬ (∃ x, tc depends x x) →
  dependencies_first ord → dependencies_first (kahn fuel dependsOn pick rem ord).
Proof.
  revert rem ord. induction fuel as [|f IH]; intros [|x rem] ord Hf Hnd Hin Hac Hord; cbn [length] in Hf; try done.
  destruct (kahn_turn f x rem ord Hnd) as [(next & rest & -> & Hp & Hd)|[_ Hstuck]].
  - apply IH; [|by rewrite Hp in Hnd; apply NoDup_cons in Hnd as [_ ?]| |done|by apply dependencies_first_snoc].
    + apply Permutation_length in Hp. cbn in Hp. lia.
    + intros n d Hn Hdn. rewrite <- app_assoc. cbn. rewrite <- Hp. apply (Hin n); [|done]. rewrite Hp. by right.
  - exfalso. apply Hac. assert (RelDecision depends) by (intros a b; apply _). destruct (finite_walk_cycle depends (x :: rem) x) as (y & _ & Hy); [left| |by exists y].
    intros n Hn. destruct (Hstuck n Hn) as (d & Hd & Hno). exists d. split; [|done].
    destruct (proj1 (elem_of_app _ _ _) (Hin n d Hn Hd)); done.
Qed.

Lemma dependencies_first_unsnoc l n : dependencies_first (l ++ [n]) →
  dependencies_first l ∧ ∀ d, d ∈ dependsOn n → d ∈ l.
Proof.
  intros H. split.
  - intros i m d Hi Hd. rewrite <- (take_app_le l [n] i) by (apply lookup_lt_Some in Hi; lia).
    eapply H; [|done]. by apply lookup_app_l_Some.
  - intros d Hd. specialize (H (length l) n d). rewrite list_lookup_middle, take_app_length in H by done. auto.
Qed.

(** A name nothing depends on can be taken out. *)
Lemma dependencies_first_without l x : dependencies_first l → (∀ n, n ∈ l → x ∉ dependsOn n) →
  dependencies_first (List.filter (λ n, negb (n ≟ x)) l).
Proof.
  induction l as [|n l IH] using rev_ind; [done|]. intros [Hl Hn]%dependencies_first_unsnoc Hx.
  rewrite List.filter_app. cbn.
  assert (IH' : dependencies_first (List.filter (λ n, negb (n ≟ x)) l))
    by (apply IH; [done|]; intros m Hm; apply Hx, elem_of_app; by left).
  destruct (negb (n ≟ x)) eqn:E; [|by rewrite app_nil_r]. apply dependencies_first_snoc; [done|].
  intros d Hd. apply filter_in. split; [by apply Hn|]. apply negb_true_iff, bool_decide_eq_false.
  intros ->. apply (Hx n); [apply elem_of_app; right; left|done].
Qed.
End kahn.

(** Packages are activated in an order that lists each once, and, unless their
    non-peer edges form a cycle, every package after all packages of the list it
    depends on. *)
Theorem order_dependencies_first names edgesByPackage : NoDup names →
  let dependsOn n := map xd_packageName
    (List.filter (λ d, negb (xd_edgeType d ≟ xe_peer) && bool_decide (xd_packageName d ∈ names)) (edgesByPackage n)) in
  let order := orderPackagesByDependencyFirst names edgesByPackage in
  order ≡ₚ names ∧ ((¬ ∃ x, tc (λ a b, b ∈ dependsOn a) x x) → dependencies_first dependsOn order).
Proof.
  intros Hnd dependsOn order. unfold order, orderPackagesByDependencyFirst. fold dependsOn.
  assert (Hs : NoDup (js_sort names)) by by rewrite js_sort_perm.
  assert (Hl : (length (js_sort names) <= length names)%nat) by by rewrite js_sort_perm.
  split; [rewrite kahn_perm by done; apply js_sort_perm|]. intros Hac. apply kahn_first; try done.
  - intros n d _ (e & -> & [_ He]%filter_in)%list_elem_of_fmap. bprop. cbn. by rewrite js_sort_perm.
Qed.

(** ** The plan *)

Record DependencyClosurePin := { cp_name : string; cp_version : string }.
Inductive PlanCode :=
  pc_AUTHORIZATION_MISMATCH | pc_RANGE_VIOLATION | pc_INSTALLED_VERSION_CONFLICT | pc_UNSUPPORTED_CONSTRAINT |
  pc_MEMBER_UNRESOLVABLE | pc_DEPENDENCY_SCOPE.
(** What planning throws: a refusal naming the dependent and the package, what an
    injected function threw, or [pe_fuel], which is no answer of the code. *)
Inductive plan_exn :=
  | pe_plan (code : PlanCode) (from package : string)
  | pe_thrown (message : string)
  | pe_fuel.

Definition thrown {A} (r : result string A) : result plan_exn A :=
  match r with Ok a => Ok a | Err e => Err (pe_thrown e) end.

Record PlannedMember := {
  pm_packageName : string; pm_version : string; pm_typeId : string; pm_edges : list ExtensionDependency;
  pm_alreadyInstalled : bool
}.
Record DependencyInstallPlan := {
  dp_ordered : list PlannedMember; dp_root : string * string; dp_fromClosure : bool; dp_memberKinds : list (string * string)
}.
Record MemberSummary := { ms_resolvedVersion : string; ms_kind : option string; ms_manifest : json }.

Record DependencyPlanDeps := {
  pd_fetchSummary : string → string → result string MemberSummary;
  pd_parseEdges : json → string → result string (list ExtensionDependency);
  pd_isAutoInstallableEdge : ExtensionDependency → bool;
  pd_installedRows : list InstalledExtension
}.

Record PlanDependencyInstallInput := {
  pi_root : string * string; pi_orgId : option string; pi_closure : option (list DependencyClosurePin)
}.

Definition KNOWN_KINDS : list string := ["agent"; "skill"; "connector"; "artifact"; "workflow"].

Definition kindToTypeId (kind : option string) (packageName : string) : result plan_exn string :=
  match kind with
  | None => Ok "agent"
  | Some k => if bool_decide (k ∈ KNOWN_KINDS) then Ok k else Err (pe_plan pc_MEMBER_UNRESOLVABLE packageName packageName)
  end.

Definition findLiveRow (rows : list InstalledExtension) (packageName : string) (organizationId : option string)
    : option InstalledExtension :=
  let live := List.filter (λ r, (ie_packageName r ≟ packageName) && is_live r) rows in
  match List.find (at_org organizationId) live with
  | Some r => Some r
  | None => List.find (at_org None) live
  end.

(** [row.source.version], when it is truthy. *)
Definition row_version (row : InstalledExtension) : option json :=
  v ← jprop "version" (ie_source row); if json_truthy v then Some v else None.

Section planner.
Context `{Semver}.

Definition assertPinSatisfiesConstraint (from : string) (dep : ExtensionDependency) (pin : string)
    : result plan_exn unit :=
  match xd_versionConstraint dep with
  | vc_git_ref _ => Err (pe_plan pc_UNSUPPORTED_CONSTRAINT from (xd_packageName dep))
  | vc_exact version => if version ≟ pin then Ok () else Err (pe_plan pc_RANGE_VIOLATION from (xd_packageName dep))
  | vc_semver_range range =>
      if negb (range ≟ "*") && negb (satisfiesVersionRange pin range)
      then Err (pe_plan pc_RANGE_VIOLATION from (xd_packageName dep)) else Ok ()
  end.

(** Who asks for a package, and by which edge; nobody asks for the root. *)
Abbreviation request := (option (string * ExtensionDependency)).

Context (deps : DependencyPlanDeps) (input : PlanDependencyInstallInput).

Definition rootName : string := fst (pi_root input).
Definition requester (by_ : request) : string := match by_ with Some (from, _) => from | None => rootName end.

Definition assert_requested (by_ : request) (pin : string) : result plan_exn unit :=
  match by_ with Some (from, edge) => assertPinSatisfiesConstraint from edge pin | None => Ok () end.

Definition assertInDependencyScope (packageName requestedFrom : string) : result plan_exn unit :=
  if existsb (λ prefix, startsWith prefix packageName) (dependencyScopePrefixesFor rootName) then Ok ()
  else Err (pe_plan pc_DEPENDENCY_SCOPE requestedFrom packageName).

(** [new Map(closure.map(c => [c.name, c])).get(name)]: the last entry counts. *)
Definition closure_pin (closure : list DependencyClosurePin) (name : string) : option string :=
  cp_version <$> last (List.filter (λ c, cp_name c ≟ name) closure).

(** The resolved packages, in insertion order, and the kinds. *)
Record PlanState := { ps_resolved : list PlannedMember; ps_memberKinds : list (string * string) }.

(** [resolved.get(name)]. *)
Definition find_member (members : list PlannedMember) (name : string) : option PlannedMember :=
  List.find (λ m, pm_packageName m ≟ name) members.

(** The installed check and the new member. *)
Definition finalizeNode (st : PlanState) (packageName pin : string) (summary : MemberSummary)
    (edges : list ExtensionDependency) (by_ : request) : result plan_exn (PlannedMember * PlanState) :=
  already ← (
    if packageName ≟ rootName then Ok false
    else match findLiveRow (pd_installedRows deps) packageName (pi_orgId input) with
         | None => Ok false
         | Some row =>
             match row_version row with
             | None => Ok true
             | Some v => if v ≟ JStr pin then Ok true
                         else Err (pe_plan pc_INSTALLED_VERSION_CONFLICT (requester by_) packageName)
             end
         end);
  typeId ← kindToTypeId (ms_kind summary) packageName;
  let m := {| pm_packageName := packageName; pm_version := pin; pm_typeId := typeId; pm_edges := edges;
              pm_alreadyInstalled := already |} in
  mret (m, {| ps_resolved := ps_resolved st ++ [m];
              ps_memberKinds := match ms_kind summary with
                                | Some k => if k ≟ "" then ps_memberKinds st else ps_memberKinds st ++ [(packageName, k)]
                                | None => ps_memberKinds st end |}).

(** Resolution at an exact pin (the root and the members of an authorized closure). *)
Definition resolve_pinned (st : PlanState) (packageName pin : string) (by_ : request)
    : result plan_exn (PlannedMember * PlanState) :=
  assert_requested by_ pin;;
  summary ← thrown (pd_fetchSummary deps packageName pin);
  if negb (ms_resolvedVersion summary ≟ pin) then Err (pe_plan pc_MEMBER_UNRESOLVABLE (requester by_) packageName)
  else
    edges ← thrown (pd_parseEdges deps (ms_manifest summary) packageName);
    finalizeNode st packageName pin summary edges by_.

(** Resolution against the registry: the constraint of the edge, or the version
    the caller gave for the root. *)
Definition resolve_ranged (st : PlanState) (packageName : string) (by_ : request)
    : result plan_exn (PlannedMember * PlanState) :=
  constraint ← match by_ with
    | None => Ok (snd (pi_root input))
    | Some (from, edge) =>
        match xd_versionConstraint edge with
        | vc_exact version => Ok version
        | vc_semver_range range => Ok range
        | vc_git_ref _ => Err (pe_plan pc_UNSUPPORTED_CONSTRAINT from packageName)
        end
    end;
  summary ← thrown (pd_fetchSummary deps packageName constraint);
  edges ← thrown (pd_parseEdges deps (ms_manifest summary) packageName);
  assert_requested by_ (ms_resolvedVersion summary);;
  finalizeNode st packageName (ms_resolvedVersion summary) summary edges by_.

Definition resolveNode (st : PlanState) (packageName : string) (by_ : request)
    : result plan_exn (PlannedMember * PlanState) :=
  match find_member (ps_resolved st) packageName with
  | Some memo => assert_requested by_ (pm_version memo);; mret (memo, st)
  | None =>
      assertInDependencyScope packageName (requester by_);;
      match pi_closure input with
      | Some closure =>
          if packageName ≟ rootName then resolve_pinned st packageName (snd (pi_root input)) by_
          else match closure_pin closure packageName with
               | Some pin => resolve_pinned st packageName pin by_
               | None => Err (pe_plan pc_AUTHORIZATION_MISMATCH (requester by_) packageName)
               end
      | None => resolve_ranged st packageName by_
      end
  end.

(** The loop over the edges of one package taken from the queue. *)
Record WalkState := { wl_state : PlanState; wl_queue : list PlannedMember; wl_enqueued : list string }.

Fixpoint walk_edges (from : string) (edges : list ExtensionDependency) (w : WalkState) : result plan_exn WalkState :=
  match edges with
  | [] => Ok w
  | edge :: rest =>
      if negb (pd_isAutoInstallableEdge deps edge) then walk_edges from rest w
      else
        '(target, st) ← resolveNode (wl_state w) (xd_packageName edge) (Some (from, edge));
        walk_edges from rest
          (if bool_decide (pm_packageName target ∈ wl_enqueued w)
           then {| wl_state := st; wl_queue := wl_queue w; wl_enqueued := wl_enqueued w |}
           else {| wl_state := st;
                   wl_queue := if pm_alreadyInstalled target then wl_queue w else wl_queue w ++ [target];
                   wl_enqueued := wl_enqueued w ++ [pm_packageName target] |})
  end.

(** The breadth-first search. *)
Fixpoint search (fuel : nat) (w : WalkState) : result plan_exn PlanState :=
  match wl_queue w with
  | [] => Ok (wl_state w)
  | current :: queue =>
      match fuel with
      | O => Err pe_fuel
      | S f =>
          w' ← walk_edges (pm_packageName current) (pm_edges current)
                 {| wl_state := wl_state w; wl_queue := queue; wl_enqueued := wl_enqueued w |};
          search f w'
      end
  end.

(** The in-plan dependencies of a package. *)
Definition plan_edges (members : list PlannedMember) (m : PlannedMember) : list string :=
  map xd_packageName (List.filter (λ e, pd_isAutoInstallableEdge deps e
    && bool_decide (xd_packageName e ∈ map pm_packageName members)) (pm_edges m)).

Definition plan_order (members : list PlannedMember) : list string :=
  let names := map pm_packageName members in
  let dependsOn n := match find_member members n with Some m => plan_edges members m | None => [] end in
  let pick first ready := List.find (λ n, negb (n ≟ rootName)) ready ?? first in
  kahn (length names) dependsOn pick (js_sort names) [].

(** The root is moved to the end, where it usually is. *)
Definition root_last (names : list string) : list string :=
  if last names ≟ Some rootName then names else List.filter (λ n, negb (n ≟ rootName)) names ++ [rootName].

Definition planDependencyInstall (fuel : nat) : result plan_exn DependencyInstallPlan :=
  '(rootMember, st0) ← resolveNode {| ps_resolved := []; ps_memberKinds := [] |} rootName None;
  st ← search fuel {| wl_state := st0; wl_queue := [rootMember]; wl_enqueued := [rootName] |};
  root ← match find_member (ps_resolved st) rootName with
         | Some m => Ok m
         | None => Err (pe_thrown "Cannot read properties of undefined (reading 'version')")
         end;
  mret {| dp_ordered := omap (find_member (ps_resolved st)) (root_last (plan_order (ps_resolved st)));
          dp_root := (rootName, pm_version root);
          dp_fromClosure := is_present (pi_closure input);
          dp_memberKinds := ps_memberKinds st |}.

(** ** What a plan guarantees *)

Definition closure_allows (name pin : string) : Prop :=
  match pi_closure input with
  | Some c => if name ≟ rootName then pin = snd (pi_root input) else closure_pin c name = Some pin
  | None => True
  end.

(** A live row of the package, at another version than the pin, is a refusal. *)
Definition install_state (name pin : string) (already : bool) : Prop :=
  if name ≟ rootName then already = false
  else match findLiveRow (pd_installedRows deps) name (pi_orgId input) with
       | Some row => already = true ∧ (row_version row = None ∨ row_version row = Some (JStr pin))
       | None => already = false
       end.

(** What is checked of a member when it enters the plan. *)
Record member_ok (m : PlannedMember) : Prop := {
  mo_scope : ∃ prefix, prefix ∈ dependencyScopePrefixesFor rootName ∧ startsWith prefix (pm_packageName m) = true;
  mo_pin : closure_allows (pm_packageName m) (pm_version m);
  mo_fetched : ∃ range summary, pd_fetchSummary deps (pm_packageName m) range = Ok summary ∧
    ms_resolvedVersion summary = pm_version m ∧
    pd_parseEdges deps (ms_manifest summary) (pm_packageName m) = Ok (pm_edges m) ∧
    kindToTypeId (ms_kind summary) (pm_packageName m) = Ok (pm_typeId m);
  mo_installed : install_state (pm_packageName m) (pm_version m) (pm_alreadyInstalled m)
}.

Definition state_ok (st : PlanState) : Prop :=
  NoDup (map pm_packageName (ps_resolved st)) ∧ ∀ m, m ∈ ps_resolved st → member_ok m.

(** A refusal or an error of an injected function, never the end of the fuel. *)
Definition answers {A} (r : result plan_exn A) (Q : A → Prop) : Prop :=
  match r with Ok a => Q a | Err e => e ≠ pe_fuel end.

Lemma answers_bind {A B} (r : result plan_exn A) (f : A → result plan_exn B) (P : A → Prop) (Q : B → Prop) :
  answers r P → (∀ a, r = Ok a → P a → answers (f a) Q) → answers (r ≫= f) Q.
Proof. destruct r as [a|e]; cbn; auto. Qed.

Lemma answers_thrown {A} (r : result string A) : answers (thrown r) (λ _, True).
Proof. by destruct r. Qed.

Lemma answers_pin from d pin : answers (assertPinSatisfiesConstraint from d pin) (λ _, True).
Proof. unfold assertPinSatisfiesConstraint. destruct (xd_versionConstraint d); cbn; by try case_match. Qed.

Lemma answers_requested by_ pin : answers (assert_requested by_ pin) (λ _, True).
Proof. destruct by_ as [[from d]|]; [apply answers_pin|done]. Qed.

(** What resolving a package adds: nothing, or the package itself. *)
Definition resolves_to (st : PlanState) (name : string) (by_ : request) (r : PlannedMember * PlanState) : Prop :=
  pm_packageName r.1 = name ∧ assert_requested by_ (pm_version r.1) = Ok () ∧
  ((r.2 = st ∧ r.1 ∈ ps_resolved st) ∨
   (name ∉ map pm_packageName (ps_resolved st) ∧ ps_resolved r.2 = ps_resolved st ++ [r.1] ∧ member_ok r.1)).

Lemma finalizeNode_spec st name pin range summary edges by_ :
  name ∉ map pm_packageName (ps_resolved st) → assert_requested by_ pin = Ok () →
  (∃ prefix, prefix ∈ dependencyScopePrefixesFor rootName ∧ startsWith prefix name = true) →
  closure_allows name pin → pd_fetchSummary deps name range = Ok summary → ms_resolvedVersion summary = pin →
  pd_parseEdges deps (ms_manifest summary) name = Ok edges →
  answers (finalizeNode st name pin summary edges by_) (resolves_to st name by_).
Proof.
  intros Hn Hreq Hscope Hcl Hf Hv Hp. unfold finalizeNode.
  apply (answers_bind _ _ (λ already, install_state name pin already)).
  { unfold install_state. destruct (name ≟ rootName); [done|]. destruct (findLiveRow _ _ _) as [row|]; [|done].
    destruct (row_version row) as [v|]; [|by split; [|left]]. case_bool_decide as E; [|done]. split; [done|right; congruence]. }
  intros already _ Hi. apply (answers_bind _ _ (λ _, True)).
  { unfold kindToTypeId. destruct (ms_kind summary); [|done]. by case_bool_decide. }
  intros typeId Ht _. cbn. split_and!; [done|done|right]. split_and!; [done|done|]. split; cbn; try done.
  by exists range, summary.
Qed.

Lemma find_member_Some l name m : find_member l name = Some m → m ∈ l ∧ pm_packageName m = name.
Proof. intros [Hin E]%find_some. split; [by apply list_elem_of_In|by bprop]. Qed.

Lemma find_member_None l name : find_member l name = None → name ∉ map pm_packageName l.
Proof.
  intros E (m & -> & Hm)%list_elem_of_fmap. pose proof (find_none _ _ E m (proj1 (list_elem_of_In _ _) Hm)) as Hx.
  cbn in Hx. by bprop.
Qed.

Lemma resolveNode_spec st name by_ : answers (resolveNode st name by_) (resolves_to st name by_).
Proof.
  unfold resolveNode. destruct (find_member _ name) as [memo|] eqn:Em.
  { apply find_member_Some in Em as [Hin Hn]. apply (answers_bind _ _ (λ _, True)); [apply answers_requested|].
    intros [] Hreq _. cbn. split_and!; [done|done|by left]. }
  apply find_member_None in Em.
  apply (answers_bind _ _ (λ _, ∃ prefix, prefix ∈ dependencyScopePrefixesFor rootName ∧ startsWith prefix name = true)).
  { unfold assertInDependencyScope. destruct (existsb _ _) eqn:E; [|done]. apply existsb_exists in E as (p & Hp & Hs).
    exists p. split; [by apply list_elem_of_In|done]. }
  intros [] _ Hscope.
  assert (Hpinned : ∀ pin, closure_allows name pin → answers (resolve_pinned st name pin by_) (resolves_to st name by_)).
  { intros pin Hcl. unfold resolve_pinned. apply (answers_bind _ _ (λ _, True)); [apply answers_requested|].
    intros [] Hreq _. apply (answers_bind _ _ (λ _, True)); [apply answers_thrown|]. intros summary Hf _.
    case_bool_decide as Hv; [|done]. cbn [negb]. apply (answers_bind _ _ (λ _, True)); [apply answers_thrown|].
    intros edges Hp _. apply (finalizeNode_spec st name pin pin); try done; [by destruct (pd_fetchSummary _ _ _); simplify_eq/=|].
    by destruct (pd_parseEdges _ _ _); simplify_eq/=. }
  unfold closure_allows in Hpinned. destruct (pi_closure input) as [c|] eqn:Ec.
  - destruct (name ≟ rootName); [by apply Hpinned|]. destruct (closure_pin c name) as [pin|] eqn:Ep; [|done].
    by apply Hpinned.
  - unfold resolve_ranged. apply (answers_bind _ _ (λ _, True)); [by destruct by_ as [[from e]|]; [destruct (xd_versionConstraint e)|]|].
    intros range _ _. apply (answers_bind _ _ (λ _, True)); [apply answers_thrown|]. intros summary Hf _.
    apply (answers_bind _ _ (λ _, True)); [apply answers_thrown|]. intros edges Hp _.
    apply (answers_bind _ _ (λ _, True)); [apply answers_requested|]. intros [] Hreq _.
    apply (finalizeNode_spec st name (ms_resolvedVersion summary) range); try done.
    + unfold closure_allows. by rewrite Ec.
    + by destruct (pd_fetchSummary _ _ _); simplify_eq/=.
    + by destruct (pd_parseEdges _ _ _); simplify_eq/=.
Qed.

(** Members whose own edges are followed: the root, and what is not installed yet. *)
Definition walked (m : PlannedMember) : Prop := pm_packageName m = rootName ∨ pm_alreadyInstalled m = false.

(** The edge of [m] leads to a member whose pin satisfies it. *)
Definition satisfied (members : list PlannedMember) (m : PlannedMember) (e : ExtensionDependency) : Prop :=
  ∃ t, t ∈ members ∧ pm_packageName t = xd_packageName e ∧
       assertPinSatisfiesConstraint (pm_packageName m) e (pm_version t) = Ok ().

Definition closed_at (members : list PlannedMember) (m : PlannedMember) : Prop :=
  ∀ e, e ∈ pm_edges m → pd_isAutoInstallableEdge deps e = true → satisfied members m e.

(** Members that the root needs, directly or not. *)
Inductive needed (members : list PlannedMember) : PlannedMember → Prop :=
  | needed_root m : m ∈ members → pm_packageName m = rootName → needed members m
  | needed_edge m e t :
      needed members m → walked m → e ∈ pm_edges m → pd_isAutoInstallableEdge deps e = true →
      t ∈ members → pm_packageName t = xd_packageName e → needed members t.

(** The search, after [popped] turns; [cur] is the package being followed. *)
Record searching (cur : option PlannedMember) (popped : nat) (w : WalkState) : Prop := {
  se_ok : state_ok (wl_state w);
  se_enqueued : wl_enqueued w = map pm_packageName (ps_resolved (wl_state w));
  se_queue : ∀ m, m ∈ wl_queue w → m ∈ ps_resolved (wl_state w) ∧ walked m;
  se_count : (popped + length (wl_queue w) <= length (ps_resolved (wl_state w)))%nat;
  se_closed : ∀ m, m ∈ ps_resolved (wl_state w) → walked m →
    m ∈ wl_queue w ∨ cur = Some m ∨ closed_at (ps_resolved (wl_state w)) m;
  se_needed : ∀ m, m ∈ ps_resolved (wl_state w) → needed (ps_resolved (wl_state w)) m;
  se_cur : ∀ m, cur = Some m → m ∈ ps_resolved (wl_state w) ∧ walked m;
  se_root : ∃ m, m ∈ ps_resolved (wl_state w) ∧ pm_packageName m = rootName
}.

Lemma satisfied_mono l l' m e : l ⊆ l' → satisfied l m e → satisfied l' m e.
Proof. intros Hl (t & Ht & ?). exists t. split; [by apply Hl|done]. Qed.

Lemma needed_mono l l' m : l ⊆ l' → needed l m → needed l' m.
Proof. intros Hl. induction 1; [apply needed_root; auto|eapply needed_edge; eauto]. Qed.

Lemma add_member_ok st m st' : state_ok st → pm_packageName m ∉ map pm_packageName (ps_resolved st) →
  ps_resolved st' = ps_resolved st ++ [m] → member_ok m → state_ok st'.
Proof.
  intros [Hnd Hall] Hn E Hm. unfold state_ok. rewrite E, map_app. split.
  - apply NoDup_app. split_and!; [done| |apply NoDup_singleton]. by intros x Hx ->%list_elem_of_singleton.
  - intros x [Hx| ->%list_elem_of_singleton]%elem_of_app; auto.
Qed.

Lemma already_not_root m : member_ok m → pm_alreadyInstalled m = true → ¬ walked m.
Proof.
  intros [_ _ _ Hi] Ha [Hr|Hr]; [|congruence]. unfold install_state in Hi.
  rewrite bool_decide_true in Hi by done. congruence.
Qed.

(** The walk state after an edge to [target]. *)
Definition enqueue (w : WalkState) (target : PlannedMember) (st : PlanState) : WalkState :=
  if bool_decide (pm_packageName target ∈ wl_enqueued w)
  then {| wl_state := st; wl_queue := wl_queue w; wl_enqueued := wl_enqueued w |}
  else {| wl_state := st;
          wl_queue := if pm_alreadyInstalled target then wl_queue w else wl_queue w ++ [target];
          wl_enqueued := wl_enqueued w ++ [pm_packageName target] |}.

Lemma follow_edge cur popped w e target st :
  searching (Some cur) popped w → e ∈ pm_edges cur → pd_isAutoInstallableEdge deps e = true →
  resolves_to (wl_state w) (xd_packageName e) (Some (pm_packageName cur, e)) (target, st) →
  let w' := enqueue w target st in
  searching (Some cur) popped w' ∧ ps_resolved (wl_state w) ⊆ ps_resolved (wl_state w') ∧
  satisfied (ps_resolved (wl_state w')) cur e.
Proof.
  intros [Hok Henq Hq Hcount Hcl Hneed Hcur Hrt] He Hauto (Hn & Hreq & Hcase). cbn [fst snd] in *. unfold enqueue.
  destruct (Hcur cur eq_refl) as [Hcin Hcw].
  destruct Hcase as [[-> Hin]|(Hnew & Est & Hm)].
  - rewrite bool_decide_true by (rewrite Henq; by apply list_elem_of_fmap_2).
    split; [by split|]. split; [done|]. by exists target.
  - rewrite bool_decide_false by (by rewrite Henq, Hn). cbn [wl_state].
    assert (Hsub : ps_resolved (wl_state w) ⊆ ps_resolved st) by (rewrite Est; set_solver).
    assert (Htin : target ∈ ps_resolved st) by (rewrite Est; apply elem_of_app; right; left).
    split; [|split; [done|by exists target]].
    assert (Hold : ∀ m, m ∈ ps_resolved st → m = target ∨ m ∈ ps_resolved (wl_state w)).
    { intros m. rewrite Est. intros [?| ->%list_elem_of_singleton]%elem_of_app; auto. }
    set (queue := if pm_alreadyInstalled target then wl_queue w else wl_queue w ++ [target]).
    assert (Hqueue : ∀ m, m ∈ queue ↔ m ∈ wl_queue w ∨ (m = target ∧ pm_alreadyInstalled target = false)).
    { intros m. unfold queue. destruct (pm_alreadyInstalled target); [|rewrite elem_of_app, list_elem_of_singleton]; naive_solver. }
    split; cbn [wl_state wl_queue wl_enqueued].
    + eapply add_member_ok; [done|by rewrite Hn|done|done].
    + by rewrite Henq, Est, map_app.
    + intros m [Hm'|[-> Ha]]%Hqueue; [|split; [done|by right]]. destruct (Hq m Hm'). auto.
    + rewrite Est, length_app. unfold queue. destruct (pm_alreadyInstalled target); rewrite ?length_app; cbn; lia.
    + intros m [->|Hm']%Hold Hw.
      * left. apply Hqueue. right. split; [done|]. destruct (pm_alreadyInstalled target) eqn:Ha; [|done].
        by destruct (already_not_root _ Hm Ha).
      * destruct (Hcl m Hm' Hw) as [?|[?|Hc]]; [left; apply Hqueue; by left|by right; left|right; right].
        intros e' He' Ha'. eapply satisfied_mono; [done|by apply Hc].
    + intros m [->|Hm']%Hold; [|eapply needed_mono; [done|by apply Hneed]].
      eapply (needed_edge _ cur e); try done. eapply needed_mono; [done|by apply Hneed].
    + intros m [= <-]. auto.
    + destruct Hrt as (m & Hm' & Hr'). exists m. auto.
Qed.

Lemma walk_edges_spec cur popped pre rest w :
  pm_edges cur = pre ++ rest → searching (Some cur) popped w →
  (∀ e, e ∈ pre → pd_isAutoInstallableEdge deps e = true → satisfied (ps_resolved (wl_state w)) cur e) →
  answers (walk_edges (pm_packageName cur) rest w) (searching None popped).
Proof.
  revert pre w. induction rest as [|e rest IH]; intros pre w Hpre Hs Hdone; cbn [walk_edges].
  { rewrite app_nil_r in Hpre. destruct Hs as [Hok Henq Hq Hcount Hcl Hneed Hcur Hrt]. split; try done.
    intros m Hm Hw. destruct (Hcl m Hm Hw) as [?|[[= ->]|?]]; [by left| |by right; right].
    right. right. intros e He Ha. apply Hdone; [by rewrite <- Hpre|done]. }
  destruct (pd_isAutoInstallableEdge deps e) eqn:Ha; cbn [negb]; cycle 1.
  { apply (IH (pre ++ [e])); [by rewrite <- app_assoc|done|].
    intros e' [He'| ->%list_elem_of_singleton]%elem_of_app Ha'; [by apply Hdone|congruence]. }
  eapply answers_bind; [apply resolveNode_spec|]. intros [target st] _ Hr. fold (enqueue w target st).
  destruct (follow_edge cur popped w e target st) as (Hs' & Hsub & Hsat); try done.
  { rewrite Hpre. apply elem_of_app. right. left. }
  apply (IH (pre ++ [e])); [by rewrite <- app_assoc|done|].
  intros e' [He'| ->%list_elem_of_singleton]%elem_of_app Ha'; [|done]. eapply satisfied_mono; [done|by apply Hdone].
Qed.

(** No more packages than the names that can be asked for. *)
Definition known_packages (names : list string) : Prop :=
  rootName ∈ names ∧
  match pi_closure input with
  | Some c => ∀ p, p ∈ c → cp_name p ∈ names
  | None => ∀ name range summary edges e,
      pd_fetchSummary deps name range = Ok summary → pd_parseEdges deps (ms_manifest summary) name = Ok edges →
      e ∈ edges → pd_isAutoInstallableEdge deps e = true → xd_packageName e ∈ names
  end.

Lemma resolved_bound names cur popped w : known_packages names → searching cur popped w →
  (length (ps_resolved (wl_state w)) <= length names)%nat.
Proof.
  intros [Hroot Hk] [[Hnd Hok] _ _ _ _ Hneed _ _]. rewrite <- (length_map pm_packageName).
  apply NoDup_subset_length; [done|]. intros n (m & -> & Hm)%list_elem_of_fmap.
  destruct (Hneed m Hm) as [m' _ ->|m0 e t Hn0 _ He Ha Ht En]; [done|].
  destruct (decide (pm_packageName t = rootName)) as [->|Hne]; [done|].
  destruct (pi_closure input) as [c|] eqn:Ec.
  - pose proof (mo_pin _ (Hok t Ht)) as Hp. unfold closure_allows in Hp. rewrite Ec, bool_decide_false in Hp by done.
    unfold closure_pin in Hp. destruct (last _) as [p|] eqn:El; [|done]. apply last_Some_elem_of in El.
    apply filter_in in El as [Hin Hpn]. bprop. rewrite <- Hpn. by apply Hk.
  - assert (Hm0 : m0 ∈ ps_resolved (wl_state w)) by (by destruct Hn0).
    destruct (mo_fetched _ (Hok m0 Hm0)) as (range & summary & Hf & _ & Hpe & _). rewrite En. by eapply Hk.
Qed.

Lemma search_spec names fuel popped w : known_packages names → searching None popped w →
  (length names <= popped + fuel)%nat →
  answers (search fuel w) (λ st, state_ok st ∧ (∀ m, m ∈ ps_resolved st → walked m → closed_at (ps_resolved st) m) ∧
    (∀ m, m ∈ ps_resolved st → needed (ps_resolved st) m) ∧ ∃ m, m ∈ ps_resolved st ∧ pm_packageName m = rootName).
Proof.
  intros Hk. revert popped w. induction fuel as [|f IH]; intros popped w Hs Hf; cbn [search];
    destruct (wl_queue w) as [|cur queue] eqn:Eq.
  1,3: destruct Hs as [Hok _ _ _ Hcl Hneed _ Hrt]; cbn; split_and!; [apply Hok..| |done|done];
    intros m Hm Hw; destruct (Hcl m Hm Hw) as [Hx|[?|?]]; [rewrite Eq in Hx; by apply elem_of_nil in Hx|done|done].
  - exfalso. pose proof (resolved_bound _ _ _ _ Hk Hs) as Hb. pose proof (se_count _ _ _ Hs) as Hc.
    rewrite Eq in Hc. cbn in Hc. lia.
  - set (w1 := {| wl_state := wl_state w; wl_queue := queue; wl_enqueued := wl_enqueued w |}).
    assert (Hs1 : searching (Some cur) (S popped) w1).
    { destruct Hs as [Hok Henq Hq Hcount Hcl Hneed _ Hrt]. rewrite Eq in *. split; cbn [w1 wl_state wl_queue wl_enqueued]; try done.
      - intros m Hm. apply Hq. by right.
      - cbn in Hcount. lia.
      - intros m Hm Hw. destruct (Hcl m Hm Hw) as [[->|?]%elem_of_cons|[[=]|?]]; auto.
      - intros m [= <-]. apply Hq. left. }
    eapply answers_bind; [apply (walk_edges_spec cur (S popped) []); [done|exact Hs1|by intros ? ?%elem_of_nil]|].
    intros w' _ Hs'. apply (IH (S popped)); [done|lia].
Qed.

(** ** The order of the plan *)

Lemma find_members l names : NoDup (map pm_packageName l) → (∀ n, n ∈ names → n ∈ map pm_packageName l) →
  map pm_packageName (omap (find_member l) names) = names ∧ (∀ m, m ∈ omap (find_member l) names → m ∈ l).
Proof.
  intros Hnd. induction names as [|n names IH]; intros Hin; [split; [done|by intros m ?%elem_of_nil]|].
  destruct IH as [IH1 IH2]; [intros; apply Hin; by right|]. cbn.
  destruct (find_member l n) as [m|] eqn:E.
  - apply find_member_Some in E as [Hm Hn]. split; [cbn; by f_equal|]. intros x [->|Hx]%elem_of_cons; auto.
  - apply find_member_None in E. destruct E. apply Hin. left.
Qed.

Lemma root_last_perm l : NoDup l → rootName ∈ l → root_last l ≡ₚ l ∧ last (root_last l) = Some rootName.
Proof.
  intros Hnd Hr. unfold root_last. case_bool_decide as E; [done|]. split; [|apply last_snoc].
  rewrite <- Permutation_cons_append. symmetry. by apply filter_other_perm.
Qed.

(** The in-plan edges, by name. *)
Definition plan_depends (members : list PlannedMember) (n : string) : list string :=
  match find_member members n with Some m => plan_edges members m | None => [] end.

Lemma plan_depends_elem members m d : NoDup (map pm_packageName members) → m ∈ members →
  d ∈ plan_depends members (pm_packageName m) ↔
  ∃ e, e ∈ pm_edges m ∧ pd_isAutoInstallableEdge deps e = true ∧ xd_packageName e = d ∧ d ∈ map pm_packageName members.
Proof.
  intros Hnd Hm. unfold plan_depends. destruct (find_member members (pm_packageName m)) as [m'|] eqn:E.
  - apply find_member_Some in E as [Hm' Hn]. assert (m' = m) as -> by (by apply (row_unique pm_packageName members)).
    unfold plan_edges. rewrite list_elem_of_fmap. setoid_rewrite filter_in. setoid_rewrite andb_true_iff.
    setoid_rewrite bool_decide_eq_true. naive_solver.
  - apply find_member_None in E. destruct E. by apply list_elem_of_fmap_2.
Qed.

Lemma plan_depends_perm members members' : members ≡ₚ members' → NoDup (map pm_packageName members') →
  ∀ n d, d ∈ plan_depends members n ↔ d ∈ plan_depends members' n.
Proof.
  intros Hp Hnd n d. assert (Hnd' : NoDup (map pm_packageName members)) by by rewrite Hp.
  destruct (decide (n ∈ map pm_packageName members')) as [(m & -> & Hm)%list_elem_of_fmap|Hn].
  - rewrite !plan_depends_elem by (try done; by rewrite Hp). by setoid_rewrite Hp.
  - unfold plan_depends.
    assert (Hnone : ∀ l, n ∉ map pm_packageName l → find_member l n = None).
    { intros l Hl. destruct (find_member l n) as [m|] eqn:E; [|done]. apply find_member_Some in E as [Hm <-].
      destruct Hl. by apply list_elem_of_fmap_2. }
    rewrite !Hnone; [done|done|by rewrite Hp].
Qed.

Lemma needed_reaches members m : NoDup (map pm_packageName members) → needed members m →
  m ∈ members ∧ rtc (λ a b, b ∈ plan_depends members a) rootName (pm_packageName m).
Proof.
  intros Hnd. induction 1 as [m Hm ->|m e t Hn [Hm IH] _ He Ha Ht En]; [done|]. split; [done|].
  eapply rtc_r; [exact IH|]. apply plan_depends_elem; [done|done|]. exists e.
  split_and!; [done|done|by rewrite En|by apply list_elem_of_fmap_2].
Qed.

Lemma pick_in (n : string) (l : list string) : n ∈ l → (List.find (λ n, negb (n ≟ rootName)) l ?? n) ∈ l.
Proof. intros Hn. destruct (List.find _ l) as [x|] eqn:E; [|done]. apply find_some in E as [E _]. by apply list_elem_of_In. Qed.

Lemma plan_order_perm members : NoDup (map pm_packageName members) →
  plan_order members ≡ₚ map pm_packageName members.
Proof.
  intros Hnd. unfold plan_order. rewrite kahn_perm; [apply js_sort_perm|apply pick_in|by rewrite js_sort_perm|by rewrite js_sort_perm].
Qed.

Lemma plan_order_first members : NoDup (map pm_packageName members) →
  (∀ m, m ∈ members → needed members m) → ¬ (∃ x, tc (λ a b, b ∈ plan_depends members a) x x) →
  dependencies_first (plan_depends members) (root_last (plan_order members)).
Proof.
  intros Hnd Hneed Hac. set (R := λ a b, b ∈ plan_depends members a).
  assert (Hin : ∀ n d, d ∈ plan_depends members n → n ∈ map pm_packageName members ∧ d ∈ map pm_packageName members).
  { intros n d Hd. unfold plan_depends in Hd. destruct (find_member members n) as [m|] eqn:E; [|by apply elem_of_nil in Hd].
    apply find_member_Some in E as [Hm <-]. split; [by apply list_elem_of_fmap_2|].
    apply list_elem_of_fmap in Hd as (e & -> & [_ He]%filter_in). by bprop. }
  assert (Hfirst : dependencies_first (plan_depends members) (plan_order members)).
  { unfold plan_order. apply kahn_first; try done.
    - apply pick_in.
    - by rewrite js_sort_perm.
    - by rewrite js_sort_perm.
    - intros n d _ Hd. cbn. rewrite js_sort_perm. by eapply Hin. }
  assert (Hroot : ∀ n, rootName ∉ plan_depends members n).
  { intros n Hd. destruct (Hin n _ Hd) as [(m & -> & Hm)%list_elem_of_fmap _].
    destruct (needed_reaches members m Hnd (Hneed m Hm)) as [_ Hreach]. apply Hac. exists rootName.
    eapply tc_rtc_l; [exact Hreach|]. by apply tc_once. }
  unfold root_last. case_bool_decide; [done|]. apply dependencies_first_snoc; [by apply dependencies_first_without|].
  intros d Hd. apply filter_in. destruct (Hin _ _ Hd) as [_ Hdm]. split; [by rewrite plan_order_perm|].
  apply negb_true_iff, bool_decide_eq_false. intros ->. by apply (Hroot rootName).
Qed.

(** The members of a plan, each once, the root last. *)
Lemma ordered_members st : state_ok st → (∃ m, m ∈ ps_resolved st ∧ pm_packageName m = rootName) →
  let members := ps_resolved st in
  let ms := omap (find_member members) (root_last (plan_order members)) in
  map pm_packageName ms = root_last (plan_order members) ∧ ms ≡ₚ members ∧
  ∃ m, last ms = Some m ∧ m ∈ members ∧ pm_packageName m = rootName.
Proof.
  intros [Hnd _] (r & Hr & Hrn) members ms.
  assert (Hperm : plan_order members ≡ₚ map pm_packageName members) by by apply plan_order_perm.
  assert (Hrin : rootName ∈ plan_order members) by (rewrite Hperm, <- Hrn; by apply list_elem_of_fmap_2).
  destruct (root_last_perm (plan_order members)) as [Hp Hl]; [by rewrite Hperm|done|].
  destruct (find_members members (root_last (plan_order members)) Hnd) as [Hmap Hsub]; [intros n; by rewrite Hp, Hperm|].
  fold ms in Hmap, Hsub. split; [done|].
  assert (Hndm : NoDup (map pm_packageName ms)) by by rewrite Hmap, Hp, Hperm.
  split.
  - apply NoDup_Permutation; [by apply NoDup_fmap_1 in Hndm|by apply NoDup_fmap_1 in Hnd|]. intros m. split; [apply Hsub|].
    intros Hm. assert (Hn : pm_packageName m ∈ map pm_packageName ms) by (rewrite Hmap, Hp, Hperm; by apply list_elem_of_fmap_2).
    apply list_elem_of_fmap in Hn as (m' & E & Hm'). by rewrite (row_unique pm_packageName members m m' Hnd Hm (Hsub _ Hm') E).
  - rewrite <- Hmap in Hl. change (map pm_packageName ms) with (pm_packageName <$> ms) in Hl. rewrite fmap_last in Hl.
    destruct (last ms) as [m|] eqn:E; [|done]. injection Hl as Hl. exists m. split; [done|]. split; [|done].
    apply Hsub. by apply last_Some_elem_of in E.
Qed.

Lemma answers_mono {A} (r : result plan_exn A) (P Q : A → Prop) : (∀ a, P a → Q a) → answers r P → answers r Q.
Proof. destruct r; cbn; auto. Qed.

(** The search starts with the root alone. *)
Lemma root_searching m st : resolves_to {| ps_resolved := []; ps_memberKinds := [] |} rootName None (m, st) →
  searching None 0 {| wl_state := st; wl_queue := [m]; wl_enqueued := [rootName] |}.
Proof.
  intros (Hn & _ & [[_ Hin]|(_ & E & Hm)]); cbn in *; [by apply elem_of_nil in Hin|].
  assert (Hone : ∀ x, x ∈ ps_resolved st → x = m) by (intros x; rewrite E; by intros ->%list_elem_of_singleton).
  assert (Hin : m ∈ ps_resolved st) by (rewrite E; left).
  split; cbn [wl_state wl_queue wl_enqueued].
  - unfold state_ok. rewrite E. split; [apply NoDup_singleton|]. by intros x ->%list_elem_of_singleton.
  - by rewrite E, <- Hn.
  - intros x ->%list_elem_of_singleton. split; [done|by left].
  - rewrite E. cbn. lia.
  - intros x ->%Hone _. left. left.
  - intros x ->%Hone. by apply needed_root.
  - done.
  - by exists m.
Qed.

(** C29: Planning an install ends with a refusal, with an error of the registry, or
    with a plan that may be carried out from left to right.  The plan lists each
    package once, the root last; exactly the packages the root needs through
    required run-time and install-time edges, without looking behind packages
    already installed; each in the root's scope allowlist, at the version the
    authorization names (when there is one) and whose manifest was read, at no
    other version than the one installed; every edge that was followed is satisfied
    by the pin of its target; and, unless those edges form a cycle, every package
    comes after all it depends on. *)
Theorem plan_sound fuel names : known_packages names → (length names <= fuel)%nat →
  match planDependencyInstall fuel with
  | Err e => e ≠ pe_fuel
  | Ok plan =>
      let ms := dp_ordered plan in
      NoDup (map pm_packageName ms) ∧
      (∃ m, last ms = Some m ∧ pm_packageName m = rootName ∧ dp_root plan = (rootName, pm_version m)) ∧
      (∀ m, m ∈ ms → member_ok m ∧ needed ms m ∧ (walked m → closed_at ms m)) ∧
      ((¬ ∃ x, tc (λ a b, b ∈ plan_depends ms a) x x) → dependencies_first (plan_depends ms) (map pm_packageName ms))
  end.
Proof.
  intros Hk Hf.
  match goal with |- match ?r with Ok plan => @?Q plan | Err e => _ end => change (answers r Q) end.
  unfold planDependencyInstall. eapply answers_bind; [apply resolveNode_spec|]. intros [rootMember st0] _ Hr.
  eapply answers_bind; [apply (search_spec names fuel 0); [done|by apply root_searching|done]|].
  intros st _ (Hok & Hcl & Hneed & Hroot). destruct (ordered_members st Hok Hroot) as (Hmap & Hp & m & Hl & Hm & Hmn).
  destruct Hok as [Hnd Hall].
  apply (answers_bind _ _ (λ m', m' = m)).
  { destruct (find_member _ rootName) as [m'|] eqn:E; cbn; [|by apply find_member_None in E; destruct E; rewrite <- Hmn; apply list_elem_of_fmap_2].
    apply find_member_Some in E as [Hm' Hn']. apply (row_unique pm_packageName (ps_resolved st)); congruence. }
  intros ? _ ->. cbn. set (ms := omap _ _) in *.
  assert (Hsub : ps_resolved st ⊆ ms) by (intros x; by rewrite Hp).
  split_and!; [by rewrite Hp|by exists m| |].
  - intros x Hx. rewrite Hp in Hx. split; [by apply Hall|]. split; [by eapply needed_mono; [|apply Hneed]|].
    intros Hw e He Ha. eapply satisfied_mono; [done|by apply Hcl].
  - intros Hac. rewrite Hmap.
    assert (Hpd : ∀ n d, d ∈ plan_depends ms n ↔ d ∈ plan_depends (ps_resolved st) n) by (by apply plan_depends_perm).
    intros i n d Hi Hd. eapply plan_order_first; [done|done| |done|by apply Hpd]. intros [x Hx]. apply Hac. exists x.
    revert Hx. generalize x at 1 3. intros y. induction 1 as [a b Hab|a b c Hab _ IH];
      [by apply tc_once, Hpd|eapply tc_l; [by apply Hpd|exact IH]].
Qed.
End planner.

(** ** Instances *)

#[local] Instance plan_semver : Semver := {| semver_satisfies := λ v range, v ≟ range |}.

Definition plan_edge (name : string) : ExtensionDependency := {|
  xd_packageName := name; xd_kind := None; xd_edgeType := xe_runtime; xd_versionConstraint := vc_semver_range "*";
  xd_requirement := xr_required |}.

(** A registry of three packages: the root and two it requires, one of the other. *)
Definition registry_edges (name : string) : list ExtensionDependency :=
  if name ≟ "@v/app" then [plan_edge "@v/lib"; plan_edge "@cinatra-ai/base"]
  else if name ≟ "@v/lib" then [plan_edge "@cinatra-ai/base"] else [].
Definition registry : DependencyPlanDeps := {|
  pd_fetchSummary := λ name _, Ok {| ms_resolvedVersion := "1.0.0"; ms_kind := Some "agent"; ms_manifest := JStr name |};
  pd_parseEdges := λ _ name, Ok (registry_edges name);
  pd_isAutoInstallableEdge := isAutoInstallableEdge;
  pd_installedRows := [] |}.
Definition app_input : PlanDependencyInstallInput :=
  {| pi_root := ("@v/app", "latest"); pi_orgId := None; pi_closure := None |}.
Definition registry_names : list string := ["@v/app"; "@v/lib"; "@cinatra-ai/base"].

Lemma registry_known : known_packages registry app_input registry_names.
Proof.
  split; [left|]. cbn. intros name range summary edges e _ [= <-] He _. unfold registry_edges in He.
  repeat case_bool_decide; rewrite ?elem_of_cons in He; set_solver.
Qed.

Lemma plan_sound_witness :
  ∃ plan, planDependencyInstall registry app_input 3 = Ok plan ∧
    map pm_packageName (dp_ordered plan) = ["@cinatra-ai/base"; "@v/lib"; "@v/app"] ∧
    dp_root plan = ("@v/app", "1.0.0") ∧
    ∀ m, m ∈ dp_ordered plan → member_ok registry app_input m.
Proof.
  pose proof (plan_sound registry app_input 3 registry_names registry_known) as Hs.
  destruct (planDependencyInstall registry app_input 3) as [plan|e] eqn:E; [|vm_compute in E; discriminate E].
  exists plan. split; [reflexivity|].
  assert (Hplan : map pm_packageName (dp_ordered plan) = ["@cinatra-ai/base"; "@v/lib"; "@v/app"] ∧ dp_root plan = ("@v/app", "1.0.0"))
    by (vm_compute in E; injection E as <-; split; reflexivity).
  split; [apply Hplan|]. split; [apply Hplan|].
  destruct Hs as (_ & _ & Hall & _); [cbn; lia|]. intros m Hm. apply Hall, Hm.
Defined.

Lemma order_dependencies_first_witness :
  orderPackagesByDependencyFirst registry_names registry_edges = ["@cinatra-ai/base"; "@v/lib"; "@v/app"] ∧
  orderPackagesByDependencyFirst registry_names registry_edges ≡ₚ registry_names.
Proof.
  split; [vm_compute; reflexivity|]. apply (order_dependencies_first registry_names registry_edges).
  apply (bool_decide_eq_true _). vm_compute. reflexivity.
Defined.
