(* ===== verification/ExtensionLifecycle.v ===== *)
(** * The lifecycle of installed extensions
      ([packages/extensions/src/lifecycle-primitive.ts], [canonical-store.ts],
      [canonical-gate.ts], [static-bundle-anchor.ts], [non-finalized-row.ts])

    Every write of [installed_extension] goes through the functions of this file.
    The state is that table with its unique indexes and checks, and the access
    rows of the extensions, which a removal cleans.  A function that throws leaves
    the state as it is: each makes at most one write of the table.

    Timestamps are not modelled: nothing here reads them.  The journal phase of an
    install is read through an injected hook. *)

From S2P Require Import Prelude Json Spec Extensions Closure.

(** ** The table *)

Record ExtensionStore := {
  es_rows : list InstalledExtension;
  es_access : list (ExtensionKind * string)   (* the kind and id of each co-owner and policy row *)
}.

Inductive LifecycleCode :=
  lt_LOCKED_REJECTS_OP | lt_ILLEGAL_TRANSITION | lt_EXT_NOT_FOUND | lt_INVALID_INPUT | lt_INVALID_IDENTITY | lt_DATABASE.

Abbreviation XM A := (ExtensionStore → result LifecycleCode (A * ExtensionStore)).

Definition PLATFORM_OWNER_SENTINEL : string := "__platform__".

Definition readInstalledExtensionById (st : ExtensionStore) (id : string) : option InstalledExtension :=
  List.find (λ r, ie_id r ≟ id) (es_rows st).

Record CanonicalIdentity := {
  ci_organizationId : option string; ci_ownerLevel : ExtensionOwnerLevel; ci_ownerId : option string;
  ci_packageName : string
}.

Definition platformizeOwnerId (level : ExtensionOwnerLevel) (ownerId : option string) : string :=
  if level ≟ xo_platform then PLATFORM_OWNER_SENTINEL else ownerId ?? PLATFORM_OWNER_SENTINEL.

(** An empty organization id is read as none. *)
Definition identity_org (org : option string) : option string :=
  match org with Some o => if o ≟ "" then None else Some o | None => None end.

Definition has_identity (org : option string) (level : ExtensionOwnerLevel) (owner name : string)
    (r : InstalledExtension) : bool :=
  (ie_organizationId r ≟ org) && (ie_ownerLevel r ≟ level) && (ie_ownerId r ≟ Some owner) && (ie_packageName r ≟ name).

Definition readInstalledExtensionByIdentity (st : ExtensionStore) (i : CanonicalIdentity) : option InstalledExtension :=
  List.find (has_identity (identity_org (ci_organizationId i)) (ci_ownerLevel i)
               (platformizeOwnerId (ci_ownerLevel i) (ci_ownerId i)) (ci_packageName i)) (es_rows st).

(** [installed_extension_platform_invariant_chk]. *)
Definition platform_invariant (r : InstalledExtension) : bool :=
  match ie_ownerLevel r with
  | xo_platform | xo_workspace => (ie_organizationId r ≟ None) && (ie_ownerId r ≟ Some PLATFORM_OWNER_SENTINEL)
  | _ => match ie_ownerId r with Some o => negb (o ≟ PLATFORM_OWNER_SENTINEL) | None => false end
  end.

Definition identity_clash (a b : InstalledExtension) : bool :=
  (ie_organizationId a ≟ ie_organizationId b) && (ie_ownerLevel a ≟ ie_ownerLevel b)
  && (ie_ownerId a ≟ ie_ownerId b) && (ie_packageName a ≟ ie_packageName b).

Definition owned_by (owner : string) (r : InstalledExtension) : InstalledExtension := {|
  ie_id := ie_id r; ie_packageName := ie_packageName r; ie_ownerLevel := ie_ownerLevel r; ie_ownerId := Some owner;
  ie_organizationId := ie_organizationId r; ie_kind := ie_kind r; ie_status := ie_status r; ie_source := ie_source r;
  ie_requiredInProd := ie_requiredInProd r; ie_dependencies := ie_dependencies r; ie_manifestHash := ie_manifestHash r |}.

(** The primary key, the two identity indexes and the check. *)
Definition internalInsertInstalledExtension (row : InstalledExtension) : XM InstalledExtension := λ st,
  let r := owned_by (platformizeOwnerId (ie_ownerLevel row) (ie_ownerId row)) row in
  if existsb (λ x, (ie_id x ≟ ie_id r) || identity_clash x r) (es_rows st) || negb (platform_invariant r)
  then Err lt_DATABASE
  else Ok (r, {| es_rows := es_rows st ++ [r]; es_access := es_access st |}).

(** [UPDATE ... WHERE id = $1 RETURNING]: throws when there is no such row. *)
Definition update_row (id : string) (f : InstalledExtension → InstalledExtension) : XM InstalledExtension := λ st,
  let rows := map (λ r, if ie_id r ≟ id then f r else r) (es_rows st) in
  match List.find (λ r, ie_id r ≟ id) rows with
  | Some r => Ok (r, {| es_rows := rows; es_access := es_access st |})
  | None => Err lt_EXT_NOT_FOUND
  end.

Definition with_source (source : json) (r : InstalledExtension) : InstalledExtension := {|
  ie_id := ie_id r; ie_packageName := ie_packageName r; ie_ownerLevel := ie_ownerLevel r; ie_ownerId := ie_ownerId r;
  ie_organizationId := ie_organizationId r; ie_kind := ie_kind r; ie_status := ie_status r; ie_source := source;
  ie_requiredInProd := ie_requiredInProd r; ie_dependencies := ie_dependencies r; ie_manifestHash := ie_manifestHash r |}.
Definition with_dependencies (deps : list ExtensionDependency) (r : InstalledExtension) : InstalledExtension := {|
  ie_id := ie_id r; ie_packageName := ie_packageName r; ie_ownerLevel := ie_ownerLevel r; ie_ownerId := ie_ownerId r;
  ie_organizationId := ie_organizationId r; ie_kind := ie_kind r; ie_status := ie_status r; ie_source := ie_source r;
  ie_requiredInProd := ie_requiredInProd r; ie_dependencies := deps; ie_manifestHash := ie_manifestHash r |}.

Definition internalUpdateInstalledExtensionStatus (id : string) (status : ExtensionLifecycleStatus) : XM InstalledExtension :=
  update_row id (with_status status).
Definition internalUpdateInstalledExtensionSource (id : string) (source : json) : XM InstalledExtension :=
  update_row id (with_source source).
Definition internalUpdateInstalledExtensionDependencies (id : string) (deps : list ExtensionDependency)
    : XM InstalledExtension := update_row id (with_dependencies deps).
Definition internalDeleteInstalledExtension (id : string) (st : ExtensionStore) : ExtensionStore :=
  {| es_rows := List.filter (λ r, negb (ie_id r ≟ id)) (es_rows st); es_access := es_access st |}.

(** [deleteExtensionPermissions]. *)
Definition deleteExtensionPermissions (kind : ExtensionKind) (id : string) (st : ExtensionStore) : ExtensionStore :=
  {| es_rows := es_rows st; es_access := List.filter (λ a, negb ((a.1 ≟ kind) && (a.2 ≟ id))) (es_access st) |}.

(** ** Statuses *)

Inductive LifecycleTransitionOp :=
  lo_install | lo_archive | lo_activate | lo_uninstall | lo_force_delete | lo_purge | lo_registry_remove |
  lo_update | lo_lock | lo_unlock | lo_source_switch.
#[export] Instance LifecycleTransitionOp_eq_dec : EqDecision LifecycleTransitionOp.
Proof. solve_decision. Defined.

Definition DESTRUCTIVE_OPS : list LifecycleTransitionOp :=
  [lo_archive; lo_uninstall; lo_force_delete; lo_purge; lo_registry_remove].
Definition LOCKED_REJECTED_OPS : list LifecycleTransitionOp :=
  [lo_archive; lo_uninstall; lo_force_delete; lo_purge; lo_registry_remove].

Definition transitionMatrix (current : ExtensionLifecycleStatus) (op : LifecycleTransitionOp)
    : result LifecycleCode ExtensionLifecycleStatus :=
  if op ≟ lo_update then Ok current
  else if (current ≟ xs_locked) && bool_decide (op ∈ LOCKED_REJECTED_OPS) then Err lt_LOCKED_REJECTS_OP
  else
    match op with
    | lo_install => if current ≟ xs_active then Ok xs_active else Err lt_ILLEGAL_TRANSITION
    | lo_archive => Ok xs_archived
    | lo_activate => Ok (if current ≟ xs_locked then xs_locked else xs_active)
    | lo_lock => Ok xs_locked
    | lo_unlock => Ok (if current ≟ xs_locked then xs_active else current)
    | lo_source_switch => Ok current
    | _ => if bool_decide (op ∈ DESTRUCTIVE_OPS) then Ok xs_archived else Err lt_ILLEGAL_TRANSITION
    end.

(** ** Provenance *)

Definition STATIC_BUNDLE_ANCHOR_PATH_PREFIX : string := "static-bundle:".

Definition isStaticBundleAnchorSource (source : json) : bool :=
  (jprop "type" source ≟ Some (JStr "local")) &&
  match str_of (jprop "path" source) with
  | Some path => startsWith STATIC_BUNDLE_ANCHOR_PATH_PREFIX path
  | None => false
  end.

Definition DISPATCHER_PLACEHOLDER_INTEGRITY : list string :=
  [""; "dispatcher-install"; "pending-resolution"; "latest"; "HEAD"].

Definition isNonFinalizedLiveRow (row : InstalledExtension) : bool :=
  is_live row &&
  match str_of (jprop "integrity" (ie_source row)) with
  | Some integrity => bool_decide (integrity ∈ DISPATCHER_PLACEHOLDER_INTEGRITY)
  | None => false
  end.

(** The journal phase an install is in, as the host's reader answers. *)
Class InstallJournal := { readExtensionInstallOpPhase : string → option string → option string }.

Definition isNonFinalizedLiveRowAware `{InstallJournal} (row : InstalledExtension) : bool :=
  is_live row &&
  (isNonFinalizedLiveRow row ||
   match str_of (jprop "integrity" (ie_source row)) with
   | None => false
   | Some _ =>
       match readExtensionInstallOpPhase (ie_packageName row) (ie_organizationId row) with
       | Some phase => negb (phase ≟ "finalized")
       | None => false
       end
   end).

(** ** The primitive *)

Record TransitionOpts := { to_roles : list string; to_allowUnlock : bool }.

(** [dev] is [CINATRA_RUNTIME_MODE === "development"]; [status] is absent or chosen. *)
Definition installExtensionManifest (dev : bool) (row : InstalledExtension) (status : option ExtensionLifecycleStatus)
    : XM InstalledExtension := λ st,
  if ie_id row ≟ "" then Err lt_INVALID_INPUT
  else if ie_packageName row ≟ "" then Err lt_INVALID_INPUT
  else
    let initialStatus := status ?? xs_active in
    let archivedAnchorStart := (initialStatus ≟ xs_archived) && isStaticBundleAnchorSource (ie_source row) in
    if negb (initialStatus ≟ xs_active) && negb (initialStatus ≟ xs_locked) && negb archivedAnchorStart
    then Err lt_ILLEGAL_TRANSITION
    else
      let initialStatus :=
        if ie_requiredInProd row && negb dev && (initialStatus ≟ xs_active) then xs_locked else initialStatus in
      match validateExtensionSource (ie_source row) with
      | [] => internalInsertInstalledExtension (with_status initialStatus row) st
      | _ => Err lt_INVALID_INPUT
      end.

Definition removes_row (op : LifecycleTransitionOp) : bool :=
  bool_decide (op ∈ [lo_uninstall; lo_force_delete; lo_purge; lo_registry_remove]).

(** The row afterwards, or [None] when it was removed. *)
Definition transitionExtensionLifecycle (id : string) (op : LifecycleTransitionOp) (opts : TransitionOpts)
    : XM (option InstalledExtension) := λ st,
  match readInstalledExtensionById st id with
  | None => Err lt_EXT_NOT_FOUND
  | Some ext =>
      if (op ≟ lo_unlock) && (negb (to_allowUnlock opts) || negb (bool_decide ("platform_admin" ∈ to_roles opts)))
      then Err lt_LOCKED_REJECTS_OP
      else
        newStatus ← transitionMatrix (ie_status ext) op;
        if removes_row op then
          if ie_status ext ≟ xs_locked then Err lt_LOCKED_REJECTS_OP
          else if (op ≟ lo_uninstall) && isStaticBundleAnchorSource (ie_source ext) then
            if ie_status ext ≟ xs_archived then Ok (Some ext, st)
            else '(r, st') ← internalUpdateInstalledExtensionStatus id xs_archived st; Ok (Some r, st')
          else
            let st' := internalDeleteInstalledExtension id st in
            Ok (None, if bool_decide (ie_kind ext ∈ [xk_connector; xk_artifact; xk_workflow])
                      then deleteExtensionPermissions (ie_kind ext) id st' else st')
        else if (newStatus ≟ ie_status ext) && negb (op ≟ lo_update) then Ok (Some ext, st)
        else '(r, st') ← internalUpdateInstalledExtensionStatus id newStatus st; Ok (Some r, st')
  end.

(** Rollback of a row the install pipeline never finalized. *)
Definition deleteNonFinalizedCanonicalRow `{InstallJournal} (rowId : string) : XM unit := λ st,
  match readInstalledExtensionById st rowId with
  | None => Ok ((), st)
  | Some ext =>
      if negb (isNonFinalizedLiveRowAware ext) then Err lt_ILLEGAL_TRANSITION
      else Ok ((), internalDeleteInstalledExtension rowId st)
  end.

Definition sourceSwitchExtension (id : string) (newSource : json) : XM InstalledExtension := λ st,
  match readInstalledExtensionById st id with
  | None => Err lt_EXT_NOT_FOUND
  | Some _ =>
      match validateExtensionSource newSource with
      | [] => internalUpdateInstalledExtensionSource id newSource st
      | _ => Err lt_INVALID_INPUT
      end
  end.

(** The edges arrive as the values the manifest reader answered with. *)
Definition recordExtensionDependencies (id : string) (dependencies : list json) : XM InstalledExtension := λ st,
  match readInstalledExtensionById st id with
  | None => Err lt_EXT_NOT_FOUND
  | Some ext =>
      if forallb (λ dep, match validateExtensionDependencyShape dep (Some (ie_packageName ext)) with [] => true | _ => false end)
           dependencies
      then internalUpdateInstalledExtensionDependencies id (omap dependency_of dependencies) st
      else Err lt_INVALID_INPUT
  end.

(** ** The gate *)

Definition enforceCanonicalManifest (st : ExtensionStore) (identity : CanonicalIdentity) (op : LifecycleTransitionOp)
    : result LifecycleCode InstalledExtension :=
  if ci_packageName identity ≟ "" then Err lt_INVALID_IDENTITY
  else match readInstalledExtensionByIdentity st identity with
       | None => Err lt_EXT_NOT_FOUND
       | Some ext =>
           if (ie_status ext ≟ xs_locked) && bool_decide (op ∈ LOCKED_REJECTED_OPS) then Err lt_LOCKED_REJECTS_OP
           else Ok ext
       end.

(** ** Runs *)

Section runs.
Context `{InstallJournal} (dev : bool).

Inductive ext_op :=
  | xo_install (row : InstalledExtension) (status : option ExtensionLifecycleStatus)
  | xo_transition (id : string) (op : LifecycleTransitionOp) (opts : TransitionOpts)
  | xo_rollback (id : string)
  | xo_source (id : string) (source : json)
  | xo_record (id : string) (dependencies : list json).

Definition state_after {A} (st : ExtensionStore) (r : result LifecycleCode (A * ExtensionStore)) : ExtensionStore :=
  match r with Ok (_, st') => st' | Err _ => st end.

Definition run_ext (st : ExtensionStore) (o : ext_op) : ExtensionStore :=
  match o with
  | xo_install row status => state_after st (installExtensionManifest dev row status st)
  | xo_transition id op opts => state_after st (transitionExtensionLifecycle id op opts st)
  | xo_rollback id => state_after st (deleteNonFinalizedCanonicalRow id st)
  | xo_source id source => state_after st (sourceSwitchExtension id source st)
  | xo_record id deps => state_after st (recordExtensionDependencies id deps st)
  end.

(** An unlock by a platform administrator; what removes a row. *)
Definition admin_unlocks (id : string) (o : ext_op) : bool :=
  match o with
  | xo_transition id' lo_unlock opts =>
      (id' ≟ id) && to_allowUnlock opts && bool_decide ("platform_admin" ∈ to_roles opts)
  | _ => false
  end.
Definition rolls_back (id : string) (o : ext_op) : bool := match o with xo_rollback id' => id' ≟ id | _ => false end.
Definition removes (id : string) (o : ext_op) : bool :=
  match o with xo_transition id' op _ => (id' ≟ id) && removes_row op | _ => rolls_back id o end.

(** The columns that never change. *)
Definition same_extension (r r' : InstalledExtension) : Prop :=
  ie_id r' = ie_id r ∧ ie_packageName r' = ie_packageName r ∧ ie_organizationId r' = ie_organizationId r ∧
  ie_ownerLevel r' = ie_ownerLevel r ∧ ie_ownerId r' = ie_ownerId r ∧ ie_kind r' = ie_kind r.

(** The constraints of the table. *)
Definition identity_of (r : InstalledExtension) : option string * ExtensionOwnerLevel * option string * string :=
  (ie_organizationId r, ie_ownerLevel r, ie_ownerId r, ie_packageName r).
Definition store_ok (st : ExtensionStore) : Prop :=
  NoDup (map ie_id (es_rows st)) ∧ NoDup (map identity_of (es_rows st)) ∧
  ∀ r, r ∈ es_rows st → platform_invariant r = true.

(** What one operation does to the row [r]. *)
Definition kept (o : ext_op) (r : InstalledExtension) (st' : ExtensionStore) : Prop :=
  (∃ r', r' ∈ es_rows st' ∧ same_extension r r' ∧
     (ie_status r = xs_locked → admin_unlocks (ie_id r) o = false → ie_status r' = xs_locked)) ∨
  (removes (ie_id r) o = true ∧ (ie_status r = xs_locked → rolls_back (ie_id r) o = true)).

Lemma kept_same o r st : r ∈ es_rows st → kept o r st.
Proof. intros Hr. left. exists r. by split_and!. Qed.

Lemma update_row_spec id f st r' st' : update_row id f st = Ok (r', st') →
  es_rows st' = map (λ r, if ie_id r ≟ id then f r else r) (es_rows st).
Proof. unfold update_row. destruct (List.find _ _); [|done]. by intros [= <- <-]. Qed.

Lemma update_row_kept o id f st r' st' r :
  update_row id f st = Ok (r', st') → r ∈ es_rows st → (ie_id r = id → same_extension r (f r)) →
  (ie_id r = id → ie_status r = xs_locked → admin_unlocks (ie_id r) o = false → ie_status (f r) = xs_locked) →
  kept o r st'.
Proof.
  intros E Hr Hf Hl. left. rewrite (update_row_spec _ _ _ _ _ E). exists (if ie_id r ≟ id then f r else r). split.
  - apply list_elem_of_fmap. by exists r.
  - case_bool_decide as Ei; [|by split_and!]. split; [by apply Hf|by apply Hl].
Qed.

Lemma update_row_ok id f st r' st' : update_row id f st = Ok (r', st') → store_ok st →
  (∀ r, same_extension r (f r)) → store_ok st'.
Proof.
  intros E (Hid & Hident & Hinv) Hf. unfold store_ok. rewrite (update_row_spec _ _ _ _ _ E), !map_map.
  assert (Hids : ∀ r, ie_id (if ie_id r ≟ id then f r else r) = ie_id r).
  { intros r. destruct (ie_id r ≟ id); [by apply Hf|done]. }
  assert (Hidents : ∀ r, identity_of (if ie_id r ≟ id then f r else r) = identity_of r).
  { intros r. destruct (ie_id r ≟ id); [|done]. destruct (Hf r) as (_ & ? & ? & ? & ? & _). unfold identity_of. congruence. }
  rewrite (map_ext _ _ Hids), (map_ext _ _ Hidents). split_and!; [done..|].
  intros ? (r & -> & Hr)%list_elem_of_fmap. destruct (ie_id r ≟ id); [|by apply Hinv].
  destruct (Hf r) as (_ & _ & Ho & Hlv & How & _). unfold platform_invariant. rewrite Ho, Hlv, How. by apply Hinv.
Qed.

Lemma same_with_status s r : same_extension r (with_status s r). Proof. by split_and!. Qed.
Lemma same_with_source s r : same_extension r (with_source s r). Proof. by split_and!. Qed.
Lemma same_with_dependencies ds r : same_extension r (with_dependencies ds r). Proof. by split_and!. Qed.

Lemma delete_kept o id st r : r ∈ es_rows st →
  (ie_id r = id → removes (ie_id r) o = true ∧ (ie_status r = xs_locked → rolls_back (ie_id r) o = true)) →
  kept o r (internalDeleteInstalledExtension id st).
Proof.
  intros Hr Hid. destruct (decide (ie_id r = id)) as [E|E]; [right; by apply Hid|]. left. exists r.
  split; [|by split_and!]. apply filter_in. split; [done|]. by apply negb_true_iff, bool_decide_eq_false.
Qed.

Lemma delete_ok id st : store_ok st → store_ok (internalDeleteInstalledExtension id st).
Proof.
  intros (Hid & Hident & Hinv). unfold store_ok. cbn. split_and!; try by apply NoDup_map_filter.
  intros r [Hr _]%filter_in. auto.
Qed.

Lemma read_by_id st id ext : readInstalledExtensionById st id = Some ext → ext ∈ es_rows st ∧ ie_id ext = id.
Proof. intros [Hin E]%find_some. split; [by apply list_elem_of_In|by bprop]. Qed.

Lemma same_identity_true a b : identity_of a = identity_of b → identity_clash a b = true.
Proof.
  unfold identity_of, identity_clash. intros [= -> -> -> ->]. by rewrite !bool_decide_true.
Qed.

Lemma insert_spec row st r st' : internalInsertInstalledExtension row st = Ok (r, st') → store_ok st →
  es_rows st' = es_rows st ++ [r] ∧ store_ok st'.
Proof.
  unfold internalInsertInstalledExtension. set (q := owned_by _ row). destruct (_ || _) eqn:E; [done|].
  intros [= <- <-] (Hid & Hident & Hinv). apply orb_false_iff in E as [E Ei]. bprop. split; [done|]. unfold store_ok. cbn.
  rewrite !map_app. cbn.
  assert (Hnew : ∀ x, x ∈ es_rows st → ie_id x ≠ ie_id q ∧ identity_of x ≠ identity_of q).
  { intros x Hx. apply not_true_iff_false in E. split; intros Heq; apply E, existsb_exists; exists x;
      (split; [by apply list_elem_of_In|]); [by rewrite Heq, bool_decide_true|].
    by rewrite (same_identity_true x q), orb_true_r. }
  split_and!.
  - apply NoDup_app. split_and!; [done| |apply NoDup_singleton].
    intros k (x & -> & Hx)%list_elem_of_fmap Hk%list_elem_of_singleton. by destruct (Hnew x Hx).
  - apply NoDup_app. split_and!; [done| |apply NoDup_singleton].
    intros k (x & -> & Hx)%list_elem_of_fmap Hk%list_elem_of_singleton. by destruct (Hnew x Hx).
  - intros x [Hx| ->%list_elem_of_singleton]%elem_of_app; auto.
Qed.

(** A status written by a transition: a lock is left only by an authorized unlock. *)
Lemma matrix_locked op s : transitionMatrix xs_locked op = Ok s → s = xs_locked ∨ op = lo_unlock.
Proof. destruct op; vm_compute; intros E; simplify_eq; auto. Qed.

Lemma matrix_removes_locked op : removes_row op = true → transitionMatrix xs_locked op = Err lt_LOCKED_REJECTS_OP.
Proof. destruct op; vm_compute; done. Qed.

Lemma transition_step id op opts st x st' : transitionExtensionLifecycle id op opts st = Ok (x, st') → store_ok st →
  store_ok st' ∧ ∀ r, r ∈ es_rows st → kept (xo_transition id op opts) r st'.
Proof.
  unfold transitionExtensionLifecycle. intros E Hok. destruct (readInstalledExtensionById st id) as [ext|] eqn:Er; [|done].
  apply read_by_id in Er as [Hext Hid]. destruct ((op ≟ lo_unlock) && _) eqn:Eu; [done|].
  apply result_bind_Ok in E as (s & Es & E).
  assert (Huniq : ∀ r, r ∈ es_rows st → ie_id r = id → r = ext).
  { intros r Hr Hri. apply (row_unique ie_id (es_rows st)); [apply Hok|done|done|congruence]. }
  assert (Hupdate : ∀ s' r st', internalUpdateInstalledExtensionStatus id s' st = Ok (r, st') →
    (ie_status ext = xs_locked → admin_unlocks id (xo_transition id op opts) = false → s' = xs_locked) →
    store_ok st' ∧ ∀ r, r ∈ es_rows st → kept (xo_transition id op opts) r st').
  { intros s' r1 st1 Hu Hl. split; [by eapply update_row_ok; [exact Hu|done|apply same_with_status]|].
    intros r Hr. eapply update_row_kept; [exact Hu|done|intros _; apply same_with_status|].
    intros Hri Hlk Ha. rewrite Hri in Ha. apply Hl; [by rewrite <- (Huniq r)|done]. }
  destruct (removes_row op) eqn:Erm.
  - assert (Hnl : ie_status ext ≠ xs_locked) by (intros Hl; rewrite Hl, matrix_removes_locked in Es by done; done).
    rewrite bool_decide_false in E by done. destruct ((op ≟ lo_uninstall) && _).
    + case_bool_decide; [injection E as <- <-; split; [done|intros; by apply kept_same]|].
      apply result_bind_Ok in E as ([r1 st1] & Hu & [= <- <-]). by apply (Hupdate _ _ _ Hu).
    + injection E as _ <-.
      assert (Hd : store_ok (internalDeleteInstalledExtension id st) ∧
        ∀ r, r ∈ es_rows st → kept (xo_transition id op opts) r (internalDeleteInstalledExtension id st)).
      { split; [by apply delete_ok|]. intros r Hr. apply delete_kept; [done|]. intros Hri. cbn.
        rewrite bool_decide_true, Erm by done. split; [done|]. intros Hl. by rewrite (Huniq r) in Hl. }
      by destruct (bool_decide (ie_kind ext ∈ _)).
  - destruct (_ && negb _); [injection E as <- <-; split; [done|intros; by apply kept_same]|].
    apply result_bind_Ok in E as ([r1 st1] & Hu & [= <- <-]). apply (Hupdate _ _ _ Hu).
    intros Hl Ha. rewrite Hl in Es. apply matrix_locked in Es as [->| ->]; [done|]. exfalso.
    cbn in Ha, Eu. rewrite bool_decide_true in Ha by done. cbn in Ha. rewrite bool_decide_true in Eu by done. cbn in Eu.
    destruct (to_allowUnlock opts); [|done]. cbn in Ha, Eu. by rewrite Ha in Eu.
Qed.

Lemma step_kept st o : store_ok st → store_ok (run_ext st o) ∧ ∀ r, r ∈ es_rows st → kept o r (run_ext st o).
Proof.
  intros Hok. assert (Hkeep : store_ok st ∧ ∀ r, r ∈ es_rows st → kept o r st) by (split; [done|intros; by apply kept_same]).
  destruct o as [row status|id op opts|id|id source|id deps]; cbn [run_ext].
  - destruct (installExtensionManifest dev row status st) as [[r st']|e] eqn:E; [|exact Hkeep]. cbn.
    assert (Hi : ∃ q, internalInsertInstalledExtension q st = Ok (r, st')).
    { unfold installExtensionManifest in E. repeat case_match; try done; by eexists. }
    destruct Hi as [q Hq]. destruct (insert_spec _ _ _ _ Hq Hok) as [Hrows Hok']. split; [done|].
    intros x Hx. left. exists x. rewrite Hrows. split; [apply elem_of_app; by left|]. by split_and!.
  - destruct (transitionExtensionLifecycle id op opts st) as [[x st']|e] eqn:E; [|exact Hkeep]. by eapply transition_step.
  - destruct (deleteNonFinalizedCanonicalRow id st) as [[x st']|e] eqn:E; [|exact Hkeep]. cbn.
    unfold deleteNonFinalizedCanonicalRow in E. destruct (readInstalledExtensionById st id) as [ext|]; [|by injection E as _ <-].
    destruct (negb _); [done|]. injection E as _ <-. split; [by apply delete_ok|]. intros r Hr. apply delete_kept; [done|].
    intros ->. cbn. by rewrite bool_decide_true.
  - destruct (sourceSwitchExtension id source st) as [[x st']|e] eqn:E; [|exact Hkeep]. cbn.
    unfold sourceSwitchExtension in E. destruct (readInstalledExtensionById st id); [|done].
    destruct (validateExtensionSource source); [|done].
    split; [by eapply update_row_ok; [exact E|done|apply same_with_source]|]. intros r Hr.
    by eapply update_row_kept; [exact E|done|intros _; apply same_with_source|].
  - destruct (recordExtensionDependencies id deps st) as [[x st']|e] eqn:E; [|exact Hkeep]. cbn.
    unfold recordExtensionDependencies in E. destruct (readInstalledExtensionById st id); [|done].
    destruct (forallb _ deps); [|done].
    split; [by eapply update_row_ok; [exact E|done|apply same_with_dependencies]|]. intros r Hr.
    by eapply update_row_kept; [exact E|done|intros _; apply same_with_dependencies|].
Qed.

(** Every row carries the provenance its source type requires. *)
Definition sources_valid (st : ExtensionStore) : Prop :=
  ∀ r, r ∈ es_rows st → validateExtensionSource (ie_source r) = [].

Lemma update_row_sources id f st r st' : update_row id f st = Ok (r, st') → sources_valid st →
  (∀ r, validateExtensionSource (ie_source r) = [] → validateExtensionSource (ie_source (f r)) = []) → sources_valid st'.
Proof.
  intros E Hv Hf q. rewrite (update_row_spec _ _ _ _ _ E). intros (x & -> & Hx)%list_elem_of_fmap.
  destruct (ie_id x ≟ id); auto.
Qed.

Lemma delete_sources id st : sources_valid st → sources_valid (internalDeleteInstalledExtension id st).
Proof. intros Hv r [Hr _]%filter_in. auto. Qed.

Lemma transition_sources id op opts st x st' : transitionExtensionLifecycle id op opts st = Ok (x, st') →
  sources_valid st → sources_valid st'.
Proof.
  unfold transitionExtensionLifecycle. intros E Hv. destruct (readInstalledExtensionById st id) as [ext|]; [|done].
  destruct ((op ≟ lo_unlock) && _); [done|]. apply result_bind_Ok in E as (s & _ & E).
  assert (Hup : ∀ s' r st1, internalUpdateInstalledExtensionStatus id s' st = Ok (r, st1) → sources_valid st1)
    by (intros s' r st1 Hu; by apply (update_row_sources _ _ _ _ _ Hu)).
  destruct (removes_row op).
  - destruct (ie_status ext ≟ xs_locked); [done|]. destruct ((op ≟ lo_uninstall) && _).
    + case_bool_decide; [by injection E as _ <-|]. apply result_bind_Ok in E as ([r st1] & Hu & [= <- <-]). eauto.
    + injection E as _ <-. pose proof (delete_sources id st Hv) as Hd. by destruct (bool_decide (ie_kind ext ∈ _)).
  - destruct (_ && negb _); [by injection E as _ <-|]. apply result_bind_Ok in E as ([r st1] & Hu & [= <- <-]). eauto.
Qed.

Lemma step_sources st o : sources_valid st → sources_valid (run_ext st o).
Proof.
  intros Hv. destruct o as [row status|id op opts|id|id source|id deps]; cbn [run_ext].
  - destruct (installExtensionManifest dev row status st) as [[r st']|e] eqn:E; [|done]. cbn.
    assert (Hi : ∃ s, validateExtensionSource (ie_source row) = [] ∧
      internalInsertInstalledExtension (with_status s row) st = Ok (r, st')).
    { unfold installExtensionManifest in E. repeat case_match; try done; by eexists. }
    destruct Hi as (s & Hs & Hi). unfold internalInsertInstalledExtension in Hi. destruct (_ || _); [done|].
    injection Hi as <- <-. intros q [Hq| ->%list_elem_of_singleton]%elem_of_app; auto.
  - destruct (transitionExtensionLifecycle id op opts st) as [[x st']|e] eqn:E; [|done]. by eapply transition_sources.
  - destruct (deleteNonFinalizedCanonicalRow id st) as [[x st']|e] eqn:E; [|done]. cbn.
    unfold deleteNonFinalizedCanonicalRow in E. destruct (readInstalledExtensionById st id); [|by injection E as _ <-].
    destruct (negb _); [done|]. injection E as _ <-. by apply delete_sources.
  - destruct (sourceSwitchExtension id source st) as [[x st']|e] eqn:E; [|done]. cbn.
    unfold sourceSwitchExtension in E. destruct (readInstalledExtensionById st id); [|done].
    destruct (validateExtensionSource source) eqn:Es; [|done]. by apply (update_row_sources _ _ _ _ _ E).
  - destruct (recordExtensionDependencies id deps st) as [[x st']|e] eqn:E; [|done]. cbn.
    unfold recordExtensionDependencies in E. destruct (readInstalledExtensionById st id); [|done].
    destruct (forallb _ deps); [|done]. by apply (update_row_sources _ _ _ _ _ E).
Qed.

Lemma run_sources st ops : sources_valid st → sources_valid (foldl run_ext st ops).
Proof. revert st. induction ops as [|o ops IH]; [done|]. intros st Hv. apply IH. by apply step_sources. Qed.

Lemma run_kept st ops : store_ok st →
  let st' := foldl run_ext st ops in
  store_ok st' ∧
  (∀ r, r ∈ es_rows st → (∀ o, o ∈ ops → removes (ie_id r) o = false) → ∃ r', r' ∈ es_rows st' ∧ same_extension r r') ∧
  (∀ r, r ∈ es_rows st → ie_status r = xs_locked →
     (∀ o, o ∈ ops → admin_unlocks (ie_id r) o = false ∧ rolls_back (ie_id r) o = false) →
     ∃ r', r' ∈ es_rows st' ∧ same_extension r r' ∧ ie_status r' = xs_locked).
Proof.
  intros Hok. induction ops as [|o ops IH] using rev_ind.
  { cbn. split; [done|]. split; intros r Hr; intros; exists r; by split_and!. }
  rewrite foldl_snoc. destruct IH as (Hok' & Hkeep & Hlock). destruct (step_kept _ o Hok') as [Hok2 Hstep].
  assert (Htrans : ∀ a b c, same_extension a b → same_extension b c → same_extension a c)
    by (unfold same_extension; intros a b c ? ?; split_and!; intuition congruence).
  split; [done|]. split.
  - intros r Hr Hn. destruct (Hkeep r Hr) as (r' & Hr' & Hs); [intros; apply Hn, elem_of_app; by left|].
    destruct (Hstep r' Hr') as [(q & Hq & Hs' & _)|[Hrm _]]; [exists q; eauto|].
    destruct Hs as (Hi & _). rewrite Hi, Hn in Hrm; [done|apply elem_of_app; right; left].
  - intros r Hr Hl Hn. destruct (Hlock r Hr Hl) as (r' & Hr' & Hs & Hl'); [intros; apply Hn, elem_of_app; by left|].
    destruct (Hn o) as [Hu Hb]; [apply elem_of_app; right; left|]. pose proof Hs as (Hi & _). rewrite <- Hi in Hu, Hb.
    destruct (Hstep r' Hr') as [(q & Hq & Hs' & Hlq)|[_ Hrm]]; [exists q; eauto|]. specialize (Hrm Hl'). congruence.
Qed.

Lemma read_unique st r : store_ok st → r ∈ es_rows st → readInstalledExtensionById st (ie_id r) = Some r.
Proof.
  intros (Hid & _) Hr. destruct (readInstalledExtensionById st (ie_id r)) as [q|] eqn:E.
  - apply read_by_id in E as [Hq E]. f_equal. by apply (row_unique ie_id (es_rows st)).
  - exfalso. pose proof (find_none _ _ E r (proj1 (list_elem_of_In _ _) Hr)) as H'. cbn in H'. by bprop.
Qed.

Lemma update_row_present id f st r : r ∈ es_rows st → ie_id (f r) = id → ie_id r = id →
  is_ok (update_row id f st) = true.
Proof.
  intros Hr Hf Hid. unfold update_row. destruct (List.find _ _) eqn:E; [done|]. exfalso.
  assert (Hin : In (f r) (map (λ r, if ie_id r ≟ id then f r else r) (es_rows st))).
  { apply in_map_iff. exists r. split; [by rewrite bool_decide_true|by apply list_elem_of_In]. }
  pose proof (find_none _ _ E _ Hin) as H'. cbn in H'. by bprop.
Qed.

(** The gate asks no less than the operation. *)
Definition gate_agrees (st : ExtensionStore) : Prop :=
  ∀ identity op ext opts, enforceCanonicalManifest st identity op = Ok ext → op ≠ lo_unlock →
    match transitionExtensionLifecycle (ie_id ext) op opts st with
    | Ok _ => True
    | Err e => e = lt_ILLEGAL_TRANSITION ∧ op = lo_install ∧ ie_status ext ≠ xs_active
    end.

Lemma matrix_refuses s op e : transitionMatrix s op = Err e →
  (e = lt_ILLEGAL_TRANSITION ∧ op = lo_install ∧ s ≠ xs_active) ∨ (s = xs_locked ∧ op ∈ LOCKED_REJECTED_OPS).
Proof.
  destruct (decide (s = xs_locked ∧ op ∈ LOCKED_REJECTED_OPS)) as [Hl|Hl]; [by right|].
  destruct s, op; vm_compute; intros E; simplify_eq; try (by left); exfalso; apply Hl;
    (split; [done|unfold LOCKED_REJECTED_OPS; set_solver]).
Qed.

Lemma gate_agrees_ok st : store_ok st → gate_agrees st.
Proof.
  intros Hok identity op ext opts E Hop. unfold enforceCanonicalManifest in E.
  destruct (ci_packageName identity ≟ ""); [done|]. destruct (readInstalledExtensionByIdentity st identity) as [q|] eqn:Er; [|done].
  destruct ((ie_status q ≟ xs_locked) && _) eqn:El; [done|]. injection E as ->.
  apply find_some in Er as [Hin%list_elem_of_In _].
  unfold transitionExtensionLifecycle. rewrite read_unique, (bool_decide_false (op = _)) by done. cbn [andb].
  assert (Hl : ¬ (ie_status ext = xs_locked ∧ op ∈ LOCKED_REJECTED_OPS)).
  { intros [H1 H2]. by rewrite !bool_decide_true in El. }
  clear El. destruct (transitionMatrix (ie_status ext) op) as [s|e] eqn:Es; cycle 1; cbn.
  { by apply matrix_refuses in Es as [?|?]. }
  assert (Hup : ∀ s', is_ok (internalUpdateInstalledExtensionStatus (ie_id ext) s' st) = true)
    by (intros s'; by apply (update_row_present _ _ _ ext)).
  destruct (removes_row op) eqn:Erm.
  - rewrite bool_decide_false; cycle 1.
    { intros Hs. rewrite Hs, matrix_removes_locked in Es by done. done. }
    repeat case_match; try done; specialize (Hup xs_archived); by destruct (internalUpdateInstalledExtensionStatus _ _ _) as [[]|].
  - destruct (_ && _); [done|]. specialize (Hup s). by destruct (internalUpdateInstalledExtensionStatus _ _ _) as [[]|].
Qed.

End runs.

(** ** Instances *)

#[local] Instance no_journal : InstallJournal := {| readExtensionInstallOpPhase := λ _ _, None |}.

Definition locked_row : InstalledExtension := {|
  ie_id := "1"; ie_packageName := "@x/a"; ie_ownerLevel := xo_platform; ie_ownerId := Some PLATFORM_OWNER_SENTINEL;
  ie_organizationId := None; ie_kind := xk_agent; ie_status := xs_locked; ie_source := JNull; ie_requiredInProd := true;
  ie_dependencies := []; ie_manifestHash := None |}.
Definition locked_store : ExtensionStore := {| es_rows := [locked_row]; es_access := [] |}.
Definition no_rights : TransitionOpts := {| to_roles := ["admin"]; to_allowUnlock := true |}.
Definition attempts : list ext_op :=
  [xo_transition "1" lo_archive no_rights; xo_transition "1" lo_unlock no_rights; xo_record "1" [];
   xo_transition "1" lo_activate no_rights; xo_transition "1" lo_force_delete no_rights].

