(* ===== verification/RequiredInProd.v ===== *)
(** * Required extensions and the boot gate
      ([packages/extensions/src/required-in-prod.ts], the anchor versions of
      [static-bundle-anchor.ts], [src/lib/extension-closure-boot-gate.ts])

    The host pins the extensions it cannot run without, each to a version range,
    in its own [package.json].  An install or update of a pinned package outside
    its range is refused, and a production boot fails when a pinned package is
    missing or at another version, or when a dependency closure is broken.

    Version components are Numbers: a digit string above 2^53 is rounded, and so
    is the successor of a component. *)

From S2P Require Import Prelude Json Spec Extensions Closure ExtensionLifecycle.
Open Scope Z_scope.

(** ** Entries *)

Record RequiredExtensionEntry := { rq_packageName : string; rq_versionRange : option string }.

(** The text before and after the last [c]. *)
Fixpoint cut_last (c : ascii) (s : string) : option (string * string) :=
  match s with
  | EmptyString => None
  | String x r =>
      match cut_last c r with
      | Some (a, b) => Some (String x a, b)
      | None => if x ≟ c then Some ("", r) else None
      end
  end.

Definition parseRequiredExtensionEntry (raw : string) : option RequiredExtensionEntry :=
  let trimmed := trim raw in
  if trimmed ≟ "" then None
  else match cut_last "@" trimmed with
       | Some ((String _ _) as packageName, range) =>
           let versionRange := trim range in
           Some {| rq_packageName := packageName; rq_versionRange := if versionRange ≟ "" then None else Some versionRange |}
       | _ => Some {| rq_packageName := trimmed; rq_versionRange := None |}
       end.

(** [pkg] is the host's manifest, absent when the file is missing or not JSON.
    The answer is read once and kept. *)
Definition readRequiredInProdEntries (pkg : option json) : list RequiredExtensionEntry :=
  match v ← pkg; c ← jprop "cinatra" v; jprop "requiredExtensions" c with
  | Some (JArr l) =>
      omap (λ x, match x with JStr s => if s ≟ "" then None else parseRequiredExtensionEntry s | _ => None end) l
  | _ => []
  end.

Definition findRequiredInProdEntry (entries : list RequiredExtensionEntry) (packageName : string)
    : option RequiredExtensionEntry := List.find (λ e, rq_packageName e ≟ packageName) entries.

(** ** Version ranges *)

(** The Number nearest to a natural number, ties to even; [2 ^ 1024] is Infinity. *)
Definition to_double (n : Z) : Z :=
  if n <? 2 ^ 53 then n
  else
    let s := 2 ^ (Z.log2 n - 52) in
    let q := n / s in
    let r := n mod s in
    Z.min (2 ^ 1024) ((if (2 * r <? s) || ((2 * r =? s) && Z.even q) then q else q + 1) * s).

Definition js_succ (n : Z) : Z := to_double (n + 1).

Abbreviation Triple := (Z * Z * Z)%type.

(** [(\d+)] and [Number] of it. *)
Definition number_at (s : string) : option (Z * string) :=
  match span_digits s with
  | ((String _ _) as d, r) => Some (to_double (digits_value 0 d), r)
  | _ => None
  end.

Definition dot_at (s : string) : option string :=
  match s with String c r => if c ≟ "."%char then Some r else None | EmptyString => None end.

Definition parseTriple (v : string) : option Triple :=
  '(a, r) ← number_at (trim v);
  r ← dot_at r; '(b, r) ← number_at r;
  r ← dot_at r; '(c, r) ← number_at r;
  if r ≟ "" then Some (a, b, c) else None.

Definition cmp (a b : Triple) : Z :=
  let '(a1, a2, a3) := a in
  let '(b1, b2, b3) := b in
  if negb (a1 =? b1) then (if a1 <? b1 then -1 else 1)
  else if negb (a2 =? b2) then (if a2 <? b2 then -1 else 1)
  else if negb (a3 =? b3) then (if a3 <? b3 then -1 else 1) else 0.

Inductive RangeOp := ro_caret | ro_tilde | ro_ge | ro_eq.

(** [(\^|~|>=|=)?]; a bare range reads as [=]. *)
Definition range_op (s : string) : RangeOp * string :=
  match s with
  | String c r =>
      if c ≟ "^"%char then (ro_caret, r)
      else if c ≟ "~"%char then (ro_tilde, r)
      else if c ≟ "="%char then (ro_eq, r)
      else if c ≟ ">"%char then match r with
                                | String e r' => if e ≟ "="%char then (ro_ge, r') else (ro_eq, s)
                                | EmptyString => (ro_eq, s)
                                end
      else (ro_eq, s)
  | EmptyString => (ro_eq, s)
  end.

(** An optional component after a dot: digits, or a wildcard, which reads as absent. *)
Definition component_at (s : string) : option Z * string :=
  match dot_at s with
  | Some r =>
      match number_at r with
      | Some (n, r') => (Some n, r')
      | None => match r with
                | String c r' => if bool_decide (c ∈ ["x"; "X"; "*"]%char) then (None, r') else (None, s)
                | EmptyString => (None, s)
                end
      end
  | None => (None, s)
  end.

Record VersionRange := { vr_op : RangeOp; vr_major : Z; vr_minor : option Z; vr_patch : option Z }.

Definition parse_range (range : string) : option VersionRange :=
  let '(op, r) := range_op (trim range) in
  '(major, r) ← number_at (trimStart r);
  let '(minor, r) := component_at r in
  let '(patch, r) := component_at r in
  if r ≟ "" then Some {| vr_op := op; vr_major := major; vr_minor := minor; vr_patch := patch |} else None.

Definition lower_bound (vr : VersionRange) : Triple := (vr_major vr, vr_minor vr ?? 0, vr_patch vr ?? 0).

Definition upper_bound (vr : VersionRange) : option Triple :=
  let major := vr_major vr in
  match vr_op vr with
  | ro_ge => None
  | ro_caret => Some (
      if 0 <? major then (js_succ major, 0, 0)
      else if 0 <? (vr_minor vr ?? 0) then (0, js_succ (vr_minor vr ?? 0), 0)
      else match vr_patch vr with
           | Some p => (0, 0, js_succ p)
           | None => match vr_minor vr with None => (1, 0, 0) | Some _ => (0, 1, 0) end
           end)
  | ro_tilde => Some (
      match vr_minor vr with
      | None => (js_succ major, 0, 0)
      | Some m => (major, js_succ m, 0)
      end)
  | ro_eq => Some (
      match vr_minor vr with
      | None => (js_succ major, 0, 0)
      | Some m => match vr_patch vr with
                  | None => (major, js_succ m, 0)
                  | Some p => (major, m, js_succ p)
                  end
      end)
  end.

Definition requiredRangeBounds (range : string) : option (Triple * option Triple) :=
  vr ← parse_range range; Some (lower_bound vr, upper_bound vr).

Definition satisfiesRequiredVersionRange (version range : string) : bool :=
  match parseTriple version with
  | None => false
  | Some v =>
      if trim range ≟ "*" then true
      else match requiredRangeBounds (trim range) with
           | None => false
           | Some (lower, upper) =>
               negb (cmp v lower <? 0) && match upper with Some u => negb (0 <=? cmp v u) | None => true end
           end
  end.

(** ** The pin of an install or update *)

(** The range it violates, when it is refused. *)
Definition checkRequiredExtensionVersionPin (entries : list RequiredExtensionEntry) (packageName : string)
    (version : option string) : option string :=
  match findRequiredInProdEntry entries packageName with
  | Some {| rq_versionRange := Some requiredRange |} =>
      match trim <$> version with
      | Some got =>
          if (got ≟ "") || negb (satisfiesRequiredVersionRange got requiredRange) then Some requiredRange else None
      | None => Some requiredRange
      end
  | _ => None
  end.

(** ** Verification at boot *)

Definition ANCHOR_VERSION_PREFIX : string := "bundled@".

Definition staticBundleAnchorSource (packageName version : string) : json :=
  JObj [("type", JStr "local"); ("path", JStr (STATIC_BUNDLE_ANCHOR_PATH_PREFIX +:+ packageName));
        ("resolvedCommitOrTreeHash", JStr (ANCHOR_VERSION_PREFIX +:+ version))].

Definition staticBundleAnchorVersion (source : json) : option string :=
  if negb (isStaticBundleAnchorSource source) then None
  else match str_of (jprop "resolvedCommitOrTreeHash" source) with
       | Some h =>
           if negb (startsWith ANCHOR_VERSION_PREFIX h) then None
           else let version := str_drop (String.length ANCHOR_VERSION_PREFIX) h in
                if version ≟ "" then None else Some version
       | None => None
       end.

(** [installedVersion] is absent when the source carries none. *)
Record RequiredVersionMismatch := {
  rm_packageName : string; rm_requiredRange : string; rm_installedVersion : option string
}.
Inductive RequiredVerificationResult :=
  | rv_ok (required installed : list string)
  | rv_failed (required installed missing : list string) (mismatched : list RequiredVersionMismatch).

(** The version the pin is checked against; a row whose source is no source object
    makes the check throw. *)
Definition concrete_version (source : json) : result string (option string) :=
  match source with
  | JNull => Err "Cannot read properties of null (reading 'type')"
  | _ =>
      if jprop "type" source ≟ Some (JStr "verdaccio") then
        match jprop "version" source with
        | Some (JStr v) => Ok (Some v)
        | Some JNull => Ok None
        | Some _ => Err "version.trim is not a function"
        | None => Err "Cannot read properties of undefined (reading 'trim')"
        end
      else Ok (staticBundleAnchorVersion source)
  end.

(** The live rows of a package, [liveByName.get(name) ?? []]. *)
Definition live_of (rows : list InstalledExtension) (packageName : string) : list InstalledExtension :=
  List.filter (λ r, is_live r && (ie_packageName r ≟ packageName)) rows.

Definition mismatch_of (packageName requiredRange : string) (row : InstalledExtension)
    : result string (option RequiredVersionMismatch) :=
  version ← concrete_version (ie_source row);
  Ok (if match version with Some v => satisfiesRequiredVersionRange v requiredRange | None => false end then None
      else Some {| rm_packageName := packageName; rm_requiredRange := requiredRange; rm_installedVersion := version |}).

(** What one entry adds to [mismatched]. *)
Definition entry_mismatches (rows : list InstalledExtension) (entry : RequiredExtensionEntry)
    : result string (list RequiredVersionMismatch) :=
  match rq_versionRange entry with
  | None => Ok []
  | Some range =>
      l ← mapM (mismatch_of (rq_packageName entry) range) (live_of rows (rq_packageName entry));
      Ok (omap id l)
  end.

Definition has_live (rows : list InstalledExtension) (packageName : string) : bool :=
  match live_of rows packageName with [] => false | _ => true end.

Definition verifyRequiredInProdInstalled (entries : list RequiredExtensionEntry) (rows : list InstalledExtension)
    : result string RequiredVerificationResult :=
  let required := map rq_packageName entries in
  match entries with
  | [] => Ok (rv_ok [] [])
  | _ =>
      mismatched ← mapM (entry_mismatches rows) entries;
      let installed := List.filter (has_live rows) required in
      let missing := List.filter (λ n, negb (has_live rows n)) required in
      Ok (match missing, concat mismatched with
          | [], [] => rv_ok required installed
          | _, _ => rv_failed required installed missing (concat mismatched)
          end)
  end.

(** ** The boot gate *)

Record BootAdvisory := {
  ba_packageName : string; ba_kind : ExtensionKind; ba_behavior : OptionalMissingBehavior; ba_missingOptional : list string
}.
Record ClosureBootReport := {
  br_brokenClosures : list BrokenClosure; br_verification : RequiredVerificationResult;
  br_optionalAdvisories : list BootAdvisory
}.

(** A violation, by the data of its message. *)
Inductive BootViolation :=
  | bv_closures (broken : list BrokenClosure)
  | bv_required (missing : list string) (mismatched : list RequiredVersionMismatch).

Inductive boot_exn := bx_thrown (message : string) | bx_violated (violations : list BootViolation).

Section boot.
Context `{Semver} (entries : list RequiredExtensionEntry).

Definition closureBootViolations (report : ClosureBootReport) : list BootViolation :=
  match br_brokenClosures report with [] => [] | broken => [bv_closures broken] end ++
  match br_verification report with rv_ok _ _ => [] | rv_failed _ _ missing mismatched => [bv_required missing mismatched] end.

Definition boot_advisory (rows : list InstalledExtension) (row : InstalledExtension) : option BootAdvisory :=
  a ← xv_advisory (evaluateExecutionClosure rows (ie_organizationId row) row);
  Some {| ba_packageName := ie_packageName row; ba_kind := oa_kind a; ba_behavior := oa_behavior a;
          ba_missingOptional := map cn_packageName (oa_missingOptional a) |}.

Definition buildClosureBootReport (rows : list InstalledExtension) : result string ClosureBootReport :=
  verification ← verifyRequiredInProdInstalled entries rows;
  Ok {| br_brokenClosures := findBrokenClosures rows; br_verification := verification;
        br_optionalAdvisories := omap (boot_advisory rows) (List.filter is_live rows) |}.

Definition assertClosureBootReport (report : ClosureBootReport) (mode : option string) (disabled : bool)
    : result boot_exn unit :=
  match closureBootViolations report with
  | [] => Ok ()
  | violations =>
      if disabled then Ok ()
      else if negb (mode ≟ Some "development") then Err (bx_violated violations) else Ok ()
  end.

(** [snapshot] is absent when the table cannot be read. *)
Definition enforceExtensionClosureAtBoot (snapshot : option (list InstalledExtension)) (mode : option string)
    (disabled : bool) : result boot_exn unit :=
  match snapshot with
  | None => Ok ()
  | Some rows =>
      match buildClosureBootReport rows with
      | Ok report => assertClosureBootReport report mode disabled
      | Err message => Err (bx_thrown message)
      end
  end.
End boot.

(** ** Examples *)

Example ranges :
  map (λ vr, satisfiesRequiredVersionRange vr.1 vr.2)
    [("0.1.7", "^0.1.0"); ("0.2.0", "^0.1.0"); ("1.9.0", "^1.2.3"); ("1.2.2", "^1.2.3"); ("0.0.3", "^0.0.3");
     ("0.0.4", "^0.0.3"); ("1.2.9", "~1.2.3"); ("1.3.0", "~1.2.3"); ("9.0.0", ">= 1.2.3"); ("1.2.3", "1.2.3");
     ("1.2.4", "1.2"); ("1.3.0", "1.2.x"); ("1.3.0", "1"); ("1.2.3-beta", "*"); ("1.2.3", "*"); ("1.2.3", "1 || 2");
     ("9007199254740992.0.0", "9007199254740992")]
  = [true; false; true; false; true; false; true; false; true; true; true; false; true; false; true; false; false].
Proof. vm_compute. reflexivity. Qed.

Example required_entries :
  map parseRequiredExtensionEntry ["@s/a@^1.0.0"; "@s/a"; " a@ "; ""; "a@b@1"]
  = [Some {| rq_packageName := "@s/a"; rq_versionRange := Some "^1.0.0" |};
     Some {| rq_packageName := "@s/a"; rq_versionRange := None |};
     Some {| rq_packageName := "a"; rq_versionRange := None |}; None;
     Some {| rq_packageName := "a@b"; rq_versionRange := Some "1" |}].
Proof. vm_compute. reflexivity. Qed.

(** ** Printed versions and ranges *)

(** Components that are exact Numbers, with their successors. *)
Definition safe (n : Z) : Prop := 0 <= n < 2 ^ 53.

Lemma to_double_safe n : safe n → to_double n = n.
Proof. intros [_ Hn]. unfold to_double. apply Z.ltb_lt in Hn. by rewrite Hn. Qed.

Lemma js_succ_safe n : safe n → js_succ n = n + 1.
Proof.
  intros Hn. unfold js_succ. destruct (decide (n + 1 < 2 ^ 53)) as [Hs|Hs]; [apply to_double_safe; unfold safe in *; lia|].
  assert (n + 1 = 2 ^ 53) as -> by (unfold safe in Hn; lia). vm_compute. reflexivity.
Qed.

Definition version_text (v : Triple) : string :=
  let '(a, b, c) := v in show_Z a +:+ "." +:+ show_Z b +:+ "." +:+ show_Z c.

Definition op_text (op : RangeOp) : string :=
  match op with ro_caret => "^" | ro_tilde => "~" | ro_ge => ">=" | ro_eq => "" end.
Definition component_text (n : option Z) : string := match n with Some n => "." +:+ show_Z n | None => "" end.
Definition range_text (vr : VersionRange) : string :=
  op_text (vr_op vr) +:+ show_Z (vr_major vr) +:+ component_text (vr_minor vr) +:+ component_text (vr_patch vr).

Definition not_space (c : ascii) : bool := negb (is_space c).

Lemma trimStart_solid s : str_forallb not_space s = true → trimStart s = s.
Proof.
  destruct s as [|c s]; [done|]. cbn. intros [Hc _]%andb_true_iff. unfold not_space in Hc.
  by destruct (is_space c).
Qed.

Lemma trimEnd_solid s : str_forallb not_space s = true → trimEnd s = s.
Proof.
  induction s as [|c s IH]; [done|]. cbn. intros [Hc Hs]%andb_true_iff. rewrite IH by done.
  destruct s; [|done]. unfold not_space in Hc. by destruct (is_space c).
Qed.

Lemma trim_solid s : str_forallb not_space s = true → trim s = s.
Proof. intros Hs. unfold trim. by rewrite trimStart_solid, trimEnd_solid. Qed.

Lemma digit_solid c : is_digit c = true → not_space c = true.
Proof. destruct c as [[] [] [] [] [] [] [] []]; vm_compute; done. Qed.

Lemma show_Z_solid n : 0 <= n → str_forallb not_space (show_Z n) = true.
Proof.
  intros (c & r & -> & Hd)%show_Z_digits. revert Hd. apply str_forallb_impl. intros x. apply digit_solid.
Qed.

Lemma component_solid n : (∀ m, n = Some m → safe m) → str_forallb not_space (component_text n) = true.
Proof. destruct n as [m|]; [|done]. intros Hm. cbn. apply show_Z_solid. by apply Hm. Qed.

(** Nothing that [\d+] would go on reading. *)
Definition no_digit (s : string) : Prop := match s with EmptyString => True | String c _ => is_digit c = false end.

Lemma span_digits_rest d s : str_forallb is_digit d = true → no_digit s → span_digits (d +:+ s) = (d, s).
Proof.
  destruct s as [|c r]; [|apply span_digits_app]. rewrite str_app_nil_r. intros Hd _.
  induction d as [|x d IH]; [done|]. cbn in *. apply andb_true_iff in Hd as [-> Hd]. by rewrite IH.
Qed.

Lemma number_at_show n s : safe n → no_digit s → number_at (show_Z n +:+ s) = Some (n, s).
Proof.
  intros Hn Hs. destruct (show_Z_digits n) as (c & r & E & Hd); [apply Hn|]. unfold number_at.
  rewrite E, (span_digits_rest _ s Hd Hs), <- E, digits_value_show by apply Hn. by rewrite to_double_safe.
Qed.

Lemma number_at_only n : safe n → number_at (show_Z n) = Some (n, "").
Proof. intros Hn. rewrite <- (str_app_nil_r (show_Z n)). by apply number_at_show. Qed.

Lemma dot_at_text s : dot_at ("." +:+ s) = Some s. Proof. reflexivity. Qed.

Lemma parse_version_text a b c : safe a → safe b → safe c → parseTriple (version_text (a, b, c)) = Some (a, b, c).
Proof.
  intros Ha Hb Hc. unfold parseTriple, version_text. rewrite trim_solid.
  - rewrite number_at_show by done. cbn -[number_at dot_at]. rewrite dot_at_text. cbn -[number_at dot_at].
    rewrite number_at_show by done. cbn -[number_at dot_at]. rewrite dot_at_text. cbn -[number_at].
    by rewrite number_at_only.
  - rewrite !str_forallb_app, !show_Z_solid; [done|apply Hc|apply Hb|apply Ha].
Qed.

(** A wildcard is not followed by a number. *)
Definition straight (vr : VersionRange) : Prop := vr_minor vr = None → vr_patch vr = None.
Definition safe_range (vr : VersionRange) : Prop :=
  safe (vr_major vr) ∧ (∀ m, vr_minor vr = Some m → safe m) ∧ (∀ p, vr_patch vr = Some p → safe p).

Lemma component_at_text n s : (∀ m, n = Some m → safe m) → (n = None → dot_at s = None) → no_digit s →
  component_at (component_text n +:+ s) = (n, s).
Proof.
  intros Hn Hs Hd. destruct n as [m|]; cbn [component_text].
  - change ((("." +:+ show_Z m) +:+ s)) with (String "." (show_Z m +:+ s)). unfold component_at. cbn [dot_at].
    rewrite bool_decide_true, number_at_show by auto. done.
  - unfold component_at. change ("" +:+ s) with s. by rewrite Hs.
Qed.

Lemma component_no_digit n s : no_digit s → no_digit (component_text n +:+ s).
Proof. by destruct n. Qed.

Lemma range_op_text op n s : 0 <= n → range_op (op_text op +:+ show_Z n +:+ s) = (op, show_Z n +:+ s).
Proof.
  intros (c & r & -> & Hd)%show_Z_digits. destruct op; try reflexivity. cbn in Hd. apply andb_true_iff in Hd as [Hd _].
  change (op_text ro_eq +:+ String c r +:+ s) with (String c (r +:+ s)). rewrite str_app_cons. revert Hd.
  destruct c as [[] [] [] [] [] [] [] []]; vm_compute is_digit; intros Hd; try discriminate Hd; reflexivity.
Qed.

Lemma parse_range_text vr : safe_range vr → straight vr → parse_range (range_text vr) = Some vr.
Proof.
  intros (Hm & Hi & Hp) Hs. unfold parse_range, range_text. rewrite trim_solid.
  - rewrite range_op_text by apply Hm.
    rewrite trimStart_solid by (rewrite !str_forallb_app, show_Z_solid, !component_solid by (done || apply Hm); done).
    rewrite number_at_show by (try done; apply component_no_digit; by destruct (vr_patch vr)). cbn.
    rewrite component_at_text; [|done|by intros ->%Hs|by destruct (vr_patch vr)].
    rewrite <- (str_app_nil_r (component_text (vr_patch vr))), component_at_text by done. by destruct vr.
  - rewrite !str_forallb_app, show_Z_solid, !component_solid by (done || apply Hm). by destruct (vr_op vr).
Qed.

(** ** What a range admits *)

(** The order of versions. *)
Definition le3 (x y : Triple) : Prop :=
  let '(x1, x2, x3) := x in
  let '(y1, y2, y3) := y in
  x1 < y1 ∨ (x1 = y1 ∧ (x2 < y2 ∨ (x2 = y2 ∧ x3 <= y3))).

Lemma cmp_nonneg x y : negb (cmp x y <? 0) = true ↔ le3 y x.
Proof.
  destruct x as [[x1 x2] x3], y as [[y1 y2] y3]. unfold cmp, le3. rewrite negb_true_iff, Z.ltb_ge.
  destruct (x1 =? y1) eqn:E1, (x2 =? y2) eqn:E2, (x3 =? y3) eqn:E3; cbn [negb]; bprop;
    try destruct (x1 <? y1) eqn:F1; try destruct (x2 <? y2) eqn:F2; try destruct (x3 <? y3) eqn:F3; bprop; lia.
Qed.

Lemma cmp_neg x y : negb (0 <=? cmp x y) = true ↔ ¬ le3 y x.
Proof. rewrite <- cmp_nonneg, Z.leb_antisym, !negb_involutive, negb_true_iff. by rewrite not_false_iff_true. Qed.

(** A component the range names. *)
Definition agrees (o : option Z) (n : Z) : Prop := match o with Some m => n = m | None => True end.

(** npm's reading: [^] allows changes that do not touch the left-most non-zero
    component, [~] changes of the patch, a bare range what it leaves open, and all
    but the bare one start at the range's own version. *)
Definition admits (vr : VersionRange) (v : Triple) : Prop :=
  let '(a, b, c) := v in
  match vr_op vr with
  | ro_eq => a = vr_major vr ∧ agrees (vr_minor vr) b ∧ agrees (vr_patch vr) c
  | ro_tilde => le3 (lower_bound vr) v ∧ a = vr_major vr ∧ agrees (vr_minor vr) b
  | ro_ge => le3 (lower_bound vr) v
  | ro_caret => le3 (lower_bound vr) v ∧ a = vr_major vr ∧
      (vr_major vr = 0 →
         agrees (vr_minor vr) b ∧ (vr_minor vr = Some 0 → agrees (vr_patch vr) c))
  end.

Definition safe_version (v : Triple) : Prop := let '(a, b, c) := v in safe a ∧ safe b ∧ safe c.

Lemma bounds_admit vr v : safe_range vr → straight vr → safe_version v →
  negb (cmp v (lower_bound vr) <? 0) && match upper_bound vr with Some u => negb (0 <=? cmp v u) | None => true end = true
  ↔ admits vr v.
Proof.
  destruct vr as [op major minor patch], v as [[a b] c]. intros (Hm & Hi & Hp) Hs (Ha & Hb & Hc).
  rewrite andb_true_iff, cmp_nonneg. unfold straight, upper_bound, admits, lower_bound in *.
  cbn [vr_op vr_major vr_minor vr_patch] in *.
  destruct minor as [m|]; [specialize (Hi m eq_refl)|];
    (destruct patch as [p|]; [try specialize (Hp p eq_refl)|]); try discriminate (Hs eq_refl); cbn [default agrees id];
    destruct op; rewrite ?cmp_neg;
    repeat match goal with |- context [if 0 <? ?x then _ else _] => destruct (0 <? x) eqn:? end; bprop;
    rewrite ?cmp_neg, ?js_succ_safe by done; unfold le3, safe in *;
    naive_solver lia.
Qed.

(** C36: The host's range checker reads every version and range it supports as npm
    does, for components below 2^53: a caret admits what keeps the left-most
    non-zero component, 0.x lines included, a tilde what keeps the minor, a bare
    range what it leaves open, [>=] what is not below, and [*] everything. *)
Theorem required_range_spec vr v : safe_range vr → straight vr → safe_version v →
  (satisfiesRequiredVersionRange (version_text v) (range_text vr) = true ↔ admits vr v) ∧
  satisfiesRequiredVersionRange (version_text v) "*" = true.
Proof.
  intros Hvr Hs Hv. pose proof (parse_range_text vr Hvr Hs) as Hp. pose proof (bounds_admit vr v Hvr Hs Hv) as Hb.
  assert (Ht : trim (range_text vr) = range_text vr).
  { apply trim_solid. unfold range_text. destruct Hvr as (Hm & Hi & Hq).
    rewrite !str_forallb_app, show_Z_solid, !component_solid by (done || apply Hm). by destruct (vr_op vr). }
  unfold satisfiesRequiredVersionRange. destruct v as [[a b] c], Hv as (Ha & Hb' & Hc).
  rewrite parse_version_text by done. split; [|done].
  rewrite Ht, (bool_decide_false (_ = "*")) by (intros E; by rewrite E in Hp).
  unfold requiredRangeBounds. rewrite Hp. exact Hb.
Qed.

(** A number after a wildcard is read as a patch of the wildcard's zero. *)
Lemma wildcard_patch_accepted :
  satisfiesRequiredVersionRange "1.5.0" "1.x.3" = true ∧ satisfiesRequiredVersionRange "1.0.2" "1.x.3" = false.
Proof. by vm_compute. Qed.

(** ** The boot gate *)

(** The version of the row is known and inside the pin. *)
Definition pinned (range : string) (row : InstalledExtension) : Prop :=
  ∃ v, concrete_version (ie_source row) = Ok (Some v) ∧ satisfiesRequiredVersionRange v range = true.

Lemma valid_concrete source : validateExtensionSource source = [] → ∃ v, concrete_version source = Ok v.
Proof.
  unfold validateExtensionSource, concrete_version. destruct (is_object source) eqn:Eo; [|done]. cbn [negb].
  assert (source ≠ JNull) by (by intros ->). intros E.
  destruct (jprop "type" source ≟ Some (JStr "verdaccio")) eqn:Et; [|destruct source; try done; by eexists].
  apply bool_decide_eq_true in Et. rewrite Et in E. cbn [str_of source_fields] in E. apply map_eq_nil in E.
  rewrite filter_nil_iff in E. assert (Hv : provenance_str (jprop "version" source) = true).
  { apply negb_false_iff, E. by do 2 right; left. }
  unfold provenance_str in Hv. destruct (jprop "version" source) as [[]|]; try discriminate Hv. destruct source; try done; by eexists.
Qed.

Lemma mapM_total {E A B} (f : A → result E B) l : (∀ x, x ∈ l → ∃ y, f x = Ok y) → ∃ k, mapM f l = Ok k.
Proof.
  intros Hf. destruct (mapM f l) as [k|e] eqn:Em; [by exists k|]. apply result_mapM_Err in Em as (x & Hx & Ex).
  destruct (Hf x Hx). congruence.
Qed.

Lemma live_of_in rows name r : r ∈ live_of rows name ↔ r ∈ rows ∧ is_live r = true ∧ ie_packageName r = name.
Proof. unfold live_of. rewrite filter_in, andb_true_iff, bool_decide_eq_true. done. Qed.

Lemma has_live_spec rows name : has_live rows name = true ↔ ∃ r, r ∈ live_of rows name.
Proof.
  unfold has_live. destruct (live_of rows name) as [|r l]; split; try done; [by intros (? & ?%elem_of_nil)|].
  intros _. exists r. left.
Qed.

Definition live_sources_valid (rows : list InstalledExtension) : Prop :=
  ∀ r, r ∈ rows → is_live r = true → validateExtensionSource (ie_source r) = [].

Lemma mismatch_of_spec name range row : validateExtensionSource (ie_source row) = [] →
  ∃ m, mismatch_of name range row = Ok m ∧ (m = None ↔ pinned range row).
Proof.
  intros [v Hv]%valid_concrete. unfold mismatch_of, pinned. rewrite Hv. eexists. split; [reflexivity|].
  destruct v as [v|]; [|split; [done|by intros (? & [=] & _)]].
  destruct (satisfiesRequiredVersionRange v range) eqn:E; split; [by exists v|done|done|].
  intros (w & [= <-] & Hw). congruence.
Qed.

Lemma entry_mismatches_spec rows e : live_sources_valid rows →
  ∃ l, entry_mismatches rows e = Ok l ∧
    (l = [] ↔ ∀ range r, rq_versionRange e = Some range → r ∈ live_of rows (rq_packageName e) → pinned range r).
Proof.
  intros Hv. unfold entry_mismatches. destruct (rq_versionRange e) as [range|]; [|exists []; naive_solver].
  assert (Hm : ∀ r, r ∈ live_of rows (rq_packageName e) →
    ∃ m, mismatch_of (rq_packageName e) range r = Ok m ∧ (m = None ↔ pinned range r)).
  { intros r (Hr & Hl & _)%live_of_in. by apply mismatch_of_spec, Hv. }
  destruct (mapM_total (mismatch_of (rq_packageName e) range) (live_of rows (rq_packageName e))) as [k Hk].
  { intros r Hr. destruct (Hm r Hr) as (m & ? & _). by exists m. }
  rewrite Hk. eexists. split; [reflexivity|]. apply result_mapM_Ok in Hk. rewrite omap_nil. split.
  - intros Hn range' r [= <-] Hr. destruct (Hm r Hr) as (m & Em & <-). apply list_elem_of_lookup in Hr as [i Hi].
    destruct (Forall2_lookup_l _ _ _ _ _ Hk Hi) as (m' & Hm' & Em'). assert (m' = m) as -> by congruence.
    apply Hn. by apply list_elem_of_lookup_2 in Hm'.
  - intros Hn m Hin. apply list_elem_of_lookup in Hin as [i Hi].
    destruct (Forall2_lookup_r _ _ _ _ _ Hk Hi) as (r & Hr & Em). apply list_elem_of_lookup_2 in Hr.
    destruct (Hm r Hr) as (m' & Em' & Hp). assert (m' = m) as <- by congruence. by apply Hp, (Hn range).
Qed.

(** A live row of the package, and all of them inside the pin. *)
Definition entry_met (rows : list InstalledExtension) (e : RequiredExtensionEntry) : Prop :=
  (∃ r, r ∈ live_of rows (rq_packageName e)) ∧
  ∀ range r, rq_versionRange e = Some range → r ∈ live_of rows (rq_packageName e) → pinned range r.

Lemma verify_spec entries rows : live_sources_valid rows →
  ∃ v, verifyRequiredInProdInstalled entries rows = Ok v ∧
    (match v with rv_ok _ _ => True | rv_failed _ _ _ _ => False end ↔ ∀ e, e ∈ entries → entry_met rows e).
Proof.
  intros Hv. unfold verifyRequiredInProdInstalled. destruct entries as [|e0 es]; [eexists; split; [done|]; split; [|done]; by intros _ e ?%elem_of_nil|].
  set (entries := e0 :: es). destruct (mapM_total (entry_mismatches rows) entries) as [k Hk].
  { intros e _. destruct (entry_mismatches_spec rows e Hv) as (l & ? & _). by exists l. }
  rewrite Hk. eexists. split; [reflexivity|]. apply result_mapM_Ok in Hk.
  transitivity (List.filter (λ n, negb (has_live rows n)) (map rq_packageName entries) = [] ∧ concat k = []).
  { destruct (List.filter _ _), (concat k); naive_solver. }
  rewrite filter_nil_iff. unfold entry_met. setoid_rewrite <- has_live_spec. split.
  - intros [Hmiss Hc] e He. split.
    + apply negb_false_iff, Hmiss. by apply list_elem_of_fmap_2.
    + apply list_elem_of_lookup in He as [i Hi]. destruct (Forall2_lookup_l _ _ _ _ _ Hk Hi) as (l & Hl & El).
      destruct (entry_mismatches_spec rows e Hv) as (l' & El' & Hp). assert (l' = l) as -> by congruence. apply Hp.
      apply elem_of_nil_inv. intros m Hm. apply (not_elem_of_nil m). rewrite <- Hc. apply list_elem_of_In, in_concat.
      exists l. split; apply list_elem_of_In; [by apply list_elem_of_lookup_2 in Hl|done].
  - intros Hall. split.
    + intros n (e & -> & He)%list_elem_of_fmap. apply negb_false_iff. by apply Hall.
    + apply elem_of_nil_inv. intros m (l & Hl & Hm)%list_elem_of_In%in_concat.
      apply list_elem_of_In, list_elem_of_lookup in Hl as [i Hi].
      destruct (Forall2_lookup_r _ _ _ _ _ Hk Hi) as (e & He & El). apply list_elem_of_lookup_2 in He.
      destruct (entry_mismatches_spec rows e Hv) as (l' & El' & Hp). assert (l' = l) as -> by congruence.
      rewrite (proj2 Hp) in Hm by apply Hall, He. done.
Qed.

Lemma violations_nil broken v advisories :
  closureBootViolations {| br_brokenClosures := broken; br_verification := v; br_optionalAdvisories := advisories |} = [] ↔
  broken = [] ∧ match v with rv_ok _ _ => True | rv_failed _ _ _ _ => False end.
Proof. unfold closureBootViolations. cbn. destruct broken, v; naive_solver. Qed.

Lemma trimEnd_idem s : trimEnd (trimEnd s) = trimEnd s.
Proof.
  induction s as [|c s IH]; [done|]. cbn. destruct (trimEnd s) as [|x r] eqn:E.
  - destruct (is_space c) eqn:Ec; [done|]. cbn. by rewrite Ec.
  - cbn [trimEnd] in *. by rewrite IH.
Qed.

Lemma trim_idem s : trim (trim s) = trim s.
Proof.
  unfold trim. enough (trimStart (trimEnd (trimStart s)) = trimEnd (trimStart s)) as ->; [by rewrite trimEnd_idem|].
  induction s as [|c s IH]; [done|]. cbn [trimStart]. destruct (is_space c) eqn:Ec; [done|]. cbn [trimEnd].
  destruct (trimEnd s); rewrite ?Ec; cbn; by rewrite Ec.
Qed.

Lemma parseTriple_trim v : parseTriple (trim v) = parseTriple v.
Proof. unfold parseTriple. by rewrite trim_idem. Qed.

Lemma satisfies_trim v range : satisfiesRequiredVersionRange (trim v) range = satisfiesRequiredVersionRange v range.
Proof. unfold satisfiesRequiredVersionRange. by rewrite parseTriple_trim. Qed.

Lemma pin_gate_admits entries e range v : NoDup (map rq_packageName entries) → e ∈ entries →
  rq_versionRange e = Some range →
  checkRequiredExtensionVersionPin entries (rq_packageName e) (Some v) = None →
  satisfiesRequiredVersionRange v range = true.
Proof.
  intros Hnd He Hr. unfold checkRequiredExtensionVersionPin, findRequiredInProdEntry.
  destruct (List.find _ entries) as [e'|] eqn:Ef.
  - apply find_some in Ef as [Hin%list_elem_of_In Hn]. bprop.
    assert (e' = e) as -> by (by apply (row_unique rq_packageName entries)). destruct e as [name ?]. cbn in Hr. subst. cbn.
    destruct ((trim v ≟ "") || _) eqn:E; [done|]. intros _. apply orb_false_iff in E as [_ E].
    apply negb_false_iff in E. by rewrite satisfies_trim in E.
  - pose proof (find_none _ _ Ef e (proj1 (list_elem_of_In _ _) He)) as H. cbn in H. by bprop.
Qed.


(** ** Instances *)

#[local] Instance exact_semver : Semver := {| semver_satisfies := λ v range, v ≟ range |}.

Definition core_range : VersionRange := {| vr_op := ro_caret; vr_major := 0; vr_minor := Some 1; vr_patch := Some 0 |}.

Lemma required_range_spec_witness :
  satisfiesRequiredVersionRange "0.1.7" "^0.1.0" = true ∧ satisfiesRequiredVersionRange "0.2.0" "^0.1.0" = false.
Proof.
  assert (Hr : safe_range core_range) by (split; [unfold safe; cbn; lia|split; intros ? [= <-]; unfold safe; lia]).
  assert (Hs : straight core_range) by done.
  assert (Hv : ∀ b c, safe b → safe c → safe_version (0, b, c)) by (intros b c Hb Hc; by split).
  split.
  - destruct (required_range_spec core_range (0, 1, 7) Hr Hs) as [[_ Hin] _]; [apply Hv; unfold safe; lia|]. apply Hin.
    split; [cbn; lia|]. split; [done|]. intros _. by split.
  - destruct (required_range_spec core_range (0, 2, 0) Hr Hs) as [[Hout _] _]; [apply Hv; unfold safe; lia|].
    apply not_true_iff_false. intros E. destruct (Hout E) as (_ & _ & H). destruct (H eq_refl) as [H2 _]. discriminate H2.
Defined.

Definition anchor_row (version : string) : InstalledExtension := {|
  ie_id := "1"; ie_packageName := "@x/a"; ie_ownerLevel := xo_platform; ie_ownerId := Some PLATFORM_OWNER_SENTINEL;
  ie_organizationId := None; ie_kind := xk_connector; ie_status := xs_locked;
  ie_source := staticBundleAnchorSource "@x/a" version; ie_requiredInProd := true; ie_dependencies := [];
  ie_manifestHash := None |}.
Definition host_manifest : option json :=
  Some (JObj [("cinatra", JObj [("requiredExtensions", JArr [JStr "@x/a@^0.1.0"])])]).

