(* ===== verification/Crash.v ===== *)
(** * Code that may throw, and that may stop at any step

    An operation over a state of type [W] answers, throws an exception of type [E],
    or is cut off by a crash of its process, which keeps the state and nothing
    else.  It is given the number of durable steps the process still takes; running
    out of them is the crash, and [catch] does not catch it.  So a statement for
    every number of steps is one for a crash at every point.

    A step is one statement sent to a database.  It may fail: refused, with nothing
    written, or written and never acknowledged; the environment decides for each step. *)

From S2P Require Import Prelude.

Section crash.
Context {W E : Type}.

Inductive outcome (A : Type) : Type :=
  | Done (a : A) (w : W) (n : nat)
  | Threw (e : E) (w : W) (n : nat)
  | Crashed (w : W).
End crash.
Arguments outcome : clear implicits.
Arguments Done {W E A} a w n.
Arguments Threw {W E A} e w n.
Arguments Crashed {W E A} w.

Definition CM (W E A : Type) : Type := W → nat → outcome W E A.

#[export] Instance CM_ret W E : MRet (CM W E) := λ A a w n, Done a w n.
#[export] Instance CM_bind W E : MBind (CM W E) := λ A B f m w n,
  match m w n with
  | Done a w' n' => f a w' n'
  | Threw e w' n' => Threw e w' n'
  | Crashed w' => Crashed w'
  end.

Definition throw {W E A} (e : E) : CM W E A := λ w n, Threw e w n.

(** [try { m } catch]: what [m] threw as a value. *)
Definition catch {W E A} (m : CM W E A) : CM W E (result E A) := λ w n,
  match m w n with
  | Done a w' n' => Done (Ok a) w' n'
  | Threw e w' n' => Done (Err e) w' n'
  | Crashed w' => Crashed w'
  end.

Definition of_result {W E A} (r : result E A) : CM W E A :=
  match r with Ok a => mret a | Err e => throw e end.

(** What goes wrong at a step, and when it happens: the index of a step is the
    number of steps left. *)
Inductive fault (E : Type) := fault_none | fault_refused (e : E) | fault_lost (e : E).
Arguments fault_none {E}.
Arguments fault_refused {E} e.
Arguments fault_lost {E} e.

Class Faults (E : Type) := { fault_at : nat → fault E; now_at : nat → Z }.

(** One statement; [f] is given its time and an index no other step has. *)
Definition statement {W E A} `{Faults E} (f : Z → nat → W → result E A * W) : CM W E A := λ w n,
  match n with
  | O => Crashed w
  | S n' =>
      match fault_at n with
      | fault_refused e => Threw e w n'
      | fault_lost e => Threw e (f (now_at n) n w).2 n'
      | fault_none => match (f (now_at n) n w).1 with
                      | Ok a => Done a (f (now_at n) n w).2 n'
                      | Err e => Threw e (f (now_at n) n w).2 n'
                      end
      end
  end.

Definition read {W E A} `{Faults E} (f : W → A) : CM W E A := statement (λ _ _ w, (Ok (f w), w)).

(** [m] on a part of the state. *)
Definition zoom {W V E E' A} (get : W → V) (set : V → W → W) (wrap : E' → E) (m : CM V E' A) : CM W E A := λ w n,
  match m (get w) n with
  | Done a v n' => Done a (set v w) n'
  | Threw e v n' => Threw (wrap e) (set v w) n'
  | Crashed v => Crashed (set v w)
  end.

(** A value of the environment: a clock, a random id. *)
Definition ask {W E A} (f : nat → A) : CM W E A := λ w n, Done (f n) w n.

Definition outcome_state {W E A} (o : outcome W E A) : W :=
  match o with Done _ w _ | Threw _ w _ | Crashed w => w end.

(** ** Triples

    [runs m w Q QE C]: from [w], however many steps are left, [m] answers as [Q]
    says, throws as [QE] says, or crashes in a state of [C]. *)
Section runs.
Context {W E : Type}.
Implicit Types C : W → Prop.
Implicit Types QE : E → W → Prop.

Definition ends {A} (o : outcome W E A) (Q : A → W → Prop) QE C : Prop :=
  match o with Done a w _ => Q a w | Threw e w _ => QE e w | Crashed w => C w end.

Definition runs {A} (m : CM W E A) (w : W) (Q : A → W → Prop) QE C : Prop := ∀ n, ends (m w n) Q QE C.

Lemma ends_mono {A} (o : outcome W E A) (Q Q' : A → W → Prop) QE QE' C C' : ends o Q QE C →
  (∀ a w, Q a w → Q' a w) → (∀ e w, QE e w → QE' e w) → (∀ w, C w → C' w) → ends o Q' QE' C'.
Proof. destruct o; cbn; auto. Qed.

Lemma runs_mono {A} (m : CM W E A) w (Q Q' : A → W → Prop) QE QE' C C' : runs m w Q QE C →
  (∀ a w, Q a w → Q' a w) → (∀ e w, QE e w → QE' e w) → (∀ w, C w → C' w) → runs m w Q' QE' C'.
Proof. intros H ? ? ? n. by eapply ends_mono. Qed.

Lemma runs_and {A} (m : CM W E A) w (Q Q' : A → W → Prop) QE QE' C C' : runs m w Q QE C → runs m w Q' QE' C' →
  runs m w (λ a w, Q a w ∧ Q' a w) (λ e w, QE e w ∧ QE' e w) (λ w, C w ∧ C' w).
Proof. intros H H' n. specialize (H n). specialize (H' n). by destruct (m w n). Qed.

Lemma runs_ret {A} (a : A) w (Q : A → W → Prop) QE C : Q a w → runs (mret a) w Q QE C.
Proof. by intros H n. Qed.

Lemma runs_throw {A} e w (Q : A → W → Prop) QE C : QE e w → runs (throw e) w Q QE C.
Proof. by intros H n. Qed.

Lemma runs_ask {A} (f : nat → A) w (Q : A → W → Prop) QE C : (∀ n, Q (f n) w) → runs (ask f) w Q QE C.
Proof. intros H n. apply H. Qed.

Lemma runs_of_result {A} (r : result E A) w (Q : A → W → Prop) QE C :
  match r with Ok a => Q a w | Err e => QE e w end → runs (of_result r) w Q QE C.
Proof. by destruct r; intros H n. Qed.

Lemma runs_bind {A B} (m : CM W E A) (f : A → CM W E B) w Q QE C :
  runs m w (λ a w', runs (f a) w' Q QE C) QE C → runs (m ≫= f) w Q QE C.
Proof.
  intros H n. specialize (H n). unfold mbind, CM_bind. destruct (m w n) as [a w' n'|e w' n'|w']; cbn in *; [apply H|done..].
Qed.

Lemma runs_catch {A} (m : CM W E A) w (Q : result E A → W → Prop) QE C :
  runs m w (λ a w', Q (Ok a) w') (λ e w', Q (Err e) w') C → runs (catch m) w Q QE C.
Proof. intros H n. specialize (H n). unfold catch. by destruct (m w n). Qed.

Lemma runs_statement `{Faults E} {A} (f : Z → nat → W → result E A * W) w Q QE C : C w → (∀ e, QE e w) →
  (∀ t i, let '(r, w') := f t i w in (∀ e, QE e w') ∧ match r with Ok a => Q a w' | Err e => True end) →
  runs (statement f) w Q QE C.
Proof.
  intros Hc He Hf [|n]; [done|]. cbn. specialize (Hf (now_at (S n)) (S n)).
  destruct (fault_at (S n)); cbn; [|done|]; destruct (f (now_at (S n)) (S n) w) as [[a|e'] w']; cbn in *; naive_solver.
Qed.

(** When no step fails. *)
Lemma runs_statement_ok `{Faults E} {A} (f : Z → nat → W → result E A * W) w Q QE C :
  (∀ n, fault_at n = fault_none) → C w →
  (∀ i, let '(r, w') := f (now_at i) i w in match r with Ok a => Q a w' | Err e => QE e w' end) →
  runs (statement f) w Q QE C.
Proof.
  intros H0 Hc Hf [|n]; [done|]. cbn. rewrite H0. specialize (Hf (S n)).
  by destruct (f (now_at (S n)) (S n) w) as [[a|e'] w'].
Qed.

Lemma runs_read `{Faults E} {A} (f : W → A) w (Q : A → W → Prop) QE C : C w → (∀ e, QE e w) → Q (f w) w →
  runs (read f) w Q QE C.
Proof. intros Hc He Hq. by apply runs_statement. Qed.
End runs.

Lemma runs_zoom {W V E E' A} (get : W → V) (set : V → W → W) (wrap : E' → E) (m : CM V E' A) w
    (Q : A → W → Prop) (QE : E → W → Prop) (C : W → Prop) :
  runs m (get w) (λ a v, Q a (set v w)) (λ e v, QE (wrap e) (set v w)) (λ v, C (set v w)) →
  runs (zoom get set wrap m) w Q QE C.
Proof. intros H n. specialize (H n). unfold zoom. by destruct (m (get w) n). Qed.

(** [for (const a of l) await f(a)] with a value carried along. *)
Fixpoint each {W E A S} (f : S → A → CM W E S) (l : list A) (s : S) : CM W E S :=
  match l with [] => mret s | a :: l => s' ← f s a; each f l s' end.

(** An invariant of the loop, indexed by what is left. *)
Lemma runs_each {W E A S} (f : S → A → CM W E S) (I : list A → S → W → Prop) (QE : E → W → Prop) (C : W → Prop) l s w :
  I l s w → (∀ a l' s' w', a :: l' `suffix_of` l → I (a :: l') s' w' → runs (f s' a) w' (λ s'' w'', I l' s'' w'') QE C) →
  runs (each f l s) w (λ s' w', I [] s' w') QE C.
Proof.
  revert s w. induction l as [|a l IH]; intros s w Hi Hf; cbn [each]; [by apply runs_ret|].
  apply runs_bind. eapply runs_mono; [by apply Hf|..]; [|done|done]. intros s' w' Hi'. apply IH; [done|].
  intros a' l' s'' w'' Hs. apply Hf. by apply suffix_cons_r.
Qed.

(** A statement does what it says when nothing goes wrong. *)
Lemma statement_ok {W E A} `{Faults E} (f : Z → nat → W → result E A * W) w n :
  fault_at (S n) = fault_none →
  statement f w (S n) = match (f (now_at (S n)) (S n) w).1 with
                        | Ok a => Done a (f (now_at (S n)) (S n) w).2 n
                        | Err e => Threw e (f (now_at (S n)) (S n) w).2 n end.
Proof. intros E0. cbn. by rewrite E0. Qed.
