(* ===== verification/InstallBatch.v ===== *)
(** * Installing a package and its dependencies as one batch
      ([src/lib/extension-install-batch.ts], [extension-install-batch-ops.ts])

    A batch plans the members it has to install, records them in a durable ledger
    with what was there before, installs them one by one, dependencies first, and
    on a failure uninstalls those it had newly installed, last first.  After a crash
    a sweep at boot does so from the ledger.

    The host (planner, dispatcher, registry, marketplace) is the record of
    functions the code itself is given.  The lock around planning is the atomicity of
    that part with respect to other batches.  The contexts that carry the grant to
    the reads of the registry ([withGrantContext], [withSagaOwnedFanout], the kinds
    they collect) are not modelled.  Texts of errors are not modelled; a [detail]
    column holds the error itself. *)

From S2P Require Import Prelude Json Time Spec Extensions Closure Graph InstallPlan Crash.
Open Scope Z_scope.

(** ** The ledger *)

Inductive InstallBatchPhase := ip_planning | ip_installing | ip_finalized | ip_failed | ip_compensated.
#[export] Instance InstallBatchPhase_eq_dec : EqDecision InstallBatchPhase.
Proof. solve_decision. Defined.

Definition ACTIVE_BATCH_PHASES : list InstallBatchPhase := [ip_planning; ip_installing].

Inductive BatchMemberStatus :=
  bs_planned | bs_already_installed | bs_installing | bs_installed | bs_failed | bs_compensated | bs_compensation_failed.
#[export] Instance BatchMemberStatus_eq_dec : EqDecision BatchMemberStatus.
Proof. solve_decision. Defined.

Record BatchMemberPreState := {
  bp_present : bool; bp_version : option json; bp_installOpId : option string; bp_installOpPhase : option string
}.

(** What a ledger query throws. *)
Inductive ledger_exn := le_database (message : string) | le_no_row (batchId : string).

(** What a batch throws; [E] is what the host does. *)
Inductive saga_exn (E : Type) :=
  | sx_host (e : E)
  | sx_ledger (e : ledger_exn)
  | sx_overlap (batchId rootPackage : string) (overlap : list string)
  | sx_expiry
  | sx_closure_drift
  | sx_type_error
  | sx_batch (member : string) (compensated compensationFailures : list string) (cause : saga_exn E).
Arguments sx_host {E} e.
Arguments sx_ledger {E} e.
Arguments sx_overlap {E} batchId rootPackage overlap.
Arguments sx_expiry {E}.
Arguments sx_closure_drift {E}.
Arguments sx_type_error {E}.
Arguments sx_batch {E} member compensated compensationFailures cause.

Section ledger.
Context {E : Type} {ledger_faults : Faults ledger_exn}.

Record InstallBatchMember := {
  im_packageName : string; im_version : string; im_typeId : string; im_status : BatchMemberStatus;
  im_preState : BatchMemberPreState; im_installOpId : option string; im_detail : option (saga_exn E)
}.

(** [createdAt] and [updatedAt] in milliseconds. *)
Record InstallBatch := {
  ib_batchId : string; ib_rootPackage : string; ib_orgId : option string; ib_phase : InstallBatchPhase;
  ib_members : list InstallBatchMember; ib_createdAt : Z; ib_updatedAt : Z
}.

Abbreviation LM := (CM (list InstallBatch) ledger_exn).

Definition is_active (b : InstallBatch) : bool := bool_decide (ib_phase b ∈ ACTIVE_BATCH_PHASES).

(** The primary key, and the indexes that allow one active batch per root and organization. *)
Definition beginInstallBatch (batchId rootPackage : string) (orgId : option string) (members : list InstallBatchMember)
    : LM InstallBatch :=
  statement (λ now _ l,
    if existsb (λ b, (ib_batchId b ≟ batchId) ||
                     (is_active b && (ib_rootPackage b ≟ rootPackage) && (ib_orgId b ≟ orgId))) l
    then (Err (le_database "duplicate key value violates unique constraint"), l)
    else
      let b := {| ib_batchId := batchId; ib_rootPackage := rootPackage; ib_orgId := orgId; ib_phase := ip_planning;
                  ib_members := members; ib_createdAt := now; ib_updatedAt := now |} in
      (Ok b, l ++ [b])).

Definition find_batch (batchId : string) (l : list InstallBatch) : option InstallBatch :=
  List.find (λ b, ib_batchId b ≟ batchId) l.

(** [UPDATE ... WHERE batch_id = $2 RETURNING]. *)
Definition update_batch (batchId : string) (f : Z → InstallBatch → InstallBatch) : LM InstallBatch :=
  statement (λ now _ l,
    let l' := map (λ b, if ib_batchId b ≟ batchId then f now b else b) l in
    (match find_batch batchId l' with Some b => Ok b | None => Err (le_no_row batchId) end, l')).

Definition with_phase (phase : InstallBatchPhase) (now : Z) (b : InstallBatch) : InstallBatch := {|
  ib_batchId := ib_batchId b; ib_rootPackage := ib_rootPackage b; ib_orgId := ib_orgId b; ib_phase := phase;
  ib_members := ib_members b; ib_createdAt := ib_createdAt b; ib_updatedAt := now |}.
Definition with_members (members : list InstallBatchMember) (now : Z) (b : InstallBatch) : InstallBatch := {|
  ib_batchId := ib_batchId b; ib_rootPackage := ib_rootPackage b; ib_orgId := ib_orgId b; ib_phase := ib_phase b;
  ib_members := members; ib_createdAt := ib_createdAt b; ib_updatedAt := now |}.

Definition setInstallBatchPhase (batchId : string) (phase : InstallBatchPhase) : LM InstallBatch :=
  update_batch batchId (with_phase phase).

Definition readInstallBatch (batchId : string) : LM (option InstallBatch) := read (find_batch batchId).

Record MemberPatch := {
  mp_status : BatchMemberStatus; mp_installOpId : option string; mp_detail : option (saga_exn E)
}.

Definition patch_member (patch : MemberPatch) (m : InstallBatchMember) : InstallBatchMember := {|
  im_packageName := im_packageName m; im_version := im_version m; im_typeId := im_typeId m;
  im_status := mp_status patch; im_preState := im_preState m;
  im_installOpId := match mp_installOpId patch with Some i => Some i | None => im_installOpId m end;
  im_detail := match mp_detail patch with Some d => Some d | None => im_detail m end |}.

Definition patch_members (packageName : string) (patch : MemberPatch) (members : list InstallBatchMember)
    : list InstallBatchMember :=
  map (λ m, if im_packageName m ≟ packageName then patch_member patch m else m) members.

(** A read, then a write of the whole array. *)
Definition updateInstallBatchMember (batchId packageName : string) (patch : MemberPatch) : LM InstallBatch :=
  current ← readInstallBatch batchId;
  match current with
  | None => throw (le_no_row batchId)
  | Some current => update_batch batchId (with_members (patch_members packageName patch (ib_members current)))
  end.

(** [ORDER BY key ASC]. *)
Definition by_key (key : InstallBatch → Z) : relation InstallBatch := λ a b, key a <= key b.
#[local] Instance by_key_dec key : RelDecision (by_key key).
Proof. intros a b. unfold by_key. apply _. Defined.

Definition order_by (key : InstallBatch → Z) (l : list InstallBatch) : list InstallBatch :=
  merge_sort (by_key key) l.

Definition listActiveInstallBatches : LM (list InstallBatch) :=
  read (λ l, order_by ib_createdAt (List.filter is_active l)).

(** [orgId] is absent, or chosen. *)
Definition listRecentInstallBatches (limit : option Z) (orgId : option (option string)) : LM (list InstallBatch) :=
  let limit := Z.min (Z.max 1 (limit ?? 25)) 200 in
  read (λ l, take (Z.to_nat limit) (order_by (λ b, - ib_updatedAt b)
    (List.filter (λ b, match orgId with None => true | Some org => ib_orgId b ≟ org end) l))).

Definition is_stale (now olderThanMs : Z) (b : InstallBatch) : bool :=
  is_active b && (ib_updatedAt b <? now - Z.max 0 olderThanMs).

Definition listStaleInstallBatches (olderThanMs : Z) : LM (list InstallBatch) :=
  statement (λ now _ l, (Ok (order_by ib_updatedAt (List.filter (is_stale now olderThanMs) l)), l)).

Definition collectActiveBatchMemberKeys : LM (list string) :=
  active ← listActiveInstallBatches;
  mret (flat_map (λ b, map (λ m, im_packageName m +:+ "::" +:+ (ib_orgId b ?? "(global)")) (ib_members b)) active).
End ledger.
Arguments InstallBatchMember : clear implicits.
Arguments InstallBatch : clear implicits.
Arguments MemberPatch : clear implicits.

(** ** The host *)

Record Actor := { ac_orgId : option string; ac_userId : option string; ac_source : string }.
Record MemberRef := { mr_typeId : string; mr_packageName : string; mr_version : string }.
Record LiveRow := { lr_present : bool; lr_version : option json }.

Section grant.
Context {Cfg : Type}.

Record GrantAuthorization := {
  ga_resolvedVersion : string; ga_closure : list DependencyClosurePin; ga_expiresAt : string
}.
Record GatekeptInstallResolution := { gr_config : Cfg; gr_authorize : GrantAuthorization }.
Record GrantRoot := { gt_packageName : string; gt_version : string; gt_closureHash : string }.
End grant.
Arguments GatekeptInstallResolution : clear implicits.

(** What the saga is given: [H] is the state of the host, [E] what it throws. *)
Class InstallBatchSagaDeps (H Cfg E : Type) := {
  bd_isGatekeptInstallEnabled : bool;
  bd_authorizeRoot : string → option string → CM H E (GatekeptInstallResolution Cfg);
  bd_refreshGrant : GatekeptInstallResolution Cfg → GrantRoot → CM H E (GatekeptInstallResolution Cfg);
  bd_getActiveGrantContext : option (string * GatekeptInstallResolution Cfg);
  bd_plan : PlanDependencyInstallInput → CM H E DependencyInstallPlan;
  bd_installMember : MemberRef → Actor → CM H E unit;
  bd_uninstallMember : MemberRef → Actor → CM H E unit;
  bd_triggerAgentRuntimeReload : CM H E bool;
  bd_readLiveRowVersion : string → option string → CM H E LiveRow;
  bd_readInstallOp : string → option string → CM H E (option (string * string));
  bd_sha256 : string → string;
  bd_randomUUID : nat → string;
  bd_requiresRebuild : E → bool
}.

Section saga.
Context {Host Cfg E : Type} {date_env : DateEnv} {ledger_faults : Faults ledger_exn}.
Context {deps : InstallBatchSagaDeps Host Cfg E}.

(** [w_reloads] counts the calls that reload the agent runtime. *)
Record World := { w_host : Host; w_ledger : list (InstallBatch E); w_reloads : nat }.

Abbreviation SM := (CM World (saga_exn E)).
Abbreviation Resolution := (GatekeptInstallResolution Cfg).

Definition set_host (h : Host) (w : World) : World := {| w_host := h; w_ledger := w_ledger w; w_reloads := w_reloads w |}.
Definition set_ledger (l : list (InstallBatch E)) (w : World) : World :=
  {| w_host := w_host w; w_ledger := l; w_reloads := w_reloads w |}.

Definition on_host {A} (m : CM Host E A) : SM A := zoom w_host set_host sx_host m.
Definition on_ledger {A} (m : CM (list (InstallBatch E)) ledger_exn A) : SM A := zoom w_ledger set_ledger sx_ledger m.

Definition ref_of (m : PlannedMember) : MemberRef :=
  {| mr_typeId := pm_typeId m; mr_packageName := pm_packageName m; mr_version := pm_version m |}.

Definition status_patch (status : BatchMemberStatus) : MemberPatch E :=
  {| mp_status := status; mp_installOpId := None; mp_detail := None |}.
Definition detail_patch (status : BatchMemberStatus) (e : saga_exn E) : MemberPatch E :=
  {| mp_status := status; mp_installOpId := None; mp_detail := Some e |}.

(** [deps.now()]. *)
Definition clock : SM Z := ask now_at.
Definition randomUUID : SM string := ask bd_randomUUID.

Definition count_reload : SM unit := λ w n,
  Done () {| w_host := w_host w; w_ledger := w_ledger w; w_reloads := S (w_reloads w) |} n.

(** Best effort: its failure is only logged. *)
Definition maybeReloadAgentRuntime (installed : list PlannedMember) : SM unit :=
  if existsb (λ m, pm_typeId m ≟ "agent") installed then
    _ ← catch (count_reload;; on_host bd_triggerAgentRuntimeReload); mret ()
  else mret ().

Record BatchInstallInput := { bi_packageName : string; bi_version : option string; bi_actor : Actor }.

Record BatchInstallResult := {
  br_rootPackage : string; br_rootVersion : string; br_installed : list (string * string);
  br_alreadyInstalled : list string; br_batchId : option string
}.

(** ** Compensation *)

Definition pre_present (members : list (InstallBatchMember E)) (packageName : string) : bool :=
  match List.find (λ m, im_packageName m ≟ packageName) members with
  | Some m => bp_present (im_preState m)
  | None => false
  end.

(** One turn of the loop; the accumulated lists are [compensated] and [failures]. *)
Definition compensate_member (batch : InstallBatch E) (actor : Actor) (acc : list string * list string)
    (m : PlannedMember) : SM (list string * list string) :=
  let '(compensated, failures) := acc in
  if pre_present (ib_members batch) (pm_packageName m) then mret acc
  else
    r ← catch (on_host (bd_uninstallMember (ref_of m) actor);;
               on_ledger (updateInstallBatchMember (ib_batchId batch) (pm_packageName m) (status_patch bs_compensated)));
    match r with
    | Ok _ => mret (compensated ++ [pm_packageName m], failures)
    | Err e =>
        _ ← catch (on_ledger (updateInstallBatchMember (ib_batchId batch) (pm_packageName m)
                                (detail_patch bs_compensation_failed e)));
        mret (compensated, failures ++ [pm_packageName m])
    end.

Definition is_requires_rebuild (e : saga_exn E) : bool :=
  match e with sx_host e => bd_requiresRebuild e | _ => false end.

Definition abortAndCompensate {A} (batch : InstallBatch E) (actor : Actor) (installedThisBatch : list PlannedMember)
    (failedMember : string) (cause : saga_exn E) : SM A :=
  _ ← catch (on_ledger (updateInstallBatchMember (ib_batchId batch) failedMember (detail_patch bs_failed cause)));
  _ ← catch (on_ledger (setInstallBatchPhase (ib_batchId batch) ip_failed));
  '(compensated, failures) ← each (compensate_member batch actor) (reverse installedThisBatch) ([], []);
  _ ← catch (on_ledger (setInstallBatchPhase (ib_batchId batch)
                          (match failures with [] => ip_compensated | _ => ip_failed end)));
  if is_requires_rebuild cause then throw cause else throw (sx_batch failedMember compensated failures cause).

(** ** The grant *)

Definition GRANT_REFRESH_MARGIN_MS : Z := 60000.

Definition computeClosureHash (closure : list DependencyClosurePin) : string :=
  bd_sha256 (join (String (ascii_of_nat 10) "") (js_sort (map (λ c, cp_name c +:+ "@" +:+ cp_version c) closure))).

Definition same_closure (refreshed current : list DependencyClosurePin) : bool :=
  (length refreshed =? length current)%nat &&
  forallb (λ c, existsb (λ o, (cp_name o ≟ cp_name c) && (cp_version o ≟ cp_version c)) current) refreshed.

(** The grant the next member is installed under. *)
Definition check_grant (resolution : option Resolution) (rootPackage rootVersion : string) : SM (option Resolution) :=
  match resolution with
  | None => mret None
  | Some current =>
      match Date_parse (ga_expiresAt (gr_authorize current)) with
      | None => throw sx_expiry
      | Some expiresAt =>
          now ← clock;
          if expiresAt - now <? GRANT_REFRESH_MARGIN_MS then
            refreshed ← on_host (bd_refreshGrant current {|
              gt_packageName := rootPackage; gt_version := rootVersion;
              gt_closureHash := computeClosureHash (ga_closure (gr_authorize current)) |});
            if same_closure (ga_closure (gr_authorize refreshed)) (ga_closure (gr_authorize current))
            then mret (Some {| gr_config := gr_config refreshed; gr_authorize := gr_authorize refreshed |})
            else throw sx_closure_drift
          else mret (Some current)
      end
  end.

(** ** Planning *)

Definition overlap_of (plannedNames : list string) (b : InstallBatch E) : list string :=
  List.filter (λ n, bool_decide (n ∈ plannedNames)) (ib_rootPackage b :: map im_packageName (ib_members b)).

(** The first active batch of the organization in the way. *)
Definition overlapping (orgId : option string) (plannedNames : list string) (active : list (InstallBatch E))
    : option (InstallBatch E) :=
  List.find (λ b, (ib_orgId b ≟ orgId) && negb (bool_decide (overlap_of plannedNames b = []))) active.

Definition ledger_member (orgId : option string) (members : list (InstallBatchMember E)) (m : PlannedMember)
    : SM (list (InstallBatchMember E)) :=
  row ← on_host (bd_readLiveRowVersion (pm_packageName m) orgId);
  op ← on_host (bd_readInstallOp (pm_packageName m) orgId);
  mret (members ++ [{|
    im_packageName := pm_packageName m; im_version := pm_version m; im_typeId := pm_typeId m;
    im_status := if pm_alreadyInstalled m then bs_already_installed else bs_planned;
    im_preState := {| bp_present := lr_present row; bp_version := lr_version row;
                      bp_installOpId := fst <$> op; bp_installOpPhase := snd <$> op |};
    im_installOpId := None; im_detail := None |}]).

Record Planned := {
  pl_plan : DependencyInstallPlan; pl_batch : option (InstallBatch E); pl_toInstall : list PlannedMember;
  pl_alreadyInstalled : list string
}.

Definition begin_batch (rootPackage : string) (orgId : option string) (plan : DependencyInstallPlan)
    (toInstall : list PlannedMember) (alreadyInstalled : list string) : SM Planned :=
  members ← each (ledger_member orgId) (dp_ordered plan) [];
  batchId ← randomUUID;
  batch ← on_ledger (beginInstallBatch batchId rootPackage orgId members);
  _ ← on_ledger (setInstallBatchPhase (ib_batchId batch) ip_installing);
  mret {| pl_plan := plan; pl_batch := Some batch; pl_toInstall := toInstall; pl_alreadyInstalled := alreadyInstalled |}.

(** The part under the global lock. *)
Definition plan_batch (input : BatchInstallInput) (resolution : option Resolution) (rootVersion : string) : SM Planned :=
  let orgId := ac_orgId (bi_actor input) in
  plan ← on_host (bd_plan {| pi_root := (bi_packageName input, rootVersion); pi_orgId := orgId;
                             pi_closure := (λ r, ga_closure (gr_authorize r)) <$> resolution |});
  let toInstall := List.filter (λ m, negb (pm_alreadyInstalled m)) (dp_ordered plan) in
  let alreadyInstalled := map pm_packageName (List.filter pm_alreadyInstalled (dp_ordered plan)) in
  active ← on_ledger listActiveInstallBatches;
  let plannedNames := map pm_packageName (dp_ordered plan) in
  match overlapping orgId plannedNames active with
  | Some b => throw (sx_overlap (ib_batchId b) (ib_rootPackage b) (dedup (overlap_of plannedNames b)))
  | None =>
      match toInstall with
      | [m] =>
          if pm_packageName m ≟ bi_packageName input then
            mret {| pl_plan := plan; pl_batch := None; pl_toInstall := toInstall; pl_alreadyInstalled := alreadyInstalled |}
          else begin_batch (bi_packageName input) orgId plan toInstall alreadyInstalled
      | _ => begin_batch (bi_packageName input) orgId plan toInstall alreadyInstalled
      end
  end.

(** ** The members, one after the other *)

(** What is installed under the grant; a throw ends in the compensation. *)
Definition install_member (input : BatchInstallInput) (rootVersion : string) (batch : InstallBatch E)
    (resolution : option Resolution) (m : PlannedMember) : SM (option Resolution) :=
  resolution ← check_grant resolution (bi_packageName input) rootVersion;
  _ ← on_ledger (updateInstallBatchMember (ib_batchId batch) (pm_packageName m) (status_patch bs_installing));
  _ ← on_host (bd_installMember (ref_of m) (bi_actor input));
  mret resolution.

Definition record_installed (orgId : option string) (batch : InstallBatch E) (m : PlannedMember) : SM unit :=
  op ← catch (on_host (bd_readInstallOp (pm_packageName m) orgId));
  _ ← on_ledger (updateInstallBatchMember (ib_batchId batch) (pm_packageName m)
        {| mp_status := bs_installed; mp_detail := None;
           mp_installOpId := match op with Ok (Some (id, _)) => Some id | _ => None end |});
  mret ().

(** [installedThisBatch] grows as soon as a member is installed. *)
Fixpoint install_members (input : BatchInstallInput) (rootVersion : string) (batch : InstallBatch E)
    (resolution : option Resolution) (installedThisBatch toInstall : list PlannedMember) : SM (list PlannedMember) :=
  match toInstall with
  | [] => mret installedThisBatch
  | m :: rest =>
      r ← catch (install_member input rootVersion batch resolution m);
      match r with
      | Err e => abortAndCompensate batch (bi_actor input) installedThisBatch (pm_packageName m) e
      | Ok resolution =>
          let installedThisBatch := installedThisBatch ++ [m] in
          r ← catch (record_installed (ac_orgId (bi_actor input)) batch m);
          match r with
          | Err e => abortAndCompensate batch (bi_actor input) installedThisBatch (pm_packageName m) e
          | Ok _ => install_members input rootVersion batch resolution installedThisBatch rest
          end
      end
  end.

Definition named_version (m : PlannedMember) : string * string := (pm_packageName m, pm_version m).

(** A package with nothing else to install has no ledger row. *)
Definition install_root_only (input : BatchInstallInput) (planned : Planned) : SM BatchInstallResult :=
  match pl_toInstall planned with
  | [] => throw sx_type_error
  | root :: _ =>
      _ ← on_host (bd_installMember (ref_of root) (bi_actor input));
      _ ← maybeReloadAgentRuntime [root];
      mret {| br_rootPackage := bi_packageName input; br_rootVersion := pm_version root;
              br_installed := [named_version root]; br_alreadyInstalled := pl_alreadyInstalled planned;
              br_batchId := None |}
  end.

Definition install_batch (input : BatchInstallInput) (rootVersion : string) (resolution : option Resolution)
    (planned : Planned) (batch : InstallBatch E) : SM BatchInstallResult :=
  installedThisBatch ← install_members input rootVersion batch resolution [] (pl_toInstall planned);
  r ← catch (on_ledger (setInstallBatchPhase (ib_batchId batch) ip_finalized));
  match r with
  | Err e => abortAndCompensate batch (bi_actor input) installedThisBatch (bi_packageName input) e
  | Ok _ =>
      _ ← maybeReloadAgentRuntime installedThisBatch;
      mret {| br_rootPackage := bi_packageName input;
              br_rootVersion := match find_member (dp_ordered (pl_plan planned)) (bi_packageName input) with
                                | Some m => pm_version m | None => rootVersion end;
              br_installed := map named_version installedThisBatch; br_alreadyInstalled := pl_alreadyInstalled planned;
              br_batchId := Some (ib_batchId batch) |}
  end.

Definition run_batch (input : BatchInstallInput) (rootVersion : string) (resolution : option Resolution)
    : SM BatchInstallResult :=
  planned ← plan_batch input resolution rootVersion;
  match pl_batch planned with
  | None => install_root_only input planned
  | Some batch => install_batch input rootVersion resolution planned batch
  end.

(** The grant is the caller's, when the caller already authorized this root. *)
Definition root_resolution (input : BatchInstallInput) : SM (option Resolution) :=
  if negb bd_isGatekeptInstallEnabled then mret None
  else match bd_getActiveGrantContext with
       | Some (root, resolution) =>
           if root ≟ bi_packageName input then mret (Some resolution)
           else resolution ← on_host (bd_authorizeRoot (bi_packageName input) (bi_version input)); mret (Some resolution)
       | None => resolution ← on_host (bd_authorizeRoot (bi_packageName input) (bi_version input)); mret (Some resolution)
       end.

Definition installExtensionWithDependencies (input : BatchInstallInput) : SM BatchInstallResult :=
  resolution ← root_resolution input;
  let rootVersion := match resolution with
                     | Some r => ga_resolvedVersion (gr_authorize r)
                     | None => bi_version input ?? "latest" end in
  run_batch input rootVersion resolution.

(** ** The sweep at boot *)

Definition sweeper_actor : Actor := {| ac_orgId := None; ac_userId := None; ac_source := "worker" |}.

Definition sweep_candidate (m : InstallBatchMember E) : bool :=
  negb (bp_present (im_preState m)) && bool_decide (im_status m ∈ [bs_installed; bs_installing]).

(** The accumulated number is [failures]. *)
Definition sweep_member (batch : InstallBatch E) (failures : nat) (m : InstallBatchMember E) : SM nat :=
  r ← catch (on_host (bd_uninstallMember {| mr_typeId := im_typeId m; mr_packageName := im_packageName m;
                                            mr_version := im_version m |} sweeper_actor);;
             on_ledger (updateInstallBatchMember (ib_batchId batch) (im_packageName m) (status_patch bs_compensated)));
  match r with
  | Ok _ => mret failures
  | Err e =>
      _ ← catch (on_ledger (updateInstallBatchMember (ib_batchId batch) (im_packageName m)
                              (detail_patch bs_compensation_failed e)));
      mret (S failures)
  end.

Definition sweep_batch (swept : nat) (batch : InstallBatch E) : SM nat :=
  failures ← each (sweep_member batch) (List.filter sweep_candidate (reverse (ib_members batch))) O;
  _ ← catch (on_ledger (setInstallBatchPhase (ib_batchId batch)
                          (match failures with O => ip_compensated | _ => ip_failed end)));
  mret (S swept).

Definition sweepStaleInstallBatches (olderThanMs : option Z) : SM nat :=
  stale ← on_ledger (listStaleInstallBatches (olderThanMs ?? 300000));
  each sweep_batch stale O.

(** ** What the host promises

    [present org h p]: the organization sees a live row of package [p].  Installing
    or uninstalling a package touches that package only, whatever becomes of the
    call; installing that succeeds makes it present, uninstalling that succeeds
    removes it, for everyone.  The other calls touch no package.  [Dispatcher] shows
    how far the dispatcher keeps these laws. *)

Definition same_host (present : option string → Host → string → bool) (h h' : Host) : Prop :=
  ∀ org q, present org h' q = present org h q.
Definition off_package (present : option string → Host → string → bool) (p : string) (h h' : Host) : Prop :=
  ∀ org q, q ≠ p → present org h' q = present org h q.

Definition reads_host {A} (present : option string → Host → string → bool) (m : CM Host E A) (Q : Host → A → Prop) : Prop :=
  ∀ h, runs m h (λ a h', same_host present h h' ∧ Q h a) (λ _, same_host present h) (same_host present h).

Definition names_of (plan : DependencyInstallPlan) : list string := map pm_packageName (dp_ordered plan).

Class BatchHost (present : option string → Host → string → bool) := {
  bh_install m actor h : runs (bd_installMember m actor) h
    (λ _ h', off_package present (mr_packageName m) h h' ∧ present (ac_orgId actor) h' (mr_packageName m) = true)
    (λ _, off_package present (mr_packageName m) h) (off_package present (mr_packageName m) h);
  bh_uninstall m actor h : runs (bd_uninstallMember m actor) h
    (λ _ h', off_package present (mr_packageName m) h h' ∧ ∀ org, present org h' (mr_packageName m) = false)
    (λ _, off_package present (mr_packageName m) h) (off_package present (mr_packageName m) h);
  bh_live p org : reads_host present (bd_readLiveRowVersion p org) (λ h row, lr_present row = present org h p);
  bh_op p org : reads_host present (bd_readInstallOp p org) (λ _ _, True);
  bh_authorize p v : reads_host present (bd_authorizeRoot p v) (λ _ _, True);
  bh_refresh r root : reads_host present (bd_refreshGrant r root) (λ _ _, True);
  bh_reload : reads_host present bd_triggerAgentRuntimeReload (λ _ _, True);
  (** Each package is planned once; the root last, and to be installed. *)
  bh_plan input : reads_host present (bd_plan input) (λ _ plan, NoDup (names_of plan) ∧ ∃ m,
    last (dp_ordered plan) = Some m ∧ pm_packageName m = fst (pi_root input) ∧ pm_alreadyInstalled m = false)
}.

Section proofs.
Context (present : option string → Host → string → bool) {laws : BatchHost present}.

(** What differs, for the organization, between the host then and now. *)
Definition changed (org : option string) (w0 w : World) (q : string) : Prop :=
  present org (w_host w) q ≠ present org (w_host w0) q.

Definition beside (w w' : World) : Prop := w_host w' = w_host w ∧ w_reloads w' = w_reloads w.
Definition alike (w w' : World) : Prop :=
  same_host present (w_host w) (w_host w') ∧ w_ledger w' = w_ledger w ∧ w_reloads w' = w_reloads w.

Lemma alike_refl w : alike w w. Proof. by split_and!. Qed.
Lemma alike_trans w1 w2 w3 : alike w1 w2 → alike w2 w3 → alike w1 w3.
Proof. intros (Hh1 & ? & ?) (Hh2 & ? & ?). split_and!; [|congruence..]. intros org q. by rewrite Hh2. Qed.

Lemma runs_host {A} (m : CM Host E A) w (Q : A → World → Prop) QE C :
  runs m (w_host w) (λ a h, Q a (set_host h w)) (λ e h, QE (sx_host e) (set_host h w)) (λ h, C (set_host h w)) →
  runs (on_host m) w Q QE C.
Proof. apply runs_zoom. Qed.

Lemma runs_reads {A} (m : CM Host E A) (P : Host → A → Prop) w : reads_host present m P →
  runs (on_host m) w (λ a w', alike w w' ∧ P (w_host w) a) (λ _, alike w) (alike w).
Proof.
  intros Hm. apply runs_host. eapply runs_mono; [apply Hm|..]; cbn.
  - intros a h [Hs HP]. by split_and!.
  - intros _ h Hs. by split_and!.
  - intros h Hs. by split_and!.
Qed.

(** ** The row of a batch in the ledger *)

Lemma map_own id (f : InstallBatch E → InstallBatch E) l b : id ∉ map ib_batchId l → ib_batchId b = id →
  map (λ b, if ib_batchId b ≟ id then f b else b) (l ++ [b]) = l ++ [f b].
Proof.
  intros Hl Hb. rewrite map_app. cbn. rewrite (bool_decide_true (ib_batchId b = id)) by done. f_equal.
  rewrite <- (map_id l) at 2. apply map_ext_in. intros b0 Hb0%list_elem_of_In.
  rewrite bool_decide_false; [done|]. intros <-. by apply Hl, list_elem_of_fmap_2.
Qed.

Section batch.
Context (w0 : World) (org : option string) (root id : string) (names : list string).
Context (Hid : id ∉ map ib_batchId (w_ledger w0)).

Definition owns (phase : InstallBatchPhase) (members : list (InstallBatchMember E)) (w : World) : Prop :=
  ∃ b, w_ledger w = w_ledger w0 ++ [b] ∧ ib_batchId b = id ∧ ib_rootPackage b = root ∧ ib_orgId b = org ∧
       ib_phase b = phase ∧ ib_members b = members.

Lemma update_owns f phase members phase' members' w : owns phase members w →
  (∀ now b, ib_phase b = phase → ib_members b = members → ib_batchId (f now b) = ib_batchId b ∧
     ib_rootPackage (f now b) = ib_rootPackage b ∧ ib_orgId (f now b) = ib_orgId b ∧
     ib_phase (f now b) = phase' ∧ ib_members (f now b) = members') →
  runs (on_ledger (update_batch id f)) w
    (λ _ w', owns phase' members' w' ∧ beside w w')
    (λ _ w', (owns phase members w' ∨ owns phase' members' w') ∧ beside w w')
    (λ w', owns phase members w' ∧ beside w w').
Proof.
  intros Ho Hf. pose proof Ho as (b & El & Eid & Er & Eo & Ep & Em). apply runs_zoom.
  assert (Hsame : owns phase members (set_ledger (w_ledger w) w)) by (by exists b).
  apply runs_statement; [by split|by intros e; split; [left|]|].
  intros now i. cbn. rewrite El, (map_own _ _ _ _ Hid Eid). destruct (Hf now b Ep Em) as (Fid & Fr & Fo & Fp & Fm).
  assert (Hnew : owns phase' members' (set_ledger (w_ledger w0 ++ [f now b]) w)).
  { exists (f now b). split_and!; try done; congruence. }
  split; [by intros e; split; [right|]|]. unfold find_batch. destruct (List.find _ _); [|done]. by split.
Qed.

Lemma set_phase_owns phase phase' members w : owns phase members w →
  runs (on_ledger (setInstallBatchPhase id phase')) w
    (λ _ w', owns phase' members w' ∧ beside w w')
    (λ _ w', (owns phase members w' ∨ owns phase' members w') ∧ beside w w')
    (λ w', owns phase members w' ∧ beside w w').
Proof. intros Ho. apply update_owns; [done|]. by intros now b Hp Hm. Qed.

Lemma find_own l b : id ∉ map ib_batchId l → ib_batchId b = id → find_batch (E := E) id (l ++ [b]) = Some b.
Proof.
  intros Hl Hb. unfold find_batch. induction l as [|x l IH]; cbn; [by rewrite bool_decide_true|].
  cbn in Hl. rewrite not_elem_of_cons in Hl. destruct Hl. rewrite bool_decide_false by done. by apply IH.
Qed.

Lemma update_member_owns phase members name patch w : owns phase members w →
  runs (on_ledger (updateInstallBatchMember id name patch)) w
    (λ _ w', owns phase (patch_members name patch members) w' ∧ beside w w')
    (λ _ w', (owns phase members w' ∨ owns phase (patch_members name patch members) w') ∧ beside w w')
    (λ w', owns phase members w' ∧ beside w w').
Proof.
  intros Ho. pose proof Ho as (b & El & Eid & Er & Eo & Ep & Em).
  pose proof (update_owns (with_members (patch_members name patch members)) phase members phase
    (patch_members name patch members) w Ho) as Hu.
  intros [|n]; cbn; [by split; [exists b|]|].
  unfold on_ledger, zoom, updateInstallBatchMember, readInstallBatch, read. unfold mbind, CM_bind. cbn.
  destruct (fault_at (S n)) as [|e|e]; cbn; [|by split; [left; exists b|]|by split; [left; exists b|]].
  rewrite El, find_own by done. rewrite <- El, Em. apply Hu. by intros now b0 Hp Hm.
Qed.

(** ** What the ledger knows *)

(** The members and what was there before, in the order of the plan. *)
Definition shape (members : list (InstallBatchMember E)) : Prop :=
  map (λ m, (im_packageName m, bp_present (im_preState m))) members
  = map (λ n, (n, present org (w_host w0) n)) names.

Definition leaves_trace (s : BatchMemberStatus) : Prop :=
  s = bs_installing ∨ s = bs_installed ∨ s = bs_failed ∨ s = bs_compensation_failed.

(** A member in a status that tells its package may not be as before. *)
Definition traced (members : list (InstallBatchMember E)) (q : string) : Prop :=
  ∃ m, m ∈ members ∧ im_packageName m = q ∧ leaves_trace (im_status m).

Definition tracked (w : World) : Prop :=
  ∃ phase members, owns phase members w ∧ shape members ∧ ∀ q, changed org w0 w q → traced members q.

Lemma shape_patch name patch members : shape members → shape (patch_members name patch members).
Proof.
  unfold shape, patch_members. intros <-. rewrite map_map. apply map_ext. intros m. by destruct (im_packageName m ≟ name).
Qed.

Lemma shape_pre members m : shape members → m ∈ members →
  im_packageName m ∈ names ∧ bp_present (im_preState m) = present org (w_host w0) (im_packageName m).
Proof.
  intros Hs Hm. apply (list_elem_of_fmap_2 (λ m, (im_packageName m, bp_present (im_preState m)))) in Hm.
  change ((im_packageName m, bp_present (im_preState m)) ∈ map (λ m, (im_packageName m, bp_present (im_preState m))) members) in Hm.
  rewrite Hs in Hm. apply list_elem_of_fmap in Hm as (n & [= -> ->] & Hn). done.
Qed.

Lemma shape_member members n : shape members → n ∈ names → ∃ m, m ∈ members ∧ im_packageName m = n.
Proof.
  intros Hs Hn. apply (list_elem_of_fmap_2 (λ n, (n, present org (w_host w0) n))) in Hn.
  change ((n, present org (w_host w0) n) ∈ map (λ n, (n, present org (w_host w0) n)) names) in Hn. rewrite <- Hs in Hn.
  apply list_elem_of_fmap in Hn as (m & [= -> _] & Hm). by exists m.
Qed.

Lemma pre_present_shape members n : shape members → n ∈ names → pre_present members n = present org (w_host w0) n.
Proof.
  intros Hs Hn. unfold pre_present. destruct (List.find _ members) as [m|] eqn:Ef.
  - apply find_some in Ef as [Hm%list_elem_of_In Eq]. bprop. subst n. by destruct (shape_pre members m Hs Hm).
  - destruct (shape_member members n Hs Hn) as (m & Hm & Eq).
    pose proof (find_none _ _ Ef m (proj1 (list_elem_of_In _ _) Hm)) as Hno. cbn in Hno. by bprop.
Qed.

Lemma traced_patch name patch members q : traced members q → (q = name → leaves_trace (mp_status patch)) →
  traced (patch_members name patch members) q.
Proof.
  intros (m & Hm & Eq & Hl) Hn. exists (if im_packageName m ≟ name then patch_member patch m else m).
  split; [apply list_elem_of_fmap; by exists m|]. case_bool_decide as Ed; [|done]. split_and!; try done.
  cbn. apply Hn. congruence.
Qed.

Lemma traced_now name patch members : shape members → name ∈ names →
  leaves_trace (mp_status patch) → traced (patch_members name patch members) name.
Proof.
  intros Hs Hn Hl. destruct (shape_member members name Hs Hn) as (m & Hm & Eq).
  exists (patch_member patch m). split_and!; try done. apply list_elem_of_fmap. exists m. by rewrite bool_decide_true.
Qed.

(** A write of the ledger keeps the trace of what changed. *)
Lemma tracked_beside phase members w w' : owns phase members w' → shape members → beside w w' →
  (∀ q, changed org w0 w q → traced members q) → tracked w'.
Proof.
  intros Ho Hs [Hh _] Ht. exists phase, members. split_and!; try done. intros q. unfold changed. rewrite Hh. apply Ht.
Qed.

Lemma tracked_same w w' : tracked w → alike w w' → tracked w'.
Proof.
  intros (ph & ms & (b & El & Hb) & Hs & Ht) (Hh & Ell & _). exists ph, ms. split_and!; [|done|].
  - exists b. by rewrite Ell.
  - intros q. unfold changed. rewrite Hh. apply Ht.
Qed.
(** A patch with a status that leaves a trace keeps the batch tracked, come what may. *)
Lemma patch_tracked phase members name patch w : owns phase members w → shape members →
  (∀ q, changed org w0 w q → traced members q) → (changed org w0 w name → leaves_trace (mp_status patch)) →
  runs (on_ledger (updateInstallBatchMember id name patch)) w
    (λ _ w', tracked w' ∧ beside w w') (λ _ w', tracked w' ∧ beside w w') (λ w', tracked w' ∧ beside w w').
Proof.
  intros Ho Hs Ht Hn.
  assert (Hold : ∀ w', owns phase members w' ∧ beside w w' → tracked w' ∧ beside w w')
    by (intros w' [Ho' Hb]; split; [by eapply tracked_beside|done]).
  assert (Hnew : ∀ w', owns phase (patch_members name patch members) w' ∧ beside w w' → tracked w' ∧ beside w w').
  { intros w' [Ho' Hb]. split; [|done]. eapply tracked_beside; [done|by apply shape_patch|done|].
    intros q Hq. apply traced_patch; [by apply Ht|]. intros ->. by apply Hn. }
  eapply runs_mono; [by apply update_member_owns|..]; cbn; [auto| |auto]. intros _ w' [[?|?] ?]; auto.
Qed.

Lemma phase_tracked phase' w : tracked w →
  runs (on_ledger (setInstallBatchPhase id phase')) w
    (λ _ w', tracked w' ∧ beside w w') (λ _ w', tracked w' ∧ beside w w') (λ w', tracked w' ∧ beside w w').
Proof.
  intros (ph & ms & Ho & Hs & Ht).
  assert (Hany : ∀ ph' w', owns ph' ms w' ∧ beside w w' → tracked w' ∧ beside w w')
    by (intros ph' w' [Ho' Hb]; split; [by eapply tracked_beside|done]).
  eapply runs_mono; [by apply set_phase_owns|..]; cbn; [eauto| |eauto]. intros _ w' [[?|?] ?]; eauto.
Qed.

(** ** Compensation *)

(** What the loop over [left] keeps; it cannot mend what the installer of [member] left. *)
Definition compensating (reloads : nat) (member : string) (installed left : list string)
    (acc : list string * list string) (w : World) : Prop :=
  tracked w ∧ w_reloads w = reloads ∧ left ⊆ installed ∧ acc.1 ⊆ installed ∧
  (∀ q, changed org w0 w q → q ∈ left ∨ q ∈ acc.2 ∨ (q = member ∧ q ∉ installed)) ∧
  NoDup left ∧ (∀ q, q ∈ left → q ∈ names ∧ present org (w_host w) q = true).

Lemma compensating_beside r member installed l acc w w' : compensating r member installed l acc w → tracked w' → beside w w' →
  compensating r member installed l acc w'.
Proof.
  intros (_ & Hr & Hl & Hi & Hc & Hnd & Ha) Ht [Hh Hr']. unfold compensating, changed. rewrite Hh, Hr'. by split_and!.
Qed.

Lemma off_changed p w h : off_package present p (w_host w) h → ∀ q, changed org w0 (set_host h w) q → q = p ∨ changed org w0 w q.
Proof.
  intros Ho q. unfold changed. cbn. destruct (decide (q = p)); [by left|]. rewrite Ho by done. by right.
Qed.

(** The uninstall of a member that was not there. *)
Lemma uninstall_tracked m actor w : tracked w → (mr_packageName m) ∈ names →
  present org (w_host w0) (mr_packageName m) = false → present org (w_host w) (mr_packageName m) = true →
  runs (on_host (bd_uninstallMember m actor)) w
    (λ _ w', tracked w' ∧ ¬ changed org w0 w' (mr_packageName m) ∧ off_package present (mr_packageName m) (w_host w) (w_host w') ∧ w_reloads w' = w_reloads w)
    (λ _ w', tracked w' ∧ off_package present (mr_packageName m) (w_host w) (w_host w') ∧ w_reloads w' = w_reloads w)
    tracked.
Proof.
  intros (ph & ms & Ho & Hs & Ht) Hn Hp Hnow.
  assert (Htk : ∀ h, off_package present (mr_packageName m) (w_host w) h → tracked (set_host h w)).
  { intros h Hoff. exists ph, ms. split_and!; [by destruct Ho as (b & ?); exists b|done|].
    intros q [->|Hq]%(off_changed _ _ _ Hoff); [apply Ht; unfold changed; by rewrite Hnow, Hp|by apply Ht]. }
  apply runs_host. eapply runs_mono; [apply bh_uninstall|..]; cbn.
  - intros _ h [Hoff Hgone]. split_and!; [by apply Htk|intros Hc; apply Hc; cbn; by rewrite Hgone, Hp|done|done].
  - intros _ h Hoff. split_and!; [by apply Htk|done|done].
  - intros h Hoff. by apply Htk.
Qed.

Lemma compensating_next r member installed m left c f c' f' w w' : compensating r member installed (m :: left) (c, f) w → tracked w' →
  off_package present m (w_host w) (w_host w') → w_reloads w' = w_reloads w → f ⊆ f' → c' ⊆ m :: c →
  (changed org w0 w' m → m ∈ f') → compensating r member installed left (c', f') w'.
Proof.
  intros (_ & Hr & Hl & Hi & Hc & [Hm Hnd]%NoDup_cons & Ha) Ht Hoff Hr' Hsub Hsub' Hin.
  split_and!; [done|congruence|set_solver|cbn in *; set_solver| |done|].
  - intros q Hq. destruct (decide (q = m)) as [->|Hne]; [right; left; by apply Hin|]. unfold changed in Hq. rewrite Hoff in Hq by done.
    destruct (Hc q Hq) as [[->|?]%elem_of_cons|[?|?]]; [done|by left|right; left; by apply Hsub|by right; right].
  - intros q Hq. destruct (Ha q) as [? ?]; [by right|]. split; [done|]. rewrite Hoff; [done|]. by intros ->.
Qed.

(** A write of the ledger whose failure is ignored. *)
Lemma patch_caught name patch w : tracked w → (changed org w0 w name → leaves_trace (mp_status patch)) →
  runs (catch (on_ledger (updateInstallBatchMember id name patch))) w
    (λ _ w', tracked w' ∧ beside w w') (λ _ _, False) tracked.
Proof.
  intros (ph & ms & Ho & Hs & Ht) Hn. apply runs_catch. eapply runs_mono; [by eapply patch_tracked|..]; cbn; [done..|].
  by intros w' [? _].
Qed.

Lemma phase_caught phase w : tracked w →
  runs (catch (on_ledger (setInstallBatchPhase id phase))) w (λ _ w', tracked w' ∧ beside w w') (λ _ _, False) tracked.
Proof.
  intros Ht. apply runs_catch. eapply runs_mono; [by eapply phase_tracked|..]; cbn; [done..|]. by intros w' [? _].
Qed.

Lemma compensate_failed r member installed m left c f e w w' : compensating r member installed (m :: left) (c, f) w → tracked w' →
  off_package present m (w_host w) (w_host w') → w_reloads w' = w_reloads w →
  runs (_ ← catch (on_ledger (updateInstallBatchMember id m (detail_patch bs_compensation_failed e)));
        mret (c, f ++ [m])) w'
    (λ acc, compensating r member installed left acc) (λ _ _, False) tracked.
Proof.
  intros Hi Ht Hoff Hr. apply runs_bind. eapply runs_mono; [apply patch_caught; [done|by right; right; right]|..]; [|done|done].
  intros _ w2 (Ht2 & Hh & Hr2). apply runs_ret. eapply compensating_next; [exact Hi|done|by rewrite Hh|congruence|set_solver..].
Qed.

Lemma compensate_step batch actor r member installed m left acc w : ib_batchId batch = id → shape (ib_members batch) →
  compensating r member installed (pm_packageName m :: left) acc w →
  runs (compensate_member batch actor acc m) w (λ acc', compensating r member installed left acc') (λ _ _, False) tracked.
Proof.
  intros Eid Hs Hi. destruct acc as [c f]. unfold compensate_member.
  pose proof Hi as (Ht & Hr & _ & _ & Hc & Hnd & Ha). destruct (Ha (pm_packageName m)) as [Hn Hnow]; [left|].
  rewrite (pre_present_shape _ _ Hs Hn), Eid. destruct (present org (w_host w0) (pm_packageName m)) eqn:Ep.
  - apply runs_ret. eapply compensating_next; [exact Hi|done|done|done|done|set_solver|]. unfold changed. by rewrite Hnow, Ep.
  - apply runs_bind, runs_catch, runs_bind. eapply runs_mono; [by apply (uninstall_tracked (ref_of m) actor)|..]; cbn.
    + intros _ w1 (Ht1 & Hgone & Hoff & Hr1). pose proof Ht1 as (ph & ms & Ho & Hs1 & Htr).
      eapply runs_mono; [by eapply patch_tracked; [exact Ho|..]|..]; cbn.
      * intros _ w2 (Ht2 & Hh & Hr2). apply runs_ret.
        eapply compensating_next; [exact Hi|done|by rewrite Hh|congruence|done|set_solver|]. unfold changed. by rewrite Hh.
      * intros e w2 (Ht2 & Hh & Hr2). eapply compensate_failed; [exact Hi|done|by rewrite Hh|congruence].
      * by intros w2 [? _].
    + intros e w1 (Ht1 & Hoff & Hr1). by eapply compensate_failed.
    + done.
Qed.

(** What is left of a batch that failed at [member]: only packages it could not
    uninstall, and what the installer of [member] itself left behind. *)
Definition rolled_back (member : string) (compensated failures : list string) (w : World) : Prop :=
  ∀ q, changed org w0 w q → q ∈ failures ∨ (q = member ∧ q ∉ compensated).

Lemma abort_spec {A} batch actor installed member cause w : ib_batchId batch = id → shape (ib_members batch) →
  tracked w → NoDup (map pm_packageName installed) → member ∈ names →
  (∀ q, q ∈ map pm_packageName installed → q ∈ names ∧ present org (w_host w) q = true) →
  (∀ q, changed org w0 w q → q ∈ map pm_packageName installed ∨ q = member) →
  runs (abortAndCompensate (A := A) batch actor installed member cause) w (λ _ _, False)
    (λ e w', tracked w' ∧ w_reloads w' = w_reloads w ∧ ∃ compensated failures,
       e = (if is_requires_rebuild cause then cause else sx_batch member compensated failures cause) ∧
       rolled_back member compensated failures w')
    tracked.
Proof.
  intros Eid Hs Ht Hnd Hm Hin Hch. unfold abortAndCompensate. rewrite Eid.
  assert (Hi : compensating (w_reloads w) member (map pm_packageName installed) (map pm_packageName (reverse installed)) ([], []) w).
  { assert (Hrev : map pm_packageName (reverse installed) = reverse (map pm_packageName installed)) by apply fmap_reverse.
    rewrite Hrev. split_and!; [done|done|intros q; by rewrite reverse_Permutation|by intros q ?%elem_of_nil| |by rewrite reverse_Permutation|intros q; rewrite reverse_Permutation; apply Hin].
    intros q Hq. rewrite reverse_Permutation. destruct (decide (q ∈ map pm_packageName installed)); [by left|].
    right; right. split; [|done]. by destruct (Hch q Hq). }
  apply runs_bind. eapply runs_mono; [apply patch_caught; [done|by right; right; left]|..]; [|done|done].
  intros _ w1 [Ht1 Hb1]. pose proof (compensating_beside _ _ _ _ _ _ _ Hi Ht1 Hb1) as Hi1.
  apply runs_bind. eapply runs_mono; [by apply phase_caught|..]; [|done|done].
  intros _ w2 [Ht2 Hb2]. pose proof (compensating_beside _ _ _ _ _ _ _ Hi1 Ht2 Hb2) as Hi2.
  apply runs_bind. eapply runs_mono.
  { apply (runs_each _ (λ l acc, compensating (w_reloads w) member (map pm_packageName installed) (map pm_packageName l) acc)); [exact Hi2|].
    intros m l acc w' _ Hi'. by apply compensate_step. }
  2: done. 2: done.
  intros [c f] w3 Hi3. apply runs_bind. eapply runs_mono; [apply phase_caught, Hi3|..]; [|done|done].
  intros _ w4 [Ht4 Hb4]. destruct (compensating_beside _ _ _ _ _ _ _ Hi3 Ht4 Hb4) as (_ & Hr4 & _ & Hsub & Hc4 & _).
  assert (Hrb : rolled_back member c f w4)
    by (intros q Hq; destruct (Hc4 q Hq) as [?%elem_of_nil|[?|[? ?]]]; [done|by left|right; set_solver]).
  assert (Hend : ∃ compensated failures, (if is_requires_rebuild cause then cause else sx_batch member c f cause) =
    (if is_requires_rebuild cause then cause else sx_batch member compensated failures cause) ∧
    rolled_back member compensated failures w4) by (by exists c, f).
  destruct (is_requires_rebuild cause); by apply runs_throw.
Qed.

(** ** The members *)

Definition installed_so_far (reloads : nat) (installed : list string) (w : World) : Prop :=
  tracked w ∧ w_reloads w = reloads ∧
  ∀ q, present org (w_host w) q = present org (w_host w0) q || bool_decide (q ∈ installed).

Lemma installed_changed r installed w q : installed_so_far r installed w → changed org w0 w q → q ∈ installed.
Proof.
  intros (_ & _ & Hp) Hq. unfold changed in Hq. rewrite Hp in Hq. destruct (decide (q ∈ installed)); [done|].
  rewrite bool_decide_false, orb_false_r in Hq; done.
Qed.

Lemma installed_there r installed w q : installed_so_far r installed w → q ∈ installed → present org (w_host w) q = true.
Proof. intros (_ & _ & ->) Hq. by rewrite bool_decide_true, orb_true_r. Qed.

Lemma installed_beside r installed w w' : installed_so_far r installed w → tracked w' → beside w w' →
  installed_so_far r installed w'.
Proof. intros (_ & Hr & Hp) Ht [Hh Hr']. split_and!; [done|congruence|]. intros q. by rewrite Hh. Qed.

Lemma installed_alike r installed w w' : installed_so_far r installed w → alike w w' → installed_so_far r installed w'.
Proof.
  intros (Ht & Hr & Hp) Ha. split_and!; [by eapply tracked_same|destruct Ha as (_ & _ & ?); congruence|].
  intros q. destruct Ha as [Hh _]. by rewrite Hh.
Qed.

Lemma check_grant_alike resolution rootPackage rootVersion w :
  runs (check_grant resolution rootPackage rootVersion) w (λ _, alike w) (λ _, alike w) (alike w).
Proof.
  destruct resolution as [r|]; [|apply runs_ret, alike_refl]. cbn.
  destruct (Date_parse _) as [t|]; [|apply runs_throw, alike_refl].
  apply runs_bind, runs_ask. intros n. destruct (_ <? _); [|apply runs_ret, alike_refl].
  apply runs_bind. eapply runs_mono; [apply (runs_reads _ _ _ (bh_refresh _ _))|..]; cbn; [|done|done].
  intros refreshed w' [Ha _]. destruct (same_closure _ _); [by apply runs_ret|by apply runs_throw].
Qed.

(** The install of one member, up to the call of the dispatcher. *)
Lemma install_member_spec input rootVersion batch resolution m r installed w : ib_batchId batch = id →
  ac_orgId (bi_actor input) = org → pm_packageName m ∈ names → installed_so_far r installed w →
  runs (install_member input rootVersion batch resolution m) w
    (λ _ w', installed_so_far r (installed ++ [pm_packageName m]) w')
    (λ _ w', tracked w' ∧ w_reloads w' = r ∧ off_package present (pm_packageName m) (w_host w) (w_host w'))
    tracked.
Proof.
  intros Eid Eo Hm Hi. unfold install_member. rewrite Eid.
  assert (Hoff : ∀ w', same_host present (w_host w) (w_host w') → off_package present (pm_packageName m) (w_host w) (w_host w'))
    by (intros w' Hs o q _; apply Hs).
  apply runs_bind. eapply runs_mono; [apply check_grant_alike|..]; cbn.
  2,3: intros; by destruct (installed_alike _ _ _ _ Hi H) as (? & ? & _); destruct H as (? & _); auto.
  intros res w1 Ha1. pose proof (installed_alike _ _ _ _ Hi Ha1) as Hi1.
  pose proof Hi1 as ((ph & ms & Ho & Hs & Ht) & Hr1 & Hp1). pose proof Ha1 as (Hh1 & _ & _).
  apply runs_bind. eapply runs_mono; [by apply update_member_owns|..]; cbn.
  - intros _ w2 (Ho2 & Hb2). set (ms2 := patch_members _ _ ms) in Ho2. pose proof Hb2 as [Hh2 Hr2].
    assert (Htr : ∀ h, off_package present (pm_packageName m) (w_host w2) h → tracked (set_host h w2)).
    { intros h Hoffh. exists ph, ms2. split_and!; [by destruct Ho2 as (b & ?); exists b|by apply shape_patch|].
      intros q [->|Hq]%(off_changed _ _ _ Hoffh); [by apply traced_now; [| |left]|].
      apply traced_patch; [|by left]. apply Ht. unfold changed in *. by rewrite <- Hh2. }
    apply runs_bind, runs_host. eapply runs_mono; [apply bh_install|..]; cbn.
    + intros _ h [Hoffh Hthere]. apply runs_ret. split_and!; [by apply Htr|cbn; congruence|]. intros q. cbn.
      destruct (decide (q = pm_packageName m)) as [->|Hne].
      * rewrite <- Eo, Hthere, bool_decide_true, orb_true_r; [done|]. apply elem_of_app. right. left.
      * rewrite Hoffh, Hh2, Hp1 by done. f_equal. apply bool_decide_ext. rewrite elem_of_app, list_elem_of_singleton. tauto.
    + intros _ h Hoffh. split_and!; [by apply Htr|congruence|]. intros o q Hq. cbn. by rewrite Hoffh, Hh2, Hh1.
    + intros h Hoffh. by apply Htr.
  - assert (Htr : ∀ ms', shape ms' → ∀ w2, owns ph ms' w2 ∧ beside w1 w2 → (∀ q, changed org w0 w1 q → traced ms' q) →
      tracked w2 ∧ w_reloads w2 = r ∧ off_package present (pm_packageName m) (w_host w) (w_host w2)).
    { intros ms' Hs' w2 [Ho2 [Hh2 Hr2]] Ht'. split_and!; [by eapply tracked_beside|congruence|]. rewrite Hh2. by apply Hoff. }
    intros _ w2 [[Ho2|Ho2] Hb2]; [by apply (Htr ms)|]. eapply Htr; [by apply shape_patch|by split|].
    intros q Hq. apply traced_patch; [by apply Ht|by left].
  - intros w2 [Ho2 Hb2]. by eapply tracked_beside.
Qed.

Lemma record_installed_spec batch m r installed w : ib_batchId batch = id → installed_so_far r installed w →
  runs (record_installed org batch m) w
    (λ _, installed_so_far r installed) (λ _, installed_so_far r installed) tracked.
Proof.
  intros Eid Hi. unfold record_installed. rewrite Eid. apply runs_bind, runs_catch.
  assert (Hnext : ∀ op w1, installed_so_far r installed w1 →
    runs (_ ← on_ledger (updateInstallBatchMember id (pm_packageName m)
        {| mp_status := bs_installed; mp_detail := None; mp_installOpId := op |}); mret ()) w1
      (λ _, installed_so_far r installed) (λ _, installed_so_far r installed) tracked).
  { intros op w1 Hi1. pose proof Hi1 as ((ph & ms & Ho & Hs & Ht) & _).
    apply runs_bind. eapply runs_mono; [by eapply patch_tracked; [| | |right; left]|..]; cbn.
    - intros _ w2 [Ht2 Hb2]. apply runs_ret. by eapply installed_beside.
    - intros _ w2 [Ht2 Hb2]. by eapply installed_beside.
    - by intros w2 [? _]. }
  eapply runs_mono; [apply (runs_reads _ _ _ (bh_op _ _))|..]; cbn.
  - intros op w1 [Ha _]. apply Hnext. by eapply installed_alike.
  - intros _ w1 Ha. apply Hnext. by eapply installed_alike.
  - intros w1 Ha. eapply tracked_same; [apply Hi|done].
Qed.

(** How a batch ends when it does not succeed. *)
Definition aborted (r : nat) (e : saga_exn E) (w : World) : Prop :=
  tracked w ∧ w_reloads w = r ∧ ∃ member compensated failures cause,
    e = (if is_requires_rebuild cause then cause else sx_batch member compensated failures cause) ∧
    rolled_back member compensated failures w.

Lemma install_members_spec input rootVersion batch resolution installed toInstall r w : ib_batchId batch = id →
  shape (ib_members batch) → ac_orgId (bi_actor input) = org → NoDup (map pm_packageName (installed ++ toInstall)) →
  (∀ m, m ∈ installed ++ toInstall → pm_packageName m ∈ names) → installed_so_far r (map pm_packageName installed) w →
  runs (install_members input rootVersion batch resolution installed toInstall) w
    (λ all w', all = installed ++ toInstall ∧ installed_so_far r (map pm_packageName all) w')
    (aborted r) tracked.
Proof.
  intros Eid Hs Eo. revert resolution installed w. induction toInstall as [|m rest IH]; intros resolution installed w Hnd Hin Hi; cbn [install_members].
  { apply runs_ret. by rewrite app_nil_r. }
  assert (Happ : installed ++ m :: rest = (installed ++ [m]) ++ rest) by by rewrite <- app_assoc.
  assert (Hmap : map pm_packageName (installed ++ [m]) = map pm_packageName installed ++ [pm_packageName m]) by by rewrite map_app.
  assert (Hm : pm_packageName m ∈ names) by (apply Hin; rewrite elem_of_app; right; left).
  assert (Hnd1 : NoDup (map pm_packageName (installed ++ [m]))) by (rewrite Happ, map_app in Hnd; by apply NoDup_app in Hnd as [? _]).
  apply runs_bind, runs_catch. eapply runs_mono; [by apply install_member_spec|..]; cbn.
  - intros res w1 Hi1. rewrite <- Hmap in Hi1. apply runs_bind, runs_catch. rewrite Eo.
    eapply runs_mono; [by apply record_installed_spec|..]; cbn.
    + intros _ w2 Hi2. rewrite Happ in *. by apply IH.
    + intros e w2 Hi2. pose proof Hi2 as (Ht2 & Hr2 & _). eapply runs_mono; [apply (abort_spec _ _ (installed ++ [m])); try done|..].
      * intros q Hq. split; [|by eapply installed_there]. apply list_elem_of_fmap in Hq as (m' & -> & Hm'). apply Hin.
        rewrite Happ. apply elem_of_app. by left.
      * intros q Hq. left. by eapply installed_changed.
      * done.
      * intros e' w3 (Ht3 & Hr3 & c & f & -> & Hrb). split_and!; [done|congruence|]. by eexists _, _, _, _.
      * done.
    + done.
  - intros e w1 (Ht1 & Hr1 & Hoff). eapply runs_mono; [apply (abort_spec _ _ installed); try done|..].
    + rewrite map_app in Hnd. by apply NoDup_app in Hnd as [? _].
    + intros q Hq. assert (q ≠ pm_packageName m).
      { intros ->. rewrite Hmap in Hnd1. apply NoDup_app in Hnd1 as (_ & Hd & _). apply (Hd _ Hq). left. }
      split; [|rewrite Hoff by done; by eapply installed_there]. apply list_elem_of_fmap in Hq as (m' & -> & Hm').
      apply Hin, elem_of_app. by left.
    + intros q Hq. destruct (decide (q = pm_packageName m)); [by right|]. left. eapply installed_changed; [done|].
      unfold changed in *. by rewrite <- Hoff.
    + done.
    + intros e' w3 (Ht3 & Hr3 & c & f & -> & Hrb). split_and!; [done|congruence|]. by eexists _, _, _, _.
    + done.
  - done.
Qed.
End batch.

(** ** A whole install *)

Definition batch_names (b : InstallBatch E) : list string := ib_rootPackage b :: map im_packageName (ib_members b).

(** No active batch of the organization plans one of [names]. *)
Definition clear_of (org : option string) (names : list string) (l : list (InstallBatch E)) : Prop :=
  ∀ b n, b ∈ l → is_active b = true → ib_orgId b = org → n ∈ batch_names b → n ∉ names.

(** The state a call leaves, however it ends: nothing is recorded and the root alone
    may differ, or a row tells each package that may. *)
Definition recoverable (org : option string) (root : string) (w0 w : World) : Prop :=
  (w_ledger w = w_ledger w0 ∧ ∀ q, changed org w0 w q → q = root) ∨
  (∃ id names, id ∉ map ib_batchId (w_ledger w0) ∧ NoDup names ∧ root ∈ names ∧
     clear_of org names (w_ledger w0) ∧ tracked w0 org root id names w).

(** How a call that throws leaves the host. *)
Definition undone (org : option string) (root : string) (w0 : World) (e : saga_exn E) (w : World) : Prop :=
  recoverable org root w0 w ∧ w_reloads w = w_reloads w0 ∧
  ((∀ q, ¬ changed org w0 w q) ∨
   (w_ledger w = w_ledger w0 ∧ ∀ q, changed org w0 w q → q = root) ∨
   (∃ member compensated failures cause,
      e = (if is_requires_rebuild cause then cause else sx_batch member compensated failures cause) ∧
      rolled_back w0 org member compensated failures w)).

Definition installs (org : option string) (root : string) (w0 : World) (r : BatchInstallResult) (w : World) : Prop :=
  let installed := map fst (br_installed r) in
  recoverable org root w0 w ∧ clear_of org installed (w_ledger w0) ∧ NoDup installed ∧ last installed = Some root ∧
  (∀ q, present org (w_host w) q = present org (w_host w0) q || bool_decide (q ∈ installed)) ∧
  (w_reloads w <= S (w_reloads w0))%nat ∧
  match br_batchId r with
  | None => w_ledger w = w_ledger w0 ∧ installed = [root]
  | Some id => ∃ b, w_ledger w = w_ledger w0 ++ [b] ∧ ib_batchId b = id ∧ ib_phase b = ip_finalized
  end.

Section install.
Context (w0 : World) (org : option string) (root : string).

Lemma alike_unchanged w q : alike w0 w → ¬ changed org w0 w q.
Proof. intros [Hh _] Hq. by apply Hq. Qed.

Lemma alike_recoverable w : alike w0 w → recoverable org root w0 w.
Proof. intros Ha. left. split; [apply Ha|]. intros q Hq. by apply alike_unchanged in Hq. Qed.

Lemma alike_undone e w : alike w0 w → undone org root w0 e w.
Proof. intros Ha. split; [by apply alike_recoverable|]. split; [apply Ha|]. left. intros q. by apply alike_unchanged. Qed.

Lemma overlapping_clear names active : overlapping org names active = None →
  (∀ b, b ∈ w_ledger w0 → is_active b = true → b ∈ active) → clear_of org names (w_ledger w0).
Proof.
  intros Hf Hall b n Hb Ha Ho Hn Hin. pose proof (find_none _ _ Hf b) as Hno. cbv beta in Hno.
  assert (Hov : n ∈ overlap_of names b) by (apply filter_in; split; [done|by apply bool_decide_eq_true]).
  rewrite bool_decide_true, (bool_decide_false (overlap_of names b = [])) in Hno; [|by intros E0; rewrite E0 in Hov; apply elem_of_nil in Hov|done].
  discriminate Hno. by apply list_elem_of_In, Hall.
Qed.

Lemma ledger_members_spec (l : list PlannedMember) w : alike w0 w →
  runs (each (ledger_member org) l []) w
    (λ members w', alike w0 w' ∧ shape w0 org (map pm_packageName l) members)
    (λ _, alike w0) (alike w0).
Proof.
  intros Ha.
  pose (I := λ (left : list PlannedMember) (members : list (InstallBatchMember E)) w', alike w0 w' ∧
    ∃ before, l = before ++ left ∧ shape w0 org (map pm_packageName before) members).
  eapply runs_mono; [apply (runs_each _ I (λ _, alike w0) (alike w0))|..]; cbn; [|..|done|done].
  - split; [done|]. by exists [].
  - intros m left members w' _ (Ha' & before & El & Hs). unfold ledger_member.
    apply runs_bind. eapply runs_mono; [apply (runs_reads _ _ _ (bh_live _ _))|..]; cbn.
    2,3: intros; by eapply alike_trans.
    intros row w1 [Ha1 Hrow]. apply runs_bind. eapply runs_mono; [apply (runs_reads _ _ _ (bh_op _ _))|..]; cbn.
    2,3: intros; by eapply alike_trans; [|eapply alike_trans].
    intros op w2 [Ha2 _]. apply runs_ret. split; [by eapply alike_trans; [|eapply alike_trans]|].
    exists (before ++ [m]). rewrite <- app_assoc. split; [done|]. unfold shape in *. rewrite !map_app, Hs. cbn.
    do 3 f_equal. rewrite Hrow. by destruct Ha' as [-> _].
  - intros members w' (Ha' & before & El & Hs). rewrite app_nil_r in El. by subst before.
Qed.

Lemma begin_batch_spec plan toInstall alreadyInstalled w : alike w0 w → NoDup (names_of plan) → root ∈ names_of plan →
  clear_of org (names_of plan) (w_ledger w0) →
  runs (begin_batch root org plan toInstall alreadyInstalled) w
    (λ p w', pl_plan p = plan ∧ pl_toInstall p = toInstall ∧ ∃ batch, pl_batch p = Some batch ∧
       ib_batchId batch ∉ map ib_batchId (w_ledger w0) ∧ shape w0 org (names_of plan) (ib_members batch) ∧
       installed_so_far w0 org root (ib_batchId batch) (names_of plan) (w_reloads w0) [] w')
    (undone org root w0) (recoverable org root w0).
Proof.
  intros Ha Hnd Hr Hc. unfold begin_batch. apply runs_bind.
  eapply runs_mono; [by apply ledger_members_spec|..]; cbn; [|by intros; apply alike_undone|apply alike_recoverable].
  intros members w1 [Ha1 Hs]. apply runs_bind, runs_ask. intros n. set (id := bd_randomUUID n).
  apply runs_bind, runs_zoom. pose proof Ha1 as (Hh1 & Hl1 & Hr1).
  assert (Hback : set_ledger (w_ledger w1) w1 = w1) by by destruct w1.
  apply runs_statement; rewrite ?Hback; [by apply alike_recoverable|by intros; apply alike_undone|].
  intros now i. rewrite Hl1. destruct (existsb _ _) eqn:Eclash.
  { split; [|done]. intros e. rewrite <- Hl1, Hback. by apply alike_undone. }
  set (b := {| ib_batchId := id |}). set (w2 := set_ledger (w_ledger w0 ++ [b]) w1).
  assert (Hid : id ∉ map ib_batchId (w_ledger w0)).
  { intros (b0 & Eb & Hb0)%list_elem_of_fmap. apply not_true_iff_false in Eclash. apply Eclash, existsb_exists. exists b0.
    split; [by apply list_elem_of_In|]. by rewrite bool_decide_true. }
  assert (Hsame : ∀ w, same_host present (w_host w0) (w_host w) → ∀ q, ¬ changed org w0 w q) by (intros w3 Hs3 q Hq; by apply Hq).
  assert (Ht : ∀ ph w, owns w0 org root id ph members w → beside w2 w → tracked w0 org root id (names_of plan) w).
  { intros ph w3 Ho [Hh3 _]. exists ph, members. split_and!; [done|done|]. intros q Hq. exfalso. apply (Hsame w3) in Hq; [done|]. by rewrite Hh3. }
  assert (Ho2 : owns w0 org root id ip_planning members w2) by by exists b.
  assert (Hrec : ∀ ph w, owns w0 org root id ph members w ∧ beside w2 w → recoverable org root w0 w)
    by (intros ph w3 [Ho Hb]; right; exists id, (names_of plan); split_and!; eauto).
  assert (Hund : ∀ ph e w, owns w0 org root id ph members w ∧ beside w2 w → undone org root w0 e w).
  { intros ph e w3 [Ho Hb]. split; [by eapply Hrec|]. destruct Hb as [Hh3 Hr3]. split; [by rewrite Hr3|]. left. apply Hsame. by rewrite Hh3. }
  split; [intros e; by apply (Hund ip_planning)|]. apply runs_bind. cbn [ib_batchId b].
  eapply runs_mono; [by apply set_phase_owns|..]; cbn; [|by intros e w3 [[?|?] ?]; eapply Hund|by apply Hrec].
  intros _ w3 [Ho3 Hb3]. apply runs_ret. split_and!; [done|done|]. exists b. split_and!; try done.
  split_and!; [by eapply Ht|by destruct Hb3 as [_ ->]|]. intros q. rewrite bool_decide_false, orb_false_r by apply not_elem_of_nil.
  destruct Hb3 as [-> _]. apply Hh1.
Qed.

Lemma plan_batch_spec input resolution rootVersion w : alike w0 w → ac_orgId (bi_actor input) = org →
  bi_packageName input = root →
  runs (plan_batch input resolution rootVersion) w
    (λ p w', NoDup (map pm_packageName (pl_toInstall p)) ∧
       (∃ m, last (pl_toInstall p) = Some m ∧ pm_packageName m = root) ∧
       clear_of org (map pm_packageName (pl_toInstall p)) (w_ledger w0) ∧
       match pl_batch p with
       | None => alike w0 w' ∧ ∃ m, pl_toInstall p = [m]
       | Some batch => ∃ names, (∀ m, m ∈ pl_toInstall p → pm_packageName m ∈ names) ∧ NoDup names ∧ root ∈ names ∧
           clear_of org names (w_ledger w0) ∧ ib_batchId batch ∉ map ib_batchId (w_ledger w0) ∧
           shape w0 org names (ib_members batch) ∧
           installed_so_far w0 org root (ib_batchId batch) names (w_reloads w0) [] w'
       end)
    (undone org root w0) (recoverable org root w0).
Proof.
  intros Ha Eo Er. unfold plan_batch. rewrite Eo, Er. apply runs_bind.
  eapply runs_mono; [apply (runs_reads _ _ _ (bh_plan _))|..]; cbn.
  2: { intros. apply alike_undone. by eapply alike_trans. }
  2: { intros. apply alike_recoverable. by eapply alike_trans. }
  intros plan w1 (Ha1 & Hnd & root_m & Hl & Hrn & Hra). pose proof (alike_trans _ _ _ Ha Ha1) as Ha1'. clear Ha Ha1 w.
  pose proof Ha1' as (_ & Hl1 & _). assert (Hback : set_ledger (w_ledger w1) w1 = w1) by by destruct w1.
  apply runs_bind, runs_zoom, runs_read; rewrite ?Hback; [by apply alike_recoverable|by intros; apply alike_undone|].
  rewrite Hl1. set (active := order_by _ _). set (todo := List.filter _ (dp_ordered plan)).
  assert (Hall : ∀ b, b ∈ w_ledger w0 → is_active b = true → b ∈ active).
  { intros b Hb Hab. unfold active, order_by. rewrite merge_sort_Permutation. by apply filter_in. }
  destruct (overlapping _ _ _) as [b|] eqn:Eov; [by apply runs_throw, alike_undone|].
  assert (Hclear : clear_of org (names_of plan) (w_ledger w0)) by (by eapply overlapping_clear).
  apply last_Some in Hl as [before Hl].
  assert (Htodo : todo = List.filter (λ m, negb (pm_alreadyInstalled m)) before ++ [root_m])
    by (unfold todo; rewrite Hl, List.filter_app; cbn; by rewrite Hra).
  assert (Hlast : ∃ m, last todo = Some m ∧ pm_packageName m = root) by (exists root_m; by rewrite Htodo, last_snoc).
  assert (Hndt : NoDup (map pm_packageName todo)) by by apply NoDup_map_filter.
  assert (Hroot : root ∈ names_of plan) by (rewrite <- Hrn; apply list_elem_of_fmap_2; rewrite Hl; apply elem_of_app; right; left).
  assert (Hsub : ∀ q, q ∈ map pm_packageName todo → q ∈ names_of plan)
    by (intros q (m & -> & Hm)%list_elem_of_fmap; apply list_elem_of_fmap_2; by apply filter_in in Hm as [? _]).
  assert (Hct : clear_of org (map pm_packageName todo) (w_ledger w0))
    by (intros b n Hb Hab Ho Hn Hin; by eapply Hclear, Hsub).
  assert (Hbegin : runs (begin_batch root org plan todo (map pm_packageName (List.filter pm_alreadyInstalled (dp_ordered plan)))) w1
    (λ p w', NoDup (map pm_packageName (pl_toInstall p)) ∧
       (∃ m, last (pl_toInstall p) = Some m ∧ pm_packageName m = root) ∧
       clear_of org (map pm_packageName (pl_toInstall p)) (w_ledger w0) ∧
       match pl_batch p with
       | None => alike w0 w' ∧ ∃ m, pl_toInstall p = [m]
       | Some batch => ∃ names, (∀ m, m ∈ pl_toInstall p → pm_packageName m ∈ names) ∧ NoDup names ∧ root ∈ names ∧
           clear_of org names (w_ledger w0) ∧ ib_batchId batch ∉ map ib_batchId (w_ledger w0) ∧
           shape w0 org names (ib_members batch) ∧
           installed_so_far w0 org root (ib_batchId batch) names (w_reloads w0) [] w'
       end) (undone org root w0) (recoverable org root w0)).
  { eapply runs_mono; [by apply begin_batch_spec|..]; cbn; [|done|done].
    intros p w2 (Ep & Et & batch & -> & Hid & Hs & Hi). rewrite Et. split_and!; [done|done|done|]. exists (names_of plan).
    split_and!; try done. intros m Hm. apply Hsub. by apply list_elem_of_fmap_2. }
  clearbody todo. destruct todo as [|m [|m' rest]]; try exact Hbegin. case_bool_decide; [|exact Hbegin].
  apply runs_ret. cbn. split_and!; [done|done|done|done|by exists m].
Qed.

Lemma runs_count w (Q : () → World → Prop) QE C :
  Q () {| w_host := w_host w; w_ledger := w_ledger w; w_reloads := S (w_reloads w) |} → runs count_reload w Q QE C.
Proof. by intros HQ n. Qed.

Lemma reload_spec toReload w : runs (maybeReloadAgentRuntime toReload) w
  (λ _ w', same_host present (w_host w) (w_host w') ∧ w_ledger w' = w_ledger w ∧ (w_reloads w' <= S (w_reloads w))%nat)
  (λ _ _, False)
  (λ w', same_host present (w_host w) (w_host w') ∧ w_ledger w' = w_ledger w).
Proof.
  unfold maybeReloadAgentRuntime. destruct (existsb _ _); [|apply runs_ret; split_and!; [done|done|lia]].
  apply runs_bind, runs_catch, runs_bind, runs_count.
  eapply runs_mono; [apply (runs_reads _ _ _ bh_reload)|..]; cbn.
  - intros _ w' ((? & El & Er) & _). apply runs_ret. rewrite El, Er. by split_and!.
  - intros _ w' (? & El & Er). apply runs_ret. rewrite El, Er. by split_and!.
  - intros w' (? & ? & _). by split_and!.
Qed.

Lemma install_root_spec input planned m w : alike w0 w → ac_orgId (bi_actor input) = org →
  pl_toInstall planned = [m] → pm_packageName m = root → clear_of org [root] (w_ledger w0) →
  runs (install_root_only input planned) w (installs org root w0) (undone org root w0) (recoverable org root w0).
Proof.
  intros Ha Eo Et Er Hcl. unfold install_root_only. rewrite Et. pose proof Ha as (Hh & Hl & Hr).
  assert (Hoff : ∀ h, off_package present root (w_host w) h → ∀ q, changed org w0 (set_host h w) q → q = root).
  { intros h Hoff q Hq. destruct (decide (q = root)); [done|]. exfalso. apply Hq. cbn. by rewrite Hoff, Hh. }
  apply runs_bind, runs_host. eapply runs_mono; [apply bh_install|..]; cbn; rewrite Er.
  - intros _ h [Ho Hp]. apply runs_bind. eapply runs_mono; [apply reload_spec|..]; cbn; [|done|].
    + intros _ w2 (Hh2 & Hl2 & Hr2). apply runs_ret. unfold installs. cbn. rewrite Er.
      split_and!; [|done|apply NoDup_singleton|done| |lia|congruence|done].
      { left. split; [congruence|]. intros q Hq. apply (Hoff h Ho). unfold changed in *. cbn. by rewrite <- Hh2. }
      intros q. rewrite Hh2. destruct (decide (q = root)) as [->|Hne].
      * rewrite <- Eo, Hp, bool_decide_true, orb_true_r; [done|left].
      * rewrite Ho, Hh, bool_decide_false, orb_false_r; [done|by intros ->%list_elem_of_singleton|done].
    + intros w2 [Hh2 Hl2]. left. split; [congruence|]. intros q Hq. apply (Hoff h Ho). unfold changed in *. cbn. by rewrite <- Hh2.
  - intros e h Ho. split; [left; split; [done|by apply Hoff]|]. split; [done|]. right; left. split; [done|]. by apply Hoff.
  - intros h Ho. left. split; [done|]. by apply Hoff.
Qed.

Lemma install_batch_spec input rootVersion resolution planned batch names w : ac_orgId (bi_actor input) = org →
  bi_packageName input = root → NoDup (map pm_packageName (pl_toInstall planned)) →
  (∃ m, last (pl_toInstall planned) = Some m ∧ pm_packageName m = root) →
  clear_of org (map pm_packageName (pl_toInstall planned)) (w_ledger w0) →
  (∀ m, m ∈ pl_toInstall planned → pm_packageName m ∈ names) → NoDup names → root ∈ names →
  clear_of org names (w_ledger w0) → ib_batchId batch ∉ map ib_batchId (w_ledger w0) →
  shape w0 org names (ib_members batch) →
  installed_so_far w0 org root (ib_batchId batch) names (w_reloads w0) [] w →
  runs (install_batch input rootVersion resolution planned batch) w
    (installs org root w0) (undone org root w0) (recoverable org root w0).
Proof.
  intros Eo Er Hnd Hlast Hct Hin Hndn Hroot Hclear Hid Hs Hi.
  assert (Hrec : ∀ w, tracked w0 org root (ib_batchId batch) names w → recoverable org root w0 w)
    by (intros w1 Ht; right; by exists (ib_batchId batch), names).
  assert (Hab : ∀ e w, aborted w0 org root (ib_batchId batch) names (w_reloads w0) e w → undone org root w0 e w)
    by (intros e w1 (? & Hr & H); split; [by apply Hrec|]; split; [done|]; by right; right).
  unfold install_batch. apply runs_bind. eapply runs_mono; [by apply install_members_spec|..]; cbn; [|done|done].
  intros installed w1 [-> Hi1]. pose proof Hi1 as ((ph & ms & Ho & Hs1 & Ht1) & Hr1 & Hp1).
  apply runs_bind, runs_catch. eapply runs_mono; [by apply set_phase_owns|..]; cbn.
  - intros _ w2 [Ho2 [Hh2 Hr2]]. apply runs_bind. eapply runs_mono; [apply reload_spec|..]; cbn; [|done|].
    + intros _ w3 (Hh3 & Hl3 & Hr3). apply runs_ret. unfold installs. cbn.
      assert (Hfst : map fst (map named_version (pl_toInstall planned)) = map pm_packageName (pl_toInstall planned))
        by (rewrite map_map; by apply map_ext).
      rewrite Hfst. split_and!; [|done|done| | |lia|].
      * apply Hrec. exists ip_finalized, ms. split_and!; [|done|].
        -- destruct Ho2 as (b & El & ?). exists b. by rewrite Hl3.
        -- intros q Hq. apply Ht1. unfold changed in *. by rewrite <- Hh2, <- Hh3.
      * destruct Hlast as (m & Hl & Hm). change (map pm_packageName (pl_toInstall planned)) with (pm_packageName <$> pl_toInstall planned).
        by rewrite fmap_last, Hl, <- Hm.
      * intros q. by rewrite Hh3, Hh2, Hp1.
      * destruct Ho2 as (b & El & Hb & _ & _ & Hph & _). exists b. split_and!; [congruence|done|done].
    + intros w3 [Hh3 Hl3]. apply Hrec. exists ip_finalized, ms. split_and!; [|done|].
      * destruct Ho2 as (b & El & ?). exists b. by rewrite Hl3.
      * intros q Hq. apply Ht1. unfold changed in *. by rewrite <- Hh2, <- Hh3.
  - intros e w2 [Ho2 Hb2]. assert (Ht2 : tracked w0 org root (ib_batchId batch) names w2)
      by (destruct Ho2; by eapply tracked_beside).
    pose proof (installed_beside _ _ _ _ _ _ _ _ _ Hi1 Ht2 Hb2) as Hi2.
    eapply runs_mono; [eapply (abort_spec _ _ _ (ib_batchId batch) names Hid _ _ (pl_toInstall planned)); try done|..].
    + by rewrite Er.
    + intros q Hq. split; [|by eapply installed_there]. apply list_elem_of_fmap in Hq as (m & -> & Hm). by apply Hin.
    + intros q Hq. left. by eapply installed_changed.
    + done.
    + intros e' w3 (Ht3 & Hr3 & c & f & -> & Hrb). apply Hab. split_and!; [done|destruct Hb2; congruence|]. by eexists _, _, _, _.
    + apply Hrec.
  - intros w2 [Ho2 Hb2]. apply Hrec. by eapply tracked_beside.
Qed.

(** Every call ends in one of three ways, whatever fails and wherever it stops. *)
Lemma install_ends input : ac_orgId (bi_actor input) = org → bi_packageName input = root →
  runs (installExtensionWithDependencies input) w0 (installs org root w0) (undone org root w0) (recoverable org root w0).
Proof.
  intros Eo Er. unfold installExtensionWithDependencies. apply runs_bind.
  assert (Hauth : runs (resolution ← on_host (bd_authorizeRoot (bi_packageName input) (bi_version input)); mret (Some resolution)) w0
    (λ (_ : option Resolution), alike w0) (λ _, alike w0) (alike w0)).
  { apply runs_bind. eapply runs_mono; [apply (runs_reads _ _ _ (bh_authorize _ _))|..]; cbn; [|done|done].
    intros r w [Ha _]. by apply runs_ret. }
  assert (Hres : runs (root_resolution input) w0 (λ _, alike w0) (λ _, alike w0) (alike w0)).
  { unfold root_resolution. destruct bd_isGatekeptInstallEnabled; [|apply runs_ret, alike_refl]. cbn [negb].
    destruct bd_getActiveGrantContext as [[r res]|]; [|exact Hauth].
    destruct (r ≟ bi_packageName input); [apply runs_ret, alike_refl|exact Hauth]. }
  eapply runs_mono; [exact Hres|..]; cbn; [|by intros; apply alike_undone|by apply alike_recoverable].
  intros resolution w Ha. unfold run_batch. apply runs_bind.
  eapply runs_mono; [by apply plan_batch_spec|..]; cbn; [|done|done].
  intros planned w1 (Hnd & Hlast & Hct & Hp). destruct (pl_batch planned) as [batch|].
  - destruct Hp as (names & Hin & Hndn & Hroot & Hclear & Hid & Hs & Hi). by eapply install_batch_spec.
  - destruct Hp as (Ha1 & m & Et). rewrite Et in Hlast, Hct. destruct Hlast as (m' & [= <-] & Hm). cbn in Hct. rewrite Hm in Hct.
    by eapply install_root_spec.
Qed.
End install.

(** ** The sweep *)

Section sweep.
Context (w0 : World) (org : option string) (root id : string) (names : list string).
Context (Hid : id ∉ map ib_batchId (w_ledger w0)) (Hnd : NoDup names).

Abbreviation tracked := (tracked w0 org root id names).
Abbreviation owns := (owns w0 org root id).
Abbreviation shape := (shape w0 org names).
Abbreviation differs := (changed org w0).

(** A member whose own failure was recorded: the sweep does not come back to it. *)
Definition gave_up (members : list (InstallBatchMember E)) (q : string) : Prop :=
  ∃ m, m ∈ members ∧ im_packageName m = q ∧ (im_status m = bs_failed ∨ im_status m = bs_compensation_failed).

(** The packages that were there are as in [w1]. *)
Definition untouched (w1 w : World) : Prop :=
  ∀ q, present org (w_host w0) q = true → present org (w_host w) q = present org (w_host w1) q.

(** What the loop over [left] keeps of the world [w1] and the members it found. *)
Definition sweeping (phase : InstallBatchPhase) (found : list (InstallBatchMember E)) (w1 : World) (left : list string)
    (failures : nat) (w : World) : Prop :=
  (∃ members, owns phase members w ∧ shape members ∧ (∀ q, differs w q → traced members q) ∧
     ∀ q, q ∈ left → traced members q) ∧
  NoDup left ∧ (∀ q, q ∈ left → q ∈ names ∧ present org (w_host w0) q = false) ∧
  untouched w1 w ∧
  (∀ q, present org (w_host w0) q = false → differs w q → q ∈ left ∨ failures ≠ O ∨ gave_up found q).

Lemma sweeping_tracked ph found w1 left f w : sweeping ph found w1 left f w → tracked w.
Proof. intros ((ms & ? & ? & ? & _) & _). by exists ph, ms. Qed.

Lemma traced_other name patch members q : q ≠ name → traced members q → traced (patch_members name patch members) q.
Proof. intros Hne Ht. apply traced_patch; [done|]. by intros ->. Qed.

(** After a turn: the uninstall was called, and the ledger may have been written. *)
Lemma sweeping_next ph found w1 m left f f' w w' members : sweeping ph found w1 (m :: left) f w →
  owns ph members w' → shape members → (∀ q, differs w' q → traced members q) → (∀ q, q ∈ left → traced members q) →
  off_package present m (w_host w) (w_host w') → (f ≠ O → f' ≠ O) → (differs w' m → f' ≠ O) →
  sweeping ph found w1 left f' w'.
Proof.
  intros (_ & [Hm Hndl]%NoDup_cons & Hl & Hp & Hc) Ho Hs Ht Hl' Hoff Hf Hch. split_and!.
  - by exists members.
  - done.
  - intros q Hq. apply Hl. by right.
  - intros q Hq. rewrite Hoff; [by apply Hp|]. intros ->. destruct (Hl m) as [_ E0]; [left|congruence].
  - intros q Hq Hcq. destruct (decide (q = m)) as [->|Hne]; [right; left; by apply Hch|].
    assert (Hcq' : differs w q) by (unfold changed in *; by rewrite <- Hoff).
    destruct (Hc q Hq Hcq') as [[->|?]%elem_of_cons|[?|?]]; [done|by left|right; left; auto|by right; right].
Qed.

Lemma sweep_member_spec ph found w1 batch m left f w : ib_batchId batch = id →
  sweeping ph found w1 (im_packageName m :: left) f w →
  runs (sweep_member batch f m) w (λ f', sweeping ph found w1 left f') (λ _ _, False) (λ w, tracked w ∧ untouched w1 w).
Proof.
  intros Eid Hi. unfold sweep_member. rewrite Eid. set (name := im_packageName m) in *.
  pose proof Hi as ((ms & Ho & Hs & Ht & Htl) & [Hm Hndl]%NoDup_cons & Hl & Hu & _).
  destruct (Hl name) as [Hn Hp]; [left|].
  assert (Hcr : ∀ w3, tracked w3 → off_package present name (w_host w) (w_host w3) → tracked w3 ∧ untouched w1 w3).
  { intros w3 Ht3 Hoff. split; [done|]. intros q Hq. rewrite Hoff; [by apply Hu|]. by intros ->; congruence. }
  assert (Hback : ∀ h, off_package present name (w_host w) h → ∀ q, differs (set_host h w) q → traced ms q).
  { intros h Hoff q [->|Hq]%(off_changed _ _ _ _ _ Hoff); [apply Htl; left|by apply Ht]. }
  assert (Howns : ∀ h, owns ph ms (set_host h w)) by (intros h; destruct Ho as (b & ?); by exists b).
  (** Recording the failure of this member. *)
  assert (Hfail : ∀ e w2, off_package present name (w_host w) (w_host w2) →
    (∃ ms2, owns ph ms2 w2 ∧ shape ms2 ∧ (∀ q, differs w2 q → traced ms2 q) ∧ ∀ q, q ∈ left → traced ms2 q) →
    runs (_ ← catch (on_ledger (updateInstallBatchMember id name (detail_patch bs_compensation_failed e))); mret (S f)) w2
      (λ f', sweeping ph found w1 left f') (λ _ _, False) (λ w, tracked w ∧ untouched w1 w)).
  { intros e w2 Hoff (ms2 & Ho2 & Hs2 & Ht2 & Hl2). apply runs_bind, runs_catch.
    assert (Hend : ∀ ms3 w3, owns ph ms3 w3 → beside w2 w3 → shape ms3 → (∀ q, traced ms2 q → traced ms3 q) →
      sweeping ph found w1 left (S f) w3).
    { intros ms3 w3 Ho3 [Hh3 _] Hs3 Htr. eapply sweeping_next; [exact Hi|exact Ho3|done| | |by rewrite Hh3|done|done].
      - intros q Hq. apply Htr, Ht2. unfold changed in *. by rewrite <- Hh3.
      - intros q Hq. by apply Htr, Hl2. }
    assert (Hpatch : ∀ q, traced ms2 q → traced (patch_members name (detail_patch bs_compensation_failed e) ms2) q)
      by (intros q Hq; apply traced_patch; [done|]; by right; right; right).
    eapply runs_mono; [by eapply update_member_owns|..]; cbn.
    - intros _ w3 [Ho3 Hb3]. apply runs_ret. eapply Hend; [exact Ho3|done|by apply shape_patch|done].
    - intros _ w3 [[Ho3|Ho3] Hb3]; apply runs_ret; (eapply Hend; [exact Ho3|done|by try apply shape_patch|done]).
    - intros w3 [Ho3 Hb3]. apply Hcr; [by eapply tracked_beside|]. destruct Hb3 as [-> _]. done. }
  apply runs_bind, runs_catch, runs_bind, runs_host. eapply runs_mono; [apply bh_uninstall|..]; cbn.
  - intros _ h [Hoff Hgone]. fold name in Hoff, Hgone. set (w2 := set_host h w).
    assert (Hno : ¬ differs w2 name) by (intros Hc; apply Hc; cbn; by rewrite Hgone, Hp).
    eapply runs_mono; [by eapply update_member_owns|..]; cbn.
    + intros _ w3 [Ho3 [Hh3 _]]. apply runs_ret. eapply sweeping_next; [exact Hi|exact Ho3|by apply shape_patch| | |by rewrite Hh3|done|].
      * intros q Hq. assert (Hq2 : differs w2 q) by (unfold changed in *; by rewrite <- Hh3).
        apply traced_other; [by intros ->|by apply (Hback h)].
      * intros q Hq. apply traced_other; [by intros ->|apply Htl; by right].
      * intros Hq. exfalso. apply Hno. unfold changed in *. by rewrite <- Hh3.
    + intros e w3 [Ho3 [Hh3 _]]. apply Hfail; [by rewrite Hh3|]. destruct Ho3 as [Ho3|Ho3]; eexists; (split; [exact Ho3|]).
      * split_and!; [done| |intros q Hq; apply Htl; by right]. intros q Hq. apply (Hback h Hoff). fold w2. unfold changed in *. by rewrite <- Hh3.
      * split_and!; [by apply shape_patch| |intros q Hq; apply traced_other; [by intros ->|apply Htl; by right]].
        intros q Hq. assert (Hq2 : differs w2 q) by (unfold changed in *; by rewrite <- Hh3).
        apply traced_other; [by intros ->|by apply (Hback h)].
    + intros w3 [Ho3 [Hh3 _]]. apply Hcr; [|by rewrite Hh3]. exists ph, ms. split_and!; [done|done|]. intros q Hq. apply (Hback h Hoff). fold w2. unfold changed in *. by rewrite <- Hh3.
  - intros e h Hoff. fold name in Hoff. apply Hfail; [done|]. exists ms. split_and!; [done|done|by apply Hback|].
    intros q Hq. apply Htl. by right.
  - intros h Hoff. fold name in Hoff. apply Hcr; [|done]. exists ph, ms. split_and!; [done|done|by apply Hback].
Qed.

Lemma shape_names members : shape members → map im_packageName members = names.
Proof.
  intros Hs. apply (f_equal (map fst)) in Hs. rewrite !map_map in Hs. cbn in Hs. by rewrite map_id in Hs.
Qed.

Lemma sweep_start ph members w : owns ph members w → shape members → (∀ q, differs w q → traced members q) →
  sweeping ph members w (map im_packageName (List.filter sweep_candidate (reverse members))) O w.
Proof.
  intros Ho Hs Ht.
  assert (Hcand : ∀ q, q ∈ map im_packageName (List.filter sweep_candidate (reverse members)) ↔
    ∃ m, m ∈ members ∧ im_packageName m = q ∧ sweep_candidate m = true).
  { intros q. rewrite list_elem_of_fmap. setoid_rewrite filter_in. setoid_rewrite reverse_Permutation. naive_solver. }
  split_and!.
  - exists members. split_and!; try done. intros q (m & Hm & Eq & Hc)%Hcand. exists m. split_and!; try done.
    unfold sweep_candidate in Hc. bprop. unfold leaves_trace. set_solver.
  - apply NoDup_map_filter. change (map im_packageName (reverse members)) with (im_packageName <$> reverse members).
    rewrite reverse_Permutation. change (im_packageName <$> members) with (map im_packageName members). by rewrite shape_names.
  - intros q (m & Hm & <- & Hc)%Hcand. destruct (shape_pre _ _ _ _ _ Hs Hm) as [? <-]. unfold sweep_candidate in Hc. by bprop.
  - done.
  - intros q Hq (m & Hm & Eq & Hl)%Ht. destruct (decide (im_status m = bs_failed ∨ im_status m = bs_compensation_failed)) as [Hg|Hg].
    { right; right. by exists m. }
    left. apply Hcand. exists m. split_and!; try done. destruct (shape_pre _ _ _ _ _ Hs Hm) as [_ Hp].
    unfold sweep_candidate. rewrite Hp, Eq, Hq. cbn. apply bool_decide_eq_true. unfold leaves_trace in Hl.
    destruct (im_status m); try (by apply (bool_decide_unpack _)); exfalso; intuition done.
Qed.

(** What a sweep of the batch leaves; [phase] is the phase it was found in. *)
Definition swept (phase : InstallBatchPhase) (found : list (InstallBatchMember E)) (w1 w : World) : Prop :=
  tracked w ∧ untouched w1 w ∧
  ∀ members, owns ip_compensated members w → phase ≠ ip_compensated →
    ∀ q, present org (w_host w0) q = false → differs w q → gave_up found q.

Lemma owns_phase ph ms ph' ms' w : owns ph ms w → owns ph' ms' w → ph = ph'.
Proof. intros (b & E1 & _ & _ & _ & <- & _) (b' & E2 & _ & _ & _ & <- & _). rewrite E1 in E2. by apply app_inj_tail in E2 as [_ <-]. Qed.

Lemma sweep_batch_spec ph batch count w : ib_batchId batch = id → owns ph (ib_members batch) w → shape (ib_members batch) →
  (∀ q, differs w q → traced (ib_members batch) q) →
  runs (sweep_batch count batch) w (λ count' w', count' = S count ∧ swept ph (ib_members batch) w w') (λ _ _, False)
    (λ w', tracked w' ∧ untouched w w').
Proof.
  intros Eid Ho Hs Ht. unfold sweep_batch. rewrite Eid. set (found := ib_members batch) in *. apply runs_bind. eapply runs_mono.
  { apply (runs_each _ (λ l f, sweeping ph found w (map im_packageName l) f)); [by apply sweep_start|].
    intros m l f w' _ Hi. by apply sweep_member_spec. }
  2,3: done.
  intros f w2 Hi2. pose proof Hi2 as ((ms & Ho2 & Hs2 & Ht2 & _) & _ & _ & Hu2 & Hc2).
  assert (Hend : ∀ ph' w3, owns ph' ms w3 → beside w2 w3 → (ph' = ip_compensated → f = O ∨ ph = ip_compensated) → swept ph found w w3).
  { intros ph' w3 Ho3 Hb3 Hf. split_and!; [by eapply tracked_beside|intros q Hq; destruct Hb3 as [-> _]; by apply Hu2|].
    intros ms' Ho3' Hph q Hq Hd. assert (Hd2 : differs w2 q) by (unfold changed in *; by destruct Hb3 as [<- _]).
    destruct (Hc2 q Hq Hd2) as [?%elem_of_nil|[?|?]]; [done| |done].
    by destruct (Hf (owns_phase _ _ _ _ _ Ho3 Ho3')). }
  set (last_phase := match f with O => ip_compensated | _ => ip_failed end).
  assert (Hlast : last_phase = ip_compensated → f = O ∨ ph = ip_compensated) by (destruct f; [by left|done]).
  apply runs_bind, runs_catch. eapply runs_mono; [by apply set_phase_owns|..]; cbn.
  - intros _ w3 [Ho3 Hb3]. apply runs_ret. split; [done|]. by eapply Hend.
  - intros _ w3 [[Ho3|Ho3] Hb3]; apply runs_ret; (split; [done|]); eapply Hend; try done; by right.
  - intros w3 [Ho3 Hb3]. split; [by eapply tracked_beside|]. intros q Hq. destruct Hb3 as [-> _]. by apply Hu2.
Qed.

(** The stale batches are at most this one. *)
Lemma sweep_spec ph members older w : owns ph members w → shape members → (∀ q, differs w q → traced members q) →
  (∀ b, b ∈ w_ledger w0 → is_active b = false) →
  runs (sweepStaleInstallBatches older) w
    (λ n w', swept ph members w w' ∧ (n = O → w' = w)) (λ _ w', w' = w) (λ w', tracked w' ∧ untouched w w').
Proof.
  intros Ho Hs Ht Hinactive. pose proof Ho as (b & El & Eid & _ & _ & Ep & Em).
  assert (Hself : tracked w ∧ untouched w w) by (split; [by exists ph, members|done]).
  assert (Hback : set_ledger (w_ledger w) w = w) by by destruct w.
  unfold sweepStaleInstallBatches. apply runs_bind, runs_zoom. apply runs_statement; rewrite ?Hback; [done|done|].
  intros now i. split; [done|]. rewrite El, List.filter_app.
  assert (Hnone : List.filter (is_stale now (older ?? 300000)) (w_ledger w0) = []).
  { apply elem_of_nil_inv. intros b0 [Hb0 Hst]%filter_in. unfold is_stale in Hst. by rewrite Hinactive in Hst. }
  rewrite Hnone. cbn. destruct (is_stale _ _ b) eqn:Est.
  - cbn [each order_by]. unfold order_by. cbn. apply runs_bind. subst members. eapply runs_mono; [by apply (sweep_batch_spec ph)|..]; cbn; [|done|done].
    intros c w2 [-> Hsw]. apply runs_ret. by split.
  - cbn. apply runs_ret. split; [|done]. split_and!; [apply Hself|done|]. intros ms' Ho' Hph. by rewrite (owns_phase _ _ _ _ _ Ho Ho') in Hph.
Qed.

(** *** When nothing fails *)

Context (Hfaults : ∀ n, fault_at n = fault_none).
Context (Hanswers : ∀ m h, runs (bd_uninstallMember m sweeper_actor) h (λ _ _, True) (λ _ _, False) (λ _, True)).

Definition owned (phase : InstallBatchPhase) (w : World) : Prop := ∃ members, owns phase members w.

Lemma update_ok f phase phase' w : owned phase w →
  (∀ now b, ib_phase b = phase → ib_batchId (f now b) = ib_batchId b ∧ ib_rootPackage (f now b) = ib_rootPackage b ∧
     ib_orgId (f now b) = ib_orgId b ∧ ib_phase (f now b) = phase') →
  runs (on_ledger (update_batch id f)) w (λ _ w', owned phase' w') (λ _ _, False) (λ _, True).
Proof.
  intros (ms & b & El & Eid & Er & Eo & Ep & Em) Hf. apply runs_zoom, runs_statement_ok; [done|done|].
  intros i. cbn. rewrite El, (map_own _ _ _ _ Hid Eid). destruct (Hf (now_at i) b Ep) as (Fid & Fr & Fo & Fp).
  rewrite find_own by (done || congruence).
  exists (ib_members (f (now_at i) b)), (f (now_at i) b). split_and!; try done; congruence.
Qed.

Lemma update_member_ok phase name patch w : owned phase w →
  runs (on_ledger (updateInstallBatchMember id name patch)) w (λ _ w', owned phase w') (λ _ _, False) (λ _, True).
Proof.
  intros Ho. pose proof Ho as (ms & b & El & Eid & _).
  pose proof (update_ok (with_members (patch_members name patch (ib_members b))) phase phase w Ho) as Hu.
  intros [|n]; [done|]. unfold on_ledger, zoom, updateInstallBatchMember, readInstallBatch, read. unfold mbind, CM_bind. cbn.
  rewrite Hfaults. cbn. rewrite El, find_own by done. rewrite <- El. apply Hu. by intros now b0 Hp.
Qed.

Lemma sweep_member_ok phase batch failures m w : ib_batchId batch = id → owned phase w →
  runs (sweep_member batch failures m) w (λ f w', f = failures ∧ owned phase w') (λ _ _, False) (λ _, True).
Proof.
  intros Eid Ho. unfold sweep_member. rewrite Eid. apply runs_bind, runs_catch, runs_bind, runs_host.
  eapply runs_mono; [apply Hanswers|..]; cbn; [|done|done].
  intros _ h _. assert (Ho' : owned phase (set_host h w)) by (destruct Ho as (ms & b & ?); by exists ms, b).
  eapply runs_mono; [by apply update_member_ok|..]; cbn; [|done|done]. intros _ w2 Ho2. by apply runs_ret.
Qed.

Lemma sweep_completes ph older w : owned ph w → ph ∈ ACTIVE_BATCH_PHASES →
  (∀ b, b ∈ w_ledger w0 → is_active b = false) →
  (∀ b n, b ∈ w_ledger w → ib_updatedAt b < now_at n - Z.max 0 (older ?? 300000)) →
  runs (sweepStaleInstallBatches older) w (λ n w', n = 1%nat ∧ owned ip_compensated w') (λ _ _, False) (λ _, True).
Proof.
  intros Ho Hph Hinactive Hold. pose proof Ho as (ms & b & El & Eid & _ & _ & Ep & Em).
  assert (Hback : set_ledger (w_ledger w) w = w) by by destruct w.
  unfold sweepStaleInstallBatches. apply runs_bind, runs_zoom, runs_statement_ok; [done|done|].
  intros i. rewrite Hback, El, List.filter_app, (elem_of_nil_inv (List.filter _ (w_ledger w0))).
  2: { intros b0 [Hb0 Hst]%filter_in. unfold is_stale in Hst. by rewrite Hinactive in Hst. }
  assert (Hst : is_stale (now_at i) (older ?? 300000) b = true).
  { unfold is_stale, is_active. rewrite Ep, bool_decide_true by done. apply Z.ltb_lt, Hold. rewrite El. apply elem_of_app. right. left. }
  cbn. rewrite Hst. unfold order_by. cbn. apply runs_bind. unfold sweep_batch. rewrite Eid. apply runs_bind. eapply runs_mono.
  { apply (runs_each _ (λ _ f w', f = O ∧ owned ph w')); [done|]. intros m l f w' _ [-> Ho']. by apply sweep_member_ok. }
  2,3: done.
  intros f w2 [-> Ho2]. apply runs_bind, runs_catch. eapply runs_mono.
  { eapply (update_ok (with_phase ip_compensated) ph ip_compensated); [exact Ho2|]. by intros now b0 _. }
  2,3: done.
  intros u w3 Ho3. apply runs_ret. cbn. by apply runs_ret.
Qed.
End sweep.

(** ** What the ledger keeps apart *)

(** Batch ids are unique, and active batches of one organization share no package. *)
Definition apart (l : list (InstallBatch E)) : Prop :=
  NoDup (map ib_batchId l) ∧
  ∀ b b' n, b ∈ l → b' ∈ l → ib_batchId b ≠ ib_batchId b' → is_active b = true → is_active b' = true →
    ib_orgId b = ib_orgId b' → n ∈ batch_names b → n ∉ batch_names b'.

(** A write that ends a batch, or keeps its phase, and changes no name. *)
Definition fades (l l' : list (InstallBatch E)) : Prop :=
  Forall2 (λ b b', ib_batchId b' = ib_batchId b ∧ ib_orgId b' = ib_orgId b ∧ batch_names b' = batch_names b ∧
                   (is_active b' = true → is_active b = true)) l l'.

Lemma fades_refl l : fades l l.
Proof. apply Forall2_same_length_lookup_2; [done|]. intros i b b' ? ?. by simplify_eq. Qed.

Lemma fades_apart l l' : fades l l' → apart l → apart l'.
Proof.
  intros Hf [Hnd Hap].
  assert (Hback : ∀ b', b' ∈ l' → ∃ b, b ∈ l ∧ ib_batchId b' = ib_batchId b ∧ ib_orgId b' = ib_orgId b ∧
    batch_names b' = batch_names b ∧ (is_active b' = true → is_active b = true)).
  { intros b' [i Hi]%list_elem_of_lookup. destruct (Forall2_lookup_r _ _ _ _ _ Hf Hi) as (b & Hb & ?).
    exists b. split; [by eapply list_elem_of_lookup_2|done]. }
  assert (Hids : map ib_batchId l' = map ib_batchId l).
  { clear -Hf. induction Hf as [|b b' l l' (Eb & _) _ IH]; [done|]. cbn. by rewrite Eb, IH. }
  split; [by rewrite Hids|]. intros b1 b2 n (a1 & Ha1 & Ei1 & Eo1 & En1 & Hact1)%Hback (a2 & Ha2 & Ei2 & Eo2 & En2 & Hact2)%Hback.
  rewrite Ei1, Ei2, Eo1, Eo2, En1, En2. intros Hne H1 H2. by apply (Hap a1 a2 n); auto.
Qed.

Lemma update_fades id f w :
  (∀ now b, b ∈ w_ledger w → ib_batchId b = id → ib_batchId (f now b) = ib_batchId b ∧ ib_orgId (f now b) = ib_orgId b ∧
     batch_names (f now b) = batch_names b ∧ (is_active (f now b) = true → is_active b = true)) →
  runs (on_ledger (update_batch id f)) w (λ _ w', fades (w_ledger w) (w_ledger w'))
    (λ _ w', fades (w_ledger w) (w_ledger w')) (λ w', fades (w_ledger w) (w_ledger w')).
Proof.
  intros Hf. apply runs_zoom, runs_statement; [apply fades_refl|intros; apply fades_refl|]. intros now i. cbn.
  assert (Hfa : fades (w_ledger w) (map (λ b, if ib_batchId b ≟ id then f now b else b) (w_ledger w))).
  { unfold fades. apply Forall2_fmap_r, Forall_Forall2_diag, Forall_forall. intros b Hb. unfold compose. case_bool_decide; [by apply Hf|by split_and!]. }
  split; [done|]. by destruct (find_batch _ _).
Qed.

Lemma phase_fades id phase w : phase ∉ ACTIVE_BATCH_PHASES →
  runs (on_ledger (setInstallBatchPhase id phase)) w (λ _ w', fades (w_ledger w) (w_ledger w'))
    (λ _ w', fades (w_ledger w) (w_ledger w')) (λ w', fades (w_ledger w) (w_ledger w')).
Proof. intros Hp. apply update_fades. intros now b _ _. split_and!; try done. unfold is_active. cbn. by rewrite bool_decide_false. Qed.

Lemma patch_names name (patch : MemberPatch E) members :
  map im_packageName (patch_members name patch members) = map im_packageName members.
Proof.
  unfold patch_members. rewrite map_map. apply map_ext. intros m. by destruct (im_packageName m ≟ name).
Qed.

Lemma member_fades id name patch w : NoDup (map ib_batchId (w_ledger w)) →
  runs (on_ledger (updateInstallBatchMember id name patch)) w (λ _ w', fades (w_ledger w) (w_ledger w'))
    (λ _ w', fades (w_ledger w) (w_ledger w')) (λ w', fades (w_ledger w) (w_ledger w')).
Proof.
  intros Hnd [|n]; [apply fades_refl|].
  unfold on_ledger, zoom, updateInstallBatchMember, readInstallBatch, read. unfold mbind, CM_bind. cbn.
  destruct (fault_at (S n)); cbn; try apply fades_refl. destruct (find_batch id (w_ledger w)) as [current|] eqn:Ef; [|apply fades_refl].
  apply find_some in Ef as [Hc%list_elem_of_In Eid]. bprop.
  apply (update_fades id (with_members (patch_members name patch (ib_members current))) w). intros now b Hb Eb.
  assert (b = current) as -> by (apply (row_unique ib_batchId (w_ledger w)); congruence).
  split_and!; try done. unfold batch_names. cbn. by rewrite patch_names.
Qed.

Lemma sweep_fades older w : apart (w_ledger w) →
  runs (sweepStaleInstallBatches older) w (λ _ w', apart (w_ledger w')) (λ _ w', apart (w_ledger w')) (λ w', apart (w_ledger w')).
Proof.
  intros Hap. unfold sweepStaleInstallBatches. apply runs_bind, runs_zoom, runs_statement; [done|done|]. intros now i. split; [done|].
  assert (Hstep : ∀ batch m f w, apart (w_ledger w) →
    runs (sweep_member batch f m) w (λ _ w', apart (w_ledger w')) (λ _ _, False) (λ w', apart (w_ledger w'))).
  { intros batch m f w1 Hap1. unfold sweep_member.
    assert (Hpatch : ∀ patch w, apart (w_ledger w) →
      runs (on_ledger (updateInstallBatchMember (ib_batchId batch) (im_packageName m) patch)) w
        (λ _ w', apart (w_ledger w')) (λ _ w', apart (w_ledger w')) (λ w', apart (w_ledger w'))).
    { intros patch w2 Hap2. eapply runs_mono; [apply member_fades, Hap2|..]; cbn; eauto using fades_apart. }
    assert (Hfail : ∀ e w, apart (w_ledger w) →
      runs (_ ← catch (on_ledger (updateInstallBatchMember (ib_batchId batch) (im_packageName m) (detail_patch bs_compensation_failed e))); mret (S f)) w
        (λ _ w', apart (w_ledger w')) (λ _ _, False) (λ w', apart (w_ledger w'))).
    { intros e w2 Hap2. apply runs_bind, runs_catch. eapply runs_mono; [by apply Hpatch|..]; cbn; [..|done];
        intros; by apply runs_ret. }
    apply runs_bind, runs_catch, runs_bind, runs_host. eapply runs_mono; [apply bh_uninstall|..]; cbn.
    - intros _ h _. eapply runs_mono; [by apply Hpatch|..]; cbn; [intros; by apply runs_ret|intros; by apply Hfail|done].
    - intros e h _. by apply Hfail.
    - done. }
  eapply runs_mono; [apply (runs_each _ (λ _ _ w', apart (w_ledger w')) (λ _ _, False) (λ w', apart (w_ledger w'))); [done|]|..]; [|done..].
  intros batch l c w1 _ Hap1. unfold sweep_batch. apply runs_bind. eapply runs_mono.
  { apply (runs_each _ (λ _ _ w', apart (w_ledger w'))); [exact Hap1|]. intros m l' f w2 _ Hap2. by apply Hstep. }
  2,3: done.
  intros f w2 Hap2. apply runs_bind, runs_catch. eapply runs_mono; [apply phase_fades|..]; cbn.
  - destruct f; vm_compute; intros Hin; set_solver.
  - intros u w3 Hf. apply runs_ret. by eapply fades_apart.
  - intros u w3 Hf. apply runs_ret. by eapply fades_apart.
  - intros w3 Hf. by eapply fades_apart.
Qed.

Lemma recoverable_apart org root w0 w : recoverable org root w0 w → apart (w_ledger w0) → apart (w_ledger w).
Proof.
  intros [[-> _]|(id & names & Hid & _ & Hroot & Hclear & ph & ms & (b & El & Eid & Er & Eo & _ & Em) & Hs & _)] [Hnd Hap]; [done|].
  assert (Hn : ∀ n, n ∈ batch_names b → n ∈ names).
  { intros n [->|Hn]%elem_of_cons; [by rewrite Er|]. rewrite Em in Hn. apply list_elem_of_fmap in Hn as (m & -> & Hm).
    by destruct (shape_pre _ _ _ _ _ Hs Hm). }
  rewrite El. split.
  - rewrite map_app. apply NoDup_app. split_and!; [done| |apply NoDup_singleton]. cbn. rewrite Eid.
    by intros k Hk ->%list_elem_of_singleton.
  - intros b1 b2 n [H1| ->%list_elem_of_singleton]%elem_of_app [H2| ->%list_elem_of_singleton]%elem_of_app Hne Ha1 Ha2 Ho Hn1 Hn2.
    + by eapply (Hap b1 b2).
    + by eapply (Hclear b1 n); [..|apply Hn]; congruence.
    + eapply (Hclear b2 n); [done|done|congruence|done|by apply Hn].
    + done.
Qed.

(** ** Properties *)


(** A sweep, run to its end or not. *)
Definition sweep_run (w w' : World) : Prop := ∃ older n, w' = outcome_state (sweepStaleInstallBatches older w n).

Definition last_in_phase (phase : InstallBatchPhase) (w : World) : Prop :=
  ∃ b, last (w_ledger w) = Some b ∧ ib_phase b = phase.

Lemma ends_state {A} (o : outcome World (saga_exn E) A) (P : World → Prop) :
  ends o (λ _, P) (λ _, P) P → P (outcome_state o).
Proof. by destruct o. Qed.

Lemma sweeps_keep org root id names w0 w1 w2 : id ∉ map ib_batchId (w_ledger w0) → NoDup names →
  (∀ b, b ∈ w_ledger w0 → is_active b = false) → tracked w0 org root id names w1 → rtc sweep_run w1 w2 →
  tracked w0 org root id names w2 ∧ untouched w0 org w1 w2.
Proof.
  intros Hid Hnd Hin Ht Hs. induction Hs as [w|w1 w2 w3 (older & n & ->) _ IH]; [done|].
  assert (Hone : tracked w0 org root id names (outcome_state (sweepStaleInstallBatches older w1 n)) ∧
    untouched w0 org w1 (outcome_state (sweepStaleInstallBatches older w1 n))).
  { pose proof Ht as (ph & ms & Ho & Hsh & Htr).
    apply (ends_state _ (λ w, tracked w0 org root id names w ∧ untouched w0 org w1 w)).
    eapply ends_mono; [by apply (sweep_spec w0 org root id names Hid Hnd ph ms older w1)|..]; cbn; [|by intros _ w ->|done].
    intros _ w [(? & ? & _) _]. by split. }
  destruct Hone as [Ht2 Hu2]. destruct (IH Ht2) as [Ht3 Hu3]. split; [done|]. intros q Hq. by rewrite Hu3, Hu2.
Qed.

Lemma sweeps_nothing w1 w2 : (∀ b, b ∈ w_ledger w1 → is_active b = false) → rtc sweep_run w1 w2 → w2 = w1.
Proof.
  intros Hin Hs. induction Hs as [w|w1 w2 w3 (older & n & ->) _ IH]; [done|].
  assert (Hsame : outcome_state (sweepStaleInstallBatches older w1 n) = w1).
  { assert (Hback : set_ledger (w_ledger w1) w1 = w1) by by destruct w1.
    clear IH. apply (ends_state _ (λ w, w = w1)). revert n. unfold sweepStaleInstallBatches.
    apply runs_bind, runs_zoom, runs_statement; [done|done|]. intros now i. split; [done|].
    rewrite (elem_of_nil_inv (List.filter _ (w_ledger w1))); [by apply runs_ret|].
    intros b [Hb Hst]%filter_in. unfold is_stale in Hst. by rewrite Hin in Hst. }
  rewrite Hsame in *. by apply IH.
Qed.


(** C10: Batches stay apart: if ids are unique and active batches of one organization
    share no package, root or member, then so it is after any install and after any
    sweep, whatever fails and wherever they stop. *)
Theorem batches_apart input older w0 n : apart (w_ledger w0) →
  apart (w_ledger (outcome_state (installExtensionWithDependencies input w0 n))) ∧
  apart (w_ledger (outcome_state (sweepStaleInstallBatches older w0 n))).
Proof.
  intros Hap. split.
  - apply (ends_state _ (λ w, apart (w_ledger w))).
    eapply ends_mono; [by apply (install_ends w0 (ac_orgId (bi_actor input)) (bi_packageName input))|..]; cbn.
    + intros r w (Hr & _). by eapply recoverable_apart.
    + intros e w (Hr & _). by eapply recoverable_apart.
    + intros w Hr. by eapply recoverable_apart.
  - apply (ends_state _ (λ w, apart (w_ledger w))). by apply sweep_fades.
Qed.
End proofs.
End saga.

(** ** Instances

    A host that is the list of its packages, each step one write; version [bad] of a
    package cannot be installed. *)

Abbreviation Packages := (list string).

Definition step_of {A} (f : Packages → result string A * Packages) : CM Packages string A := λ h n,
  match n with
  | O => Crashed h
  | S n => match f h with (Ok a, h') => Done a h' n | (Err e, h') => Threw e h' n end
  end.

Definition small_member (name version : string) : PlannedMember := {|
  pm_packageName := name; pm_version := version; pm_typeId := "agent"; pm_edges := []; pm_alreadyInstalled := false |}.

(** Every package needs [@x/lib]. *)
Definition small_plan (input : PlanDependencyInstallInput) : DependencyInstallPlan := {|
  dp_ordered := (if fst (pi_root input) ≟ "@x/lib" then [] else [small_member "@x/lib" "1.0.0"])
                ++ [small_member (fst (pi_root input)) (snd (pi_root input))];
  dp_root := pi_root input; dp_fromClosure := false; dp_memberKinds := [] |}.

#[local] Instance small_host : InstallBatchSagaDeps Packages unit string := {|
  bd_isGatekeptInstallEnabled := false;
  bd_authorizeRoot := λ _ _, throw "unused";
  bd_refreshGrant := λ _ _, throw "unused";
  bd_getActiveGrantContext := None;
  bd_plan := λ input, mret (small_plan input);
  bd_installMember := λ m _, step_of (λ h, if mr_version m ≟ "bad" then (Err "no such version", h) else (Ok (), mr_packageName m :: h));
  bd_uninstallMember := λ m _, step_of (λ h, (Ok (), List.filter (λ p, negb (p ≟ mr_packageName m)) h));
  bd_triggerAgentRuntimeReload := mret true;
  bd_readLiveRowVersion := λ p _ h n, Done {| lr_present := bool_decide (p ∈ h); lr_version := None |} h n;
  bd_readInstallOp := λ _ _, mret None;
  bd_sha256 := id; bd_randomUUID := show_nat; bd_requiresRebuild := λ _, false |}.

Definition small_present (org : option string) (h : Packages) (p : string) : bool := bool_decide (p ∈ h).

Lemma runs_step_of {A} (f : Packages → result string A * Packages) h Q QE C :
  C h → (match f h with (Ok a, h') => Q a h' | (Err e, h') => QE e h' end) → runs (step_of f) h Q QE C.
Proof. intros Hc Hf [|n]; [done|]. cbn. by destruct (f h) as [[]]. Qed.

#[local] Instance small_laws : BatchHost small_present.
Proof.
  split.
  - intros m actor h. apply runs_step_of; [by intros o q|]. destruct (_ ≟ "bad"); [by intros o q|]. split.
    + intros o q Hq. apply bool_decide_ext. rewrite elem_of_cons. intuition.
    + apply bool_decide_eq_true. left.
  - intros m actor h. apply runs_step_of; [by intros o q|]. split.
    + intros o q Hq. apply bool_decide_ext. rewrite filter_in, bool_decide_false by done. intuition.
    + intros o. apply bool_decide_eq_false. rewrite filter_in, bool_decide_true by done. by intros [_ ?].
  - intros p org h. by intros n.
  - intros p org h. by intros n.
  - intros p v h. by intros n.
  - intros r root h. by intros n.
  - intros h. by intros n.
  - intros input h n. cbn. split; [done|]. unfold names_of, small_plan. cbn. split.
    + case_bool_decide as E; cbn; [apply NoDup_singleton|]. apply NoDup_cons. split; [|apply NoDup_singleton].
      intros Hl%list_elem_of_singleton. by apply E.
    + exists (small_member (fst (pi_root input)) (snd (pi_root input))). by rewrite last_snoc.
Qed.

#[local] Instance small_date : DateEnv := utc_env.
(** Runs of more steps are taken to be later. *)
#[local] Instance small_faults : Faults ledger_exn := {| fault_at := λ _, fault_none; now_at := Z.of_nat |}.

Definition small_input (version : string) : BatchInstallInput := {|
  bi_packageName := "@x/app"; bi_version := Some version;
  bi_actor := {| ac_orgId := Some "org"; ac_userId := None; ac_source := "ui" |} |}.
Definition small_world : @World Packages string := {| w_host := ["@x/other"]; w_ledger := []; w_reloads := 0 |}.

Definition small_install (version : string) : CM (@World Packages string) (saga_exn string) BatchInstallResult :=
  installExtensionWithDependencies (small_input version).

Lemma install_runs : ∃ w n, small_install "1.0.0" small_world 100%nat =
  Done {| br_rootPackage := "@x/app"; br_rootVersion := "1.0.0";
          br_installed := [("@x/lib", "1.0.0"); ("@x/app", "1.0.0")]; br_alreadyInstalled := []; br_batchId := Some "99" |} w n ∧
  w_host w = ["@x/app"; "@x/lib"; "@x/other"] ∧ map ib_phase (w_ledger w) = [ip_finalized] ∧ w_reloads w = 1%nat.
Proof. eexists _, _. vm_compute. done. Qed.

Lemma install_rolls_back : ∃ w n, small_install "bad" small_world 100%nat =
  Threw (sx_batch "@x/app" ["@x/lib"] [] (sx_host "no such version")) w n ∧
  w_host w = ["@x/other"] ∧ map ib_phase (w_ledger w) = [ip_compensated] ∧ w_reloads w = 0%nat.
Proof. eexists _, _. vm_compute. done. Qed.


(** The host, the ledger's phases and the statuses of its members. *)
Definition summary (w : @World Packages string) : Packages * list InstallBatchPhase * list (list BatchMemberStatus) :=
  (w_host w, map ib_phase (w_ledger w), map (λ b, map im_status (ib_members b)) (w_ledger w)).

(** A crash while the dependency is being installed; the sweep removes it. *)
Definition crashed_world : @World Packages string := outcome_state (small_install "1.0.0" small_world 6%nat).
Lemma crash_is_swept :
  summary crashed_world = (["@x/lib"; "@x/other"], [ip_installing], [[bs_installing; bs_planned]]) ∧
  ∃ w n, sweepStaleInstallBatches (Some 0) crashed_world 50%nat = Done 1%nat w n ∧
    summary w = (["@x/other"], [ip_compensated], [[bs_compensated; bs_planned]]).
Proof. split; [by vm_compute|]. eexists _, _. vm_compute. done. Qed.


(** A crash in the middle of a rollback is not undone: the batch was already marked
    failed, no sweep looks at it, and the dependency stays installed. *)
Definition failed_world : @World Packages string := outcome_state (small_install "bad" small_world 14%nat).
Lemma rollback_crash_kept :
  summary failed_world = (["@x/lib"; "@x/other"], [ip_failed], [[bs_installed; bs_failed]]) ∧
  ∀ w, rtc sweep_run failed_world w → w = failed_world.
Proof.
  split; [by vm_compute|]. intros w. apply sweeps_nothing. intros b Hb. vm_compute in Hb.
  by apply list_elem_of_singleton in Hb as ->.
Qed.

Lemma batches_apart_witness : apart (w_ledger crashed_world).
Proof.
  apply (batches_apart small_present (small_input "1.0.0") None small_world 6%nat). split; [apply NoDup_nil_2|].
  intros b b' n Hb. apply elem_of_nil in Hb. destruct Hb.
Defined.
