(* ===== verification/Dispatcher.v ===== *)
(** * The extension dispatcher
      ([packages/extensions/src/index.ts], [system-extension-inventory.ts], the
      aggregate status of [canonical-store.ts])

    Installs, updates, uninstalls, archives, restores and force-deletes of every kind
    of extension go through one dispatcher.  It gates each operation, calls the
    handler of the kind, and keeps the manifest table in step: an install first
    ensures one row, and takes it back when the install does not finish.

    Handlers, hooks, the tables of agents and the audit log are functions the
    dispatcher is given, over a state of which it owns the manifest table and reads
    the install journal.  A call of the lifecycle primitive is one step: each makes
    at most one write of the table.  Installs and force-deletes hold a lock per
    package; interleavings with the operations that hold it only inside their
    handlers are not modelled, nor are the texts of errors, warnings and the
    registration of handlers. *)

From S2P Require Import Prelude Json Spec Extensions Closure ExtensionLifecycle RequiredInProd Crash InstallBatch.
Open Scope Z_scope.

(** ** State and parameters *)

Section state.
Context {X : Type}.

(** [ds_ext] is everything else: the tables of the kinds, registries in memory. *)
Record DispatchState := {
  ds_store : ExtensionStore; ds_journal : string → option string → option string; ds_ext : X
}.

Inductive dispatch_exn :=
  | dx_thrown (message : string) (code : option string)
  | dx_store (message : string)
  | dx_lifecycle (code : LifecycleCode)
  | dx_closure (e : DependencyClosureError)
  | dx_no_handler (typeId : string)
  | dx_pin (range : string)
  | dx_locked (packageName : string) (requiredInProd : bool)
  | dx_system_unreachable (packageName : string)
  | dx_active_dependent (name : string)
  | dx_no_row (packageName : string)
  | dx_not_finalized (rolledBackRow : bool)
  | dx_no_host_hook
  | dx_update_rolled_back (complete : bool)
  | dx_not_activated
  | dx_not_reregistered.

Abbreviation DM := (CM DispatchState dispatch_exn).

Record PackageRef := { pr_registryUrl : string; pr_packageName : string; pr_version : option string }.

(** [finalized] is absent when no hook ran. *)
Record ExtensionActivateResult := {
  ar_activated : bool; ar_finalized : option bool; ar_rolledBack : bool; ar_rollbackComplete : bool
}.

Record ExtensionTypeHandler := {
  hd_install : PackageRef → Actor → DM unit; hd_update : PackageRef → Actor → DM unit;
  hd_uninstall : PackageRef → Actor → DM unit; hd_archive : PackageRef → Actor → DM unit;
  hd_restore : PackageRef → Actor → DM unit
}.

(** A row of the agents' tables that depends on a package. *)
Record AgentDependent := { ad_name : option string; ad_packageName : option string }.
End state.
Arguments DispatchState : clear implicits.
Arguments ExtensionTypeHandler : clear implicits.

Class DispatchEnv (X : Type) := {
  de_handler : string → option (ExtensionTypeHandler X);
  de_agentTemplatesDependingOn : string → CM (DispatchState X) dispatch_exn (list AgentDependent);
  de_agentTemplateByPackageName : string → CM (DispatchState X) dispatch_exn (option string);
  de_countRunsForTemplate : string → CM (DispatchState X) dispatch_exn Z;
  de_activateHook : option (string → option string → option string → CM (DispatchState X) dispatch_exn ExtensionActivateResult);
  de_capabilityTeardownHook : option (string → CM (DispatchState X) dispatch_exn unit);
  de_dataTeardownHook : option (string → CM (DispatchState X) dispatch_exn unit);
  de_auditForceDelete : PackageRef → Actor → option string → CM (DispatchState X) dispatch_exn (list string);
  de_removeReferencingRunRows : string → CM (DispatchState X) dispatch_exn unit;
  de_requiredEntries : list RequiredExtensionEntry;
  de_systemExtensions : list string;
  de_isDev : bool;
  (** [randomUUID] *)
  de_randomUUID : DispatchState X → string
}.

(** ** The system extensions *)

(** [[a-z0-9][a-z0-9._-]*], in either case; the text up to the end or a slash. *)
Definition scope_char (c : ascii) : bool := is_letter c || is_digit c || bool_decide (c ∈ ["."; "_"; "-"]%char).
Definition scope_part (s : string) : bool :=
  match s with String c r => (is_letter c || is_digit c) && str_forallb scope_char r | EmptyString => false end.

Definition is_scoped_name (s : string) : bool :=
  match s with
  | String "@" r =>
      match index_of "/" r with
      | Some i => scope_part (str_take i r) && scope_part (str_drop (S i) r)
      | None => false
      end
  | _ => false
  end.

(** [pkg] is the host's manifest. *)
Definition readSystemExtensions (pkg : option json) : result string (list string) :=
  match pkg with
  | None => Err "cannot read root package.json"
  | Some pkg =>
      match c ← jprop "cinatra" pkg; jprop "systemExtensions" c with
      | Some (JArr (_ :: _ as declared)) =>
          l ← mapM (λ entry, match entry with
                             | JStr s => if is_scoped_name s then Ok s else Err "invalid entry"
                             | _ => Err "invalid entry" end) declared;
          Ok (reverse (dedup (reverse l)))
      | _ => Err "must declare a non-empty cinatra.systemExtensions array"
      end
  end.

Section dispatcher.
Context {X : Type} `{Semver} {faults : Faults dispatch_exn} {env : DispatchEnv X}.

Abbreviation State := (DispatchState X).
Abbreviation DM := (CM State dispatch_exn).

Definition isSystemExtension (packageName : string) : bool := bool_decide (packageName ∈ de_systemExtensions).
Definition isPackageRequiredInProd (packageName : string) : bool :=
  bool_decide (packageName ∈ map rq_packageName de_requiredEntries).

(** ** The manifest table, from outside *)

Definition set_store (st : ExtensionStore) (s : State) : State :=
  {| ds_store := st; ds_journal := ds_journal s; ds_ext := ds_ext s |}.

Definition journal_of (s : State) : InstallJournal := {| readExtensionInstallOpPhase := ds_journal s |}.

Definition rows (s : State) : list InstalledExtension := es_rows (ds_store s).
Definition of_package (packageName : string) (r : InstalledExtension) : bool := ie_packageName r ≟ packageName.

Definition listInstalledExtensions : DM (list InstalledExtension) := read rows.
Definition readInstalledExtensionsByPackageName (packageName : string) : DM (list InstalledExtension) :=
  read (λ s, List.filter (of_package packageName) (rows s)).

(** A call of the lifecycle primitive. *)
Definition lifecycle {A} (f : State → ExtensionStore → result LifecycleCode (A * ExtensionStore)) : DM A :=
  statement (λ _ _ s, match f s (ds_store s) with
                      | Ok (a, st) => (Ok a, set_store st s)
                      | Err e => (Err (dx_lifecycle e), s)
                      end).

Definition no_roles : TransitionOpts := {| to_roles := []; to_allowUnlock := false |}.

Definition transition (id : string) (op : LifecycleTransitionOp) : DM (option InstalledExtension) :=
  lifecycle (λ _, transitionExtensionLifecycle id op no_roles).

(** A package is live when one of its rows is; absent when it has none. *)
Definition effective_status (rs : list InstalledExtension) (packageName : string) : option bool :=
  match List.filter (of_package packageName) rs with
  | [] => None
  | rs => Some (existsb is_live rs)
  end.

(** ** The gates *)

Definition extensionHasBeenUsed (ref : PackageRef) : DM bool :=
  template ← de_agentTemplateByPackageName (pr_packageName ref);
  match template with
  | None => mret false
  | Some id => n ← de_countRunsForTemplate id; mret (0 <? n)
  end.

Definition nonempty_name (d : AgentDependent) : option string :=
  match ad_packageName d with Some "" => None | n => n end%string.

(** Whether only archived extensions depend on the package. *)
Definition checkDependents (ref : PackageRef) : DM bool :=
  dependents ← de_agentTemplatesDependingOn (pr_packageName ref);
  match dependents with
  | [] => mret false
  | _ =>
      rs ← (match omap nonempty_name dependents with [] => mret [] | _ => listInstalledExtensions end);
      let live d := match nonempty_name d with Some n => effective_status rs n ?? true | None => true end in
      match List.find live dependents with
      | Some d => throw (dx_active_dependent (match ad_name d with
                                              | Some n => n
                                              | None => ad_packageName d ?? "an active extension" end))
      | None => mret true
      end
  end.

(** The [op] only shows in the message. *)
Definition assertNoLockedCanonicalRow (packageName : string) : DM unit :=
  rs ← catch (readInstalledExtensionsByPackageName packageName);
  match rs with
  | Err _ => if isSystemExtension packageName then throw (dx_system_unreachable packageName) else mret ()
  | Ok rs =>
      let locked := List.find (λ r, ie_status r ≟ xs_locked) rs in
      if bool_decide (locked ≠ None) || isSystemExtension packageName
      then throw (dx_locked packageName (match locked with Some r => ie_requiredInProd r | None => false end))
      else mret ()
  end.

Definition closure_gate {A} (r : result DependencyClosureError A) : DM A :=
  of_result (match r with Ok a => Ok a | Err e => Err (dx_closure e) end).

Definition assertCanonicalArchiveClosure (packageName : string) : DM unit :=
  rs ← catch listInstalledExtensions;
  match rs with
  | Err _ => mret ()
  | Ok rs => match List.find (of_package packageName) rs with
             | None => mret ()
             | Some target => closure_gate (assertArchiveDoesNotBreakClosure target rs)
             end
  end.

Definition assertCanonicalRestoreClosure (packageName : string) : DM unit :=
  rs ← catch listInstalledExtensions;
  match rs with
  | Err _ => mret ()
  | Ok rs =>
      _ ← each (λ _ target, _ ← closure_gate (assertInstallClosure rs (ie_organizationId target) target); mret ())
            (List.filter (λ r, of_package packageName r && (ie_status r ≟ xs_archived)) rs) ();
      mret ()
  end.

(** ** The table kept in step *)

(** Every row of the package, whatever its scope. *)
Definition syncCanonicalManifestTransition (packageName : string) (op : LifecycleTransitionOp) : DM unit :=
  rs ← readInstalledExtensionsByPackageName packageName;
  each (λ _ row, _ ← transition (ie_id row) op; mret ()) rs ().

Record CanonicalInstallEnsure := { en_needsPipeline : bool; en_rowId : option string; en_ownsRollback : bool }.

Definition nothing_ensured : CanonicalInstallEnsure :=
  {| en_needsPipeline := false; en_rowId := None; en_ownsRollback := false |}.

Definition isVerdaccioBackedRef (ref : PackageRef) : bool :=
  startsWith "@" (pr_packageName ref) || match pr_version ref with Some v => negb (v ≟ "") | None => false end.

Definition KINDS_USING_ACTIVATE_HOOK : list string := ["connector"].
Definition uses_activate_hook (kind : string) : bool := bool_decide (kind ∈ KINDS_USING_ACTIVATE_HOOK).

(** [isNonFinalizedLiveRowAware], reading the journal; a read that fails counts as none. *)
Definition non_finalized (row : InstalledExtension) : DM bool :=
  if negb (is_live row) then mret false
  else if isNonFinalizedLiveRow row then mret true
  else match str_of (jprop "integrity" (ie_source row)) with
       | None => mret false
       | Some _ =>
           phase ← catch (read (λ s, ds_journal s (ie_packageName row) (ie_organizationId row)));
           mret (match phase with Ok (Some phase) => negb (phase ≟ "finalized") | _ => false end)
       end.

Fixpoint first_non_finalized (rs : list InstalledExtension) : DM (option InstalledExtension) :=
  match rs with
  | [] => mret None
  | r :: rs => broken ← non_finalized r; if (broken : bool) then mret (Some r) else first_non_finalized rs
  end.

(** Re-activates the archived rows; the last one that worked. *)
Definition reactivate (last : option string) (row : InstalledExtension) : DM (option string) :=
  if ie_status row ≟ xs_archived then
    r ← catch (transition (ie_id row) lo_activate);
    match r with Ok _ => mret (Some (ie_id row)) | Err _ => mret last end
  else mret last.

Inductive HostOp := ho_install | ho_update.
#[local] Instance HostOp_eq_dec : EqDecision HostOp.
Proof. solve_decision. Defined.

(** Rows at this scope; each has the status it had when it was read. *)
Definition ensure_existing (kind : string) (op : HostOp) (existing : list InstalledExtension) : DM CanonicalInstallEnsure :=
  reactivated ← each reactivate existing None;
  broken ← first_non_finalized existing;
  match broken with
  | Some r => mret {| en_needsPipeline := true; en_rowId := Some (ie_id r); en_ownsRollback := true |}
  | None =>
      match reactivated, List.find is_live existing with
      | Some id, _ => mret {| en_needsPipeline := true; en_rowId := Some id; en_ownsRollback := false |}
      | None, Some live =>
          if (op ≟ ho_update) || uses_activate_hook kind
          then mret {| en_needsPipeline := true; en_rowId := Some (ie_id live); en_ownsRollback := false |}
          else mret nothing_ensured
      | None, None => mret nothing_ensured
      end
  end.

Definition truthy_or (v : option string) (d : string) : string :=
  match v with Some "" | None => d | Some v => v end%string.

(** The row of a new install, without its edges: the manifest is not there yet. *)
Definition placeholder_row (id packageName : string) (kind : ExtensionKind) (ref : PackageRef) (orgId : option string)
    : InstalledExtension := {|
  ie_id := id; ie_packageName := packageName;
  ie_ownerLevel := match identity_org orgId with Some _ => xo_organization | None => xo_platform end;
  ie_ownerId := orgId; ie_organizationId := orgId; ie_kind := kind; ie_status := xs_active;
  ie_source := JObj [("type", JStr "verdaccio");
                     ("registryUrl", JStr (truthy_or (Some (pr_registryUrl ref)) "http://localhost:4873"));
                     ("packageName", JStr packageName); ("version", JStr (truthy_or (pr_version ref) "0.0.0"));
                     ("integrity", JStr "dispatcher-install")];
  ie_requiredInProd := isPackageRequiredInProd packageName; ie_dependencies := []; ie_manifestHash := None |}.

Definition newRowId (s : State) : string := "iext_" +:+ str_take 12 (de_randomUUID s).

Definition create_row (packageName kind : string) (ref : PackageRef) (orgId : option string) : DM CanonicalInstallEnsure :=
  match literal EXTENSION_KINDS (Some (JStr kind)) with
  | None => throw (dx_store "installed_extension_kind_chk")
  | Some kind =>
      row ← lifecycle (λ s, installExtensionManifest de_isDev (placeholder_row (newRowId s) packageName kind ref orgId)
             (Some (if isPackageRequiredInProd packageName && negb de_isDev then xs_locked else xs_active)));
      mret {| en_needsPipeline := true; en_rowId := Some (ie_id row); en_ownsRollback := true |}
  end.

Definition syncCanonicalManifestInstall (packageName kind : string) (ref : PackageRef) (orgId : option string) (op : HostOp)
    : DM CanonicalInstallEnsure :=
  if negb (isVerdaccioBackedRef ref) then mret nothing_ensured
  else
    let given_up := if uses_activate_hook kind then throw (dx_no_row packageName) else mret nothing_ensured in
    all ← catch (readInstalledExtensionsByPackageName packageName);
    match all with
    | Err _ => given_up
    | Ok all =>
        r ← catch (match List.filter (at_org orgId) all with
                   | [] => create_row packageName kind ref orgId
                   | existing => ensure_existing kind op existing
                   end);
        match r with Ok ensure => mret ensure | Err _ => given_up end
    end.

(** Takes back the row of an install that did not finish, unless it did finish meanwhile. *)
Definition rollbackNonFinalizedCanonicalRow (rowId : string) : DM unit :=
  _ ← catch (
    row ← read (λ s, readInstalledExtensionById (ds_store s) rowId);
    match row with
    | None => mret ()
    | Some row =>
        broken ← non_finalized row;
        if (broken : bool) then lifecycle (λ s, @deleteNonFinalizedCanonicalRow (journal_of s) rowId) else mret ()
    end);
  mret ().

(** ** Hooks *)

Definition fire (hook : option (string → DM unit)) (packageName : string) : DM unit :=
  match hook with
  | None => mret ()
  | Some hook => _ ← catch (hook packageName); mret ()
  end.
Definition fireExtensionCapabilityTeardown : string → DM unit := fire de_capabilityTeardownHook.
Definition fireExtensionDataTeardown : string → DM unit := fire de_dataTeardownHook.

Definition not_run : ExtensionActivateResult :=
  {| ar_activated := false; ar_finalized := None; ar_rolledBack := false; ar_rollbackComplete := false |}.

Definition fireExtensionActivate (packageName : string) (orgId version : option string) : DM ExtensionActivateResult :=
  match de_activateHook with
  | None => mret not_run
  | Some hook => r ← catch (hook packageName orgId version); mret (match r with Ok r => r | Err _ => not_run end)
  end.

(** ** Operations *)

Definition resolve (typeId : string) : DM (ExtensionTypeHandler X) :=
  match de_handler typeId with Some h => mret h | None => throw (dx_no_handler typeId) end.

Definition rollback_owned (ensure : CanonicalInstallEnsure) : DM unit :=
  match en_ownsRollback ensure, en_rowId ensure with
  | true, Some id => rollbackNonFinalizedCanonicalRow id
  | _, _ => mret ()
  end.

(** Step 4: what the activation reported decides whether the operation succeeded. *)
Definition judge_activation (ensure : CanonicalInstallEnsure) (r : ExtensionActivateResult) : DM unit :=
  match ar_finalized r with
  | Some false =>
      _ ← rollback_owned ensure;
      throw (dx_not_finalized (en_ownsRollback ensure && bool_decide (en_rowId ensure ≠ None)))
  | None => _ ← rollback_owned ensure; throw dx_no_host_hook
  | Some true =>
      if ar_rolledBack r then throw (dx_update_rolled_back (ar_rollbackComplete r))
      else if negb (ar_activated r) then throw dx_not_activated
      else mret ()
  end.

Definition update_gate (ref : PackageRef) (actor : Actor) (op : HostOp) : DM unit :=
  match op, pr_version ref with
  | ho_update, Some version =>
      if version ≟ "" then mret ()
      else rs ← listInstalledExtensions;
           closure_gate (assertUpdateDoesNotBreakDependents (pr_packageName ref) version rs (Some (ac_orgId actor)))
  | _, _ => mret ()
  end.

Definition runHostInstallLocked (typeId : string) (ref : PackageRef) (actor : Actor) (op : HostOp) : DM unit :=
  handler ← resolve typeId;
  _ ← (match checkRequiredExtensionVersionPin de_requiredEntries (pr_packageName ref) (pr_version ref) with
       | Some range => throw (dx_pin range)
       | None => mret ()
       end);
  _ ← update_gate ref actor op;
  let orgId := ac_orgId actor in
  ensure ← syncCanonicalManifestInstall (pr_packageName ref) typeId ref orgId op;
  r ← catch ((match op with ho_update => hd_update handler | ho_install => hd_install handler end) ref actor);
  match r with
  | Err e => _ ← rollback_owned ensure; throw e
  | Ok _ =>
      if negb (en_needsPipeline ensure) || negb (uses_activate_hook typeId) then mret ()
      else result ← fireExtensionActivate (pr_packageName ref) orgId (pr_version ref);
           judge_activation ensure result
  end.

Definition install (typeId : string) (ref : PackageRef) (actor : Actor) : DM unit :=
  runHostInstallLocked typeId ref actor ho_install.
Definition update (typeId : string) (ref : PackageRef) (actor : Actor) : DM unit :=
  runHostInstallLocked typeId ref actor ho_update.

Definition uninstall (typeId : string) (ref : PackageRef) (actor : Actor) : DM unit :=
  let packageName := pr_packageName ref in
  _ ← assertNoLockedCanonicalRow packageName;
  _ ← assertCanonicalArchiveClosure packageName;
  handler ← resolve typeId;
  archivedDependentExists ← checkDependents ref;
  used ← extensionHasBeenUsed ref;
  if (used : bool) || archivedDependentExists then
    _ ← hd_archive handler ref actor;
    _ ← syncCanonicalManifestTransition packageName lo_archive;
    fireExtensionCapabilityTeardown packageName
  else
    _ ← hd_uninstall handler ref actor;
    _ ← syncCanonicalManifestTransition packageName lo_uninstall;
    _ ← fireExtensionCapabilityTeardown packageName;
    fireExtensionDataTeardown packageName.

Definition archive (typeId : string) (ref : PackageRef) (actor : Actor) : DM unit :=
  _ ← assertNoLockedCanonicalRow (pr_packageName ref);
  _ ← assertCanonicalArchiveClosure (pr_packageName ref);
  handler ← resolve typeId;
  _ ← hd_archive handler ref actor;
  _ ← syncCanonicalManifestTransition (pr_packageName ref) lo_archive;
  fireExtensionCapabilityTeardown (pr_packageName ref).

Definition restore (typeId : string) (ref : PackageRef) (actor : Actor) : DM unit :=
  _ ← assertCanonicalRestoreClosure (pr_packageName ref);
  handler ← resolve typeId;
  _ ← hd_restore handler ref actor;
  _ ← syncCanonicalManifestTransition (pr_packageName ref) lo_activate;
  if negb (uses_activate_hook typeId) then mret ()
  else
    result ← fireExtensionActivate (pr_packageName ref) (ac_orgId actor) (pr_version ref);
    if bool_decide (ar_finalized result = Some true) && ar_activated result then mret () else throw dx_not_reregistered.

(** The references that are left dangling. *)
Definition forceDelete (typeId : string) (ref : PackageRef) (actor : Actor) : DM (list string) :=
  let packageName := pr_packageName ref in
  _ ← assertNoLockedCanonicalRow packageName;
  handler ← resolve typeId;
  snapshot ← de_agentTemplateByPackageName packageName;
  dangling ← de_auditForceDelete ref actor snapshot;
  _ ← (match snapshot with Some id => de_removeReferencingRunRows id | None => mret () end);
  _ ← hd_uninstall handler ref actor;
  _ ← syncCanonicalManifestTransition packageName lo_force_delete;
  _ ← fireExtensionCapabilityTeardown packageName;
  _ ← fireExtensionDataTeardown packageName;
  mret dangling.

(** ** Locks at boot *)

(** How many rows were locked, and skipped. *)
Definition lockExtensionByPackageName (packageName : string) : DM (nat * nat) :=
  rs ← readInstalledExtensionsByPackageName packageName;
  each (λ acc row,
    if ie_status row ≟ xs_locked then mret (acc.1, S acc.2)
    else r ← catch (transition (ie_id row) lo_lock);
         mret (match r with Ok _ => (S acc.1, acc.2) | Err _ => (acc.1, S acc.2) end)) rs (O, O).

(** [new Set(...)]: each package once, in order. *)
Definition inventory : list string :=
  reverse (dedup (reverse (de_systemExtensions ++ if de_isDev then [] else map rq_packageName de_requiredEntries))).

Definition lockSystemExtensionsAtBoot : DM nat :=
  each (λ n packageName, result ← lockExtensionByPackageName packageName; mret (n + result.1)%nat) inventory O.

(** ** What the injected functions may do

    Handlers, hooks and the agents' tables leave the rows of the manifest in place:
    they may record a source or edges in a row, but scope, owner, kind and status are
    written by the dispatcher alone. *)

Definition same_row (r r' : InstalledExtension) : Prop := same_extension r r' ∧ ie_status r' = ie_status r.
Definition calm (s s' : State) : Prop := Forall2 same_row (rows s) (rows s').
Definition quiet {A} (m : DM A) : Prop := ∀ s, runs m s (λ _, calm s) (λ _, calm s) (calm s).

Definition at_scope (p : string) (org : option string) (r : InstalledExtension) : bool := of_package p r && at_org org r.

Definition unfinished (s : State) (r : InstalledExtension) : bool := @isNonFinalizedLiveRowAware (journal_of s) r.

(** No live row at this scope is without a finished install. *)
Definition all_finalized (p : string) (org : option string) (s : State) : Prop :=
  ∀ r, r ∈ rows s → at_scope p org r = true → unfinished s r = false.

Class DispatchLaws := {
  dl_handler typeId h : de_handler typeId = Some h → ∀ ref actor,
    quiet (hd_install h ref actor) ∧ quiet (hd_update h ref actor) ∧ quiet (hd_uninstall h ref actor) ∧
    quiet (hd_archive h ref actor) ∧ quiet (hd_restore h ref actor);
  dl_dependents p : quiet (de_agentTemplatesDependingOn p);
  dl_template p : quiet (de_agentTemplateByPackageName p);
  dl_runs id : quiet (de_countRunsForTemplate id);
  dl_activate hook : de_activateHook = Some hook → ∀ p org v, quiet (hook p org v);
  (** The hook reports [finalized] when the install can be anchored. *)
  dl_finalized hook : de_activateHook = Some hook → ∀ p org v s, runs (hook p org v) s
    (λ r s', ar_finalized r = Some true → all_finalized p org s') (λ _ _, True) (λ _, True);
  dl_capability hook : de_capabilityTeardownHook = Some hook → ∀ p, quiet (hook p);
  dl_data hook : de_dataTeardownHook = Some hook → ∀ p, quiet (hook p);
  dl_audit ref actor t : quiet (de_auditForceDelete ref actor t);
  dl_remove id : quiet (de_removeReferencingRunRows id)
}.

Context {laws : DispatchLaws}.

Lemma same_row_refl r : same_row r r. Proof. by split_and!. Qed.
Lemma same_row_trans a b c : same_row a b → same_row b c → same_row a c.
Proof. unfold same_row, same_extension. intuition congruence. Qed.

Lemma calm_ok s s' : calm s s' → store_ok (ds_store s) → store_ok (ds_store s').
Proof.
  intros Hc (Hid & Hident & Hinv). unfold store_ok.
  assert (Hmaps : map ie_id (rows s') = map ie_id (rows s) ∧ map identity_of (rows s') = map identity_of (rows s)).
  { unfold calm in Hc. induction Hc as [|r r' l l' [(Ei & Ep & Eo & El & Ew & _) _] _ [IH1 IH2]]; [done|]. cbn. rewrite IH1, IH2.
    split; f_equal; [done|]. unfold identity_of. congruence. }
  destruct Hmaps as [E1 E2]. unfold rows in E1, E2. rewrite E1, E2. split_and!; [done..|].
  intros r' [i Hi]%list_elem_of_lookup. destruct (Forall2_lookup_r _ _ _ _ _ Hc Hi) as (r & Hr & (_ & _ & Eo & El & Ew & _) & _).
  unfold platform_invariant. rewrite El, Eo, Ew. apply Hinv. by eapply list_elem_of_lookup_2.
Qed.

(** ** Frames

    [touches q s s']: only rows of which [q] holds differ between the two states. *)
Section frame.
Context (q : InstalledExtension → bool) (Hq : ∀ r r', same_extension r r' → q r' = q r).

Definition touches (s s' : State) : Prop :=
  store_ok (ds_store s') ∧
  (∀ r, r ∈ rows s → q r = false → ∃ r', r' ∈ rows s' ∧ same_row r r') ∧
  (∀ r', r' ∈ rows s' → q r' = false → ∃ r, r ∈ rows s ∧ same_row r r').

Lemma touches_refl s : store_ok (ds_store s) → touches s s.
Proof. intros Hok. split; [done|]. split; intros r Hr _; exists r; (split; [done|apply same_row_refl]). Qed.

Lemma touches_calm s0 s s' : touches s0 s → calm s s' → touches s0 s'.
Proof.
  intros (Hok & Hf & Hb) Hc. split; [by eapply calm_ok|]. split.
  - intros r Hr Hqr. destruct (Hf r Hr Hqr) as (r1 & [i Hi]%list_elem_of_lookup & Hs1).
    destruct (Forall2_lookup_l _ _ _ _ _ Hc Hi) as (r2 & Hr2 & Hs2). exists r2.
    split; [by eapply list_elem_of_lookup_2|by eapply same_row_trans].
  - intros r2 [i Hi]%list_elem_of_lookup Hqr. destruct (Forall2_lookup_r _ _ _ _ _ Hc Hi) as (r1 & Hr1 & Hs2).
    destruct (Hb r1) as (r & Hr & Hs1); [by eapply list_elem_of_lookup_2| |].
    + rewrite <- Hqr. symmetry. apply Hq, Hs2.
    + exists r. split; [done|by eapply same_row_trans].
Qed.

(** No row that is kept has this id. *)
Definition mine (s : State) (id : string) : Prop := ∀ r, r ∈ rows s → ie_id r = id → q r = true.

Lemma mine_now s0 s id : touches s0 s → mine s0 id → mine s id.
Proof.
  intros (_ & _ & Hb) Hm r Hr Hid. destruct (q r) eqn:E; [done|]. destruct (Hb r Hr E) as (r0 & Hr0 & Hs).
  assert (E0 : q r0 = true) by (apply Hm; [done|]; destruct Hs as [(? & _) _]; congruence).
  rewrite <- (Hq r0 r) in E0 by apply Hs. congruence.
Qed.

Lemma mine_then s0 s r : touches s0 s → r ∈ rows s → q r = true → mine s0 (ie_id r).
Proof.
  intros (Hok & Hf & _) Hr E r0 Hr0 Hid. destruct (q r0) eqn:E0; [done|]. destruct (Hf r0 Hr0 E0) as (r1 & Hr1 & Hs).
  assert (r1 = r) as ->.
  { apply (row_unique ie_id (rows s)); [apply Hok|done|done|]. destruct Hs as [(? & _) _]. congruence. }
  rewrite <- (Hq r0 r) in E0 by apply Hs. congruence.
Qed.

(** A store in which only rows of this id may differ. *)
Lemma touches_id s0 s id st : touches s0 s → mine s0 id → store_ok st →
  (∀ r, ie_id r ≠ id → r ∈ rows s ↔ r ∈ es_rows st) → (∀ r, r ∈ es_rows st → ie_id r = id → q r = true) →
  touches s0 (set_store st s).
Proof.
  intros Ht Hm Hok Hsame Hnew. pose proof (mine_now _ _ _ Ht Hm) as Hnow. destruct Ht as (_ & Hf & Hb).
  split; [done|]. split.
  - intros r Hr E. destruct (Hf r Hr E) as (r1 & Hr1 & Hs). exists r1. split; [|done]. apply Hsame; [|done]. intros Hid.
    specialize (Hnow r1 Hr1 Hid). rewrite (Hq r r1) in Hnow by apply Hs. congruence.
  - intros r' Hr' E. apply Hb; [|done]. destruct (decide (ie_id r' = id)) as [Hid|Hid]; [|by apply Hsame].
    rewrite Hnew in E; done.
Qed.

Lemma update_row_rows id f st r' st' : update_row id f st = Ok (r', st') → (∀ r, same_extension r (f r)) →
  (∀ r, ie_id r ≠ id → r ∈ es_rows st ↔ r ∈ es_rows st') ∧
  (∀ r, r ∈ es_rows st' → ie_id r = id → ∃ r0, r0 ∈ es_rows st ∧ same_extension r0 r).
Proof.
  intros E Hf. rewrite (update_row_spec _ _ _ _ _ E). split.
  - intros r Hr. rewrite list_elem_of_fmap. split.
    + intros Hin. exists r. by rewrite bool_decide_false.
    + intros (r0 & -> & Hin). case_bool_decide as E0; [|done]. destruct Hr. destruct (Hf r0) as (-> & _). done.
  - intros r (r0 & -> & Hin)%list_elem_of_fmap _. exists r0. split; [done|]. case_bool_decide; [apply Hf|by split_and!].
Qed.

Lemma delete_rows id st : let st' := internalDeleteInstalledExtension id st in
  (∀ r, ie_id r ≠ id → r ∈ es_rows st ↔ r ∈ es_rows st') ∧
  (∀ r, r ∈ es_rows st' → ie_id r = id → ∃ r0, r0 ∈ es_rows st ∧ same_extension r0 r).
Proof.
  cbn. split.
  - intros r Hr. rewrite filter_in, bool_decide_false by done. cbn. tauto.
  - intros r [_ E]%filter_in Hid. by rewrite bool_decide_true in E.
Qed.

Lemma transition_rows id op opts st x st' : transitionExtensionLifecycle id op opts st = Ok (x, st') →
  (∀ r, ie_id r ≠ id → r ∈ es_rows st ↔ r ∈ es_rows st') ∧
  (∀ r, r ∈ es_rows st' → ie_id r = id → ∃ r0, r0 ∈ es_rows st ∧ same_extension r0 r).
Proof.
  unfold transitionExtensionLifecycle. destruct (readInstalledExtensionById st id) as [ext|]; [|done].
  destruct ((op ≟ lo_unlock) && _); [done|]. intros (s & _ & E)%result_bind_Ok.
  assert (Hself : (∀ r, ie_id r ≠ id → r ∈ es_rows st ↔ r ∈ es_rows st) ∧
    (∀ r, r ∈ es_rows st → ie_id r = id → ∃ r0, r0 ∈ es_rows st ∧ same_extension r0 r)).
  { split; [done|]. intros r Hr _. exists r. by split_and!. }
  assert (Hup : ∀ s' r st1, internalUpdateInstalledExtensionStatus id s' st = Ok (r, st1) →
    (∀ r, ie_id r ≠ id → r ∈ es_rows st ↔ r ∈ es_rows st1) ∧
    (∀ r, r ∈ es_rows st1 → ie_id r = id → ∃ r0, r0 ∈ es_rows st ∧ same_extension r0 r)).
  { intros s' r st1 Hu. apply (update_row_rows _ _ _ _ _ Hu). apply same_with_status. }
  destruct (removes_row op).
  - destruct (ie_status ext ≟ xs_locked); [done|]. destruct ((op ≟ lo_uninstall) && _).
    + case_bool_decide; [by injection E as _ <-|]. apply result_bind_Ok in E as ([r st1] & Hu & [= _ <-]). by eapply Hup.
    + injection E as _ <-. pose proof (delete_rows id st) as Hd. by destruct (bool_decide (ie_kind ext ∈ _)).
  - destruct (_ && negb _); [by injection E as _ <-|]. apply result_bind_Ok in E as ([r st1] & Hu & [= _ <-]). by eapply Hup.
Qed.

(** ** Operations within a frame *)

Definition within {A} (s0 : State) (m : DM A) (P : A → Prop) : Prop := ∀ s, touches s0 s →
  runs m s (λ a s', P a ∧ touches s0 s') (λ _ s', touches s0 s') (touches s0).

Context (s0 : State).

Lemma within_ret {A} (a : A) (P : A → Prop) : P a → within s0 (mret a) P.
Proof. intros Ha s Hs. by apply runs_ret. Qed.

Lemma within_throw {A} e (P : A → Prop) : within s0 (throw e) P.
Proof. intros s Hs. by apply runs_throw. Qed.

Lemma within_bind {A B} (m : DM A) (f : A → DM B) (P : A → Prop) R :
  within s0 m P → (∀ a, P a → within s0 (f a) R) → within s0 (m ≫= f) R.
Proof.
  intros Hm Hf s Hs. apply runs_bind. eapply runs_mono; [by apply Hm|..]; cbn; [|done..].
  intros a s' [Ha Hs']. by apply Hf.
Qed.

Lemma within_catch {A} (m : DM A) (P : A → Prop) : within s0 m P →
  within s0 (catch m) (λ r, match r with Ok a => P a | Err _ => True end).
Proof. intros Hm s Hs. apply runs_catch. eapply runs_mono; [by apply Hm|..]; cbn; [done|by split|done]. Qed.

Lemma within_mono {A} (m : DM A) (P R : A → Prop) : within s0 m P → (∀ a, P a → R a) → within s0 m R.
Proof. intros Hm HPR s Hs. eapply runs_mono; [by apply Hm|..]; cbn; [|done..]. intros a s' []. auto. Qed.

Lemma within_read {A} (f : State → A) (P : A → Prop) : (∀ s, touches s0 s → P (f s)) → within s0 (read f) P.
Proof. intros Hf s Hs. apply runs_read; [done..|]. split; [by apply Hf|done]. Qed.

Lemma within_quiet {A} (m : DM A) : quiet m → within s0 m (λ _, True).
Proof.
  intros Hm s Hs. eapply runs_mono; [apply Hm|..]; cbn.
  - intros _ s' Hc. split; [done|]. by eapply touches_calm.
  - intros _ s' Hc. by eapply touches_calm.
  - intros s' Hc. by eapply touches_calm.
Qed.

Lemma within_transition id op : mine s0 id → within s0 (transition id op) (λ _, True).
Proof.
  intros Hm s Hs. apply runs_statement; [done|done|]. intros _ _.
  destruct (transitionExtensionLifecycle id op no_roles (ds_store s)) as [[x st]|e] eqn:E; [|by split].
  destruct (transition_rows _ _ _ _ _ _ E) as [Hsame Hnew].
  assert (Ht : touches s0 (set_store st s)).
  { apply (touches_id _ _ id); [done|done| |done|].
    - destruct (transition_step _ _ _ _ _ _ E) as [? _]; [apply Hs|done].
    - intros r Hr Hid. destruct (Hnew r Hr Hid) as (r0 & Hr0 & Hse). rewrite (Hq r0 r Hse).
      apply (mine_now s0 s id Hs Hm); [done|]. destruct Hse. congruence. }
  by split.
Qed.

Lemma within_rollback id : mine s0 id → within s0 (rollbackNonFinalizedCanonicalRow id) (λ _, True).
Proof.
  intros Hm. eapply within_bind; [|by intros; apply within_ret]. apply (within_catch _ (λ _, True)).
  eapply (within_bind _ _ (λ _, True)); [by apply within_read|]. intros [row|] _; [|by apply within_ret].
  assert (Hnf : within s0 (non_finalized row) (λ _, True)).
  { unfold non_finalized. repeat case_match; try by apply within_ret.
    eapply within_bind; [apply (within_catch _ (λ _, True)); by apply within_read|]. intros; by apply within_ret. }
  eapply within_bind; [exact Hnf|]. intros [] _; [|by apply within_ret].
  intros s Hs. apply runs_statement; [done|done|]. intros _ _. unfold deleteNonFinalizedCanonicalRow.
  destruct (readInstalledExtensionById (ds_store s) id) as [ext|].
  - destruct (negb _); [by split|].
    assert (Ht : touches s0 (set_store (internalDeleteInstalledExtension id (ds_store s)) s)).
    { apply (touches_id _ _ id); [done|done|apply delete_ok, Hs|apply delete_rows|].
      intros r Hr Hid. apply filter_in in Hr as [_ Hr]. by rewrite bool_decide_true in Hr. }
    by split.
  - assert (Hset : set_store (ds_store s) s = s) by by destruct s. rewrite Hset. by split.
Qed.

Lemma within_each {A S} (f : S → A → DM S) l acc : (∀ a acc, a ∈ l → within s0 (f acc a) (λ _, True)) →
  within s0 (each f l acc) (λ _, True).
Proof.
  intros Hf. revert acc. induction l as [|a l IH]; intros acc; cbn [each]; [by apply within_ret|].
  eapply within_bind; [apply Hf; left|]. intros acc' _. apply IH. intros b acc'' Hb. apply Hf. by right.
Qed.

Lemma within_fire hook p : (∀ h, hook = Some h → quiet (h p)) → within s0 (fire hook p) (λ _, True).
Proof.
  intros Hh. destruct hook as [h|]; [|by apply within_ret]. eapply within_bind; [by apply within_catch, within_quiet, Hh|].
  intros; by apply within_ret.
Qed.

Lemma within_resolve typeId : within s0 (resolve typeId) (λ h, de_handler typeId = Some h).
Proof. unfold resolve. destruct (de_handler typeId); [by apply within_ret|apply within_throw]. Qed.

Lemma within_gate {A} (r : result DependencyClosureError A) : within s0 (closure_gate r) (λ _, True).
Proof. unfold closure_gate. destruct r; [by apply within_ret|apply within_throw]. Qed.

Lemma within_no_locked p : within s0 (assertNoLockedCanonicalRow p) (λ _, True).
Proof.
  eapply within_bind; [apply (within_catch _ (λ _, True)); by apply within_read|].
  intros [rs|e] _; cbv zeta; [destruct (bool_decide _ || isSystemExtension p)|destruct (isSystemExtension p)]; try apply within_throw; by apply within_ret.
Qed.

Lemma within_archive_closure p : within s0 (assertCanonicalArchiveClosure p) (λ _, True).
Proof.
  eapply within_bind; [apply (within_catch _ (λ _, True)); by apply within_read|].
  intros [rs|e] _; [|by apply within_ret]. destruct (List.find _ rs); [apply within_gate|by apply within_ret].
Qed.

Lemma within_restore_closure p : within s0 (assertCanonicalRestoreClosure p) (λ _, True).
Proof.
  eapply within_bind; [apply (within_catch _ (λ _, True)); by apply within_read|].
  intros [rs|e] _; [|by apply within_ret]. eapply within_bind; [|by intros; apply within_ret].
  apply within_each. intros target acc _. eapply within_bind; [apply within_gate|by intros; apply within_ret].
Qed.

Lemma within_dependents ref : within s0 (checkDependents ref) (λ _, True).
Proof.
  eapply within_bind; [apply within_quiet, dl_dependents|]. intros [|d ds] _; [by apply within_ret|].
  eapply (within_bind _ _ (λ _, True)); [case_match; [by apply within_ret|by apply within_read]|].
  intros rs _. cbv zeta. destruct (List.find _ (d :: ds)); [apply within_throw|by apply within_ret].
Qed.

Lemma within_used ref : within s0 (extensionHasBeenUsed ref) (λ _, True).
Proof.
  eapply within_bind; [apply within_quiet, dl_template|]. intros [id|] _; [|by apply within_ret].
  eapply within_bind; [apply within_quiet, dl_runs|by intros; apply within_ret].
Qed.
End frame.

(** ** Removing *)

Definition locked_ids (s : State) : list string := map ie_id (List.filter (λ r, ie_status r ≟ xs_locked) (rows s)).

(** The rows an operation on the package may change: not the locked ones. *)
Definition unlocked_of (p : string) (s0 : State) (r : InstalledExtension) : bool :=
  of_package p r && negb (bool_decide (ie_id r ∈ locked_ids s0)).

Lemma unlocked_ext p s0 r r' : same_extension r r' → unlocked_of p s0 r' = unlocked_of p s0 r.
Proof. intros (Ei & Ep & _). unfold unlocked_of, of_package. by rewrite Ei, Ep. Qed.

(** A locked row is not changed by what a lock rejects, nor by an activation. *)
Lemma transition_locked id op opts st r : store_ok st → r ∈ es_rows st → ie_id r = id → ie_status r = xs_locked →
  op ∈ lo_activate :: LOCKED_REJECTED_OPS →
  match transitionExtensionLifecycle id op opts st with Ok (_, st') => st' = st | Err _ => True end.
Proof.
  intros Hok Hr <- Hl Hop. unfold transitionExtensionLifecycle. rewrite read_unique, Hl by done.
  unfold LOCKED_REJECTED_OPS in Hop. repeat (apply elem_of_cons in Hop as [->|Hop]; [done|]). by apply elem_of_nil in Hop.
Qed.

Lemma within_transition_of p s0 op s r : touches (unlocked_of p s0) s0 s → r ∈ rows s → ie_packageName r = p →
  op ∈ lo_activate :: LOCKED_REJECTED_OPS → within (unlocked_of p s0) s0 (transition (ie_id r) op) (λ _, True).
Proof.
  intros Ht Hr Hp Hop. destruct (unlocked_of p s0 r) eqn:E.
  { apply within_transition; [apply unlocked_ext|]. eapply mine_then; [apply unlocked_ext|exact Ht|done|done]. }
  assert (Hin : ie_id r ∈ locked_ids s0).
  { unfold unlocked_of, of_package in E. rewrite bool_decide_true in E by done. cbn in E. by bprop. }
  apply list_elem_of_fmap in Hin as (r0 & Ei & [Hr0 Hl]%filter_in). bprop.
  intros s' Hs'. apply runs_statement; [done|done|]. intros _ _.
  assert (Hkept : ∃ r', r' ∈ rows s' ∧ ie_id r' = ie_id r ∧ ie_status r' = xs_locked).
  { destruct Hs' as (_ & Hf & _). destruct (Hf r0 Hr0) as (r' & Hr' & (Ei' & _) & Est).
    - unfold unlocked_of. rewrite (bool_decide_true (ie_id r0 ∈ _)), andb_false_r; [done|].
      unfold locked_ids. apply list_elem_of_fmap_2, filter_in. split; [done|]. by rewrite bool_decide_true.
    - exists r'. split_and!; congruence. }
  destruct Hkept as (r' & Hr' & Ei' & Hl').
  pose proof (transition_locked (ie_id r) op no_roles (ds_store s') r' (proj1 Hs') Hr' Ei' Hl' Hop) as Hsame.
  destruct (transitionExtensionLifecycle _ _ _ _) as [[x st]|e]; [|by split]. subst st.
  assert (Hset : set_store (ds_store s') s' = s') by by destruct s'. rewrite Hset. by split.
Qed.

Lemma within_sync p s0 op : op ∈ lo_activate :: LOCKED_REJECTED_OPS →
  within (unlocked_of p s0) s0 (syncCanonicalManifestTransition p op) (λ _, True).
Proof.
  intros Hop. eapply (within_bind _ _ _ _ (λ rs, ∃ s, touches (unlocked_of p s0) s0 s ∧ ∀ r, r ∈ rs → r ∈ rows s ∧ ie_packageName r = p)).
  - apply within_read. intros s Hs. exists s. split; [done|]. intros r [Hr E]%filter_in. unfold of_package in E. by bprop.
  - intros rs (s & Hs & Hrs). apply within_each. intros r acc Hr. destruct (Hrs r Hr) as [Hr' Hp].
    eapply within_bind; [by eapply within_transition_of|by intros; apply within_ret].
Qed.

(** Every row of the package is archived. *)
Definition gone (p : string) (s : State) : Prop := ∀ r, r ∈ rows s → ie_packageName r = p → ie_status r = xs_archived.

Lemma gone_calm p s s' : gone p s → calm s s' → gone p s'.
Proof.
  intros Hg Hc r' [i Hi]%list_elem_of_lookup Hp. destruct (Forall2_lookup_r _ _ _ _ _ Hc Hi) as (r & Hr & (_ & Ep & _) & ->).
  apply Hg; [by eapply list_elem_of_lookup_2|congruence].
Qed.

Lemma gone_fire hook p s : (∀ h, hook = Some h → quiet (h p)) → gone p s →
  runs (fire hook p) s (λ _ s', gone p s') (λ _ _, True) (λ _, True).
Proof.
  intros Hh Hg. destruct hook as [h|]; [|by apply runs_ret]. apply runs_bind, runs_catch.
  eapply runs_mono; [by apply Hh|..]; cbn; [| |done]; intros; apply runs_ret; by eapply gone_calm.
Qed.

(** A removal or an archival that is not refused leaves no live row of this id. *)
Lemma transition_gone id op st x st' : op ∈ [lo_archive; lo_uninstall; lo_force_delete] → store_ok st →
  transitionExtensionLifecycle id op no_roles st = Ok (x, st') → ∀ r, r ∈ es_rows st' → ie_id r = id → ie_status r = xs_archived.
Proof.
  intros Hop Hok E. unfold transitionExtensionLifecycle in E. destruct (readInstalledExtensionById st id) as [ext|] eqn:Er; [|done].
  apply read_by_id in Er as [Hext Hid].
  assert (Huniq : ∀ r, r ∈ es_rows st → ie_id r = id → r = ext)
    by (intros r Hr Hri; apply (row_unique ie_id (es_rows st)); [apply Hok|done|done|congruence]).
  assert (Hup : ∀ r st1, internalUpdateInstalledExtensionStatus id xs_archived st = Ok (r, st1) →
    ∀ r, r ∈ es_rows st1 → ie_id r = id → ie_status r = xs_archived).
  { intros r st1 Hu r2. rewrite (update_row_spec _ _ _ _ _ Hu). intros (r0 & -> & Hr0)%list_elem_of_fmap Hri.
    case_bool_decide as E0; done. }
  assert (Hdel : ∀ r, r ∈ es_rows (internalDeleteInstalledExtension id st) → ie_id r = id → ie_status r = xs_archived).
  { intros r [_ Hr]%filter_in Hri. by rewrite bool_decide_true in Hr. }
  assert (Hself : ie_status ext = xs_archived → ∀ r, r ∈ es_rows st → ie_id r = id → ie_status r = xs_archived)
    by (intros Ha r Hr Hri; by rewrite (Huniq r)).
  destruct ((op ≟ lo_unlock) && _); [done|]. apply result_bind_Ok in E as (s & Es & E).
  destruct (removes_row op) eqn:Erm.
  - destruct (ie_status ext ≟ xs_locked); [done|]. destruct ((op ≟ lo_uninstall) && _).
    + case_bool_decide; [injection E as _ <-; by apply Hself|].
      apply result_bind_Ok in E as ([r1 st1] & Hu & [= _ <-]). by eapply Hup.
    + injection E as _ <-. by destruct (bool_decide (ie_kind ext ∈ _)).
  - assert (op = lo_archive) as -> by (repeat (apply elem_of_cons in Hop as [->|Hop]; [done|]); by apply elem_of_nil in Hop).
    assert (s = xs_archived) as -> by (destruct (ie_status ext); vm_compute in Es; congruence).
    destruct (_ && negb _) eqn:Eb; [injection E as _ <-; bprop; by apply Hself|].
    apply result_bind_Ok in E as ([r1 st1] & Hu & [= _ <-]). by eapply Hup.
Qed.

Lemma sync_gone p op s : op ∈ [lo_archive; lo_uninstall; lo_force_delete] → store_ok (ds_store s) →
  runs (syncCanonicalManifestTransition p op) s (λ _, gone p) (λ _ _, True) (λ _, True).
Proof.
  intros Hop Hok. apply runs_bind, runs_read; [done|done|].
  pose (I := λ (left : list InstalledExtension) (_ : ()) s', store_ok (ds_store s') ∧
    ∀ r, r ∈ rows s' → ie_packageName r = p → (∃ r0, r0 ∈ left ∧ ie_id r0 = ie_id r) ∨ ie_status r = xs_archived).
  eapply runs_mono; [apply (runs_each _ I (λ _ _, True) (λ _, True))|..]; [| |by intros _ s' [_ Hg] r Hr Hp; destruct (Hg r Hr Hp) as [(r0 & ?%elem_of_nil & _)|?]|done|done].
  - split; [done|]. intros r Hr Hp. left. exists r. split; [|done]. apply filter_in. split; [done|]. by apply bool_decide_eq_true.
  - intros row left [] s' _ [Hok' Hg]. apply runs_bind, runs_statement; [done|done|]. intros _ _.
    destruct (transitionExtensionLifecycle (ie_id row) op no_roles (ds_store s')) as [[x st]|e] eqn:E; [|done]. split; [done|].
    apply runs_ret. destruct (transition_rows _ _ _ _ _ _ E) as [Hsame _].
    split; [by destruct (transition_step _ _ _ _ _ _ E Hok')|]. intros r Hr Hp. cbn in Hr.
    destruct (decide (ie_id r = ie_id row)) as [Hid|Hid]; [right; by eapply transition_gone|].
    apply Hsame in Hr; [|done]. destruct (Hg r Hr Hp) as [(r0 & [->|Hr0]%elem_of_cons & Hi)|?]; [by destruct Hid|left; by exists r0|by right].
Qed.

(** The three ways of removing a package. *)
Inductive removal := rm_uninstall | rm_archive | rm_force_delete.

Definition remove (how : removal) (typeId : string) (ref : PackageRef) (actor : Actor) : DM unit :=
  match how with
  | rm_uninstall => uninstall typeId ref actor
  | rm_archive => archive typeId ref actor
  | rm_force_delete => _ ← forceDelete typeId ref actor; mret ()
  end.

(** What comes before the table is written: it keeps the rows. *)
Section removal.
Context (s0 : State) (p : string) (Hok : store_ok (ds_store s0)).
Abbreviation frame := (unlocked_of p s0).
Abbreviation kept := (touches frame s0).

Lemma within_remove how typeId ref actor : pr_packageName ref = p → within frame s0 (remove how typeId ref actor) (λ _, True).
Proof.
  intros Hp. pose proof (unlocked_ext p s0) as Hext.
  assert (Hcap : within frame s0 (fireExtensionCapabilityTeardown p) (λ _, True))
    by (apply within_fire; [done|]; intros h Hh; by apply dl_capability).
  assert (Hdata : within frame s0 (fireExtensionDataTeardown p) (λ _, True))
    by (apply within_fire; [done|]; intros h Hh; by apply dl_data).
  assert (Hsync : ∀ op, op ∈ LOCKED_REJECTED_OPS → within frame s0 (syncCanonicalManifestTransition p op) (λ _, True))
    by (intros op Hop; apply within_sync; by right).
  assert (Hh : ∀ (pick : ExtensionTypeHandler X → PackageRef → Actor → DM unit) h,
    (∀ h, de_handler typeId = Some h → quiet (pick h ref actor)) → de_handler typeId = Some h →
    within frame s0 (pick h ref actor) (λ _, True)) by (intros pick h Hpick Hh; apply within_quiet; [done|by apply Hpick]).
  assert (Harch : ∀ h, de_handler typeId = Some h → quiet (hd_archive h ref actor)) by (intros h E; by destruct (dl_handler _ _ E ref actor) as (_ & _ & _ & ? & _)).
  assert (Hun : ∀ h, de_handler typeId = Some h → quiet (hd_uninstall h ref actor)) by (intros h E; by destruct (dl_handler _ _ E ref actor) as (_ & _ & ? & _)).
  destruct how; cbn [remove]; unfold uninstall, archive, forceDelete; rewrite ?Hp.
  - eapply within_bind; [by apply within_no_locked|intros _ _]. eapply within_bind; [by apply within_archive_closure|intros _ _].
    eapply within_bind; [by apply within_resolve|intros h E]. eapply within_bind; [by apply within_dependents|intros dep _].
    eapply within_bind; [by apply within_used|intros used _]. destruct (used || dep).
    + eapply within_bind; [by apply (Hh hd_archive)|intros _ _]. eapply within_bind; [apply Hsync; left|by intros _ _].
    + eapply within_bind; [by apply (Hh hd_uninstall)|intros _ _]. eapply within_bind; [apply Hsync; right; left|intros _ _].
      eapply within_bind; [exact Hcap|by intros _ _].
  - eapply within_bind; [by apply within_no_locked|intros _ _]. eapply within_bind; [by apply within_archive_closure|intros _ _].
    eapply within_bind; [by apply within_resolve|intros h E]. eapply within_bind; [by apply (Hh hd_archive)|intros _ _].
    eapply within_bind; [apply Hsync; left|by intros _ _].
  - apply (within_bind _ _ _ _ (λ _, True)); [|by intros; apply within_ret]. eapply within_bind; [by apply within_no_locked|intros _ _].
    eapply within_bind; [by apply within_resolve|intros h E]. eapply within_bind; [apply within_quiet; [done|apply dl_template]|intros snap _].
    eapply within_bind; [apply within_quiet; [done|apply dl_audit]|intros dangling _].
    eapply within_bind; [destruct snap; [apply within_quiet; [done|apply dl_remove]|by apply within_ret]|intros _ _].
    eapply within_bind; [by apply (Hh hd_uninstall)|intros _ _]. eapply within_bind; [apply Hsync; right; right; left|intros _ _].
    eapply within_bind; [exact Hcap|intros _ _]. eapply within_bind; [exact Hdata|by intros; apply within_ret].
Qed.

(** From a state the gates and the handler leave, the rest of a removal. *)
Lemma sync_then {A} op s (rest : DM A) : op ∈ [lo_archive; lo_uninstall; lo_force_delete] → kept s →
  (∀ s', gone p s' → runs rest s' (λ _, gone p) (λ _ _, True) (λ _, True)) →
  runs (_ ← syncCanonicalManifestTransition p op; rest) s (λ _, gone p) (λ _ _, True) (λ _, True).
Proof.
  intros Hop Hs Hrest. apply runs_bind. eapply runs_mono; [apply sync_gone, Hs; done|..]; cbn; [|done..].
  intros _ s' Hg. by apply Hrest.
Qed.

Lemma within_then {A B} (m : DM A) (f : A → DM B) P s Q : within frame s0 m P → kept s →
  (∀ a s', P a → kept s' → runs (f a) s' Q (λ _ _, True) (λ _, True)) →
  runs (m ≫= f) s Q (λ _ _, True) (λ _, True).
Proof.
  intros Hm Hs Hf. apply runs_bind. eapply runs_mono; [by apply Hm|..]; cbn; [|done..]. intros a s' [? ?]. by apply Hf.
Qed.

Lemma remove_gone how typeId ref actor : pr_packageName ref = p →
  runs (remove how typeId ref actor) s0 (λ _, gone p) (λ _ _, True) (λ _, True).
Proof.
  intros Hp. pose proof (unlocked_ext p s0) as Hext. assert (H0 : kept s0) by by apply touches_refl.
  assert (Hcap : ∀ s, gone p s → runs (fireExtensionCapabilityTeardown p) s (λ _, gone p) (λ _ _, True) (λ _, True))
    by (intros s; apply gone_fire; intros h Hh; by apply dl_capability).
  assert (Hdata : ∀ s, gone p s → runs (fireExtensionDataTeardown p) s (λ _, gone p) (λ _ _, True) (λ _, True))
    by (intros s; apply gone_fire; intros h Hh; by apply dl_data).
  assert (Hboth : ∀ s, gone p s → runs (_ ← fireExtensionCapabilityTeardown p; fireExtensionDataTeardown p) s (λ _, gone p) (λ _ _, True) (λ _, True)).
  { intros s Hg. apply runs_bind. eapply runs_mono; [by apply Hcap|..]; cbn; [|done..]. intros _ s'. apply Hdata. }
  destruct how; cbn [remove]; unfold uninstall, archive, forceDelete; rewrite ?Hp.
  - eapply within_then; [by apply within_no_locked|done|intros _ s1 _ H1]. eapply within_then; [by apply within_archive_closure|done|intros _ s2 _ H2].
    eapply within_then; [by apply within_resolve|done|intros h s3 E H3]. eapply within_then; [by apply within_dependents|done|intros dep s4 _ H4].
    eapply within_then; [by apply within_used|done|intros used s5 _ H5]. destruct (dl_handler _ _ E ref actor) as (_ & _ & Hun & Har & _).
    destruct (used || dep); (eapply within_then; [by apply within_quiet|done|intros _ s6 _ H6]); apply sync_then; try done.
    + left.
    + right; left.
  - eapply within_then; [by apply within_no_locked|done|intros _ s1 _ H1]. eapply within_then; [by apply within_archive_closure|done|intros _ s2 _ H2].
    eapply within_then; [by apply within_resolve|done|intros h s3 E H3]. destruct (dl_handler _ _ E ref actor) as (_ & _ & Hun & Har & _).
    eapply within_then; [by apply within_quiet|done|intros _ s6 _ H6]. apply sync_then; [left|done|done].
  - apply runs_bind. eapply (runs_mono _ _ (λ _, gone p)); [|by intros a s Hg; apply runs_ret|done|done].
    eapply within_then; [by apply within_no_locked|done|intros _ s1 _ H1].
    eapply within_then; [by apply within_resolve|done|intros h s3 E H3]. destruct (dl_handler _ _ E ref actor) as (_ & _ & Hun & Har & _).
    eapply within_then; [apply within_quiet; [done|apply dl_template]|done|intros snap s4 _ H4].
    eapply within_then; [apply within_quiet; [done|apply dl_audit]|done|intros dangling s5 _ H5].
    eapply (within_then _ _ (λ _, True)); [destruct snap; [apply within_quiet; [done|apply dl_remove]|by apply within_ret]|done|intros _ s6 _ H6].
    eapply within_then; [by apply within_quiet|done|intros _ s7 _ H7]. apply sync_then; [right; right; left|done|].
    intros s Hg. apply runs_bind. eapply runs_mono; [by apply Hcap|..]; cbn; [|done..]. intros _ s' Hg'.
    apply runs_bind. eapply runs_mono; [by apply Hdata|..]; cbn; [|done..]. intros _ s'' Hg''. by apply runs_ret.
Qed.
End removal.

(** ** Installing *)

Section installing.
Context (p : string) (org : option string) (s0 : State) (Hok : store_ok (ds_store s0)).

(** The rows in place that an install never touches. *)
Definition healthy (s : State) (r : InstalledExtension) : bool := is_live r && negb (unfinished s r).
Definition installable (r : InstalledExtension) : bool :=
  at_scope p org r && negb (bool_decide (ie_id r ∈ map ie_id (List.filter (healthy s0) (rows s0)))).

Lemma installable_ext r r' : same_extension r r' → installable r' = installable r.
Proof. intros (Ei & Ep & Eo & _). unfold installable, at_scope, of_package, at_org. by rewrite Ei, Ep, Eo. Qed.

Abbreviation kept := (touches installable s0).
Abbreviation mine := (mine installable s0).

(** A row at the scope that is not healthy may be changed. *)
Lemma unhealthy_mine r : r ∈ rows s0 → at_scope p org r = true → healthy s0 r = false → mine (ie_id r).
Proof.
  intros Hr Hs Hh r0 Hr0 Hid. assert (r0 = r) as -> by (apply (row_unique ie_id (rows s0)); [apply Hok|done..]).
  unfold installable. rewrite Hs. cbn. apply negb_true_iff, bool_decide_eq_false.
  intros (r1 & Ei & [Hr1 Hh1]%filter_in)%list_elem_of_fmap.
  assert (r1 = r) as -> by (apply (row_unique ie_id (rows s0)); [apply Hok|done..]). congruence.
Qed.

Definition there (s : State) : Prop := kept s ∧ ds_journal s = ds_journal s0.

Lemma there_start : there s0.
Proof. split; [by apply touches_refl|done]. Qed.

Lemma transition_there id op s : mine id → there s → runs (transition id op) s (λ _, there) (λ _, there) there.
Proof.
  intros Hm [Hk Hj]. pose proof (within_transition installable installable_ext s0 id op Hm s Hk) as Ht.
  assert (Hjs : runs (transition id op) s (λ _ s', ds_journal s' = ds_journal s0) (λ _ s', ds_journal s' = ds_journal s0) (λ s', ds_journal s' = ds_journal s0)).
  { apply runs_statement; [done|done|]. intros _ _. by destruct (transitionExtensionLifecycle _ _ _ _) as [[]|]. }
  eapply runs_mono; [apply (runs_and _ _ _ _ _ _ _ _ Ht Hjs)|..]; cbn; unfold there; naive_solver.
Qed.

Definition existing_rows : list InstalledExtension := List.filter (at_org org) (List.filter (of_package p) (rows s0)).

Lemma existing_elem r : r ∈ existing_rows ↔ r ∈ rows s0 ∧ at_scope p org r = true.
Proof. unfold existing_rows, at_scope. rewrite !filter_in, andb_true_iff. tauto. Qed.

Lemma reactivate_there l s : (∀ r, r ∈ l → r ∈ existing_rows) → there s →
  runs (each reactivate l None) s (λ _, there) (λ _ _, False) there.
Proof.
  intros Hl Hs. apply (runs_each _ (λ _ _ s', there s')); [done|]. intros r l' last s' Hsuf Hs'. unfold reactivate.
  case_bool_decide as Ea; [|by apply runs_ret].
  assert (Hr : r ∈ existing_rows) by (apply Hl; destruct Hsuf as [k ->]; apply elem_of_app; right; left).
  apply existing_elem in Hr as [Hr Hsc]. apply runs_bind, runs_catch.
  eapply runs_mono; [apply transition_there; [|done]|..]; cbn; [|by intros; apply runs_ret|by intros; apply runs_ret|done].
  apply unhealthy_mine; [done|done|]. unfold healthy, is_live. by rewrite Ea.
Qed.

Lemma non_finalized_spec r s : runs (non_finalized r) s
  (λ b s', s' = s ∧ (b = true → unfinished s r = true)) (λ _ _, False) (λ s', s' = s).
Proof.
  unfold non_finalized, unfinished, isNonFinalizedLiveRowAware. destruct (is_live r); [|by apply runs_ret]. cbn [negb andb].
  destruct (isNonFinalizedLiveRow r); [by apply runs_ret|]. cbn [orb].
  destruct (str_of _); [|by apply runs_ret]. apply runs_bind, runs_catch, runs_read; [done|by intros; apply runs_ret|].
  apply runs_ret. cbn. by destruct (ds_journal s (ie_packageName r) (ie_organizationId r)).
Qed.

Lemma first_non_finalized_spec l s : (∀ r, r ∈ l → r ∈ existing_rows) → there s →
  runs (first_non_finalized l) s (λ r s', there s' ∧ ∀ x, r = Some x → mine (ie_id x)) (λ _ _, False) there.
Proof.
  intros Hl Hs. induction l as [|r l IH]; cbn [first_non_finalized]; [by apply runs_ret|].
  apply runs_bind. eapply runs_mono; [apply non_finalized_spec|..]; cbn; [|done|by intros _ ->].
  intros b s' [-> Hb]. destruct b; [|apply IH; intros x Hx; apply Hl; by right]. apply runs_ret. split; [done|]. intros x [= <-].
  destruct (proj1 (existing_elem r)) as [Hr Hsc]; [apply Hl; left|]. apply unhealthy_mine; [done|done|].
  unfold healthy. assert (Hu : unfinished s0 r = unfinished s r) by (unfold unfinished, journal_of; by destruct Hs as [_ ->]).
  rewrite Hu, Hb by done. by rewrite andb_false_r.
Qed.

(** What the first step says of the row it will take back. *)
Definition owns_row (en : CanonicalInstallEnsure) : Prop := ∀ id, en_ownsRollback en = true → en_rowId en = Some id → mine id.

Lemma ensure_existing_spec kind op : runs (ensure_existing kind op existing_rows) s0
  (λ en s, there s ∧ owns_row en) (λ _, there) there.
Proof.
  unfold ensure_existing. apply runs_bind. eapply runs_mono; [apply reactivate_there; [done|apply there_start]|..]; cbn; [|done|done].
  intros reactivated s Hs. apply runs_bind. eapply runs_mono; [by apply first_non_finalized_spec|..]; cbn; [|done|done].
  intros broken s' [Hs' Hb]. destruct broken as [r|].
  { apply runs_ret. split; [done|]. intros id _ [= <-]. by apply Hb. }
  destruct reactivated; [by apply runs_ret|]. destruct (List.find is_live existing_rows); [|by apply runs_ret].
  destruct (_ || _); by apply runs_ret.
Qed.

(** The row of a new install. *)
Lemma create_store kind ref row st : existing_rows = [] →
  installExtensionManifest de_isDev (placeholder_row (newRowId s0) p kind ref org)
    (Some (if isPackageRequiredInProd p && negb de_isDev then xs_locked else xs_active)) (ds_store s0) = Ok (row, st) →
  es_rows st = rows s0 ++ [row] ∧ store_ok st ∧ ie_id row = newRowId s0 ∧ at_scope p org row = true ∧ is_live row = true.
Proof.
  intros Hnone E. unfold installExtensionManifest in E.
  assert (Hi : ∃ status, status ≠ xs_archived ∧
    internalInsertInstalledExtension (with_status status (placeholder_row (newRowId s0) p kind ref org)) (ds_store s0) = Ok (row, st)).
  { repeat case_match; try done; eexists; (split; [|exact E]); destruct (isPackageRequiredInProd p), de_isDev; cbn; try done; by repeat case_match. }
  destruct Hi as (status & Hst & Hi). destruct (insert_spec _ _ _ _ Hi Hok) as [Hrows Hok']. split_and!; [done|done|..];
    unfold internalInsertInstalledExtension in Hi; destruct (_ || _); try done; injection Hi as <- _; cbn; try done.
  - unfold at_scope, of_package, at_org. cbn. by rewrite !bool_decide_true.
  - unfold is_live. cbn. by rewrite bool_decide_false.
Qed.

(** The new row alone. *)
Lemma created_there row st : es_rows st = rows s0 ++ [row] → store_ok st → ie_id row = newRowId s0 → at_scope p org row = true →
  there (set_store st s0) ∧ mine (newRowId s0).
Proof.
  intros Hrows Hok' Hid Hsc.
  assert (Hfresh : ∀ r, r ∈ rows s0 → ie_id r ≠ newRowId s0).
  { intros r Hr Ei. destruct Hok' as [Hnd _]. rewrite Hrows, map_app in Hnd. apply NoDup_app in Hnd as (_ & Hno & _).
    apply (Hno (ie_id r)); [by apply list_elem_of_fmap_2|]. rewrite Ei, <- Hid. left. }
  assert (Hnew : installable row = true).
  { unfold installable. rewrite Hsc. cbn. apply negb_true_iff, bool_decide_eq_false. rewrite Hid.
    intros (r & Ei & [Hr _]%filter_in)%list_elem_of_fmap. by apply (Hfresh r). }
  split; [|by intros r Hr Ei; apply Hfresh in Hr]. split; [|done]. split; [done|]. unfold rows. cbn. rewrite Hrows. split.
  - intros r Hr _. exists r. split; [apply elem_of_app; by left|apply same_row_refl].
  - intros r [Hr| ->%list_elem_of_singleton]%elem_of_app Hq; [|congruence]. exists r. split; [done|apply same_row_refl].
Qed.

Lemma create_row_spec kind ref : existing_rows = [] →
  runs (create_row p kind ref org) s0 (λ en s, there s ∧ owns_row en) (λ _, there) there.
Proof.
  intros Hnone. pose proof there_start as H0. unfold create_row. destruct (literal EXTENSION_KINDS _) as [k|]; [|by apply runs_throw].
  apply runs_bind, runs_statement; [done|done|]. intros _ _.
  destruct (installExtensionManifest _ _ _ _) as [[row st]|e] eqn:E; [|by split].
  destruct (create_store k ref row st Hnone E) as (Hrows & Hok' & Hid & Hsc & _).
  destruct (created_there row st Hrows Hok' Hid Hsc) as [Ht Hm]. split; [done|]. apply runs_ret. split; [done|].
  intros id _ [= <-]. cbn. by rewrite Hid.
Qed.

Lemma sync_install_spec kind ref op : runs (syncCanonicalManifestInstall p kind ref org op) s0
  (λ en s, there s ∧ owns_row en) (λ _, there) there.
Proof.
  pose proof there_start as H0. unfold syncCanonicalManifestInstall. destruct (negb _); [by apply runs_ret|].
  assert (Hgive : ∀ s, there s → runs (if uses_activate_hook kind then throw (dx_no_row p) else mret nothing_ensured) s
    (λ en s, there s ∧ owns_row en) (λ _, there) there).
  { intros s Hs. destruct (uses_activate_hook kind); [by apply runs_throw|]. apply runs_ret. split; [done|]. by intros id. }
  cbv zeta. apply runs_bind, runs_catch, runs_read; [done|intros; by apply Hgive|].
  fold existing_rows. apply runs_bind, runs_catch. pose proof (ensure_existing_spec kind op) as Hex.
  pose proof (create_row_spec kind ref) as Hcr. destruct existing_rows as [|r l] eqn:E.
  - eapply runs_mono; [by apply Hcr|..]; cbn; [intros; by apply runs_ret|intros; by apply Hgive|done].
  - eapply runs_mono; [exact Hex|..]; cbn; [intros; by apply runs_ret|intros; by apply Hgive|done].
Qed.

Lemma update_gate_spec' ref actor op s : runs (update_gate ref actor op) s (λ _ s', s' = s) (λ _ s', s' = s) (λ s', s' = s).
Proof.
  unfold update_gate. destruct op, (pr_version ref) as [v|]; try by apply runs_ret. destruct (v ≟ ""); [by apply runs_ret|].
  apply runs_bind, runs_read; [done|done|]. unfold closure_gate. destruct (assertUpdateDoesNotBreakDependents _ _ _ _); [by apply runs_ret|by apply runs_throw].
Qed.

Lemma within_owned en : owns_row en → within installable s0 (rollback_owned en) (λ _, True).
Proof.
  intros Ho. unfold rollback_owned. destruct (en_ownsRollback en) eqn:Eo, (en_rowId en) as [id|] eqn:Ei; try by apply within_ret.
  apply within_rollback; [apply installable_ext|by apply Ho].
Qed.

Lemma within_judge en r : owns_row en → within installable s0 (judge_activation en r) (λ _, True).
Proof.
  intros Ho. unfold judge_activation. destruct (ar_finalized r) as [[]|];
    try (eapply within_bind; [by apply within_owned|intros; apply within_throw]).
  destruct (ar_rolledBack r); [apply within_throw|]. destruct (negb _); [apply within_throw|by apply within_ret].
Qed.

Lemma within_activate v : within installable s0 (fireExtensionActivate p org v) (λ _, True).
Proof.
  unfold fireExtensionActivate. destruct de_activateHook as [hook|] eqn:E; [|by apply within_ret].
  eapply within_bind; [apply within_catch, within_quiet; [apply installable_ext|by apply dl_activate]|intros; by apply within_ret].
Qed.

(** The handler and what follows it. *)
Definition after_ensure (handler : ExtensionTypeHandler X) (typeId : string) (ref : PackageRef) (actor : Actor) (op : HostOp)
    (en : CanonicalInstallEnsure) : DM unit :=
  r ← catch ((match op with ho_update => hd_update handler | ho_install => hd_install handler end) ref actor);
  match r with
  | Err e => _ ← rollback_owned en; throw e
  | Ok _ =>
      if negb (en_needsPipeline en) || negb (uses_activate_hook typeId) then mret ()
      else result ← fireExtensionActivate (pr_packageName ref) (ac_orgId actor) (pr_version ref);
           judge_activation en result
  end.

Lemma host_install_unfold typeId ref actor op s n : runHostInstallLocked typeId ref actor op s n =
  (handler ← resolve typeId;
   _ ← (match checkRequiredExtensionVersionPin de_requiredEntries (pr_packageName ref) (pr_version ref) with
        | Some range => throw (dx_pin range) | None => mret () end);
   _ ← update_gate ref actor op;
   en ← syncCanonicalManifestInstall (pr_packageName ref) typeId ref (ac_orgId actor) op;
   after_ensure handler typeId ref actor op en) s n.
Proof. reflexivity. Qed.

Lemma within_after handler typeId ref actor op en : de_handler typeId = Some handler → pr_packageName ref = p →
  ac_orgId actor = org → owns_row en → within installable s0 (after_ensure handler typeId ref actor op en) (λ _, True).
Proof.
  intros Hh Hp Ho Hen. unfold after_ensure. rewrite Hp, Ho.
  assert (Hq : quiet ((match op with ho_update => hd_update handler | ho_install => hd_install handler end) ref actor))
    by (destruct (dl_handler _ _ Hh ref actor) as (? & ? & _); by destruct op).
  eapply within_bind; [apply within_catch, within_quiet; [apply installable_ext|exact Hq]|]. intros [|e] _.
  - destruct (_ || _); [by apply within_ret|]. eapply within_bind; [apply within_activate|]. intros r _. by apply within_judge.
  - eapply within_bind; [by apply within_owned|intros; apply within_throw].
Qed.

(** Up to the first write, nothing changes. *)
Lemma host_install_prefix typeId ref actor op (Q : () → State → Prop) QE C : pr_packageName ref = p → ac_orgId actor = org →
  C s0 → (∀ e, QE e s0) →
  (∀ handler, de_handler typeId = Some handler →
     runs (en ← syncCanonicalManifestInstall p typeId ref org op; after_ensure handler typeId ref actor op en) s0 Q QE C) →
  runs (runHostInstallLocked typeId ref actor op) s0 Q QE C.
Proof.
  intros Hp Ho Hc He Hrest n. rewrite host_install_unfold, Hp, Ho. revert n.
  match goal with |- ∀ n, ends (?m s0 n) _ _ _ => change (runs m s0 Q QE C) end.
  apply runs_bind. unfold resolve. destruct (de_handler typeId) as [handler|]; [|by apply runs_throw]. apply runs_ret.
  apply runs_bind. destruct (checkRequiredExtensionVersionPin _ _ _); [by apply runs_throw|]. apply runs_ret.
  apply runs_bind. eapply runs_mono; [apply update_gate_spec'|..]; cbn; [|by intros e s ->|by intros s ->].
  intros _ s ->. by apply Hrest.
Qed.

Lemma host_install_frame typeId ref actor op : pr_packageName ref = p → ac_orgId actor = org →
  runs (runHostInstallLocked typeId ref actor op) s0 (λ _, kept) (λ _, kept) kept.
Proof.
  intros Hp Ho. assert (H0 : kept s0) by apply there_start. apply host_install_prefix; [done..|]. intros handler Hh.
  apply runs_bind. eapply runs_mono; [apply sync_install_spec|..]; cbn; [|by intros e s [? _]|by intros s [? _]].
  intros en s [[Hk _] Hen]. eapply runs_mono; [by apply within_after|..]; cbn; [by intros _ s' []|done|done].
Qed.

(** ** When the store answers *)

(** What the row of a new install needs to be accepted; the id that is drawn is not taken. *)
Definition admissible (typeId : string) (ref : PackageRef) : Prop :=
  literal EXTENSION_KINDS (Some (JStr typeId)) ≠ None ∧ pr_packageName ref = p ∧ p ≠ "" ∧
  isVerdaccioBackedRef ref = true ∧ org ≠ Some "" ∧ org ≠ Some PLATFORM_OWNER_SENTINEL ∧
  validateExtensionSource (ie_source (placeholder_row "" p xk_agent ref org)) = [] ∧
  (∀ r, r ∈ rows s0 → ie_id r ≠ newRowId s0).

Definition live_at (s : State) : Prop := ∃ r, r ∈ rows s ∧ at_scope p org r = true ∧ is_live r = true.

Lemma live_calm s s' : live_at s → calm s s' → live_at s'.
Proof.
  intros (r & [i Hi]%list_elem_of_lookup & Hs & Hl) Hc. destruct (Forall2_lookup_l _ _ _ _ _ Hc Hi) as (r' & Hr' & (_ & Ep & Eo & _) & Est).
  exists r'. split_and!; [by eapply list_elem_of_lookup_2| |].
  - unfold at_scope, of_package, at_org in *. by rewrite Ep, Eo.
  - unfold is_live in *. by rewrite Est.
Qed.

Context (Hfaults : ∀ n, fault_at n = fault_none).

Lemma create_ok kind ref typeId : admissible typeId ref → existing_rows = [] →
  ∃ row st, installExtensionManifest de_isDev (placeholder_row (newRowId s0) p kind ref org)
    (Some (if isPackageRequiredInProd p && negb de_isDev then xs_locked else xs_active)) (ds_store s0) = Ok (row, st).
Proof.
  intros (_ & _ & Hp & _ & Ho1 & Ho2 & Hv & Hid) Hnone. unfold installExtensionManifest.
  assert (Eid : (ie_id (placeholder_row (newRowId s0) p kind ref org) ≟ "") = false) by by apply bool_decide_eq_false.
  rewrite Eid. cbn [ie_packageName placeholder_row]. rewrite bool_decide_false by done.
  change (ie_source (placeholder_row (newRowId s0) p kind ref org)) with (ie_source (placeholder_row "" p xk_agent ref org)). rewrite Hv.
  assert (Hstart : ∀ b1 b2 : bool, (negb ((Some (if b1 && b2 then xs_locked else xs_active) ?? xs_active) ≟ xs_active) &&
    negb ((Some (if b1 && b2 then xs_locked else xs_active) ?? xs_active) ≟ xs_locked)) = false) by by intros [] [].
  rewrite Hstart. cbn [andb]. match goal with |- context [with_status ?st] => generalize st end. intros status.
  unfold internalInsertInstalledExtension. set (q := owned_by _ _).
  assert (Hclash : existsb (λ x, (ie_id x ≟ ie_id q) || identity_clash x q) (es_rows (ds_store s0)) = false).
  { apply not_true_iff_false. intros (x & Hx%list_elem_of_In & Hc)%existsb_exists. apply orb_true_iff in Hc as [Hc|Hc].
    - bprop. by apply (Hid x).
    - unfold identity_clash in Hc. bprop. apply (not_elem_of_nil x). rewrite <- Hnone. apply existing_elem. split; [done|].
      unfold at_scope, of_package, at_org. by rewrite !bool_decide_true. }
  rewrite Hclash. assert (Hplat : platform_invariant q = true).
  { unfold platform_invariant, q, owned_by, platformizeOwnerId, with_status, placeholder_row, identity_org. cbn.
    destruct org as [o|]; [|done]. rewrite (bool_decide_false (o = "")) by congruence. cbn.
    rewrite (bool_decide_false (xo_organization = xo_platform)) by done. apply negb_true_iff, bool_decide_eq_false. congruence. }
  rewrite Hplat. cbn. by eexists _, _.
Qed.

(** Activating an archived row. *)
Lemma activate_ok st r : store_ok st → r ∈ es_rows st → ie_status r = xs_archived →
  ∃ x st', transitionExtensionLifecycle (ie_id r) lo_activate no_roles st = Ok (x, st') ∧
    es_rows st' = map (λ y, if ie_id y ≟ ie_id r then with_status xs_active y else y) (es_rows st).
Proof.
  intros Hok' Hr Ha. unfold transitionExtensionLifecycle. rewrite read_unique by done. cbn -[internalUpdateInstalledExtensionStatus transitionMatrix].
  rewrite Ha. replace (transitionMatrix xs_archived lo_activate) with (Ok (E := LifecycleCode) xs_active) by by vm_compute.
  cbn -[internalUpdateInstalledExtensionStatus]. replace (removes_row lo_activate) with false by by vm_compute.
  pose proof (update_row_present (ie_id r) (with_status xs_active) st r Hr eq_refl eq_refl) as Hp.
  change (update_row (ie_id r) (with_status xs_active) st) with (internalUpdateInstalledExtensionStatus (ie_id r) xs_active st) in Hp.
  destruct (internalUpdateInstalledExtensionStatus (ie_id r) xs_active st) as [[y st']|e] eqn:E; [|done].
  exists (Some y), st'. split; [by vm_compute|]. by apply (update_row_spec _ _ _ _ _ E).
Qed.

Definition reactivating (left : list InstalledExtension) (last : option string) (s : State) : Prop :=
  store_ok (ds_store s) ∧ NoDup (map ie_id left) ∧ (∀ r, r ∈ left → r ∈ rows s ∧ at_scope p org r = true) ∧
  (∀ r, r ∈ existing_rows → r ∈ left ∨ live_at s) ∧ (∀ r, r ∈ existing_rows → r ∈ left ∨ is_live r = true ∨ last ≠ None).

Lemma reactivate_live : runs (each reactivate existing_rows None) s0
  (λ last, reactivating [] last) (λ _ _, False) (λ _, True).
Proof.
  apply runs_each.
  - split_and!; [done| |by intros r ?%existing_elem|by left|by left].
    unfold existing_rows. apply NoDup_map_filter, NoDup_map_filter, Hok.
  - intros r left last s _ (Hok' & Hnd & Hl & Hex & Hla). cbn in Hnd. apply NoDup_cons in Hnd as [Hne Hnd].
    destruct (Hl r) as [Hr Hsc]; [left|]. unfold reactivate. case_bool_decide as Ha.
    + destruct (activate_ok (ds_store s) r Hok' Hr Ha) as (x & st & E & Hrows).
      apply runs_bind, runs_catch, runs_statement_ok; [done|done|]. intros i. rewrite E. apply runs_ret.
      assert (Hlive : live_at (set_store st s)).
      { exists (with_status xs_active r). split_and!; [|done|done]. unfold rows. cbn. rewrite Hrows. apply list_elem_of_fmap.
        exists r. by rewrite bool_decide_true. }
      split_and!; [by destruct (transition_step _ _ _ _ _ _ E Hok')|done| |by right|by right; right].
      intros r' Hr'. destruct (Hl r') as [Hin Hsc']; [by right|]. split; [|done]. unfold rows. cbn. rewrite Hrows.
      apply list_elem_of_fmap. exists r'. rewrite bool_decide_false; [done|]. intros Ei. apply Hne. rewrite <- Ei. by apply list_elem_of_fmap_2.
    + assert (Hlv : is_live r = true) by (unfold is_live; by rewrite bool_decide_false).
      apply runs_ret. split_and!; [done|done|intros r' Hr'; apply Hl; by right| |].
      * intros r' Hr'. destruct (Hex r' Hr') as [[->|?]%elem_of_cons|?]; [right; by exists r|by left|by right].
      * intros r' Hr'. destruct (Hla r' Hr') as [[->|?]%elem_of_cons|?]; [by right; left|by left|by right].
Qed.

(** The step before the handler, when nothing fails. *)
Definition ensured (typeId : string) (en : CanonicalInstallEnsure) (s : State) : Prop :=
  store_ok (ds_store s) ∧ live_at s ∧ (uses_activate_hook typeId = true → en_needsPipeline en = true) ∧
  (existing_rows = [] → ∃ id, en = {| en_needsPipeline := true; en_rowId := Some id; en_ownsRollback := true |} ∧
     ∀ r, r ∈ rows s → at_scope p org r = true → ie_id r = id).

Lemma first_non_finalized_ok l s : runs (first_non_finalized l) s (λ _ s', s' = s) (λ _ _, False) (λ _, True).
Proof.
  induction l as [|r l IH]; cbn [first_non_finalized]; [by apply runs_ret|]. apply runs_bind.
  eapply runs_mono; [apply non_finalized_spec|..]; cbn; [|done|done]. intros b s' [-> _]. destruct b; [by apply runs_ret|done].
Qed.

Lemma existing_ok typeId op : existing_rows ≠ [] → runs (ensure_existing typeId op existing_rows) s0 (ensured typeId) (λ _ _, False) (λ _, True).
Proof.
  intros Hne. unfold ensure_existing. apply runs_bind. eapply runs_mono; [apply reactivate_live|..]; cbn; [|done|done].
  intros last s (Hok' & _ & _ & Hex & Hla). destruct existing_rows as [|r0 rest] eqn:E; [done|].
  destruct (Hex r0) as [?%elem_of_nil|Hlive]; [left|done|].
  assert (Hen : ∀ en, (uses_activate_hook typeId = true → en_needsPipeline en = true) → ensured typeId en s).
  { intros en Hp. split_and!; [done|done|done|]. by rewrite E. }
  apply runs_bind. eapply runs_mono; [apply first_non_finalized_ok|..]; cbn; [|done|done]. intros broken s' ->.
  destruct broken; [apply runs_ret; by apply Hen|]. destruct last as [id|]; [apply runs_ret; by apply Hen|].
  change (if is_live r0 then Some r0 else List.find is_live rest) with (List.find is_live (r0 :: rest)).
  destruct (List.find is_live (r0 :: rest)) as [lv|] eqn:Ef.
  - destruct ((op ≟ ho_update) || uses_activate_hook typeId) eqn:Eo; apply runs_ret; apply Hen; [done|].
    intros Hu. by rewrite Hu, orb_true_r in Eo.
  - exfalso. destruct (Hla r0) as [?%elem_of_nil|[Hl|?]]; [left|done| |done].
    pose proof (find_none _ _ Ef r0 (or_introl eq_refl)). congruence.
Qed.

Lemma sync_ok typeId ref op : admissible typeId ref →
  runs (syncCanonicalManifestInstall p typeId ref org op) s0 (ensured typeId) (λ _ _, False) (λ _, True).
Proof.
  intros Ha. pose proof Ha as (Hk & _ & _ & Hv & _). unfold syncCanonicalManifestInstall. rewrite Hv. cbn [negb].
  cbv zeta. apply runs_bind, runs_catch, runs_statement_ok; [done|done|]. intros _. fold existing_rows. apply runs_bind, runs_catch.
  pose proof (existing_ok typeId op) as Hex. destruct existing_rows as [|r l] eqn:E.
  - unfold create_row. destruct (literal EXTENSION_KINDS _) as [k|] eqn:Ek; [|done].
    destruct (create_ok k ref typeId Ha E) as (row & st & Ei). destruct (create_store k ref row st E Ei) as (Hrows & Hok' & Hid & Hsc & Hlv).
    apply runs_bind, runs_statement_ok; [done|done|]. intros _. rewrite Ei. apply runs_ret, runs_ret. split_and!; [done| |done|].
    + exists row. split_and!; [|done|done]. unfold rows. cbn. rewrite Hrows. apply elem_of_app. right. left.
    + intros _. exists (ie_id row). split; [done|]. intros r. unfold rows at 1. cbn. rewrite Hrows.
      intros [Hr| ->%list_elem_of_singleton]%elem_of_app Hs; [|done]. exfalso. apply (not_elem_of_nil r). rewrite <- E. by apply existing_elem.
  - eapply runs_mono; [by apply Hex|..]; cbn; [intros; by apply runs_ret|done|done].
Qed.

(** The rollback of the only row at the scope. *)
Lemma non_finalized_ok r s : runs (non_finalized r) s (λ b s', s' = s ∧ b = unfinished s r) (λ _ _, False) (λ _, True).
Proof.
  unfold non_finalized, unfinished, isNonFinalizedLiveRowAware. destruct (is_live r); [|by apply runs_ret]. cbn [negb andb].
  destruct (isNonFinalizedLiveRow r); [by apply runs_ret|]. cbn [orb].
  destruct (str_of _); [|by apply runs_ret]. apply runs_bind, runs_catch, runs_statement_ok; [done|done|]. intros _.
  apply runs_ret. cbn. by destruct (ds_journal s (ie_packageName r) (ie_organizationId r)).
Qed.

Definition only (id : string) (s : State) : Prop := ∀ r, r ∈ rows s → at_scope p org r = true → ie_id r = id.

Lemma only_calm id s s' : only id s → calm s s' → only id s'.
Proof.
  intros Ho Hc r' [i Hi]%list_elem_of_lookup Hs. destruct (Forall2_lookup_r _ _ _ _ _ Hc Hi) as (r & Hr & (-> & Ep & Eorg & _) & _).
  apply Ho; [by eapply list_elem_of_lookup_2|]. unfold at_scope, of_package, at_org in *. by rewrite <- Ep, <- Eorg.
Qed.

Lemma rollback_only id s : store_ok (ds_store s) → only id s →
  runs (rollbackNonFinalizedCanonicalRow id) s (λ _, all_finalized p org) (λ _ _, False) (λ _, True).
Proof.
  intros Hok' Ho. unfold rollbackNonFinalizedCanonicalRow. apply runs_bind, runs_catch, runs_bind, runs_statement_ok; [done|done|]. intros _.
  destruct (readInstalledExtensionById (ds_store s) id) as [row|] eqn:Er.
  - apply read_by_id in Er as [Hrow Hid].
    assert (Hone : ∀ r, r ∈ rows s → at_scope p org r = true → r = row).
    { intros r Hr Hs. apply (row_unique ie_id (rows s)); [apply Hok'|done|done|]. rewrite (Ho r Hr Hs). done. }
    apply runs_bind. eapply runs_mono; [apply non_finalized_ok|..]; cbn; [|done|done]. intros b s' [-> ->].
    destruct (unfinished s row) eqn:Eu.
    + apply runs_statement_ok; [done|done|]. intros _. unfold deleteNonFinalizedCanonicalRow. subst id. rewrite read_unique by done.
      unfold unfinished in Eu. rewrite Eu. cbn [negb]. apply runs_ret. intros r Hr Hs. apply filter_in in Hr as [Hr Hne].
      rewrite (Hone r Hr Hs), bool_decide_true in Hne by done. done.
    + apply runs_ret, runs_ret. intros r Hr Hs. by rewrite (Hone r Hr Hs).
  - apply runs_ret, runs_ret. intros r Hr Hs. exfalso. pose proof (Ho r Hr Hs) as Hid.
    pose proof (read_unique (ds_store s) r Hok' Hr) as Hread. rewrite Hid in Hread. congruence.
Qed.

(** The row is taken back if the dispatcher made it. *)
Lemma rollback_done en s : store_ok (ds_store s) →
  (existing_rows = [] → ∃ id, en = {| en_needsPipeline := true; en_rowId := Some id; en_ownsRollback := true |} ∧ only id s) →
  runs (rollback_owned en) s (λ _ s', existing_rows = [] → all_finalized p org s') (λ _ s', existing_rows = [] → all_finalized p org s') (λ _, True).
Proof.
  intros Hok' Hen. destruct existing_rows as [|r l] eqn:E.
  - destruct (Hen eq_refl) as (id & -> & Ho). eapply runs_mono; [by apply rollback_only|..]; cbn; [done|done|done].
  - intros n. by destruct (rollback_owned en s n).
Qed.

Lemma activate_spec v s : runs (fireExtensionActivate p org v) s
  (λ r s', calm s s' ∧ (ar_finalized r = Some true → de_activateHook ≠ None ∧ all_finalized p org s')) (λ _ _, False) (λ _, True).
Proof.
  unfold fireExtensionActivate. destruct de_activateHook as [hook|] eqn:E.
  - apply runs_bind, runs_catch. eapply runs_mono; [apply runs_and; [by apply dl_activate|by apply dl_finalized]|..]; cbn; [| |done].
    + intros r s' [Hc Hf]. apply runs_ret. split; [done|]. intros Hr. split; [done|by apply Hf].
    + intros e s' [Hc _]. apply runs_ret. by split.
  - apply runs_ret. split; [|done]. unfold calm. induction (rows s); constructor; [apply same_row_refl|done].
Qed.

Definition installed (typeId : string) (s : State) : Prop :=
  live_at s ∧ (uses_activate_hook typeId = true → de_activateHook ≠ None ∧ all_finalized p org s).

(** Without a row before, a failure leaves no install that looks finished. *)
Definition cleaned (s : State) : Prop := existing_rows = [] → all_finalized p org s.

Lemma judge_ok typeId en s r : store_ok (ds_store s) → live_at s →
  (existing_rows = [] → ∃ id, en = {| en_needsPipeline := true; en_rowId := Some id; en_ownsRollback := true |} ∧ only id s) →
  (ar_finalized r = Some true → de_activateHook ≠ None ∧ all_finalized p org s) →
  runs (judge_activation en r) s (λ _, installed typeId) (λ _, cleaned) (λ _, True).
Proof.
  intros Hok' Hl Hen Hf. unfold judge_activation.
  assert (Hback : ∀ e, runs (_ ← rollback_owned en; throw e) s (λ _ : (), installed typeId) (λ _, cleaned) (λ _, True)).
  { intros e. apply runs_bind. eapply runs_mono; [by apply rollback_done|..]; cbn; [intros _ s' Hs'; by apply runs_throw|done|done]. }
  destruct (ar_finalized r) as [[]|]; [|apply Hback..]. destruct Hf as [Hh Ha]; [done|].
  assert (Hc : cleaned s) by exact (λ _, Ha). destruct (ar_rolledBack r); [by apply runs_throw|]. destruct (negb _); [by apply runs_throw|]. by apply runs_ret.
Qed.

Lemma after_ok handler typeId ref actor op en s : de_handler typeId = Some handler → pr_packageName ref = p → ac_orgId actor = org →
  ensured typeId en s → runs (after_ensure handler typeId ref actor op en) s (λ _, installed typeId) (λ _, cleaned) (λ _, True).
Proof.
  intros Hh Hp Ho (Hok' & Hl & Hneed & Hnew). unfold after_ensure. rewrite Hp, Ho.
  assert (Hq : quiet ((match op with ho_update => hd_update handler | ho_install => hd_install handler end) ref actor))
    by (destruct (dl_handler _ _ Hh ref actor) as (? & ? & _); by destruct op).
  assert (Hcalm : ∀ s', calm s s' → store_ok (ds_store s') ∧ live_at s' ∧
    (existing_rows = [] → ∃ id, en = {| en_needsPipeline := true; en_rowId := Some id; en_ownsRollback := true |} ∧ only id s')).
  { intros s' Hc. split; [by eapply calm_ok|split; [by eapply live_calm|]]. intros E. destruct (Hnew E) as (id & -> & Hid).
    exists id. split; [done|by eapply only_calm]. }
  apply runs_bind, runs_catch. eapply runs_mono; [apply Hq|..]; cbn; [| |done].
  - intros _ s1 Hc. destruct (Hcalm _ Hc) as (Hok1 & Hl1 & Hnew1). destruct (negb _ || negb _) eqn:E.
    { apply runs_ret. split; [done|]. intros Hu. rewrite Hu, (Hneed Hu) in E. done. }
    apply runs_bind. eapply runs_mono; [apply activate_spec|..]; cbn; [|done|done]. intros r s2 [Hc2 Hf].
    apply judge_ok; [by eapply calm_ok|by eapply live_calm| |done]. intros Ex. destruct (Hnew1 Ex) as (id & -> & Hid).
    exists id. split; [done|by eapply only_calm].
  - intros e s1 Hc. destruct (Hcalm _ Hc) as (Hok1 & Hl1 & Hnew1). apply runs_bind.
    eapply runs_mono; [by apply rollback_done|..]; cbn; [intros _ s' Hs'; by apply runs_throw|done|done].
Qed.

Lemma host_install_ok typeId ref actor op : pr_packageName ref = p → ac_orgId actor = org → admissible typeId ref →
  runs (runHostInstallLocked typeId ref actor op) s0 (λ _, installed typeId) (λ _, cleaned) (λ _, True).
Proof.
  intros Hp Ho Ha. apply host_install_prefix; [done..| |].
  - intros _ E r Hr Hs. exfalso. apply (not_elem_of_nil r). rewrite <- E. by apply existing_elem.
  - intros handler Hh. apply runs_bind. eapply runs_mono; [by apply sync_ok|..]; cbn; [|done|done]. intros en s He. by apply after_ok.
Qed.
End installing.

(** ** Locking at boot *)

Section boot.
Context (s0 : State) (Hok : store_ok (ds_store s0)) (Hfaults : ∀ n, fault_at n = fault_none).

Definition locked_in (p : string) (s : State) : Prop := ∀ r, r ∈ rows s → ie_packageName r = p → ie_status r = xs_locked.

(** A row before and after: the same, or now locked. *)
Definition lockable (r r' : InstalledExtension) : Prop :=
  same_extension r r' ∧ (ie_status r' = ie_status r ∨ ie_status r' = xs_locked ∧ ie_packageName r ∈ inventory).

Lemma lockable_trans a b c : lockable a b → lockable b c → lockable a c.
Proof.
  intros [Hab Sab] [Hbc Sbc]. split; [unfold same_extension in *; intuition congruence|].
  destruct Sbc as [->|[-> Hin]]; [done|right]. split; [done|]. destruct Hab as (_ & <- & _). done.
Qed.

Definition lock_row (id : string) (y : InstalledExtension) : InstalledExtension := if ie_id y ≟ id then with_status xs_locked y else y.

Lemma lock_row_at id y : ie_id y = id → ie_status (lock_row id y) = xs_locked.
Proof. intros <-. unfold lock_row. by rewrite bool_decide_true. Qed.

Lemma lock_row_other id y : ie_id y ≠ id → lock_row id y = y.
Proof. intros Hy. unfold lock_row. by rewrite bool_decide_false. Qed.

Lemma lock_row_same id y : same_extension y (lock_row id y).
Proof. unfold lock_row. case_bool_decide; [apply same_with_status|by split_and!]. Qed.

Lemma lock_ok st r : store_ok st → r ∈ es_rows st → ∃ x st', transitionExtensionLifecycle (ie_id r) lo_lock no_roles st = Ok (x, st') ∧
  store_ok st' ∧ es_rows st' = map (lock_row (ie_id r)) (es_rows st).
Proof.
  intros Hok' Hr. assert (Hex : ∃ x st', transitionExtensionLifecycle (ie_id r) lo_lock no_roles st = Ok (x, st') ∧
    es_rows st' = map (lock_row (ie_id r)) (es_rows st)).
  { unfold transitionExtensionLifecycle. rewrite read_unique by done. cbn -[internalUpdateInstalledExtensionStatus transitionMatrix].
    replace (transitionMatrix (ie_status r) lo_lock) with (Ok (E := LifecycleCode) xs_locked) by by destruct (ie_status r); vm_compute.
    cbn -[internalUpdateInstalledExtensionStatus]. replace (removes_row lo_lock) with false by by vm_compute.
    destruct (decide (ie_status r = xs_locked)) as [El|Hl].
    - exists (Some r), st. rewrite El. split; [by vm_compute|]. rewrite <- (map_id (es_rows st)) at 1. apply map_ext_in.
      intros y Hy%list_elem_of_In. unfold lock_row. case_bool_decide as E; [|done].
      assert (y = r) as -> by (apply (row_unique ie_id (es_rows st)); [apply Hok'|done..]). destruct r. cbn in *. by subst.
    - pose proof (update_row_present (ie_id r) (with_status xs_locked) st r Hr eq_refl eq_refl) as Hp.
      change (update_row (ie_id r) (with_status xs_locked) st) with (internalUpdateInstalledExtensionStatus (ie_id r) xs_locked st) in Hp.
      destruct (internalUpdateInstalledExtensionStatus (ie_id r) xs_locked st) as [[y st']|e] eqn:E; [|done].
      exists (Some y), st'. rewrite (bool_decide_false (xs_locked = ie_status r)) by congruence. split; [done|].
      by rewrite (update_row_spec _ _ _ _ _ E). }
  destruct Hex as (x & st' & E & Hrows). exists x, st'. split_and!; [done| |done]. by destruct (transition_step _ _ _ _ _ _ E Hok').
Qed.

Definition booted (s : State) : Prop := Forall2 lockable (rows s0) (rows s).

(** The state of the loop over the packages: [left] are still to be locked. *)
Definition booting (left : list string) (s : State) : Prop :=
  store_ok (ds_store s) ∧ booted s ∧ ∀ p, p ∈ inventory → p ∈ left ∨ locked_in p s.

(** The state of the loop over the rows of one package. *)
Definition locking (p : string) (left : list InstalledExtension) (s : State) : Prop :=
  (∀ r, r ∈ rows s → ie_packageName r = p → ie_status r = xs_locked ∨ ie_id r ∈ map ie_id left) ∧
  (∀ r, r ∈ left → ∃ r', r' ∈ rows s ∧ ie_id r' = ie_id r ∧ ie_packageName r' = p ∧ (ie_status r = xs_locked → ie_status r' = xs_locked)).

(** One row locked. *)
Lemma lock_step left r s st : booting left s → r ∈ rows s → ie_packageName r ∈ inventory →
  store_ok st → es_rows st = map (lock_row (ie_id r)) (rows s) → booting left (set_store st s).
Proof.
  intros (Hs & Hf & Hl) Hr Hp Hst Hrows.
  assert (Hnow : rows (set_store st s) = map (lock_row (ie_id r)) (rows s)) by done. split; [done|]. unfold booted. rewrite Hnow. split.
  - apply Forall2_same_length_lookup_2; [rewrite length_map; by eapply Forall2_length|].
    intros i a b' Ha (b & -> & Hb)%list_lookup_fmap_Some. pose proof (Forall2_lookup_lr _ _ _ _ _ _ Hf Ha Hb) as Hab.
    apply list_elem_of_lookup_2 in Hb. eapply lockable_trans; [exact Hab|]. split; [apply lock_row_same|].
    destruct (decide (ie_id b = ie_id r)) as [E|E]; [|by left; rewrite lock_row_other].
    right. rewrite lock_row_at by done. by rewrite (row_unique ie_id (rows s) b r) by (done || apply Hs).
  - intros p Hin. destruct (Hl p Hin) as [?|Hlk]; [by left|right]. intros y. rewrite Hnow.
    intros (y0 & -> & Hy0)%list_elem_of_fmap Hy. destruct (decide (ie_id y0 = ie_id r)) as [E|E]; [by apply lock_row_at|].
    rewrite lock_row_other in * by done. by apply Hlk.
Qed.

(** The row that is next, at the package. *)
Lemma locking_row p r left s : locking p (r :: left) s → ∃ r', r' ∈ rows s ∧ ie_id r' = ie_id r ∧ ie_packageName r' = p ∧
  (ie_status r = xs_locked → ie_status r' = xs_locked).
Proof. intros [_ Hl]. apply Hl. left. Qed.

Lemma locking_tail p r r' left s : locking p (r :: left) s → store_ok (ds_store s) → r' ∈ rows s → ie_id r' = ie_id r →
  ie_status r' = xs_locked → locking p left s.
Proof.
  intros [Hr Hl] Hs Hr' Hid Hlk. split; [|intros y Hy; apply Hl; by right]. intros y Hy Hp.
  destruct (Hr y Hy Hp) as [?|[E|?]%elem_of_cons]; [by left| |by right]. left.
  by rewrite (row_unique ie_id (rows s) y r') by (done || apply Hs || congruence).
Qed.

Lemma locking_step p r r' left s st : locking p (r :: left) s → store_ok st → ie_id r' = ie_id r →
  es_rows st = map (lock_row (ie_id r')) (rows s) → locking p left (set_store st s).
Proof.
  intros [Hr Hl] Hst Hid Hrows. assert (Hnow : rows (set_store st s) = map (lock_row (ie_id r')) (rows s)) by done.
  split.
  - intros y. rewrite Hnow. intros (y0 & -> & Hy0)%list_elem_of_fmap Hp.
    destruct (decide (ie_id y0 = ie_id r')) as [E|E]; [left; by apply lock_row_at|]. rewrite lock_row_other in * by done.
    destruct (Hr y0 Hy0 Hp) as [?|[?|?]%elem_of_cons]; [by left|congruence|by right].
  - intros y Hy. destruct (Hl y) as (y' & Hy' & Hi & Hp & Hlk); [by right|]. exists (lock_row (ie_id r') y').
    destruct (lock_row_same (ie_id r') y') as (Ei & Ep & _). rewrite Ei, Ep, Hnow. split_and!; [by apply list_elem_of_fmap_2|done..|].
    intros E. destruct (decide (ie_id y' = ie_id r')) as [E'|E']; [by apply lock_row_at|]. rewrite lock_row_other by done. by apply Hlk.
Qed.

Lemma lock_package_ok p left s : p ∈ inventory → booting (p :: left) s →
  runs (lockExtensionByPackageName p) s (λ _, booting left) (λ _ _, False) booted.
Proof.
  intros Hp Hb. apply runs_bind, runs_statement_ok; [done|apply Hb|]. intros _. set (rs := List.filter _ _).
  eapply runs_mono; [apply (runs_each _ (λ l _ s', booting (p :: left) s' ∧ locking p l s') (λ _ _, False) booted)|..]; [| | |done|done].
  - split; [done|]. split.
    + intros r Hr E. right. apply list_elem_of_fmap_2, filter_in. split; [done|]. by apply bool_decide_eq_true.
    + intros r [Hr E]%filter_in. unfold of_package in E. bprop. by exists r.
  - intros r l acc s' _ [Hb' Hl]. destruct (locking_row _ _ _ _ Hl) as (r' & Hr' & Hid & Ep & Hlk).
    destruct (bool_decide (ie_status r = xs_locked)) eqn:E.
    + bprop. apply runs_ret. split; [done|]. eapply locking_tail; [done|apply Hb'|done|done|by apply Hlk].
    + apply runs_bind, runs_catch, runs_statement_ok; [done|apply Hb'|]. intros _. destruct (lock_ok (ds_store s') r') as (x & st & Et & Hst & Hrows); [apply Hb'|done|].
      rewrite <- Hid, Et. apply runs_ret. split; [eapply lock_step; try done; congruence|by eapply locking_step].
  - intros _ s' [(Hs & Hf & Hl) [Hr _]]. split_and!; [done..|]. intros q Hq. destruct (Hl q Hq) as [[->|?]%elem_of_cons|?]; [|by left|by right].
    right. intros r Hin E. destruct (Hr r Hin E) as [?|?%elem_of_nil]; done.
Qed.

Lemma boot_ok : runs lockSystemExtensionsAtBoot s0 (λ _, booting []) (λ _ _, False) booted.
Proof.
  assert (H0 : booting inventory s0).
  { split; [done|]. split; [|by left]. unfold booted. induction (rows s0); constructor; [|done]. split; [by split_and!|by left]. }
  assert (Hin : ∀ l p, p :: l `suffix_of` inventory → p ∈ inventory) by (intros l p [k ->]; apply elem_of_app; right; left).
  apply (runs_each _ (λ l _ s, booting l s)); [done|]. intros p l n s Hsuf Hb. apply runs_bind.
  eapply runs_mono; [apply lock_package_ok; [by eapply Hin|done]|..]; cbn; [intros acc s' Hs'; by apply runs_ret|done|done].
Qed.
End boot.

(** ** What the operations promise *)

(** A package with a locked row is not removed. *)
Lemma gone_unlocked p s s' r : gone p s' → touches (unlocked_of p s) s s' → r ∈ rows s → ie_packageName r = p →
  ie_status r ≠ xs_locked.
Proof.
  intros Hg (_ & Hf & _) Hr Hp Hl. destruct (Hf r Hr) as (r' & Hr' & (Ei & Ep & _) & Es).
  - unfold unlocked_of. rewrite (bool_decide_true (ie_id r ∈ locked_ids s)), andb_false_r; [done|].
    apply list_elem_of_fmap_2, filter_in. split; [done|]. by apply bool_decide_eq_true.
  - rewrite Hg in Es by congruence. congruence.
Qed.

(** The gate of the system extensions. *)
Lemma system_kept how typeId ref actor s : isSystemExtension (pr_packageName ref) = true →
  runs (remove how typeId ref actor) s (λ _ _, False) (λ _ s', s' = s) (λ s', s' = s).
Proof.
  intros Hs. assert (Hgate : ∀ (rest : DM ()), runs (_ ← assertNoLockedCanonicalRow (pr_packageName ref); rest) s
    (λ _ _, False) (λ _ s', s' = s) (λ s', s' = s)).
  { intros rest. apply runs_bind, runs_bind, runs_catch, runs_read; [done|intros e|]; rewrite Hs; [by apply runs_throw|].
    cbv zeta. rewrite orb_true_r. by apply runs_throw. }
  destruct how; cbn [remove]; [apply Hgate..|]. apply runs_bind.
  intros n. unfold forceDelete. pose proof (Hgate (mret ()) n) as Hn. cbv zeta.
  unfold mbind, CM_bind in Hn |- *. by destruct (assertNoLockedCanonicalRow (pr_packageName ref) s n).
Qed.

(** ** The host of the install saga *)

(** The reads and calls the saga is given by default. *)
Definition live_present (org : option string) (s : State) (packageName : string) : bool :=
  existsb (λ r, is_live r && of_package packageName r && (at_org org r || at_org None r)) (rows s).

Definition member_ref (m : MemberRef) : PackageRef :=
  {| pr_registryUrl := ""; pr_packageName := mr_packageName m; pr_version := Some (mr_version m) |}.
Definition installMember (m : MemberRef) (actor : Actor) : DM unit := install (mr_typeId m) (member_ref m) actor.
Definition uninstallMember (m : MemberRef) (actor : Actor) : DM unit := uninstall (mr_typeId m) (member_ref m) actor.

Lemma live_present_true org s p : live_present org s p = true ↔
  ∃ r, r ∈ rows s ∧ is_live r = true ∧ ie_packageName r = p ∧ (ie_organizationId r = org ∨ ie_organizationId r = None).
Proof.
  unfold live_present. rewrite existsb_exists. setoid_rewrite <- list_elem_of_In. setoid_rewrite andb_true_iff.
  setoid_rewrite andb_true_iff. setoid_rewrite orb_true_iff. unfold of_package, at_org. setoid_rewrite bool_decide_eq_true. naive_solver.
Qed.

(** Rows of other packages that stay are present as before. *)
Lemma present_step q s s' org p : (∀ r, r ∈ rows s → q r = false → ∃ r', r' ∈ rows s' ∧ same_row r r') →
  (∀ r, ie_packageName r = p → q r = false) → live_present org s p = true → live_present org s' p = true.
Proof.
  intros Hf Hq (r & Hr & Hl & Hp & Ho)%live_present_true. apply live_present_true.
  destruct (Hf r Hr (Hq r Hp)) as (r' & Hr' & (_ & Ep & Eo & _) & Est). exists r'. unfold is_live in *. rewrite Est, Ep, Eo. by split_and!.
Qed.

Lemma touches_off q p s s' : (∀ r, ie_packageName r ≠ p → q r = false) → touches q s s' → off_package live_present p s s'.
Proof.
  intros Hq (_ & Hf & Hb) org p' Hp. assert (Hq' : ∀ r, ie_packageName r = p' → q r = false) by (intros r <-; by apply Hq).
  apply eq_true_iff_eq. split; eapply present_step; [|exact Hq'|exact Hf|exact Hq'].
  intros r' Hr' E. destruct (Hb r' Hr' E) as (r & Hr & (Hs & Est)). exists r. split; [done|]. split; [|done].
  unfold same_extension in *. intuition congruence.
Qed.

(** ** The theorems *)


(** C14: What removing a package does to the manifest table, by uninstalling,
    archiving or force-deleting it.  However it ends, also when the process dies or
    writes fail anywhere, rows of other packages and locked rows stay as they are;
    it only succeeds when no row of the package is locked, and then every row left
    of it, in every organization, is archived; a package on the list of system
    extensions is never removed and its rows do not change. *)
Theorem removal_outcome how typeId ref actor s0 :
  let p := pr_packageName ref in
  store_ok (ds_store s0) →
  runs (remove how typeId ref actor) s0
    (λ _ s, touches (unlocked_of p s0) s0 s ∧ gone p s ∧ isSystemExtension p = false ∧
            ∀ r, r ∈ rows s0 → ie_packageName r = p → ie_status r ≠ xs_locked)
    (λ _ s, touches (unlocked_of p s0) s0 s ∧ (isSystemExtension p = true → s = s0))
    (λ s, touches (unlocked_of p s0) s0 s ∧ (isSystemExtension p = true → s = s0)).
Proof.
  intros p Hok n. pose proof (within_remove s0 p how typeId ref actor eq_refl s0 (touches_refl _ s0 Hok) n) as Hframe.
  pose proof (remove_gone s0 p Hok how typeId ref actor eq_refl n) as Hgone.
  pose proof (λ Hs, system_kept how typeId ref actor s0 Hs n) as Hsys.
  destruct (remove how typeId ref actor s0 n) as [[] s n'|e s n'|s]; cbn in *; [|done..]. destruct Hframe as [_ Hf].
  split; [done|]. split; [done|]. split; [by apply not_true_iff_false|]. intros r. by eapply gone_unlocked.
Qed.


(** C13: The dispatcher keeps what the install saga relies on (the laws of its host,
    whose packages are those with a live row the organization sees).  From a table
    whose constraints hold they hold after every call; installing or uninstalling a
    member changes no other package for anyone, however the call ends; an uninstall
    that succeeds removes the member for every organization; and an install that
    succeeds makes it visible to the caller's, when the store answers. *)
Theorem dispatcher_serves_batches m actor s :
  let p := mr_packageName m in
  let kept s' := store_ok (ds_store s') ∧ off_package live_present p s s' in
  let reliable := (∀ n, fault_at n = fault_none) ∧ admissible p (ac_orgId actor) s (mr_typeId m) (member_ref m) in
  store_ok (ds_store s) →
  runs (installMember m actor) s
    (λ _ s', kept s' ∧ (reliable → live_present (ac_orgId actor) s' p = true)) (λ _, kept) kept ∧
  runs (uninstallMember m actor) s (λ _ s', kept s' ∧ ∀ org, live_present org s' p = false) (λ _, kept) kept.
Proof.
  intros p kept reliable Hok.
  assert (Hkept : ∀ q s', (∀ r, ie_packageName r ≠ p → q r = false) → touches q s s' → kept s').
  { intros q s' Hq Ht. split; [apply Ht|by eapply touches_off]. }
  assert (Hoff : ∀ r, ie_packageName r ≠ p → of_package p r = false) by (intros r Hr; by apply bool_decide_eq_false).
  assert (Hinst : ∀ r, ie_packageName r ≠ p → installable p (ac_orgId actor) s r = false)
    by (intros r Hr; unfold installable, at_scope; by rewrite Hoff).
  assert (Hun : ∀ r, ie_packageName r ≠ p → unlocked_of p s r = false) by (intros r Hr; unfold unlocked_of; by rewrite Hoff).
  split; intros n.
  - pose proof (host_install_frame p (ac_orgId actor) s Hok (mr_typeId m) (member_ref m) actor ho_install eq_refl eq_refl n) as Hframe.
    unfold installMember, install. destruct (runHostInstallLocked _ _ _ _ s n) as [[] s' n'|e s' n'|s'] eqn:E; cbn in Hframe |- *;
      [|by apply (Hkept (installable p (ac_orgId actor) s))..].
    split; [by apply (Hkept (installable p (ac_orgId actor) s))|]. intros [Hf Ha].
    pose proof (host_install_ok p (ac_orgId actor) s Hok Hf (mr_typeId m) (member_ref m) actor ho_install eq_refl eq_refl Ha n) as Hn.
    rewrite E in Hn. destruct Hn as [(r & Hr & Hs & Hl) _]. unfold at_scope, of_package, at_org in Hs.
    apply andb_true_iff in Hs as [Hs1 Hs2]. bprop. apply live_present_true. exists r. split_and!; [done..|by left].
  - pose proof (within_remove s p rm_uninstall (mr_typeId m) (member_ref m) actor eq_refl s (touches_refl _ s Hok) n) as Hframe.
    pose proof (remove_gone s p Hok rm_uninstall (mr_typeId m) (member_ref m) actor eq_refl n) as Hgone.
    cbn [remove] in *. unfold uninstallMember. destruct (uninstall _ _ _ s n) as [[] s' n'|e s' n'|s']; cbn in Hframe, Hgone |- *;
      [|by apply (Hkept (unlocked_of p s))..].
    destruct Hframe as [_ Hframe]. split; [by apply (Hkept (unlocked_of p s))|]. intros org. apply not_true_iff_false.
    intros (r & Hr & Hl & Hp & _)%live_present_true. unfold is_live in Hl. by rewrite (Hgone r Hr Hp) in Hl.
Qed.
End dispatcher.

(** ** Instances

    A host with one kind, whose hook records the installed source of the rows at the
    scope and reports them finalized. *)

#[local] Instance demo_semver : Semver := {| semver_satisfies := λ v range, v ≟ range |}.
#[local] Instance demo_faults : Faults dispatch_exn := {| fault_at := λ _, fault_none; now_at := Z.of_nat |}.

Abbreviation DemoState := (DispatchState ()).

Definition demo_source : json := JObj [("type", JStr "verdaccio"); ("integrity", JStr "sha512-demo")].
Definition demo_finalize (p : string) (org : option string) (s : DemoState) : DemoState := {|
  ds_store := {| es_rows := map (λ r, if at_scope p org r then with_source demo_source r else r) (rows s);
                 es_access := es_access (ds_store s) |};
  ds_journal := λ p' org', if (p' ≟ p) && (org' ≟ org) then Some "finalized" else ds_journal s p' org';
  ds_ext := ds_ext s |}.

Definition demo_hook (p : string) (org version : option string) : CM DemoState dispatch_exn ExtensionActivateResult :=
  statement (λ _ _ s, (Ok {| ar_activated := true; ar_finalized := Some true; ar_rolledBack := false; ar_rollbackComplete := false |},
                       demo_finalize p org s)).

Definition demo_handler : ExtensionTypeHandler () := {|
  hd_install := λ _ _, mret (); hd_update := λ _ _, mret (); hd_uninstall := λ _ _, mret ();
  hd_archive := λ _ _, mret (); hd_restore := λ _ _, mret () |}.

#[local] Instance demo_env : DispatchEnv () := {|
  de_handler := λ typeId, if typeId ≟ "connector" then Some demo_handler else None;
  de_agentTemplatesDependingOn := λ _, mret [];
  de_agentTemplateByPackageName := λ _, mret None;
  de_countRunsForTemplate := λ _, mret 0;
  de_activateHook := Some demo_hook; de_capabilityTeardownHook := None; de_dataTeardownHook := None;
  de_auditForceDelete := λ _ _ _, mret []; de_removeReferencingRunRows := λ _, mret ();
  de_requiredEntries := [{| rq_packageName := "@x/core"; rq_versionRange := None |}]; de_systemExtensions := ["@x/system"];
  de_isDev := false; de_randomUUID := λ s, show_nat (length (rows s)) |}.

Lemma demo_finalize_calm p org s : calm s (demo_finalize p org s).
Proof.
  unfold calm, rows at 2. cbn. induction (rows s) as [|r l IH]; cbn; constructor; [|done].
  destruct (at_scope p org r); by split_and!.
Qed.

Lemma demo_finalize_all p org s : all_finalized p org (demo_finalize p org s).
Proof.
  intros r (r0 & -> & _)%list_elem_of_fmap Hs. destruct (at_scope p org r0) eqn:E; [|congruence].
  apply andb_true_iff in E as [E1 E2]. unfold of_package, at_org in *. bprop.
  unfold unfinished, isNonFinalizedLiveRowAware, isNonFinalizedLiveRow. cbn [ie_source with_source].
  assert (Ei : str_of (jprop "integrity" demo_source) = Some "sha512-demo") by by vm_compute. rewrite Ei.
  rewrite (bool_decide_false ("sha512-demo" ∈ _)) by (by apply (bool_decide_unpack _)). cbn.
  rewrite !bool_decide_true by done. cbn. by rewrite !andb_false_r.
Qed.

Lemma calm_refl (s : DemoState) : calm s s.
Proof. unfold calm. induction (rows s); constructor; [apply same_row_refl|done]. Qed.

Lemma quiet_nothing {A} (a : A) : quiet (mret a : CM DemoState dispatch_exn A).
Proof. intros s. apply runs_ret, calm_refl. Qed.

#[local] Instance demo_laws : DispatchLaws.
Proof.
  split; try (intros; apply quiet_nothing); try (intros hook E; discriminate E).
  - intros typeId h E ref actor. cbn in E. destruct (typeId ≟ "connector"); [|done]. injection E as <-.
    split_and!; apply quiet_nothing.
  - intros hook [= <-] p org v s. apply runs_statement; [apply calm_refl|intros; apply calm_refl|]. intros _ _.
    split; [intros _|]; apply demo_finalize_calm.
  - intros hook [= <-] p org v s. apply runs_statement; [done|done|]. intros _ _. split; [done|]. intros _. apply demo_finalize_all.
Qed.

Definition demo_row (id packageName : string) (status : ExtensionLifecycleStatus) : InstalledExtension := {|
  ie_id := id; ie_packageName := packageName; ie_ownerLevel := xo_organization; ie_ownerId := Some "org";
  ie_organizationId := Some "org"; ie_kind := xk_connector; ie_status := status; ie_source := demo_source;
  ie_requiredInProd := false; ie_dependencies := []; ie_manifestHash := None |}.
Definition demo_state : DemoState := {|
  ds_store := {| es_rows := [demo_row "a" "@x/core" xs_archived; demo_row "b" "@x/old" xs_active]; es_access := [] |};
  ds_journal := λ _ _, None; ds_ext := () |}.
Definition demo_ref (packageName : string) : PackageRef :=
  {| pr_registryUrl := ""; pr_packageName := packageName; pr_version := Some "1.0.0" |}.
Definition demo_actor : Actor := {| ac_orgId := Some "org"; ac_userId := None; ac_source := "ui" |}.

Lemma demo_ok : store_ok (ds_store demo_state).
Proof.
  split; [|split]; [by apply (bool_decide_unpack _)..|]. intros r Hr.
  by repeat (apply elem_of_cons in Hr as [->|Hr]; [done|]); apply elem_of_nil in Hr.
Qed.

Definition outline (s : DemoState) : list (string * ExtensionLifecycleStatus) :=
  map (λ r, (ie_packageName r, ie_status r)) (rows s).


Lemma removal_outcome_witness : ∃ s n,
  remove rm_uninstall "connector" (demo_ref "@x/old") demo_actor demo_state 20%nat = Done () s n ∧
  outline s = [("@x/core", xs_archived)] ∧ gone "@x/old" s.
Proof.
  pose proof (removal_outcome rm_uninstall "connector" (demo_ref "@x/old") demo_actor demo_state demo_ok 20%nat) as Ht.
  destruct (remove rm_uninstall "connector" (demo_ref "@x/old") demo_actor demo_state 20%nat) as [[] s n|e s n|s] eqn:E;
    [|vm_compute in E; discriminate E..].
  exists s, n. split; [reflexivity|]. split; [vm_compute in E; injection E as <- _; reflexivity|]. apply Ht.
Defined.


Lemma dispatcher_serves_batches_witness : ∃ s n,
  installMember {| mr_typeId := "connector"; mr_packageName := "@x/new"; mr_version := "1.0.0" |} demo_actor demo_state 20%nat = Done () s n ∧
  live_present (Some "org") s "@x/new" = true ∧ live_present (Some "org") s "@x/old" = true.
Proof.
  destruct (dispatcher_serves_batches {| mr_typeId := "connector"; mr_packageName := "@x/new"; mr_version := "1.0.0" |} demo_actor
    demo_state demo_ok) as [Ht _]. specialize (Ht 20%nat).
  destruct (installMember {| mr_typeId := "connector"; mr_packageName := "@x/new"; mr_version := "1.0.0" |} demo_actor demo_state 20%nat)
    as [[] s n|e s n|s] eqn:E; [|vm_compute in E; discriminate E..].
  destruct Ht as [[_ Hoff] Hlive]. exists s, n. split; [reflexivity|]. split; [|rewrite Hoff by discriminate; reflexivity].
  apply Hlive. split; [reflexivity|]. split; [discriminate|].
  repeat (split; [first [reflexivity|discriminate]|]). intros r Hr.
  repeat (apply elem_of_cons in Hr as [->|Hr]; [discriminate|]). apply elem_of_nil in Hr. destruct Hr.
Defined.
