(* ===== verification/Proposals.v ===== *)
(** * What the tools may do

    The tools only propose: whatever a call is, it writes nothing, or adds one
    draft of the actor's own, or replaces the spec of one draft the actor may
    manage, or adds one template of the actor's own.  And what they show was
    readable to the actor. *)

From S2P Require Import Prelude Json Time Spec Limits Tokens Validate Transitions Gates Store Hoare Evolution Ops Reconciler.
From S2P Require Import Resolver Drafts Access Approvals Edits Bpmn Manifest Sample Templates Roundtrip Walk PausedEdit.
From S2P Require Import Isolation Safety Tools.
Open Scope Z_scope.

(** ** What a call may do *)

Definition same_owner (actor : WorkflowActor) (level owner : option string) (orgId : string) : Prop :=
  level = Some "user" ∧ owner = wa_userId actor ∧ Some orgId = wa_organizationId actor.

Inductive proposal (actor : WorkflowActor) (d d' : DB) : Prop :=
  | proposes_nothing (E : d' = d)
  | proposes_draft (input : CreateInput) (wf : string)
      (Hadded : added input wf d d') (Hdraft : ci_status input = Some ws_draft)
      (Howner : same_owner actor (ci_ownerLevel input) (ci_ownerId input) (ci_orgId input))
  | proposes_edit (w w' : WorkflowRow)
      (Hw : w ∈ db_workflow d) (Hw' : w' ∈ db_workflow d') (Hid : wr_id w' = wr_id w)
      (Hdraft : wr_status w = ws_draft) (Hdraft' : wr_status w' = ws_draft)
      (Hmanage : canManage (workflow_scope w) actor = true) (Hscope : workflow_scope w' = workflow_scope w)
      (Hlock : wr_lockVersion w' = wr_lockVersion w + 1)
      (Hapart : apart (wr_id w) d d') (Hrows : draft_rows (wr_id w) d')
  | proposes_template (t : TemplateRow)
      (E : d' = with_template d (db_template d ++ [t]))
      (Howner : same_owner actor (wt_ownerLevel t) (wt_ownerId t) (wt_orgId t))
      (Hfresh : template_taken (template_key t) d = false).

(** ** What a call may show *)

Section visible.
Context (deps : WorkflowHandlerDeps) (allowed : WorkflowActor → string → string → bool).

(** The access gate of the host let the actor use the package of the template. *)
Definition gate_open (actor : WorkflowActor) (op : string) (t : TemplateRow) : Prop :=
  ∀ p, templateSourcePackage t = Some p → hd_assertExtensionAccess deps ≠ None → allowed actor p op = true.

Definition shown_template (actor : WorkflowActor) (op : string) (d : DB) (t : TemplateRow) : Prop :=
  t ∈ db_template d ∧ isReadable (template_scope t) actor = true ∧ gate_open actor op t.

Definition shown_workflow (actor : WorkflowActor) (d : DB) (w : WorkflowRow) : Prop :=
  w ∈ db_workflow d ∧ isReadable (workflow_scope w) actor = true.

(** Nothing of the engine's own state but the fan-out sentinels. *)
Definition public_metadata (meta : list (string * json)) : Prop := ∀ kv, kv ∈ meta → kv.1 ∈ ALLOWED_METADATA_KEYS.

Definition visible (call : tool_call) (actor : WorkflowActor) (d : DB) (r : tool_result) : Prop :=
  match r with
  | res_templates l => ∀ e, e ∈ l → ∃ t, e = template_entry t ∧ shown_template actor "list" d t
  | res_template e _ _ => ∃ t, e = template_entry t ∧ shown_template actor "read" d t
  | res_instantiated _ i v _ =>
      ∃ t input, i = wt_id t ∧ v = wt_version t ∧ shown_template actor "execute" d t ∧
        call = workflow_template_instantiate input ∧
        ∀ name decl, (name, decl) ∈ declared_placeholders (wt_definition t) → truthy (jprop "required" decl) = true →
          unsupplied (ii_inputs input ?? []) name = false
  | res_draft _ w tasks _ _ =>
      shown_workflow actor d w ∧
      tasks = map toPublicTaskDto (List.filter (λ t, tr_workflowId t ≟ wr_id w) (db_task d)) ∧
      ∀ t, t ∈ tasks → public_metadata (pd_metadata t)
  | res_workflows l => ∀ e, e ∈ l → ∃ w, e = workflow_entry w ∧ shown_workflow actor d w
  | res_preview (Some h) _ _ _ => ∃ w, hf_workflowId h = wr_id w ∧ shown_workflow actor d w
  | res_status s => ∃ w, ss_id s = wr_id w ∧ shown_workflow actor d w ∧
                         ∀ t, t ∈ ss_tasks s → public_metadata (st_metadata t)
  | res_artifacts l => ∃ w, shown_workflow actor d w ∧
                            ∀ a, a ∈ l → a ∈ db_artifact d ∧ ar_workflowId a = wr_id w
  | res_cascade h _ _ v => ∃ w, hf_workflowId h = wr_id w ∧ v = wr_lockVersion w ∧ shown_workflow actor d w
  | res_copied _ i => ∃ w, i = wr_id w ∧ shown_workflow actor d w
  | _ => True
  end.
End visible.

(** The host's gates answer without touching the engine's tables; access to a
    package is decided by [allowed]. *)
Record host_law (deps : WorkflowHandlerDeps) (allowed : WorkflowActor → string → string → bool) : Prop := {
  hl_project : ∀ f, hd_assertProjectWritable deps = Some f → ∀ p, quiet (f p);
  hl_grant : ∀ f, hd_assertProjectWriteAccess deps = Some f → ∀ a p, quiet (f a p);
  hl_agent : ∀ f, hd_agentExists deps = Some f → ∀ a o, quiet (f a o);
  hl_approver : ∀ f, hd_approverResolvable deps = Some f → ∀ a o, quiet (f a o);
  hl_closure : ∀ f, hd_assertDependencyClosure deps = Some f → ∀ a p, quiet (f a p);
  hl_access : ∀ f, hd_assertExtensionAccess deps = Some f → ∀ a p op s,
    if allowed a p op then f a p op s = (s, Ok ()) else ∃ e, f a p op s = (s, Err e)
}.

Lemma pickPublicMetadata_public meta : public_metadata (pickPublicMetadata meta).
Proof.
  intros kv Hkv. unfold pickPublicMetadata in Hkv. apply list_elem_of_omap in Hkv as (k & Hk & E).
  destruct (jget k meta) as [v|]; [|done]. by injection E as <-.
Qed.

(** ** The steps of the handlers *)

Section steps.
Context `{Runtime} `{DateEnv}.
Context (safeParse : json → result (list ZodIssue) WorkflowSpec) (deps : WorkflowHandlerDeps).
Context (allowed : WorkflowActor → string → string → bool).
Hypothesis host : host_law deps allowed.
Implicit Types (d : DB) (E : exn → DB → Prop).

Lemma wp_readable_workflow actor i (Q : option ReadWorkflowResult → DB → Prop) E d :
  (∀ r, shown_workflow actor d (rw_workflow r) → wr_id (rw_workflow r) = i →
        rw_tasks r = List.filter (λ t, tr_workflowId t ≟ i) (db_task d) →
        first_where (λ w, wr_id w ≟ i) (db_workflow d) = Some (rw_workflow r) → Q (Some r) d) →
  Q None d → wp (readable_workflow actor i) Q E d.
Proof.
  intros HQ HN. unfold readable_workflow, readWorkflow, select_workflow. wp1. wp1. wp1.
  destruct (first_where _ _) as [w|] eqn:Ew; [|by wps]. wps.
  destruct (isReadable _ _) eqn:Er; [|done]. apply HQ; cbn; try done; apply first_where_workflow in Ew as [? ?]; [by split|done].
Qed.

Lemma wp_readable_template actor i (Q : option TemplateRow → DB → Prop) E d :
  (∀ t, t ∈ db_template d → isReadable (template_scope t) actor = true → Q (Some t) d) →
  Q None d → wp (readable_template actor i) Q E d.
Proof.
  intros HQ HN. unfold readable_template, readWorkflowTemplate. wps. destruct (List.find _ _) as [t|] eqn:Et; [|done].
  destruct (isReadable _ _) eqn:Er; [|done]. apply HQ; [|done].
  apply find_some in Et as [Hin _]. by apply list_elem_of_In.
Qed.

Lemma wp_reconstructSpec i (Q : option json → DB → Prop) E d : (∀ spec, Q spec d) → (∀ e, E e d) →
  wp (reconstructSpec i) Q E d.
Proof. intros HQ HE. apply wp_quiet; [apply quiet_reconstructSpec|done|done]. Qed.

Lemma wp_materializeSpec raw (Q : result (list StructuredSpecError) (WorkflowSpec * Verdict) → DB → Prop) E d :
  (∀ r, Q r d) → (∀ e, E e d) → wp (materializeSpec safeParse raw) Q E d.
Proof. intros HQ HE. unfold materializeSpec. wps; done. Qed.

Lemma wp_first_missing_quiet test tasks (Q : option TaskSpec → DB → Prop) E d :
  (∀ t, quiet (test t)) → (∀ r, Q r d) → (∀ e, E e d) → wp (first_missing test tasks) Q E d.
Proof.
  intros Ht HQ HE. induction tasks as [|t r IH]; cbn; [by wps|]. wp1. apply wp_quiet; [done| |done].
  intros []; [exact IH|by wps].
Qed.

Lemma quiet_ret {A} (a : A) : quiet (mret a).
Proof. by intros s. Qed.

Lemma wp_missing_agent_quiet orgId tasks (Q : option TaskSpec → DB → Prop) E d :
  (∀ r, Q r d) → (∀ e, E e d) → wp (missing_agent (reauthorization deps) orgId tasks) Q E d.
Proof.
  intros HQ HE. unfold missing_agent. cbn. destruct (hd_agentExists deps) as [f|] eqn:Ea; [|by wps].
  apply wp_first_missing_quiet; [|done..]. intros t. unfold agent_available.
  destruct (t_body t); first [apply (hl_agent _ _ host f Ea)|apply quiet_ret].
Qed.

Lemma wp_missing_approver_quiet orgId tasks (Q : option TaskSpec → DB → Prop) E d :
  (∀ r, Q r d) → (∀ e, E e d) → wp (missing_approver (reauthorization deps) orgId tasks) Q E d.
Proof.
  intros HQ HE. unfold missing_approver. cbn. destruct (hd_approverResolvable deps) as [g|] eqn:Ep; [|by wps].
  apply wp_first_missing_quiet; [|done..]. intros t. unfold approver_available.
  destruct (t_body t); first [apply (hl_approver _ _ host g Ep)|apply quiet_ret].
Qed.

Lemma wp_reauthorizeReferences spec orgId (Q : option ToolError → DB → Prop) E d :
  (∀ r, Q r d) → (∀ e, E e d) → wp (reauthorizeReferences deps spec orgId) Q E d.
Proof.
  intros HQ HE. unfold reauthorizeReferences. wp1. apply wp_missing_agent_quiet; [|done].
  intros [t|]; [by wps|]. wp1. apply wp_missing_approver_quiet; [|done]. intros r. by wps.
Qed.

Lemma wp_attempt gate refusal (Q : option tool_result → DB → Prop) E d :
  quiet gate → Q None d → (∀ e, Q (Some (refusal e)) d) → wp (attempt gate refusal) Q E d.
Proof.
  intros Hq HN HS. unfold attempt. apply wp_catch. wp1. apply wp_quiet; [done| |]; intros; by wps.
Qed.

Lemma wp_extension_gate actor t op refusal (Q : option tool_result → DB → Prop) E d :
  (gate_open deps allowed actor op t → Q None d) → (∀ e, Q (Some (refusal e)) d) →
  wp (extension_gate deps actor t op refusal) Q E d.
Proof.
  intros HN HS. unfold extension_gate. destruct (templateSourcePackage t) as [p|] eqn:Ep.
  - destruct (hd_assertExtensionAccess deps) as [f|] eqn:Ef.
    + unfold attempt. apply wp_catch. wp1. intros n. pose proof (hl_access _ _ host f Ef actor p op {| st_db := d; st_draws := n |}) as Hf.
      destruct (allowed actor p op) eqn:Ea.
      * rewrite Hf. apply wp_ret, HN. intros q Eq _. congruence.
      * destruct Hf as [e ->]. apply wp_ret, HS.
    + wps. apply HN. by intros q _ Hn.
  - wps. apply HN. intros q Eq. congruence.
Qed.

(** ** The handlers *)

Context (d : DB) (fk : fk_ok d) (refs_closed : ∀ wf, closed wf d) (ids_unique : NoDup (map wr_id (db_workflow d))).

Definition safe_call (call : tool_call) (actor : WorkflowActor) (m : M tool_result) : Prop :=
  wp m (λ r d', proposal actor d d' ∧ visible deps allowed call actor d r) (λ _ d', d' = d) d.

Ltac reads :=
  repeat (cbv beta; first
    [ apply wp_readable_workflow; [intros ? ? ? ? ?|]
    | apply wp_readable_template; [intros ? ? ?|]
    | apply wp_reconstructSpec; [intros ?|done]
    | apply wp_materializeSpec; [intros [[? ?]|?]|done]
    | apply wp_reauthorizeReferences; [intros ?|done]
    | wp1
    | match goal with |- wp (match ?x with _ => _ end) _ _ _ => destruct x eqn:? end ]).

Ltac shows := split; [by apply proposes_nothing|cbn [visible]; try exact I].

(** The one write of the creating tools. *)
Lemma safe_create call actor spec name template orgId userId projectId (k : string → tool_result) :
  truthy_str (wa_organizationId actor) = Some orgId → truthy_str (wa_userId actor) = Some userId →
  (∀ wf, visible deps allowed call actor d (k wf)) →
  wp (createWorkflowFromSpec (draft_input spec name template orgId userId projectId))
    (λ wf, wp (mret (k wf)) (λ r d', proposal actor d d' ∧ visible deps allowed call actor d r) (λ _ d', d' = d))
    (λ _ d', d' = d) d.
Proof.
  intros Ho Hu Hk. apply truthy_str_Some in Ho as [Ho _]. apply truthy_str_Some in Hu as [Hu _].
  eapply wp_conseq; [by apply createWorkflowFromSpec_added|]. cbn. intros wf d' Ha. wps. split; [|apply Hk].
  eapply proposes_draft; [exact Ha|done|]. by split_and!.
Qed.

Lemma safe_draft_create actor spec : safe_call (workflow_draft_create spec) actor (draft_create safeParse actor spec).
Proof. unfold safe_call, draft_create. reads; try (by shows). by apply (safe_create _ _ _ _ _ _ _ _ (λ wf, res_drafted _ _)). Qed.

Lemma safe_copy actor i name at_ : safe_call (workflow_copy i name at_) actor (copy safeParse actor i name at_).
Proof. unfold safe_call, copy. reads; try (by shows). apply safe_create; [done..|]. cbn. eauto. Qed.

Lemma safe_draft_get actor i : safe_call (workflow_draft_get i) actor (draft_get actor i).
Proof.
  unfold safe_call, draft_get, stored_timeline. reads; try done; shows.
  all: split_and!; [done|by match goal with H1 : rw_tasks _ = _, H2 : wr_id _ = _ |- _ => rewrite H1, H2 end|];
    intros t (u & -> & _)%list_elem_of_fmap; apply pickPublicMetadata_public.
Qed.

Lemma safe_draft_list call actor status projectId : safe_call call actor (draft_list actor status projectId).
Proof.
  unfold safe_call, draft_list, listWorkflows. reads; shows.
  intros e (w & -> & Hw)%list_elem_of_fmap. unfold filterReadable in Hw. apply filter_in in Hw as [Hw Hr].
  apply filter_in in Hw as [Hw _]. exists w. by split_and!.
Qed.

Lemma safe_validate spec actor : safe_call (workflow_validate spec) actor (validate safeParse spec).
Proof. unfold safe_call, validate. reads; try done; shows. Qed.

Lemma safe_preview actor spec i : safe_call (workflow_preview spec i) actor (preview safeParse actor spec i).
Proof. unfold safe_call, preview. reads; try done; shows; cbn; eauto. Qed.

Lemma safe_status_get actor i : safe_call (workflow_status_get i) actor (status_get actor i).
Proof.
  unfold safe_call, status_get. reads; shows. eexists. split_and!; [done..|].
  cbn. intros t (u & -> & _)%list_elem_of_fmap. apply pickPublicMetadata_public.
Qed.

Lemma safe_artifacts_list actor i taskId : safe_call (workflow_artifacts_list i taskId) actor (artifacts_list actor i taskId).
Proof.
  unfold safe_call, artifacts_list, listWorkflowArtifacts. reads; shows. eexists. split; [done|].
  intros a [Ha Hb]%filter_in. split; [done|]. bprop. congruence.
Qed.

Lemma safe_cascade_preview actor i at_ : safe_call (workflow_cascade_preview i at_) actor (cascade_preview actor i at_).
Proof. unfold safe_call, cascade_preview. reads; try done; shows; cbn; eauto. Qed.

(** Listing: a template is kept when its gate lets the actor in. *)
Lemma wp_listable actor rows (Q : list TemplateRow → DB → Prop) :
  (∀ l, (∀ t, t ∈ l → t ∈ rows ∧ gate_open deps allowed actor "list" t) → Q l d) →
  wp (filterM (λ t, r ← extension_gate deps actor t "list" (λ _, org_required); mret (negb (is_present r))) rows) Q
    (λ _ d', d' = d) d.
Proof.
  revert Q. induction rows as [|t rows IH]; intros Q HQ; cbn [filterM].
  { wps. apply HQ. by intros t ?%elem_of_nil. }
  wp1. wp1. apply wp_extension_gate; [intros Hg|intros e]; wp1; wp1; apply IH; intros l Hl; wps; apply HQ; cbn.
  - intros u [->|Hu]%elem_of_cons; [split; [left|done]|]. destruct (Hl u Hu). split; [by right|done].
  - intros u Hu. destruct (Hl u Hu). split; [by right|done].
Qed.

Lemma safe_template_list actor : safe_call workflow_template_list actor (template_list deps actor).
Proof.
  unfold safe_call, template_list, listWorkflowTemplates. reads; [|shows]. apply wp_listable. intros l Hl. wps. shows.
  intros e (t & -> & Ht)%list_elem_of_fmap. destruct (Hl t Ht) as [Hin Hg]. exists t.
  unfold filterReadable in Hin. apply filter_in in Hin as [Hin Hr]. apply filter_in in Hin as [Hin _]. by split_and!.
Qed.

Lemma safe_template_get actor i : safe_call (workflow_template_get i) actor (template_get deps actor i).
Proof.
  unfold safe_call, template_get. reads; try (by shows). apply wp_extension_gate; intros; wps; shows.
  eexists. by split_and!.
Qed.

Lemma wp_instantiate_gates actor t input (Q : option tool_result → DB → Prop) :
  (gate_open deps allowed actor "execute" t → Q None d) → (∀ e, Q (Some (res_error e)) d) →
  wp (instantiate_gates deps actor t input) Q (λ _ d', d' = d) d.
Proof.
  intros HN HS. unfold instantiate_gates. wp1. apply wp_extension_gate; [intros Hg|intros e; by wps]. cbn. wp1.
  assert (wp (project_gate deps actor (ii_projectId input)) Q (λ _ d', d' = d) d) as Hp.
  { unfold project_gate. destruct (truthy_str _) as [p|]; [|wps; by apply HN].
    destruct (hd_assertProjectWriteAccess deps) as [f|] eqn:Ef; [|by wps].
    apply wp_attempt; [by eapply hl_grant|by apply HN|intros; apply HS]. }
  destruct (templateSourcePackage t) as [p|]; [|by wp1].
  destruct (hd_assertDependencyClosure deps) as [f|] eqn:Ef; [|by wp1].
  apply wp_attempt; [by eapply hl_closure|exact Hp|]. intros e. by wps.
Qed.

Lemma safe_template_instantiate actor input :
  safe_call (workflow_template_instantiate input) actor (template_instantiate safeParse deps actor input).
Proof.
  unfold safe_call, template_instantiate. reads; try (by shows). apply wp_instantiate_gates; [intros Hg|intros e; wps; shows].
  destruct (missing_placeholders _ _) eqn:Em; [|wps; shows]. reads; try (by shows). apply safe_create; [done..|].
  intros wf. cbn. do 2 eexists. split_and!; [done..|]. intros name decl Hin Hreq.
  destruct (unsupplied (ii_inputs input ?? []) name) eqn:Eu; [|done]. exfalso.
  assert (name ∈ missing_placeholders (wt_definition t) (ii_inputs input ?? [])) as Hm; [|by rewrite Em in Hm; apply elem_of_nil in Hm].
  apply list_elem_of_fmap. exists (name, decl). split; [done|]. apply filter_in. cbn. by rewrite Hreq, Eu.
Qed.

Lemma safe_save_as_template actor input :
  safe_call (workflow_save_as_template input) actor (save_as_template safeParse actor input).
Proof.
  unfold safe_call, save_as_template, listWorkflowTemplates, createWorkflowTemplate, insert_template.
  reads; try (by shows); try done. split; [|done]. bprop. eapply proposes_template; [done| |done].
  repeat match goal with H : truthy_str _ = Some _ |- _ => apply truthy_str_Some in H as [? _] end. by split_and!.
Qed.

(** Replacing the spec of a draft the actor may manage. *)
Lemma safe_update actor w input :
  first_where (λ w, wr_id w ≟ ui_workflowId input) (db_workflow d) = Some w → wr_status w = ws_draft →
  canManage (workflow_scope w) actor = true →
  wp (updateWorkflowDraftSpec (mret ()) input) (λ _ d', proposal actor d d') (λ _ d', d' = d) d.
Proof.
  intros Ew Hs Hm. unfold updateWorkflowDraftSpec, select_workflow. wp1. wp1. rewrite Ew, Hs. change (negb (editable ws_draft)) with false. cbv iota.
  destruct (negb (_ =? _)); [wps; by apply proposes_nothing|]. wp1. wp1. apply wp_catch. wp1. apply wp_transaction.
  eapply wp_mono; [eapply wp_and; [by apply update_spec_apart|apply update_spec_workflow]| |].
  - cbn beta. intros [] d' [Ha Hwon]; apply wp_ret; [|by apply proposes_nothing].
    destruct Ha as [Ha Hrows]. destruct Hwon as (Hne & target & now & Hwf).
    destruct (first_where_editable input _ ids_unique Hne) as (w0 & E & Hed).
    assert (w0 = w) as -> by congruence. destruct (first_where_workflow _ _ _ Ew) as [Hin Hid].
    eapply (proposes_edit _ _ _ w (respecified input target (ui_expectedLockVersion input + 1) now w)); try done.
    + rewrite Hwf. apply set_where_in. exists w. by rewrite Hed.
    + unfold editable_at, workflow_cas in Hed. bprop. cbn. lia.
    + by rewrite Hid.
    + rewrite Hid. apply Hrows. intros x Hx. assert (x = w) as -> by congruence. by rewrite Hs.
  - cbn beta. intros e d' _. destruct e; first [apply wp_throw; done|apply wp_ret; by apply proposes_nothing].
Qed.

Lemma safe_draft_update actor input :
  safe_call (workflow_draft_update input) actor (draft_update safeParse (mret ()) deps actor input).
Proof.
  unfold safe_call, draft_update.
  reads; try (by shows); bprop; [apply wp_quiet; [by eapply hl_project|intros _; wp1|done]|..].
  all: eapply wp_conseq; [by eapply safe_update|]; intros res d' Hp; wp1; by destruct (ur_ok res).
Qed.

Lemma safe_run_tool envelope call :
  safe_call call (getActor envelope) (run_tool safeParse (mret ()) deps envelope call).
Proof.
  destruct call; cbn [run_tool];
    auto using safe_template_list, safe_template_get, safe_draft_create, safe_draft_update, safe_draft_get, safe_draft_list,
      safe_validate, safe_preview, safe_status_get, safe_artifacts_list, safe_template_instantiate, safe_cascade_preview,
      safe_copy, safe_save_as_template.
Qed.
End steps.

(** ** The two guarantees *)

Section guarantees.
Context `{Runtime} `{DateEnv}.
Context (safeParse : json → result (list ZodIssue) WorkflowSpec) (deps : WorkflowHandlerDeps).
Context (allowed : WorkflowActor → string → string → bool) (envelope : json) (call : tool_call) (d : DB).


End guarantees.

(** A user drafting a workflow, on tables with an active one. *)
Definition no_host : WorkflowHandlerDeps := {|
  hd_assertProjectWritable := None; hd_assertProjectWriteAccess := None; hd_agentExists := None;
  hd_approverResolvable := None; hd_assertExtensionAccess := None; hd_assertDependencyClosure := None |}.

Definition sample_envelope : json := JObj [("orgId", JStr "o1"); ("userId", JStr "u1")].

Lemma no_host_law : host_law no_host (λ _ _ _, false).
Proof. by split. Qed.

Lemma ready_ids : NoDup (map wr_id (db_workflow ready_db)).
Proof. apply (bool_decide_unpack _). vm_compute. reflexivity. Qed.

Definition draft_call : tool_call := workflow_draft_create JNull.
Definition drafted (r : result exn tool_result) : bool := match r with Ok (res_drafted _ _) => true | _ => false end.


Definition status_call : tool_call := workflow_status_get "w1".
Definition shown_status (r : result exn tool_result) : bool := match r with Ok (res_status _) => true | _ => false end.

